(* ===== verification/_CoqProject ===== *)
-Q . S2P
Prelude.v
IntUtil.v
Config.v
Median.v
RollingMedian.v
Difficulty.v
HardFork.v
StdMap.v
Hex.v
Checkpoints.v
Varint.v
FastHash.v
Keccak.v
Base58.v
Pruning.v
BlockQueue.v
Emission.v
ChainDb.v
NextDifficulty.v
BlockRules.v
TreeHash.v
Archive.v
TxFormat.v
TxCodec.v
TxWeight.v
ChainStore.v
StoreProofs.v
StoreReads.v
ForkStore.v
Weights.v
Limbs.v
ScalarOps.v
FieldOps.v
CurveData.v
Primality.v
Groups.v
Edwards.v
Curve25519.v
GroupOps.v
PointCodec.v
HashPoint.v
ScalarMult.v
GroupOrder.v
Random.v
Keys.v
KeyProofs.v
Signatures.v
RctData.v
RctPoints.v
RctOps.v
RctProofs.v
RingChain.v
Clsag.v
ClsagProofs.v
Mlsag.v
MlsagProofs.v
RangeProof.v
RctSigs.v
RctGen.v
RctSigProofs.v
RctGenProofs.v
