(* ===== verification/Prelude.v ===== *)
(** * Nerva: a verification development

    Nerva is a CryptoNote node (a fork of Monero) in C++. This library is a
    shallow embedding of its consensus core, of the cryptography that the core
    rests on and of the codecs and queues around it, in the order of [_CoqProject]. Every definition that models code carries
    a [Source:] line with the file, lines and symbol it translates.

    ** The program and the files that model it

    - Wide arithmetic ([contrib/epee int-util]) and [epee::misc_utils::median]:
      [IntUtil.v], [Median.v]. The median sorts its argument in place, so the
      model returns the vector the caller is left with.
    - Constants, fork schedules, networks ([src/cryptonote_config.h]):
      [Config.v].
    - Difficulty ([src/cryptonote_basic/difficulty.cpp]): [Difficulty.v] has the
      proof-of-work test and the four generations of the adjustment rule, the
      last one over IEEE doubles ([SpecFloat]). boost's conversion to 64 bits
      and its rounding are parameters.
    - Hard forks ([src/cryptonote_basic/hardfork.cpp]): [HardFork.v] has the
      whole object [HardFork] with the slice of the database it uses, and the
      step relation of how [Blockchain] drives it (append, pop, rescan,
      reorganise).
    - Checkpoints and quick sync ([src/checkpoints]): [Checkpoints.v], over
      [StdMap.v] (a [std::map] as its ordered entries) and [Hex.v]
      ([contrib/epee/src/hex.cpp]). It also has [block_needs_pow] and the
      enforcement of checkpoints on the stored chain from [Blockchain].
    - Keccak ([src/crypto/keccak.c], [hash.c]): [Keccak.v], the permutation,
      [cn_fast_hash] and the streaming context. [FastHash.v] is the class that
      states what the clients of the hash rely on; [Keccak.v] has its instance.
    - Varints and base 58 addresses ([src/common/varint.h], [base58.cpp]):
      [Varint.v], [Base58.v], the latter for any [FastHash].
    - Pruning stripes ([src/common/pruning.cpp]) and the download queue
      ([src/cryptonote_protocol/block_queue.cpp]): [Pruning.v], [BlockQueue.v].
    - Emission and fees ([src/cryptonote_basic/cryptonote_basic_impl.cpp],
      [Blockchain::check_fee]): [Emission.v].
    - The block table of the database ([src/blockchain_db/lmdb]): [ChainDb.v],
      a list of records by height.
    - [src/cryptonote_core/blockchain.cpp]: [NextDifficulty.v] (the difficulty
      of the next block with its caches, and on alternative chains) and
      [BlockRules.v] (timestamps, miner transaction, unlock times, fee
      estimate).
    - The Merkle root of a block ([src/crypto/tree-hash.c]): [TreeHash.v], for
      any [FastHash].
    - Transactions and blocks as bytes ([src/serialization],
      [cryptonote_basic.h], [cryptonote_format_utils.cpp], [rctTypes.h]):
      [Archive.v] has the readers and writers of the binary archive, [TxFormat.v]
      every class with its serializer and the hashes, [TxCodec.v] the theorems,
      [TxWeight.v] the weight of a transaction.
    - The chain database ([src/blockchain_db]): [ChainStore.v] has the tables,
      adding and popping a block, and the reads; [StoreProofs.v] and
      [StoreReads.v] the theorems; [ForkStore.v] drives the database and the hard
      fork object together.
    - Block weights ([blockchain.cpp], [contrib/epee rolling_median.h]):
      [RollingMedian.v] (two heaps in one array) and [Weights.v] (long-term
      weights, medians and the limit of the next block).
    - The curve ([src/crypto/crypto-ops.c]): [Limbs.v] (signed limbs, with
      overflow as undefined behaviour), [ScalarOps.v] (the [sc_] functions),
      [FieldOps.v] (the [fe_] functions), [CurveData.v] (tables), [GroupOps.v],
      [PointCodec.v], [HashPoint.v], [ScalarMult.v] (the [ge_] functions). What
      they compute is stated over the group of points: [Groups.v] has groups as a
      class, [Edwards.v] the twisted Edwards law and its associativity,
      [Curve25519.v] the curve, [Primality.v] and [GroupOrder.v] certificates of
      primes and the order of the base point.
    - Random numbers and keys ([src/crypto/random.c], [crypto.cpp]): [Random.v]
      and [Keys.v]; [KeyProofs.v] has the values of the key operations and
      [Signatures.v] the theorems.
    - Ring confidential transactions ([src/ringct]): [RctData.v] (the tables of
      [rctTypes.h] and [rctOps.h]), [RctOps.v] (the operations on keys),
      [Clsag.v], [Mlsag.v], [RangeProof.v] (signatures and Borromean range
      proofs), [RctSigs.v] (the checks of a transaction and decoding) and
      [RctGen.v] (the generators). [RctPoints.v], [RctProofs.v], [RingChain.v]
      (challenges around a ring), [ClsagProofs.v], [MlsagProofs.v],
      [RctSigProofs.v] and [RctGenProofs.v] have the theorems.

    The components interact as in the code: [NextDifficulty.v] reads
    [ChainDb.v] and calls [Difficulty.v]; [BlockRules.v] reads [ChainDb.v] and
    calls [Median.v] and [Emission.v]; [BlockQueue.v] calls [Pruning.v];
    [Base58.v] calls [Varint.v]; [Checkpoints.v] calls [Difficulty.v] and
    [Hex.v]; [ChainStore.v] stores the blocks of [TxFormat.v]; [Keys.v] and
    [RctOps.v] call the [ge_] and [sc_] functions; [RctSigs.v] and [RctGen.v] call
    the signatures and range proofs. The fork version that the rules read is the one [HardFork.v] shows
    to be a function of the chain.

    ** Conventions

    A w-bit unsigned integer is a [Z]; an operation at that width applies
    [wrap w] ([+!], [-!], [*!], [<<!] at 64 bits). Fallible code returns an
    [outcome]: a value, a C++ exception ([Throw]) or undefined behaviour
    ([Undef], such as a vector access out of range). [assert] is compiled out
    in release builds: [Keys.v] takes the build as the argument [NDEBUG], with
    [Undef] for a failed assertion, and the other files model the release build.
    CHECK_AND_ASSERT_MES is a return.
    Objects are records passed and returned. Locks and log output are left out:
    each public operation runs under its object's lock.

    ** What the theorems show

    - Difficulty: [check_hash] is the exact 256-bit comparison, versions 1 to 4
      compute their formula and keep the divisor in fixed bounds whatever the
      timestamps, version 6 depends on clamped solve times only.
      The caches of [get_difficulty_for_next_block] cannot be observed. An
      alternative chain is held to the rule of the main chain's current version,
      and so, between forks, to the difficulty it would meet as main chain.
    - Hard forks: in every reachable state of a network the object is in step with
      the chain and with the schedule, across pops and reorganisations; a block is
      accepted exactly when it has the scheduled version.
    - Checkpoints: no block is accepted without proof of work above the highest
      checkpoint; checkpoints are never lost; enforcement leaves a prefix of
      the chain that contradicts no checkpoint.
    - Emission: the reward formula without overflow, the premine once, the coin
      count as a capped sum, miner transactions that conserve money, the
      timestamp rule both ways.
    - Block weights: the cached median of long-term weights cannot be observed, on
      chains whose last block before version 12 is not heavier than the cap; the
      limit is a function of the chain whenever it is recomputed.
    - Hashing: the unrolled Keccak permutation is that of the standard, given bit
      by bit, and hashing in chunks gives the hash of the whole.
    - Codecs: round trips and canonicity for varints, base 58, addresses and
      hexadecimal strings; the tree hash refines a perfect binary tree, and two
      lists with the same root give a collision of the hash.
      A blob accepted as a transaction is its one encoding, and hashes bind
      transactions and blocks.
    - Database: the tables are a function of the current chain whatever was added
      and popped; of the well-formed blocks with supported inputs exactly those
      that fit are accepted; no key image occurs twice, and the queries return
      everything stored, commitments included.
    - Curve: the operations on scalars and field elements are exact without
      overflow, those on points compute the group law with no exceptional case,
      and decoding accepts exactly the encodings of points.
    - Signatures: what the owner of a key signs is accepted, for plain, ring,
      CLSAG and MLSAG signatures; [check_signature] and the verification of CLSAG
      accept exactly what satisfies their equations; signing ends.
    - Confidential transactions: an accepted one makes no money unless its
      openings give the logarithm of the second generator; the generations of
      each check agree; what the generator makes with Borromean proofs is accepted
      and decoded by its receivers.
    - Queue and pruning: no requested hash outlives its span, reservations are
      legal and make progress, the next pruned and unpruned heights are right.

    ** Fuel and bounds

    Loops that are not structural carry fuel that covers every input the
    theorem allows: 32 rounds for the digits of a 128-bit number, 64 for the
    doubling loop of the tree hash, the number of popped blocks plus one for
    [on_block_popped], the size of the ring for a walk around it, 8 bytes and 64
    bits for an amount. A draw of a scalar needs one round
    ([random_scalar_one_draw]); the retries of a signature are bounded by a fuel
    for which [signature_generated] says when it is enough. Where running out is
    possible the model says [Undef] and the theorem states that it does not
    happen. Hypotheses such as heights below 2^63 or weights below 2^32 exclude
    chains that cannot be stored.

    ** Not modelled

    - Bulletproofs ([bulletproofs.cc], [bulletproofs_plus.cc], [multiexp.cc]):
      provers and verifications are parameters of [RctSigs.v] and [RctGen.v], so
      the theorems about range proofs are those of the Borromean ones.
    - The handlers of [blockchain.cpp] that add a block to the main chain, keep
      alternative blocks and switch chains, and the transaction pool: their parts
      (difficulty, forks, weights, miner transaction, database) are here, their
      composition is not.
    - The other hash primitives and the slow hash, tx_extra fields, mnemonic
      words and multisig.
    - The wallet, RPC servers, daemon, P2P sockets and LMDB calls, which are
      effects around the core. *)
From Stdlib Require Export ZArith Lia.
From stdpp Require Export base numbers list gmap strings sorting fin_maps.

Open Scope Z_scope.

(** ** Fixed-width unsigned integers

    A [w]-bit unsigned integer is a [Z] in the range [0 <= x < 2^w]; an
    operation whose C++ type is [w] bits wide applies [wrap w] to the exact
    integer result. *)

Definition wrap (w x : Z) : Z := x mod 2 ^ w.

Abbreviation u8 := (wrap 8).
Abbreviation u16 := (wrap 16).
Abbreviation u32 := (wrap 32).
Abbreviation u64 := (wrap 64).

Definition in_u (w x : Z) : Prop := 0 <= x < 2 ^ w.

#[export] Instance in_u_dec w x : Decision (in_u w x).
Proof. unfold in_u. apply _. Defined.

(** Two's complement reading of a [w]-bit pattern. *)
Definition to_signed (w x : Z) : Z :=
  if wrap w x <? 2 ^ (w - 1) then wrap w x else wrap w x - 2 ^ w.

Declare Scope machine_scope.
Delimit Scope machine_scope with mach.
Notation "a +! b" := (u64 (a + b)) (at level 50, left associativity) : machine_scope.
Notation "a -! b" := (u64 (a - b)) (at level 50, left associativity) : machine_scope.
Notation "a *! b" := (u64 (a * b)) (at level 40, left associativity) : machine_scope.
Notation "a <<! n" := (u64 (Z.shiftl a n)) (at level 40, left associativity) : machine_scope.
Open Scope machine_scope.

Definition UINT64_MAX : Z := 2 ^ 64 - 1.

(** ** Outcomes of fallible code

    [Throw] is a C++ exception, [Undef] is undefined behaviour (an access out
    of the bounds of a vector, [front] of an empty deque, ...). *)

Inductive outcome (A : Type) : Type :=
| Ok (a : A)
| Throw (what : string)
| Undef.
Arguments Ok {A} a.
Arguments Throw {A} what.
Arguments Undef {A}.

#[export] Instance outcome_ret : MRet outcome := @Ok.
#[export] Instance outcome_bind : MBind outcome := fun A B f m =>
  match m with
  | Ok a => f a
  | Throw w => Throw w
  | Undef => Undef
  end.
#[export] Instance outcome_fmap : FMap outcome := fun A B f m =>
  match m with
  | Ok a => Ok (f a)
  | Throw w => Throw w
  | Undef => Undef
  end.

(** A vector access [v[i]]: undefined out of range. *)
Definition at_or_undef {A} (o : option A) : outcome A :=
  match o with Some a => Ok a | None => Undef end.

Definition is_ok {A} (m : outcome A) : bool :=
  match m with Ok _ => true | _ => false end.

(** ** Vectors *)

Definition zlen {A} (l : list A) : Z := Z.of_nat (length l).

(** [v[i]] for an unsigned index. *)
Definition znth {A} (l : list A) (i : Z) : option A :=
  if i <? 0 then None else l !! Z.to_nat i.

(** [std::sort] on integers. *)
Definition std_sort (l : list Z) : list Z := merge_sort Z.le l.

(** ** Automation *)

Create HintDb nerva.

(** Closes a side condition on a machine word: unfolds the range predicate and
    calls [lia]. *)
Ltac word_lia := unfold in_u in *; simpl in *; lia.

(** Linear arithmetic with division and remainder by constants. *)
Ltac div_lia := Z.to_euclidean_division_equations; lia.

(** Runs the binds of an [outcome] whose first step is known. *)
Tactic Notation "simpl_bind" := cbn [mbind outcome_bind at_or_undef].
Tactic Notation "simpl_bind" "in" hyp(H) := cbn [mbind outcome_bind at_or_undef] in H.

(** Closed decidable goals, by evaluation. *)
Ltac by_decide := apply (bool_decide_unpack _); vm_compute; exact I.

(** Splits every boolean comparison of integers that the goal or a hypothesis
    tests. *)
Ltac split_cmp :=
  repeat match goal with
  | |- context [?a <? ?b] => destruct (Z.ltb_spec a b)
  | |- context [?a <=? ?b] => destruct (Z.leb_spec a b)
  | |- context [?a =? ?b] => destruct (Z.eqb_spec a b)
  | H : context [?a <? ?b] |- _ => destruct (Z.ltb_spec a b)
  | H : context [?a <=? ?b] |- _ => destruct (Z.leb_spec a b)
  | H : context [?a =? ?b] |- _ => destruct (Z.eqb_spec a b)
  end.

(** ** Generic lemmas on words *)

Lemma wrap_range w x : 0 <= w -> in_u w (wrap w x).
Proof. intros. apply Z.mod_pos_bound. apply Z.pow_pos_nonneg; lia. Qed.

Lemma wrap_small w x : in_u w x -> wrap w x = x.
Proof. apply Z.mod_small. Qed.

Lemma wrap_wrap w x : wrap w (wrap w x) = wrap w x.
Proof. apply Zmod_mod. Qed.

Lemma u64_range x : 0 <= wrap 64 x < 18446744073709551616.
Proof. apply (wrap_range 64 x). lia. Qed.

Lemma u32_range x : 0 <= wrap 32 x < 4294967296.
Proof. apply (wrap_range 32 x). lia. Qed.

Lemma u8_range x : 0 <= wrap 8 x < 256.
Proof. apply (wrap_range 8 x). lia. Qed.

Lemma u64_small x : 0 <= x < 18446744073709551616 -> wrap 64 x = x.
Proof. apply (wrap_small 64). Qed.

Lemma u32_small x : 0 <= x < 4294967296 -> wrap 32 x = x.
Proof. apply (wrap_small 32). Qed.

Lemma u8_small x : 0 <= x < 256 -> wrap 8 x = x.
Proof. apply (wrap_small 8). Qed.

#[export] Hint Resolve wrap_range u64_range u32_range u8_range : nerva.

(** The unsigned carry idiom: [s < x] after [s = x + y]. *)
Lemma add_carry x y :
  in_u 64 x -> in_u 64 y ->
  x + y = (x +! y) + 2 ^ 64 * (if x +! y <? x then 1 else 0).
Proof.
  unfold in_u. intros Hx Hy.
  pose proof (u64_range (x + y)) as Hr.
  pose proof (Z.div_mod (x + y) (2 ^ 64) ltac:(lia)) as Hd.
  unfold wrap in *.
  assert (0 <= (x + y) / 2 ^ 64 <= 1) by
    (split; [apply Z.div_pos; lia | apply Z.lt_succ_r, Z.div_lt_upper_bound; lia]).
  destruct (Z.ltb_spec ((x + y) mod 2 ^ 64) x); lia.
Qed.

Lemma zlen_nonneg {A} (l : list A) : 0 <= zlen l.
Proof. unfold zlen. lia. Qed.

Lemma zlen_app {A} (l k : list A) : zlen (l ++ k) = zlen l + zlen k.
Proof. unfold zlen. rewrite length_app. lia. Qed.

Lemma zlen_cons {A} (x : A) l : zlen (x :: l) = zlen l + 1.
Proof. unfold zlen. cbn [length]. lia. Qed.

Lemma znth_Some {A} (l : list A) i x :
  znth l i = Some x -> 0 <= i < zlen l.
Proof.
  unfold znth, zlen. destruct (Z.ltb_spec i 0); [done |].
  intros Hl%lookup_lt_Some. lia.
Qed.

Lemma znth_is_Some {A} (l : list A) i :
  0 <= i < zlen l -> is_Some (znth l i).
Proof.
  unfold znth, zlen. intros. destruct (Z.ltb_spec i 0); [lia |].
  apply lookup_lt_is_Some. lia.
Qed.

(** [std::sort] returns a sorted permutation. *)
Lemma std_sort_perm l : std_sort l ≡ₚ l.
Proof. apply merge_sort_Permutation. Qed.

Lemma std_sort_sorted l : StronglySorted Z.le (std_sort l).
Proof. apply (StronglySorted_merge_sort Z.le). Qed.

Lemma std_sort_length l : length (std_sort l) = length l.
Proof. by rewrite std_sort_perm. Qed.

(** In a sorted vector a later element is no smaller. *)
Lemma sorted_lookup_le (l : list Z) i j x y :
  StronglySorted Z.le l -> (i <= j)%nat -> l !! i = Some x -> l !! j = Some y -> x <= y.
Proof.
  intros Hs. revert i j x y. induction Hs as [| a l Hs IH Hall]; intros i j x y Hij Hi Hj.
  { by rewrite lookup_nil in Hi. }
  destruct i as [| i], j as [| j]; simpl in *; simplify_eq; try lia.
  - eapply Forall_forall in Hall; [exact Hall |]. by eapply list_elem_of_lookup_2.
  - eapply (IH i j); eauto; lia.
Qed.

(** ** Bit fields *)

Lemma land_shiftl_low hi lo k : 0 <= k -> 0 <= lo < 2 ^ k -> Z.land (Z.shiftl hi k) lo = 0.
Proof.
  intros Hk Hlo. apply Z.bits_inj'. intros n Hn.
  rewrite Z.land_spec, Z.bits_0. destruct (Z.ltb_spec n k).
  - rewrite Z.shiftl_spec_low by lia. done.
  - rewrite <- (Z.mod_small lo (2 ^ k)) by done.
    rewrite Z.mod_pow2_bits_high by lia. apply andb_false_r.
Qed.

(** Joining two adjacent bit fields with [|] is addition. *)
Lemma lor_shiftl_add hi lo k :
  0 <= k -> 0 <= lo < 2 ^ k -> Z.lor (Z.shiftl hi k) lo = hi * 2 ^ k + lo.
Proof.
  intros Hk Hlo.
  pose proof (land_shiftl_low hi lo k Hk Hlo) as Hland.
  rewrite <- Z.lxor_lor, <- Z.add_nocarry_lxor by done.
  by rewrite Z.shiftl_mul_pow2.
Qed.

(** Masking with [2^k - 1] is reduction. *)
Lemma land_mask x k : 0 <= k -> Z.land x (2 ^ k - 1) = x mod 2 ^ k.
Proof. intros. rewrite <- Z.land_ones by done. by rewrite Z.ones_equiv, Z.sub_1_r. Qed.

Lemma shiftr_div x k : 0 <= k -> Z.shiftr x k = x / 2 ^ k.
Proof. apply Z.shiftr_div_pow2. Qed.

(** Splitting a word at bit [k]. *)
Lemma split_at x k : 0 <= k -> x = (x / 2 ^ k) * 2 ^ k + x mod 2 ^ k.
Proof. intros. rewrite (Z.div_mod x (2 ^ k)) at 1 by (apply Z.pow_nonzero; lia). lia. Qed.

(** ** Bytes *)

(** The little-endian value of a byte string. *)
Fixpoint le_bytes (l : list Z) : Z :=
  match l with
  | [] => 0
  | b :: l => b + 256 * le_bytes l
  end.

(** The big-endian value of a byte string. *)
Definition be_bytes (l : list Z) : Z := le_bytes (reverse l).

Definition bytes (l : list Z) : Prop := Forall (in_u 8) l.

Lemma bytes_app l k : bytes (l ++ k) <-> bytes l /\ bytes k.
Proof. apply Forall_app. Qed.

Lemma le_bytes_app l k : le_bytes (l ++ k) = le_bytes l + 256 ^ zlen l * le_bytes k.
Proof.
  unfold zlen. induction l as [| b l IH]; cbn [le_bytes app length].
  - change (256 ^ Z.of_nat 0) with 1. lia.
  - rewrite IH, Nat2Z.inj_succ, Z.pow_succ_r by lia. ring.
Qed.

Lemma le_bytes_range l : bytes l -> 0 <= le_bytes l < 256 ^ zlen l.
Proof.
  unfold bytes, in_u, zlen. induction 1 as [| b l Hb _ IH]; cbn [le_bytes length].
  - change (256 ^ Z.of_nat 0) with 1. lia.
  - rewrite Nat2Z.inj_succ, Z.pow_succ_r by lia. lia.
Qed.

(** A property of all bytes, decided by enumeration. *)
Lemma all_bytes (P : Z -> bool) :
  forallb P (map Z.of_nat (seq 0 256)) = true -> forall c, in_u 8 c -> P c = true.
Proof.
  unfold in_u. intros H c Hc. rewrite forallb_forall in H. apply H.
  apply in_map_iff. exists (Z.to_nat c). split; [lia |]. apply in_seq. lia.
Qed.

(** The [n]-byte little-endian encoding of an integer. *)
Fixpoint le_encode (n : nat) (x : Z) : list Z :=
  match n with O => [] | S n => x mod 256 :: le_encode n (x / 256) end.

Lemma le_encode_length n x : length (le_encode n x) = n.
Proof. revert x. induction n; intros x; cbn; [done | by rewrite IHn]. Qed.

Lemma le_bytes_encode n x : 0 <= x < 256 ^ Z.of_nat n -> le_bytes (le_encode n x) = x.
Proof.
  revert x. induction n as [| n IH]; intros x Hx; cbn [le_encode le_bytes].
  { change (256 ^ Z.of_nat 0) with 1 in Hx. lia. }
  rewrite Nat2Z.inj_succ, Z.pow_succ_r in Hx by lia.
  rewrite IH by (split; [apply Z.div_pos; lia | apply Z.div_lt_upper_bound; lia]).
  rewrite (Z.div_mod x 256) at 3 by lia. lia.
Qed.

Lemma le_encode_bytes n x : bytes (le_encode n x).
Proof.
  revert x. induction n as [| n IH]; intros x; [constructor |]. constructor; [| apply IH].
  apply (Z.mod_pos_bound x 256). lia.
Qed.

(** ** Vector resizing

    [v.resize(n)] for an unsigned [n]. *)
Definition zresize (n : Z) (l : list Z) : list Z := resize (Z.to_nat n) 0 l.

Lemma le_encode_value l : bytes l -> le_encode (length l) (le_bytes l) = l.
Proof.
  unfold bytes, in_u. induction 1 as [| b l Hb _ IH]; [done |]. cbn [length le_encode le_bytes].
  replace ((b + 256 * le_bytes l) mod 256) with b by div_lia.
  replace ((b + 256 * le_bytes l) / 256) with (le_bytes l) by div_lia. by rewrite IH.
Qed.
