(* ===== verification/IntUtil.v ===== *)
(** * Portable wide arithmetic: [contrib/epee/include/int-util.h]

    The 64x64 -> 128 bit product, the 128-bit by 32-bit and by 64-bit
    divisions, the saturating additions and the byte swaps that the consensus
    code is built on, at their machine widths, with the theorems that they
    compute the exact integer operation. *)
From S2P Require Import Prelude.

Open Scope Z_scope.

(** Source: src/contrib/epee/include/int-util.h:74-76 (hi_dword) *)
Definition hi_dword (val : Z) : Z := Z.shiftr val 32.

(** Source: src/contrib/epee/include/int-util.h:78-80 (lo_dword) *)
Definition lo_dword (val : Z) : Z := Z.land val 0xFFFFFFFF.

(** The pair is the returned low word and the [product_hi] out parameter.
    Source: src/contrib/epee/include/int-util.h:82-106 (mul128) *)
Definition mul128 (multiplier multiplicand : Z) : Z * Z :=
  let a := hi_dword multiplier in
  let b := lo_dword multiplier in
  let c := hi_dword multiplicand in
  let d := lo_dword multiplicand in
  let ac := a *! c in
  let ad := a *! d in
  let bc := b *! c in
  let bd := b *! d in
  let adbc := ad +! bc in
  let adbc_carry := if adbc <? ad then 1 else 0 in
  let product_lo := bd +! (adbc <<! 32) in
  let product_lo_carry := if product_lo <? bd then 1 else 0 in
  let product_hi :=
    ac +! Z.shiftr adbc 32 +! (adbc_carry <<! 32) +! product_lo_carry in
  (product_lo, product_hi).

(** Returns the quotient and the new value of [*remainder].
    Source: src/contrib/epee/include/int-util.h:108-112 (div_with_reminder) *)
Definition div_with_reminder (dividend divisor remainder : Z) : Z * Z :=
  let dividend := Z.lor dividend (remainder <<! 32) in
  (dividend / divisor, u32 (dividend mod divisor)).

(** Returns the remainder and the two quotient words; a division by zero is
    undefined.
    Source: src/contrib/epee/include/int-util.h:115-130 (div128_32) *)
Definition div128_32 (dividend_hi dividend_lo divisor : Z) : outcome (Z * (Z * Z)) :=
  if divisor =? 0 then Undef else
  let d3 := hi_dword dividend_hi in
  let d2 := lo_dword dividend_hi in
  let d1 := hi_dword dividend_lo in
  let d0 := lo_dword dividend_lo in
  let '(q3, remainder) := div_with_reminder d3 divisor 0 in
  let quotient_hi := q3 <<! 32 in
  let '(q2, remainder) := div_with_reminder d2 divisor remainder in
  let quotient_hi := Z.lor quotient_hi q2 in
  let '(q1, remainder) := div_with_reminder d1 divisor remainder in
  let quotient_lo := q1 <<! 32 in
  let '(q0, remainder) := div_with_reminder d0 divisor remainder in
  let quotient_lo := Z.lor quotient_lo q0 in
  Ok (remainder, (quotient_hi, quotient_lo)).

(** Returns the quotient words and the remainder words. [divide_qr] throws on a
    zero divisor.
    Source: src/contrib/epee/src/int-util.cpp:32-49 (div128_64) *)
Definition div128_64 (dividend_hi dividend_lo divisor : Z) : outcome ((Z * Z) * (Z * Z)) :=
  let dividend := wrap 128 (Z.shiftl dividend_hi 64) in
  let dividend := Z.lor dividend dividend_lo in
  if divisor =? 0 then Throw "Integer Division by zero." else
  let q := dividend / divisor in
  let r := dividend mod divisor in
  Ok ((Z.land (Z.shiftr q 64) 0xffffffffffffffff, Z.land q 0xffffffffffffffff),
      (Z.land (Z.shiftr r 64) 0xffffffffffffffff, Z.land r 0xffffffffffffffff)).

(** Source: src/contrib/epee/include/int-util.h:135-142 (add64clamp) *)
Definition add64clamp (value add : Z) : Z :=
  let maxval := UINT64_MAX in
  if maxval -! add <? value then maxval else value +! add.

(** Source: src/contrib/epee/include/int-util.h:144-150 (sub64clamp) *)
Definition sub64clamp (value sub : Z) : Z :=
  if value <? sub then 0 else value -! sub.

(** Source: src/contrib/epee/include/int-util.h:64-66 (rol32) *)
Definition rol32 (x r : Z) : Z :=
  Z.lor (u32 (Z.shiftl x (Z.land r 31))) (Z.shiftr x (Z.land (- r) 31)).

(** Source: src/contrib/epee/include/int-util.h:68-70 (rol64) *)
Definition rol64 (x r : Z) : Z :=
  Z.lor (u64 (Z.shiftl x (Z.land r 63))) (Z.shiftr x (Z.land (- r) 63)).

(** Source: src/contrib/epee/include/int-util.h:186-189 (swap32) *)
Definition swap32 (x : Z) : Z :=
  let x := Z.lor (u32 (Z.shiftl (Z.land x 0x00ff00ff) 8))
                 (Z.shiftr (Z.land x 0xff00ff00) 8) in
  Z.lor (u32 (Z.shiftl x 16)) (Z.shiftr x 16).

(** Source: src/contrib/epee/include/int-util.h:194-198 (swap64) *)
Definition swap64 (x : Z) : Z :=
  let x := Z.lor (u64 (Z.shiftl (Z.land x 0x00ff00ff00ff00ff) 8))
                 (Z.shiftr (Z.land x 0xff00ff00ff00ff00) 8) in
  let x := Z.lor (u64 (Z.shiftl (Z.land x 0x0000ffff0000ffff) 16))
                 (Z.shiftr (Z.land x 0xffff0000ffff0000) 16) in
  Z.lor (u64 (Z.shiftl x 32)) (Z.shiftr x 32).

(** ** The product *)

Lemma hi_dword_range x : in_u 64 x -> 0 <= hi_dword x < 2 ^ 32.
Proof.
  unfold in_u, hi_dword. intros. rewrite shiftr_div by lia.
  split; [apply Z.div_pos; lia | apply Z.div_lt_upper_bound; lia].
Qed.

Lemma lo_dword_range x : 0 <= lo_dword x < 2 ^ 32.
Proof. unfold lo_dword. change 0xFFFFFFFF with (2 ^ 32 - 1). rewrite land_mask by lia.
  apply Z.mod_pos_bound. lia. Qed.

Lemma dword_split x : x = hi_dword x * 2 ^ 32 + lo_dword x.
Proof.
  unfold hi_dword, lo_dword. change 0xFFFFFFFF with (2 ^ 32 - 1).
  rewrite land_mask, shiftr_div by lia. apply split_at. lia.
Qed.

(** The halves of a word and their ranges, at once. *)
Lemma dwords x : in_u 64 x ->
  x = hi_dword x * 2 ^ 32 + lo_dword x /\ 0 <= hi_dword x < 2 ^ 32 /\ 0 <= lo_dword x < 2 ^ 32.
Proof.
  intros. split_and!; try apply dword_split; try apply lo_dword_range; by apply hi_dword_range.
Qed.

(** Shifting a word left by 32 keeps its low half. *)
Lemma shl32_wrap x : in_u 64 x -> x <<! 32 = lo_dword x * 2 ^ 32.
Proof.
  intros Hx. rewrite Z.shiftl_mul_pow2 by lia. rewrite (dword_split x) at 1.
  unfold wrap. change (2 ^ 64) with (2 ^ 32 * 2 ^ 32).
  rewrite Z.mul_mod_distr_r by lia. f_equal.
  rewrite Z.add_comm, Z.mod_add by lia. apply Z.mod_small, lo_dword_range.
Qed.

Lemma mul_dwords_range a b : 0 <= a < 2 ^ 32 -> 0 <= b < 2 ^ 32 -> a * b <= (2 ^ 32 - 1) * (2 ^ 32 - 1).
Proof. intros. apply Z.mul_le_mono_nonneg; lia. Qed.

(** [mul128] is the exact 128-bit product, its two words are in range. *)
Lemma mul128_exact x y lo hi :
  in_u 64 x -> in_u 64 y -> mul128 x y = (lo, hi) ->
  x * y = hi * 2 ^ 64 + lo /\ in_u 64 lo /\ in_u 64 hi.
Proof.
  intros Hx Hy. unfold mul128.
  pose proof (hi_dword_range x Hx) as Ha. pose proof (lo_dword_range x) as Hb.
  pose proof (hi_dword_range y Hy) as Hc. pose proof (lo_dword_range y) as Hd.
  pose proof (dword_split x) as Ex. pose proof (dword_split y) as Ey.
  set (a := hi_dword x) in *. set (b := lo_dword x) in *.
  set (c := hi_dword y) in *. set (d := lo_dword y) in *.
  pose proof (mul_dwords_range a c Ha Hc). pose proof (mul_dwords_range a d Ha Hd).
  pose proof (mul_dwords_range b c Hb Hc). pose proof (mul_dwords_range b d Hb Hd).
  assert (0 <= a * c /\ 0 <= a * d /\ 0 <= b * c /\ 0 <= b * d) by nia.
  assert (Hp : x * y = a * c * 2 ^ 64 + (a * d + b * c) * 2 ^ 32 + b * d)
    by (rewrite Ex, Ey; ring).
  rewrite (u64_small (a * c)), (u64_small (a * d)), (u64_small (b * c)),
    (u64_small (b * d)) by lia.
  pose proof (add_carry (a * d) (b * c)) as Hadbc.
  specialize (Hadbc ltac:(unfold in_u; lia) ltac:(unfold in_u; lia)).
  pose proof (wrap_range 64 (a * d + b * c) ltac:(lia)) as Hs.
  set (s := a * d +! b * c) in *.
  rewrite (shl32_wrap s Hs). pose proof (lo_dword_range s) as Hl.
  pose proof (dword_split s) as Es. pose proof (hi_dword_range s Hs) as Hh.
  change (Z.shiftr s 32) with (hi_dword s).
  set (sl := lo_dword s) in *. set (sh := hi_dword s) in *.
  pose proof (add_carry (b * d) (sl * 2 ^ 32)) as Hlo.
  specialize (Hlo ltac:(unfold in_u; lia) ltac:(unfold in_u; lia)).
  pose proof (wrap_range 64 (b * d + sl * 2 ^ 32) ltac:(lia)) as Hlr.
  set (l := b * d +! sl * 2 ^ 32) in *.
  set (c1 := if s <? a * d then 1 else 0) in *.
  set (c2 := if l <? b * d then 1 else 0) in *.
  assert (0 <= c1 <= 1) by (subst c1; destruct (s <? a * d); lia).
  assert (0 <= c2 <= 1) by (subst c2; destruct (l <? b * d); lia).
  rewrite Z.shiftl_mul_pow2 by lia.
  unfold in_u in *.
  assert (Hxy : x * y <= (2 ^ 64 - 1) * (2 ^ 64 - 1)) by (apply Z.mul_le_mono_nonneg; lia).
  assert (Heq : x * y = (a * c + sh + c1 * 2 ^ 32 + c2) * 2 ^ 64 + l) by lia.
  assert (0 <= a * c + sh + c1 * 2 ^ 32 + c2 < 2 ^ 64) by lia.
  rewrite (u64_small (c1 * 2 ^ 32)), (u64_small (a * c + sh)),
    (u64_small (a * c + sh + c1 * 2 ^ 32)), u64_small by lia.
  intros E. injection E as <- <-. lia.
Qed.

(** ** The divisions *)

(** One digit of the base-2^32 long division: with a remainder below the
    divisor the quotient digit fits a double word. *)
Lemma div_with_reminder_exact dw divisor r q r' :
  0 <= dw < 2 ^ 32 -> 0 < divisor < 2 ^ 32 -> 0 <= r < divisor ->
  div_with_reminder dw divisor r = (q, r') ->
  r * 2 ^ 32 + dw = q * divisor + r' /\ 0 <= q < 2 ^ 32 /\ 0 <= r' < divisor.
Proof.
  intros Hdw Hd Hr. unfold div_with_reminder.
  rewrite (u64_small (Z.shiftl r 32)) by (rewrite Z.shiftl_mul_pow2; lia).
  rewrite Z.lor_comm, lor_shiftl_add by lia.
  set (n := r * 2 ^ 32 + dw).
  pose proof (Z.mod_pos_bound n divisor ltac:(lia)) as Hm.
  pose proof (Z.div_mod n divisor ltac:(lia)) as He.
  rewrite u32_small by lia. intros E. injection E as <- <-.
  split_and!; try lia.
  - apply Z.div_pos; lia.
  - apply Z.div_lt_upper_bound; [lia |]. subst n. nia.
Qed.

(** The first digit starts from a zero remainder, which the divisor bounds. *)
Lemma join_dwords h l : 0 <= h < 2 ^ 32 -> 0 <= l < 2 ^ 32 ->
  Z.lor (h <<! 32) l = h * 2 ^ 32 + l.
Proof.
  intros. rewrite (u64_small (Z.shiftl h 32)) by (rewrite Z.shiftl_mul_pow2; lia).
  by apply lor_shiftl_add.
Qed.

Lemma div128_32_exact hi lo divisor :
  in_u 64 hi -> in_u 64 lo -> 0 < divisor < 2 ^ 32 ->
  exists rem qhi qlo,
    div128_32 hi lo divisor = Ok (rem, (qhi, qlo)) /\
    hi * 2 ^ 64 + lo = (qhi * 2 ^ 64 + qlo) * divisor + rem /\
    0 <= rem < divisor /\ in_u 64 qhi /\ in_u 64 qlo.
Proof.
  intros Hhi Hlo Hd. unfold div128_32.
  destruct (Z.eqb_spec divisor 0); [lia |].
  pose proof (hi_dword_range hi Hhi). pose proof (lo_dword_range hi).
  pose proof (hi_dword_range lo Hlo). pose proof (lo_dword_range lo).
  pose proof (dword_split hi). pose proof (dword_split lo).
  destruct (div_with_reminder (hi_dword hi) divisor 0) as [q3 r3] eqn:E3.
  apply div_with_reminder_exact in E3; [| lia..].
  destruct (div_with_reminder (lo_dword hi) divisor r3) as [q2 r2] eqn:E2.
  apply div_with_reminder_exact in E2; [| lia..].
  destruct (div_with_reminder (hi_dword lo) divisor r2) as [q1 r1] eqn:E1.
  apply div_with_reminder_exact in E1; [| lia..].
  destruct (div_with_reminder (lo_dword lo) divisor r1) as [q0 r0] eqn:E0.
  apply div_with_reminder_exact in E0; [| lia..].
  destruct E3 as (? & ? & ?), E2 as (? & ? & ?), E1 as (? & ? & ?), E0 as (? & ? & ?).
  rewrite !join_dwords by lia.
  eexists _, _, _. split; [reflexivity |]. unfold in_u. split_and!; lia.
Qed.

Lemma div128_64_exact hi lo divisor :
  in_u 64 hi -> in_u 64 lo -> 0 < divisor < 2 ^ 64 ->
  let n := hi * 2 ^ 64 + lo in
  div128_64 hi lo divisor =
    Ok (((n / divisor) / 2 ^ 64, (n / divisor) mod 2 ^ 64), (0, n mod divisor)).
Proof.
  intros Hhi Hlo Hd n. unfold in_u in *. unfold div128_64.
  destruct (Z.eqb_spec divisor 0); [lia |].
  rewrite (wrap_small 128) by (unfold in_u; rewrite Z.shiftl_mul_pow2; lia).
  rewrite lor_shiftl_add by lia. fold n.
  change 0xffffffffffffffff with (2 ^ 64 - 1).
  rewrite !land_mask, !shiftr_div by lia.
  pose proof (Z.mod_pos_bound n divisor ltac:(lia)).
  rewrite (Z.div_small (n mod divisor)) by lia.
  rewrite (Z.mod_small (n mod divisor)) by lia. change (0 mod 2 ^ 64) with 0.
  rewrite (Z.mod_small (n / divisor / 2 ^ 64)); [done |].
  assert (0 <= n / divisor <= n) by (split; [apply Z.div_pos; lia |
    apply Z.div_le_upper_bound; nia]).
  split; [apply Z.div_pos; lia | apply Z.div_lt_upper_bound; lia].
Qed.

Lemma add64clamp_exact v a : in_u 64 v -> in_u 64 a ->
  add64clamp v a = Z.min (v + a) UINT64_MAX.
Proof.
  unfold in_u, add64clamp, UINT64_MAX. intros.
  rewrite (u64_small (2 ^ 64 - 1 - a)) by lia.
  destruct (Z.ltb_spec (2 ^ 64 - 1 - a) v); [lia |]. rewrite u64_small; lia.
Qed.

Lemma sub64clamp_exact v s : in_u 64 v -> in_u 64 s ->
  sub64clamp v s = Z.max 0 (v - s).
Proof.
  unfold in_u, sub64clamp. intros. destruct (Z.ltb_spec v s); [lia |].
  rewrite u64_small; lia.
Qed.
