(* ===== verification/Config.v ===== *)
(** * Compile-time configuration: [src/cryptonote_config.h]

    The consensus constants, the three hard fork schedules and the per-network
    configuration record that the other components read. *)
From S2P Require Import Prelude.

Open Scope Z_scope.

(** ** Constants *)

(** Source: src/src/cryptonote_config.h:42-42 (CRYPTONOTE_MAX_BLOCK_NUMBER) *)
Definition CRYPTONOTE_MAX_BLOCK_NUMBER : Z := 500000000.

(** Source: src/src/cryptonote_config.h:44-44 (CRYPTONOTE_MAX_TX_SIZE) *)
Definition CRYPTONOTE_MAX_TX_SIZE : Z := 1000000000.

(** Source: src/src/cryptonote_config.h:45-45 (CRYPTONOTE_PUBLIC_ADDRESS_TEXTBLOB_VER) *)
Definition CRYPTONOTE_PUBLIC_ADDRESS_TEXTBLOB_VER : Z := 0.

(** Source: src/src/cryptonote_config.h:46-46 (CRYPTONOTE_MINED_MONEY_UNLOCK_WINDOW) *)
Definition CRYPTONOTE_MINED_MONEY_UNLOCK_WINDOW : Z := 10.

(** Source: src/src/cryptonote_config.h:47-47 (CRYPTONOTE_MINED_MONEY_UNLOCK_WINDOW_V6) *)
Definition CRYPTONOTE_MINED_MONEY_UNLOCK_WINDOW_V6 : Z := 20.

(** Source: src/src/cryptonote_config.h:52-52 (CRYPTONOTE_BLOCK_FUTURE_TIME_LIMIT) *)
Definition CRYPTONOTE_BLOCK_FUTURE_TIME_LIMIT : Z := 60 * 60 * 2.

(** Source: src/src/cryptonote_config.h:60-60 (BLOCKCHAIN_TIMESTAMP_CHECK_WINDOW) *)
Definition BLOCKCHAIN_TIMESTAMP_CHECK_WINDOW : Z := 60.

(** Source: src/src/cryptonote_config.h:62-62 (CRYPTONOTE_BLOCK_FUTURE_TIME_LIMIT_V2) *)
Definition CRYPTONOTE_BLOCK_FUTURE_TIME_LIMIT_V2 : Z := 60 * 24.

(** Source: src/src/cryptonote_config.h:63-63 (BLOCKCHAIN_TIMESTAMP_CHECK_WINDOW_V2) *)
Definition BLOCKCHAIN_TIMESTAMP_CHECK_WINDOW_V2 : Z := 12.

(** Source: src/src/cryptonote_config.h:65-65 (CRYPTONOTE_BLOCK_FUTURE_TIME_LIMIT_V6) *)
Definition CRYPTONOTE_BLOCK_FUTURE_TIME_LIMIT_V6 : Z := 60 * 5.

(** Source: src/src/cryptonote_config.h:67-67 (MONEY_SUPPLY) *)
Definition MONEY_SUPPLY : Z := u64 (-1).

(** Source: src/src/cryptonote_config.h:68-68 (EMISSION_SPEED_FACTOR_PER_MINUTE) *)
Definition EMISSION_SPEED_FACTOR_PER_MINUTE : Z := 18.

(** Source: src/src/cryptonote_config.h:69-69 (FINAL_SUBSIDY_PER_MINUTE) *)
Definition FINAL_SUBSIDY_PER_MINUTE : Z := 300000000000.

(** Source: src/src/cryptonote_config.h:71-71 (CRYPTONOTE_REWARD_BLOCKS_WINDOW) *)
Definition CRYPTONOTE_REWARD_BLOCKS_WINDOW : Z := 100.

(** Source: src/src/cryptonote_config.h:72-72 (CRYPTONOTE_BLOCK_GRANTED_FULL_REWARD_ZONE) *)
Definition CRYPTONOTE_BLOCK_GRANTED_FULL_REWARD_ZONE : Z := 300000.

(** Source: src/src/cryptonote_config.h:73-73 (CRYPTONOTE_COINBASE_BLOB_RESERVED_SIZE) *)
Definition CRYPTONOTE_COINBASE_BLOB_RESERVED_SIZE : Z := 600.

(** Source: src/src/cryptonote_config.h:74-74 (CRYPTONOTE_DISPLAY_DECIMAL_POINT) *)
Definition CRYPTONOTE_DISPLAY_DECIMAL_POINT : Z := 12.

(** Source: src/src/cryptonote_config.h:77-77 (CRYPTONOTE_LONG_TERM_BLOCK_WEIGHT_WINDOW_SIZE) *)
Definition CRYPTONOTE_LONG_TERM_BLOCK_WEIGHT_WINDOW_SIZE : Z := 50000.

(** Source: src/src/cryptonote_config.h:79-79 (DEFAULT_MIXIN) *)
Definition DEFAULT_MIXIN : Z := 4.

(** Source: src/src/cryptonote_config.h:80-80 (DEFAULT_RINGSIZE) *)
Definition DEFAULT_RINGSIZE : Z := DEFAULT_MIXIN + 1.

(** Source: src/src/cryptonote_config.h:85-85 (DEFAULT_MIXIN_V14) *)
Definition DEFAULT_MIXIN_V14 : Z := 15.

(** Source: src/src/cryptonote_config.h:86-86 (DEFAULT_RINGSIZE_V14) *)
Definition DEFAULT_RINGSIZE_V14 : Z := DEFAULT_MIXIN_V14 + 1.

(** Source: src/src/cryptonote_config.h:87-87 (DYNAMIC_FEE_PER_KB_BASE_FEE) *)
Definition DYNAMIC_FEE_PER_KB_BASE_FEE : Z := 400000000.

(** Source: src/src/cryptonote_config.h:88-88 (DYNAMIC_FEE_PER_KB_BASE_BLOCK_REWARD) *)
Definition DYNAMIC_FEE_PER_KB_BASE_BLOCK_REWARD : Z := 10000000000000.

(** Source: src/src/cryptonote_config.h:90-90 (DIFFICULTY_TARGET) *)
Definition DIFFICULTY_TARGET : Z := 60.

(** Source: src/src/cryptonote_config.h:91-91 (DIFFICULTY_WINDOW) *)
Definition DIFFICULTY_WINDOW : Z := 720.

(** Source: src/src/cryptonote_config.h:92-92 (DIFFICULTY_LAG) *)
Definition DIFFICULTY_LAG : Z := 15.

(** Source: src/src/cryptonote_config.h:93-93 (DIFFICULTY_CUT) *)
Definition DIFFICULTY_CUT : Z := 60.

(** Source: src/src/cryptonote_config.h:94-94 (DIFFICULTY_BLOCKS_COUNT) *)
Definition DIFFICULTY_BLOCKS_COUNT : Z := DIFFICULTY_WINDOW + DIFFICULTY_LAG.

(** Source: src/src/cryptonote_config.h:97-97 (DIFFICULTY_WINDOW_V2) *)
Definition DIFFICULTY_WINDOW_V2 : Z := 17.

(** Source: src/src/cryptonote_config.h:98-98 (DIFFICULTY_CUT_V2) *)
Definition DIFFICULTY_CUT_V2 : Z := 6.

(** Source: src/src/cryptonote_config.h:99-99 (DIFFICULTY_BLOCKS_COUNT_V2) *)
Definition DIFFICULTY_BLOCKS_COUNT_V2 : Z := DIFFICULTY_WINDOW_V2 + DIFFICULTY_CUT_V2 * 2.

(** Source: src/src/cryptonote_config.h:101-101 (DIFFICULTY_WINDOW_V3) *)
Definition DIFFICULTY_WINDOW_V3 : Z := 60.

(** Source: src/src/cryptonote_config.h:102-102 (DIFFICULTY_BLOCKS_COUNT_V3) *)
Definition DIFFICULTY_BLOCKS_COUNT_V3 : Z := DIFFICULTY_WINDOW_V3.

(** Source: src/src/cryptonote_config.h:104-104 (DIFFICULTY_WINDOW_V6) *)
Definition DIFFICULTY_WINDOW_V6 : Z := 60.

(** Source: src/src/cryptonote_config.h:105-105 (DIFFICULTY_BLOCKS_COUNT_V6) *)
Definition DIFFICULTY_BLOCKS_COUNT_V6 : Z := DIFFICULTY_WINDOW_V6 + 1.

(** Source: src/src/cryptonote_config.h:108-108 (CRYPTONOTE_LOCKED_TX_ALLOWED_DELTA_BLOCKS) *)
Definition CRYPTONOTE_LOCKED_TX_ALLOWED_DELTA_BLOCKS : Z := 1.

(** Source: src/src/cryptonote_config.h:107-107 (CRYPTONOTE_LOCKED_TX_ALLOWED_DELTA_SECONDS_V1) *)
Definition CRYPTONOTE_LOCKED_TX_ALLOWED_DELTA_SECONDS_V1 : Z := DIFFICULTY_TARGET * CRYPTONOTE_LOCKED_TX_ALLOWED_DELTA_BLOCKS.

(** Source: src/src/cryptonote_config.h:128-128 (P2P_LOCAL_WHITE_PEERLIST_LIMIT) *)
Definition P2P_LOCAL_WHITE_PEERLIST_LIMIT : Z := 1000.

(** Source: src/src/cryptonote_config.h:129-129 (P2P_LOCAL_GRAY_PEERLIST_LIMIT) *)
Definition P2P_LOCAL_GRAY_PEERLIST_LIMIT : Z := 5000.

(** Source: src/src/cryptonote_config.h:134-134 (P2P_DEFAULT_PEERS_IN_HANDSHAKE) *)
Definition P2P_DEFAULT_PEERS_IN_HANDSHAKE : Z := 250.

(** Source: src/src/cryptonote_config.h:157-157 (CRYPTONOTE_PRUNING_STRIPE_SIZE) *)
Definition CRYPTONOTE_PRUNING_STRIPE_SIZE : Z := 4096.

(** Source: src/src/cryptonote_config.h:158-158 (CRYPTONOTE_PRUNING_LOG_STRIPES) *)
Definition CRYPTONOTE_PRUNING_LOG_STRIPES : Z := 3.

(** Source: src/src/cryptonote_config.h:159-159 (CRYPTONOTE_PRUNING_TIP_BLOCKS) *)
Definition CRYPTONOTE_PRUNING_TIP_BLOCKS : Z := 5500.

(** Source: src/src/cryptonote_config.h:172-172 (PER_KB_FEE_QUANTIZATION_DECIMALS) *)
Definition PER_KB_FEE_QUANTIZATION_DECIMALS : Z := 8.

(** Source: src/src/cryptonote_config.h:178-178 (HF_VERSION_LONG_TERM_BLOCK_WEIGHT) *)
Definition HF_VERSION_LONG_TERM_BLOCK_WEIGHT : Z := 12.

(** Source: src/src/cryptonote_config.h:186-186 (HF_VERSION_RING_SIZE_16) *)
Definition HF_VERSION_RING_SIZE_16 : Z := 14.

(** Source: src/src/cryptonote_config.h:187-187 (CRYPTONOTE_SHORT_TERM_BLOCK_WEIGHT_SURGE_FACTOR) *)
Definition CRYPTONOTE_SHORT_TERM_BLOCK_WEIGHT_SURGE_FACTOR : Z := 50.

(** ** Hard fork schedules *)

(** Source: src/src/cryptonote_config.h:200-204 (hard_fork) *)
Record hard_fork := Hard_fork { hf_version : Z; hf_height : Z }.

(** Source: src/src/cryptonote_config.h:240-255 (config::hard_forks) *)
Definition hard_forks : list hard_fork :=
  [Hard_fork 1 1;
   Hard_fork 2 2;
   Hard_fork 3 3;
   Hard_fork 4 4;
   Hard_fork 5 5;
   Hard_fork 6 44500;
   Hard_fork 7 173500;
   Hard_fork 8 180000;
   Hard_fork 9 240500;
   Hard_fork 10 341000;
   Hard_fork 11 500000;
   Hard_fork 12 930000;
   Hard_fork 13 4320000;
   Hard_fork 14 4480000].

(** Source: src/src/cryptonote_config.h:271-286 (config::testnet::hard_forks) *)
Definition testnet_hard_forks : list hard_fork :=
  [Hard_fork 1 1;
   Hard_fork 2 2;
   Hard_fork 3 3;
   Hard_fork 4 4;
   Hard_fork 5 5;
   Hard_fork 6 6;
   Hard_fork 7 550;
   Hard_fork 8 560;
   Hard_fork 9 570;
   Hard_fork 10 580;
   Hard_fork 11 590;
   Hard_fork 12 700;
   Hard_fork 13 800;
   Hard_fork 14 1000].

(** Source: src/src/cryptonote_config.h:296-311 (config::stagenet::hard_forks) *)
Definition stagenet_hard_forks : list hard_fork :=
  [Hard_fork 1 1;
   Hard_fork 2 2;
   Hard_fork 3 3;
   Hard_fork 4 4;
   Hard_fork 5 5;
   Hard_fork 6 6;
   Hard_fork 7 550;
   Hard_fork 8 560;
   Hard_fork 9 570;
   Hard_fork 10 580;
   Hard_fork 11 590;
   Hard_fork 12 700;
   Hard_fork 13 800;
   Hard_fork 14 1000].

(** ** Networks *)

(** Source: src/src/cryptonote_config.h:341-348 (network_type) *)
Inductive network_type := MAINNET | TESTNET | STAGENET | FAKECHAIN | UNDEFINED.

#[export] Instance network_type_eq_dec : EqDecision network_type.
Proof. solve_decision. Defined.

(** Source: src/src/cryptonote_config.h:350-364 (config_t) *)
Record config_t := Config {
  CRYPTONOTE_PUBLIC_ADDRESS_BASE58_PREFIX : Z;
  CRYPTONOTE_PUBLIC_INTEGRATED_ADDRESS_BASE58_PREFIX : Z;
  CRYPTONOTE_PUBLIC_SUBADDRESS_BASE58_PREFIX : Z;
  P2P_DEFAULT_PORT : Z;
  RPC_DEFAULT_PORT : Z;
  ZMQ_RPC_DEFAULT_PORT : Z;
  NETWORK_ID : list Z;
  GENESIS_TX : string;
  GENESIS_NONCE : Z;
  HF_MIN_VERSION : string;
  MIN_VERSION : string;
  ASSUME_VALID_HEIGHT : Z
}.

Definition genesis_tx : string := "010a01ff0001ffffffffffff0f029b2e4c0281c0b02e7c53291a94d1d0cbff8883f8024f5142ee494ffbbd0880712101abf318a3dc8d66a0263839cffce83daa85963a27635a608a2ba9973055bcc8e400".

(** Source: src/src/cryptonote_config.h:368-381 (get_config, mainnet) *)
Definition mainnet : config_t :=
  Config 0x3800 0x7081 0x1080 17565 17566 17567
    [0x12; 0x30; 0xf1; 0x71; 0x61; 0x04; 0x41; 0x61; 0x17; 0x31; 0x00; 0x82; 0x16; 0xa1; 0xa1; 0x12]
    genesis_tx 10000 "0.1.7.0" "0.1.6.4" 4320000.

(** Source: src/src/cryptonote_config.h:382-395 (get_config, testnet) *)
Definition testnet : config_t :=
  Config 0x3800 0x7081 0x1080 18565 18566 18567
    [0x13; 0x22; 0xf0; 0x55; 0x42; 0x18; 0x40; 0x33; 0x16; 0x88; 0x01; 0x92; 0xaa; 0xbc; 0xff; 0x13]
    genesis_tx 10000 "0.1.7.0" "0.1.6.4" 0.

(** Source: src/src/cryptonote_config.h:396-408 (get_config, stagenet) *)
Definition stagenet : config_t :=
  Config 0x3800 0x7081 0x1080 19565 19566 19567
    [0x14; 0x31; 0xf1; 0x22; 0x54; 0x86; 0x36; 0xff; 0xab; 0x51; 0x00; 0x4f; 0x3c; 0x3d; 0xaa; 0x16]
    genesis_tx 10000 (EmptyString) (EmptyString) 0.

(** Source: src/src/cryptonote_config.h:410-422 (get_config) *)
Definition get_config (nettype : network_type) : outcome config_t :=
  match nettype with
  | MAINNET => Ok mainnet
  | TESTNET => Ok testnet
  | STAGENET => Ok stagenet
  | FAKECHAIN => Ok mainnet
  | UNDEFINED => Throw "Invalid network type"
  end.
