(* ===== verification/Median.v ===== *)
(** * Medians: [contrib/epee/include/misc_language.h]

    [epee::misc_utils::median] takes its vector by reference and sorts it in
    place, so the model returns the median together with the vector the caller
    is left with. *)
From S2P Require Import Prelude.

Open Scope Z_scope.

(** The result is the median and the caller's vector after the call; the sum
    of the two middle elements is a 64-bit sum.
    Source: src/contrib/epee/include/misc_language.h:90-109 (median) *)
Definition median (v : list Z) : Z * list Z :=
  match v with
  | [] => (0, v)
  | [x] => (x, v)
  | _ =>
      let n := (length v / 2)%nat in
      let v := std_sort v in
      if Nat.odd (length v)
      then (default 0 (v !! n), v)
      else ((default 0 (v !! (n - 1)%nat) +! default 0 (v !! n)) / 2, v)
  end.

Definition median_of (v : list Z) : Z := fst (median v).

(** ** Properties *)

Lemma median_vector_perm v : snd (median v) ≡ₚ v.
Proof.
  destruct v as [| x [| y v]]; [done | done |].
  unfold median. destruct (Nat.odd _); apply std_sort_perm.
Qed.

Lemma median_vector_sorted v : StronglySorted Z.le (snd (median v)).
Proof.
  destruct v as [| x [| y v]]; simpl.
  - constructor.
  - repeat constructor.
  - destruct (Nat.odd _); apply std_sort_sorted.
Qed.

(** The vector the caller is left with is the sorted one. *)
Lemma median_vector v : snd (median v) = std_sort v.
Proof.
  apply (StronglySorted_unique Z.le);
    auto using median_vector_sorted, std_sort_sorted.
  by rewrite median_vector_perm, std_sort_perm.
Qed.

(** Elements of the vector bound what sorting puts at a given index. *)
Lemma std_sort_lookup_bounds v lo hi i x :
  Forall (fun y => lo <= y <= hi) v -> std_sort v !! i = Some x -> lo <= x <= hi.
Proof.
  intros Hall Hx. rewrite <- std_sort_perm in Hall.
  eapply Forall_lookup_1 in Hall; [| exact Hx]. done.
Qed.

Lemma std_sort_lookup_default v i :
  (i < length v)%nat -> std_sort v !! i = Some (default 0 (std_sort v !! i)).
Proof.
  intros Hi. destruct (std_sort v !! i) eqn:E; [done |].
  apply lookup_ge_None in E. rewrite std_sort_length in E. lia.
Qed.

(** Every element is between the bounds, hence so is the median. *)
Lemma median_bounds v lo hi :
  v <> [] -> 0 <= lo -> hi < 2 ^ 63 -> Forall (fun x => lo <= x <= hi) v ->
  lo <= median_of v <= hi.
Proof.
  intros Hne Hlo Hhi Hall.
  destruct v as [| x [| y v]]; [done | by inversion_clear Hall |].
  set (w := x :: y :: v) in *.
  assert (Hlen : (length w / 2 < length w)%nat) by (apply Nat.div_lt; simpl; lia).
  pose proof (std_sort_lookup_default w _ Hlen) as Hn.
  assert (Hlen' : (length w / 2 - 1 < length w)%nat) by lia.
  pose proof (std_sort_lookup_default w _ Hlen') as Hn1.
  apply (std_sort_lookup_bounds w lo hi) in Hn; [| done].
  apply (std_sort_lookup_bounds w lo hi) in Hn1; [| done].
  unfold median_of, median, w. fold w.
  destruct (Nat.odd _); [exact Hn |]. cbn [fst].
  set (a := default 0 _) in *. set (b := default 0 _) in Hn |- *.
  rewrite u64_small by lia.
  split; [apply Z.div_le_lower_bound | apply Z.div_le_upper_bound]; lia.
Qed.

Lemma median_of_perm v w : v ≡ₚ w -> median_of v = median_of w.
Proof.
  intros Hp. pose proof (Permutation_length Hp) as Hl.
  assert (Hs : std_sort v = std_sort w).
  { apply (StronglySorted_unique Z.le); auto using std_sort_sorted.
    by rewrite !std_sort_perm. }
  destruct v as [| x [| y v]], w as [| x' [| y' w]]; simpl in Hl; try lia; try done.
  - by apply Permutation_singleton_inj in Hp as ->.
  - unfold median_of, median. rewrite Hs.
    replace (length (x' :: y' :: w)) with (length (x :: y :: v)) by (simpl; lia).
    destruct (Nat.odd _); done.
Qed.

(** The greatest element ends the sorted vector. *)
Lemma std_sort_last v x : last (std_sort v) = Some x -> x ∈ v /\ Forall (fun y => y <= x) v.
Proof.
  intros Hx. pose proof (std_sort_sorted v) as Hs. split.
  - rewrite <- (std_sort_perm v). apply last_Some in Hx as [l' ->]. apply elem_of_app. right. by left.
  - rewrite <- (std_sort_perm v). apply last_Some in Hx as [l' E]. rewrite E in Hs |- *.
    apply Forall_app. split; [| by constructor].
    clear E. induction l' as [| y l' IH]; [done |]. apply StronglySorted_inv in Hs as [Hs Hy].
    constructor; [| by apply IH]. rewrite Forall_app in Hy. destruct Hy as [_ Hy].
    by inversion_clear Hy.
Qed.

Lemma sorted_lookup l : forall i j x y,
  StronglySorted Z.le l -> (i <= j)%nat -> l !! i = Some x -> l !! j = Some y -> x <= y.
Proof.
  induction l as [| a l IH]; intros i j x y Hs Hij Hx Hy; [done |].
  apply StronglySorted_inv in Hs as [Hs Hall]. destruct i as [| i], j as [| j]; cbn in *; try lia.
  - injection Hx as <-. injection Hy as <-. lia.
  - injection Hx as <-. by apply (Forall_lookup_1 _ _ _ _ Hall Hy).
  - by apply (IH i j); [| lia |..].
Qed.

Lemma filter_all {A} (P : A -> Prop) `{!forall x, Decision (P x)} (l : list A) :
  Forall P l -> filter P l = l.
Proof. induction 1 as [| x l Hx _ IH]; [done |]. rewrite filter_cons_True by done. by rewrite IH. Qed.

(** At least half of an even number of elements are at most the median. *)
Lemma median_half v :
  Nat.even (length v) = true -> Forall (fun x => 0 <= x < 2 ^ 63) v ->
  (length v / 2 <= length (filter (fun x => (x <= median_of v)%Z) v))%nat.
Proof.
  intros Hev Hall. destruct v as [| a [| b v]]; [done | done |]. remember (a :: b :: v) as w eqn:Ew.
  assert (Hlen : (2 <= length w)%nat) by (rewrite Ew; cbn; lia).
  set (n := (length w / 2)%nat). assert (Hn : (1 <= n < length w)%nat).
  { unfold n. split; [apply (Nat.Div0.div_le_mono 2 _ 2); lia | apply Nat.div_lt; lia]. }
  pose proof (std_sort_lookup_default w (n - 1) ltac:(lia)) as H1.
  pose proof (std_sort_lookup_default w n ltac:(lia)) as H2.
  assert (Hm : default 0 (std_sort w !! (n - 1)%nat) <= median_of w).
  { unfold median_of, median. rewrite Ew. cbv iota beta. rewrite <- Ew.
    rewrite <- Nat.negb_even, std_sort_length, Hev. cbn [negb fst]. fold n. set (x := default 0 (std_sort w !! (n - 1)%nat)) in *. set (y := default 0 (std_sort w !! n)) in *.
    assert (x <= y) by (eapply sorted_lookup; [apply std_sort_sorted | | exact H1 | exact H2]; lia).
    rewrite <- (std_sort_perm w) in Hall. pose proof (Forall_lookup_1 _ _ _ _ Hall H1) as Hx.
    pose proof (Forall_lookup_1 _ _ _ _ Hall H2) as Hy. cbn beta in Hx, Hy.
    rewrite u64_small by lia. apply Z.div_le_lower_bound; lia. }
  rewrite <- (Permutation_length (filter_Permutation _ _ _ (std_sort_perm w))).
  rewrite <- (take_drop n (std_sort w)). rewrite filter_app, length_app.
  rewrite (filter_all _ (take n (std_sort w))).
  - rewrite length_take, std_sort_length. lia.
  - apply Forall_lookup. intros i x Hi. apply lookup_take_Some in Hi as [Hx Hi].
    etransitivity; [| exact Hm]. eapply sorted_lookup; [apply std_sort_sorted | | exact Hx | exact H1]. lia.
Qed.

(** Sorting a vector that is split at one of its elements. *)
Lemma std_sort_split v A m B :
  v ≡ₚ A ++ m :: B -> Forall (fun x => x <= m) A -> Forall (fun x => m <= x) B ->
  std_sort v = std_sort A ++ m :: std_sort B.
Proof.
  intros Hp HA HB. apply (StronglySorted_unique Z.le); [apply std_sort_sorted | |].
  - apply StronglySorted_app_2; [| apply std_sort_sorted |].
    2: { constructor; [apply std_sort_sorted |]. by rewrite std_sort_perm. }
    intros x y Hx Hy. rewrite std_sort_perm in Hx. rewrite Forall_forall in HA, HB. specialize (HA x Hx).
      apply elem_of_cons in Hy as [-> | Hy]; [done |]. rewrite std_sort_perm in Hy. specialize (HB y Hy). lia.
  - by rewrite !std_sort_perm.
Qed.

(** The median of an odd number of elements, from its place among them. *)
Lemma median_of_odd_split v A m B :
  v ≡ₚ A ++ m :: B -> Forall (fun x => x <= m) A -> Forall (fun x => m <= x) B -> length A = length B ->
  median_of v = m.
Proof.
  intros Hp HA HB Hl. pose proof (std_sort_split v A m B Hp HA HB) as Hs. pose proof (Permutation_length Hp) as Hn.
  rewrite length_app in Hn. cbn [length] in Hn.
  destruct v as [| x [| y v]]; [cbn in Hn; lia | |].
  { cbn in Hn. destruct A, B; cbn in *; try lia. by apply Permutation_singleton_l in Hp as [= ->]. }
  unfold median_of, median. set (w := x :: y :: v) in *. rewrite std_sort_length, Hn.
  replace (length A + S (length B))%nat with (1 + 2 * length A)%nat by lia.
  rewrite Nat.odd_add_mul_2. cbn [Nat.odd Nat.even negb fst].
  replace ((1 + 2 * length A) / 2)%nat with (length A) by (apply (Nat.div_unique _ 2 _ 1); lia).
  rewrite Hs. rewrite lookup_app_r by (rewrite std_sort_length; lia). rewrite std_sort_length, Nat.sub_diag. done.
Qed.

(** The median of an even number of elements: the mean of the middle ones. *)
Lemma median_of_even_split v A a m B :
  v ≡ₚ A ++ m :: B -> Forall (fun x => x <= m) A -> Forall (fun x => m <= x) B -> length A = S (length B) ->
  a ∈ A -> Forall (fun x => x <= a) A ->
  median_of v = (a +! m) / 2.
Proof.
  intros Hp HA HB Hl Ha Hmax. pose proof (std_sort_split v A m B Hp HA HB) as Hs.
  pose proof (Permutation_length Hp) as Hn. rewrite length_app in Hn. cbn [length] in Hn.
  destruct v as [| x [| y v]]; [cbn in Hn; lia | cbn in Hn; lia |].
  unfold median_of, median. set (w := x :: y :: v) in *. rewrite std_sort_length, Hn.
  replace (length A + S (length B))%nat with (0 + 2 * length A)%nat by lia.
  rewrite Nat.odd_add_mul_2. cbn [Nat.odd Nat.even negb fst].
  replace ((0 + 2 * length A) / 2)%nat with (length A) by (apply (Nat.div_unique _ 2 _ 0); lia).
  assert (Hlast : std_sort A !! (length A - 1)%nat = Some a).
  { destruct (last (std_sort A)) as [z |] eqn:E.
    - pose proof (std_sort_last A z E) as [Hz Hzmax]. rewrite Forall_forall in Hmax, Hzmax.
      specialize (Hmax z Hz). specialize (Hzmax a Ha). assert (z = a) as -> by lia.
      rewrite last_lookup, std_sort_length in E. by rewrite <- E; f_equal; lia.
    - apply last_None in E. pose proof (std_sort_length A) as H0. rewrite E in H0. cbn in H0. lia. }
  rewrite Hs. rewrite lookup_app_l by (rewrite std_sort_length; lia). rewrite Hlast.
  rewrite lookup_app_r by (rewrite std_sort_length; lia). rewrite std_sort_length, Nat.sub_diag. done.
Qed.
