(* ===== verification/RollingMedian.v ===== *)
(** * Rolling median: [contrib/epee/include/rolling_median.h]

    The median of the last [N] inserted items, kept in two heaps that share
    their root: position 0 is the median, positive positions are a min-heap of
    the larger items, negative positions a max-heap of the smaller ones. [heap]
    holds indices into the circular queue [data], and [pos] is its inverse.

    The three arrays live in one block of malloc; an index outside its own array
    is [Undef]. The window has 50000 items, so the [int] indices are far from
    overflow and are plain integers here. *)
From S2P Require Import Prelude Median.

Open Scope Z_scope.

Module Rolling.

(** ** State *)

(** [heap] points at the middle of its storage: [heap[i]] is the entry
    [i + N / 2] of the list.
    Source: src/contrib/epee/include/rolling_median.h:45-56 (rolling_median_t) *)
Record rolling_median := Rolling_median {
  data : list Z;
  pos : list Z;
  heap : list Z;
  N : Z;
  idx : Z;
  minCt : Z;
  maxCt : Z;
  sz : Z
}.

Definition set_data (d : list Z) (s : rolling_median) : rolling_median :=
  Rolling_median d (pos s) (heap s) (N s) (idx s) (minCt s) (maxCt s) (sz s).
Definition set_arrays (p h : list Z) (s : rolling_median) : rolling_median :=
  Rolling_median (data s) p h (N s) (idx s) (minCt s) (maxCt s) (sz s).
Definition set_queue (i n : Z) (s : rolling_median) : rolling_median :=
  Rolling_median (data s) (pos s) (heap s) (N s) i (minCt s) (maxCt s) n.
Definition set_counts (mn mx : Z) (s : rolling_median) : rolling_median :=
  Rolling_median (data s) (pos s) (heap s) (N s) (idx s) mn mx (sz s).

Definition read (l : list Z) (i : Z) : outcome Z := at_or_undef (znth l i).
Definition write (l : list Z) (i v : Z) : outcome (list Z) :=
  if (0 <=? i) && (i <? zlen l) then Ok (<[Z.to_nat i := v]> l) else Undef.

Definition heap_at (s : rolling_median) (i : Z) : outcome Z := read (heap s) (i + N s / 2).
Definition value_at (s : rolling_median) (i : Z) : outcome Z := k ← heap_at s i; read (data s) k.

(** ** Operations *)

(** Source: src/contrib/epee/include/rolling_median.h:60-64 (mmless) *)
Definition mmless (s : rolling_median) (i j : Z) : outcome bool :=
  a ← value_at s i; b ← value_at s j; Ok (a <? b).

(** Source: src/contrib/epee/include/rolling_median.h:66-75 (mmexchange) *)
Definition mmexchange (s : rolling_median) (i j : Z) : outcome rolling_median :=
  t ← heap_at s i;
  hj ← heap_at s j;
  h ← write (heap s) (i + N s / 2) hj;
  h ← write h (j + N s / 2) t;
  a ← read h (i + N s / 2);
  p ← write (pos s) a i;
  b ← read h (j + N s / 2);
  p ← write p b j;
  Ok (set_arrays p h s).

(** Source: src/contrib/epee/include/rolling_median.h:77-81 (mmCmpExch) *)
Definition mmCmpExch (s : rolling_median) (i j : Z) : outcome (bool * rolling_median) :=
  less ← mmless s i j;
  if (less : bool) then s ← mmexchange s i j; Ok (true, s) else Ok (false, s).

(** The loops double or halve their index, so a fuel of [N] rounds is more than
    they use; running out of it is [Undef].
    Source: src/contrib/epee/include/rolling_median.h:86-92 (minSortDown) *)
Fixpoint minSortDown_loop (fuel : nat) (s : rolling_median) (i : Z) : outcome rolling_median :=
  match fuel with
  | O => Undef
  | S fuel =>
      if i <=? minCt s then
        right ← (if i <? minCt s then mmless s (i + 1) i else Ok false);
        let i := if (right : bool) then i + 1 else i in
        '(swapped, s) ← mmCmpExch s i (i `quot` 2);
        if (swapped : bool) then minSortDown_loop fuel s (i * 2) else Ok s
      else Ok s
  end.

(** Source: src/contrib/epee/include/rolling_median.h:83-93 (minSortDown) *)
Definition minSortDown (s : rolling_median) (i : Z) : outcome rolling_median :=
  minSortDown_loop (S (Z.to_nat (N s))) s (i * 2).

(** Source: src/contrib/epee/include/rolling_median.h:98-104 (maxSortDown) *)
Fixpoint maxSortDown_loop (fuel : nat) (s : rolling_median) (i : Z) : outcome rolling_median :=
  match fuel with
  | O => Undef
  | S fuel =>
      if - maxCt s <=? i then
        left ← (if - maxCt s <? i then mmless s i (i - 1) else Ok false);
        let i := if (left : bool) then i - 1 else i in
        '(swapped, s) ← mmCmpExch s (i `quot` 2) i;
        if (swapped : bool) then maxSortDown_loop fuel s (i * 2) else Ok s
      else Ok s
  end.

(** Source: src/contrib/epee/include/rolling_median.h:95-105 (maxSortDown) *)
Definition maxSortDown (s : rolling_median) (i : Z) : outcome rolling_median :=
  maxSortDown_loop (S (Z.to_nat (N s))) s (i * 2).

(** Source: src/contrib/epee/include/rolling_median.h:111-113 (minSortUp) *)
Fixpoint minSortUp_loop (fuel : nat) (s : rolling_median) (i : Z) : outcome (bool * rolling_median) :=
  match fuel with
  | O => Undef
  | S fuel =>
      if 0 <? i then
        '(swapped, s) ← mmCmpExch s i (i `quot` 2);
        if (swapped : bool) then minSortUp_loop fuel s (i `quot` 2) else Ok (i =? 0, s)
      else Ok (i =? 0, s)
  end.

(** Source: src/contrib/epee/include/rolling_median.h:107-114 (minSortUp) *)
Definition minSortUp (s : rolling_median) (i : Z) : outcome (bool * rolling_median) :=
  minSortUp_loop (S (Z.to_nat (N s))) s i.

(** Source: src/contrib/epee/include/rolling_median.h:120-122 (maxSortUp) *)
Fixpoint maxSortUp_loop (fuel : nat) (s : rolling_median) (i : Z) : outcome (bool * rolling_median) :=
  match fuel with
  | O => Undef
  | S fuel =>
      if i <? 0 then
        '(swapped, s) ← mmCmpExch s (i `quot` 2) i;
        if (swapped : bool) then maxSortUp_loop fuel s (i `quot` 2) else Ok (i =? 0, s)
      else Ok (i =? 0, s)
  end.

(** Source: src/contrib/epee/include/rolling_median.h:116-123 (maxSortUp) *)
Definition maxSortUp (s : rolling_median) (i : Z) : outcome (bool * rolling_median) :=
  maxSortUp_loop (S (Z.to_nat (N s))) s i.

(** The initial position of item [k].
    Source: src/contrib/epee/include/rolling_median.h:168-168 (clear) *)
Definition fill_position (k : Z) : Z := ((k + 1) / 2) * (if Z.odd k then -1 else 1).

(** The loop over [nItems - 1, ..., 0].
    Source: src/contrib/epee/include/rolling_median.h:165-170 (clear) *)
Fixpoint clear_loop (n : nat) (N : Z) (p h : list Z) : outcome (list Z * list Z) :=
  match n with
  | O => Ok (p, h)
  | S n =>
      let nItems := Z.of_nat n in
      p ← write p nItems (fill_position nItems);
      q ← read p nItems;
      h ← write h (q + N / 2) nItems;
      clear_loop n N p h
  end.

(** Source: src/contrib/epee/include/rolling_median.h:159-171 (clear) *)
Definition clear (s : rolling_median) : outcome rolling_median :=
  '(p, h) ← clear_loop (Z.to_nat (N s)) (N s) (pos s) (heap s);
  Ok (Rolling_median (data s) p h (N s) 0 0 0 0).

(** [garbage] is what malloc returns: the contents of the three arrays.
    Source: src/contrib/epee/include/rolling_median.h:130-138 (rolling_median_t) *)
Definition new_rolling_median (N : nat) (garbage : list Z) : outcome rolling_median :=
  clear (Rolling_median (take N garbage) (take N (drop N garbage)) (take N (drop (2 * N) garbage))
           (Z.of_nat N) 0 0 0 0).

(** Source: src/contrib/epee/include/rolling_median.h:173-176 (size) *)
Definition size (s : rolling_median) : Z := sz s.

(** Source: src/contrib/epee/include/rolling_median.h:186-199 (insert) *)
Definition insert_above (s : rolling_median) (p v old : Z) : outcome rolling_median :=
  let grow := minCt s <? (N s - 1) / 2 in
  let s := if grow then set_counts (minCt s + 1) (maxCt s) s else s in
  if negb grow && (old <? v) then minSortDown s p else
  '(top, s) ← minSortUp s p;
  if (top : bool) then
    '(swapped, s) ← mmCmpExch s 0 (-1);
    if (swapped : bool) then maxSortDown s (-1) else Ok s
  else Ok s.

(** Source: src/contrib/epee/include/rolling_median.h:200-213 (insert) *)
Definition insert_below (s : rolling_median) (p v old : Z) : outcome rolling_median :=
  let grow := maxCt s <? N s / 2 in
  let s := if grow then set_counts (minCt s) (maxCt s + 1) s else s in
  if negb grow && (v <? old) then maxSortDown s p else
  '(top, s) ← maxSortUp s p;
  if (top : bool) && negb (minCt s =? 0) then
    '(swapped, s) ← mmCmpExch s 1 0;
    if (swapped : bool) then minSortDown s 1 else Ok s
  else Ok s.

(** Source: src/contrib/epee/include/rolling_median.h:214-220 (insert) *)
Definition insert_middle (s : rolling_median) : outcome rolling_median :=
  s ← (if negb (maxCt s =? 0) then
         '(top, s) ← maxSortUp s (-1); if (top : bool) then maxSortDown s (-1) else Ok s
       else Ok s);
  if negb (minCt s =? 0) then
    '(top, s) ← minSortUp s 1; if (top : bool) then minSortDown s 1 else Ok s
  else Ok s.

(** Source: src/contrib/epee/include/rolling_median.h:178-221 (insert) *)
Definition insert (s : rolling_median) (v : Z) : outcome rolling_median :=
  p ← read (pos s) (idx s);
  old ← read (data s) (idx s);
  d ← write (data s) (idx s) v;
  let s := set_queue ((idx s + 1) mod N s) (Z.min (sz s + 1) (N s)) (set_data d s) in
  if 0 <? p then insert_above s p v old
  else if p <? 0 then insert_below s p v old
  else insert_middle s.

(** Named apart from the median of a vector.
    Source: src/contrib/epee/include/rolling_median.h:223-232 (median) *)
Definition rolling_value (s : rolling_median) : outcome Z :=
  v ← value_at s 0;
  if minCt s <? maxCt s
  then w ← value_at s (-1); Ok ((v +! w) / 2)
  else Ok v.

(** A run of insertions. *)
Fixpoint insert_all (s : rolling_median) (vs : list Z) : outcome rolling_median :=
  match vs with
  | [] => Ok s
  | v :: vs => s ← insert s v; insert_all s vs
  end.

(** * Properties *)

(** ** The arrays as functions *)

Definition entry (l : list Z) (i : Z) : Z := default 0 (znth l i).

(** The item at a position of the heap, and its value. *)
Definition slot (s : rolling_median) (i : Z) : Z := entry (heap s) (i + N s / 2).
Definition place (s : rolling_median) (k : Z) : Z := entry (pos s) k.
Definition val (s : rolling_median) (i : Z) : Z := entry (data s) (slot s i).

Definition in_heap (s : rolling_median) (i : Z) : Prop := - (N s / 2) <= i <= (N s - 1) / 2.

(** [heap] and [pos] are inverse bijections. *)
Record wf (s : rolling_median) : Prop := {
  wf_N : 0 < N s;
  wf_data : zlen (data s) = N s;
  wf_pos : zlen (pos s) = N s;
  wf_heap : zlen (heap s) = N s;
  wf_slot : forall i, in_heap s i -> 0 <= slot s i < N s /\ place s (slot s i) = i;
  wf_place : forall k, 0 <= k < N s -> in_heap s (place s k) /\ slot s (place s k) = k
}.

Lemma read_entry l i : 0 <= i < zlen l -> read l i = Ok (entry l i).
Proof. intros H. unfold read, entry. by destruct (znth_is_Some l i H) as [x ->]. Qed.

Lemma write_ok l i v :
  0 <= i < zlen l ->
  exists l', write l i v = Ok l' /\ zlen l' = zlen l
    /\ forall j, entry l' j = if j =? i then v else entry l j.
Proof.
  intros H. exists (<[Z.to_nat i := v]> l). unfold write.
  destruct (Z.leb_spec 0 i); [| lia]. destruct (Z.ltb_spec i (zlen l)); [| lia]. split; [done |].
  split; [unfold zlen; by rewrite length_insert |].
  intros j. unfold entry, znth. destruct (Z.ltb_spec j 0).
  { by destruct (Z.eqb_spec j i); [lia |]. }
  destruct (Z.eqb_spec j i) as [-> |].
  - rewrite list_lookup_insert_eq; [done |]. unfold zlen in *. lia.
  - rewrite list_lookup_insert_ne; [done | lia].
Qed.

Lemma in_heap_range s i : 0 < N s -> in_heap s i <-> 0 <= i + N s / 2 < N s.
Proof. unfold in_heap. intros. div_lia. Qed.

Lemma heap_at_ok s i : wf s -> in_heap s i -> heap_at s i = Ok (slot s i).
Proof.
  intros W Hi. apply read_entry. rewrite (wf_heap s W). by apply in_heap_range; [apply W |].
Qed.

Lemma value_at_ok s i : wf s -> in_heap s i -> value_at s i = Ok (val s i).
Proof.
  intros W Hi. unfold value_at. rewrite heap_at_ok by done. simpl_bind.
  apply read_entry. rewrite (wf_data s W). by apply W.
Qed.

(** [x] with [i] and [j] exchanged. *)
Definition tr (i j x : Z) : Z := if x =? i then j else if x =? j then i else x.

Lemma tr_in_heap s i j x : in_heap s i -> in_heap s j -> in_heap s x -> in_heap s (tr i j x).
Proof. intros. unfold tr. by repeat case_match. Qed.

Lemma tr_tr i j x : tr i j (tr i j x) = x.
Proof. unfold tr. split_cmp; lia. Qed.

(** Swapping two positions. *)
Lemma mmexchange_ok s i j :
  wf s -> in_heap s i -> in_heap s j ->
  exists p h, mmexchange s i j = Ok (set_arrays p h s) /\ wf (set_arrays p h s)
    /\ forall x, slot (set_arrays p h s) x = slot s (tr i j x).
Proof.
  intros W Hi Hj. pose proof (wf_N s W) as HN. unfold mmexchange.
  rewrite !heap_at_ok by done. simpl_bind.
  pose proof (proj1 (in_heap_range s i HN) Hi) as Ri. pose proof (proj1 (in_heap_range s j HN) Hj) as Rj.
  destruct (wf_slot s W i Hi) as [Bi Pi]. destruct (wf_slot s W j Hj) as [Bj Pj].
  destruct (write_ok (heap s) (i + N s / 2) (slot s j)) as (h1 & -> & L1 & E1); [by rewrite (wf_heap s W) |].
  simpl_bind. destruct (write_ok h1 (j + N s / 2) (slot s i)) as (h2 & -> & L2 & E2);
    [by rewrite L1, (wf_heap s W) |]. simpl_bind.
  assert (E : forall x, entry h2 (x + N s / 2) = slot s (tr i j x)).
  { intros x. rewrite E2, E1. unfold tr, slot. split_cmp; try lia; repeat f_equal; lia. }
  rewrite (read_entry h2 (i + _)) by (rewrite L2, L1, (wf_heap s W); done). simpl_bind. rewrite E.
  assert (Ti : tr i j i = j) by (unfold tr; split_cmp; lia).
  assert (Tj : tr i j j = i) by (unfold tr; split_cmp; lia). rewrite Ti.
  destruct (write_ok (pos s) (slot s j) i) as (p1 & -> & M1 & F1); [by rewrite (wf_pos s W) |]. simpl_bind.
  rewrite (read_entry h2 (j + _)) by (rewrite L2, L1, (wf_heap s W); done). simpl_bind. rewrite E, Tj.
  destruct (write_ok p1 (slot s i) j) as (p2 & -> & M2 & F2); [by rewrite M1, (wf_pos s W) |]. simpl_bind.
  exists p2, h2. split; [done |]. split; [| exact E].
  assert (F : forall k, 0 <= k < N s -> entry p2 k = tr i j (place s k)).
  { intros k Hk. destruct (wf_place s W k Hk) as [_ Hs]. rewrite F2, F1. unfold tr.
    destruct (Z.eqb_spec k (slot s i)) as [-> |]; [rewrite Pi; split_cmp; lia |].
    destruct (Z.eqb_spec k (slot s j)) as [-> |]; [rewrite Pj; split_cmp; lia |].
    destruct (Z.eqb_spec (place s k) i); [congruence |].
    destruct (Z.eqb_spec (place s k) j); [congruence | done]. }
  split; cbn [N data pos heap set_arrays]; try apply W; [by rewrite M2, M1; apply W | by rewrite L2, L1; apply W | |].
  - intros x Hx. unfold slot, place. cbn [heap pos N set_arrays]. rewrite E.
    destruct (wf_slot s W (tr i j x)) as [B P]; [by apply tr_in_heap |]. split; [done |].
    rewrite F by done. rewrite P. apply tr_tr.
  - intros k Hk. unfold slot, place. cbn [heap pos N set_arrays]. rewrite F by done.
    destruct (wf_place s W k Hk) as [B P]. split; [by apply (tr_in_heap s) |]. by rewrite E, tr_tr.
Qed.

(** ** One side of the heap

    The two heaps are mirror images: with [σ = 1] the side of the larger items,
    with [σ = -1] the side of the smaller ones read upside down, so that both
    are min-heaps over the positions [0, 1, ..., ct]. *)

Definition ct (σ : Z) (s : rolling_median) : Z := if 0 <? σ then minCt s else maxCt s.
Definition u (σ : Z) (s : rolling_median) (i : Z) : Z := σ * val s (σ * i).
Definition side (σ : Z) : Prop := σ = 1 \/ σ = -1.

Definition side_less (σ : Z) (s : rolling_median) (a b : Z) : outcome bool :=
  if 0 <? σ then mmless s a b else mmless s (- b) (- a).
Definition side_exchange (σ : Z) (s : rolling_median) (a b : Z) : outcome (bool * rolling_median) :=
  if 0 <? σ then mmCmpExch s a b else mmCmpExch s (- b) (- a).

Fixpoint sort_down (σ : Z) (fuel : nat) (s : rolling_median) (i : Z) : outcome rolling_median :=
  match fuel with
  | O => Undef
  | S fuel =>
      if i <=? ct σ s then
        next ← (if i <? ct σ s then side_less σ s (i + 1) i else Ok false);
        let i := if (next : bool) then i + 1 else i in
        '(swapped, s) ← side_exchange σ s i (i / 2);
        if (swapped : bool) then sort_down σ fuel s (i * 2) else Ok s
      else Ok s
  end.

Fixpoint sort_up (σ : Z) (fuel : nat) (s : rolling_median) (i : Z) : outcome (bool * rolling_median) :=
  match fuel with
  | O => Undef
  | S fuel =>
      if 0 <? i then
        '(swapped, s) ← side_exchange σ s i (i / 2);
        if (swapped : bool) then sort_up σ fuel s (i / 2) else Ok (i =? 0, s)
      else Ok (i =? 0, s)
  end.

Lemma quot_half i : 0 <= i -> i `quot` 2 = i / 2.
Proof. intros. by apply Z.quot_div_nonneg. Qed.

Lemma quot_half_opp i : 0 <= i -> (- i) `quot` 2 = - (i / 2).
Proof. intros. rewrite Z.quot_opp_l by lia. by rewrite quot_half. Qed.

Lemma minSortDown_side fuel : forall s i, 0 <= i -> minSortDown_loop fuel s i = sort_down 1 fuel s i.
Proof.
  induction fuel as [| fuel IH]; intros s i Hi; [done |]. cbn [minSortDown_loop sort_down].
  change (ct 1 s) with (minCt s). destruct (_ <=? _); [| done].
  unfold side_less, side_exchange. cbn [Z.ltb Z.compare].
  destruct (if i <? minCt s then _ else _) as [b | |]; [| done..]. simpl_bind.
  set (k := if b then i + 1 else i). assert (Hk : 0 <= k) by (unfold k; case_match; lia).
  rewrite quot_half by done. destruct (mmCmpExch s k (k / 2)) as [[[] s'] | |]; [| done..]. simpl_bind.
  apply IH. lia.
Qed.

Lemma maxSortDown_side fuel : forall s i, 0 <= i -> maxSortDown_loop fuel s (- i) = sort_down (-1) fuel s i.
Proof.
  induction fuel as [| fuel IH]; intros s i Hi; [done |]. cbn [maxSortDown_loop sort_down].
  change (ct (-1) s) with (maxCt s). unfold side_less, side_exchange. cbn [Z.ltb Z.compare].
  replace (- maxCt s <=? - i) with (i <=? maxCt s) by (split_cmp; lia).
  replace (- maxCt s <? - i) with (i <? maxCt s) by (split_cmp; lia). destruct (_ <=? _); [| done].
  replace (- i - 1) with (- (i + 1)) by lia.
  destruct (if i <? maxCt s then _ else _) as [b | |]; [| done..]. simpl_bind.
  replace (if b then - (i + 1) else - i) with (- (if b then i + 1 else i)) by (by case_match).
  set (k := if b then i + 1 else i). assert (Hk : 0 <= k) by (unfold k; case_match; lia).
  rewrite quot_half_opp by done. destruct (mmCmpExch s _ _) as [[[] s'] | |]; [| done..]. simpl_bind.
  replace (- k * 2) with (- (k * 2)) by lia. apply IH. lia.
Qed.

Lemma minSortUp_side fuel : forall s i, 0 <= i -> minSortUp_loop fuel s i = sort_up 1 fuel s i.
Proof.
  induction fuel as [| fuel IH]; intros s i Hi; [done |]. cbn [minSortUp_loop sort_up].
  unfold side_exchange. cbn [Z.ltb Z.compare]. rewrite quot_half by done. destruct (0 <? i); [| done].
  destruct (mmCmpExch s i (i / 2)) as [[[] s'] | |]; [| done..]. simpl_bind. apply IH. div_lia.
Qed.

Lemma maxSortUp_side fuel : forall s i, 0 <= i -> maxSortUp_loop fuel s (- i) = sort_up (-1) fuel s i.
Proof.
  induction fuel as [| fuel IH]; intros s i Hi; [done |]. cbn [maxSortUp_loop sort_up].
  unfold side_exchange. cbn [Z.ltb Z.compare]. rewrite quot_half_opp by done.
  replace (- i <? 0) with (0 <? i) by (split_cmp; lia).
  replace (- i =? 0) with (i =? 0) by (split_cmp; lia). destruct (0 <? i); [| done].
  destruct (mmCmpExch s _ _) as [[[] s'] | |]; [| done..]. simpl_bind. apply IH. div_lia.
Qed.

(** ** Rearrangements

    What the sorting functions do to the state: they permute the positions in
    use and touch nothing else. *)

Definition used (s : rolling_median) (i : Z) : Prop := - maxCt s <= i <= minCt s.

Definition fits (s : rolling_median) : Prop := 0 <= minCt s <= (N s - 1) / 2 /\ 0 <= maxCt s <= N s / 2.

Lemma used_in_heap s i : fits s -> used s i -> in_heap s i.
Proof. unfold fits, used, in_heap. lia. Qed.

Definition same_but_arrays (s s' : rolling_median) : Prop := s' = set_arrays (pos s') (heap s') s.

Record rearranged (s s' : rolling_median) : Prop := {
  re_wf : wf s';
  re_same : same_but_arrays s s';
  re_outside : forall i, in_heap s i -> ~ used s i -> slot s' i = slot s i
}.

Lemma rearranged_refl s : wf s -> rearranged s s.
Proof. intros W. split; [done | by destruct s | done]. Qed.

Lemma rearranged_trans s1 s2 s3 : rearranged s1 s2 -> rearranged s2 s3 -> rearranged s1 s3.
Proof.
  intros [W1 E1 O1] [W2 E2 O2]. split; [done | |].
  - unfold same_but_arrays in *. rewrite E2, E1. done.
  - intros i Hi Hu. rewrite O2, O1; [done.. | by rewrite E1 | by rewrite E1].
Qed.

(** Two states with the same fields but for the arrays. *)
Lemma same_fields s s' :
  same_but_arrays s s' ->
  N s' = N s /\ data s' = data s /\ idx s' = idx s /\ minCt s' = minCt s /\ maxCt s' = maxCt s /\ sz s' = sz s.
Proof. intros ->. done. Qed.

Lemma rearranged_ct σ s s' : rearranged s s' -> ct σ s' = ct σ s.
Proof. intros [_ E%same_fields _]. destruct E as (_ & _ & _ & E1 & E2 & _). unfold ct. by rewrite E1, E2. Qed.

Lemma rearranged_fits s s' : rearranged s s' -> fits s -> fits s'.
Proof. intros [_ (E1 & _ & _ & E2 & E3 & _)%same_fields _]. unfold fits. by rewrite E1, E2, E3. Qed.

Lemma opp_mul x : -1 * x = - x.
Proof. lia. Qed.

(** Positions of one side, in use. *)
Lemma side_used σ s i : side σ -> fits s -> 0 <= i <= ct σ s -> used s (σ * i).
Proof. unfold side, fits, used, ct. intros [-> | ->] H; cbn [Z.ltb Z.compare]; lia. Qed.

#[local] Hint Resolve side_used used_in_heap rearranged_refl : nerva.

Lemma side_less_ok σ s a b :
  side σ -> wf s -> fits s -> 0 <= a <= ct σ s -> 0 <= b <= ct σ s ->
  side_less σ s a b = Ok (u σ s a <? u σ s b).
Proof.
  intros Hσ W F Ha Hb.
  pose proof (used_in_heap s _ F (side_used σ s a Hσ F Ha)) as Ia.
  pose proof (used_in_heap s _ F (side_used σ s b Hσ F Hb)) as Ib.
  unfold side_less, mmless, u. destruct Hσ as [-> | ->]; cbn [Z.ltb Z.compare].
  - rewrite Z.mul_1_l in *. rewrite !value_at_ok by (by rewrite ?Z.mul_1_l in *). simpl_bind. by rewrite !Z.mul_1_l.
  - rewrite !opp_mul in *. rewrite !value_at_ok by done. simpl_bind. f_equal. rewrite (opp_mul a), (opp_mul b). split_cmp; lia.
Qed.

(** A comparison with exchange. *)
Lemma side_exchange_ok σ s a b :
  side σ -> wf s -> fits s -> 0 <= a <= ct σ s -> 0 <= b <= ct σ s ->
  exists s', side_exchange σ s a b = Ok (u σ s a <? u σ s b, s') /\ rearranged s s'
    /\ forall x, val s' x = if u σ s a <? u σ s b then val s (tr (σ * a) (σ * b) x) else val s x.
Proof.
  intros Hσ W F Ha Hb. pose proof (side_less_ok σ s a b Hσ W F Ha Hb) as Hless.
  pose proof (side_used σ s a Hσ F Ha) as Ua. pose proof (side_used σ s b Hσ F Hb) as Ub.
  assert (Hx : exists p h, (if 0 <? σ then mmexchange s a b else mmexchange s (- b) (- a))
              = Ok (set_arrays p h s) /\ wf (set_arrays p h s)
            /\ forall x, slot (set_arrays p h s) x = slot s (tr (σ * a) (σ * b) x)).
  { destruct Hσ as [-> | ->]; cbn [Z.ltb Z.compare]; rewrite ?Z.mul_1_l, ?opp_mul in *.
    - by apply mmexchange_ok; eauto with nerva.
    - destruct (mmexchange_ok s (- b) (- a)) as (p & h & E & W' & S); eauto with nerva.
      exists p, h. split_and!; [done.. |]. intros x. rewrite S. f_equal. unfold tr. split_cmp; lia. }
  destruct Hx as (p & h & E & W' & S).
  assert (Heq : side_exchange σ s a b = (less ← side_less σ s a b;
     if (less : bool) then s ← (if 0 <? σ then mmexchange s a b else mmexchange s (- b) (- a)); Ok (true, s)
     else Ok (false, s))).
  { unfold side_exchange, side_less, mmCmpExch. by destruct (0 <? σ). }
  rewrite Heq, Hless. simpl_bind. destruct (u σ s a <? u σ s b).
  - rewrite E. simpl_bind. exists (set_arrays p h s). split_and!; [done | |].
    + split; [done | done |]. intros i Hi Hu. rewrite S. f_equal. unfold tr.
      destruct (Z.eqb_spec i (σ * a)); [by subst |]. destruct (Z.eqb_spec i (σ * b)); [by subst | done].
    + intros x. unfold val. by rewrite S.
  - exists s. auto with nerva.
Qed.

(** The exchange as seen from its own side and from the other one. *)
Lemma u_exchange σ s s' a b :
  side σ -> (forall x, val s' x = val s (tr (σ * a) (σ * b) x)) ->
  forall x, u σ s' x = u σ s (tr a b x).
Proof.
  intros Hσ H x. unfold u. rewrite H. do 2 f_equal. unfold tr. destruct Hσ as [-> | ->]; split_cmp; lia.
Qed.

Lemma u_exchange_other σ s s' a b :
  side σ -> 0 <= a -> 0 <= b -> (forall x, val s' x = val s (tr (σ * a) (σ * b) x)) ->
  forall x, 1 <= x -> u (- σ) s' x = u (- σ) s x.
Proof.
  intros Hσ Ha Hb H x Hx. unfold u. rewrite H. do 2 f_equal. unfold tr.
  destruct Hσ as [-> | ->]; split_cmp; lia.
Qed.

Definition ordered (σ : Z) (s : rolling_median) : Prop :=
  forall i, 1 <= i <= ct σ s -> u σ s (i / 2) <= u σ s i.

(** The order may fail between [p] and its children only. *)
Definition ordered_below (σ : Z) (s : rolling_median) (p : Z) : Prop :=
  (forall i, 1 <= i <= ct σ s -> i / 2 <> p -> u σ s (i / 2) <= u σ s i)
  /\ (forall i, 1 <= i <= ct σ s -> i / 2 = p -> u σ s (p / 2) <= u σ s i).

(** The order may fail between [p] and its parent only. *)
Definition ordered_above (σ : Z) (s : rolling_median) (p : Z) : Prop :=
  (forall i, 1 <= i <= ct σ s -> i <> p -> u σ s (i / 2) <= u σ s i)
  /\ (forall i, 1 <= i <= ct σ s -> i / 2 = p -> u σ s (p / 2) <= u σ s i).

(** What every sorting function keeps: the state but for a rearrangement, and
    the other side of the heap. *)
Definition kept (σ : Z) (s s' : rolling_median) : Prop :=
  rearranged s s' /\ forall x, 1 <= x -> u (- σ) s' x = u (- σ) s x.

Lemma kept_refl σ s : wf s -> kept σ s s.
Proof. split; auto with nerva. Qed.

Lemma kept_trans σ s1 s2 s3 : kept σ s1 s2 -> kept σ s2 s3 -> kept σ s1 s3.
Proof.
  intros [R1 O1] [R2 O2]. split; [by eapply rearranged_trans |]. intros x Hx. by rewrite O2, O1.
Qed.

(** One comparison with exchange between a position and its parent. *)
Lemma side_step σ s i :
  side σ -> wf s -> fits s -> 1 <= i <= ct σ s ->
  exists s', side_exchange σ s i (i / 2) = Ok (u σ s i <? u σ s (i / 2), s') /\ kept σ s s'
    /\ forall x, u σ s' x = if u σ s i <? u σ s (i / 2) then u σ s (tr i (i / 2) x) else u σ s x.
Proof.
  intros Hσ W F Hi. assert (Hh : 0 <= i / 2 <= ct σ s) by div_lia.
  destruct (side_exchange_ok σ s i (i / 2)) as (s' & E & R & V); [done.. | lia | done |].
  exists s'. split; [done |]. destruct (u σ s i <? u σ s (i / 2)).
  - split; [split; [done |] |].
    + by eapply u_exchange_other; [done | | | exact V]; lia.
    + by apply u_exchange.
  - split; [split; [done |] |]; intros; unfold u; by rewrite V.
Qed.

Ltac tr_cases := unfold tr in *; split_cmp; subst; try lia.

Lemma ordered_below_step σ s s1 p i :
  ct σ s1 = ct σ s -> 1 <= p -> i / 2 = p -> 1 <= i <= ct σ s -> ordered_below σ s p ->
  (forall j, 1 <= j <= ct σ s -> j / 2 = p -> u σ s i <= u σ s j) ->
  u σ s i < u σ s p -> (forall x, u σ s1 x = u σ s (tr i p x)) ->
  ordered_below σ s1 i.
Proof.
  intros Hct Hp Hi Hr [O1 O2] Hmin Hlt V. unfold ordered_below. rewrite Hct.
  assert (Hne : i <> p) by div_lia. split.
  - intros j Hj Hne'. rewrite !V. pose proof (O1 j Hj). pose proof (O2 j Hj). pose proof (Hmin j Hj).
    assert (j / 2 <> j) by div_lia. tr_cases; auto with lia.
  - intros j Hj Ej. rewrite !V, Hi. pose proof (O1 j Hj) as H1. rewrite Ej in H1.
    assert (j <> i /\ j <> p) by div_lia. tr_cases.
Qed.

Lemma ordered_below_done σ s p i :
  i / 2 = p -> ordered_below σ s p ->
  (forall j, 1 <= j <= ct σ s -> j / 2 = p -> u σ s i <= u σ s j) ->
  u σ s p <= u σ s i -> ordered σ s.
Proof.
  intros Hi [O1 O2] Hmin Hle j Hj. destruct (decide (j / 2 = p)) as [E |]; [| by apply O1].
  rewrite E. etransitivity; [exact Hle |]. by apply Hmin.
Qed.

Lemma sort_down_ok σ : side σ -> forall fuel s p,
  wf s -> fits s -> 1 <= p -> ordered_below σ s p -> Z.max 0 (ct σ s - p * 2 + 1) < Z.of_nat fuel ->
  exists s', sort_down σ fuel s (p * 2) = Ok s' /\ kept σ s s' /\ ordered σ s'
    /\ forall x, 0 <= x < p -> u σ s' x = u σ s x.
Proof.
  intros Hσ. induction fuel as [| fuel IH]; intros s p W F Hp Hb Hf; [lia |]. cbn [sort_down].
  destruct (Z.leb_spec (p * 2) (ct σ s)) as [Hle | Hgt].
  2: { exists s. split_and!; [done | by apply kept_refl | | done].
       intros i Hi. apply Hb; [done | div_lia]. }
  assert (Hn : (if p * 2 <? ct σ s then side_less σ s (p * 2 + 1) (p * 2) else Ok false)
               = Ok ((p * 2 <? ct σ s) && (u σ s (p * 2 + 1) <? u σ s (p * 2)))).
  { destruct (Z.ltb_spec (p * 2) (ct σ s)); [| done]. by apply side_less_ok; [| | | lia..]. }
  rewrite Hn. simpl_bind. set (next := _ && _). set (i := if next then p * 2 + 1 else p * 2).
  assert (Hi : i / 2 = p /\ 1 <= i <= ct σ s).
  { unfold i, next. destruct (Z.ltb_spec (p * 2) (ct σ s)); cbn [andb]; [case_match |]; div_lia. }
  assert (Hmin : forall j, 1 <= j <= ct σ s -> j / 2 = p -> u σ s i <= u σ s j).
  { intros j Hj Ej. assert (j = p * 2 \/ j = p * 2 + 1) as [-> | ->] by div_lia; unfold i, next; split_cmp; cbn [andb]; lia. }
  destruct Hi as [Hi Hr]. destruct (side_step σ s i Hσ W F Hr) as (s1 & -> & K & V). simpl_bind. rewrite Hi in V |- *.
  destruct (Z.ltb_spec (u σ s i) (u σ s p)) as [Hlt | Hge].
  - pose proof (rearranged_ct σ _ _ (proj1 K)) as Hct.
    destruct (IH s1 i) as (s2 & E & K2 & O & B); [apply K | by eapply rearranged_fits; [apply K |] | lia | | |].
    + by eapply (ordered_below_step σ s s1 p i).
    + rewrite Hct. assert (p * 2 <= i) by (clearbody i; div_lia). lia.
    + exists s2. split_and!; [done | by eapply kept_trans | done |].
      assert (p < i) by (clearbody i; div_lia). intros x Hx. rewrite B, V by lia. unfold tr. split_cmp; done || lia.
  - exists s1. split_and!; [done | done | | intros; apply V].
    intros j Hj. rewrite (rearranged_ct σ _ _ (proj1 K)) in Hj. rewrite !V.
    by eapply ordered_below_done.
Qed.

Lemma ordered_above_step σ s s1 p :
  ct σ s1 = ct σ s -> 1 <= p <= ct σ s -> ordered_above σ s p -> u σ s p < u σ s (p / 2) ->
  (forall x, u σ s1 x = u σ s (tr p (p / 2) x)) -> ordered_above σ s1 (p / 2).
Proof.
  intros Hct Hp [O1 O2] Hlt V. unfold ordered_above. rewrite Hct. assert (Hne : p / 2 <> p) by div_lia. split.
  - intros j Hj Hne'. rewrite !V. pose proof (O1 j Hj). pose proof (O2 j Hj). assert (j / 2 <> j) by div_lia.
    tr_cases; auto with lia. specialize (H n0). rewrite e in H. lia.
  - intros j Hj Ej. rewrite !V. pose proof (O1 j Hj) as H1. rewrite Ej in H1.
    destruct (Z.eqb_spec (p / 2) 0) as [E0 | Hpos].
    + rewrite E0 in *. change (0 / 2) with 0. tr_cases; auto with lia.
    + assert (Hpp : 1 <= p / 2 <= ct σ s) by div_lia. pose proof (O1 _ Hpp ltac:(done)).
      assert (p / 2 / 2 <> p / 2 /\ p / 2 / 2 <> p /\ j <> p / 2) by div_lia. tr_cases; auto with lia.
Qed.

Lemma sort_up_ok σ : side σ -> forall fuel s p,
  wf s -> fits s -> 0 <= p <= ct σ s -> ordered_above σ s p -> p < Z.of_nat fuel ->
  exists b s', sort_up σ fuel s p = Ok (b, s') /\ kept σ s s' /\ ordered σ s'
    /\ (1 <= p -> if b then u σ s' 0 = u σ s p /\ u σ s' 1 = u σ s 0 else u σ s' 0 = u σ s 0).
Proof.
  intros Hσ. induction fuel as [| fuel IH]; intros s p W F Hp Ha Hf; [lia |]. cbn [sort_up].
  destruct (Z.ltb_spec 0 p) as [Hpos | H0].
  2: { assert (p = 0) as -> by lia. exists true, s. split_and!; [done | by apply kept_refl | | lia].
       intros i Hi. apply Ha; [done | lia]. }
  destruct (side_step σ s p Hσ W F ltac:(lia)) as (s1 & -> & K & V). simpl_bind.
  destruct (Z.ltb_spec (u σ s p) (u σ s (p / 2))) as [Hlt | Hge].
  - pose proof (rearranged_ct σ _ _ (proj1 K)) as Hct.
    destruct (IH s1 (p / 2)) as (b & s2 & E & K2 & O & B);
      [apply K | by eapply rearranged_fits; [apply K |] | rewrite Hct; div_lia | | div_lia |].
    + apply (ordered_above_step σ s); [done | lia | done..].
    + exists b, s2. split_and!; [done | by eapply kept_trans | done |]. intros _.
      destruct (Z.eqb_spec (p / 2) 0) as [E0 | Hne].
      * rewrite E0 in *. assert (p = 1) as -> by div_lia. destruct fuel; [done |]. cbn in E. simplify_eq.
        rewrite !V. by unfold tr.
      * specialize (B ltac:(div_lia)). rewrite !V in B. unfold tr in B.
        destruct (Z.eqb_spec (p / 2) p); [div_lia |]. rewrite Z.eqb_refl in B.
        destruct (Z.eqb_spec 0 p); [lia |]. by destruct (Z.eqb_spec 0 (p / 2)); [lia |].
  - exists false, s1. destruct (Z.eqb_spec p 0); [lia |]. split_and!; [done | done | | intros; apply V].
    intros j Hj. rewrite (rearranged_ct σ _ _ (proj1 K)) in Hj. rewrite !V.
    destruct (decide (j = p)) as [-> |]; [done | by apply Ha].
Qed.

(** ** The root

    [push_root] compares the root with the top of one side and sorts a swapped
    item down; every case of [insert] ends with it. *)

Definition rounds (s : rolling_median) : nat := S (Z.to_nat (N s)).

Definition push_root (σ : Z) (s : rolling_median) : outcome rolling_median :=
  '(swapped, s) ← side_exchange σ s 1 0;
  if (swapped : bool) then sort_down σ (rounds s) s 2 else Ok s.

Lemma u_root σ s : u (- σ) s 0 = - u σ s 0.
Proof. unfold u. rewrite !Z.mul_0_r. lia. Qed.

Lemma side_opp σ : side σ -> side (- σ).
Proof. unfold side. lia. Qed.

Lemma ct_rounds σ s : wf s -> fits s -> 0 <= ct σ s < Z.of_nat (rounds s).
Proof.
  intros W [H1 H2]. pose proof (wf_N s W). unfold rounds, ct. rewrite Nat2Z.inj_succ, Z2Nat.id by lia.
  case_match; div_lia.
Qed.

Lemma push_root_ok σ s :
  side σ -> wf s -> fits s -> 1 <= ct σ s ->
  (forall i, 2 <= i <= ct σ s -> u σ s (i / 2) <= u σ s i) ->
  exists s', push_root σ s = Ok s' /\ kept σ s s' /\ ordered σ s'
    /\ (u σ s 0 <= u σ s 1 /\ (forall x, u σ s' x = u σ s x)
        \/ u σ s 1 < u σ s 0 /\ u σ s' 0 = u σ s 1).
Proof.
  intros Hσ W F Hct Hord. destruct (side_step σ s 1 Hσ W F ltac:(lia)) as (s1 & E & K & V).
  change (1 / 2) with 0 in E, V. unfold push_root. rewrite E. simpl_bind.
  pose proof (rearranged_ct σ _ _ (proj1 K)) as Hc1. pose proof (rearranged_fits _ _ (proj1 K) F) as F1.
  pose proof (re_wf _ _ (proj1 K)) as W1.
  destruct (Z.ltb_spec (u σ s 1) (u σ s 0)) as [Hlt | Hge].
  - destruct (sort_down_ok σ Hσ (rounds s1) s1 1) as (s2 & E2 & K2 & O2 & B2); [done | done | lia | | |].
    + split; intros i Hi; rewrite Hc1 in Hi; rewrite !V; intros Hne.
      * destruct (decide (i = 1)) as [-> | Hi1]; [change (1 / 2) with 0; change (tr 1 0 0) with 1; change (tr 1 0 1) with 0; lia |].
        assert (i / 2 <> 0 /\ 2 <= i) by div_lia. specialize (Hord i ltac:(lia)).
        unfold tr. split_cmp; lia.
      * change (1 / 2) with 0. assert (2 <= i) by div_lia. specialize (Hord i ltac:(lia)). rewrite Hne in Hord.
        unfold tr. split_cmp; lia.
    + pose proof (ct_rounds σ s1 W1 F1). lia.
    + exists s2. split_and!; [done | by eapply kept_trans | done |]. right. split; [done |].
      rewrite B2, V by lia. done.
  - exists s1. split_and!; [done | done | | by left]. intros i Hi. rewrite !V. rewrite Hc1 in Hi.
    destruct (decide (i = 1)) as [-> | Hi1]; [done |]. apply Hord. lia.
Qed.

(** A change on one side keeps the order of the other when the root keeps it. *)
Lemma ordered_other σ s s' :
  kept σ s s' -> (forall i, 2 <= i <= ct (- σ) s -> u (- σ) s (i / 2) <= u (- σ) s i) ->
  (1 <= ct (- σ) s -> u (- σ) s' 0 <= u (- σ) s 1) -> ordered (- σ) s'.
Proof.
  intros [R O] Hord H0 i Hi. rewrite (rearranged_ct _ _ _ R) in Hi.
  destruct (decide (i = 1)) as [-> | Hi1].
  - change (1 / 2) with 0. rewrite (O 1) by lia. apply H0. lia.
  - rewrite !O by div_lia. apply Hord. lia.
Qed.

Definition heaped (s : rolling_median) : Prop := ordered 1 s /\ ordered (-1) s.

Lemma heaped_sides σ s : side σ -> ordered σ s -> ordered (- σ) s -> heaped s.
Proof. intros [-> | ->] H1 H2; split; done. Qed.

(** An item that moves up its side, and perhaps through the root. *)
Definition settle (σ : Z) (s : rolling_median) (p : Z) : outcome rolling_median :=
  '(top, s) ← sort_up σ (rounds s) s p;
  if (top : bool) && negb (ct (- σ) s =? 0) then push_root (- σ) s else Ok s.

Lemma settle_ok σ s p :
  side σ -> wf s -> fits s -> 1 <= p <= ct σ s -> ordered_above σ s p -> ordered (- σ) s ->
  exists s', settle σ s p = Ok s' /\ rearranged s s' /\ heaped s'.
Proof.
  intros Hσ W F Hp Ha Ho. pose proof (ct_rounds σ s W F) as Hr.
  destruct (sort_up_ok σ Hσ (rounds s) s p) as (b & s1 & E & K1 & O1 & B1); [done | done | lia | done | lia |].
  specialize (B1 ltac:(lia)). unfold settle. rewrite E. simpl_bind.
  pose proof (re_wf _ _ (proj1 K1)) as W1. pose proof (rearranged_fits _ _ (proj1 K1) F) as F1.
  pose proof (rearranged_ct (- σ) _ _ (proj1 K1)) as C1.
  assert (Ho2 : forall i, 2 <= i <= ct (- σ) s -> u (- σ) s (i / 2) <= u (- σ) s i) by (intros; apply Ho; lia).
  destruct b; cbn [andb]; [destruct (Z.eqb_spec (ct (- σ) s1) 0) as [E0 | Hne]; cbn [negb] |].
  - exists s1. split_and!; [done | apply K1 |]. apply (heaped_sides σ); [done | done |].
    intros i Hi. lia.
  - destruct (push_root_ok (- σ) s1) as (s2 & E2 & K2 & O2 & D); [by apply side_opp | done | done | | |].
    { pose proof (ct_rounds (- σ) s1 W1 F1). lia. }
    { intros i Hi. rewrite !(proj2 K1) by div_lia. rewrite C1 in Hi. by apply Ho2. }
    exists s2. split_and!; [done | eapply rearranged_trans; [apply K1 | apply K2] |].
    apply (heaped_sides σ); [done | | done].
    pose proof (ordered_other (- σ) s1 s2 K2) as OO. rewrite Z.opp_involutive in OO. apply OO.
    { intros i Hi. apply O1. lia. }
    intros _. destruct B1 as [B1 B1']. rewrite B1'.
    pose proof (u_root (- σ) s2) as Ur. rewrite Z.opp_involutive in Ur. rewrite Ur.
    pose proof (Ho 1 ltac:(pose proof (ct_rounds (- σ) s1 W1 F1); lia)) as H01. change (1 / 2) with 0 in H01.
    rewrite u_root in H01. pose proof (proj2 K1 1 ltac:(lia)) as H11.
    destruct D as [[Hle Hsame] | [Hlt Hnew]]; [| lia].
    rewrite Hsame, u_root. pose proof (O1 1 ltac:(rewrite (rearranged_ct σ _ _ (proj1 K1)); lia)) as H1.
    change (1 / 2) with 0 in H1. lia.
  - exists s1. split_and!; [done | apply K1 |]. apply (heaped_sides σ); [done | done |].
    apply (ordered_other σ s); [done | done |]. intros H1. rewrite u_root, B1, <- u_root. by apply (Ho 1); lia.
Qed.

(** A new item at the root. *)
Definition settle_root (s : rolling_median) : outcome rolling_median :=
  s ← (if negb (ct (-1) s =? 0) then push_root (-1) s else Ok s);
  if negb (ct 1 s =? 0) then push_root 1 s else Ok s.

Lemma settle_root_ok s :
  wf s -> fits s ->
  (forall σ i, side σ -> 2 <= i <= ct σ s -> u σ s (i / 2) <= u σ s i) ->
  (1 <= ct 1 s -> 1 <= ct (-1) s -> 0 <= u 1 s 1 + u (-1) s 1) ->
  exists s', settle_root s = Ok s' /\ rearranged s s' /\ heaped s'.
Proof.
  intros W F Hord Hcross. unfold settle_root. pose proof (ct_rounds (-1) s W F). pose proof (ct_rounds 1 s W F).
  assert (S1 : exists s1, (if negb (ct (-1) s =? 0) then push_root (-1) s else Ok s) = Ok s1
      /\ kept (-1) s s1 /\ ordered (-1) s1
      /\ (1 <= ct (-1) s -> 1 <= ct 1 s -> u 1 s1 0 <= u 1 s 1 \/ u (-1) s1 1 = u (-1) s 1)).
  { destruct (Z.eqb_spec (ct (-1) s) 0) as [E | Hne]; cbn [negb].
    - exists s. split_and!; [done | by apply kept_refl | intros i Hi; lia | lia].
    - destruct (push_root_ok (-1) s) as (s1 & E & K & O & D); [by right | done | done | lia | |].
      { intros i. apply Hord. by right. }
      exists s1. split_and!; [done.. |]. intros H1 H2. pose proof (u_root (-1) s1) as Ur. change (- -1) with 1 in Ur.
      destruct D as [[_ D] | [_ D]]; [right; apply D |]. left. rewrite Ur, D. specialize (Hcross H2 H1). lia. }
  destruct S1 as (s1 & -> & K1 & O1 & D1). simpl_bind.
  pose proof (re_wf _ _ (proj1 K1)) as W1. pose proof (rearranged_fits _ _ (proj1 K1) F) as F1.
  pose proof (rearranged_ct 1 _ _ (proj1 K1)) as C1. pose proof (rearranged_ct (-1) _ _ (proj1 K1)) as C1'.
  destruct (Z.eqb_spec (ct 1 s1) 0) as [E0 | Hne]; cbn [negb].
  { exists s1. split_and!; [done | apply K1 |]. split; [intros i Hi; lia | done]. }
  destruct (push_root_ok 1 s1) as (s2 & E2 & K2 & O2 & D2); [by left | done | done | lia | |].
  { intros i Hi. pose proof (proj2 K1) as Hs. change (- -1) with 1 in Hs. rewrite !Hs by div_lia.
    apply Hord; [by left | lia]. }
  exists s2. split_and!; [done | eapply rearranged_trans; [apply K1 | apply K2] |]. split; [done |].
  pose proof (ordered_other 1 s1 s2 K2) as OO. change (- (1)) with (-1) in OO.
  apply OO; [intros; apply O1; lia | intros H1].
  pose proof (O1 1 ltac:(lia)) as H01. change (1 / 2) with 0 in H01.
  pose proof (u_root 1 s1) as R1. pose proof (u_root 1 s2) as R2. change (- (1)) with (-1) in R1, R2.
  pose proof (proj2 K1 1 ltac:(lia)) as H11. change (- -1) with 1 in H11.
  destruct D2 as [[_ D2] | [Hlt D2]]; rewrite R2, D2; [lia |].
  destruct D1 as [D1 | D1]; [lia | lia | lia |]. rewrite D1, H11. specialize (Hcross ltac:(lia) ltac:(lia)). lia.
Qed.

(** ** The functions of the code in terms of one side *)

Lemma minSortDown_eq s p : 0 <= p -> minSortDown s p = sort_down 1 (rounds s) s (p * 2).
Proof. intros. apply minSortDown_side. lia. Qed.

Lemma maxSortDown_eq s p : 0 <= p -> maxSortDown s (- p) = sort_down (-1) (rounds s) s (p * 2).
Proof. intros. unfold maxSortDown. rewrite Z.mul_opp_l. apply maxSortDown_side. lia. Qed.

Lemma push_root_max s :
  ('(swapped, s) ← mmCmpExch s 0 (-1); if (swapped : bool) then maxSortDown s (-1) else Ok s) = push_root (-1) s.
Proof.
  unfold push_root. change (side_exchange (-1) s 1 0) with (mmCmpExch s 0 (-1)).
  destruct (mmCmpExch s 0 (-1)) as [[[] s'] | |]; [| done..]. by apply (maxSortDown_eq s' 1).
Qed.

Lemma push_root_min s :
  ('(swapped, s) ← mmCmpExch s 1 0; if (swapped : bool) then minSortDown s 1 else Ok s) = push_root 1 s.
Proof.
  unfold push_root. change (side_exchange 1 s 1 0) with (mmCmpExch s 1 0).
  destruct (mmCmpExch s 1 0) as [[[] s'] | |]; [| done..]. by apply (minSortDown_eq s' 1).
Qed.

(** The root of a heap sorted up from its top: one comparison. *)
Lemma sort_up_top σ s :
  side σ -> wf s -> fits s -> 1 <= ct σ s ->
  ('(top, s) ← sort_up σ (rounds s) s 1; if (top : bool) then sort_down σ (rounds s) s 2 else Ok s)
  = push_root σ s.
Proof.
  intros Hσ W F Hc. destruct (side_step σ s 1 Hσ W F ltac:(lia)) as (s1 & E & _). change (1 / 2) with 0 in E.
  pose proof (wf_N s W). destruct (Z.to_nat (N s)) as [| n] eqn:En; [lia |].
  assert (Er : rounds s = S (S n)) by (unfold rounds; by rewrite En). unfold push_root. rewrite Er.
  cbn [sort_up]. change (1 / 2) with 0. change (0 <? 1) with true. rewrite E. simpl_bind.
  by destruct (u σ s 1 <? u σ s 0).
Qed.

(** The same for the two ways the code writes it. *)
Lemma max_top s :
  wf s -> fits s ->
  (if negb (maxCt s =? 0)
   then '(top, s) ← maxSortUp s (-1); if (top : bool) then maxSortDown s (-1) else Ok s else Ok s)
  = (if negb (ct (-1) s =? 0) then push_root (-1) s else Ok s).
Proof.
  intros W F. change (ct (-1) s) with (maxCt s). destruct (Z.eqb_spec (maxCt s) 0); cbn [negb]; [done |].
  rewrite <- sort_up_top; [| by right | done | done | destruct F; change (ct (-1) s) with (maxCt s); lia].
  unfold maxSortUp. rewrite (maxSortUp_side _ s 1) by lia. fold (rounds s).
  destruct (sort_up (-1) (rounds s) s 1) as [[[] s'] | |]; [| done..]. by apply (maxSortDown_eq s' 1).
Qed.

Lemma min_top s :
  wf s -> fits s ->
  (if negb (minCt s =? 0)
   then '(top, s) ← minSortUp s 1; if (top : bool) then minSortDown s 1 else Ok s else Ok s)
  = (if negb (ct 1 s =? 0) then push_root 1 s else Ok s).
Proof.
  intros W F. change (ct 1 s) with (minCt s). destruct (Z.eqb_spec (minCt s) 0); cbn [negb]; [done |].
  rewrite <- sort_up_top; [| by left | done | done | destruct F; change (ct 1 s) with (minCt s); lia].
  unfold minSortUp. rewrite (minSortUp_side _ s 1) by lia. fold (rounds s).
  destruct (sort_up 1 (rounds s) s 1) as [[[] s'] | |]; [| done..]. by apply (minSortDown_eq s' 1).
Qed.

Lemma insert_middle_ok s :
  wf s -> fits s ->
  (forall σ i, side σ -> 2 <= i <= ct σ s -> u σ s (i / 2) <= u σ s i) ->
  (1 <= ct 1 s -> 1 <= ct (-1) s -> 0 <= u 1 s 1 + u (-1) s 1) ->
  exists s', insert_middle s = Ok s' /\ rearranged s s' /\ heaped s'.
Proof.
  intros W F Hord Hcross. destruct (settle_root_ok s W F Hord Hcross) as (s' & E & R).
  exists s'. split; [| done]. rewrite <- E. unfold insert_middle, settle_root. rewrite max_top by done.
  destruct (Z.eqb_spec (ct (-1) s) 0); cbn [negb]; [simpl_bind; by apply min_top |].
  destruct (push_root_ok (-1) s) as (s1 & -> & K & _); [by right | done | done | | by intros; apply Hord; [right |] |].
  { pose proof (ct_rounds (-1) s W F). lia. }
  simpl_bind. apply min_top; [apply K | by eapply rearranged_fits; [apply K |]].
Qed.

(** The sorting functions never change the counts. *)
Lemma exchange_maxCt s i j r : mmCmpExch s i j = Ok r -> maxCt (snd r) = maxCt s.
Proof.
  unfold mmCmpExch. destruct (mmless s i j) as [[] | |]; simpl_bind; [| by intros [= <-] | done..].
  destruct (mmexchange s i j) as [s' | |] eqn:E; simpl_bind; [| done..]. intros [= <-]. cbn [snd].
  revert E. unfold mmexchange.
  repeat match goal with |- (?m ≫= _) = _ -> _ => destruct m as [? | |]; simpl_bind; [| done..] end.
  by intros [= <-].
Qed.

Lemma sort_up_maxCt fuel : forall s i r, sort_up 1 fuel s i = Ok r -> maxCt (snd r) = maxCt s.
Proof.
  induction fuel as [| fuel IH]; intros s i r; [done |]. cbn [sort_up]. destruct (0 <? i); [| by intros [= <-]].
  change (side_exchange 1 s i (i / 2)) with (mmCmpExch s i (i / 2)).
  destruct (mmCmpExch s i (i / 2)) as [[b s'] | |] eqn:E; simpl_bind; [| done..].
  apply exchange_maxCt in E. cbn [snd] in E. destruct b; [intros ->%IH; done | by intros [= <-]].
Qed.

Lemma settle_above s p :
  0 <= p -> maxCt s <> 0 ->
  ('(top, s) ← minSortUp s p;
   if (top : bool) then
     '(swapped, s) ← mmCmpExch s 0 (-1); if (swapped : bool) then maxSortDown s (-1) else Ok s
   else Ok s) = settle 1 s p.
Proof.
  intros Hp Hm. unfold settle, minSortUp. rewrite minSortUp_side by done. fold (rounds s).
  destruct (sort_up 1 (rounds s) s p) as [[b s1] | |] eqn:E; [| done..]. simpl_bind. rewrite push_root_max.
  apply sort_up_maxCt in E. cbn [snd] in E. change (- (1)) with (-1). change (ct (-1) s1) with (maxCt s1).
  destruct (Z.eqb_spec (maxCt s1) 0); [lia |]. by destruct b.
Qed.

Lemma settle_below s p :
  0 <= p ->
  ('(top, s) ← maxSortUp s (- p);
   if (top : bool) && negb (minCt s =? 0) then
     '(swapped, s) ← mmCmpExch s 1 0; if (swapped : bool) then minSortDown s 1 else Ok s
   else Ok s) = settle (-1) s p.
Proof.
  intros Hp. unfold settle, maxSortUp. rewrite maxSortUp_side by done. fold (rounds s).
  destruct (sort_up (-1) (rounds s) s p) as [[b s1] | |]; [| done..]. simpl_bind.
  change (- -1) with 1. change (ct 1 s1) with (minCt s1). by rewrite push_root_min.
Qed.

(** ** The invariant

    The queue holds the window [w]; the items not yet in use have their initial
    positions; both sides are heaps. *)
Record inv (s : rolling_median) (w : list Z) : Prop := {
  inv_wf : wf s;
  inv_sz : 0 <= sz s <= N s;
  inv_min : minCt s = Z.max 0 ((sz s - 1) / 2);
  inv_max : maxCt s = sz s / 2;
  inv_fill : forall k, sz s <= k < N s -> place s k = fill_position k;
  inv_heaped : heaped s;
  inv_idx : 0 <= idx s < N s;
  inv_queue : sz s < N s -> idx s = sz s;
  inv_window : w = if sz s <? N s then take (Z.to_nat (sz s)) (data s)
                   else drop (Z.to_nat (idx s)) (data s) ++ take (Z.to_nat (idx s)) (data s)
}.

Lemma inv_fits s w : inv s w -> fits s.
Proof.
  intros I. unfold fits. rewrite (inv_min s w I), (inv_max s w I).
  pose proof (inv_sz s w I). pose proof (wf_N s (inv_wf s w I)). div_lia.
Qed.

Lemma fill_even k : Z.odd k = false -> 0 <= k -> fill_position k = k / 2 /\ k mod 2 = 0.
Proof. intros H Hk. pose proof (Zmod_odd k) as E. unfold fill_position. rewrite H in *. div_lia. Qed.

Lemma fill_odd k : Z.odd k = true -> 0 <= k -> fill_position k = - ((k + 1) / 2) /\ k mod 2 = 1.
Proof. intros H Hk. pose proof (Zmod_odd k) as E. unfold fill_position. rewrite H in *. div_lia. Qed.

(** The initial positions of the items from [n] on lie outside the first [n]. *)
Lemma fill_outside n k : 0 <= n <= k -> 0 < n -> ~ (- (n / 2) <= fill_position k <= (n - 1) / 2).
Proof.
  intros Hn Hp. destruct (Z.odd k) eqn:E; [apply fill_odd in E; [| lia] | apply fill_even in E; [| lia]];
    destruct E as [-> E]; div_lia.
Qed.

(** The item that starts at a position. *)
Definition unfill (i : Z) : Z := if i <? 0 then - 2 * i - 1 else 2 * i.

Lemma fill_unfill i : fill_position (unfill i) = i.
Proof.
  unfold unfill. destruct (Z.ltb_spec i 0).
  - destruct (fill_odd (- 2 * i - 1)) as [-> _]; [| lia | div_lia]. rewrite Z.odd_sub. by rewrite Z.odd_mul.
  - destruct (fill_even (2 * i)) as [-> _]; [by rewrite Z.odd_mul | lia | div_lia].
Qed.

Lemma unfill_fill k : 0 <= k -> unfill (fill_position k) = k.
Proof.
  intros Hk. unfold unfill. destruct (Z.odd k) eqn:E; [apply fill_odd in E | apply fill_even in E]; try lia;
    destruct E as [-> E]; destruct (Z.ltb_spec (- ((k + 1) / 2)) 0), (Z.ltb_spec (k / 2) 0); div_lia.
Qed.

Lemma fill_range n k : 0 <= k < n -> - (n / 2) <= fill_position k <= (n - 1) / 2.
Proof.
  intros Hk. destruct (Z.odd k) eqn:E; [apply fill_odd in E | apply fill_even in E]; try lia;
    destruct E as [-> E]; div_lia.
Qed.

Lemma unfill_range n i : 0 < n -> - (n / 2) <= i <= (n - 1) / 2 -> 0 <= unfill i < n.
Proof. intros Hn Hi. unfold unfill. split_cmp; div_lia. Qed.

Lemma place_eq s k i : wf s -> in_heap s i -> 0 <= k < N s -> slot s i = k <-> place s k = i.
Proof.
  intros W Hi Hk. split; [intros <- | intros <-]; [by apply (wf_slot s W) | by apply (wf_place s W)].
Qed.

(** Which items sit at the positions in use. *)
Lemma inv_used s w k : inv s w -> 0 <= k < N s -> 0 < sz s -> used s (place s k) <-> k < sz s.
Proof.
  intros I Hk Hs. pose proof (inv_wf s w I) as W. unfold used.
  rewrite (inv_min s w I), (inv_max s w I). rewrite Z.max_r by div_lia. split.
  - intros Hu. destruct (Z.lt_ge_cases k (sz s)) as [| Hge]; [done |]. exfalso.
    rewrite (inv_fill s w I k) in Hu by lia. eapply (fill_outside (sz s) k); [lia | done | exact Hu].
  - intros Hlt. destruct (wf_place s W k Hk) as [Hi Hs1]. set (i := place s k) in *.
    destruct (decide (- (sz s / 2) <= i <= (sz s - 1) / 2)) as [| Hout]; [done |]. exfalso.
    unfold in_heap in Hi. pose proof (unfill_range (N s) i ltac:(lia) Hi) as Hr.
    assert (Hk' : sz s <= unfill i) by (unfold unfill; split_cmp; div_lia).
    assert (slot s i = unfill i).
    { apply place_eq; [done | done | done |]. rewrite (inv_fill s w I) by lia. apply fill_unfill. }
    lia.
Qed.

(** ** One insertion *)

(** A new value [v] at position [q] of one side. *)
Section SideInsert.
Context (σ : Z) (s s1 : rolling_median) (q v : Z).
Context (Hσ : side σ) (Hh : heaped s) (F1 : fits s1) (HN : N s1 = N s).
Context (Hval : forall x, in_heap s x -> val s1 x = if x =? σ * q then v else val s x).
Context (Hq : 1 <= q <= ct σ s1) (Hother : ct (- σ) s1 = ct (- σ) s).

Lemma si_heap τ x : side τ -> 0 <= x <= ct τ s1 -> in_heap s (τ * x).
Proof.
  intros Hτ Hx. pose proof (used_in_heap s1 _ F1 (side_used τ s1 x Hτ F1 Hx)) as H.
  unfold in_heap in *. by rewrite HN in H.
Qed.

Lemma si_u x : 0 <= x <= ct σ s1 -> u σ s1 x = if x =? q then σ * v else u σ s x.
Proof.
  intros Hx. unfold u. rewrite Hval by (by apply si_heap). destruct Hσ as [-> | ->]; split_cmp; done || lia.
Qed.

Lemma si_u_other x : 0 <= x <= ct (- σ) s1 -> u (- σ) s1 x = u (- σ) s x.
Proof.
  intros Hx. unfold u. rewrite Hval by (apply si_heap; [by apply side_opp | done]).
  destruct Hσ as [-> | ->]; split_cmp; done || lia.
Qed.

Lemma si_heaped τ : side τ -> ordered τ s.
Proof. intros [-> | ->]; apply Hh. Qed.

Lemma si_ordered_other : ordered (- σ) s1.
Proof.
  intros i Hi. rewrite !si_u_other by div_lia. apply si_heaped; [by apply side_opp | lia].
Qed.

Lemma si_above_new : ct σ s1 = q -> ct σ s = q - 1 -> ordered_above σ s1 q.
Proof.
  intros Hc1 Hc. pose proof (si_heaped σ Hσ) as O. split; intros i Hi; intros Hne; [| div_lia].
  rewrite !si_u by div_lia. specialize (O i ltac:(lia)). assert (i / 2 <> q) by div_lia. split_cmp; done || lia.
Qed.

Lemma si_above : ct σ s1 = ct σ s -> σ * v <= u σ s q -> ordered_above σ s1 q.
Proof.
  intros Hc Hle. pose proof (si_heaped σ Hσ) as O. split; intros i Hi Hne; rewrite !si_u by div_lia;
    specialize (O i ltac:(lia)).
  - destruct (Z.eqb_spec i q); [done |]. destruct (Z.eqb_spec (i / 2) q) as [E |]; [rewrite E in O |]; lia.
  - rewrite Hne in O. pose proof (si_heaped σ Hσ q ltac:(lia)). assert (i <> q /\ q / 2 <> q) by div_lia. split_cmp; lia.
Qed.

Lemma si_below : ct σ s1 = ct σ s -> u σ s q <= σ * v -> ordered_below σ s1 q.
Proof.
  intros Hc Hle. pose proof (si_heaped σ Hσ) as O. split; intros i Hi Hne; rewrite !si_u by div_lia;
    specialize (O i ltac:(lia)).
  - destruct (Z.eqb_spec (i / 2) q); [done |]. destruct (Z.eqb_spec i q) as [-> |]; lia.
  - rewrite Hne in O. pose proof (si_heaped σ Hσ q ltac:(lia)). assert (i <> q /\ q / 2 <> q) by div_lia. split_cmp; lia.
Qed.
End SideInsert.

(** The counts after an item was put on one side. *)
Definition grown (σ : Z) (grow : bool) (s : rolling_median) : rolling_median :=
  if grow then (if 0 <? σ then set_counts (minCt s + 1) (maxCt s) s else set_counts (minCt s) (maxCt s + 1) s)
  else s.

Lemma grown_wf σ g s : wf s -> wf (grown σ g s).
Proof. intros W. unfold grown. destruct g, (0 <? σ); [| | done..]; by destruct W. Qed.

Lemma grown_val σ g s x : val (grown σ g s) x = val s x.
Proof. unfold grown. by destruct g, (0 <? σ). Qed.

Lemma grown_N σ g s : N (grown σ g s) = N s.
Proof. unfold grown. by destruct g, (0 <? σ). Qed.

Lemma grown_ct σ g s : side σ -> ct σ (grown σ g s) = ct σ s + (if g then 1 else 0).
Proof. intros [-> | ->]; destruct g; cbn; lia. Qed.

Lemma grown_ct_other σ g s : side σ -> ct (- σ) (grown σ g s) = ct (- σ) s.
Proof. intros [-> | ->]; by destruct g. Qed.

Definition room (σ : Z) (s : rolling_median) : Z := if 0 <? σ then (N s - 1) / 2 else N s / 2.

Section Sides.
Context (s s0 : rolling_median) (q v old : Z).
Context (W : wf s0) (Hh : heaped s) (F : fits s0) (HN : N s0 = N s).

(** The new item is at a position in use, or at the first free one. *)
Definition at_side (σ : Z) : Prop :=
  (forall x, in_heap s x -> val s0 x = if x =? σ * q then v else val s x)
  /\ ct σ s0 = ct σ s /\ ct (- σ) s0 = ct (- σ) s
  /\ (if ct σ s0 <? room σ s0 then q = ct σ s + 1 else 1 <= q <= ct σ s /\ σ * old = u σ s q).

Lemma side_insert_ok σ :
  side σ -> at_side σ ->
  let grow := ct σ s0 <? room σ s0 in
  let s1 := grown σ grow s0 in
  exists s', (if negb grow && (σ * old <? σ * v) then sort_down σ (rounds s1) s1 (q * 2) else settle σ s1 q) = Ok s'
    /\ rearranged s1 s' /\ heaped s'.
Proof.
  intros Hσ (Hval & Hc & Hc' & Hq) grow s1. pose proof (grown_wf σ grow s0 W) as W1. fold s1 in W1.
  assert (F1 : fits s1).
  { unfold s1, grow, grown, room, fits in *. destruct Hσ as [-> | ->]; cbn [Z.ltb Z.compare] in *; unfold ct in *;
      cbn [Z.ltb Z.compare] in *; destruct (_ <? _) eqn:E; cbn; lia. }
  assert (Hc1 : ct σ s1 = ct σ s + (if grow then 1 else 0)) by (unfold s1; rewrite grown_ct; [lia | done]).
  assert (Hq1 : 1 <= q <= ct σ s1).
  { rewrite Hc1. unfold grow in *. pose proof (ct_rounds σ s0 W F). destruct (_ <? _); lia. }
  assert (N1 : N s1 = N s) by (unfold s1; by rewrite grown_N).
  assert (V1 : forall x, in_heap s x -> val s1 x = if x =? σ * q then v else val s x).
  { intros x Hx. unfold s1. rewrite grown_val. by apply Hval. }
  assert (O1 : ct (- σ) s1 = ct (- σ) s) by (unfold s1; rewrite grown_ct_other; done).
  pose proof (si_ordered_other σ s s1 q v Hσ Hh F1 N1 V1 Hq1 O1) as Oo.
  assert (Hsettle : ordered_above σ s1 q -> exists s', settle σ s1 q = Ok s' /\ rearranged s1 s' /\ heaped s').
  { intros Ha. by apply settle_ok. }
  destruct grow eqn:G; unfold grow in G; rewrite G in Hq; cbn [negb andb].
  { apply Hsettle. apply (si_above_new σ s s1 q v); try done; lia. }
  destruct Hq as [_ Hold]. destruct (Z.ltb_spec (σ * old) (σ * v)) as [Hlt | Hge].
  - destruct (sort_down_ok σ Hσ (rounds s1) s1 q) as (s' & E & K & O & B); [done | done | lia | | |].
    + apply (si_below σ s s1 q v); try done; lia.
    + pose proof (ct_rounds σ s1 W1 F1). lia.
    + exists s'. split_and!; [done | apply K |]. apply (heaped_sides σ); [done | done |].
      apply (ordered_other σ s1); [done | intros; apply Oo; lia |].
      intros Hc2. rewrite u_root, B, <- u_root by lia. by apply (Oo 1); lia.
  - apply Hsettle. apply (si_above σ s s1 q v); try done; lia.
Qed.

Lemma at_side_pos σ : side σ -> at_side σ -> 0 <= q.
Proof.
  intros Hσ (_ & Hc & _ & Hq). pose proof (ct_rounds σ s0 W F). destruct (_ <? _); lia.
Qed.

Lemma insert_above_ok :
  at_side 1 -> maxCt s0 <> 0 ->
  exists s', insert_above s0 q v old = Ok s' /\ rearranged (grown 1 (minCt s0 <? (N s0 - 1) / 2) s0) s' /\ heaped s'.
Proof.
  intros Ha Hm. pose proof (at_side_pos 1 ltac:(by left) Ha) as Hq.
  destruct (side_insert_ok 1 ltac:(by left) Ha) as (s' & E & R). exists s'. split; [| done].
  rewrite <- E. change (ct 1 s0 <? room 1 s0) with (minCt s0 <? (N s0 - 1) / 2). rewrite !Z.mul_1_l.
  unfold insert_above. set (grow := minCt s0 <? (N s0 - 1) / 2). fold (grown 1 grow s0).
  destruct (negb grow && (old <? v)); [by apply minSortDown_eq |]. apply settle_above; [done |].
  by destruct grow.
Qed.

Lemma insert_below_ok :
  at_side (-1) ->
  exists s', insert_below s0 (- q) v old = Ok s' /\ rearranged (grown (-1) (maxCt s0 <? N s0 / 2) s0) s' /\ heaped s'.
Proof.
  intros Ha. pose proof (at_side_pos (-1) ltac:(by right) Ha) as Hq.
  destruct (side_insert_ok (-1) ltac:(by right) Ha) as (s' & E & R). exists s'. split; [| done].
  rewrite <- E. change (ct (-1) s0 <? room (-1) s0) with (maxCt s0 <? N s0 / 2).
  replace (-1 * old <? -1 * v) with (v <? old) by (split_cmp; lia).
  unfold insert_below. set (grow := maxCt s0 <? N s0 / 2). fold (grown (-1) grow s0).
  destruct (negb grow && (v <? old)); [by apply maxSortDown_eq |]. by apply settle_below.
Qed.
End Sides.

(** ** The window *)

Definition last_n {A} (n : nat) (l : list A) : list A := drop (length l - n) l.

Definition queue (n sz idx : nat) (d : list Z) : list Z :=
  if (sz <? n)%nat then take sz d else drop idx d ++ take idx d.

Lemma queue_insert n sz idx d v :
  length d = n -> (idx < n)%nat -> (sz <= n)%nat -> ((sz < n)%nat -> idx = sz) ->
  queue n (Nat.min (sz + 1) n) ((idx + 1) mod n) (<[idx := v]> d) = last_n n (queue n sz idx d ++ [v]).
Proof.
  intros Hl Hi Hs Hq. unfold queue, last_n. rewrite length_app. cbn [length].
  assert (Ed : <[idx := v]> d = take idx d ++ v :: drop (S idx) d) by (apply insert_take_drop; lia).
  assert (Hnext : (idx + 1 = n /\ (idx + 1) mod n = 0)%nat \/ (idx + 1 < n /\ (idx + 1) mod n = idx + 1)%nat).
  { destruct (decide (idx + 1 = n)%nat) as [-> |]; [left; by rewrite Nat.Div0.mod_same |].
    right. rewrite Nat.mod_small by lia. lia. }
  destruct (Nat.ltb_spec sz n) as [Hlt | Hge].
  - specialize (Hq Hlt). subst idx. rewrite length_take_le by lia.
    replace (sz + 1 - n)%nat with 0%nat by lia. rewrite drop_0. rewrite Nat.min_l by lia.
    destruct (Nat.ltb_spec (sz + 1) n).
    + rewrite Ed. rewrite take_app. rewrite length_take_le by lia.
      replace (sz + 1 - sz)%nat with 1%nat by lia. rewrite take_take, Nat.min_r by lia. done.
    + destruct Hnext as [[_ ->] | []]; [| lia]. rewrite drop_0, take_0, app_nil_r, Ed, (drop_ge d) by lia. done.
  - assert (sz = n) as -> by lia. rewrite Nat.min_r by lia. rewrite Nat.ltb_irrefl.
    rewrite length_app, length_drop, length_take_le by lia.
    replace (length d - idx + idx + 1 - n)%nat with 1%nat by lia.
    destruct (lookup_lt_is_Some_2 d idx) as [x Hx]; [lia |].
    rewrite (drop_S d x idx Hx). cbn [app drop]. rewrite drop_0.
    destruct Hnext as [[E ->] | [E ->]].
    + rewrite drop_0, take_0, app_nil_r, Ed, (drop_ge d (S idx)) by lia. done.
    + rewrite Nat.add_1_r, Ed. rewrite drop_app_ge, take_app_ge by (rewrite length_take_le; lia).
      rewrite length_take_le by lia. replace (S idx - idx)%nat with 1%nat by lia. cbn [take drop].
      rewrite drop_0, take_0, <- app_assoc. done.
Qed.

Lemma inv_queue_eq s w : inv s w -> w = queue (Z.to_nat (N s)) (Z.to_nat (sz s)) (Z.to_nat (idx s)) (data s).
Proof.
  intros I. rewrite (inv_window s w I) at 1. unfold queue. pose proof (inv_sz s w I). pose proof (inv_idx s w I).
  replace (Z.to_nat (sz s) <? Z.to_nat (N s))%nat with (sz s <? N s); [done |].
  destruct (Z.ltb_spec (sz s) (N s)), (Nat.ltb_spec (Z.to_nat (sz s)) (Z.to_nat (N s))); lia.
Qed.

(** The state right after the queue was updated. *)
Definition queued (s : rolling_median) (v : Z) : rolling_median :=
  set_queue ((idx s + 1) mod N s) (Z.min (sz s + 1) (N s)) (set_data (<[Z.to_nat (idx s) := v]> (data s)) s).

Lemma queued_wf s v : wf s -> wf (queued s v).
Proof. intros W. destruct W. split; try done. cbn. unfold zlen. by rewrite length_insert. Qed.

Lemma queued_val s v x :
  wf s -> 0 <= idx s < N s -> in_heap s x ->
  val (queued s v) x = if x =? place s (idx s) then v else val s x.
Proof.
  intros W Hi Hx. unfold val. change (slot (queued s v) x) with (slot s x). cbn [data queued set_queue set_data].
  pose proof (place_eq s (idx s) x W Hx Hi) as Hp. destruct (wf_slot s W x Hx) as [Hs _].
  pose proof (wf_data s W) as Hd. unfold zlen in Hd.
  unfold entry, znth. destruct (Z.ltb_spec (slot s x) 0); [lia |].
  destruct (Z.eqb_spec x (place s (idx s))) as [E | Hne].
  - rewrite (proj2 Hp (eq_sym E)). rewrite list_lookup_insert_eq by lia. done.
  - rewrite list_lookup_insert_ne; [done |]. intros E. apply Hne. symmetry. apply Hp. lia.
Qed.

(** The invariant after an insertion, from what the sorting achieves. *)
Lemma insert_finish s w v mn mx s' :
  inv s w ->
  mn = Z.max 0 ((Z.min (sz s + 1) (N s) - 1) / 2) -> mx = Z.min (sz s + 1) (N s) / 2 ->
  rearranged (set_counts mn mx (queued s v)) s' -> heaped s' ->
  inv s' (last_n (Z.to_nat (N s)) (w ++ [v])) /\ N s' = N s.
Proof.
  intros I Emn Emx R Hh. set (s1 := set_counts mn mx (queued s v)) in *.
  pose proof (inv_wf s w I) as W. pose proof (wf_N s W) as HN. pose proof (inv_sz s w I) as Hsz.
  destruct (same_fields _ _ (re_same _ _ R)) as (EN & Ed & Ei & Emin & Emax & Esz).
  change (N s1) with (N s) in EN. change (data s1) with (<[Z.to_nat (idx s) := v]> (data s)) in Ed.
  change (idx s1) with ((idx s + 1) mod N s) in Ei. change (sz s1) with (Z.min (sz s + 1) (N s)) in Esz.
  change (minCt s1) with mn in Emin. change (maxCt s1) with mx in Emax.
  pose proof (Z.mod_pos_bound (idx s + 1) (N s) HN) as Hm. pose proof (inv_idx s w I) as Hidx.
  split; [| done]. split; rewrite ?EN, ?Esz, ?Emin, ?Emax, ?Ei, ?Ed; try done; [apply R | lia | | |].
  - intros k Hk. assert (Hf : place s k = fill_position k) by (apply (inv_fill s w I); lia).
    destruct (wf_place s W k) as [Hin Hslot]; [lia |].
    apply place_eq; [apply R | unfold in_heap in *; by rewrite EN, <- Hf | lia |].
    rewrite (re_outside _ _ R); [by rewrite <- Hf | by rewrite <- Hf |].
    unfold used. change (minCt s1) with mn. change (maxCt s1) with mx. rewrite Emn, Emx.
    rewrite Z.max_r by div_lia. apply fill_outside; lia.
  - intros Hlt. pose proof (inv_queue s w I ltac:(lia)). rewrite Z.mod_small by lia. lia.
  - rewrite (inv_queue_eq s w I). pose proof (inv_queue s w I).
    pose proof (queue_insert (Z.to_nat (N s)) (Z.to_nat (sz s)) (Z.to_nat (idx s)) (data s) v) as Q.
    pose proof (wf_data s W) as Hd. unfold zlen in Hd. rewrite <- Q by lia. unfold queue.
    replace (Nat.min (Z.to_nat (sz s) + 1) (Z.to_nat (N s))) with (Z.to_nat (Z.min (sz s + 1) (N s))) by lia.
    replace ((Z.to_nat (idx s) + 1) mod Z.to_nat (N s))%nat with (Z.to_nat ((idx s + 1) mod N s))
      by (rewrite Z2Nat.inj_mod by lia; f_equal; lia).
    replace (Z.to_nat (Z.min (sz s + 1) (N s)) <? Z.to_nat (N s))%nat with (Z.min (sz s + 1) (N s) <? N s); [done |].
    destruct (Z.ltb_spec (Z.min (sz s + 1) (N s)) (N s)),
      (Nat.ltb_spec (Z.to_nat (Z.min (sz s + 1) (N s))) (Z.to_nat (N s))); lia.
Qed.

(** The position an insertion writes to. *)
Lemma insert_position s w :
  inv s w ->
  in_heap s (place s (idx s)) /\ slot s (place s (idx s)) = idx s
  /\ (sz s < N s /\ place s (idx s) = fill_position (sz s) \/ sz s = N s).
Proof.
  intros I. pose proof (inv_sz s w I). destruct (wf_place s (inv_wf s w I) (idx s) (inv_idx s w I)) as [H1 H2].
  split_and!; [done.. |]. destruct (decide (sz s = N s)); [by right |]. left. split; [lia |].
  rewrite (inv_queue s w I) by lia. apply (inv_fill s w I). lia.
Qed.

Lemma insert_unfold s v :
  wf s -> 0 <= idx s < N s ->
  insert s v =
    if 0 <? place s (idx s) then insert_above (queued s v) (place s (idx s)) v (entry (data s) (idx s))
    else if place s (idx s) <? 0 then insert_below (queued s v) (place s (idx s)) v (entry (data s) (idx s))
    else insert_middle (queued s v).
Proof.
  intros W Hi. unfold insert. rewrite !read_entry by (by rewrite ?(wf_pos s W), ?(wf_data s W)). simpl_bind.
  unfold write. rewrite (wf_data s W). destruct (Z.leb_spec 0 (idx s)); [| lia].
  destruct (Z.ltb_spec (idx s) (N s)); [| lia]. done.
Qed.

Lemma queued_at_side s w v σ :
  inv s w -> side σ -> 0 < σ * place s (idx s) ->
  at_side s (queued s v) (σ * place s (idx s)) v (entry (data s) (idx s)) σ.
Proof.
  intros I Hσ Hp. pose proof (inv_wf s w I) as W. destruct (insert_position s w I) as (Hin & Hslot & Hpos).
  assert (Hσσ : σ * (σ * place s (idx s)) = place s (idx s)) by (destruct Hσ as [-> | ->]; lia).
  split_and!; [| done | done |].
  { intros x Hx. rewrite Hσσ. by apply queued_val; [| apply (inv_idx s w I) |]. }
  change (ct σ (queued s v)) with (ct σ s). change (room σ (queued s v)) with (room σ s).
  unfold u, val. rewrite Hσσ, Hslot. unfold ct, room, in_heap in *. pose proof (inv_sz s w I). pose proof (wf_N s W).
  rewrite (inv_min s w I), (inv_max s w I). set (p := place s (idx s)) in *.
  destruct Hpos as [[Hlt E] | Hfull].
  - destruct (Z.odd (sz s)) eqn:Eo; [apply fill_odd in Eo | apply fill_even in Eo]; try lia;
      destruct Eo as [Eo Em]; rewrite Eo in E; destruct Hσ as [-> | ->]; cbn [Z.ltb Z.compare];
      try (exfalso; div_lia); destruct (Z.ltb_spec (Z.max 0 ((sz s - 1) / 2)) ((N s - 1) / 2));
      destruct (Z.ltb_spec (sz s / 2) (N s / 2)); div_lia.
  - rewrite Hfull. destruct Hσ as [-> | ->]; cbn [Z.ltb Z.compare].
    + destruct (Z.ltb_spec (Z.max 0 ((N s - 1) / 2)) ((N s - 1) / 2)); [lia |]. split; [lia | done].
    + destruct (Z.ltb_spec (N s / 2) (N s / 2)); [lia |]. split; [lia | done].
Qed.

Lemma queued_fits s w v : inv s w -> fits (queued s v).
Proof. apply inv_fits. Qed.

(** The counts after the insertion. *)
Lemma insert_counts s w :
  inv s w ->
  let n := Z.min (sz s + 1) (N s) in
  let p := place s (idx s) in
  minCt s + (if (0 <? p) && (minCt s <? (N s - 1) / 2) then 1 else 0) = Z.max 0 ((n - 1) / 2)
  /\ maxCt s + (if (p <? 0) && (maxCt s <? N s / 2) then 1 else 0) = n / 2
  /\ (0 < p -> maxCt s <> 0).
Proof.
  intros I n p. destruct (insert_position s w I) as (Hin & _ & Hpos). fold p in Hin, Hpos. unfold in_heap in Hin.
  pose proof (inv_sz s w I). pose proof (wf_N s (inv_wf s w I)). rewrite (inv_min s w I), (inv_max s w I).
  assert (Hp : sz s < N s /\ (p = - ((sz s + 1) / 2) /\ sz s mod 2 = 1 \/ p = sz s / 2 /\ sz s mod 2 = 0) \/ sz s = N s).
  { destruct Hpos as [[Hlt E] |]; [left; split; [done |] | by right].
    destruct (Z.odd (sz s)) eqn:Eo; [left; apply fill_odd in Eo | right; apply fill_even in Eo]; lia. }
  clear Hpos. clearbody p. unfold n. clear n. destruct Hp as [[Hlt Hp] | Hfull].
  - rewrite Z.min_l by lia.
    destruct (Z.ltb_spec 0 p), (Z.ltb_spec p 0), (Z.ltb_spec (Z.max 0 ((sz s - 1) / 2)) ((N s - 1) / 2)),
      (Z.ltb_spec (sz s / 2) (N s / 2)); cbn [andb]; div_lia.
  - rewrite Z.min_r by lia. rewrite Hfull.
    destruct (Z.ltb_spec (Z.max 0 ((N s - 1) / 2)) ((N s - 1) / 2)), (Z.ltb_spec (N s / 2) (N s / 2)); try lia.
    rewrite !andb_false_r. div_lia.
Qed.

Lemma grown_counts σ g s :
  side σ ->
  grown σ g s = set_counts (minCt s + (if (0 <? σ) && g then 1 else 0)) (maxCt s + (if (σ <? 0) && g then 1 else 0)) s.
Proof. intros [-> | ->]; destruct s, g; cbn; by rewrite ?Z.add_0_r. Qed.

(** One insertion keeps the invariant, for the window with the new item. *)
Lemma insert_ok s w v :
  inv s w -> exists s', insert s v = Ok s' /\ inv s' (last_n (Z.to_nat (N s)) (w ++ [v])) /\ N s' = N s.
Proof.
  intros I. pose proof (inv_wf s w I) as W. pose proof (inv_idx s w I) as Hi.
  rewrite insert_unfold by done. pose proof (queued_wf s v W) as W0. pose proof (queued_fits s w v I) as F0.
  pose proof (inv_heaped s w I) as Hh. destruct (insert_counts s w I) as (Cmin & Cmax & Cne).
  destruct (Z.ltb_spec 0 (place s (idx s))) as [Hp | Hp];
    [| destruct (Z.ltb_spec (place s (idx s)) 0) as [Hn | Hn]]; cbn [andb] in *.
  - pose proof (queued_at_side s w v 1 I ltac:(by left) ltac:(lia)) as Ha. rewrite Z.mul_1_l in Ha.
    destruct (insert_above_ok s _ _ _ _ W0 Hh F0 eq_refl Ha (Cne Hp)) as (s' & E & R & O).
    exists s'. split; [done |]. rewrite grown_counts in R by (by left).
    destruct (Z.ltb_spec (place s (idx s)) 0) in Cmax; [lia |]. by eapply insert_finish in R.
  - pose proof (queued_at_side s w v (-1) I ltac:(by right) ltac:(lia)) as Ha. rewrite opp_mul in Ha.
    destruct (insert_below_ok s _ _ _ _ W0 Hh F0 eq_refl Ha) as (s' & E & R & O).
    exists s'. rewrite Z.opp_involutive in E. split; [done |]. rewrite grown_counts in R by (by right).
    by eapply insert_finish in R.
  - assert (Hp0 : place s (idx s) = 0) by lia.
    assert (Hu : forall σ x, side σ -> 1 <= x <= ct σ s -> u σ (queued s v) x = u σ s x).
    { intros σ x Hσ Hx. unfold u. rewrite queued_val; [| done | done |].
      - rewrite Hp0. destruct Hσ as [-> | ->]; split_cmp; done || lia.
      - apply used_in_heap; [by eapply inv_fits |]. apply side_used; [done | by eapply inv_fits | lia]. }
    destruct (insert_middle_ok (queued s v) W0 F0) as (s' & E & R & O).
    + intros σ i Hσ Hx. change (ct σ (queued s v)) with (ct σ s) in Hx. rewrite !Hu by (done || div_lia).
      destruct Hσ as [-> | ->]; apply Hh; lia.
    + change (ct 1 (queued s v)) with (ct 1 s). change (ct (-1) (queued s v)) with (ct (-1) s). intros H1 H2.
      rewrite !Hu by (lia || by (left + right)). pose proof (proj1 Hh 1 ltac:(lia)) as A.
      pose proof (proj2 Hh 1 ltac:(lia)) as B. change (1 / 2) with 0 in A, B.
      pose proof (u_root 1 s) as Ur. change (- (1)) with (-1) in Ur. lia.
    + exists s'. split; [done |]. eapply insert_finish; [done | exact Cmin | exact Cmax | | done].
      by rewrite !Z.add_0_r.
Qed.

(** ** The empty heap *)

Lemma clear_loop_ok N n : forall p h,
  Z.of_nat n <= N -> zlen p = N -> zlen h = N ->
  exists p' h', clear_loop n N p h = Ok (p', h') /\ zlen p' = N /\ zlen h' = N
    /\ (forall k, 0 <= k < N -> entry p' k = if k <? Z.of_nat n then fill_position k else entry p k)
    /\ (forall i, entry h' (i + N / 2) = if unfill i <? Z.of_nat n then unfill i else entry h (i + N / 2)).
Proof.
  induction n as [| n IH]; intros p h Hn Hp Hh.
  { exists p, h. split_and!; try done; intros; [destruct (Z.ltb_spec k (Z.of_nat 0)) |]; try (done || lia).
    destruct (Z.ltb_spec (unfill i) (Z.of_nat 0)); [| done]. unfold unfill in *. split_cmp; lia. }
  cbn [clear_loop]. destruct (write_ok p (Z.of_nat n) (fill_position (Z.of_nat n))) as (p1 & -> & L1 & E1); [lia |].
  simpl_bind. rewrite read_entry by lia. simpl_bind. rewrite E1, Z.eqb_refl.
  pose proof (fill_range N (Z.of_nat n) ltac:(lia)) as Hf.
  destruct (write_ok h (fill_position (Z.of_nat n) + N / 2) (Z.of_nat n)) as (h1 & -> & M1 & F1); [div_lia |]. simpl_bind.
  destruct (IH p1 h1) as (p2 & h2 & -> & L2 & M2 & E2 & F2); [lia.. |]. exists p2, h2. split_and!; try done.
  - intros k Hk. rewrite E2, E1 by done.
    destruct (Z.ltb_spec k (Z.of_nat n)), (Z.ltb_spec k (Z.of_nat (S n))), (Z.eqb_spec k (Z.of_nat n)); try (done || lia). by subst.
  - intros i. rewrite F2, F1.
    assert (Hu : i + N / 2 = fill_position (Z.of_nat n) + N / 2 <-> unfill i = Z.of_nat n).
    { split; [intros; assert (i = fill_position (Z.of_nat n)) as -> by lia; apply unfill_fill; lia |].
      intros E. rewrite <- (fill_unfill i), E. done. }
    destruct (Z.ltb_spec (unfill i) (Z.of_nat n)), (Z.ltb_spec (unfill i) (Z.of_nat (S n))),
      (Z.eqb_spec (i + N / 2) (fill_position (Z.of_nat n) + N / 2)); try (done || lia).
Qed.

Definition allocated (s : rolling_median) : Prop :=
  0 < N s /\ zlen (data s) = N s /\ zlen (pos s) = N s /\ zlen (heap s) = N s.

Lemma clear_ok s : allocated s -> exists s', clear s = Ok s' /\ inv s' [] /\ N s' = N s.
Proof.
  intros (HN & Hd & Hp & Hh). unfold clear.
  destruct (clear_loop_ok (N s) (Z.to_nat (N s)) (pos s) (heap s)) as (p & h & -> & Lp & Lh & Ep & Eh); [lia.. |].
  simpl_bind. set (s' := Rolling_median (data s) p h (N s) 0 0 0 0). exists s'. split_and!; [done | | done].
  assert (Es : forall i, in_heap s' i -> slot s' i = unfill i).
  { intros i Hi. unfold slot. cbn [heap N s']. rewrite Eh. pose proof (unfill_range (N s) i HN Hi).
    destruct (Z.ltb_spec (unfill i) (Z.of_nat (Z.to_nat (N s)))); lia. }
  assert (Epl : forall k, 0 <= k < N s -> place s' k = fill_position k).
  { intros k Hk. unfold place. cbn [pos s']. rewrite Ep by done.
    destruct (Z.ltb_spec k (Z.of_nat (Z.to_nat (N s)))); [done | lia]. }
  assert (Hord : forall τ, ordered τ s') by (intros τ i Hi; unfold ct in Hi; cbn in Hi; case_match; lia).
  split; try done; cbn [sz N s' idx minCt maxCt]; try lia; [| by destruct (Z.ltb_spec 0 (N s)); [| lia]].
  split; try done.
  - intros i Hi. rewrite Es by done. pose proof (unfill_range (N s) i HN Hi). split; [done |].
    rewrite Epl by done. apply fill_unfill.
  - intros k Hk. cbn [N s'] in Hk. rewrite Epl by done. pose proof (fill_range (N s) k Hk). split; [done |].
    rewrite Es by done. apply unfill_fill. lia.
Qed.

Lemma insert_all_ok vs : forall s w,
  inv s w -> (length w <= Z.to_nat (N s))%nat ->
  exists s', insert_all s vs = Ok s' /\ inv s' (last_n (Z.to_nat (N s)) (w ++ vs)) /\ N s' = N s.
Proof.
  induction vs as [| v vs IH]; intros s w I Hl; cbn [insert_all].
  - exists s. unfold last_n. rewrite app_nil_r. replace (length w - Z.to_nat (N s))%nat with 0%nat by lia.
    by rewrite drop_0.
  - destruct (insert_ok s w v I) as (s1 & -> & I1 & E1). simpl_bind.
    destruct (IH s1 _ I1) as (s2 & -> & I2 & E2).
    { unfold last_n. rewrite length_drop. lia. }
    exists s2. split_and!; [done | | by rewrite E2]. rewrite E1 in I2.
    replace (last_n _ (w ++ v :: vs)) with (last_n (Z.to_nat (N s)) (last_n (Z.to_nat (N s)) (w ++ [v]) ++ vs)); [done |].
    unfold last_n. rewrite !length_app, !length_drop, !length_app. cbn [length].
    replace (w ++ v :: vs) with ((w ++ [v]) ++ vs) by (by rewrite <- app_assoc).
    rewrite <- (drop_app_le (w ++ [v]) vs) by (rewrite length_app; cbn; lia). rewrite drop_drop. f_equal. lia.
Qed.

(** ** The median *)

Lemma heap_above σ s r :
  ordered σ s -> (r = 0 \/ r = 1) -> forall i, r <= i <= ct σ s -> u σ s r <= u σ s i.
Proof.
  intros O Hr i Hi. assert (H0 : 0 <= i) by lia. revert Hi.
  induction i as [i IH] using (well_founded_induction (Z.lt_wf 0)). intros Hi.
  destruct (Z.eqb_spec i r) as [-> | Hne]; [done |].
  etransitivity; [apply (IH (i / 2)) | apply O]; div_lia.
Qed.

Lemma take_entries (d : list Z) n :
  (n <= length d)%nat -> take n d = map (entry d) (map Z.of_nat (seq 0 n)).
Proof.
  intros Hn. apply list_eq. intros i. rewrite map_map, list_lookup_fmap.
  destruct (decide (i < n)%nat) as [Hi | Hi].
  - rewrite lookup_take_lt, lookup_seq_lt by done. cbn. unfold entry, znth.
    destruct (Z.ltb_spec (Z.of_nat i) 0); [lia |]. rewrite Nat2Z.id.
    by destruct (lookup_lt_is_Some_2 d i) as [x ->]; [lia |].
  - rewrite lookup_take_ge, lookup_seq_ge by lia. done.
Qed.

(** The positions in use, from the lowest to the highest. *)
Definition positions (s : rolling_median) : list Z :=
  map (fun n => Z.of_nat n - maxCt s) (seq 0 (Z.to_nat (sz s))).

Lemma rolling_window_length s w : inv s w -> zlen w = sz s.
Proof.
  intros I. rewrite (inv_window s w I). pose proof (inv_sz s w I). pose proof (inv_idx s w I).
  pose proof (wf_data s (inv_wf s w I)) as Hd. unfold zlen in *. destruct (Z.ltb_spec (sz s) (N s)).
  - rewrite length_take. lia.
  - rewrite length_app, length_drop, length_take. lia.
Qed.

(** The heap holds the window. *)
Lemma window_values s w : inv s w -> w ≡ₚ map (val s) (positions s).
Proof.
  intros I. pose proof (inv_wf s w I) as W. pose proof (inv_sz s w I) as Hs.
  pose proof (wf_data s W) as Hd. unfold zlen in Hd.
  assert (Hw : w ≡ₚ map (entry (data s)) (map Z.of_nat (seq 0 (Z.to_nat (sz s))))).
  { rewrite (inv_window s w I). destruct (Z.ltb_spec (sz s) (N s)); [rewrite take_entries by lia; done |].
    rewrite Permutation_app_comm, take_drop, <- take_entries by lia. rewrite take_ge by lia. done. }
  rewrite Hw. unfold val. rewrite <- (map_map (slot s) (entry (data s))). apply fmap_Permutation.
  destruct (decide (sz s = 0)) as [E | Hne]; [unfold positions; by rewrite E |].
  assert (Hused : forall i, i ∈ positions s <-> used s i).
  { intros i. unfold positions, used. rewrite list_elem_of_fmap. pose proof (inv_min s w I). pose proof (inv_max s w I).
    split; [intros (n & -> & Hn%elem_of_seq); div_lia |]. intros Hi. exists (Z.to_nat (i + maxCt s)).
    rewrite elem_of_seq. div_lia. }
  apply NoDup_Permutation.
  - apply NoDup_fmap_2; [intros ??; lia | apply NoDup_seq].
  - apply NoDup_fmap_2_strong.
    + intros x y Hx%Hused Hy%Hused Exy. pose proof (used_in_heap s x (inv_fits s w I) Hx) as Ix.
      pose proof (used_in_heap s y (inv_fits s w I) Hy) as Iy.
      destruct (wf_slot s W x Ix) as [_ Px]. destruct (wf_slot s W y Iy) as [_ Py]. congruence.
    + apply NoDup_fmap_2; [intros ??; lia | apply NoDup_seq].
  - intros k. rewrite !list_elem_of_fmap. split.
    + intros (n & -> & Hn%elem_of_seq). exists (place s (Z.of_nat n)).
      destruct (wf_place s W (Z.of_nat n)) as [_ Hp]; [lia |]. split; [done |]. apply Hused.
      apply (inv_used s w); [done | lia..].
    + intros (i & -> & Hi%Hused). pose proof (used_in_heap s i (inv_fits s w I) Hi) as Ii.
      destruct (wf_slot s W i Ii) as [Hr Hp]. exists (Z.to_nat (slot s i)). rewrite elem_of_seq.
      assert (slot s i < sz s) by (apply (inv_used s w); [done | done | lia | by rewrite Hp]). lia.
Qed.

Lemma positions_split s w :
  inv s w -> 0 < sz s ->
  positions s = map (fun n => Z.of_nat n - maxCt s) (seq 0 (Z.to_nat (maxCt s)))
                ++ 0 :: map (fun n => Z.of_nat n + 1) (seq 0 (Z.to_nat (minCt s))).
Proof.
  intros I Hs. unfold positions. pose proof (inv_min s w I). pose proof (inv_max s w I).
  replace (Z.to_nat (sz s)) with (Z.to_nat (maxCt s) + S (Z.to_nat (minCt s)))%nat by div_lia.
  rewrite seq_app, map_app. f_equal. cbn [seq map Nat.add]. f_equal; [destruct (inv_fits s w I); lia |].
  replace (S (Z.to_nat (maxCt s))) with (S (Z.to_nat (maxCt s)) + 0)%nat by lia.
  rewrite <- fmap_add_seq. rewrite <- list_fmap_compose. apply list_fmap_ext. intros i x _. unfold compose. destruct (inv_fits s w I). lia.
Qed.

(** The rolling median is the median of the window. *)
Lemma rolling_value_ok s w : inv s w -> w <> [] -> rolling_value s = Ok (median_of w).
Proof.
  intros I Hne. pose proof (inv_wf s w I) as W. pose proof (inv_fits s w I) as F. pose proof (wf_N s W) as HN.
  assert (Hs : 0 < sz s).
  { pose proof (rolling_window_length s w I) as Hl. unfold zlen in Hl. destruct w; [done |]. cbn in Hl. lia. }
  destruct (inv_heaped s w I) as [O1 O2]. pose proof (window_values s w I) as Hp.
  rewrite (positions_split s w I Hs), map_app, map_cons in Hp.
  set (A := map (val s) (map (fun n => Z.of_nat n - maxCt s) _)) in Hp.
  set (B := map (val s) (map (fun n => Z.of_nat n + 1) _)) in Hp.
  assert (HA : forall r, (r = 0 \/ r = 1) -> r <= maxCt s -> Forall (fun x => x <= val s (- r)) A).
  { intros r Hr Hc. apply Forall_forall. intros x Hx. unfold A in Hx. rewrite map_map in Hx.
    apply list_elem_of_fmap in Hx as (n & -> & Hn%elem_of_seq).
    pose proof (heap_above (-1) s r O2 Hr (maxCt s - Z.of_nat n)) as H. change (ct (-1) s) with (maxCt s) in H.
    specialize (H ltac:(lia)). unfold u in H. rewrite (opp_mul r), (opp_mul (maxCt s - Z.of_nat n)) in H.
    replace (- (maxCt s - Z.of_nat n)) with (Z.of_nat n - maxCt s) in H by lia. lia. }
  assert (HB : Forall (fun x => val s 0 <= x) B).
  { apply Forall_forall. intros x Hx. unfold B in Hx. rewrite map_map in Hx.
    apply list_elem_of_fmap in Hx as (n & -> & Hn%elem_of_seq).
    pose proof (heap_above 1 s 0 O1 ltac:(by left) (Z.of_nat n + 1)) as H. change (ct 1 s) with (minCt s) in H.
    unfold u in H. rewrite !Z.mul_1_l in H. apply H. lia. }
  assert (LA : zlen A = maxCt s) by (unfold A, zlen; rewrite !length_map, length_seq; destruct F; lia).
  assert (LB : zlen B = minCt s) by (unfold B, zlen; rewrite !length_map, length_seq; destruct F; lia).
  unfold zlen in LA, LB. pose proof (inv_min s w I). pose proof (inv_max s w I). unfold rolling_value.
  rewrite (value_at_ok s 0) by (done || (apply used_in_heap; [done | unfold used; destruct F; lia])). simpl_bind. specialize (HA 0 ltac:(by left)) as HA0.
  change (- (0)) with 0 in HA0.
  destruct (Z.ltb_spec (minCt s) (maxCt s)) as [Hlt | Hge].
  - rewrite (value_at_ok s (-1)) by (done || (apply used_in_heap; [done | unfold used; destruct F; lia])). simpl_bind. f_equal.
    rewrite (median_of_even_split w A (val s (-1)) (val s 0) B); [by rewrite Z.add_comm | done | apply HA0; lia | done | | |].
    + div_lia.
    + unfold A. rewrite map_map. apply list_elem_of_fmap. exists (Z.to_nat (maxCt s - 1)). rewrite elem_of_seq.
      split; [f_equal; lia | lia].
    + apply (HA 1); [by right | lia].
  - f_equal. symmetry. apply (median_of_odd_split w A (val s 0) B); [done | apply HA0; lia | done |]. div_lia.
Qed.

Lemma new_ok n garbage :
  (0 < n)%nat -> length garbage = (3 * n)%nat ->
  exists s, new_rolling_median n garbage = Ok s /\ inv s [] /\ N s = Z.of_nat n.
Proof.
  intros Hn Hl. apply clear_ok. unfold allocated, zlen. cbn [N data pos heap].
  rewrite !length_take, !length_drop. lia.
Qed.

(** ** The interface of the component

    [holds n s w]: the rolling median [s] of size [n] contains the window [w]. *)
Definition holds (n : nat) (s : rolling_median) (w : list Z) : Prop := inv s w /\ N s = Z.of_nat n.

Lemma holds_positive n s w : holds n s w -> (0 < n)%nat.
Proof. intros [I E]. pose proof (wf_N s (inv_wf s w I)). lia. Qed.

Lemma holds_size n s w : holds n s w -> size s = zlen w.
Proof. intros [I _]. symmetry. by apply rolling_window_length. Qed.

Lemma holds_length n s w : holds n s w -> (length w <= n)%nat.
Proof. intros [I E]. pose proof (rolling_window_length s w I). pose proof (inv_sz s w I). unfold zlen in *. lia. Qed.

Lemma holds_value n s w : holds n s w -> w <> [] -> rolling_value s = Ok (median_of w).
Proof. intros [I _]. by apply rolling_value_ok. Qed.

Lemma holds_insert n s w v :
  holds n s w -> exists s', insert s v = Ok s' /\ holds n s' (last_n n (w ++ [v])).
Proof.
  intros [I E]. destruct (insert_ok s w v I) as (s' & -> & I' & E'). rewrite E, Nat2Z.id in I'.
  exists s'. unfold holds. by rewrite E'.
Qed.

Lemma holds_refill n s w vs :
  holds n s w -> exists s1 s2, clear s = Ok s1 /\ insert_all s1 vs = Ok s2 /\ holds n s2 (last_n n vs).
Proof.
  intros [I E]. destruct (clear_ok s) as (s1 & E1 & I1 & N1).
  { destruct (inv_wf s w I). by unfold allocated. }
  destruct (insert_all_ok vs s1 [] I1) as (s2 & E2 & I2 & N2); [cbn; lia |].
  exists s1, s2. rewrite N1, E, Nat2Z.id in I2. unfold holds. by rewrite N2, N1.
Qed.

Lemma holds_new n garbage :
  (0 < n)%nat -> length garbage = (3 * n)%nat -> exists s, new_rolling_median n garbage = Ok s /\ holds n s [].
Proof. intros Hn Hl. destruct (new_ok n garbage Hn Hl) as (s & E & I & EN). by exists s. Qed.

Lemma last_n_snoc {A} n (l : list A) x : (0 < n)%nat -> last_n n (last_n n l ++ [x]) = last_n n (l ++ [x]).
Proof.
  intros Hn. unfold last_n. rewrite !length_app, length_drop. cbn [length].
  rewrite <- (drop_app_le l [x]) by lia. rewrite drop_drop. f_equal. lia.
Qed.

(** For every window size, every content of the allocated memory and every
    sequence of insertions, no index leaves its array, and the value read from
    the two heaps is the sorted median of the last [n] inserted items. *)
Theorem rolling_median_correct n garbage vs :
  (0 < n)%nat -> length garbage = (3 * n)%nat -> vs <> [] ->
  (s ← new_rolling_median n garbage; s ← insert_all s vs; m ← rolling_value s; Ok (size s, m))
  = Ok (zlen (last_n n vs), median_of (last_n n vs)).
Proof.
  intros Hn Hl Hne. destruct (new_ok n garbage Hn Hl) as (s & -> & I & EN). simpl_bind.
  destruct (insert_all_ok vs s [] I) as (s1 & -> & I1 & _); [cbn; lia |]. simpl_bind.
  rewrite EN, Nat2Z.id in I1. cbn [app] in I1.
  rewrite (rolling_value_ok s1 _ I1).
  - simpl_bind. unfold size. by rewrite (rolling_window_length s1 _ I1).
  - intros E. apply (f_equal length) in E. unfold last_n in E. rewrite length_drop in E.
    destruct vs; [done |]. cbn in E. lia.
Qed.

Lemma rolling_median_correct_witness :
  (s ← new_rolling_median 4 (replicate 12 77); s ← insert_all s [5; 9; 1; 7; 3; 8]; m ← rolling_value s; Ok (size s, m))
  = Ok (4, 5).
Proof. apply (rolling_median_correct 4 (replicate 12 77) [5; 9; 1; 7; 3; 8]); [lia | done | done]. Defined.
End Rolling.
