(* ===== verification/Difficulty.v ===== *)
(** * Difficulty: [src/cryptonote_basic/difficulty.cpp]

    The proof-of-work target test and the four generations of the difficulty
    adjustment. Timestamps are 64-bit words, cumulative difficulties 128-bit
    words ([boost::multiprecision::uint128_t]). The boost conversions the code
    calls are parameters: [convert_to_u64] for [convert_to<uint64_t>] and
    [boost_round] for [boost::math::round]. *)
From S2P Require Import Prelude IntUtil Config Median.
From Stdlib Require Import SpecFloat.

Open Scope Z_scope.

(** ** The target test *)

(** On x86_64 the product is [mul128]; the out parameters are [(low, high)].
    Source: src/src/cryptonote_basic/difficulty.cpp:59-61 (mul) *)
Definition mul (a b : Z) : Z * Z := mul128 a b.

(** The portable branch of the preprocessor conditional.
    Source: src/src/cryptonote_basic/difficulty.cpp:65-100 (mul) *)
Definition mul_portable (a b : Z) : Z * Z :=
  let aLow := Z.land a 0xFFFFFFFF in
  let aHigh := Z.shiftr a 32 in
  let bLow := Z.land b 0xFFFFFFFF in
  let bHigh := Z.shiftr b 32 in
  let res := aLow *! bLow in
  let lowRes1 := Z.land res 0xFFFFFFFF in
  let carry := Z.shiftr res 32 in
  let res := (aHigh *! bLow) +! carry in
  let highResHigh1 := Z.shiftr res 32 in
  let highResLow1 := Z.land res 0xFFFFFFFF in
  let res := aLow *! bHigh in
  let lowRes2 := Z.land res 0xFFFFFFFF in
  let carry := Z.shiftr res 32 in
  let res := (aHigh *! bHigh) +! carry in
  let highResHigh2 := Z.shiftr res 32 in
  let highResLow2 := Z.land res 0xFFFFFFFF in
  let r := highResLow1 +! lowRes2 in
  let carry := Z.shiftr r 32 in
  let low := Z.lor (r <<! 32) lowRes1 in
  let r := highResHigh1 +! highResLow2 +! carry in
  let d3 := Z.land r 0xFFFFFFFF in
  let carry := Z.shiftr r 32 in
  let r := highResHigh2 +! carry in
  let high := Z.lor d3 (r <<! 32) in
  (low, high).

(** Source: src/src/cryptonote_basic/difficulty.cpp:104-106 (cadd) *)
Definition cadd (a b : Z) : bool := a +! b <? a.

(** Source: src/src/cryptonote_basic/difficulty.cpp:108-110 (cadc) *)
Definition cadc (a b : Z) (c : bool) : bool :=
  (a +! b <? a) || (c && (a +! b =? UINT64_MAX)).

(** [swap64le(((const uint64_t * ) &hash)[i])] on a little-endian machine. *)
Definition hash_word (hash : list Z) (i : nat) : Z :=
  le_bytes (take 8 (drop (8 * i) hash)).

(** Source: src/src/cryptonote_basic/difficulty.cpp:112-127 (check_hash) *)
Definition check_hash (hash : list Z) (difficulty : Z) : bool :=
  let '(top, high) := mul (hash_word hash 3) difficulty in
  if negb (high =? 0) then false else
  let '(_, cur) := mul (hash_word hash 0) difficulty in
  let '(low, high) := mul (hash_word hash 1) difficulty in
  let carry := cadd cur low in
  let cur := high in
  let '(low, high) := mul (hash_word hash 2) difficulty in
  let carry := cadc cur low carry in
  let carry := cadc high top carry in
  negb carry.

(** The loop of [hex]: the digits of [v], least significant first. 32 rounds
    are enough for the 128 bits of [v].
    Source: src/src/cryptonote_basic/difficulty.cpp:132-136 (hex) *)
Fixpoint hex_digits (fuel : nat) (v : Z) : list Z :=
  match fuel with
  | O => []
  | S fuel => if 0 <? v then Z.land v 0xf :: hex_digits fuel (Z.shiftr v 4) else []
  end.

(** The characters of the table [chars].
    Source: src/src/cryptonote_basic/difficulty.cpp:130-130 (hex) *)
Definition hex_char (d : Z) : Z := if d <? 10 then 48 + d else 87 + d.

(** The result as character codes, the prefix [0x] included.
    Source: src/src/cryptonote_basic/difficulty.cpp:129-141 (hex) *)
Definition hex (v : Z) : list Z :=
  let s := hex_digits 32 v in
  let s := match s with [] => [0] | _ => s end in
  48 :: 120 :: map hex_char (rev s).

(** ** The adjustment algorithms *)

(** The [cut_begin], [cut_end] window of the sorted timestamps, for a vector of
    [length] entries of which at most [keep] are used.
    Source: src/src/cryptonote_basic/difficulty.cpp:160-168 (next_difficulty) *)
Definition cut_window (keep length : Z) : Z * Z :=
  if length <=? keep then (0, length)
  else
    let cut_begin := (length -! keep +! 1) / 2 in
    (cut_begin, cut_begin +! keep).

(** Source: src/src/cryptonote_basic/difficulty.cpp:49-49 (MAX_AVERAGE_TIMESPAN) *)
Definition MAX_AVERAGE_TIMESPAN : Z := DIFFICULTY_TARGET *! 6.

(** Source: src/src/cryptonote_basic/difficulty.cpp:50-50 (MIN_AVERAGE_TIMESPAN) *)
Definition MIN_AVERAGE_TIMESPAN : Z := DIFFICULTY_TARGET / 24.

(** Consecutive differences, a zero one counted as one second.
    Source: src/src/cryptonote_basic/difficulty.cpp:219-226 (next_difficulty_v2) *)
Fixpoint time_spans (timestamps : list Z) : list Z :=
  match timestamps with
  | t0 :: ((t1 :: _) as rest) =>
      let time_span := t1 -! t0 in
      let time_span := if time_span =? 0 then 1 else time_span in
      time_span :: time_spans rest
  | _ => []
  end.

(** The weighted sum of the clamped solve times, version 3: [prev] is
    [timestamps[i - 1]] and the list holds [timestamps[i..]].
    Source: src/src/cryptonote_basic/difficulty.cpp:323-333 (next_difficulty_v3) *)
Fixpoint weighted_v3 (target_seconds i prev : Z) (timestamps : list Z) (acc : Z) : Z :=
  match timestamps with
  | [] => acc
  | t :: rest =>
      let timespan := if t <=? prev then 1 else t -! prev in
      let timespan :=
        if 10 *! target_seconds <? timespan then 10 *! target_seconds else timespan in
      weighted_v3 target_seconds (i +! 1) t rest (acc +! (i *! timespan))
  end.

(** The same sum, version 4: solve times are measured against the running
    maximum of the timestamps.
    Source: src/src/cryptonote_basic/difficulty.cpp:299-319 (next_difficulty_v3) *)
Fixpoint weighted_v4 (target_seconds i previous_max : Z) (timestamps : list Z) (acc : Z) : Z :=
  match timestamps with
  | [] => acc
  | t :: rest =>
      let max_timestamp := if previous_max <? t then t else previous_max in
      let timespan := max_timestamp -! previous_max in
      let timespan :=
        if timespan =? 0 then 1
        else if 10 *! target_seconds <? timespan then 10 *! target_seconds
        else timespan in
      weighted_v4 target_seconds (i +! 1) max_timestamp rest (acc +! (i *! timespan))
  end.

(** *** IEEE double arithmetic (round to nearest even) *)

Definition f64_add := SFadd 53 1024.
Definition f64_mul := SFmul 53 1024.
Definition f64_div := SFdiv 53 1024.

(** The conversion of an integer to [double]. *)
Definition f64_of_Z (z : Z) : spec_float := binary_normalize 53 1024 z 0 false.

(** The conversion of a [double] to [uint64_t]: truncation, undefined when the
    truncated value is not representable. *)
Definition u64_of_f64 (x : spec_float) : outcome Z :=
  match x with
  | S754_zero _ => Ok 0
  | S754_finite s m e =>
      let n := if 0 <=? e then Zpos m * 2 ^ e else Zpos m / 2 ^ (- e) in
      if s then (if n =? 0 then Ok 0 else Undef)
      else if n <? 2 ^ 64 then Ok n else Undef
  | _ => Undef
  end.

(** The literal [0.998]. *)
Definition adjust_v6 : spec_float := S754_finite false 8989184856231510 (-53).

Section Boost.
Variable convert_to_u64 : Z -> Z.
Variable boost_round : spec_float -> outcome Z.

(** The difference of two entries of the cumulative difficulty vector. *)
Definition work_between (cds : list Z) (b e : Z) : outcome Z :=
  c_end ← at_or_undef (znth cds e);
  c_begin ← at_or_undef (znth cds b);
  Ok (convert_to_u64 (wrap 128 (c_end - c_begin))).

(** Source: src/src/cryptonote_basic/difficulty.cpp:143-184 (next_difficulty) *)
Definition next_difficulty (timestamps cumulative_difficulties : list Z) (target_seconds : Z)
  : outcome Z :=
  let big := DIFFICULTY_WINDOW <? zlen timestamps in
  let timestamps := if big then zresize DIFFICULTY_WINDOW timestamps else timestamps in
  let cumulative_difficulties :=
    if big then zresize DIFFICULTY_WINDOW cumulative_difficulties
    else cumulative_difficulties in
  let length := zlen timestamps in
  if length <=? 1 then Ok 1 else
  let timestamps := std_sort timestamps in
  let '(cut_begin, cut_end) := cut_window (DIFFICULTY_WINDOW - 2 * DIFFICULTY_CUT) length in
  t_end ← at_or_undef (znth timestamps (cut_end -! 1));
  t_begin ← at_or_undef (znth timestamps cut_begin);
  let time_span := t_end -! t_begin in
  let time_span := if time_span =? 0 then 1 else time_span in
  total_work ← work_between cumulative_difficulties cut_begin (cut_end -! 1);
  let '(low, high) := mul total_work target_seconds in
  if negb (high =? 0) || (low +! time_span -! 1 <? low) then Ok 0
  else Ok ((low +! time_span -! 1) / time_span).

(** Source: src/src/cryptonote_basic/difficulty.cpp:186-258 (next_difficulty_v2) *)
Definition next_difficulty_v2 (timestamps cumulative_difficulties : list Z) (target_seconds : Z)
  : outcome Z :=
  let big := DIFFICULTY_BLOCKS_COUNT_V2 <? zlen timestamps in
  let timestamps :=
    if big then zresize DIFFICULTY_BLOCKS_COUNT_V2 timestamps else timestamps in
  let cumulative_difficulties :=
    if big then zresize DIFFICULTY_BLOCKS_COUNT_V2 cumulative_difficulties
    else cumulative_difficulties in
  let length := zlen timestamps in
  if length <=? 1 then Ok 1 else
  let timestamps := std_sort timestamps in
  let '(cut_begin, cut_end) :=
    cut_window (DIFFICULTY_BLOCKS_COUNT_V2 - 2 * DIFFICULTY_CUT_V2) length in
  t_end ← at_or_undef (znth timestamps (cut_end -! 1));
  t_begin ← at_or_undef (znth timestamps cut_begin);
  let total_timespan := t_end -! t_begin in
  let total_timespan := if total_timespan =? 0 then 1 else total_timespan in
  let timespan_median :=
    if (0 <? cut_begin) && (cut_begin *! 2 +! 3 <=? length)
    then median_of (time_spans (drop (Z.to_nat (length -! cut_begin *! 2 -! 3)) timestamps))
    else 0 in
  let timespan_length := length -! cut_begin *! 2 -! 1 in
  let total_timespan_median :=
    if 0 <? timespan_median then timespan_median *! timespan_length
    else total_timespan *! 7 / 10 in
  let adjusted := (total_timespan *! 8 +! total_timespan_median *! 3) / 10 in
  let adjusted :=
    if MAX_AVERAGE_TIMESPAN *! timespan_length <? adjusted
    then MAX_AVERAGE_TIMESPAN *! timespan_length else adjusted in
  let adjusted :=
    if adjusted <? MIN_AVERAGE_TIMESPAN *! timespan_length
    then MIN_AVERAGE_TIMESPAN *! timespan_length else adjusted in
  total_work ← work_between cumulative_difficulties cut_begin (cut_end -! 1);
  let '(low, high) := mul total_work target_seconds in
  if negb (high =? 0) then Ok 0 else
  if adjusted =? 0 then Undef else
  let next_diff := (low +! adjusted -! 1) / adjusted in
  Ok (if next_diff <? 1 then 1 else next_diff).

(** Source: src/src/cryptonote_basic/difficulty.cpp:281-352 (next_difficulty_v3) *)
Definition next_difficulty_v3 (timestamps cumulative_difficulties : list Z)
  (target_seconds : Z) (v4 : bool) : outcome Z :=
  let big := DIFFICULTY_BLOCKS_COUNT_V3 <? zlen timestamps in
  let timestamps :=
    if big then zresize DIFFICULTY_BLOCKS_COUNT_V3 timestamps else timestamps in
  let cumulative_difficulties :=
    if big then zresize DIFFICULTY_BLOCKS_COUNT_V3 cumulative_difficulties
    else cumulative_difficulties in
  let length := zlen timestamps in
  if length <=? 1 then Ok 1 else
  let t0 := default 0 (head timestamps) in
  let weighted_timespans :=
    if v4 then weighted_v4 target_seconds 1 t0 (tail timestamps) 0
    else weighted_v3 target_seconds 1 t0 (tail timestamps) 0 in
  let target :=
    if v4 then 99 *! ((length +! 1) / 2 *! target_seconds) / 100
    else (length +! 1) / 2 *! target_seconds in
  let minimum_timespan := target_seconds *! length / 2 in
  let weighted_timespans :=
    if weighted_timespans <? minimum_timespan then minimum_timespan
    else weighted_timespans in
  c_back ← at_or_undef (last cumulative_difficulties);
  c_front ← at_or_undef (head cumulative_difficulties);
  let total_work := convert_to_u64 (wrap 128 (c_back - c_front)) in
  let '(low, high) := mul total_work target in
  if negb (high =? 0) then Ok 0 else
  if weighted_timespans =? 0 then Undef else
  Ok (low / weighted_timespans).

(** One iteration of the LWMA loop: the clamped solve time of block [i]; the
    signed subtraction and [T * 10] are undefined when they overflow.
    Source: src/src/cryptonote_basic/difficulty.cpp:411-412 (next_difficulty_v6) *)
Definition solve_time (T FTL t t_prev : Z) : outcome Z :=
  let solveTime := to_signed 64 t - to_signed 64 t_prev in
  if (- 2 ^ 63 <=? solveTime) && (solveTime <? 2 ^ 63)
     && (- 2 ^ 63 <=? T * 10) && (T * 10 <? 2 ^ 63)
  then Ok (Z.min (T * 10) (Z.max solveTime (- FTL)))
  else Undef.

(** The loop over the [N] most recent blocks, in double precision: the pair is
    [LWMA] and [sum_inverse_D].
    Source: src/src/cryptonote_basic/difficulty.cpp:410-416 (next_difficulty_v6) *)
Fixpoint lwma_loop (n : nat) (T FTL : Z) (k : spec_float) (i : Z)
  (timestamps cds : list Z) (LWMA sum_inverse_D : spec_float)
  : outcome (spec_float * spec_float) :=
  match n, timestamps, cds with
  | O, _, _ => Ok (LWMA, sum_inverse_D)
  | S n, t_prev :: ((t :: _) as ts), c_prev :: ((c :: _) as cs) =>
      solveTime ← solve_time T FTL t t_prev;
      let difficulty := convert_to_u64 (wrap 128 (c - c_prev)) in
      let LWMA :=
        f64_add LWMA (f64_div (f64_of_Z (to_signed 64 (u64 solveTime *! i))) k) in
      let sum_inverse_D :=
        f64_add sum_inverse_D (f64_div (f64_of_Z 1) (f64_of_Z difficulty)) in
      lwma_loop n T FTL k (i + 1) ts cs LWMA sum_inverse_D
  | _, _, _ => Undef
  end.

(** Source: src/src/cryptonote_basic/difficulty.cpp:380-430 (next_difficulty_v6) *)
Definition next_difficulty_v6 (timestamps cumulative_difficulties : list Z) (target_seconds : Z)
  : outcome Z :=
  let T := to_signed 64 target_seconds in
  let N := DIFFICULTY_WINDOW_V6 in
  let FTL := CRYPTONOTE_BLOCK_FUTURE_TIME_LIMIT_V6 in
  if zlen timestamps <? 4 then Ok 1 else
  let small := zlen timestamps <? N + 1 in
  let timestamps := if small then timestamps else zresize (N + 1) timestamps in
  let cumulative_difficulties :=
    if small then cumulative_difficulties else zresize (N + 1) cumulative_difficulties in
  let N := if small then zlen timestamps - 1 else N in
  let k := f64_of_Z (N * (N + 1) / 2) in
  '(LWMA, sum_inverse_D) ← lwma_loop (Z.to_nat N) T FTL k 1 timestamps
      cumulative_difficulties (S754_zero false) (S754_zero false);
  let harmonic_mean_D := f64_div (f64_of_Z N) sum_inverse_D in
  rounded ← boost_round LWMA;
  let LWMA := if rounded <? Z.quot T 4 then f64_of_Z (Z.quot T 4) else LWMA in
  let nextDifficulty :=
    f64_mul (f64_div (f64_mul harmonic_mean_D (f64_of_Z T)) LWMA) adjust_v6 in
  u64_of_f64 nextDifficulty.

End Boost.

(** * Properties *)

(** ** Products and carries *)

(** A double-word decomposition is unique. *)
Lemma words_unique lo hi lo' hi' :
  in_u 64 lo -> in_u 64 lo' -> hi * 2 ^ 64 + lo = hi' * 2 ^ 64 + lo' -> lo = lo' /\ hi = hi'.
Proof. unfold in_u. lia. Qed.

Lemma mul_exact a b lo hi :
  in_u 64 a -> in_u 64 b -> mul a b = (lo, hi) ->
  a * b = hi * 2 ^ 64 + lo /\ in_u 64 lo /\ in_u 64 hi.
Proof. apply mul128_exact. Qed.

Lemma mul_portable_exact a b lo hi :
  in_u 64 a -> in_u 64 b -> mul_portable a b = (lo, hi) ->
  a * b = hi * 2 ^ 64 + lo /\ in_u 64 lo.
Proof.
  intros Ha Hb. unfold mul_portable.
  change (Z.land a 0xFFFFFFFF) with (lo_dword a).
  change (Z.land b 0xFFFFFFFF) with (lo_dword b).
  change (Z.shiftr a 32) with (hi_dword a). change (Z.shiftr b 32) with (hi_dword b).
  pose proof (hi_dword_range a Ha) as Hah. pose proof (lo_dword_range a) as Hal.
  pose proof (hi_dword_range b Hb) as Hbh. pose proof (lo_dword_range b) as Hbl.
  pose proof (dword_split a) as Ea. pose proof (dword_split b) as Eb.
  set (ah := hi_dword a) in *. set (al := lo_dword a) in *.
  set (bh := hi_dword b) in *. set (bl := lo_dword b) in *.
  pose proof (mul_dwords_range al bl Hal Hbl). pose proof (mul_dwords_range ah bl Hah Hbl).
  pose proof (mul_dwords_range al bh Hal Hbh). pose proof (mul_dwords_range ah bh Hah Hbh).
  assert (0 <= al * bl /\ 0 <= ah * bl /\ 0 <= al * bh /\ 0 <= ah * bh) by nia.
  assert (Hp : a * b = ah * bh * 2 ^ 64 + (ah * bl + al * bh) * 2 ^ 32 + al * bl)
    by (rewrite Ea, Eb; ring).
  repeat match goal with
  | |- context [Z.land ?x 0xFFFFFFFF] => change (Z.land x 0xFFFFFFFF) with (lo_dword x)
  | |- context [Z.shiftr ?x 32] => change (Z.shiftr x 32) with (hi_dword x)
  end.
  rewrite (u64_small (al * bl)), (u64_small (ah * bl)), (u64_small (al * bh)),
    (u64_small (ah * bh)) by lia.
  destruct (dwords (al * bl)) as (E1 & ? & ?); [unfold in_u; lia |].
  rewrite (u64_small (ah * bl + hi_dword (al * bl))) by lia.
  destruct (dwords (ah * bl + hi_dword (al * bl))) as (E2 & ? & ?); [unfold in_u; lia |].
  destruct (dwords (al * bh)) as (E3 & ? & ?); [unfold in_u; lia |].
  rewrite (u64_small (ah * bh + hi_dword (al * bh))) by lia.
  destruct (dwords (ah * bh + hi_dword (al * bh))) as (E4 & ? & ?); [unfold in_u; lia |].
  remember (lo_dword (ah * bl + hi_dword (al * bl)) + lo_dword (al * bh)) as r1 eqn:Er1.
  rewrite (u64_small r1) by lia.
  destruct (dwords r1) as (E5 & ? & ?); [unfold in_u; lia |].
  remember (hi_dword (ah * bl + hi_dword (al * bl))
             + lo_dword (ah * bh + hi_dword (al * bh))) as r2 eqn:Er2.
  rewrite (u64_small r2) by lia. rewrite (u64_small (r2 + hi_dword r1)) by lia.
  destruct (dwords (r2 + hi_dword r1)) as (E6 & ? & ?); [unfold in_u; lia |].
  remember (hi_dword (ah * bh + hi_dword (al * bh)) + hi_dword (r2 + hi_dword r1)) as r3 eqn:Er3.
  rewrite (u64_small r3) by lia.
  destruct (dwords r3) as (E7 & ? & ?); [unfold in_u; lia |].
  rewrite !shl32_wrap by word_lia. rewrite <- !Z.shiftl_mul_pow2 by lia.
  rewrite (Z.lor_comm (lo_dword (r2 + hi_dword r1))), !lor_shiftl_add by lia.
  intros E. injection E as <- <-. unfold in_u in *.
  rewrite ?Z.shiftl_mul_pow2 by lia.
  assert (a * b <= (2 ^ 64 - 1) * (2 ^ 64 - 1)) by (apply Z.mul_le_mono_nonneg; lia).
  lia.
Qed.

Lemma cadd_carry a b : in_u 64 a -> in_u 64 b -> cadd a b = (2 ^ 64 <=? a + b).
Proof.
  intros Ha Hb. unfold cadd. pose proof (add_carry a b Ha Hb) as H.
  pose proof (u64_range (a + b)). unfold in_u in *. split_cmp; lia.
Qed.

Lemma cadc_carry a b c : in_u 64 a -> in_u 64 b ->
  cadc a b c = (2 ^ 64 <=? a + b + Z.b2z c).
Proof.
  intros Ha Hb. unfold cadc, UINT64_MAX. pose proof (add_carry a b Ha Hb) as H.
  pose proof (u64_range (a + b)). unfold in_u in *.
  destruct c; cbn [andb Z.b2z]; split_cmp; cbn [orb]; lia.
Qed.

(** A 32-byte hash is its four little-endian words. *)
Lemma hash_words hash :
  bytes hash -> length hash = 32%nat ->
  le_bytes hash = hash_word hash 0 + 2 ^ 64 * (hash_word hash 1 + 2 ^ 64 *
                    (hash_word hash 2 + 2 ^ 64 * hash_word hash 3)) /\
  forall i, (i < 4)%nat -> in_u 64 (hash_word hash i).
Proof.
  intros Hb Hl. split.
  - unfold hash_word. do 33 (destruct hash as [| ? hash]; try discriminate Hl).
    cbn [le_bytes take drop Nat.mul Nat.add]. lia.
  - intros i Hi. unfold hash_word, in_u.
    assert (Hlen : length (take 8 (drop (8 * i) hash)) = 8%nat)
      by (rewrite length_take, length_drop; lia).
    pose proof (le_bytes_range (take 8 (drop (8 * i) hash))) as Hr.
    unfold zlen in Hr. rewrite Hlen in Hr. apply Hr.
    unfold bytes in *. by apply Forall_take, Forall_drop.
Qed.

(** The carry chain of the target test over the word products. *)
Lemma check_hash_words h0 h1 h2 h3 d :
  in_u 64 h0 -> in_u 64 h1 -> in_u 64 h2 -> in_u 64 h3 -> in_u 64 d ->
  (let '(top, high) := mul h3 d in
   if negb (high =? 0) then false else
   let '(_, cur) := mul h0 d in
   let '(low, high) := mul h1 d in
   let carry := cadd cur low in
   let cur := high in
   let '(low, high) := mul h2 d in
   let carry := cadc cur low carry in
   let carry := cadc high top carry in
   negb carry)
  = ((h0 + 2 ^ 64 * (h1 + 2 ^ 64 * (h2 + 2 ^ 64 * h3))) * d <? 2 ^ 256).
Proof.
  intros H0 H1 H2 H3 Hd.
  destruct (mul h3 d) as [top high3] eqn:E3. apply mul_exact in E3 as (E3 & ? & ?); [| done..].
  destruct (mul h0 d) as [low0 cur] eqn:E0. apply mul_exact in E0 as (E0 & ? & ?); [| done..].
  destruct (mul h1 d) as [low1 high1] eqn:E1. apply mul_exact in E1 as (E1 & ? & ?); [| done..].
  destruct (mul h2 d) as [low2 high2] eqn:E2. apply mul_exact in E2 as (E2 & ? & ?); [| done..].
  assert (Hsum : (h0 + 2 ^ 64 * (h1 + 2 ^ 64 * (h2 + 2 ^ 64 * h3))) * d
    = h0 * d + 2 ^ 64 * (h1 * d) + 2 ^ 128 * (h2 * d) + 2 ^ 192 * (h3 * d)) by ring.
  rewrite Hsum, E0, E1, E2, E3. clear Hsum E0 E1 E2 E3.
  cbv zeta. rewrite cadd_carry, !cadc_carry by done.
  unfold in_u in *.
  destruct (Z.eqb_spec high3 0) as [-> |]; cbn [negb].
  - destruct (Z.leb_spec (2 ^ 64) (cur + low1)); cbn [Z.b2z];
    match goal with |- context [Z.b2z (?x <=? ?y)] => destruct (Z.leb_spec x y) end; cbn [Z.b2z];
    match goal with |- negb (?x <=? ?y) = _ => destruct (Z.leb_spec x y) end; cbn [negb];
    symmetry; first [apply Z.ltb_lt; lia | apply Z.ltb_ge; lia].
  - symmetry. apply Z.ltb_ge. lia.
Qed.

(** C25: the proof-of-work test accepts a hash exactly when the hash, read as a
    256-bit little-endian integer, times the difficulty is below 2^256. *)
Theorem check_hash_exact hash d :
  bytes hash -> length hash = 32%nat -> in_u 64 d ->
  check_hash hash d = (le_bytes hash * d <? 2 ^ 256).
Proof.
  intros Hb Hl Hd. destruct (hash_words hash Hb Hl) as [Heq Hw].
  rewrite Heq. rewrite <- check_hash_words by (first [done | apply Hw; lia]). done.
Qed.

(** ** Windows *)

(** The two assertions of the source on the window, and its size: what is cut
    off at both ends leaves exactly [keep] samples. *)
Lemma cut_window_bounds keep length b e :
  2 <= keep < 2 ^ 32 -> 2 <= length < 2 ^ 32 -> cut_window keep length = (b, e) ->
  0 <= b /\ b + 2 <= e /\ e <= length /\ e - b = Z.min length keep.
Proof.
  intros Hk Hl. unfold cut_window. destruct (Z.leb_spec length keep).
  - intros E. injection E as <- <-. lia.
  - rewrite (u64_small (length - keep)), (u64_small (length - keep + 1)) by lia.
    assert (0 <= (length - keep + 1) / 2 <= length - keep) by
      (split; [apply Z.div_pos; lia | apply Z.div_le_upper_bound; lia]).
    rewrite u64_small by lia. intros E. injection E as <- <-. lia.
Qed.

Lemma zresize_take n l : n <= zlen l -> 0 <= n -> zresize n l = take (Z.to_nat n) l.
Proof. unfold zresize, zlen. intros. apply resize_le. lia. Qed.

(** Truncating to the window length only when the vector is longer is taking a
    prefix. *)
Lemma window_take n (l k : list Z) : 0 <= n -> length k = length l ->
  (if n <? zlen k then zresize n l else l) = take (Z.to_nat n) l.
Proof.
  intros ? Hlen. assert (zlen k = zlen l) as -> by (unfold zlen; by rewrite Hlen).
  destruct (Z.ltb_spec n (zlen l)).
  - apply zresize_take; lia.
  - rewrite take_ge; [done |]. unfold zlen in *. lia.
Qed.

Lemma zlen_take n (l : list Z) : 0 <= n -> zlen (take (Z.to_nat n) l) = Z.min n (zlen l).
Proof. intros. unfold zlen. rewrite length_take. lia. Qed.

Lemma znth_total {A} (l : list A) i : 0 <= i < zlen l -> exists x, znth l i = Some x.
Proof. apply znth_is_Some. Qed.

(** Sorted timestamps: a later sample is no earlier. *)
Lemma znth_sorted_le l i j x y : i <= j ->
  znth (std_sort l) i = Some x -> znth (std_sort l) j = Some y -> x <= y.
Proof.
  intros Hij Hi Hj. pose proof (znth_Some _ _ _ Hi). pose proof (znth_Some _ _ _ Hj).
  unfold znth in *. destruct (Z.ltb_spec i 0); [lia |]. destruct (Z.ltb_spec j 0); [lia |].
  eapply (sorted_lookup_le (std_sort l) (Z.to_nat i) (Z.to_nat j));
    eauto using std_sort_sorted; lia.
Qed.

Lemma znth_sort_in_u w l i x : Forall (in_u w) l -> znth (std_sort l) i = Some x -> in_u w x.
Proof.
  intros Hall Hx. unfold znth in Hx. destruct (i <? 0); [done |].
  rewrite <- std_sort_perm in Hall. by eapply Forall_lookup_1.
Qed.

Lemma zlen_sort l : zlen (std_sort l) = zlen l.
Proof. unfold zlen. by rewrite std_sort_length. Qed.

(** ** Version 1 *)

Section Version1.
Variable convert_to_u64 : Z -> Z.
Hypothesis convert_to_u64_small : forall x, in_u 64 x -> convert_to_u64 x = x.

(** The ceiling division by the time span, with the overflow test of the
    source. *)
Lemma ceil_div_overflow work target span :
  in_u 64 work -> in_u 64 target -> 1 <= span < 2 ^ 64 ->
  (let '(low, high) := mul work target in
   if negb (high =? 0) || (low +! span -! 1 <? low) then Ok 0
   else Ok ((low +! span -! 1) / span))
  = Ok (if work * target + span - 1 <? 2 ^ 64 then (work * target + span - 1) / span else 0).
Proof.
  intros Hw Ht Hs. destruct (mul work target) as [low high] eqn:E.
  apply mul_exact in E as (E & Hlo & Hhi); [| done..]. unfold in_u in *.
  destruct (Z.eqb_spec high 0) as [-> |]; cbn [negb orb].
  - rewrite Z.mul_0_l, Z.add_0_l in E. rewrite E. unfold wrap.
    rewrite Zminus_mod_idemp_l.
    destruct (Z.ltb_spec (low + span - 1) (2 ^ 64)).
    + rewrite Z.mod_small by lia. by destruct (Z.ltb_spec (low + span - 1) low); [lia |].
    + assert ((low + span - 1) mod 2 ^ 64 = low + span - 1 - 2 ^ 64) as ->.
      { symmetry. apply Z.mod_unique with 1; lia. }
      by destruct (Z.ltb_spec (low + span - 1 - 2 ^ 64) low); [| lia].
  - destruct (Z.ltb_spec (work * target + span - 1) (2 ^ 64)); [lia | done].
Qed.

Lemma work_between_exact cds b e cb ce :
  znth cds b = Some cb -> znth cds e = Some ce -> in_u 64 (ce - cb) ->
  work_between convert_to_u64 cds b e = Ok (ce - cb).
Proof.
  intros Hb He Hd. unfold work_between. rewrite Hb, He. cbn.
  rewrite wrap_small, convert_to_u64_small; [done | done |]. unfold in_u in *. lia.
Qed.

(** On at least two blocks the first algorithm sorts at most the first 720
    timestamps, cuts the window to at most 600 of them, and returns the ceiling
    of work times target over the time span of the window (at least one
    second), or 0 when the numerator does not fit in 64 bits. *)
Theorem next_difficulty_exact timestamps cds target :
  let ts := take 720 timestamps in
  let cs := take 720 cds in
  length timestamps = length cds -> (2 <= length timestamps)%nat ->
  Forall (in_u 64) timestamps -> in_u 64 target ->
  exists b e tb te cb ce,
    cut_window 600 (zlen ts) = (b, e) /\
    0 <= b /\ b + 2 <= e <= zlen ts /\ e - b = Z.min (zlen ts) 600 /\
    znth (std_sort ts) b = Some tb /\ znth (std_sort ts) (e - 1) = Some te /\
    znth cs b = Some cb /\ znth cs (e - 1) = Some ce /\
    (in_u 64 (ce - cb) ->
     next_difficulty convert_to_u64 timestamps cds target =
       let span := Z.max 1 (te - tb) in
       let n := (ce - cb) * target + span - 1 in
       Ok (if n <? 2 ^ 64 then n / span else 0)).
Proof.
  intros ts cs Hlen Hlen2 Hall Ht.
  assert (Hzl : zlen ts = Z.min 720 (zlen timestamps)) by (apply (zlen_take 720); lia).
  assert (Hzc : zlen cs = zlen ts).
  { unfold cs, ts. change 720%nat with (Z.to_nat 720). rewrite !zlen_take by lia.
    unfold zlen. by rewrite Hlen. }
  assert (2 <= zlen ts <= 720) by (unfold zlen in *; lia).
  destruct (cut_window 600 (zlen ts)) as [b e] eqn:Hcut.
  pose proof (cut_window_bounds 600 (zlen ts) b e ltac:(lia) ltac:(lia) Hcut) as (? & ? & ? & ?).
  destruct (znth_total (std_sort ts) b) as [tb Htb]; [rewrite zlen_sort; lia |].
  destruct (znth_total (std_sort ts) (e - 1)) as [te Hte]; [rewrite zlen_sort; lia |].
  destruct (znth_total cs b) as [cb Hcb]; [lia |].
  destruct (znth_total cs (e - 1)) as [ce Hce]; [lia |].
  exists b, e, tb, te, cb, ce. split_and!; try done. intros Hw.
  unfold next_difficulty. unfold DIFFICULTY_WINDOW, DIFFICULTY_CUT.
  change (720 - 2 * 60) with 600.
  cbv zeta. rewrite !window_take by (done || lia). change (Z.to_nat 720) with 720%nat.
  fold ts cs. destruct (Z.leb_spec (zlen ts) 1); [lia |].
  rewrite Hcut. rewrite (u64_small (e - 1)) by lia. rewrite Htb, Hte. cbn.
  rewrite (work_between_exact cs b (e - 1) cb ce) by done. cbn.
  assert (tb <= te) by (eapply (znth_sorted_le ts b (e - 1)); eauto; lia).
  assert (Hts : Forall (in_u 64) ts) by (by apply Forall_take).
  pose proof (znth_sort_in_u 64 ts b tb Hts Htb) as Hub.
  pose proof (znth_sort_in_u 64 ts (e - 1) te Hts Hte) as Hue. unfold in_u in Hub, Hue.
  rewrite (u64_small (te - tb)) by lia.
  assert ((if te - tb =? 0 then 1 else te - tb) = Z.max 1 (te - tb)) as ->
    by (destruct (Z.eqb_spec (te - tb) 0); lia).
  apply ceil_div_overflow; [done | done | lia].
Qed.
End Version1.

(** ** Versions 3 and 4 *)

(** The sum of the weights [i, i + 1, ...] of [l]'s entries. *)
Fixpoint weights (i : Z) (l : list Z) : Z :=
  match l with [] => 0 | _ :: l => i + weights (i + 1) l end.

Lemma weights_closed i l : 2 * weights i l = zlen l * (2 * i + zlen l - 1).
Proof.
  revert i. unfold zlen. induction l as [| x l IH]; intros i; cbn [weights length]; [lia |].
  specialize (IH (i + 1)). rewrite Nat2Z.inj_succ. nia.
Qed.

Lemma weights_nonneg i l : 0 <= i -> 0 <= weights i l.
Proof. intros. pose proof (weights_closed i l). unfold zlen in *. nia. Qed.

(** One step of either accumulation: a solve time in [1 .. 10 T] keeps the sum
    exact and between the weight sums. *)
Lemma weighted_step T i span acc bound :
  1 <= T -> 1 <= i -> 1 <= span <= 10 * T -> 0 <= acc -> 0 <= bound ->
  acc + 10 * T * (i + bound) < 2 ^ 64 ->
  i *! span = i * span /\ acc +! (i *! span) = acc + i * span /\ i <= i * span <= 10 * T * i.
Proof.
  intros. assert (i <= i * span <= 10 * T * i) by nia.
  assert (0 <= 10 * T * bound) by nia.
  rewrite (u64_small (i * span)) by lia. rewrite u64_small by lia. lia.
Qed.

Lemma weighted_v3_bounds T i prev l acc :
  1 <= T < 2 ^ 32 -> 1 <= i -> i + zlen l < 2 ^ 32 -> 0 <= acc ->
  Forall (in_u 64) l -> in_u 64 prev -> acc + 10 * T * weights i l < 2 ^ 64 ->
  acc + weights i l <= weighted_v3 T i prev l acc <= acc + 10 * T * weights i l.
Proof.
  intros HT. revert i prev acc.
  induction l as [| t l IH]; intros i prev acc Hi Hil Hacc Hall Hp Hb; cbn [weights weighted_v3].
  { lia. }
  inversion_clear Hall as [| ? ? Ht Hl]. cbn [weights] in Hb.
  unfold zlen in *. cbn [length] in Hil. rewrite Nat2Z.inj_succ in Hil.
  pose proof (weights_nonneg (i + 1) l ltac:(lia)).
  rewrite (u64_small (10 * T)) by lia. cbv zeta.
  set (s := if _ <? _ then _ else _).
  assert (Hs : 1 <= s <= 10 * T).
  { subst s. unfold in_u in *. destruct (Z.leb_spec t prev).
    - destruct (Z.ltb_spec (10 * T) 1); lia.
    - rewrite (u64_small (t - prev)) by lia. destruct (Z.ltb_spec (10 * T) (t - prev)); lia. }
  destruct (weighted_step T i s acc (weights (i + 1) l)) as (-> & E & Hw); try lia.
  rewrite (u64_small (i + 1)) by lia. rewrite u64_small by lia.
  specialize (IH (i + 1) t (acc + i * s) ltac:(lia) ltac:(lia) ltac:(lia) Hl Ht ltac:(lia)). lia.
Qed.

Lemma weighted_v4_bounds T i prev l acc :
  1 <= T < 2 ^ 32 -> 1 <= i -> i + zlen l < 2 ^ 32 -> 0 <= acc ->
  Forall (in_u 64) l -> in_u 64 prev -> acc + 10 * T * weights i l < 2 ^ 64 ->
  acc + weights i l <= weighted_v4 T i prev l acc <= acc + 10 * T * weights i l.
Proof.
  intros HT. revert i prev acc.
  induction l as [| t l IH]; intros i prev acc Hi Hil Hacc Hall Hp Hb; cbn [weights weighted_v4].
  { lia. }
  inversion_clear Hall as [| ? ? Ht Hl]. cbn [weights] in Hb.
  unfold zlen in *. cbn [length] in Hil. rewrite Nat2Z.inj_succ in Hil.
  pose proof (weights_nonneg (i + 1) l ltac:(lia)).
  rewrite (u64_small (10 * T)) by lia. cbv zeta.
  set (m := if prev <? t then t else prev).
  assert (Hm : in_u 64 m /\ prev <= m) by
    (subst m; unfold in_u in *; destruct (Z.ltb_spec prev t); lia).
  destruct Hm as [Hmu Hpm]. assert (m -! prev = m - prev) as -> by
    (apply u64_small; unfold in_u in *; lia).
  set (s := if _ =? 0 then _ else _).
  assert (Hs : 1 <= s <= 10 * T).
  { subst s. destruct (Z.eqb_spec (m - prev) 0); [lia |].
    destruct (Z.ltb_spec (10 * T) (m - prev)); lia. }
  destruct (weighted_step T i s acc (weights (i + 1) l)) as (-> & E & Hw); try lia.
  rewrite (u64_small (i + 1)) by lia. rewrite u64_small by lia.
  specialize (IH (i + 1) m (acc + i * s) ltac:(lia) ltac:(lia) ltac:(lia) Hl Hmu ltac:(lia)). lia.
Qed.

(** Both accumulations over a whole window of [n] samples. *)
Lemma weighted_window T t0 ts (v4 : bool) n :
  1 <= T < 2 ^ 32 -> Forall (in_u 64) (t0 :: ts) -> zlen ts = n - 1 -> 2 <= n <= 60 ->
  let w := if v4 then weighted_v4 T 1 t0 ts 0 else weighted_v3 T 1 t0 ts 0 in
  n * (n - 1) / 2 <= w <= 10 * T * (n * (n - 1) / 2).
Proof.
  intros HT Hall Hz Hn w. inversion_clear Hall as [| ? ? Ht0 Hts].
  pose proof (weights_closed 1 ts) as Hwt. rewrite Hz in Hwt.
  assert (Hws : weights 1 ts = n * (n - 1) / 2) by (apply Z.div_unique with 0; lia).
  assert (Hwr : 1 <= weights 1 ts <= 1770) by nia.
  rewrite <- Hws. subst w.
  pose proof (weighted_v3_bounds T 1 t0 ts 0) as H3.
  pose proof (weighted_v4_bounds T 1 t0 ts 0) as H4. rewrite !Z.add_0_l in H3, H4.
  destruct v4; [apply H4 | apply H3]; try done; nia.
Qed.

(** The scaled quotient with the overflow test of the source. *)
Lemma div_overflow work target W :
  in_u 64 work -> in_u 64 target -> 0 < W ->
  (let '(low, high) := mul work target in
   if negb (high =? 0) then Ok 0 else if W =? 0 then Undef else Ok (low / W))
  = Ok (if work * target <? 2 ^ 64 then work * target / W else 0).
Proof.
  intros Hw Ht HW. destruct (mul work target) as [low high] eqn:E.
  apply mul_exact in E as (E & Hlo & Hhi); [| done..]. rewrite E. unfold in_u in Hlo, Hhi.
  destruct (Z.eqb_spec high 0) as [-> |]; cbn [negb].
  - destruct (Z.eqb_spec W 0); [lia |].
    destruct (Z.ltb_spec (0 * 2 ^ 64 + low) (2 ^ 64)); [done | lia].
  - destruct (Z.ltb_spec (high * 2 ^ 64 + low) (2 ^ 64)); [lia | done].
Qed.

Lemma half_triangle n : 2 <= n <= 60 -> n <= 2 * (n * (n - 1) / 2).
Proof.
  intros Hn. pose proof (Z.div_mod (n * (n - 1)) 2 ltac:(lia)).
  pose proof (Z.mod_pos_bound (n * (n - 1)) 2 ltac:(lia)).
  assert (n = 2 \/ 3 <= n) as [-> |] by lia; [done | nia].
Qed.

(** The target of the weighted average for a window of [n] samples. *)
Definition target_v3 (n T : Z) (v4 : bool) : Z :=
  if v4 then 99 * ((n + 1) / 2 * T) / 100 else (n + 1) / 2 * T.

Lemma target_v3_word n T (v4 : bool) : 2 <= n <= 60 -> 1 <= T < 2 ^ 32 ->
  (if v4 then 99 *! ((n +! 1) / 2 *! T) / 100 else (n +! 1) / 2 *! T) = target_v3 n T v4 /\
  in_u 64 (target_v3 n T v4).
Proof.
  intros Hn HT.
  assert (Hhalf : 0 <= (n + 1) / 2 < 31) by
    (split; [apply Z.div_pos; lia | apply Z.div_lt_upper_bound; lia]).
  assert (Hm : 0 <= (n + 1) / 2 * T <= 30 * 2 ^ 32)
    by (split; [apply Z.mul_nonneg_nonneg | apply Z.mul_le_mono_nonneg]; lia).
  unfold target_v3. rewrite (u64_small (n + 1)) by lia.
  rewrite (u64_small ((n + 1) / 2 * T)), (u64_small (99 * _)) by lia.
  split; [done |]. unfold in_u. destruct v4; [| lia].
  split; [apply Z.div_pos; lia | apply Z.div_lt_upper_bound; lia].
Qed.

Section Version3.
Variable convert_to_u64 : Z -> Z.
Hypothesis convert_to_u64_small : forall x, in_u 64 x -> convert_to_u64 x = x.

(** Whatever the timestamps, the weighted solve time lies between half a
    target interval per block and ten target intervals per unit of weight; the
    next difficulty is the scaled work divided by it, so the division is defined
    and a miner's timestamps move the difficulty only within these bounds. *)
Theorem next_difficulty_v3_exact timestamps cds T v4 cf cb :
  let n := Z.min 60 (zlen timestamps) in
  length timestamps = length cds -> (2 <= length timestamps)%nat ->
  Forall (in_u 64) timestamps -> 1 <= T < 2 ^ 32 ->
  head (take 60 cds) = Some cf -> last (take 60 cds) = Some cb -> in_u 64 (cb - cf) ->
  exists W,
    Z.max (T * n / 2) (n * (n - 1) / 2) <= W <= 10 * T * (n * (n - 1) / 2) /\
    next_difficulty_v3 convert_to_u64 timestamps cds T v4 =
      let work := (cb - cf) * target_v3 n T v4 in
      Ok (if work <? 2 ^ 64 then work / W else 0).
Proof.
  intros n Hlen Hlen2 Hall HT Hf Hb Hw. unfold next_difficulty_v3.
  unfold DIFFICULTY_BLOCKS_COUNT_V3, DIFFICULTY_WINDOW_V3. cbv zeta.
  rewrite !window_take by (done || lia). pose proof (zlen_take 60 timestamps ltac:(lia)) as Hzl.
  rewrite Hzl. change (Z.to_nat 60) with 60%nat in *. fold n in Hzl |- *.
  assert (Hn : 2 <= n <= 60) by (subst n; unfold zlen; lia).
  destruct (Z.leb_spec n 1); [lia |].
  assert (Hts : Forall (in_u 64) (take 60 timestamps)) by (by apply Forall_take).
  destruct (take 60 timestamps) as [| t0 ts] eqn:Etake.
  { unfold zlen in Hzl. cbn [length] in Hzl. lia. }
  assert (Hzts : zlen ts = n - 1) by (unfold zlen in *; cbn [length] in Hzl; lia).
  cbn [head tail default from_option id].
  pose proof (weighted_window T t0 ts v4 n HT Hts Hzts Hn) as Hbound. cbv zeta in Hbound.
  set (w := if v4 then weighted_v4 T 1 t0 ts 0 else weighted_v3 T 1 t0 ts 0) in *. clearbody w.
  assert (Htn : 2 * T <= T * n <= 2 ^ 32 * 60)
    by (split; [rewrite Z.mul_comm; apply Z.mul_le_mono_nonneg_l
               | apply Z.mul_le_mono_nonneg]; lia).
  rewrite (u64_small (T * n)) by lia.
  assert (1 <= T * n / 2) by (apply Z.div_le_lower_bound; lia).
  assert (Hk : n <= 2 * (n * (n - 1) / 2)) by (by apply half_triangle).
  assert (T * n / 2 <= 10 * T * (n * (n - 1) / 2)).
  { apply Z.div_le_upper_bound; [lia |]. set (k := n * (n - 1) / 2) in *. clearbody k n. nia. }
  exists (if w <? T * n / 2 then T * n / 2 else w).
  set (W := if w <? _ then _ else _).
  assert (HW : Z.max (T * n / 2) (n * (n - 1) / 2) <= W <= 10 * T * (n * (n - 1) / 2))
    by (subst W; destruct (Z.ltb_spec w (T * n / 2)); lia).
  split; [done |]. rewrite Hf, Hb. cbn.
  rewrite (wrap_small 128) by (unfold in_u in *; lia). rewrite convert_to_u64_small by done.
  destruct (target_v3_word n T v4 Hn HT) as [-> Htr]. apply div_overflow; [done | done | lia].
Qed.
End Version3.

(** ** Version 2 *)

Lemma clamp_between x lo hi : lo <= hi ->
  lo <= (let y := if hi <? x then hi else x in if y <? lo then lo else y) <= hi.
Proof. intros. cbv zeta. destruct (Z.ltb_spec hi x); split_cmp; lia. Qed.

(** The number of time spans the average is taken over. *)
Lemma timespan_length_range length b e :
  2 <= length <= 29 -> cut_window 17 length = (b, e) ->
  length -! b *! 2 -! 1 = length - 2 * b - 1 /\ 1 <= length - 2 * b - 1 <= 16.
Proof.
  intros Hl. unfold cut_window. destruct (Z.leb_spec length 17).
  - intros E. injection E as <- <-.
    rewrite (u64_small (0 * 2)), (u64_small (length - 0 * 2)), u64_small by lia. lia.
  - rewrite (u64_small (length - 17)), (u64_small (length - 17 + 1)) by lia.
    set (b' := (length - 17 + 1) / 2).
    assert (length - 17 <= 2 * b' <= length - 16).
    { subst b'. pose proof (Z.div_mod (length - 17 + 1) 2 ltac:(lia)).
      pose proof (Z.mod_pos_bound (length - 17 + 1) 2 ltac:(lia)). lia. }
    intros E. injection E as <- _.
    rewrite (u64_small (b' * 2)), (u64_small (length - b' * 2)), u64_small by lia. lia.
Qed.

#[local] Arguments mul : simpl never.
#[local] Arguments work_between : simpl never.

Section Version2.
Variable convert_to_u64 : Z -> Z.
Hypothesis convert_to_u64_small : forall x, in_u 64 x -> convert_to_u64 x = x.

Lemma clamped_quotient work target A :
  in_u 64 work -> in_u 64 target -> 0 < A < 2 ^ 64 ->
  (let '(low, high) := mul work target in
   if negb (high =? 0) then Ok 0 else
   if A =? 0 then Undef else
   let next_diff := (low +! A -! 1) / A in
   Ok (if next_diff <? 1 then 1 else next_diff))
  = Ok (if work * target <? 2 ^ 64
        then Z.max 1 ((work * target + A - 1) mod 2 ^ 64 / A) else 0).
Proof.
  intros Hw Ht HA. destruct (mul work target) as [low high] eqn:E.
  apply mul_exact in E as (E & Hlo & Hhi); [| done..]. rewrite E. unfold in_u in Hlo, Hhi.
  destruct (Z.eqb_spec high 0) as [-> |]; cbn [negb].
  - destruct (Z.eqb_spec A 0); [lia |].
    destruct (Z.ltb_spec (0 * 2 ^ 64 + low) (2 ^ 64)); [| lia].
    rewrite Z.mul_0_l, Z.add_0_l. unfold wrap. rewrite Zminus_mod_idemp_l.
    set (q := _ / A). destruct (Z.ltb_spec q 1); f_equal; lia.
  - destruct (Z.ltb_spec (high * 2 ^ 64 + low) (2 ^ 64)); [lia | done].
Qed.

(** Whatever the timestamps, the time the second algorithm divides the work
    by is between 2 and 360 seconds per time span of the window, of which there
    are between 1 and 16; the result is 0 when the product overflows and at
    least 1 otherwise (the rounding term wraps at 64 bits). *)
Theorem next_difficulty_v2_exact timestamps cds target :
  let ts := take 29 timestamps in
  length timestamps = length cds -> (2 <= length timestamps)%nat -> in_u 64 target ->
  exists b e cb ce A,
    cut_window 17 (zlen ts) = (b, e) /\
    znth (take 29 cds) b = Some cb /\ znth (take 29 cds) (e - 1) = Some ce /\
    2 * (zlen ts - 2 * b - 1) <= A <= 360 * (zlen ts - 2 * b - 1) /\
    1 <= zlen ts - 2 * b - 1 <= 16 /\
    (in_u 64 (ce - cb) ->
     next_difficulty_v2 convert_to_u64 timestamps cds target =
       let n := (ce - cb) * target in
       Ok (if n <? 2 ^ 64 then Z.max 1 ((n + A - 1) mod 2 ^ 64 / A) else 0)).
Proof.
  intros ts Hlen Hlen2 Ht. pose proof (zlen_take 29 timestamps ltac:(lia)) as Hzl.
  pose proof (zlen_take 29 cds ltac:(lia)) as Hzc. change (Z.to_nat 29) with 29%nat in *.
  fold ts in Hzl. assert (Hcl : zlen cds = zlen timestamps) by (unfold zlen; by rewrite Hlen).
  assert (2 <= zlen ts <= 29) by (unfold zlen in *; lia).
  destruct (cut_window 17 (zlen ts)) as [b e] eqn:Hcut.
  pose proof (cut_window_bounds 17 (zlen ts) b e ltac:(lia) ltac:(lia) Hcut) as (? & ? & ? & ?).
  destruct (timespan_length_range (zlen ts) b e ltac:(lia) Hcut) as [Htl Hr].
  destruct (znth_total (take 29 cds) b) as [cb Hcb]; [lia |].
  destruct (znth_total (take 29 cds) (e - 1)) as [ce Hce]; [lia |].
  destruct (znth_total (std_sort ts) b) as [tb Htb]; [rewrite zlen_sort; lia |].
  destruct (znth_total (std_sort ts) (e - 1)) as [te Hte]; [rewrite zlen_sort; lia |].
  unfold next_difficulty_v2. unfold DIFFICULTY_BLOCKS_COUNT_V2, DIFFICULTY_CUT_V2,
    DIFFICULTY_WINDOW_V2. change (17 + 6 * 2) with 29. change (29 - 2 * 6) with 17.
  cbv zeta. rewrite !window_take by (done || lia). change (Z.to_nat 29) with 29%nat. fold ts.
  destruct (Z.leb_spec (zlen ts) 1); [lia |]. rewrite Hcut.
  rewrite (u64_small (e - 1)) by lia. rewrite Htb, Hte. cbn.
  rewrite !Htl. remember (zlen ts - 2 * b - 1) as tl eqn:Etl.
  change MAX_AVERAGE_TIMESPAN with 360. change MIN_AVERAGE_TIMESPAN with 2.
  rewrite (u64_small (360 * tl)), (u64_small (2 * tl)) by lia.
  match goal with
  | |- context [if 360 * tl <? ?x then _ else _] =>
      pose proof (clamp_between x (2 * tl) (360 * tl) ltac:(lia)) as HA; cbv zeta in HA;
      remember x as raw eqn:Eraw; clear Eraw
  end.
  set (A := if (if 360 * tl <? raw then _ else _) <? _ then _ else _) in *.
  exists b, e, cb, ce, A. split_and!; [done.. | lia | lia | lia | lia |]. intros Hw.
  rewrite (work_between_exact convert_to_u64 convert_to_u64_small (take 29 cds) b (e - 1) cb ce)
    by done.
  apply clamped_quotient; [done | done | lia].
Qed.
End Version2.

(** ** Version 6 *)

(** The solve times the loop reads. *)
Fixpoint solve_times (T FTL : Z) (ts : list Z) : list (outcome Z) :=
  match ts with
  | t0 :: ((t1 :: _) as rest) => solve_time T FTL t1 t0 :: solve_times T FTL rest
  | _ => []
  end.

Lemma solve_time_range T FTL t t' s :
  0 <= T -> 0 <= FTL -> solve_time T FTL t t' = Ok s -> - FTL <= s <= T * 10.
Proof. intros HT HF. unfold solve_time. case_match; intros E; [injection E as <-; lia | done]. Qed.

Lemma solve_times_range T FTL ts :
  0 <= FTL ->
  Forall (fun o => forall s, o = Ok s -> - FTL <= s <= T * 10 \/ T < 0) (solve_times T FTL ts).
Proof.
  intros HF. induction ts as [| t0 [| t1 ts] IH]; [constructor.. |].
  cbn [solve_times]. constructor; [| exact IH]. intros s Hs.
  destruct (decide (T < 0)); [by right | left]. eapply solve_time_range; eauto; lia.
Qed.

Section Version6.
Variable convert_to_u64 : Z -> Z.
Variable boost_round : spec_float -> outcome Z.

Lemma lwma_loop_ext n T FTL k i ts ts' cds a d :
  length ts = length ts' -> solve_times T FTL ts = solve_times T FTL ts' ->
  lwma_loop convert_to_u64 n T FTL k i ts cds a d =
  lwma_loop convert_to_u64 n T FTL k i ts' cds a d.
Proof.
  revert i ts ts' cds a d.
  induction n as [| n IH]; intros i [| t0 ts] [| t0' ts'] cds a d Hl Hs; try done.
  destruct ts as [| t1 ts], ts' as [| t1' ts'], cds as [| c0 [| c1 cds]]; try done.
  cbn [solve_times] in Hs. injection Hs as Hs Hrest.
  cbn [lwma_loop]. rewrite Hs. destruct (solve_time T FTL t1' t0'); try done.
  cbn. apply IH; [cbn in *; lia | done].
Qed.

(** The LWMA difficulty depends on the timestamps only through the solve
    times of the first 60 intervals, each clamped to at least minus the future
    time limit and at most ten targets. *)
Theorem next_difficulty_v6_ext ts ts' cds target :
  let T := to_signed 64 target in
  length ts = length ts' ->
  solve_times T CRYPTONOTE_BLOCK_FUTURE_TIME_LIMIT_V6 (take 61 ts) =
  solve_times T CRYPTONOTE_BLOCK_FUTURE_TIME_LIMIT_V6 (take 61 ts') ->
  next_difficulty_v6 convert_to_u64 boost_round ts cds target =
  next_difficulty_v6 convert_to_u64 boost_round ts' cds target /\
  Forall (fun o => forall s, o = Ok s ->
      - CRYPTONOTE_BLOCK_FUTURE_TIME_LIMIT_V6 <= s <= T * 10 \/ T < 0)
    (solve_times T CRYPTONOTE_BLOCK_FUTURE_TIME_LIMIT_V6 (take 61 ts)).
Proof.
  intros T Hl Hs. split; [| apply solve_times_range; done]. unfold next_difficulty_v6. change DIFFICULTY_WINDOW_V6 with 60.
  assert (Hz : zlen ts = zlen ts') by (unfold zlen; by rewrite Hl). rewrite !Hz.
  destruct (zlen ts' <? 4); [done |]. destruct (Z.ltb_spec (zlen ts') (60 + 1)).
  - rewrite !take_ge in Hs by (unfold zlen in *; lia).
    by rewrite !Hz, (lwma_loop_ext _ _ _ _ _ ts ts').
  - rewrite (zresize_take (60 + 1) ts), (zresize_take (60 + 1) ts') by (unfold zlen in *; lia).
    rewrite (lwma_loop_ext _ _ _ _ _ (take (Z.to_nat (60 + 1)) ts)
      (take (Z.to_nat (60 + 1)) ts')); try done. by rewrite !length_take, Hl.
Qed.

End Version6.

(** ** The product on machines without a 128-bit multiplication *)

(** The portable double-word product is the x86_64 one. *)
Theorem mul_portable_equiv a b :
  in_u 64 a -> in_u 64 b -> mul_portable a b = mul a b.
Proof.
  intros Ha Hb. destruct (mul_portable a b) as [lo hi] eqn:E1, (mul a b) as [lo' hi'] eqn:E2.
  apply mul_portable_exact in E1 as [E1 ?]; [| done..].
  apply mul_exact in E2 as (E2 & ? & _); [| done..].
  destruct (words_unique lo hi lo' hi') as [-> ->]; congruence.
Qed.

(** ** Instances *)

Lemma check_hash_exact_witness :
  check_hash (replicate 31 0 ++ [1]) 256 = false /\ check_hash (replicate 31 0 ++ [1]) 255 = true.
Proof.
  rewrite !check_hash_exact; [by vm_compute | by_decide..].
Defined.

Lemma mul_portable_equiv_witness : mul_portable UINT64_MAX UINT64_MAX = mul UINT64_MAX UINT64_MAX.
Proof. apply mul_portable_equiv; by_decide. Defined.

Lemma next_difficulty_exact_witness :
  next_difficulty (fun x => x) [100; 160; 220] [1000; 2000; 3000] 60 = Ok 1000.
Proof.
  destruct (next_difficulty_exact (fun x => x) (fun x _ => eq_refl)
    [100; 160; 220] [1000; 2000; 3000] 60 eq_refl ltac:(cbn; lia) ltac:(by_decide)
    ltac:(by_decide)) as (b & e & tb & te & cb & ce & H1 & _ & _ & _ & H2 & H3 & H4 & H5 & H).
  vm_compute in H1. injection H1 as <- <-.
  vm_compute in H2, H3, H4, H5. simplify_eq. by rewrite H.
Defined.

Lemma next_difficulty_v2_exact_witness :
  exists A, 2 * 2 <= A <= 360 * 2 /\
  next_difficulty_v2 (fun x => x) [100; 100; 100] [1000; 2000; 3000] 60 =
    Ok (Z.max 1 ((2000 * 60 + A - 1) mod 2 ^ 64 / A)).
Proof.
  destruct (next_difficulty_v2_exact (fun x => x) (fun x _ => eq_refl)
    [100; 100; 100] [1000; 2000; 3000] 60 eq_refl ltac:(cbn; lia)
    ltac:(by_decide)) as (b & e & cb & ce & A & H1 & H4 & H5 & HA & _ & H).
  vm_compute in H1. injection H1 as <- <-.
  vm_compute in H4, H5. simplify_eq. exists A. split; [exact HA |].
  by rewrite H by by_decide.
Defined.

Lemma next_difficulty_v3_exact_witness :
  exists W, 90 <= W <= 1800 /\
  next_difficulty_v3 (fun x => x) [100; 160; 220] [1000; 2000; 3000] 60 true =
    Ok ((3000 - 1000) * target_v3 3 60 true / W).
Proof.
  destruct (next_difficulty_v3_exact (fun x => x) (fun x _ => eq_refl)
    [100; 160; 220] [1000; 2000; 3000] 60 true 1000 3000 eq_refl ltac:(cbn; lia)
    ltac:(by_decide) ltac:(lia) eq_refl eq_refl ltac:(by_decide)) as (W & HW & H).
  exists W. split; [exact HW | exact H].
Defined.

Lemma next_difficulty_v6_ext_witness :
  next_difficulty_v6 (fun x => x) (fun _ => Ok 60) [1000; 1060; 5000; 4000] [1; 11; 21; 31] 60 =
  next_difficulty_v6 (fun x => x) (fun _ => Ok 60) [1000; 1060; 6000; 2000] [1; 11; 21; 31] 60.
Proof. apply next_difficulty_v6_ext; by vm_compute. Defined.

(** On a steady chain (difficulty 1000000, a block every 60 seconds) the LWMA
    difficulty is 0.998 of the current one. *)
Lemma next_difficulty_v6_steady :
  next_difficulty_v6 (fun x => x) (fun _ => Ok 60)
    (map (fun i => 1700000000 + 60 * Z.of_nat i) (seq 0 61))
    (map (fun i => 1000000 * Z.of_nat i) (seq 0 61)) 60 = Ok 998000.
Proof. vm_compute; reflexivity. Qed.
