(* ===== verification/HardFork.v ===== *)
(** * Hard forks: [src/cryptonote_basic/hardfork.cpp]

    The object that decides which block version is valid at the top of the
    chain. [HardFork] is its state, [chain_db] the part of the database it
    reads and writes: the versions of the stored blocks and the table of fork
    versions by height. Every operation is a state-passing function with an
    [outcome]; the lock is not modelled (each operation runs under it).

    [reachable] is the step relation of the object as [Blockchain] drives it:
    a block is appended after [check] accepted it, the top block is popped, the
    object is rescanned or reorganised. *)
From S2P Require Import Prelude Config.

Open Scope Z_scope.

(** ** State *)

(** The fields of a block the object reads.
    Source: src/src/cryptonote_basic/cryptonote_basic.h:410-413 (block_header) *)
Record block_header := Block_header { major_version : Z; minor_version : Z }.

(** The slice of [BlockchainDB] the object uses: the blocks by height and the
    table [hf_versions]. *)
Record chain_db := Chain_db { db_blocks : list block_header; db_hf_versions : gmap Z Z }.

Definition db_height (db : chain_db) : Z := zlen (db_blocks db).

Definition get_block_from_height (db : chain_db) (height : Z) : outcome block_header :=
  match znth (db_blocks db) height with
  | Some b => Ok b
  | None => Throw "BLOCK_DNE"
  end.

(** Source: src/src/blockchain_db/lmdb/db_lmdb.cpp:4838-4855 (set_hard_fork_version) *)
Definition set_hard_fork_version (db : chain_db) (height version : Z) : chain_db :=
  Chain_db (db_blocks db) (<[height := version]> (db_hf_versions db)).

(** Source: src/src/blockchain_db/lmdb/db_lmdb.cpp:4857-4874 (get_hard_fork_version) *)
Definition get_hard_fork_version (db : chain_db) (height : Z) : outcome Z :=
  match db_hf_versions db !! height with
  | Some v => Ok v
  | None => Throw "DB_ERROR"
  end.

(** Source: src/src/cryptonote_basic/hardfork.h:218-223 (Params) *)
Record Params := mkParams { p_version : Z; p_height : Z; p_threshold : Z }.

(** Source: src/src/cryptonote_basic/hardfork.h:239-250 (HardFork) *)
Record HardFork := mkHardFork {
  window_size : Z;
  default_threshold_percent : Z;
  original_version : Z;
  original_version_till_height : Z;
  heights : list Params;
  versions : list Z;
  last_versions : list Z;
  current_fork_index : nat
}.

Definition set_heights (hs : list Params) (s : HardFork) : HardFork :=
  mkHardFork (window_size s) (default_threshold_percent s) (original_version s)
    (original_version_till_height s) hs (versions s) (last_versions s) (current_fork_index s).

Definition set_window (vs lv : list Z) (s : HardFork) : HardFork :=
  mkHardFork (window_size s) (default_threshold_percent s) (original_version s)
    (original_version_till_height s) (heights s) vs lv (current_fork_index s).

Definition set_index (i : nat) (s : HardFork) : HardFork :=
  mkHardFork (window_size s) (default_threshold_percent s) (original_version s)
    (original_version_till_height s) (heights s) (versions s) (last_versions s) i.

(** [last_versions[v]], for an 8-bit [v]. *)
Definition votes_for (lv : list Z) (v : Z) : Z := default 0 (lv !! Z.to_nat v).

(** [last_versions[v]++] and [last_versions[v]--] on [unsigned int]. *)
Definition incr_votes (v : Z) (lv : list Z) : list Z :=
  alter (fun c => u32 (c + 1)) (Z.to_nat v) lv.
Definition decr_votes (v : Z) (lv : list Z) : list Z :=
  alter (fun c => u32 (c - 1)) (Z.to_nat v) lv.

Definition no_votes : list Z := replicate 256 0.

(** ** Operations *)

(** Source: src/src/cryptonote_basic/hardfork.cpp:42-51 (get_block_vote) *)
Definition get_block_vote (b : block_header) : Z :=
  if minor_version b =? 0 then 1 else minor_version b.

(** The constructor; [uninit] is the content of the array [last_versions],
    which only [init] sets.
    Source: src/src/cryptonote_basic/hardfork.cpp:58-70 (HardFork::HardFork) *)
Definition new_HardFork (original_version original_version_till_height window_size
    default_threshold_percent : Z) (uninit : list Z) : outcome HardFork :=
  if window_size =? 0 then Throw "window_size needs to be strictly positive"
  else if 100 <? default_threshold_percent then
    Throw "default_threshold_percent needs to be between 0 and 100"
  else Ok (mkHardFork window_size default_threshold_percent original_version
             original_version_till_height [] [] uninit 0).

(** Source: src/src/cryptonote_basic/hardfork.cpp:72-89 (HardFork::add_fork) *)
Definition add_fork_threshold (s : HardFork) (version height threshold : Z) : bool * HardFork :=
  if version =? 0 then (false, s)
  else if match last (heights s) with
          | Some p => (version <=? p_version p) || (height <=? p_height p)
          | None => false
          end then (false, s)
  else if 100 <? threshold then (false, s)
  else (true, set_heights (heights s ++ [mkParams version height threshold]) s).

(** Source: src/src/cryptonote_basic/hardfork.cpp:91-94 (HardFork::add_fork) *)
Definition add_fork (s : HardFork) (version height : Z) : bool * HardFork :=
  add_fork_threshold s version height (default_threshold_percent s).

(** Source: src/src/cryptonote_basic/hardfork.cpp:96-104 (HardFork::get_effective_version) *)
Definition get_effective_version (s : HardFork) (voting_version : Z) : Z :=
  match last (heights s) with
  | Some p => if p_version p <? voting_version then p_version p else voting_version
  | None => voting_version
  end.

(** Source: src/src/cryptonote_basic/hardfork.cpp:106-110 (HardFork::do_check) *)
Definition do_check (s : HardFork) (block_version voting_version : Z) : outcome bool :=
  p ← at_or_undef (heights s !! current_fork_index s);
  Ok ((block_version =? p_version p) && (p_version p <=? voting_version)).

(** Source: src/src/cryptonote_basic/hardfork.cpp:112-116 (HardFork::check) *)
Definition check (s : HardFork) (b : block_header) : outcome bool :=
  do_check s (major_version b) (get_block_vote b).

(** The loop of [get_voted_fork_index], from fork [n - 1] down to fork 0.
    Source: src/src/cryptonote_basic/hardfork.cpp:312-319 (HardFork::get_voted_fork_index) *)
Fixpoint voted_loop (s : HardFork) (height : Z) (n : nat) (accumulated_votes : Z) : nat :=
  match n with
  | O => current_fork_index s
  | S n =>
      match heights s !! n with
      | None => current_fork_index s
      | Some p =>
          let accumulated_votes :=
            u32 (accumulated_votes + votes_for (last_versions s) (p_version p)) in
          let threshold := u32 ((window_size s *! p_threshold p +! 99) / 100) in
          if (p_height p <=? height) && (threshold <=? accumulated_votes) then n
          else voted_loop s height n accumulated_votes
      end
  end.

(** Source: src/src/cryptonote_basic/hardfork.cpp:308-321 (HardFork::get_voted_fork_index) *)
Definition get_voted_fork_index (s : HardFork) (height : Z) : nat :=
  voted_loop s height (length (heights s)) 0.

(** Source: src/src/cryptonote_basic/hardfork.cpp:118-123 (HardFork::do_check_for_height) *)
Definition do_check_for_height (s : HardFork) (block_version voting_version height : Z)
  : outcome bool :=
  p ← at_or_undef (heights s !! get_voted_fork_index s height);
  Ok ((block_version =? p_version p) && (p_version p <=? voting_version)).

(** Source: src/src/cryptonote_basic/hardfork.cpp:125-129 (HardFork::check_for_height) *)
Definition check_for_height (s : HardFork) (b : block_header) (height : Z) : outcome bool :=
  do_check_for_height s (major_version b) (get_block_vote b) height.

(** [uint8_t voted = get_voted_fork_index(height); if (voted > current_fork_index)
    current_fork_index = voted].
    Source: src/src/cryptonote_basic/hardfork.cpp:152-155 (HardFork::add) *)
Definition advance (s : HardFork) (height : Z) : HardFork :=
  let voted := Z.to_nat (u8 (Z.of_nat (get_voted_fork_index s height))) in
  if (current_fork_index s <? voted)%nat then set_index voted s else s.

(** The loop that makes room in the window ([window_size] is positive, so the
    deque is not empty when its body runs).
    Source: src/src/cryptonote_basic/hardfork.cpp:142-147 (HardFork::add) *)
Fixpoint make_room (window : Z) (vs lv : list Z) : list Z * list Z :=
  match vs with
  | [] => ([], lv)
  | old_version :: rest =>
      if window <=? zlen vs then make_room window rest (decr_votes old_version lv)
      else (vs, lv)
  end.

(** Source: src/src/cryptonote_basic/hardfork.cpp:131-158 (HardFork::add) *)
Definition add_versions (s : HardFork) (db : chain_db) (block_version voting_version height : Z)
  : outcome (bool * HardFork * chain_db) :=
  ok ← do_check s block_version voting_version;
  if negb ok then Ok (false, s, db) else
  p ← at_or_undef (heights s !! current_fork_index s);
  let db := set_hard_fork_version db height (p_version p) in
  let voting_version := get_effective_version s voting_version in
  let '(vs, lv) := make_room (window_size s) (versions s) (last_versions s) in
  let s := set_window (vs ++ [voting_version]) (incr_votes voting_version lv) s in
  Ok (true, advance s (height +! 1), db).

(** Source: src/src/cryptonote_basic/hardfork.cpp:160-163 (HardFork::add) *)
Definition add (s : HardFork) (db : chain_db) (b : block_header) (height : Z)
  : outcome (bool * HardFork * chain_db) :=
  add_versions s db (major_version b) (get_block_vote b) height.

(** The body that [rescan_from_block_height] and [reorganize_from_block_height]
    run for each block of the window.
    Source: src/src/cryptonote_basic/hardfork.cpp:256-261 (HardFork::rescan_from_block_height) *)
Fixpoint count_votes (s : HardFork) (bs : list block_header) : HardFork :=
  match bs with
  | [] => s
  | b :: bs =>
      let v := get_effective_version s (get_block_vote b) in
      count_votes (set_window (versions s ++ [v]) (incr_votes v (last_versions s)) s) bs
  end.

(** [current_fork_index] after the search for [lastv]: the list holds the forks
    from index [i] on.
    Source: src/src/cryptonote_basic/hardfork.cpp:263-266 (HardFork::rescan_from_block_height) *)
Fixpoint find_fork (lastv : Z) (hs : list Params) (i : nat) : nat :=
  match hs with
  | p :: ((_ :: _) as rest) => if p_version p =? lastv then i else find_fork lastv rest (S i)
  | _ => i
  end.

(** Source: src/src/cryptonote_basic/hardfork.cpp:245-274 (HardFork::rescan_from_block_height) *)
Definition rescan_from_block_height (s : HardFork) (db : chain_db) (height : Z)
  : outcome (bool * HardFork) :=
  if db_height db <=? height then Ok (false, s) else
  let s := set_window [] no_votes s in
  let s := count_votes s (drop (Z.to_nat height) (db_blocks db)) in
  lastv ← get_hard_fork_version db (db_height db -! 1);
  let s := set_index (find_fork lastv (heights s) 0) s in
  Ok (true, advance s (db_height db)).

(** Source: src/src/cryptonote_basic/hardfork.cpp:276-281 (HardFork::rescan_from_chain_height) *)
Definition rescan_from_chain_height (s : HardFork) (db : chain_db) (height : Z)
  : outcome (bool * HardFork) :=
  if height =? 0 then Ok (false, s) else rescan_from_block_height s db (height -! 1).

(** Source: src/src/cryptonote_basic/hardfork.cpp:165-187 (HardFork::init) *)
Definition init (s : HardFork) (db : chain_db) : outcome HardFork :=
  let s := match heights s with
           | [] => set_heights [mkParams (original_version s) 0 0] s
           | _ => s
           end in
  let s := set_index 0 (set_window [] no_votes s) in
  let height := db_height db in
  let height :=
    if window_size s <? height then height -! (window_size s -! 1) else 1 in
  '(_, s) ← rescan_from_chain_height s db height;
  Ok s.

(** Source: src/src/cryptonote_basic/hardfork.cpp:189-196 (HardFork::get_block_version) *)
Definition get_block_version (s : HardFork) (db : chain_db) (height : Z) : outcome Z :=
  if height <=? original_version_till_height s then Ok (original_version s) else
  b ← get_block_from_height db height;
  Ok (major_version b).

(** Source: src/src/cryptonote_basic/hardfork.cpp:212-214 (HardFork::reorganize_from_block_height) *)
Fixpoint lower_index (hs : list Params) (start_version : Z) (i : nat) : outcome nat :=
  match i with
  | O => Ok O
  | S j =>
      p ← at_or_undef (hs !! i);
      if start_version <? p_version p then lower_index hs start_version j else Ok i
  end.

(** The blocks above the rescanned window are added again; the results are
    ignored.
    Source: src/src/cryptonote_basic/hardfork.cpp:227-230 (HardFork::reorganize_from_block_height) *)
Fixpoint add_all (s : HardFork) (db : chain_db) (bs : list block_header) (h : Z)
  : outcome (HardFork * chain_db) :=
  match bs with
  | [] => Ok (s, db)
  | b :: bs =>
      '(_, s, db) ← add s db b h;
      add_all s db bs (h +! 1)
  end.

(** The database batch brackets have no effect on the model.
    Source: src/src/cryptonote_basic/hardfork.cpp:198-236 (HardFork::reorganize_from_block_height) *)
Definition reorganize_from_block_height (s : HardFork) (db : chain_db) (height : Z)
  : outcome (bool * HardFork * chain_db) :=
  if db_height db <=? height then Ok (false, s, db) else
  let s := set_window [] no_votes s in
  let rescan_height :=
    if window_size s -! 1 <=? height then height -! (window_size s -! 1) else 0 in
  start_version ←
    (if height =? 0 then Ok (original_version s) else get_hard_fork_version db height);
  i ← lower_index (heights s) start_version (current_fork_index s);
  let s := set_index i s in
  let s := count_votes s
    (take (Z.to_nat (height - rescan_height + 1)) (drop (Z.to_nat rescan_height) (db_blocks db))) in
  let s := advance s (height +! 1) in
  '(s, db) ← add_all s db (drop (Z.to_nat (height + 1)) (db_blocks db)) (height +! 1);
  Ok (true, s, db).

(** Source: src/src/cryptonote_basic/hardfork.cpp:238-243 (HardFork::reorganize_from_chain_height) *)
Definition reorganize_from_chain_height (s : HardFork) (db : chain_db) (height : Z)
  : outcome (bool * HardFork * chain_db) :=
  if height =? 0 then Ok (false, s, db) else reorganize_from_block_height s db (height -! 1).

(** The loop over the popped heights, from the highest down. A chain popped
    down to height 0 leaves the loop condition true for every unsigned
    [height], and the loop ends with the exception for the height 2^64 - 1; one
    round more than the number of popped blocks is enough in every case.
    Source: src/src/cryptonote_basic/hardfork.cpp:291-300 (HardFork::on_block_popped) *)
Fixpoint popped_loop (fuel : nat) (s : HardFork) (db : chain_db) (height new_chain_height : Z)
  : outcome HardFork :=
  if height <? new_chain_height then Ok s else
  match fuel with
  | O => Undef
  | S fuel =>
      version ← at_or_undef (last (versions s));
      let lv := decr_votes version (last_versions s) in
      let vs := removelast (versions s) in
      version ← get_hard_fork_version db height;
      popped_loop fuel (set_window (version :: vs) (incr_votes version lv) s) db
        (height -! 1) new_chain_height
  end.

(** Source: src/src/cryptonote_basic/hardfork.cpp:303-305 (HardFork::on_block_popped) *)
Fixpoint popped_index (hs : list Params) (new_chain_height : Z) (i : nat) : outcome nat :=
  match i with
  | O => Ok O
  | S j =>
      p ← at_or_undef (hs !! i);
      if p_height p <=? new_chain_height then Ok i else popped_index hs new_chain_height j
  end.

(** Source: src/src/cryptonote_basic/hardfork.cpp:283-306 (HardFork::on_block_popped) *)
Definition on_block_popped (s : HardFork) (db : chain_db) (nblocks : Z) : outcome HardFork :=
  if nblocks <=? 0 then Throw "nblocks must be greater than 0" else
  let new_chain_height := db_height db in
  let old_chain_height := new_chain_height +! nblocks in
  s ← popped_loop (S (Z.to_nat nblocks)) s db (old_chain_height -! 1) new_chain_height;
  match heights s with
  | [] => Undef
  | _ :: hs =>
      i ← popped_index (heights s) new_chain_height (length hs);
      Ok (set_index i s)
  end.

(** Source: src/src/cryptonote_basic/hardfork.cpp:336-340 (HardFork::get_current_version) *)
Definition get_current_version (s : HardFork) : outcome Z :=
  p ← at_or_undef (heights s !! current_fork_index s);
  Ok (p_version p).

(** Source: src/src/cryptonote_basic/hardfork.cpp:323-334 (HardFork::get) *)
Definition get (s : HardFork) (db : chain_db) (height : Z) : outcome Z :=
  if db_height db <? height then Ok 255
  else if height =? db_height db then get_current_version s
  else get_hard_fork_version db height.

(** Source: src/src/cryptonote_basic/hardfork.cpp:342-346 (HardFork::get_ideal_version) *)
Definition get_ideal_version (s : HardFork) : outcome Z :=
  p ← at_or_undef (last (heights s));
  Ok (p_version p).

(** The loop of [get_ideal_version(height)]: fork 0 is not looked at.
    Source: src/src/cryptonote_basic/hardfork.cpp:351-356 (HardFork::get_ideal_version) *)
Fixpoint ideal_loop (hs : list Params) (original height : Z) (n : nat) : outcome Z :=
  match n with
  | O => Ok original
  | S m =>
      p ← at_or_undef (hs !! n);
      if p_height p <=? height then Ok (p_version p) else ideal_loop hs original height m
  end.

(** Source: src/src/cryptonote_basic/hardfork.cpp:348-357 (HardFork::get_ideal_version) *)
Definition get_ideal_version_at (s : HardFork) (height : Z) : outcome Z :=
  match heights s with
  | [] => Undef
  | _ :: hs => ideal_loop (heights s) (original_version s) height (length hs)
  end.

(** The forks from the last one down; the list is the reversed vector.
    Source: src/src/cryptonote_basic/hardfork.cpp:361-368 (HardFork::get_earliest_ideal_height_for_version) *)
Fixpoint earliest_loop (rev_hs : list Params) (version height : Z) : Z :=
  match rev_hs with
  | [] => height
  | p :: rest =>
      if version <=? p_version p then earliest_loop rest version (p_height p) else height
  end.

(** Source: src/src/cryptonote_basic/hardfork.cpp:359-370 (HardFork::get_earliest_ideal_height_for_version) *)
Definition get_earliest_ideal_height_for_version (s : HardFork) (version : Z) : Z :=
  earliest_loop (reverse (heights s)) version UINT64_MAX.

(** [above] is the fork visited before, [i - 1] of the reverse iterator.
    Source: src/src/cryptonote_basic/hardfork.cpp:376-380 (HardFork::get_next_version) *)
Fixpoint next_loop (rev_hs : list Params) (above : option Params) (height original : Z) : Z :=
  match rev_hs with
  | [] => original
  | p :: rest =>
      if p_height p <=? height then p_version (default p above)
      else next_loop rest (Some p) height original
  end.

(** Source: src/src/cryptonote_basic/hardfork.cpp:372-382 (HardFork::get_next_version) *)
Definition get_next_version (s : HardFork) (db : chain_db) : Z :=
  next_loop (reverse (heights s)) None (db_height db) (original_version s).

(** Source: src/src/cryptonote_basic/hardfork.cpp:384-388 (HardFork::get_last_version) *)
Definition get_last_version (s : HardFork) : outcome Z :=
  p ← at_or_undef (last (heights s));
  Ok (p_version p).

Record voting_info := Voting_info {
  vi_enabled : bool; vi_window : Z; vi_votes : Z; vi_threshold : Z;
  vi_earliest_height : Z; vi_voting : Z
}.

(** The sum of [last_versions[n]] for [n] from [version] to 255, in 32 bits.
    Source: src/src/cryptonote_basic/hardfork.cpp:397-399 (HardFork::get_voting_info) *)
Definition votes_from (lv : list Z) (version : Z) : Z :=
  foldl (fun votes c => u32 (votes + c)) 0 (drop (Z.to_nat version) lv).

(** Source: src/src/cryptonote_basic/hardfork.cpp:390-405 (HardFork::get_voting_info) *)
Definition get_voting_info (s : HardFork) (version : Z) : outcome voting_info :=
  p ← at_or_undef (heights s !! current_fork_index s);
  q ← at_or_undef (last (heights s));
  let window := u32 (zlen (versions s)) in
  Ok (Voting_info (version <=? p_version p) window (votes_from (last_versions s) version)
        (u32 (u32 (window * p_threshold p) + 99) / 100)
        (get_earliest_ideal_height_for_version s version) (p_version q)).

(** ** The object as [Blockchain] drives it *)

(** The results of [add_fork] are ignored.
    Source: src/src/cryptonote_core/blockchain.cpp:343-357 (Blockchain::init) *)
Definition add_forks (table : list hard_fork) (s : HardFork) : HardFork :=
  foldl (fun s f => snd (add_fork s (hf_version f) (hf_height f))) s table.

(** The fork tables of the networks; a test chain has none of its own.
    Source: src/src/cryptonote_core/blockchain.cpp:343-357 (Blockchain::init) *)
Definition hard_fork_table (nettype : network_type) : list hard_fork :=
  match nettype with
  | FAKECHAIN => []
  | TESTNET => testnet_hard_forks
  | STAGENET => stagenet_hard_forks
  | _ => hard_forks
  end.

(** The forks of the test options, up to an entry with version 0; without one the
    loop runs past the array.
    Source: src/src/cryptonote_core/blockchain.cpp:338-342 (Blockchain::init) *)
Fixpoint add_test_forks (forks : list (Z * Z)) (s : HardFork) : outcome HardFork :=
  match forks with
  | [] => Undef
  | (version, height) :: forks =>
      if version =? 0 then Ok s else add_test_forks forks (snd (add_fork_threshold s version height 0))
  end.

(** Test options make the chain a test chain; a test chain needs them.
    Source: src/src/cryptonote_core/blockchain.cpp:332-359 (Blockchain::init) *)
Definition blockchain_init_hardfork (test_options : option (list (Z * Z))) (nettype : network_type) (uninit : list Z)
    (db : chain_db) : outcome HardFork :=
  let m_nettype := match test_options with Some _ => FAKECHAIN | None => nettype end in
  s ← new_HardFork 1 0 10080 0 uninit;
  s ← (if decide (m_nettype = FAKECHAIN) then forks ← at_or_undef test_options; add_test_forks forks s
       else Ok (add_forks (hard_fork_table m_nettype) s));
  init s db.

(** Appending a block: the version check of [handle_block_to_main_chain]
    guards [add_block], which stores the block and then calls [add], ignoring
    its result.
    Source: src/src/blockchain_db/blockchain_db.cpp:208-213 (BlockchainDB::add_block) *)
Definition append_block (s : HardFork) (db : chain_db) (b : block_header)
  : outcome (bool * HardFork * chain_db) :=
  ok ← check s b;
  if negb ok then Ok (false, s, db) else
  let prev_height := db_height db in
  let db := Chain_db (db_blocks db ++ [b]) (db_hf_versions db) in
  '(_, s, db) ← add s db b prev_height;
  Ok (true, s, db).

(** Removing the top block; the genesis block stays.
    Source: src/src/cryptonote_core/blockchain.cpp:614-635 (Blockchain::pop_block_from_blockchain) *)
Definition pop_block (s : HardFork) (db : chain_db) : outcome (HardFork * chain_db) :=
  if db_height db <=? 1 then Throw "Cannot pop the genesis block" else
  let db := Chain_db (removelast (db_blocks db)) (db_hf_versions db) in
  s ← on_block_popped s db 1;
  Ok (s, db).

(** One step of the object on a chain of fewer than 2^63 blocks. *)
Inductive hf_step : HardFork * chain_db -> HardFork * chain_db -> Prop :=
| step_append s db b s' db' :
    db_height db < 2 ^ 63 - 1 -> in_u 8 (major_version b) -> in_u 8 (minor_version b) ->
    append_block s db b = Ok (true, s', db') -> hf_step (s, db) (s', db')
| step_pop s db s' db' :
    pop_block s db = Ok (s', db') -> hf_step (s, db) (s', db')
| step_reorganize s db height r s' db' :
    in_u 64 height ->
    reorganize_from_chain_height s db height = Ok (r, s', db') -> hf_step (s, db) (s', db')
| step_init s db s' :
    init s db = Ok s' -> hf_step (s, db) (s', db).

Definition empty_db : chain_db := Chain_db [] ∅.

(** The states [Blockchain] can bring the object into, from an empty database and
    without test options. *)
Definition reachable (nettype : network_type) (st : HardFork * chain_db) : Prop :=
  exists uninit s0, blockchain_init_hardfork None nettype uninit empty_db = Ok s0 /\
    rtc hf_step (s0, empty_db) st.

(** ** The specification: the schedule of the fork table *)

(** The version of the last fork whose height has been reached (the first
    fork before that). *)
Definition fork_version_at (hs : list Params) (h : Z) : Z :=
  foldl (fun v p => if p_height p <=? h then p_version p else v)
    (from_option p_version 0 (head hs)) hs.

(** [i] is the index of that fork. *)
Definition scheduled (hs : list Params) (h : Z) (i : nat) : Prop :=
  exists p, hs !! i = Some p /\ (i = O \/ p_height p <= h) /\
    forall j q, hs !! j = Some q -> (i < j)%nat -> h < p_height q.

(** ** Vote counts *)

Definition zcount (v : Z) (l : list Z) : Z := zlen (filter (fun x => x = v) l).

(** The contents of [last_versions] for a window of votes. *)
Definition tally (vs : list Z) : list Z := map (fun i => zcount (Z.of_nat i) vs) (seq 0 256).

Definition fork_lt (p q : Params) : Prop := p_version p < p_version q /\ p_height p < p_height q.

(** The invariant of the object: the table is strictly increasing, the index
    is in range, and the counters are the counts of the window. *)
Record wf (s : HardFork) : Prop := {
  wf_window : 0 < window_size s < 2 ^ 32 - 1;
  wf_nonempty : heights s <> [];
  wf_sorted : StronglySorted fork_lt (heights s);
  wf_params : Forall (fun p => 0 < p_version p < 2 ^ 8) (heights s);
  wf_heights : Forall (fun p => 0 <= p_height p) (heights s);
  wf_index : (current_fork_index s < length (heights s))%nat;
  wf_length : zlen (versions s) <= window_size s;
  wf_votes : Forall (in_u 8) (versions s);
  wf_tally : last_versions s = tally (versions s)
}.

(** No fork waits for votes, as in the tables of every network. *)
Definition unconditional (s : HardFork) : Prop :=
  Forall (fun p => p_threshold p = 0) (heights s).

(** The blocks of the chain and the recorded fork versions follow the schedule. *)
Definition follows_schedule (hs : list Params) (db : chain_db) : Prop :=
  forall h b, znth (db_blocks db) h = Some b ->
    major_version b = fork_version_at hs h /\
    fork_version_at hs h <= get_block_vote b < 2 ^ 8 /\
    db_hf_versions db !! h = Some (fork_version_at hs h).

(** The invariant of the object and its database together. *)
Record synced (s : HardFork) (db : chain_db) : Prop := {
  synced_wf : wf s;
  synced_unconditional : unconditional s;
  synced_original : original_version s = fork_version_at (heights s) 0;
  synced_height : db_height db < 2 ^ 63;
  synced_index : scheduled (heights s) (db_height db) (current_fork_index s);
  synced_window : 0 < db_height db -> versions s <> [];
  synced_chain : follows_schedule (heights s) db
}.

(** * Properties *)

(** ** Vote counts *)

Lemma zcount_cons v x l : zcount v (x :: l) = zcount v l + (if decide (x = v) then 1 else 0).
Proof. unfold zcount, zlen. rewrite filter_cons. case_decide; cbn [length]; lia. Qed.

Lemma zcount_range v l : 0 <= zcount v l <= zlen l.
Proof. unfold zcount, zlen. pose proof (length_filter (fun x => x = v) l). lia. Qed.

Lemma tally_perm vs ws : vs ≡ₚ ws -> tally vs = tally ws.
Proof.
  intros Hp. unfold tally. apply map_ext. intros i. unfold zcount, zlen.
  by rewrite Hp.
Qed.

Lemma tally_lookup vs i : (i < 256)%nat -> tally vs !! i = Some (zcount (Z.of_nat i) vs).
Proof.
  intros Hi. unfold tally. rewrite list_lookup_fmap, lookup_seq_lt by done. done.
Qed.

Lemma votes_for_tally vs v : in_u 8 v -> votes_for (tally vs) v = zcount v vs.
Proof.
  unfold in_u. intros Hv. unfold votes_for.
  rewrite tally_lookup by lia. cbn. by rewrite Z2Nat.id by lia.
Qed.

Lemma length_tally vs : length (tally vs) = 256%nat.
Proof. done. Qed.

Lemma alter_tally f v vs ws :
  in_u 8 v -> (forall i, zcount i ws = if decide (i = v) then f (zcount i vs) else zcount i vs) ->
  alter f (Z.to_nat v) (tally vs) = tally ws.
Proof.
  unfold in_u. intros Hv Hw. apply list_eq. intros i.
  destruct (decide (i < 256)%nat) as [Hi | Hi].
  - rewrite (tally_lookup ws) by done. rewrite Hw.
    destruct (decide (i = Z.to_nat v)) as [-> | Hne].
    + rewrite list_lookup_alter, tally_lookup by lia. cbn. by rewrite !decide_True by lia.
    + rewrite list_lookup_alter_ne, tally_lookup by done. by rewrite decide_False by lia.
  - rewrite !lookup_ge_None_2; [done | rewrite ?length_alter, length_tally; lia..].
Qed.

Lemma incr_votes_tally v vs :
  in_u 8 v -> zlen vs < 2 ^ 32 - 1 -> incr_votes v (tally vs) = tally (vs ++ [v]).
Proof.
  intros Hv Hl. rewrite (tally_perm (vs ++ [v]) (v :: vs)) by (symmetry; apply Permutation_cons_append).
  apply alter_tally; [done |]. intros i. rewrite zcount_cons.
  pose proof (zcount_range i vs). repeat case_decide; subst; try done; [| lia].
  rewrite u32_small; lia.
Qed.

Lemma decr_votes_tally v vs :
  in_u 8 v -> zlen vs < 2 ^ 32 - 1 -> decr_votes v (tally (v :: vs)) = tally vs.
Proof.
  intros Hv Hl. apply alter_tally; [done |]. intros i. rewrite zcount_cons.
  pose proof (zcount_range i vs). repeat case_decide; subst; try done; [| lia].
  rewrite u32_small; lia.
Qed.

Lemma tally_nil : tally [] = no_votes.
Proof. done. Qed.

(** The window keeps its most recent votes, and the counters follow. *)
Lemma make_room_tally w vs :
  0 < w -> Forall (in_u 8) vs -> zlen vs < 2 ^ 32 ->
  exists vs', make_room w vs (tally vs) = (vs', tally vs') /\ suffix vs' vs /\ zlen vs' < w.
Proof.
  intros Hw. induction vs as [| v vs IH]; intros Hv Hl; cbn [make_room].
  - exists []. unfold zlen. cbn. by split_and!; try lia.
  - apply Forall_cons in Hv as [Hv Hvs]. unfold zlen in Hl. cbn [length] in Hl.
    destruct (Z.leb_spec w (zlen (v :: vs))).
    + rewrite decr_votes_tally by (done || unfold zlen; lia).
      destruct IH as (vs' & E & Hs & ?); [done | unfold zlen; lia |].
      exists vs'. split_and!; [done | by apply suffix_cons_r | done].
    + exists (v :: vs). by split_and!.
Qed.

(** ** The schedule *)

Lemma scheduled_unique hs h i j : scheduled hs h i -> scheduled hs h j -> i = j.
Proof.
  intros (p & Hp & Hi & Hmax) (q & Hq & Hj & Hmax').
  destruct (lt_eq_lt_dec i j) as [[Hlt | ->] | Hlt]; [exfalso | done | exfalso].
  - specialize (Hmax j q Hq Hlt). lia.
  - specialize (Hmax' i p Hp Hlt). lia.
Qed.

Lemma scheduled_mono hs h h' i j : h <= h' -> scheduled hs h i -> scheduled hs h' j -> (i <= j)%nat.
Proof.
  intros Hh (p & Hp & Hi & _) (q & _ & _ & Hmax).
  destruct (decide (i <= j)%nat); [done |]. specialize (Hmax i p Hp ltac:(lia)). lia.
Qed.

Lemma scheduled_lt hs h i : scheduled hs h i -> (i < length hs)%nat.
Proof. intros (p & Hp & _). by eapply lookup_lt_Some. Qed.

(** The executable schedule returns the version of the scheduled fork. *)
Lemma fork_version_fold (hs : list Params) h v0 :
  (foldl (fun v p => if p_height p <=? h then p_version p else v) v0 hs = v0 /\
   forall j q, hs !! j = Some q -> h < p_height q) \/
  exists i p, hs !! i = Some p /\ p_height p <= h /\
    (forall j q, hs !! j = Some q -> (i < j)%nat -> h < p_height q) /\
    foldl (fun v p => if p_height p <=? h then p_version p else v) v0 hs = p_version p.
Proof.
  induction hs as [| r hs IH] using rev_ind.
  { left. split; [done |]. intros j q Hq. by rewrite lookup_nil in Hq. }
  rewrite foldl_app. cbn [foldl]. destruct (Z.leb_spec (p_height r) h) as [Hr | Hr].
  - right. exists (length hs), r. rewrite lookup_app_r, Nat.sub_diag by lia.
    split_and!; [done | done | | done]. intros j q Hq Hj.
    apply lookup_lt_Some in Hq. rewrite length_app in Hq. cbn in Hq. lia.
  - assert (Hext : forall (P : nat -> Prop) j q,
        (forall j q, hs !! j = Some q -> P j -> h < p_height q) ->
        (hs ++ [r]) !! j = Some q -> P j -> h < p_height q).
    { intros P j q Hall Hq HP. apply lookup_app_Some in Hq as [Hq | [Hge Hq]]; [eauto |].
      apply list_lookup_singleton_Some in Hq as [_ <-]. done. }
    destruct IH as [[E Hall] | (i & p & Hp & Hle & Hall & E)]; [left | right].
    + split; [done |]. intros j q Hq. by apply (Hext (fun _ => True) j q); eauto.
    + exists i, p. split_and!; [by apply lookup_app_l_Some | done | | done].
      intros j q. by apply (Hext (fun j => (i < j)%nat)).
Qed.

Lemma fork_version_scheduled hs h i p :
  scheduled hs h i -> hs !! i = Some p -> fork_version_at hs h = p_version p.
Proof.
  intros Hs Hp. unfold fork_version_at.
  destruct (fork_version_fold hs h (from_option p_version 0 (head hs)))
    as [[-> Hall] | (j & q & Hq & Hle & Hmax & ->)].
  - destruct Hs as (p' & Hp' & Hi & _). rewrite Hp in Hp'. injection Hp' as <-. pose proof (Hall i p Hp).
    assert (i = 0%nat) as -> by lia. destruct hs; cbn in *; by simplify_eq.
  - assert (Hj : scheduled hs h j) by (exists q; eauto).
    pose proof (scheduled_unique hs h i j Hs Hj) as ->. by simplify_eq.
Qed.

Lemma scheduled_exists hs h : hs <> [] -> exists i, scheduled hs h i.
Proof.
  intros Hne. destruct (fork_version_fold hs h 0) as [[_ Hall] | (i & p & ? & ? & ? & _)].
  - exists 0%nat. destruct hs as [| p0 hs]; [done |]. exists p0. split_and!; [done | by left |].
    intros j q Hq _. by eapply Hall.
  - exists i, p. eauto.
Qed.

(** ** Looking up a strictly increasing table *)

Lemma sorted_version_lt hs i j p q :
  StronglySorted fork_lt hs -> hs !! i = Some p -> hs !! j = Some q -> (i < j)%nat ->
  p_version p < p_version q.
Proof.
  intros Hs. revert i j. induction Hs as [| r hs Hs IH Hall]; intros i j Hi Hj Hij.
  { by rewrite lookup_nil in Hi. }
  destruct i as [| i], j as [| j]; try lia; cbn in *; simplify_eq.
  - rewrite Forall_forall in Hall. by apply Hall; eapply list_elem_of_lookup_2.
  - eapply (IH i j); eauto; lia.
Qed.

Lemma sorted_length_bound hs lo hi :
  StronglySorted fork_lt hs -> Forall (fun p => lo < p_version p < hi) hs ->
  0 <= hi - lo - 1 -> zlen hs <= hi - lo - 1.
Proof.
  intros Hs. revert lo. induction Hs as [| r hs Hs IH Hall]; intros lo Hb Hlo.
  { unfold zlen. cbn. lia. }
  apply Forall_cons in Hb as [Hr Hb].
  assert (Forall (fun p => p_version r < p_version p < hi) hs) as Hb'.
  { apply Forall_forall. intros p Hp. rewrite Forall_forall in Hall, Hb.
    specialize (Hall p Hp). specialize (Hb p Hp). unfold fork_lt in Hall. lia. }
  specialize (IH _ Hb' ltac:(lia)). unfold zlen in *. cbn [length]. lia.
Qed.

Lemma find_fork_sorted hs k i p :
  StronglySorted fork_lt hs -> hs !! i = Some p -> find_fork (p_version p) hs k = (k + i)%nat.
Proof.
  intros Hs. revert k i. induction Hs as [| r hs Hs IH Hall]; intros k i Hi.
  { by rewrite lookup_nil in Hi. }
  destruct hs as [| r' hs].
  { destruct i; cbn in Hi |- *; [lia | done]. }
  change (find_fork (p_version p) (r :: r' :: hs) k) with
    (if p_version r =? p_version p then k else find_fork (p_version p) (r' :: hs) (S k)).
  destruct i as [| i]; cbn in Hi.
  - simplify_eq. rewrite Z.eqb_refl. lia.
  - rewrite Forall_forall in Hall.
    assert (fork_lt r p) as [Hlt _] by (apply Hall; by eapply list_elem_of_lookup_2).
    destruct (Z.eqb_spec (p_version r) (p_version p)); [lia |].
    rewrite (IH (S k) i Hi). lia.
Qed.

Lemma lower_index_sorted hs c i p :
  StronglySorted fork_lt hs -> hs !! i = Some p -> (i <= c < length hs)%nat ->
  lower_index hs (p_version p) c = Ok i.
Proof.
  intros Hs Hp. induction c as [| c IH]; intros [Hic Hc]; cbn [lower_index].
  { by assert (i = 0%nat) as -> by lia. }
  destruct (lookup_lt_is_Some_2 hs (S c) Hc) as [q Hq]. rewrite Hq. cbn.
  destruct (decide (i = S c)) as [-> | Hne].
  - rewrite Hp in Hq. injection Hq as <-. by rewrite Z.ltb_irrefl.
  - pose proof (sorted_version_lt hs i (S c) p q Hs Hp Hq ltac:(lia)).
    destruct (Z.ltb_spec (p_version p) (p_version q)); [| lia]. apply IH. lia.
Qed.

Lemma popped_index_scheduled hs h i :
  (i < length hs)%nat -> (forall j q, hs !! j = Some q -> (i < j)%nat -> h < p_height q) ->
  exists r, popped_index hs h i = Ok r /\ scheduled hs h r.
Proof.
  induction i as [| i IH]; intros Hi Hmax; cbn [popped_index].
  - exists 0%nat. split; [done |].
    destruct (lookup_lt_is_Some_2 hs 0 Hi) as [p Hp]. exists p. eauto.
  - destruct (lookup_lt_is_Some_2 hs (S i) Hi) as [p Hp]. rewrite Hp. cbn.
    destruct (Z.leb_spec (p_height p) h).
    + exists (S i). split; [done |]. exists p. eauto.
    + apply IH; [lia |]. intros j q Hq Hj.
      destruct (decide (j = S i)) as [-> | Hne]; [by simplify_eq | eapply Hmax; eauto; lia].
Qed.

(** ** Voting *)

(** What the loop of [get_voted_fork_index] returns when no fork waits for
    votes: the last fork reached among the first [n], or the current one. *)
Lemma voted_loop_unconditional s h n acc :
  unconditional s -> (n <= length (heights s))%nat ->
  let r := voted_loop s h n acc in
  (exists p, heights s !! r = Some p /\ (r < n)%nat /\ p_height p <= h /\
     forall j q, heights s !! j = Some q -> (r < j < n)%nat -> h < p_height q) \/
  (r = current_fork_index s /\
     forall j q, heights s !! j = Some q -> (j < n)%nat -> h < p_height q).
Proof.
  intros Hu. revert acc. induction n as [| n IH]; intros acc Hn; cbn [voted_loop].
  { right. split; [done | lia]. }
  destruct (lookup_lt_is_Some_2 (heights s) n ltac:(lia)) as [p Hp]. rewrite Hp.
  unfold unconditional in Hu. rewrite Forall_forall in Hu.
  rewrite (Hu p) by (by eapply list_elem_of_lookup_2). rewrite Z.mul_0_r.
  change (u32 ((u64 0 +! 99) / 100)) with 0.
  set (acc' := u32 _). assert (0 <= acc') by apply u32_range.
  destruct (Z.leb_spec 0 acc'); [| lia]. rewrite andb_true_r.
  destruct (Z.leb_spec (p_height p) h) as [Hle | Hgt].
  - left. exists p. split_and!; [done | lia | done | lia].
  - destruct (IH acc' ltac:(lia)) as [(q & Hq & Hr & Hle & Hmax) | [-> Hall]]; [left | right].
    + exists q. split_and!; [done | lia | done |]. intros j q' Hq' Hj.
      destruct (decide (j = n)) as [-> | Hne]; [by simplify_eq | eapply Hmax; eauto; lia].
    + split; [done |]. intros j q' Hq' Hj.
      destruct (decide (j = n)) as [-> | Hne]; [by simplify_eq | eapply Hall; eauto; lia].
Qed.

(** The general contract of voting: the result is the last fork whose height
    has been reached and whose accumulated votes meet its threshold. *)
Definition accumulated (s : HardFork) (n : nat) : Z :=
  foldr (fun p a => u32 (a + votes_for (last_versions s) (p_version p))) 0 (drop n (heights s)).

Definition voted_in (s : HardFork) (h : Z) (n : nat) : Prop :=
  exists p, heights s !! n = Some p /\ p_height p <= h /\
    u32 ((window_size s *! p_threshold p +! 99) / 100) <= accumulated s n.

Lemma voted_loop_spec s h n :
  (n <= length (heights s))%nat ->
  let r := voted_loop s h n (accumulated s n) in
  (voted_in s h r /\ (r < n)%nat /\ forall j, (r < j < n)%nat -> ~ voted_in s h j) \/
  (r = current_fork_index s /\ forall j, (j < n)%nat -> ~ voted_in s h j).
Proof.
  induction n as [| n IH]; intros Hn; cbn [voted_loop].
  { right. split; [done | lia]. }
  destruct (lookup_lt_is_Some_2 (heights s) n ltac:(lia)) as [p Hp]. rewrite Hp.
  assert (Hacc : u32 (accumulated s (S n) + votes_for (last_versions s) (p_version p))
                 = accumulated s n).
  { unfold accumulated at 2. by rewrite (drop_S _ _ _ Hp). }
  rewrite Hacc. set (c := (_ <=? h) && _).
  assert (Hc : voted_in s h n <-> c = true).
  { subst c. unfold voted_in. rewrite andb_true_iff, !Z.leb_le. split.
    - intros (q & Hq & ?). rewrite Hp in Hq. injection Hq as <-. done.
    - intros. by exists p. }
  destruct c.
  - left. split_and!; [by apply Hc | lia | lia].
  - destruct (IH ltac:(lia)) as [(Hv & Hr & Hmax) | [-> Hall]]; [left | right].
    + split_and!; [done | lia |]. intros j Hj.
      destruct (decide (j = n)) as [-> | Hne]; [rewrite Hc; done | apply Hmax; lia].
    + split; [done |]. intros j Hj.
      destruct (decide (j = n)) as [-> | Hne]; [rewrite Hc; done | apply Hall; lia].
Qed.

(** The votes of the window for fork [n] or a later one. *)
Definition votes_since (s : HardFork) (n : nat) : Z :=
  zlen (filter (fun v => v ∈ map p_version (drop n (heights s))) (versions s)).

(** ** The invariant is preserved *)

Lemma wf_fork_count s : wf s -> zlen (heights s) <= 255.
Proof.
  intros [_ _ Hs Hp _ _ _ _ _]. apply (sorted_length_bound _ 0 (2 ^ 8)) in Hs; [lia | done | lia].
Qed.

Lemma filter_split (v : Z) (vs l : list Z) :
  v ∉ vs ->
  zlen (filter (fun x => x ∈ v :: vs) l) = zlen (filter (fun x => x ∈ vs) l) + zcount v l.
Proof.
  intros Hv. unfold zcount, zlen. induction l as [| x l IH]; [done |].
  rewrite !filter_cons. destruct (decide (x = v)) as [-> | Hx].
  - rewrite (decide_True (P := v ∈ v :: vs)) by (by left).
    rewrite (decide_False (P := v ∈ vs)) by done. cbn [length]. lia.
  - destruct (decide (x ∈ vs)).
    + rewrite decide_True by (by right). cbn [length]. lia.
    + rewrite decide_False by (by apply not_elem_of_cons). lia.
Qed.

Lemma tally_suffix vs hs :
  StronglySorted fork_lt hs -> Forall (fun p => 0 < p_version p < 2 ^ 8) hs ->
  zlen vs < 2 ^ 32 ->
  foldr (fun p a => u32 (a + votes_for (tally vs) (p_version p))) 0 hs =
  zlen (filter (fun v => v ∈ map p_version hs) vs).
Proof.
  intros Hs Hp Hl. induction Hs as [| p hs Hs IH Hall]; cbn [foldr map].
  { assert (filter (fun v : Z => v ∈ @nil Z) vs = []) as ->; [| done].
    apply elem_of_nil_inv. intros v [Hv _]%list_elem_of_filter. by apply not_elem_of_nil in Hv. }
  apply Forall_cons in Hp as [Hp Hps]. rewrite (IH Hps), votes_for_tally by (unfold in_u; lia).
  assert (Hn : p_version p ∉ map p_version hs).
  { intros (q & Heq & Hq)%list_elem_of_fmap. rewrite Forall_forall in Hall.
    destruct (Hall q Hq). lia. }
  rewrite <- (filter_split _ _ _ Hn). apply u32_small. unfold zlen in *.
  pose proof (length_filter (fun v => v ∈ p_version p :: map p_version hs) vs). lia.
Qed.

Lemma accumulated_votes s n : wf s -> accumulated s n = votes_since s n.
Proof.
  intros Hwf. unfold accumulated, votes_since. rewrite (wf_tally s Hwf). apply tally_suffix.
  - eapply (StronglySorted_app_1_r fork_lt (take n (heights s))). rewrite take_drop. apply Hwf.
  - apply Forall_drop, Hwf.
  - pose proof (wf_length s Hwf). pose proof (wf_window s Hwf). lia.
Qed.

Lemma voted_in_share s h n :
  wf s -> Forall (fun p => 0 <= p_threshold p <= 100) (heights s) ->
  voted_in s h n <->
  exists p, heights s !! n = Some p /\ p_height p <= h /\
    window_size s * p_threshold p <= 100 * votes_since s n.
Proof.
  intros Hwf Ht. unfold voted_in. rewrite (accumulated_votes s n Hwf).
  pose proof (wf_window s Hwf) as Hw. rewrite Forall_forall in Ht.
  apply exist_proper. intros p. split; intros (Hp & Hh & Hv); (split_and!; [done | done |]);
    pose proof (Ht p ltac:(by eapply list_elem_of_lookup_2)) as Htp;
    assert (0 <= window_size s * p_threshold p <= (2 ^ 32 - 1) * 100) by nia;
    rewrite (u64_small (window_size s * p_threshold p)), u64_small in * by lia;
    rewrite u32_small in * by
      (split; [apply Z.div_pos; lia | apply Z.div_lt_upper_bound; lia]).
  - pose proof (Z.div_mod (window_size s * p_threshold p + 99) 100 ltac:(lia)).
    pose proof (Z.mod_pos_bound (window_size s * p_threshold p + 99) 100 ltac:(lia)). lia.
  - apply Z.lt_succ_r, Z.div_lt_upper_bound; lia.
Qed.

Lemma advance_scheduled s h0 h :
  wf s -> unconditional s -> h0 <= h -> scheduled (heights s) h0 (current_fork_index s) ->
  scheduled (heights s) h (current_fork_index (advance s h)).
Proof.
  intros Hwf Hu Hh Hc. unfold advance, get_voted_fork_index.
  pose proof (voted_loop_unconditional s h (length (heights s)) 0 Hu ltac:(lia)) as Hr.
  cbv zeta in Hr. set (r := voted_loop _ _ _ _) in *.
  pose proof (wf_fork_count s Hwf) as Hcount. unfold zlen in Hcount.
  destruct Hr as [(p & Hp & Hr & Hle & Hmax) | [-> Hall]].
  - rewrite u8_small, Nat2Z.id by lia.
    assert (Hs : scheduled (heights s) h r).
    { exists p. split_and!; [done | by right |]. intros j q Hq Hj.
      eapply Hmax; eauto. apply lookup_lt_Some in Hq. lia. }
    pose proof (scheduled_mono _ _ _ _ _ Hh Hc Hs).
    destruct (Nat.ltb_spec (current_fork_index s) r); cbn; [done |].
    by assert (current_fork_index s = r) as -> by lia.
  - pose proof (wf_index s Hwf). rewrite u8_small, Nat2Z.id, Nat.ltb_irrefl by lia.
    destruct Hc as (p & Hp & Hi & Hmax). exists p. split_and!; [done | |].
    + left. destruct Hi as [| Hi]; [done |].
      pose proof (Hall _ _ Hp ltac:(lia)). lia.
    + intros j q Hq _. apply lookup_lt_Some in Hq as Hlt. eauto.
Qed.

Lemma advance_wf s h : wf s -> wf (advance s h).
Proof.
  intros Hwf. unfold advance. case_match eqn:E; [| done].
  destruct Hwf as [Hw Hne Hs Hp Hph Hi Hl Hv Ht]. split; try done. cbn.
  apply Nat.ltb_lt in E. unfold get_voted_fork_index in *.
  pose proof (voted_loop_spec s h (length (heights s)) ltac:(lia)) as Hr. cbv zeta in Hr.
  unfold accumulated in Hr. rewrite drop_all in Hr. cbn [foldr] in Hr.
  set (r := voted_loop _ _ _ _) in *.
  assert (zlen (heights s) <= 255) by (by apply wf_fork_count).
  unfold zlen in *. assert (r < length (heights s))%nat.
  { destruct Hr as [(_ & ? & _) | [-> _]]; lia. }
  rewrite u8_small, Nat2Z.id by lia. done.
Qed.

Lemma advance_window s h :
  heights (advance s h) = heights s /\ versions (advance s h) = versions s /\
  original_version (advance s h) = original_version s.
Proof. unfold advance. by case_match. Qed.

Lemma effective_version_range s v : wf s -> in_u 8 v -> in_u 8 (get_effective_version s v).
Proof.
  intros Hwf Hv. unfold get_effective_version. destruct (last (heights s)) as [p |] eqn:E; [| done].
  pose proof (wf_params s Hwf) as Hp. rewrite Forall_forall in Hp.
  assert (p ∈ heights s) as Hin by (by apply last_Some_elem_of). specialize (Hp p Hin).
  unfold in_u in *. split_cmp; lia.
Qed.

(** The version test at height [h] of the schedule. *)
Definition accepts (hs : list Params) (h : Z) (b : block_header) : bool :=
  (major_version b =? fork_version_at hs h) && (fork_version_at hs h <=? get_block_vote b).

Lemma do_check_scheduled s h b :
  scheduled (heights s) h (current_fork_index s) ->
  do_check s (major_version b) (get_block_vote b) = Ok (accepts (heights s) h b).
Proof.
  intros Hs. destruct (Hs) as (p & Hp & _). unfold do_check. rewrite Hp. cbn.
  unfold accepts. by rewrite (fork_version_scheduled _ _ _ _ Hs Hp).
Qed.

Lemma push_vote_wf s v vs lv :
  wf s -> in_u 8 v -> make_room (window_size s) (versions s) (last_versions s) = (vs, lv) ->
  wf (set_window (vs ++ [v]) (incr_votes v lv) s).
Proof.
  intros [Hw Hne Hs Hp Hph Hi Hl Hv Ht] Hr E. rewrite Ht in E.
  destruct (make_room_tally (window_size s) (versions s)) as (vs' & E' & [k Hk] & Hlt);
    [lia | done | lia |].
  rewrite E in E'. injection E' as -> ->.
  split; cbn [set_window window_size heights current_fork_index versions last_versions]; try done.
  - unfold zlen in *. rewrite length_app. cbn [length]. lia.
  - rewrite Hk, Forall_app in Hv. apply Forall_app. split; [by apply Hv | by apply Forall_singleton].
  - apply incr_votes_tally; [done | lia].
Qed.

(** A block the schedule accepts at [h] is recorded there, and the object moves
    to the schedule of [h + 1]. *)
Lemma add_accepted s db b h :
  wf s -> unconditional s -> scheduled (heights s) h (current_fork_index s) ->
  0 <= h < 2 ^ 63 -> accepts (heights s) h b = true -> in_u 8 (get_block_vote b) ->
  exists s', add s db b h = Ok (true, s', set_hard_fork_version db h (fork_version_at (heights s) h)) /\
    wf s' /\ heights s' = heights s /\ original_version s' = original_version s /\
    versions s' <> [] /\ scheduled (heights s) (h + 1) (current_fork_index s').
Proof.
  intros Hwf Hu Hsch Hh Hacc Hv. unfold add, add_versions.
  rewrite (do_check_scheduled s h b Hsch), Hacc. cbn [negb mbind outcome_bind].
  destruct (Hsch) as (p & Hp & _). rewrite Hp. simpl_bind.
  rewrite <- (fork_version_scheduled _ _ _ _ Hsch Hp).
  destruct (make_room _ _ _) as [vs lv] eqn:E.
  pose proof (push_vote_wf s _ vs lv Hwf (effective_version_range s _ Hwf Hv) E) as Hwf'.
  set (s1 := set_window _ _ s) in *. rewrite (u64_small (h + 1)) by lia.
  pose proof (advance_window s1 (h + 1)) as (Eh & Ev & Eo).
  exists (advance s1 (h + 1)). split_and!; [done | by apply advance_wf | by rewrite Eh | by rewrite Eo | |].
  - rewrite Ev. cbn. by destruct vs.
  - apply (advance_scheduled s1 h); [done | done | lia | done].
Qed.

Lemma follows_schedule_extend hs db b :
  follows_schedule hs db -> accepts hs (db_height db) b = true -> get_block_vote b < 2 ^ 8 ->
  follows_schedule hs (set_hard_fork_version
    (Chain_db (db_blocks db ++ [b]) (db_hf_versions db)) (db_height db)
    (fork_version_at hs (db_height db))).
Proof.
  intros Hf Hacc Hv h b'. cbn [set_hard_fork_version db_blocks db_hf_versions].
  unfold accepts in Hacc. apply andb_true_iff in Hacc as [Ha%Z.eqb_eq Hb%Z.leb_le].
  unfold znth. destruct (Z.ltb_spec h 0); [done |]. intros Hl.
  apply lookup_app_Some in Hl as [Hl | [Hge Hl]].
  - destruct (Hf h b') as (? & ? & Hh). { unfold znth. by destruct (Z.ltb_spec h 0); [lia |]. }
    split_and!; try done; try lia. apply lookup_lt_Some in Hl.
    rewrite lookup_insert_ne; [done |]. unfold db_height, zlen. lia.
  - apply list_lookup_singleton_Some in Hl as [Hz <-].
    assert (h = db_height db) as -> by (unfold db_height, zlen; lia).
    rewrite lookup_insert_eq. done.
Qed.

(** Appending a block: it is accepted exactly when the schedule accepts it. *)
Lemma append_block_synced s db b :
  synced s db -> db_height db < 2 ^ 63 - 1 -> in_u 8 (minor_version b) ->
  if accepts (heights s) (db_height db) b
  then exists s' db', append_block s db b = Ok (true, s', db') /\ synced s' db' /\
         heights s' = heights s /\ db_blocks db' = db_blocks db ++ [b]
  else append_block s db b = Ok (false, s, db).
Proof.
  intros [Hwf Hu Ho Hh Hsch Hwin Hf] Hlt Hv. unfold append_block, check.
  rewrite (do_check_scheduled s _ b Hsch). simpl_bind.
  destruct (accepts _ _ _) eqn:Hacc; cbn [negb]; [| done].
  assert (Hvote : in_u 8 (get_block_vote b)).
  { unfold get_block_vote, in_u in *. split_cmp; lia. }
  assert (0 <= db_height db) by (unfold db_height, zlen; lia).
  set (db1 := Chain_db (db_blocks db ++ [b]) _).
  destruct (add_accepted s db1 b (db_height db) Hwf Hu Hsch ltac:(lia) Hacc Hvote)
    as (s' & E & Hwf' & Eh & Eo & Hne & Hsch').
  rewrite E. cbn. eexists s', _. split_and!; [done | | done | done].
  assert (Hdh : db_height (set_hard_fork_version db1 (db_height db)
     (fork_version_at (heights s) (db_height db))) = db_height db + 1).
  { unfold db_height, zlen. cbn. rewrite length_app. cbn. lia. }
  split; rewrite ?Eh, ?Eo, ?Hdh; try done; [unfold unconditional; by rewrite Eh | lia |].
  apply follows_schedule_extend; [done | done |]. unfold in_u in Hvote. lia.
Qed.

Lemma fork_version_range s h : wf s -> in_u 8 (fork_version_at (heights s) h).
Proof.
  intros Hwf. destruct (scheduled_exists (heights s) h (wf_nonempty s Hwf)) as [i Hi].
  destruct (Hi) as (p & Hp & _). rewrite (fork_version_scheduled _ _ _ _ Hi Hp).
  pose proof (wf_params s Hwf) as Hps. rewrite Forall_forall in Hps.
  specialize (Hps p ltac:(by eapply list_elem_of_lookup_2)). unfold in_u. lia.
Qed.

Lemma follows_schedule_prefix hs bs b t :
  follows_schedule hs (Chain_db (bs ++ [b]) t) -> follows_schedule hs (Chain_db bs t).
Proof.
  intros Hf h b' Hl. apply (Hf h b'). unfold znth in *. cbn in *.
  destruct (h <? 0); [done |]. by apply lookup_app_l_Some.
Qed.

(** Replacing the last vote by one at the front keeps the counters right. *)
Lemma rotate_vote_wf s vs v w :
  wf s -> versions s = vs ++ [v] -> in_u 8 w ->
  wf (set_window (w :: vs) (incr_votes w (decr_votes v (last_versions s))) s).
Proof.
  intros [Hw Hne Hs Hp Hph Hi Hl Hv Ht] E Hr. rewrite E in Hl, Hv, Ht.
  apply Forall_app in Hv as [Hvs Hv]. rewrite Forall_singleton in Hv.
  assert (Hlen : zlen vs + 1 <= window_size s).
  { unfold zlen in *. rewrite length_app in Hl. cbn in Hl. lia. }
  split; cbn [set_window window_size heights current_fork_index versions last_versions]; try done.
  - unfold zlen in *. cbn [length]. lia.
  - by constructor.
  - rewrite Ht, (tally_perm (vs ++ [v]) (v :: vs)) by (symmetry; apply Permutation_cons_append).
    rewrite decr_votes_tally, incr_votes_tally by (done || lia).
    apply tally_perm. symmetry. apply Permutation_cons_append.
Qed.

Lemma set_index_wf s i : wf s -> (i < length (heights s))%nat -> wf (set_index i s).
Proof. intros [] Hi. by split. Qed.

Lemma popped_loop_done fuel s db height n :
  height < n -> popped_loop fuel s db height n = Ok s.
Proof. intros H. apply Z.ltb_lt in H. destruct fuel; cbn [popped_loop]; by rewrite H. Qed.

Lemma pop_block_synced s db :
  synced s db -> 1 < db_height db ->
  exists s' db', pop_block s db = Ok (s', db') /\ synced s' db' /\
    heights s' = heights s /\ db_blocks db' = removelast (db_blocks db).
Proof.
  intros [Hwf Hu Ho Hh Hsch Hwin Hf] Hlt.
  destruct db as [blocks table]. unfold db_height in *. cbn [db_blocks] in *.
  destruct (exists_last (l := blocks)) as (bs & b & ->). { intros ->. unfold zlen in Hlt. cbn in Hlt. lia. }
  assert (Hlen : zlen (bs ++ [b]) = zlen bs + 1).
  { unfold zlen. rewrite length_app. cbn [length]. lia. }
  pose proof (zlen_nonneg bs). rewrite Hlen in *. destruct (exists_last (Hwin ltac:(lia))) as (vs & v & Ev).
  destruct (Hf (zlen bs) b) as (_ & _ & Htab).
  { unfold znth, zlen. cbn [db_blocks]. destruct (Z.ltb_spec (Z.of_nat (length bs)) 0); [lia |].
    rewrite Nat2Z.id, lookup_app_r, Nat.sub_diag by lia. done. }
  cbn [db_hf_versions] in Htab. set (w := fork_version_at (heights s) (zlen bs)) in *.
  pose proof (fork_version_range s (zlen bs) Hwf) as Hw. fold w in Hw.
  pose proof (rotate_vote_wf s vs v w Hwf Ev Hw) as Hwf'.
  set (s1 := set_window _ _ s) in Hwf'.
  destruct (popped_index_scheduled (heights s) (zlen bs) (length (heights s) - 1)) as (r & Er & Hr).
  { pose proof (wf_index s Hwf). lia. }
  { intros j q Hq. apply lookup_lt_Some in Hq. lia. }
  exists (set_index r s1), (Chain_db bs table).
  assert (E : pop_block s (Chain_db (bs ++ [b]) table) = Ok (set_index r s1, Chain_db bs table)).
  { unfold pop_block, on_block_popped, db_height. cbn [db_blocks db_hf_versions].
    rewrite Hlen, removelast_last. destruct (Z.leb_spec (zlen bs + 1) 1); [lia |].
    change (1 <=? 0) with false. cbv iota. rewrite (u64_small (zlen bs + 1)) by lia.
    rewrite (u64_small (zlen bs + 1 - 1)) by lia. rewrite Z.add_simpl_r.
    cbn [popped_loop].
    rewrite Z.ltb_irrefl, Ev, last_snoc, removelast_last. simpl_bind.
    unfold get_hard_fork_version. cbn [db_hf_versions]. rewrite Htab.
    simpl_bind. fold s1. rewrite (u64_small (zlen bs - 1)) by lia.
    rewrite popped_loop_done by lia. simpl_bind.
    change (heights s1) with (heights s). destruct (heights s) as [| p hs] eqn:Ehs.
    { by destruct (wf_nonempty s Hwf). }
    cbn [length] in Er. rewrite Nat.sub_succ, Nat.sub_0_r in Er. rewrite Er. done. }
  split_and!; [exact E | | done | cbn; by rewrite removelast_last].
  split; cbn; try done; [| unfold db_height; cbn; lia | by eapply follows_schedule_prefix].
  apply set_index_wf; [done | by eapply scheduled_lt].
Qed.

(** Recounting the votes of [bs] into a window with room for them. *)
Lemma count_votes_wf s bs :
  wf s -> zlen (versions s) + zlen bs <= window_size s ->
  Forall (fun b => in_u 8 (get_block_vote b)) bs ->
  exists vs, count_votes s bs = set_window vs (tally vs) s /\
    wf (set_window vs (tally vs) s) /\ zlen vs = zlen (versions s) + zlen bs.
Proof.
  revert s. induction bs as [| b bs IH]; intros s Hwf Hroom Hall.
  - exists (versions s). unfold zlen at 3. cbn [length count_votes]. rewrite Z.add_0_r.
    rewrite <- (wf_tally s Hwf). by destruct s.
  - apply Forall_cons in Hall as [Hb Hall]. rewrite zlen_cons in Hroom. cbn [count_votes].
    set (v := get_effective_version s (get_block_vote b)).
    assert (Hv : in_u 8 v) by (by apply effective_version_range).
    set (s1 := set_window _ _ s). pose proof (zlen_nonneg bs).
    assert (Hwf1 : wf s1).
    { destruct Hwf as [Hw Hne Hs Hp Hph Hi Hl Hvs Ht]. split; cbn; try done.
      - rewrite zlen_app, zlen_cons. unfold zlen at 2. cbn [length]. lia.
      - apply Forall_app. split; [done | by apply Forall_singleton].
      - rewrite Ht. apply incr_votes_tally; [done | lia]. }
    destruct (IH s1 Hwf1) as (vs & E & Hwf2 & Hlen); [| done |].
    { cbn. rewrite zlen_app, zlen_cons. unfold zlen at 2. cbn [length]. lia. }
    exists vs. split_and!; [exact E | exact Hwf2 |]. rewrite Hlen. cbn.
    rewrite zlen_app, !zlen_cons. unfold zlen at 2. cbn [length]. lia.
Qed.

Lemma empty_window_wf s : wf s -> wf (set_window [] no_votes s).
Proof.
  intros [Hw Hne Hs Hp Hph Hi Hl Hv Ht]. split; cbn; try done.
  unfold zlen. cbn [length]. lia.
Qed.

Lemma recount_wf s bs :
  wf s -> zlen bs <= window_size s -> Forall (fun b => in_u 8 (get_block_vote b)) bs ->
  exists vs, count_votes (set_window [] no_votes s) bs = set_window vs (tally vs) s /\
    wf (set_window vs (tally vs) s) /\ zlen vs = zlen bs.
Proof.
  intros Hwf Hl Hall.
  destruct (count_votes_wf (set_window [] no_votes s) bs) as (vs & E & Hwf' & Hlen);
    [by apply empty_window_wf | done | done |].
  exists vs. by split_and!.
Qed.

(** The recorded version of the block at [h] is the scheduled one. *)
Lemma follows_schedule_recorded s db h :
  wf s -> follows_schedule (heights s) db -> 0 <= h < db_height db ->
  exists i p, scheduled (heights s) h i /\ heights s !! i = Some p /\
    get_hard_fork_version db h = Ok (p_version p).
Proof.
  intros Hwf Hf Hh. destruct (znth_is_Some (db_blocks db) h Hh) as [b Hb].
  destruct (Hf h b Hb) as (_ & _ & Ht).
  destruct (scheduled_exists (heights s) h (wf_nonempty s Hwf)) as [i Hi].
  destruct (Hi) as (p & Hp & _). exists i, p. split_and!; [done | done |].
  unfold get_hard_fork_version. by rewrite Ht, (fork_version_scheduled _ _ _ _ Hi Hp).
Qed.

Lemma follows_schedule_votes s db n :
  wf s -> follows_schedule (heights s) db ->
  Forall (fun b => in_u 8 (get_block_vote b)) (drop n (db_blocks db)).
Proof.
  intros Hwf Hf. apply Forall_forall. intros b [i Hi]%list_elem_of_lookup.
  rewrite lookup_drop in Hi. destruct (Hf (Z.of_nat (n + i)) b) as (_ & Hr & _).
  { unfold znth. destruct (Z.ltb_spec (Z.of_nat (n + i)) 0); [lia |]. by rewrite Nat2Z.id. }
  pose proof (fork_version_range s (Z.of_nat (n + i)) Hwf) as Hv. unfold in_u in *. lia.
Qed.

Lemma drop_window {A} (l : list A) h w :
  0 <= h < zlen l -> zlen l - h <= w -> zlen (drop (Z.to_nat h) l) <= w.
Proof. unfold zlen. intros. rewrite length_drop. lia. Qed.

(** Rescanning a window of a scheduled chain puts the object back on schedule. *)
Lemma rescan_synced s db height :
  wf s -> unconditional s -> original_version s = fork_version_at (heights s) 0 ->
  db_height db < 2 ^ 63 -> follows_schedule (heights s) db ->
  0 <= height < db_height db -> db_height db - height <= window_size s ->
  exists s', rescan_from_block_height s db height = Ok (true, s') /\ synced s' db /\
    heights s' = heights s.
Proof.
  intros Hwf Hu Ho Hdb Hf Hh Hroom. unfold rescan_from_block_height.
  destruct (Z.leb_spec (db_height db) height); [lia |].
  destruct (recount_wf s (drop (Z.to_nat height) (db_blocks db))) as (vs & E & Hwf' & Hlen);
    [done | by apply drop_window | by eapply follows_schedule_votes |].
  rewrite E. rewrite (u64_small (db_height db - 1)) by lia.
  destruct (follows_schedule_recorded s db (db_height db - 1) Hwf Hf ltac:(lia))
    as (i & p & Hi & Hp & ->). cbn [mbind outcome_bind set_window heights].
  rewrite (find_fork_sorted (heights s) 0 i p (wf_sorted s Hwf) Hp). cbn [Nat.add].
  set (s1 := set_index i _).
  assert (Hwf1 : wf s1) by (apply set_index_wf; [done | by eapply scheduled_lt]).
  destruct (advance_window s1 (db_height db)) as (Eh & Ev & Eo).
  exists (advance s1 (db_height db)). split_and!; [done | | by rewrite Eh].
  split; rewrite ?Eh, ?Eo; try done.
  - by apply advance_wf.
  - unfold unconditional. by rewrite Eh.
  - apply (advance_scheduled s1 (db_height db - 1)); [done | done | lia | done].
  - rewrite Ev. cbn. intros _ ->. unfold zlen in Hlen at 1. cbn in Hlen.
    unfold db_height, zlen in *. rewrite length_drop in Hlen. lia.
Qed.

(** ** Start-up *)

Lemma scheduled_start s h :
  wf s -> h <= 0 -> current_fork_index s = O -> scheduled (heights s) h (current_fork_index s).
Proof.
  intros Hwf Hh ->. pose proof (wf_sorted s Hwf) as Hs. pose proof (wf_heights s Hwf) as Hall.
  destruct (heights s) as [| p hs] eqn:E; [by destruct (wf_nonempty s Hwf) |].
  exists p. split_and!; [done | by left |]. intros [| j] q Hq Hj; [lia |]. cbn in Hq.
  apply StronglySorted_inv in Hs as [_ Hlt]. rewrite Forall_forall in Hlt.
  apply Forall_cons in Hall as [Hp _].
  destruct (Hlt q) as [_ ?]; [by eapply list_elem_of_lookup_2 |]. lia.
Qed.

(** [init] clears the window, so only the table and the window size matter. *)
Definition configured (s : HardFork) : Prop :=
  wf (set_index 0 (set_window [] no_votes s)) /\ unconditional s /\
  original_version s = fork_version_at (heights s) 0.

Lemma init_synced s db :
  configured s -> db_height db < 2 ^ 63 -> follows_schedule (heights s) db ->
  exists s', init s db = Ok s' /\ synced s' db /\ heights s' = heights s.
Proof.
  intros (Hwf & Hu & Ho) Hdb Hf. unfold init.
  assert (Hm : match heights s with
               | [] => set_heights [mkParams (original_version s) 0 0] s
               | _ => s end = s).
  { pose proof (wf_nonempty _ Hwf) as Hne. cbn in Hne. by destruct (heights s). }
  rewrite Hm. clear Hm. set (s1 := set_index 0 _) in *.
  pose proof (wf_window s1 Hwf) as Hw. change (window_size s1) with (window_size s) in *.
  pose proof (zlen_nonneg (db_blocks db)) as Hz. fold (db_height db) in Hz.
  destruct (decide (db_height db = 0)) as [Hz0 | Hnz].
  - rewrite Hz0. destruct (Z.ltb_spec (window_size s) 0); [lia |].
    unfold rescan_from_chain_height, rescan_from_block_height. rewrite Hz0. cbn.
    exists s1. split_and!; [done | | done]. split; try done; rewrite ?Hz0; try lia.
    by apply scheduled_start.
  - set (h := if _ <? _ then _ else _).
    assert (Hh : h = Z.max 1 (db_height db - window_size s + 1)).
    { subst h. rewrite (u64_small (window_size s - 1)) by lia.
      destruct (Z.ltb_spec (window_size s) (db_height db)); [rewrite u64_small by lia |]; lia. }
    unfold rescan_from_chain_height. destruct (Z.eqb_spec h 0); [lia |].
    rewrite (u64_small (h - 1)) by lia.
    destruct (rescan_synced s1 db (h - 1)) as (s' & E & Hs' & Eh); try done; cbn; try lia.
    exists s'. by rewrite E.
Qed.

(** ** Reorganisation *)

Lemma add_all_synced s db bs h :
  wf s -> unconditional s -> scheduled (heights s) h (current_fork_index s) -> versions s <> [] ->
  follows_schedule (heights s) db -> 0 <= h -> h + zlen bs = db_height db -> db_height db < 2 ^ 63 ->
  bs = drop (Z.to_nat h) (db_blocks db) ->
  exists s', add_all s db bs h = Ok (s', db) /\ wf s' /\ heights s' = heights s /\
    original_version s' = original_version s /\ versions s' <> [] /\
    scheduled (heights s) (db_height db) (current_fork_index s').
Proof.
  revert s h. induction bs as [| b bs IH]; intros s h Hwf Hu Hsch Hne Hf Hh Hlen Hdb Hbs; cbn [add_all].
  - unfold zlen in Hlen. cbn in Hlen. rewrite Z.add_0_r in Hlen. subst h. exists s. by split_and!.
  - rewrite zlen_cons in Hlen. pose proof (zlen_nonneg bs).
    assert (Hb : db_blocks db !! Z.to_nat h = Some b).
    { rewrite <- (Nat.add_0_r (Z.to_nat h)), <- lookup_drop, <- Hbs. done. }
    destruct (Hf h b) as (Hmaj & Hvote & Htab).
    { unfold znth. by destruct (Z.ltb_spec h 0); [lia |]. }
    pose proof (fork_version_range s h Hwf) as Hr. unfold in_u in Hr.
    destruct (add_accepted s db b h) as (s' & E & Hwf' & Eh & Eo & Hne' & Hsch'); try done; try lia.
    { unfold accepts. rewrite andb_true_iff, Z.eqb_eq, Z.leb_le. lia. }
    { unfold in_u. lia. }
    assert (Hsame : set_hard_fork_version db h (fork_version_at (heights s) h) = db).
    { destruct db as [l t]. unfold set_hard_fork_version. cbn in *. by rewrite insert_id. }
    rewrite E, Hsame. simpl_bind. rewrite (u64_small (h + 1)) by lia.
    rewrite <- Eh, <- Eo in *. apply IH; try done; try lia.
    + unfold unconditional in *. by rewrite Eh.
    + replace (Z.to_nat (h + 1)) with (S (Z.to_nat h)) by lia.
      rewrite (drop_S _ _ _ Hb) in Hbs. by injection Hbs.
Qed.

Lemma start_version_scheduled s db height :
  wf s -> original_version s = fork_version_at (heights s) 0 ->
  follows_schedule (heights s) db -> 0 <= height < db_height db ->
  exists i p, scheduled (heights s) height i /\ heights s !! i = Some p /\
    (if height =? 0 then Ok (original_version s) else get_hard_fork_version db height)
    = Ok (p_version p).
Proof.
  intros Hwf Ho Hf Hh.
  destruct (follows_schedule_recorded s db height Hwf Hf Hh) as (i & p & Hi & Hp & E).
  exists i, p. split_and!; [done | done |]. destruct (Z.eqb_spec height 0) as [-> |]; [| done].
  by rewrite Ho, (fork_version_scheduled _ _ _ _ Hi Hp).
Qed.

Lemma reorganize_synced s db height :
  synced s db -> 0 <= height < db_height db ->
  exists s', reorganize_from_block_height s db height = Ok (true, s', db) /\ synced s' db /\
    heights s' = heights s.
Proof.
  intros [Hwf Hu Ho Hdb Hsch Hwin Hf] Hh. unfold reorganize_from_block_height.
  destruct (Z.leb_spec (db_height db) height); [lia |].
  pose proof (wf_window s Hwf) as Hw. cbn [set_window window_size original_version heights
    current_fork_index]. rewrite (u64_small (window_size s - 1)) by lia.
  set (rh := if _ <=? height then _ else _).
  assert (Hrh : rh = Z.max 0 (height - (window_size s - 1))).
  { subst rh. destruct (Z.leb_spec (window_size s - 1) height); [rewrite u64_small by lia |]; lia. }
  clearbody rh. subst rh. set (rh := Z.max _ _).
  destruct (start_version_scheduled s db height Hwf Ho Hf Hh) as (i & p & Hi & Hp & ->).
  simpl_bind.
  pose proof (scheduled_mono _ _ _ _ _ (Z.lt_le_incl _ _ (proj2 Hh)) Hi Hsch) as Hle.
  rewrite (lower_index_sorted (heights s) _ i p (wf_sorted s Hwf) Hp) by
    (split; [done | by apply wf_index]). simpl_bind.
  change (set_index i (set_window [] no_votes s)) with (set_window [] no_votes (set_index i s)).
  assert (Hwfi : wf (set_index i s)) by (apply set_index_wf; [done | by eapply scheduled_lt]).
  unfold db_height in *. set (win := take _ (drop (Z.to_nat rh) _)).
  assert (Hlen : zlen win = height - rh + 1).
  { unfold win, zlen in *. rewrite length_take, length_drop. lia. }
  destruct (recount_wf (set_index i s) win) as (vs & E & Hwf' & Hvs);
    [done | cbn; lia | by apply Forall_take; eapply follows_schedule_votes |].
  rewrite E. rewrite (u64_small (height + 1)) by lia. set (s1 := set_window vs _ _) in *.
  destruct (advance_window s1 (height + 1)) as (Eh & Ev & Eo). set (s2 := advance s1 _) in *.
  destruct (add_all_synced s2 db (drop (Z.to_nat (height + 1)) (db_blocks db)) (height + 1))
    as (s' & E' & Hwf'' & Eh' & Eo' & Hne' & Hsch'); try done; try lia.
  - by apply advance_wf.
  - unfold unconditional. by rewrite Eh.
  - rewrite Eh. apply (advance_scheduled s1 height); [done | done | lia | done].
  - rewrite Ev. cbn. intros ->. unfold zlen in Hvs at 1. cbn in Hvs. lia.
  - by rewrite Eh.
  - unfold db_height, zlen in *. rewrite length_drop. lia.
  - exists s'. rewrite E'. cbn. split_and!; [done | | by rewrite Eh', Eh].
    rewrite Eh in *. split; rewrite ?Eh', ?Eo', ?Eo; try done. unfold unconditional.
    by rewrite Eh'.
Qed.

(** ** The networks' tables *)

Fixpoint increasing (hs : list Params) : bool :=
  match hs with
  | p :: ((q :: _) as rest) =>
      (p_version p <? p_version q) && (p_height p <? p_height q) && increasing rest
  | _ => true
  end.

Lemma increasing_sorted hs : increasing hs = true -> StronglySorted fork_lt hs.
Proof.
  intros Hi. apply Sorted_StronglySorted.
  { intros p q r [? ?] [? ?]. unfold fork_lt. lia. }
  induction hs as [| p [| q hs] IH]; [constructor | repeat constructor |].
  change (increasing (p :: q :: hs)) with
    ((p_version p <? p_version q) && (p_height p <? p_height q) && increasing (q :: hs)) in Hi.
  apply andb_true_iff in Hi as [[H1 H2]%andb_true_iff Hi].
  constructor; [by apply IH |]. constructor. unfold fork_lt. lia.
Qed.

Lemma configured_static w d o t hs vs lv i :
  0 < w < 2 ^ 32 - 1 -> hs <> [] -> increasing hs = true ->
  Forall (fun p => 0 < p_version p < 2 ^ 8) hs -> Forall (fun p => 0 <= p_height p) hs ->
  Forall (fun p => p_threshold p = 0) hs -> o = fork_version_at hs 0 ->
  configured (mkHardFork w d o t hs vs lv i).
Proof.
  intros. split_and!; [| done | done].
  split; cbn; try done; [by apply increasing_sorted | | unfold zlen; cbn; lia].
  destruct hs; [done | cbn; lia].
Qed.

(** Every fork of a network's table is accepted by [add_fork]. *)
Lemma configured_table nettype uninit s :
  nettype <> FAKECHAIN -> new_HardFork 1 0 10080 0 uninit = Ok s ->
  configured (add_forks (hard_fork_table nettype) s).
Proof.
  intros Hn E. injection E as <-.
  assert (add_forks (hard_fork_table nettype) (mkHardFork 10080 0 1 0 [] [] uninit 0) =
    mkHardFork 10080 0 1 0 (map (fun f => mkParams (hf_version f) (hf_height f) 0)
      (hard_fork_table nettype)) [] uninit 0) as -> by (by destruct nettype).
  apply configured_static; [lia | by destruct nettype; try done | by destruct nettype | | | |
    by destruct nettype]; destruct nettype; by_decide.
Qed.

Lemma blockchain_init_synced nettype uninit db :
  nettype <> FAKECHAIN -> db_height db < 2 ^ 63 ->
  follows_schedule (map (fun f => mkParams (hf_version f) (hf_height f) 0)
    (hard_fork_table nettype)) db ->
  exists s, blockchain_init_hardfork None nettype uninit db = Ok s /\ synced s db /\
    heights s = map (fun f => mkParams (hf_version f) (hf_height f) 0) (hard_fork_table nettype).
Proof.
  intros Hn Hdb Hf. unfold blockchain_init_hardfork.
  destruct (new_HardFork 1 0 10080 0 uninit) as [s0 | |] eqn:E; [| done | done].
  simpl_bind. rewrite decide_False by done. simpl_bind. pose proof (configured_table nettype uninit s0 Hn E) as Hc.
  assert (Eh : heights (add_forks (hard_fork_table nettype) s0) =
    map (fun f => mkParams (hf_version f) (hf_height f) 0) (hard_fork_table nettype)).
  { injection E as <-. by destruct nettype. }
  destruct (init_synced _ db Hc Hdb) as (s & E' & Hs & Eh'); [by rewrite Eh |].
  exists s. by rewrite Eh', Eh.
Qed.

(** ** Reading the schedule *)

Lemma get_current_version_synced s db :
  synced s db -> get_current_version s = Ok (fork_version_at (heights s) (db_height db)).
Proof.
  intros Hs. pose proof (synced_index s db Hs) as Hi. destruct (Hi) as (p & Hp & _).
  unfold get_current_version. rewrite Hp. cbn. by rewrite (fork_version_scheduled _ _ _ _ Hi Hp).
Qed.

Lemma ideal_loop_scheduled hs o h n p0 :
  head hs = Some p0 -> o = p_version p0 -> (n < length hs)%nat ->
  (forall j q, hs !! j = Some q -> (n < j)%nat -> h < p_height q) ->
  ideal_loop hs o h n = Ok (fork_version_at hs h).
Proof.
  intros Hp0 Ho. induction n as [| n IH]; intros Hn Hmax; cbn [ideal_loop].
  - destruct hs as [| p hs]; [done |]. injection Hp0 as <-. rewrite Ho. f_equal. symmetry.
    apply (fork_version_scheduled _ _ 0); [| done]. exists p. eauto.
  - destruct (lookup_lt_is_Some_2 hs (S n) Hn) as [p Hp]. rewrite Hp. cbn.
    destruct (Z.leb_spec (p_height p) h).
    + f_equal. symmetry. apply (fork_version_scheduled _ _ (S n)); [| done]. exists p. eauto.
    + apply IH; [lia |]. intros j q Hq Hj.
      destruct (decide (j = S n)) as [-> | Hne]; [by simplify_eq | eapply Hmax; eauto; lia].
Qed.

Lemma original_is_first s p :
  wf s -> original_version s = fork_version_at (heights s) 0 -> head (heights s) = Some p ->
  original_version s = p_version p.
Proof.
  intros Hwf -> Hp. assert (Hwf0 : wf (set_index 0 s)).
  { apply set_index_wf; [done |]. pose proof (wf_index s Hwf). lia. }
  apply (fork_version_scheduled _ _ 0).
  - by apply (scheduled_start (set_index 0 s)).
  - by destruct (heights s).
Qed.

Lemma get_ideal_version_at_synced s db h :
  synced s db -> get_ideal_version_at s h = Ok (fork_version_at (heights s) h).
Proof.
  intros [Hwf _ Ho _ _ _ _]. unfold get_ideal_version_at.
  destruct (heights s) as [| p hs] eqn:E; [by destruct (wf_nonempty s Hwf) |].
  apply (ideal_loop_scheduled _ _ _ _ p); [done | | cbn; lia |].
  - apply original_is_first; [done | by rewrite E | by rewrite E].
  - intros j q Hq. apply lookup_lt_Some in Hq. cbn in Hq. lia.
Qed.

Lemma voted_index_scheduled s h p :
  unconditional s -> head (heights s) = Some p -> p_height p <= h ->
  scheduled (heights s) h (get_voted_fork_index s h).
Proof.
  intros Hu Hp Hh. unfold get_voted_fork_index.
  destruct (voted_loop_unconditional s h (length (heights s)) 0 Hu ltac:(lia))
    as [(q & Hq & Hr & Hle & Hmax) | [_ Hall]].
  - exists q. split_and!; [done | by right |]. intros j q' Hq' Hj.
    eapply Hmax; eauto. apply lookup_lt_Some in Hq'. lia.
  - destruct (heights s) as [| p' hs] eqn:E; [done |]. injection Hp as ->.
    pose proof (Hall 0%nat p eq_refl ltac:(cbn; lia)). lia.
Qed.

Lemma earliest_loop_spec hs v h :
  StronglySorted fork_lt hs ->
  earliest_loop (reverse hs) v h =
  match filter (fun p => v <= p_version p) hs with p :: _ => p_height p | [] => h end.
Proof.
  intros Hs. revert h. induction hs as [| p hs IH] using rev_ind; intros h; [done |].
  rewrite reverse_snoc, filter_app. cbn [earliest_loop].
  assert (Hs' : StronglySorted fork_lt hs) by (by eapply StronglySorted_app_1_l).
  rewrite filter_cons, filter_nil. destruct (Z.leb_spec v (p_version p)).
  - rewrite (IH Hs'), decide_True by done. by destruct (filter _ hs).
  - rewrite decide_False by lia. rewrite app_nil_r.
    assert (filter (fun q => v <= p_version q) hs = []) as ->; [| done].
    apply elem_of_nil_inv. intros q [Hv Hq]%list_elem_of_filter.
    assert (fork_lt q p) as [? _]; [| lia].
    eapply (StronglySorted_app_1_elem_of fork_lt hs [p]); [done | done | by left].
Qed.

(** ** Main theorems *)

Lemma hf_step_synced st st' :
  hf_step st st' -> synced (fst st) (snd st) ->
  synced (fst st') (snd st') /\ heights (fst st') = heights (fst st).
Proof.
  intros Hstep Hs. destruct Hstep as [s db b s' db' Hlt _ Hv E | s db s' db' E
    | s db height r s' db' Hh E | s db s' E]; cbn [fst snd] in *.
  - pose proof (append_block_synced s db b Hs ltac:(lia) Hv) as H.
    destruct (accepts _ _ _); [| by rewrite H in E].
    destruct H as (s1 & db1 & E1 & ? & ? & _). rewrite E in E1. by simplify_eq.
  - destruct (decide (1 < db_height db)) as [H1 | H1].
    + destruct (pop_block_synced s db Hs H1) as (s1 & db1 & E1 & ? & ? & _).
      rewrite E in E1. by simplify_eq.
    + unfold pop_block in E. destruct (Z.leb_spec (db_height db) 1); [done | lia].
  - unfold reorganize_from_chain_height in E. destruct (Z.eqb_spec height 0); [by simplify_eq |].
    unfold in_u in Hh. rewrite (u64_small (height - 1)) in E by lia.
    destruct (decide (height - 1 < db_height db)) as [H1 | H1].
    + destruct (reorganize_synced s db (height - 1) Hs ltac:(lia)) as (s1 & E1 & ? & ?).
      rewrite E in E1. by simplify_eq.
    + unfold reorganize_from_block_height in E.
      destruct (Z.leb_spec (db_height db) (height - 1)); [by simplify_eq | lia].
  - destruct Hs as [Hwf Hu Ho Hdb _ _ Hf].
    destruct (init_synced s db) as (s1 & E1 & ? & ?); [| done | done | rewrite E in E1; by simplify_eq].
    split_and!; [| done | done]. apply set_index_wf; [by apply empty_window_wf |].
    cbn. pose proof (wf_index s Hwf). lia.
Qed.

Lemma hf_steps_synced st st' :
  rtc hf_step st st' -> synced (fst st) (snd st) ->
  synced (fst st') (snd st') /\ heights (fst st') = heights (fst st).
Proof.
  induction 1 as [st | st1 st2 st3 Hstep _ IH]; intros Hs; [done |].
  destruct (hf_step_synced st1 st2 Hstep Hs) as [Hs2 <-]. by apply IH.
Qed.

Lemma follows_schedule_empty hs : follows_schedule hs empty_db.
Proof. intros h b Hb. apply znth_Some in Hb. unfold zlen in Hb. cbn in Hb. lia. Qed.

Lemma reachable_invariant nettype st :
  reachable nettype st ->
  synced (fst st) (snd st) /\
  heights (fst st) = map (fun f => mkParams (hf_version f) (hf_height f) 0) (hard_fork_table nettype).
Proof.
  intros (uninit & s0 & E0 & Hsteps).
  destruct (blockchain_init_synced nettype uninit empty_db) as (s1 & E1 & Hs & Hh);
    [by intros -> | by vm_compute | apply follows_schedule_empty |].
  rewrite E0 in E1. injection E1 as <-.
  destruct (hf_steps_synced _ _ Hsteps Hs) as [? ->]. done.
Qed.

(** C2: in every state [Blockchain] can reach on a network (any sequence of
    appended blocks, popped blocks, reorganisations and re-initialisations from an
    empty database, without test options) the fork table is the network's, the
    vote counters are the counts of the window, the current fork is the scheduled
    one, and every stored block has the version the schedule gives for its
    height. *)
Theorem reachable_synced nettype s db :
  reachable nettype (s, db) ->
  synced s db /\
  heights s = map (fun f => mkParams (hf_version f) (hf_height f) 0) (hard_fork_table nettype).
Proof.
  apply (reachable_invariant nettype (s, db)).
Qed.

(** Appending a block never fails: the block is stored exactly when its
    major version is the scheduled one and its vote is at least that, and then
    the object is again in step with the chain; otherwise nothing changes. *)
Theorem append_block_exact s db b :
  synced s db -> db_height db < 2 ^ 63 - 1 -> in_u 8 (minor_version b) ->
  let v := fork_version_at (heights s) (db_height db) in
  if decide (major_version b = v /\ v <= get_block_vote b)
  then exists s' db', append_block s db b = Ok (true, s', db') /\ synced s' db' /\
         db_blocks db' = db_blocks db ++ [b]
  else append_block s db b = Ok (false, s, db).
Proof.
  intros Hs Hlt Hv v. pose proof (append_block_synced s db b Hs Hlt Hv) as H.
  unfold accepts in H. fold v in H. case_decide as Hd.
  - destruct Hd as [Hm%Z.eqb_eq Hle%Z.leb_le]. rewrite Hm, Hle in H.
    destruct H as (s' & db' & ? & ? & _ & ?). eauto.
  - destruct (Z.eqb_spec (major_version b) v), (Z.leb_spec v (get_block_vote b)); try done.
    destruct Hd. done.
Qed.

(** Popping any block but the genesis block and reorganising from any
    height of the chain return normally (no exception, no access out of
    range), leave the object in step with the chain, and do not change the
    recorded fork versions of the blocks that stay. *)
Theorem pop_and_reorganize_total s db height :
  synced s db -> 0 <= height < db_height db ->
  (1 < db_height db -> exists s' db', pop_block s db = Ok (s', db') /\ synced s' db' /\
     db_blocks db' = removelast (db_blocks db)) /\
  (exists s', reorganize_from_block_height s db height = Ok (true, s', db) /\ synced s' db).
Proof.
  intros Hs Hh. split.
  - intros H1. destruct (pop_block_synced s db Hs H1) as (s' & db' & ? & ? & _ & ?). eauto.
  - destruct (reorganize_synced s db height Hs Hh) as (s' & ? & ? & _). eauto.
Qed.

(** The fork chosen by voting is the last one whose height has been
    reached and for which the threshold share of the window voted for it or for
    a later fork of the table; the current fork when there is none. *)
Theorem get_voted_fork_index_spec s h :
  wf s -> Forall (fun p => 0 <= p_threshold p <= 100) (heights s) ->
  let r := get_voted_fork_index s h in
  let enough n := exists p, heights s !! n = Some p /\ p_height p <= h /\
    window_size s * p_threshold p <= 100 * votes_since s n in
  (enough r /\ forall j, (r < j)%nat -> ~ enough j) \/
  (r = current_fork_index s /\ forall j, ~ enough j).
Proof.
  intros Hwf Ht r enough.
  assert (He : forall n, voted_in s h n <-> enough n) by (intros; by apply voted_in_share).
  pose proof (voted_loop_spec s h (length (heights s)) ltac:(lia)) as H. cbv zeta in H.
  assert (accumulated s (length (heights s)) = 0) as E by (unfold accumulated; by rewrite drop_all).
  rewrite E in H. fold (get_voted_fork_index s h) in H. fold r in H.
  assert (Hlt : forall j, enough j -> (j < length (heights s))%nat).
  { intros j (p & Hp & _). by eapply lookup_lt_Some. }
  destruct H as [(Hr & _ & Hmax) | [Hr Hmax]]; [left | right]; (split; [by rewrite <- ?He |]).
  - intros j Hj Hen. eapply Hmax; [split; [exact Hj | by apply Hlt] | by apply He].
  - intros j Hen. eapply Hmax; [by apply Hlt | by apply He].
Qed.

(** On a chain in step, the version a template is built with and the
    version the check at a height requires are both the scheduled one: the
    current version is that of the next block, [get_ideal_version(height)] that
    of any height, and [check_for_height] accepts exactly the blocks of that
    version from the first fork's height on. *)
Theorem versions_agree s db h b :
  synced s db ->
  get_current_version s = Ok (fork_version_at (heights s) (db_height db)) /\
  get_ideal_version_at s h = Ok (fork_version_at (heights s) h) /\
  (from_option p_height 0 (head (heights s)) <= h ->
   check_for_height s b h = Ok (accepts (heights s) h b)).
Proof.
  intros Hs. split_and!; [by apply get_current_version_synced | by eapply get_ideal_version_at_synced |].
  intros Hh. destruct (head (heights s)) as [p |] eqn:E.
  - pose proof (voted_index_scheduled s h p (synced_unconditional s db Hs) E Hh) as Hi.
    unfold check_for_height, do_check_for_height. destruct (Hi) as (q & Hq & _).
    rewrite Hq. cbn. unfold accepts. by rewrite (fork_version_scheduled _ _ _ _ Hi Hq).
  - pose proof (wf_nonempty s (synced_wf s db Hs)). by destruct (heights s).
Qed.

(** [get_earliest_ideal_height_for_version] is the height of the first
    fork of at least that version, and the maximal height when there is none. *)
Theorem earliest_height_exact s v :
  wf s ->
  get_earliest_ideal_height_for_version s v =
  match filter (fun p => v <= p_version p) (heights s) with
  | p :: _ => p_height p
  | [] => UINT64_MAX
  end.
Proof. intros Hwf. apply earliest_loop_spec, wf_sorted, Hwf. Qed.

(** ** Instances *)

(** A main network chain of two blocks (the second fork starts at height 2). *)
Definition example0 : HardFork := Eval vm_compute in
  match blockchain_init_hardfork None MAINNET [] empty_db with
  | Ok s => s
  | _ => mkHardFork 1 0 1 0 [] [] [] 0
  end.

Definition append_or_stay (s : HardFork) (db : chain_db) (b : block_header) : HardFork * chain_db :=
  match append_block s db b with Ok (_, s, db) => (s, db) | _ => (s, db) end.

Definition example1 : HardFork * chain_db := Eval vm_compute in
  append_or_stay example0 empty_db (Block_header 1 0).
Definition example2 : HardFork * chain_db := Eval vm_compute in
  append_or_stay (fst example1) (snd example1) (Block_header 1 1).
Definition example_hf : HardFork := fst example2.
Definition example_db : chain_db := snd example2.

Lemma example_reachable : reachable MAINNET (example_hf, example_db).
Proof.
  exists [], example0. split; [vm_compute; reflexivity |].
  apply (rtc_l _ _ example1).
  { eapply (step_append _ _ (Block_header 1 0) (fst example1) (snd example1));
      [by_decide.. | vm_compute; reflexivity]. }
  apply rtc_once. eapply (step_append _ _ (Block_header 1 1)); [by_decide.. | vm_compute; reflexivity].
Qed.

Lemma example_synced : synced example_hf example_db.
Proof. apply (reachable_invariant MAINNET (example_hf, example_db)), example_reachable. Qed.

Lemma reachable_synced_witness : synced example_hf example_db /\ db_height example_db = 2.
Proof. split; [apply (reachable_synced MAINNET), example_reachable | vm_compute; reflexivity]. Defined.

Lemma append_block_exact_witness :
  exists s' db', append_block example_hf example_db (Block_header 2 2) = Ok (true, s', db') /\
    synced s' db'.
Proof.
  pose proof (append_block_exact example_hf example_db (Block_header 2 2) example_synced
    ltac:(by_decide) ltac:(by_decide)) as H. cbv zeta in H.
  rewrite decide_True in H by (by_decide). destruct H as (s' & db' & ? & ? & _). eauto.
Defined.

Lemma pop_and_reorganize_total_witness :
  (exists s' db', pop_block example_hf example_db = Ok (s', db') /\ synced s' db') /\
  (exists s', reorganize_from_block_height example_hf example_db 0 = Ok (true, s', example_db)
     /\ synced s' example_db).
Proof.
  destruct (pop_and_reorganize_total example_hf example_db 0 example_synced ltac:(by_decide))
    as [Hp Hr]. split; [| exact Hr].
  destruct Hp as (s' & db' & ? & ? & _); [by_decide | eauto].
Defined.

(** A table of three forks in which the last one waits for half of a window of
    four votes. *)
Definition example_vote : HardFork :=
  mkHardFork 4 0 1 0 [mkParams 1 0 0; mkParams 2 10 0; mkParams 3 20 50] [2; 2; 3; 3]
    (tally [2; 2; 3; 3]) 1.

Lemma example_vote_wf : wf example_vote.
Proof.
  split; try (by_decide || done); by apply increasing_sorted.
Qed.

Lemma get_voted_fork_index_spec_witness :
  get_voted_fork_index example_vote 20 = 2%nat /\
  ((exists p, heights example_vote !! get_voted_fork_index example_vote 20 = Some p) \/
   get_voted_fork_index example_vote 20 = current_fork_index example_vote).
Proof.
  split; [vm_compute; reflexivity |].
  destruct (get_voted_fork_index_spec example_vote 20 example_vote_wf ltac:(by_decide))
    as [[(p & Hp & _) _] | [Hr _]]; [left; exists p; exact Hp | right; exact Hr].
Defined.

Lemma versions_agree_witness :
  get_current_version example_hf = Ok 2 /\ get_ideal_version_at example_hf 4480000 = Ok 14.
Proof.
  destruct (versions_agree example_hf example_db 4480000 (Block_header 14 14) example_synced)
    as (-> & -> & _). split; vm_compute; reflexivity.
Defined.

Lemma earliest_height_exact_witness :
  get_earliest_ideal_height_for_version example_hf 12 = 930000.
Proof.
  rewrite (earliest_height_exact example_hf 12 (synced_wf _ _ example_synced)).
  vm_compute; reflexivity.
Defined.

(** ** The fork table handed out to callers *)

(** [heights.resize(n)] followed by [push_back]: the table follows as many
    value-initialised entries.
    Source: src/src/cryptonote_core/blockchain.cpp:4966-5012 (Blockchain::get_hard_fork_heights) *)
Definition get_hard_fork_heights (nettype : network_type) : list hard_fork :=
  let heights forks := replicate (length forks) (Hard_fork 0 0) ++ forks in
  match nettype with
  | MAINNET => heights hard_forks
  | TESTNET => heights testnet_hard_forks
  | STAGENET => heights stagenet_hard_forks
  | _ => []
  end.

Lemma hard_fork_heights_padded :
  length (get_hard_fork_heights MAINNET) = (2 * length hard_forks)%nat
  /\ head (get_hard_fork_heights MAINNET) = Some (Hard_fork 0 0).
Proof. split; reflexivity. Qed.
