(* ===== verification/StdMap.v ===== *)
(** * Ordered maps: [std::map<uint64_t, T>]

    A map with integer keys as the list of its entries in iteration order. The
    components that only look keys up use [gmap]; this representation is for the
    code that relies on the order ([rbegin], [upper_bound], iteration). *)
From S2P Require Import Prelude.

Open Scope Z_scope.

Abbreviation ordered_map A := (list (Z * A)).

Section Map.
Context {A : Type}.

(** Keys are strictly increasing. *)
Definition ordered (m : ordered_map A) : Prop := StronglySorted Z.lt m.*1.

(** [m.find(k)], with [None] for [end()]. *)
Fixpoint find (k : Z) (m : ordered_map A) : option A :=
  match m with
  | [] => None
  | (k', v) :: m => if k' =? k then Some v else find k m
  end.

(** [m[k] = v]. *)
Fixpoint assign (k : Z) (v : A) (m : ordered_map A) : ordered_map A :=
  match m with
  | [] => [(k, v)]
  | (k', v') :: m' =>
      if k <? k' then (k, v) :: m
      else if k' =? k then (k, v) :: m'
      else (k', v') :: assign k v m'
  end.

(** The position of [m.upper_bound(k)]: the first key greater than [k]. *)
Fixpoint upper_bound (k : Z) (m : ordered_map A) : nat :=
  match m with
  | [] => O
  | (k', _) :: m => if k <? k' then O else S (upper_bound k m)
  end.

(** ** Lemmas *)

Lemma find_assign_eq k v m : find k (assign k v m) = Some v.
Proof.
  induction m as [| [k' v'] m IH]; cbn; [by rewrite Z.eqb_refl |].
  split_cmp; cbn; rewrite ?Z.eqb_refl; try done.
  by destruct (Z.eqb_spec k' k); [lia |].
Qed.

Lemma find_assign_ne k k' v m : k <> k' -> find k' (assign k v m) = find k' m.
Proof.
  intros Hne. induction m as [| [k2 v2] m IH]; cbn; [by destruct (Z.eqb_spec k k') |].
  destruct (Z.ltb_spec k k2); cbn.
  { by destruct (Z.eqb_spec k k'); [lia |]. }
  destruct (Z.eqb_spec k2 k) as [-> |]; cbn.
  { by destruct (Z.eqb_spec k k'); [lia |]. }
  by rewrite IH.
Qed.

Lemma ordered_cons k v m :
  ordered ((k, v) :: m) <-> Forall (fun e => k < e.1) m /\ ordered m.
Proof.
  unfold ordered. cbn. split.
  - intros [Hs Hall]%StronglySorted_inv. split; [by rewrite Forall_fmap in Hall | done].
  - intros [Hall Hs]. constructor; [done | by rewrite Forall_fmap].
Qed.

Lemma assign_keys (P : Z -> Prop) k v m :
  P k -> Forall (fun e => P e.1) m -> Forall (fun e => P e.1) (assign k v m).
Proof.
  intros Hk Hall. induction Hall as [| [k' v'] m Hx Hall IH]; cbn; [by constructor |].
  split_cmp; repeat constructor; done.
Qed.

Lemma assign_ordered k v m : ordered m -> ordered (assign k v m).
Proof.
  induction m as [| [k' v'] m IH]; cbn; intros Ho.
  { apply ordered_cons. split; constructor. }
  pose proof Ho as [Hall Ho']%ordered_cons.
  destruct (Z.ltb_spec k k').
  - apply ordered_cons. split; [| done]. constructor; [done |].
    eapply Forall_impl; [exact Hall |]. cbn. lia.
  - destruct (Z.eqb_spec k' k) as [-> |]; apply ordered_cons; [done |].
    split; [| by apply IH]. apply (assign_keys (fun x => k' < x)); [lia | done].
Qed.

Lemma find_None_fresh k m : Forall (fun e => k < e.1) m -> find k m = None.
Proof.
  induction 1 as [| [k' v'] m Hx _ IH]; [done |]. cbn in *.
  by destruct (Z.eqb_spec k' k); [lia |].
Qed.

Lemma find_elem_of k v m : ordered m -> find k m = Some v <-> (k, v) ∈ m.
Proof.
  induction m as [| [k' v'] m IH]; intros Ho; cbn.
  { split; [done |]. by intros ?%not_elem_of_nil. }
  apply ordered_cons in Ho as [Hall Ho]. rewrite elem_of_cons, <- (IH Ho).
  destruct (Z.eqb_spec k' k) as [-> | Hne].
  - split; [intros [= ->]; by left |]. intros [[= ->] | Hf]; [done |].
    by rewrite (find_None_fresh k m Hall) in Hf.
  - split; [by right |]. intros [[= <- <-] | Hf]; [lia | done].
Qed.

(** The last entry has the greatest key. *)
Lemma last_greatest m k v k' v' :
  ordered m -> last m = Some (k, v) -> (k', v') ∈ m -> k' <= k.
Proof.
  intros Ho [m' ->]%last_Some Hin. unfold ordered in Ho. rewrite fmap_app in Ho.
  apply elem_of_app in Hin as [Hin | Hin].
  - apply Z.lt_le_incl. eapply (StronglySorted_app_1_elem_of Z.lt); [exact Ho | | by left].
    apply list_elem_of_fmap. by exists (k', v').
  - apply list_elem_of_singleton in Hin. injection Hin as -> _. lia.
Qed.

Lemma upper_bound_spec k m i k' v' :
  ordered m -> m !! i = Some (k', v') -> (i < upper_bound k m)%nat <-> k' <= k.
Proof.
  revert i. induction m as [| [k2 v2] m IH]; intros i Ho Hi; [by destruct i |].
  apply ordered_cons in Ho as [Hall Ho]. cbn [upper_bound].
  destruct i as [| i]; cbn in Hi.
  - injection Hi as -> ->. destruct (Z.ltb_spec k k'); lia.
  - destruct (Z.ltb_spec k k2) as [Hlt | Hge].
    + rewrite Forall_forall in Hall. specialize (Hall (k', v')).
      cbn in Hall. split; [lia |]. intros. assert (k2 < k'); [| lia].
      apply Hall. by eapply list_elem_of_lookup_2.
    + rewrite <- Nat.succ_lt_mono. by apply IH.
Qed.

Lemma ordered_lookup_lt m i j k v k' v' :
  ordered m -> m !! i = Some (k, v) -> m !! j = Some (k', v') -> (i < j)%nat -> k < k'.
Proof.
  revert i j. induction m as [| [k2 v2] m IH]; intros i j Ho Hi Hj Hij; [by destruct i |].
  apply ordered_cons in Ho as [Hall Ho]. destruct i as [| i], j as [| j]; try lia; cbn in Hi, Hj.
  - injection Hi as -> ->. rewrite Forall_forall in Hall.
    apply (Hall (k', v')). by eapply list_elem_of_lookup_2.
  - eapply (IH i j); eauto; lia.
Qed.

Lemma upper_bound_le k m : (upper_bound k m <= length m)%nat.
Proof. induction m as [| [k' v'] m IH]; cbn; [lia |]. split_cmp; lia. Qed.

End Map.
