(* ===== verification/Hex.v ===== *)
(** * Hexadecimal strings: [contrib/epee/src/hex.cpp]

    A string is the list of its character codes. *)
From S2P Require Import Prelude.
From Stdlib Require Import Ascii.

Open Scope Z_scope.

(** The codes of a literal. *)
Definition codes (s : string) : list Z := map (fun a => Z.of_N (N_of_ascii a)) (String.list_ascii_of_string s).

(** The digit table.
    Source: src/contrib/epee/include/storages/parserse_base_utils.h:70-88 (isx) *)
Definition isx_table : list Z := [
   255; 255; 255; 255; 255; 255; 255; 255; 255; 255; 255; 255; 255; 255; 255; 255;
   255; 255; 255; 255; 255; 255; 255; 255; 255; 255; 255; 255; 255; 255; 255; 255;
   255; 255; 255; 255; 255; 255; 255; 255; 255; 255; 255; 255; 255; 255; 255; 255;
   0; 1; 2; 3; 4; 5; 6; 7; 8; 9; 255; 255; 255; 255; 255; 255;
   255; 10; 11; 12; 13; 14; 15; 255; 255; 255; 255; 255; 255; 255; 255; 255;
   255; 255; 255; 255; 255; 255; 255; 255; 255; 255; 255; 255; 255; 255; 255; 255;
   255; 10; 11; 12; 13; 14; 15; 255; 255; 255; 255; 255; 255; 255; 255; 255;
   255; 255; 255; 255; 255; 255; 255; 255; 255; 255; 255; 255; 255; 255; 255; 255;
   255; 255; 255; 255; 255; 255; 255; 255; 255; 255; 255; 255; 255; 255; 255; 255;
   255; 255; 255; 255; 255; 255; 255; 255; 255; 255; 255; 255; 255; 255; 255; 255;
   255; 255; 255; 255; 255; 255; 255; 255; 255; 255; 255; 255; 255; 255; 255; 255;
   255; 255; 255; 255; 255; 255; 255; 255; 255; 255; 255; 255; 255; 255; 255; 255;
   255; 255; 255; 255; 255; 255; 255; 255; 255; 255; 255; 255; 255; 255; 255; 255;
   255; 255; 255; 255; 255; 255; 255; 255; 255; 255; 255; 255; 255; 255; 255; 255;
   255; 255; 255; 255; 255; 255; 255; 255; 255; 255; 255; 255; 255; 255; 255; 255;
   255; 255; 255; 255; 255; 255; 255; 255; 255; 255; 255; 255; 255; 255; 255; 255].

Definition isx (c : Z) : Z := default 0xff (isx_table !! Z.to_nat c).

(** [hex[d]] for a digit [d].
    Source: src/contrib/epee/src/hex.cpp:46-46 (write_hex) *)
Definition hex_digit (d : Z) : Z := default 0 (codes "0123456789abcdef" !! Z.to_nat d).

(** Source: src/contrib/epee/src/hex.cpp:43-55 (write_hex) *)
Fixpoint write_hex (src : list Z) : list Z :=
  match src with
  | [] => []
  | byte :: src => hex_digit (Z.shiftr byte 4) :: hex_digit (Z.land byte 0x0F) :: write_hex src
  end.

(** Source: src/contrib/epee/src/hex.cpp:58-70 (to_hex::string) *)
Definition to_hex_string (src : list Z) : outcome (list Z) :=
  if UINT64_MAX / 2 <? zlen src then Throw "hex_view::to_string exceeded maximum size"
  else Ok (write_hex src).

(** The loop over the digit pairs; [None] is the result [false]. A single
    character left over is the odd size the code rejects first.
    Source: src/contrib/epee/src/hex.cpp:104-122 (from_hex::to_buffer_unchecked) *)
Fixpoint to_buffer_unchecked (s : list Z) : option (list Z) :=
  match s with
  | [] => Some []
  | [_] => None
  | c1 :: c2 :: s =>
      let tmp := isx c1 in
      if tmp =? 0xff then None else
      let t2 := isx c2 in
      if t2 =? 0xff then None else
      rest ← to_buffer_unchecked s;
      Some (u8 (Z.lor (Z.shiftl tmp 4) t2) :: rest)
  end.

(** Source: src/contrib/epee/src/hex.cpp:97-102 (from_hex::to_buffer) *)
Definition to_buffer (size : Z) (s : list Z) : option (list Z) :=
  if negb (zlen s / 2 =? size) then None else to_buffer_unchecked s.

(** Source: src/contrib/epee/src/hex.cpp:91-95 (from_hex::to_string) *)
Definition from_hex_to_string (s : list Z) : option (list Z) := to_buffer_unchecked s.

(** Source: src/contrib/epee/src/string_tools.cpp:62-70 (validate_hex) *)
Definition validate_hex (length : Z) (str : list Z) : bool :=
  (zlen str =? length) && forallb (fun c => negb (isx c =? 0xff)) str.

(** [std::isspace] in the default locale. *)
Definition isspace (c : Z) : bool := (c =? 32) || ((9 <=? c) && (c <=? 13)).

(** Source: src/contrib/epee/src/hex.cpp:128-131 (from_hex_locale::to_vector) *)
Definition include (input : Z) : bool := negb (isspace input) && negb (input =? 58).

(** Source: src/contrib/epee/src/hex.cpp:148-168 (from_hex_locale::to_vector) *)
Definition char_to_int (c : Z) : outcome Z :=
  if (48 <=? c) && (c <=? 57) then Ok (c - 48)
  else if (97 <=? c) && (c <=? 102) then Ok (c - 87)
  else if (65 <=? c) && (c <=? 70) then Ok (c - 55)
  else Throw "Invalid hexadecimal input".

(** The loop over the characters up to the terminating zero, which the end of
    the list stands for.
    Source: src/contrib/epee/src/hex.cpp:171-183 (from_hex_locale::to_vector) *)
Fixpoint vector_loop (data : list Z) : outcome (list Z) :=
  match data with
  | [] => Ok []
  | c :: rest =>
      if c =? 0 then Ok []
      else if negb (include c) then vector_loop rest
      else
        high ← char_to_int c;
        match rest with
        | [] => Throw "Invalid hexadecimal input"
        | c2 :: rest =>
            low ← char_to_int c2;
            result ← vector_loop rest;
            Ok (u8 (Z.lor (Z.shiftl high 4) low) :: result)
        end
  end.

(** Source: src/contrib/epee/src/hex.cpp:125-186 (from_hex_locale::to_vector) *)
Definition to_vector (src : list Z) : outcome (list Z) :=
  let count := zlen (List.filter include src) in
  if negb (count mod 2 =? 0) then Throw "Invalid hexadecimal input length"
  else vector_loop src.

(** * Properties *)

Definition tolower (c : Z) : Z := if (65 <=? c) && (c <=? 90) then c + 32 else c.

Lemma isx_digit c :
  in_u 8 c -> isx c <> 0xff -> 0 <= isx c < 16 /\ hex_digit (isx c) = tolower c.
Proof.
  intros Hc Hne. pose proof (all_bytes (fun c => (isx c =? 0xff) ||
    ((0 <=? isx c) && (isx c <? 16) && (hex_digit (isx c) =? tolower c))) eq_refl c Hc) as H.
  cbn beta in H. destruct (Z.eqb_spec (isx c) 0xff); [done |]. cbn [orb] in H.
  apply andb_true_iff in H as [[H1 H2]%andb_true_iff H3]. lia.
Qed.

Lemma hex_digit_facts d :
  0 <= d < 16 -> in_u 8 (hex_digit d) /\ isx (hex_digit d) = d /\
  char_to_int (hex_digit d) = Ok d /\ include (hex_digit d) = true /\ hex_digit d <> 0.
Proof.
  intros Hd. assert (Hin : d ∈ map Z.of_nat (seq 0 16)).
  { apply list_elem_of_fmap. exists (Z.to_nat d). split; [lia |]. apply elem_of_seq. lia. }
  cbn in Hin. repeat (apply elem_of_cons in Hin as [-> | Hin]; [vm_compute; intuition congruence |]).
  by apply not_elem_of_nil in Hin.
Qed.

(** The two nibbles of a byte. *)
Lemma nibbles b : in_u 8 b ->
  0 <= Z.shiftr b 4 < 16 /\ 0 <= Z.land b 0x0F < 16 /\
  u8 (Z.lor (Z.shiftl (Z.shiftr b 4) 4) (Z.land b 0x0F)) = b.
Proof.
  intros Hb. pose proof (all_bytes (fun b => (0 <=? Z.shiftr b 4) && (Z.shiftr b 4 <? 16) &&
    (0 <=? Z.land b 0x0F) && (Z.land b 0x0F <? 16) &&
    (u8 (Z.lor (Z.shiftl (Z.shiftr b 4) 4) (Z.land b 0x0F)) =? b)) eq_refl b Hb) as H.
  cbn beta in H. rewrite !andb_true_iff in H. lia.
Qed.

Lemma join_nibbles h l : 0 <= h < 16 -> 0 <= l < 16 ->
  let b := u8 (Z.lor (Z.shiftl h 4) l) in
  in_u 8 b /\ Z.shiftr b 4 = h /\ Z.land b 0x0F = l.
Proof.
  intros Hh Hl b. subst b. rewrite lor_shiftl_add by lia. rewrite u8_small by lia.
  split; [unfold in_u; lia |]. change 0x0F with (2 ^ 4 - 1).
  rewrite land_mask, shiftr_div, Z.div_add_l, Z.div_small by lia. split; [lia |].
  by rewrite Z.add_comm, Z.mod_add, Z.mod_small by lia.
Qed.

Lemma to_buffer_unchecked_write bs : bytes bs -> to_buffer_unchecked (write_hex bs) = Some bs.
Proof.
  induction 1 as [| b bs Hb _ IH]; [done |]. cbn [write_hex to_buffer_unchecked].
  destruct (nibbles b Hb) as (Hh & Hl & E).
  destruct (hex_digit_facts _ Hh) as (_ & -> & _). destruct (hex_digit_facts _ Hl) as (_ & -> & _).
  destruct (Z.eqb_spec (Z.shiftr b 4) 0xff); [lia |].
  destruct (Z.eqb_spec (Z.land b 0x0F) 0xff); [lia |].
  rewrite IH. cbn [mbind option_bind]. by rewrite E.
Qed.

Lemma length_write_hex bs : zlen (write_hex bs) = 2 * zlen bs.
Proof. induction bs; [done |]. cbn [write_hex]. rewrite !zlen_cons. lia. Qed.

Lemma list_pair_ind {A} (P : list A -> Prop) :
  P [] -> (forall x, P [x]) -> (forall x y l, P l -> P (x :: y :: l)) -> forall l, P l.
Proof.
  intros H0 H1 H2. enough (H : forall l, P l /\ forall x, P (x :: l)) by (intros l; apply H).
  induction l as [| y l [IH1 IH2]]; split; eauto.
Qed.

(** What a successful decoding says about its input. *)
Lemma to_buffer_unchecked_sound s bs :
  bytes s -> to_buffer_unchecked s = Some bs ->
  bytes bs /\ zlen s = 2 * zlen bs /\ write_hex bs = map tolower s.
Proof.
  revert bs. induction s as [| c | c1 c2 s IH] using list_pair_ind; intros bs Hs E.
  - injection E as <-. by repeat constructor.
  - done.
  - apply Forall_cons in Hs as [Hc1 [Hc2 Hs]%Forall_cons]. cbn [to_buffer_unchecked] in E.
    destruct (Z.eqb_spec (isx c1) 0xff) as [| H1]; [done |].
    destruct (Z.eqb_spec (isx c2) 0xff) as [| H2]; [done |].
    destruct (to_buffer_unchecked s) as [rest |] eqn:Er; [| done].
    cbn [mbind option_bind] in E. injection E as <-.
    destruct (isx_digit c1 Hc1 H1) as [Hr1 Hd1]. destruct (isx_digit c2 Hc2 H2) as [Hr2 Hd2].
    destruct (join_nibbles _ _ Hr1 Hr2) as (Hb & Eh & El).
    destruct (IH rest Hs eq_refl) as (Hrest & Hlen & Hw).
    split; [by constructor |]. rewrite !zlen_cons. split; [lia |].
    cbn [write_hex map]. by rewrite Eh, El, Hd1, Hd2, Hw.
Qed.

Lemma vector_loop_write bs : bytes bs -> vector_loop (write_hex bs) = Ok bs.
Proof.
  induction 1 as [| b bs Hb _ IH]; [done |]. cbn [write_hex vector_loop].
  destruct (nibbles b Hb) as (Hh & Hl & E).
  destruct (hex_digit_facts _ Hh) as (_ & _ & -> & -> & Hnz).
  destruct (hex_digit_facts _ Hl) as (_ & _ & -> & _).
  destruct (Z.eqb_spec (hex_digit (Z.shiftr b 4)) 0); [done |].
  cbn [negb mbind outcome_bind]. rewrite IH. simpl_bind. by rewrite E.
Qed.

Lemma include_all bs : bytes bs -> List.filter include (write_hex bs) = write_hex bs.
Proof.
  induction 1 as [| b bs Hb _ IH]; [done |]. cbn [write_hex List.filter].
  destruct (nibbles b Hb) as (Hh & Hl & _).
  destruct (hex_digit_facts _ Hh) as (_ & _ & _ & -> & _).
  destruct (hex_digit_facts _ Hl) as (_ & _ & _ & -> & _). by rewrite IH.
Qed.

(** Printing a byte string in hexadecimal and reading it back, with either
    decoder, gives the byte string; and a string that decodes is, up to the
    case of its digits, the hexadecimal form of the result. *)
Theorem hex_roundtrip bs s :
  bytes bs -> bytes s ->
  to_buffer (zlen bs) (write_hex bs) = Some bs /\ to_vector (write_hex bs) = Ok bs /\
  (to_buffer (zlen bs) s = Some bs -> write_hex bs = map tolower s).
Proof.
  intros Hb Hs. split_and!.
  - unfold to_buffer. rewrite length_write_hex, Z.mul_comm, Z.div_mul, Z.eqb_refl by lia.
    by apply to_buffer_unchecked_write.
  - unfold to_vector. rewrite include_all, length_write_hex by done.
    rewrite Z.mul_comm, Z.mod_mul by lia. by apply vector_loop_write.
  - unfold to_buffer. destruct (zlen s / 2 =? zlen bs); cbn [negb]; [| done].
    intros E. by destruct (to_buffer_unchecked_sound s bs Hs E) as (_ & _ & ?).
Qed.

Lemma hex_roundtrip_witness :
  to_buffer 2 (write_hex [0xde; 0xad]) = Some [0xde; 0xad] /\ write_hex [0xde; 0xad] = codes "dead".
Proof.
  destruct (hex_roundtrip [0xde; 0xad] (codes "DEad") ltac:(by_decide) ltac:(by_decide)) as (H & _ & Hs).
  split; [exact H | rewrite Hs; vm_compute; reflexivity].
Defined.
