(* ===== verification/Checkpoints.v ===== *)
(** * Checkpoints: [src/checkpoints] and the proof-of-work gate of [Blockchain]

    The table of hard-coded block hashes, its extension from a JSON file and
    from DNS records, the quick sync file (reader and exporter) and the decision
    whether a block's proof of work is verified. Block identifiers are byte
    strings. Files, JSON parsing and DNS are inputs of the operations. *)
From S2P Require Import Prelude Config StdMap Hex Difficulty.

Open Scope Z_scope.

(** ** The table *)

(** The type of [m_points]. *)
Abbreviation points := (ordered_map (list Z)).

(** [epee::string_tools::hex_to_pod] into a [crypto::hash].
    Source: src/contrib/epee/include/string_tools.h:279-283 (hex_to_pod) *)
Definition hex_to_hash (hash_str : list Z) : option (list Z) := to_buffer 32 hash_str.

(** Source: src/src/checkpoints/checkpoints.cpp:77-90 (checkpoints::add_checkpoint) *)
Definition add_checkpoint (m_points : points) (height : Z) (hash_str : list Z) : bool * points :=
  match hex_to_hash hash_str with
  | None => (false, m_points)
  | Some h =>
      match find height m_points with
      | Some h' => if decide (h = h') then (true, assign height h m_points) else (false, m_points)
      | None => (true, assign height h m_points)
      end
  end.

(** Source: src/src/checkpoints/checkpoints.cpp:92-95 (checkpoints::is_in_checkpoint_zone) *)
Definition is_in_checkpoint_zone (m_points : points) (height : Z) : bool :=
  match last m_points with
  | None => false
  | Some (k, _) => height <=? k
  end.

(** The result and [is_a_checkpoint].
    Source: src/src/checkpoints/checkpoints.cpp:97-113 (checkpoints::check_block) *)
Definition check_block (m_points : points) (height : Z) (h : list Z) : bool * bool :=
  match find height m_points with
  | None => (true, false)
  | Some h' => (bool_decide (h' = h), true)
  end.

(** Source: src/src/checkpoints/checkpoints.cpp:122-135 (checkpoints::is_alternative_block_allowed) *)
Definition is_alternative_block_allowed (m_points : points) (blockchain_height block_height : Z)
  : bool :=
  if 0 =? block_height then false else
  match upper_bound blockchain_height m_points with
  | O => true
  | S it =>
      match m_points !! it with
      | Some (checkpoint_height, _) => checkpoint_height <? block_height
      | None => true
      end
  end.

(** Source: src/src/checkpoints/checkpoints.cpp:137-142 (checkpoints::get_max_height) *)
Definition get_max_height (m_points : points) : Z :=
  match last m_points with None => 0 | Some (k, _) => k end.

(** Source: src/src/checkpoints/checkpoints.cpp:149-159 (checkpoints::check_for_conflicts) *)
Definition check_for_conflicts (m_points other : points) : bool :=
  forallb (fun '(k, h) =>
    match find k m_points with Some h' => bool_decide (h = h') | None => true end) other.

(** A sequence of [ADD_CHECKPOINT]s, which returns at the first failure.
    Source: src/src/checkpoints/checkpoints.h:38-38 (ADD_CHECKPOINT) *)
Fixpoint add_checkpoints (l : list (Z * list Z)) (m_points : points) : bool * points :=
  match l with
  | [] => (true, m_points)
  | (height, hash) :: l =>
      match add_checkpoint m_points height hash with
      | (true, m_points) => add_checkpoints l m_points
      | (false, m_points) => (false, m_points)
      end
  end.

(** Source: src/src/checkpoints/checkpoints.cpp:168-216 (checkpoints::init_default_checkpoints) *)
Definition default_checkpoints : list (Z * string) :=
  [(1, "fe2b6c553f136ce46f4716e22d64b07732246dfc245c8f23c41a3eadc888d89d");
   (10, "2fffb6f916a1eb535cd466ecb8022ee1980c81430fe1daaa2b28134355319288");
   (1000, "5de9c560b9e7294cc63c74aadf01edb39ec43fd218def726740d770b558c7097");
   (10000, "992fbc3247e5a6d1b23b67025d8651656d9ecda364878f177ff011ff2f27d64d");
   (100000, "ab33ccdb964c6a39cc57b302b03e7125c212b72fe67cc30e7467229175646d81");
   (200000, "39e1edc050e72ba55dfce0fa9956ad789e3b6dacfabd731f7e469619c019c5bd");
   (300000, "14b59684805db6e87fda7970f7ba4d84e53e382733031101ddaaf61883baa1cc");
   (400000, "cf2afac38a53837927feb7356c369cbf97e3146de51feaa7f8fa833acb9206f7");
   (500000, "892e073423b002da181cd1cc9f423514505dd627f872d2f550ad408643df3d86");
   (600000, "c176fa88d65c87858d77a9bc202e8db57823f4855904c3ce67fb2f374dd83bf0");
   (700000, "acc6e48c254d9ffd1978ca78a5c3b033714c96a2d0bd956962a779fa81eb8a59");
   (800000, "95aea447e43694cf7abcda6153e9f99747ed2fbf2f2975c9af9e876513eed331");
   (900000, "f860dee2a65d38109d223aa804fdb06f0d2a33b6bb7273337c8b28e79fa87a72");
   (1000000, "2f4246adfa484fafff09e367a62ad14bba7440730a471ca335dd0ea76dfb736a");
   (1100000, "8e94d9914b712513c6b563f057ab4d762392fbd84351a04f1d7e63abb1cad06b");
   (1200000, "2b5eae48be279e38a0e395a509f246f1b5e7f746384e9e2f1bce750ed63aa65b");
   (1300000, "363e7e5e7d08574d1f5815d06805081b151af34792ce6dbd22d66ea253b8618d");
   (1400000, "698fc03d367e192bdc6da376c959a9f312e4cd4ab311f4a18ca4fd5a4bcab640");
   (1500000, "783ead46ba80e76f7feb25f7d23acf34a34f8d112fd2dc707e1aacb8261d466d");
   (1600000, "8275b4eb901257080434c659ecdda449b2eea7c2b86cc586e2b3442371223bf7");
   (1700000, "c2f03c5ef2b6b4b27afe0731c5dc556b3a491ace0437cead634e19c59104064c");
   (1800000, "c023301bf056032148c58876c61d2863da1ccc325df8dfc83b3f247923153129");
   (1900000, "e390685e11617caaacadef9d45662f2cf2e82f12ba6f990553898203dfe72897");
   (2000000, "2aad0c92cf4df8799f5307e2ced10921bf70d4144d39b076d7975a70eb401455");
   (2100000, "5ccad0ef7389dcf64ce6d52e3b4f84f7138bab756a3d4238d5d0ec04e162054c");
   (2200000, "bcc96246d6e6fcfdaa0af80cd0050f8cad324934b81e602dfa240bcc2bc52b22");
   (2300000, "b35cc68366383166c559ba6aaaf57863505078164f77ceaa75a04dbe64556f31");
   (2400000, "acdbbd03f3c94cfe71157040e9180db759b8e3351678cfc753681af3324a6fb6");
   (2500000, "0f2edf79d88d9bf0bc2cec40ea7488b8f0f548248b2ffac4d56fd18871ca552a");
   (2600000, "8e3136ee2c0c2f8ec984cef1aed9a73c53b8b454b828ad78e49e243136548014");
   (2700000, "c6d60df64c06f5e2d0a49ecce22dcb453214aeb50d56eb13f4c9466e6832226b");
   (2800000, "35d8220885ed8d5eab35c321c7215c9a1990a0b21256856a1910e16e101f9200");
   (2900000, "debeffd465feccbb7aa94159ee698b6f059673469aa1eb16b37f13f58b09c4a9");
   (3000000, "cab3a91567a86c134a05f078637f736a03d69c427019fdb46e5d6c650edb885a");
   (3100000, "6c05d795ba8060a4b302aa2b5a91dc95fc46a0e5a3d882f601f47f2c59c4a2d5");
   (3200000, "a23310b268022d868eebe810669224bfc4b8296e573e8ab10de5e3de0b530326");
   (3300000, "6b5bb134466c8ca54139ee9ffd422cc26bb8d380b5dc99874fe1c78d69ffd8f7");
   (3400000, "7226372927bd1e27f2d4eac95918db129d02e9a7221b74bc4810f4d31f3d68c7");
   (3500000, "ecced65d0b9577c971b2d92471a39da10bdc398cef1e6231d5714223a59a841a");
   (3600000, "4ee4e483ed91285604a76cd99154cd857ea9d9dfe3ede347979a06a99b2c65bc");
   (3700000, "3abc435c98a3ed81b38c1555c58846d5a3dec412fc1ee553e455062f2232e008");
   (3800000, "d9f5cb1aa289cf1aa8d0e0a68f1524e14b1901c995b6cd0b1cb794ab58224d93");
   (3900000, "a66fe1e2b829080e7b9644ff39c52018c64cebd7c9b3439bf69afe11d70c04e8");
   (4000000, "5b3271eca95fce944086b55c44fa8c26b47e51e508ff272d1228455591f9091d");
   (4100000, "50ededd060ac706e66c013a34bf55adc54d29302833acd9fa0191dd3163be825");
   (4200000, "9e1bbcbf0bd690a59299008e51cfde8403364cde89a1c96bfe173158c3269a8f");
   (4300000, "6ee1e78bd980b5918bf2e7c87b72bb21bc86c7088750bea15e6b0b67a55a93c6");
   (4320000, "45ae8c2a5f5463671ee092adc3f0f786c57369ba5a6fff2119bac0f1a2b86339");
   (4400000, "d4fdc6f8871467fa3c71f90174e9440c2f7ca93ba595984cb734483fc4ac5716")].

(** Source: src/src/checkpoints/checkpoints.cpp:161-227 (checkpoints::init_default_checkpoints) *)
Definition init_default_checkpoints (nettype : network_type) (m_points : points)
  : outcome (bool * points) :=
  let '(ok, m_points) :=
    if decide (nettype = MAINNET)
    then add_checkpoints (map (fun '(h, s) => (h, codes s)) default_checkpoints) m_points
    else (true, m_points) in
  if negb ok then Ok (false, m_points) else
  cfg ← get_config nettype;
  let assume_valid_height := ASSUME_VALID_HEIGHT cfg in
  if bool_decide (nettype = FAKECHAIN) || (assume_valid_height =? 0)
     || (assume_valid_height <=? get_max_height m_points)
  then Ok (true, m_points) else Ok (false, m_points).

(** [json] is the file: [None] when it does not exist, [Some None] when it does
    not parse.
    Source: src/src/checkpoints/checkpoints.cpp:229-263 (checkpoints::load_checkpoints_from_json) *)
Definition load_checkpoints_from_json (json : option (option (list (Z * list Z))))
    (m_points : points) : bool * points :=
  match json with
  | None => (true, m_points)
  | Some None => (false, m_points)
  | Some (Some hashlines) =>
      let prev_max_height := get_max_height m_points in
      add_checkpoints (List.filter (fun '(h, _) => negb (h <=? prev_max_height)) hashlines) m_points
  end.

(** [ss >> height] on a [uint64_t]: blanks, a sign, decimal digits; a negative
    number wraps, no digit or a value out of range fails. *)
Fixpoint parse_digits (s : list Z) (acc : option Z) : option Z :=
  match s with
  | c :: s =>
      if (48 <=? c) && (c <=? 57) then parse_digits s (Some (10 * default 0 acc + (c - 48)))
      else acc
  | [] => acc
  end.

Fixpoint skip_blanks (s : list Z) : list Z :=
  match s with c :: s' => if isspace c then skip_blanks s' else s | [] => [] end.

Definition parse_u64 (s : list Z) : option Z :=
  let in_range (o : option Z) := n ← o; if n <=? UINT64_MAX then Some n else None in
  match skip_blanks s with
  | 45 :: s => n ← in_range (parse_digits s None); Some (u64 (- n))
  | 43 :: s => in_range (parse_digits s None)
  | s => in_range (parse_digits s None)
  end.

(** The parts of a record before and after the first colon. *)
Fixpoint split_colon (s : list Z) : option (list Z * list Z) :=
  match s with
  | [] => None
  | c :: s => if c =? 58 then Some ([], s) else '(a, b) ← split_colon s; Some (c :: a, b)
  end.

(** Source: src/src/checkpoints/checkpoints.cpp:272-298 (checkpoints::load_checkpoints_from_dns) *)
Definition parse_dns_record (record : list Z) : option (Z * list Z) :=
  '(a, hashStr) ← split_colon record;
  height ← parse_u64 a;
  _ ← hex_to_hash hashStr;
  Some (height, hashStr).

(** [None] when the lookup fails.
    Source: src/src/checkpoints/checkpoints.cpp:265-300 (checkpoints::load_checkpoints_from_dns) *)
Definition load_checkpoints_from_dns (records : option (list (list Z))) (m_points : points)
  : bool * points :=
  match records with
  | None => (true, m_points)
  | Some records => add_checkpoints (omap parse_dns_record records) m_points
  end.

(** Source: src/src/checkpoints/checkpoints.cpp:302-313 (checkpoints::load_new_checkpoints) *)
Definition load_new_checkpoints (json : option (option (list (Z * list Z))))
    (dns : option (option (list (list Z)))) (m_points : points) : bool * points :=
  let '(result, m_points) := load_checkpoints_from_json json m_points in
  match dns with
  | None => (result, m_points)
  | Some records =>
      let '(r, m_points) := load_checkpoints_from_dns records m_points in
      (result && r, m_points)
  end.

(** ** Quick sync *)

(** Source: src/src/checkpoints/quicksync.h:56-59 (quicksync) *)
Record quicksync := Quicksync {
  q_data : points; q_is_loaded : bool; q_min : Z; q_max : Z
}.

Definition no_quicksync : quicksync := Quicksync [] false 0 0.

(** The result and [is_present].
    Source: src/src/checkpoints/quicksync.cpp:51-65 (quicksync::check_block) *)
Definition quicksync_check_block (q : quicksync) (height : Z) (h : list Z) : bool * bool :=
  if negb (q_is_loaded q) then (false, false) else
  match find height (q_data q) with
  | None => (false, false)
  | Some h' => (bool_decide (h' = h), true)
  end.

(** Source: src/src/checkpoints/quicksync.cpp:67-82 (quicksync::check_against_checkpoints) *)
Definition quicksync_check_against_checkpoints (q : quicksync) (cp : points) : bool :=
  forallb (fun '(height, h) =>
    match find height (q_data q) with None => true | Some h' => bool_decide (h' = h) end) cp.

(** Source: src/src/checkpoints/quicksync.cpp:105-105 (quicksync::load) *)
Definition quicksync_magic : Z := 0x149f943e.

(** The hashes of the file, from [height] on.
    Source: src/src/checkpoints/quicksync.cpp:145-157 (quicksync::load) *)
Fixpoint read_hashes (count : nat) (height : Z) (data : list Z) (m_data : points) : points :=
  match count with
  | O => m_data
  | S count =>
      read_hashes count (height +! 1) (drop 32 data) (assign height (take 32 data) m_data)
  end.

(** [load] on a fresh object; [file] is the content of the file when it exists
    and [None] the result [false], after which the caller drops the object.
    The size test makes the read of every hash succeed.
    Source: src/src/checkpoints/quicksync.cpp:84-161 (quicksync::load) *)
Definition load (file : option (list Z)) : option quicksync :=
  file ← file;
  if negb (le_bytes (take 4 file) =? quicksync_magic) then None else
  if zlen file <? 12 then None else
  let m_min := le_bytes (take 4 (drop 4 file)) in
  let m_max := le_bytes (take 4 (drop 8 file)) in
  if m_max <? m_min then None else
  let data := drop 12 file in
  let count := m_max -! m_min in
  if zlen data <? count *! 32 then None else
  Some (Quicksync (read_hashes (Z.to_nat count) m_min data []) true m_min m_max).

(** Source: src/src/extras/quicksync_export/quicksync_file.cpp:82-91 (QuickSyncFile::initialize_file) *)
Definition initialize_file (block_start block_stop : Z) : list Z :=
  le_encode 4 quicksync_magic ++ le_encode 4 (u32 block_start) ++ le_encode 4 (u32 block_stop).

(** The file written for the blocks of [chain] from [block_start] to
    [block_stop], both included; a block the chain does not have has the null
    hash.
    Source: src/src/extras/quicksync_export/quicksync_file.cpp:103-141 (QuickSyncFile::store_blockchain) *)
Definition store_blockchain (chain : list (list Z)) (block_start block_stop : Z) : list Z :=
  let block_stop := if block_stop =? 0 then zlen chain -! 1 else block_stop in
  initialize_file block_start block_stop ++
  concat (map (fun i => default (replicate 32 0) (znth chain (block_start + Z.of_nat i)))
    (seq 0 (Z.to_nat (block_stop - block_start + 1)))).

(** ** The proof-of-work gate *)

(** The fields of [Blockchain] the gate reads.
    Source: src/src/cryptonote_core/blockchain.h:1124-1127 (Blockchain) *)
Record sync_state := Sync_state {
  m_nettype : network_type;
  m_fast_sync : bool;
  m_checkpoints : points;
  m_quicksync : quicksync;
  m_quicksync_max_height : Z
}.

(** Source: src/src/cryptonote_core/blockchain.cpp:4186-4199 (Blockchain::set_quicksync) *)
Definition set_quicksync (st : sync_state) (qs : quicksync) : sync_state :=
  if negb (quicksync_check_against_checkpoints qs (m_checkpoints st)) then st
  else Sync_state (m_nettype st) (m_fast_sync st) (m_checkpoints st) qs
         (get_max_height (m_checkpoints st)).

(** Source: src/src/cryptonote_core/blockchain.cpp:4436-4453 (Blockchain::block_needs_pow) *)
Definition block_needs_pow (st : sync_state) (blockchain_height : Z) (id : list Z) : outcome bool :=
  cfg ← get_config (m_nettype st);
  let assume_valid_height := ASSUME_VALID_HEIGHT cfg in
  let assume_valid := m_fast_sync st && bool_decide (m_nettype st <> FAKECHAIN)
    && negb (assume_valid_height =? 0) && (blockchain_height <? assume_valid_height) in
  let quicksync_active := m_fast_sync st && bool_decide (m_nettype st <> FAKECHAIN)
    && (blockchain_height <=? m_quicksync_max_height st) in
  let '(quicksync_match, quicksync_has_block) :=
    quicksync_check_block (m_quicksync st) blockchain_height id in
  let quicksync_verified := quicksync_active && quicksync_match in
  let quicksync_conflict := quicksync_active && quicksync_has_block && negb quicksync_match in
  Ok ((negb quicksync_verified && negb assume_valid) || quicksync_conflict).

(** The proof-of-work and checkpoint tests of [handle_block_to_main_chain];
    [longhash] is the long hash of the block ([None] when it cannot be
    computed), taken from the batch cache or computed on the spot.
    Source: src/src/cryptonote_core/blockchain.cpp:3645-3692 (Blockchain::handle_block_to_main_chain) *)
Definition pow_and_checkpoint_tests (st : sync_state) (blockchain_height : Z) (id : list Z)
    (longhash : option (list Z)) (current_diffic : Z) : outcome bool :=
  needs_pow ← block_needs_pow st blockchain_height id;
  let pow_ok :=
    if (needs_pow : bool) then
      match longhash with
      | None => false
      | Some proof_of_work => check_hash proof_of_work current_diffic
      end
    else true in
  if negb pow_ok then Ok false else
  if is_in_checkpoint_zone (m_checkpoints st) blockchain_height
     && negb (fst (check_block (m_checkpoints st) blockchain_height id))
  then Ok false else Ok true.

(** Start-up: the hard-coded checkpoints on the main network, then the quick
    sync file given on the command line, if it loads.
    Source: src/src/cryptonote_core/cryptonote_core.cpp:359-390 (core::handle_command_line) *)
Definition start_sync (nettype : network_type) (fast_sync : bool) (file : option (list Z))
  : outcome sync_state :=
  '(ok, cp) ← (if decide (nettype = MAINNET) then init_default_checkpoints nettype []
               else Ok (true, []));
  if negb (ok : bool) then Throw "Failed to initialize checkpoints" else
  let st := Sync_state nettype fast_sync cp no_quicksync 0 in
  match load file with
  | None => Ok st
  | Some qs => Ok (set_quicksync st qs)
  end.

(** ** Enforcing the checkpoints on the stored chain *)

(** [rollback_blockchain_switching] without blocks to restore, on the list of
    block hashes: popping stops at [rollback_height] and throws at the genesis
    block.
    Source: src/src/cryptonote_core/blockchain.cpp:986-1003 (Blockchain::rollback_blockchain_switching) *)
Definition rollback_chain (chain : list (list Z)) (rollback_height : Z) : outcome (list (list Z)) :=
  if zlen chain <? rollback_height then Ok chain
  else if (rollback_height =? 0) && negb (zlen chain =? 0) then
    Throw "Cannot pop the genesis block"
  else Ok (take (Z.to_nat rollback_height) chain).

(** The loop over the points, with the chain height read before it.
    Source: src/src/cryptonote_core/blockchain.cpp:4116-4138 (Blockchain::check_against_checkpoints) *)
Fixpoint enforce_loop (pts all : points) (enforce : bool) (blockchain_height : Z)
    (chain : list (list Z)) : outcome (list (list Z)) :=
  match pts with
  | [] => Ok chain
  | (k, _) :: pts =>
      if blockchain_height <=? k then enforce_loop pts all enforce blockchain_height chain
      else
        match znth chain k with
        | None => Throw "BLOCK_DNE"
        | Some id =>
            if fst (check_block all k id) then enforce_loop pts all enforce blockchain_height chain
            else if enforce then
              chain ← rollback_chain chain (k -! 2);
              enforce_loop pts all enforce blockchain_height chain
            else enforce_loop pts all enforce blockchain_height chain
        end
  end.

(** Source: src/src/cryptonote_core/blockchain.cpp:4108-4141 (Blockchain::check_against_checkpoints) *)
Definition check_against_checkpoints (pts : points) (enforce : bool) (chain : list (list Z))
  : outcome (list (list Z)) :=
  enforce_loop pts pts enforce (zlen chain) chain.

(** Checkpoints from DNS: enforced ones join the table, others are only compared
    with the chain.
    Source: src/src/cryptonote_core/blockchain.cpp:4155-4174 (Blockchain::update_checkpoints) *)
Definition update_from_dns (m_points : points) (enforce_dns check_dns offline : bool)
    (records : option (list (list Z))) (chain : list (list Z))
  : outcome (bool * points * list (list Z)) :=
  if enforce_dns && check_dns && negb offline then
    let '(ok, m_points) := load_checkpoints_from_dns records m_points in
    Ok (ok, m_points, chain)
  else if check_dns && negb offline then
    let '(_, dns_points) := load_checkpoints_from_dns records [] in
    chain ← (if check_for_conflicts m_points dns_points
             then check_against_checkpoints dns_points false chain else Ok chain);
    Ok (true, m_points, chain)
  else Ok (true, m_points, chain).

(** Source: src/src/cryptonote_core/blockchain.cpp:4146-4179 (Blockchain::update_checkpoints) *)
Definition update_checkpoints (m_points : points) (json : option (option (list (Z * list Z))))
    (enforce_dns check_dns offline : bool) (records : option (list (list Z)))
    (chain : list (list Z)) : outcome (bool * points * list (list Z)) :=
  let '(ok, m_points) := load_checkpoints_from_json json m_points in
  if negb ok then Ok (false, m_points, chain) else
  '(ok, m_points, chain) ← update_from_dns m_points enforce_dns check_dns offline records chain;
  if negb (ok : bool) then Ok (false, m_points, chain) else
  chain ← check_against_checkpoints m_points true chain;
  Ok (true, m_points, chain).

(** * Properties *)

(** ** The table only grows *)

Lemma add_checkpoint_extends m height s r m' :
  ordered m -> add_checkpoint m height s = (r, m') ->
  ordered m' /\ forall k v, find k m = Some v -> find k m' = Some v.
Proof.
  intros Ho. unfold add_checkpoint. destruct (hex_to_hash s) as [h |]; [| by intros [= <- <-]].
  destruct (find height m) as [h' |] eqn:E; [case_decide as Hd; [subst h' |] |];
    intros [= <- <-]; split; auto using assign_ordered.
  - intros k v Hk. destruct (decide (height = k)) as [<- | Hne].
    + rewrite find_assign_eq. congruence.
    + by rewrite find_assign_ne.
  - intros k v Hk. destruct (decide (height = k)) as [<- | Hne]; [congruence |].
    by rewrite find_assign_ne.
Qed.

Lemma add_checkpoints_extends l m r m' :
  ordered m -> add_checkpoints l m = (r, m') ->
  ordered m' /\ forall k v, find k m = Some v -> find k m' = Some v.
Proof.
  revert m. induction l as [| [h s] l IH]; intros m Ho; cbn [add_checkpoints].
  { by intros [= <- <-]. }
  destruct (add_checkpoint m h s) as [ok m1] eqn:E.
  destruct (add_checkpoint_extends m h s ok m1 Ho E) as [Ho1 Hf1].
  destruct ok; [| by intros [= <- <-]]. intros E'. destruct (IH m1 Ho1 E') as [? ?]. eauto.
Qed.

Lemma load_json_extends json m r m' :
  ordered m -> load_checkpoints_from_json json m = (r, m') ->
  ordered m' /\ forall k v, find k m = Some v -> find k m' = Some v.
Proof.
  intros Ho. unfold load_checkpoints_from_json.
  destruct json as [[l |] |]; [by apply add_checkpoints_extends | by intros [= <- <-]..].
Qed.

Lemma load_dns_extends records m r m' :
  ordered m -> load_checkpoints_from_dns records m = (r, m') ->
  ordered m' /\ forall k v, find k m = Some v -> find k m' = Some v.
Proof.
  intros Ho. unfold load_checkpoints_from_dns.
  destruct records as [l |]; [by apply add_checkpoints_extends | by intros [= <- <-]].
Qed.

Lemma init_default_spec nettype m r m' :
  ordered m -> init_default_checkpoints nettype m = Ok (r, m') ->
  ordered m' /\ (r = true -> exists cfg, get_config nettype = Ok cfg /\
    (nettype = FAKECHAIN \/ ASSUME_VALID_HEIGHT cfg = 0 \/
     ASSUME_VALID_HEIGHT cfg <= get_max_height m')).
Proof.
  intros Ho. unfold init_default_checkpoints.
  destruct (if decide (nettype = MAINNET) then _ else _) as [ok m1] eqn:E.
  assert (Ho1 : ordered m1).
  { case_decide; [by eapply add_checkpoints_extends | by injection E as _ <-]. }
  destruct ok; cbn [negb]; [| by intros [= <- <-]].
  destruct (get_config nettype) as [cfg | |]; [| done..]. simpl_bind.
  destruct (_ || _ || _) eqn:Eb; intros [= <- <-]; (split; [done |]); [| done].
  intros _. exists cfg. split; [done |].
  apply orb_true_iff in Eb as [[Eb%bool_decide_eq_true | Eb%Z.eqb_eq]%orb_true_iff | Eb%Z.leb_le]; auto.
Qed.

(** ** Queries *)

Lemma zone_covers m k v : ordered m -> find k m = Some v -> is_in_checkpoint_zone m k = true.
Proof.
  intros Ho Hf. apply find_elem_of in Hf; [| done]. unfold is_in_checkpoint_zone.
  destruct (last m) as [[k' v'] |] eqn:E.
  - apply Z.leb_le. by eapply last_greatest.
  - apply last_None in E as ->. by apply not_elem_of_nil in Hf.
Qed.

(** An alternative block is allowed exactly when it is not the genesis block
    and lies above every checkpoint that the main chain has reached. *)
Theorem alternative_block_exact m chain_height block_height :
  ordered m ->
  is_alternative_block_allowed m chain_height block_height = true <->
  block_height <> 0 /\ forall k v, (k, v) ∈ m -> k <= chain_height -> k < block_height.
Proof.
  intros Ho. unfold is_alternative_block_allowed.
  destruct (Z.eqb_spec 0 block_height) as [<- | Hne]; [by split; [| intros []] |].
  destruct (upper_bound chain_height m) as [| it] eqn:E.
  - split; [intros _; split; [done |] | done]. intros k v [i Hi]%list_elem_of_lookup Hk.
    pose proof (upper_bound_spec chain_height m i k v Ho Hi). lia.
  - pose proof (upper_bound_le chain_height m).
    destruct (lookup_lt_is_Some_2 m it ltac:(lia)) as [[k0 v0] H0]. rewrite H0, Z.ltb_lt.
    pose proof (upper_bound_spec chain_height m it k0 v0 Ho H0) as Hs0.
    split.
    + intros Hlt. split; [done |]. intros k v [i Hi]%list_elem_of_lookup Hk.
      pose proof (upper_bound_spec chain_height m i k v Ho Hi) as Hs.
      assert (k <= k0); [| lia]. destruct (decide (i = it)) as [-> | Hi'].
      { rewrite H0 in Hi. injection Hi as -> _. lia. }
      apply Z.lt_le_incl. eapply (ordered_lookup_lt m i it); eauto. lia.
    + intros [_ Hall]. eapply Hall; [by eapply list_elem_of_lookup_2 | lia].
Qed.

(** ** The proof-of-work gate *)

(** The gate's state after start-up: the quick sync ceiling and the assumed
    valid height are anchored by the checkpoints [cp]. *)
Definition anchored (cp : points) (st : sync_state) : Prop :=
  0 <= get_max_height cp /\ m_quicksync_max_height st <= get_max_height cp /\
  forall cfg, get_config (m_nettype st) = Ok cfg -> m_nettype st <> FAKECHAIN ->
    ASSUME_VALID_HEIGHT cfg = 0 \/ ASSUME_VALID_HEIGHT cfg <= get_max_height cp.

Lemma set_quicksync_anchored st qs :
  anchored (m_checkpoints st) st -> anchored (m_checkpoints (set_quicksync st qs)) (set_quicksync st qs).
Proof.
  unfold set_quicksync. destruct (quicksync_check_against_checkpoints _ _); cbn [negb]; [| done].
  intros (? & _ & ?). split_and!; cbn; [done | lia | done].
Qed.

Lemma default_max_nonneg r cp : init_default_checkpoints MAINNET [] = Ok (r, cp) -> 0 <= get_max_height cp.
Proof.
  intros E. assert (exists r' cp', init_default_checkpoints MAINNET [] = Ok (r', cp') /\
    (0 <=? get_max_height cp') = true) as (r' & cp' & E' & H).
  { eexists _, _. split; vm_compute; reflexivity. }
  rewrite E in E'. injection E' as _ ->. lia.
Qed.

Lemma start_sync_anchored nettype fast file st :
  start_sync nettype fast file = Ok st ->
  m_nettype st = nettype /\ m_fast_sync st = fast /\ anchored (m_checkpoints st) st /\
  ordered (m_checkpoints st).
Proof.
  unfold start_sync. intros E.
  destruct (if decide (nettype = MAINNET) then _ else _) as [[ok cp] | |] eqn:Ec; [| done..].
  simpl_bind in E. destruct ok; cbn [negb] in E; [| done].
  assert (Hc : ordered cp /\ 0 <= get_max_height cp /\
    forall cfg, get_config nettype = Ok cfg -> nettype <> FAKECHAIN ->
      ASSUME_VALID_HEIGHT cfg = 0 \/ ASSUME_VALID_HEIGHT cfg <= get_max_height cp).
  { case_decide as Hd.
    - subst nettype. pose proof (default_max_nonneg _ _ Ec).
      destruct (init_default_spec MAINNET [] true cp ltac:(constructor) Ec) as [Ho Hd].
      destruct (Hd eq_refl) as (cfg & Hcfg & Hav). split_and!; [done | done |].
      intros cfg' Hcfg' _. rewrite Hcfg in Hcfg'. injection Hcfg' as <-.
      destruct Hav as [| Hav]; [done | exact Hav].
    - injection Ec as <-. split_and!; [constructor | done |]. intros cfg Hcfg Hf. left.
      destruct nettype; cbn in Hcfg; try done; by injection Hcfg as <-. }
  destruct Hc as (Ho & Hmax & Hav). set (st0 := Sync_state _ _ cp _ _) in E.
  assert (Hst0 : anchored (m_checkpoints st0) st0) by (split_and!; [done | done | exact Hav]).
  destruct (load file) as [qs |]; injection E as <-; [| done].
  assert (Hq : m_nettype (set_quicksync st0 qs) = nettype /\
    m_fast_sync (set_quicksync st0 qs) = fast /\ m_checkpoints (set_quicksync st0 qs) = cp).
  { unfold set_quicksync. by destruct (quicksync_check_against_checkpoints _ _). }
  destruct Hq as (-> & -> & Hq).
  split_and!; [done | done | by apply set_quicksync_anchored | by rewrite Hq].
Qed.

Lemma needs_pow_false cp st h id :
  anchored cp st -> block_needs_pow st h id = Ok false ->
  m_fast_sync st = true /\ m_nettype st <> FAKECHAIN /\ h <= get_max_height cp.
Proof.
  intros (Hmax & Hq & Hav) E. unfold block_needs_pow in E.
  destruct (get_config (m_nettype st)) as [cfg | |] eqn:Ec; [| done..].
  simpl_bind in E. specialize (Hav cfg eq_refl).
  destruct (quicksync_check_block _ _ _) as [qm qh]. injection E as E.
  apply orb_false_iff in E as [E _].
  destruct (m_fast_sync st); [| by rewrite !andb_false_l in E].
  destruct (decide (m_nettype st = FAKECHAIN)) as [Hf | Hf].
  { by rewrite bool_decide_false in E by (by intros []). }
  rewrite bool_decide_true in E by done. cbn [andb] in E. split_and!; [done | done |].
  specialize (Hav Hf).
  destruct (Z.leb_spec h (m_quicksync_max_height st)); [lia |].
  destruct (Z.ltb_spec h (ASSUME_VALID_HEIGHT cfg)); [| by rewrite andb_false_r in E].
  destruct (Z.eqb_spec (ASSUME_VALID_HEIGHT cfg) 0); [done | lia].
Qed.

(** C24: after start-up, with any quick sync file and any checkpoints added later,
    a block that passes the tests of the main chain either carries enough proof
    of work for the difficulty or lies at or below the highest hard-coded
    checkpoint on a node that synchronises in fast mode; and at the height of
    any checkpoint it is the checkpointed block. *)
Theorem accepted_block_anchored nettype fast file st0 points h id longhash difficulty :
  start_sync nettype fast file = Ok st0 -> ordered points ->
  let st := Sync_state (m_nettype st0) (m_fast_sync st0) points (m_quicksync st0)
              (m_quicksync_max_height st0) in
  pow_and_checkpoint_tests st h id longhash difficulty = Ok true ->
  ((exists pow, longhash = Some pow /\ check_hash pow difficulty = true) \/
   (fast = true /\ nettype <> FAKECHAIN /\ h <= get_max_height (m_checkpoints st0))) /\
  (forall c, find h points = Some c -> id = c).
Proof.
  intros Hst Ho st Ht. destruct (start_sync_anchored _ _ _ _ Hst) as (En & Ef & Ha & _).
  unfold pow_and_checkpoint_tests in Ht.
  destruct (block_needs_pow st h id) as [needs | |] eqn:En'; [| done..].
  simpl_bind in Ht.
  destruct (if needs then _ else _) eqn:Ep; cbn [negb] in Ht; [| done]. split.
  - destruct needs.
    + left. destruct longhash as [pow |]; [by exists pow | done].
    + right. rewrite <- En, <- Ef. by apply (needs_pow_false (m_checkpoints st0) st h id).
  - intros c Hc. change (m_checkpoints st) with points in Ht.
    rewrite (zone_covers points h c Ho Hc) in Ht. unfold check_block in Ht. rewrite Hc in Ht.
    cbn [fst andb] in Ht. destruct (bool_decide (c = id)) eqn:Eb; [| done].
    by apply bool_decide_eq_true in Eb.
Qed.

(** Loading checkpoints from a JSON file and from DNS, whatever they
    contain, keeps every checkpoint already in the table. *)
Theorem load_new_checkpoints_extends json dns m r m' :
  ordered m -> load_new_checkpoints json dns m = (r, m') ->
  ordered m' /\ forall k v, find k m = Some v -> find k m' = Some v.
Proof.
  intros Ho. unfold load_new_checkpoints.
  destruct (load_checkpoints_from_json json m) as [r1 m1] eqn:E1.
  destruct (load_json_extends json m r1 m1 Ho E1) as [Ho1 Hf1].
  destruct dns as [records |]; [| by intros [= <- <-]].
  destruct (load_checkpoints_from_dns records m1) as [r2 m2] eqn:E2. intros [= <- <-].
  destruct (load_dns_extends records m1 r2 m2 Ho1 E2) as [Ho2 Hf2]. eauto.
Qed.

(** ** The quick sync file *)

Lemma read_hashes_find hs rest h m k :
  Forall (fun x => length x = 32%nat) hs -> 0 <= h -> h + zlen hs < 2 ^ 64 ->
  find k (read_hashes (length hs) h (concat hs ++ rest) m) =
  if (h <=? k) && (k <? h + zlen hs) then hs !! Z.to_nat (k - h) else find k m.
Proof.
  intros Hall. revert h m. induction Hall as [| x hs Hx Hall IH]; intros h m Hh Hb.
  - cbn [length read_hashes]. unfold zlen. cbn [length].
    destruct (Z.leb_spec h k), (Z.ltb_spec k (h + Z.of_nat 0)); try done; lia.
  - rewrite zlen_cons in *. pose proof (zlen_nonneg hs). cbn [length read_hashes concat].
    rewrite <- !app_assoc, <- Hx, drop_app_length, take_app_length, u64_small by lia.
    rewrite IH by lia. destruct (decide (k = h)) as [-> | Hne].
    + rewrite find_assign_eq, Z.sub_diag.
      destruct (Z.leb_spec (h + 1) h); [lia |]. cbn [andb].
      rewrite Z.leb_refl. by destruct (Z.ltb_spec h (h + (zlen hs + 1))); [| lia].
    + rewrite find_assign_ne by done. replace (h + 1 + zlen hs) with (h + (zlen hs + 1)) by lia.
      destruct (Z.leb_spec (h + 1) k), (Z.leb_spec h k); try lia; cbn [andb]; [| done].
      destruct (Z.ltb_spec k (h + (zlen hs + 1))); [| done].
      by replace (Z.to_nat (k - h)) with (S (Z.to_nat (k - (h + 1)))) by lia.
Qed.

Lemma le_bytes_encode4 x : 0 <= x < 2 ^ 32 -> le_bytes (le_encode 4 x) = x.
Proof. apply (le_bytes_encode 4). Qed.

Lemma header_fields a b c (rest : list Z) :
  length a = 4%nat -> length b = 4%nat -> length c = 4%nat ->
  let f := (a ++ b ++ c) ++ rest in
  take 4 f = a /\ take 4 (drop 4 f) = b /\ take 4 (drop 8 f) = c /\ drop 12 f = rest /\
  12 <= zlen f.
Proof.
  intros Ha Hb Hc f.
  do 5 (destruct a as [| ? a]; try done). do 5 (destruct b as [| ? b]; try done).
  do 5 (destruct c as [| ? c]; try done). subst f. cbn. rewrite ?take_0, ?drop_0.
  split_and!; [done.. |]. unfold zlen. cbn. lia.
Qed.

(** The file exported for the blocks [start] to [stop] loads, and the loaded
    table holds the hash of exactly the blocks from [start] up to but not
    including [stop]. *)
Theorem quicksync_export_load chain start stop :
  Forall (fun x => length x = 32%nat) chain ->
  0 <= start <= stop -> 0 < stop < zlen chain -> stop < 2 ^ 32 ->
  exists q, load (Some (store_blockchain chain start stop)) = Some q /\
    q_is_loaded q = true /\
    forall k, find k (q_data q) = if (start <=? k) && (k <? stop) then znth chain k else None.
Proof.
  intros Hall Hs Hstop H32. unfold store_blockchain, initialize_file.
  destruct (Z.eqb_spec stop 0) as [| Hn0]; [lia |]. rewrite !u32_small by lia.
  set (f := fun i => default (replicate 32 0) (znth chain (start + Z.of_nat i))).
  set (n := Z.to_nat (stop - start)).
  replace (Z.to_nat (stop - start + 1)) with (S n) by lia.
  rewrite seq_S, map_app, concat_app. cbn [map concat]. rewrite app_nil_r.
  set (hs := map f (seq 0 n)).
  assert (Hhs : Forall (fun x => length x = 32%nat) hs).
  { apply Forall_fmap, Forall_forall. intros i [_ Hi]%elem_of_seq. cbn.
    unfold f. destruct (znth_is_Some chain (start + Z.of_nat i)) as [x Hx]; [lia |].
    rewrite Hx. rewrite Forall_forall in Hall. apply Hall. unfold znth in Hx.
    destruct (_ <? 0); [done |]. by eapply list_elem_of_lookup_2. }
  assert (Hlen : length hs = n) by (unfold hs; by rewrite length_map, length_seq).
  destruct (header_fields (le_encode 4 quicksync_magic) (le_encode 4 start) (le_encode 4 stop)
    (concat hs ++ f (0 + n)%nat)) as (E1 & E2 & E3 & E4 & E5); [by rewrite le_encode_length.. |].
  set (file := (_ ++ _ ++ _) ++ _) in *. unfold load. cbn [mbind option_bind].
  rewrite E1, E2, E3, E4. rewrite !le_bytes_encode4 by (unfold quicksync_magic; lia).
  rewrite Z.eqb_refl. cbn [negb]. destruct (Z.ltb_spec (zlen file) 12); [lia |].
  destruct (Z.ltb_spec stop start); [lia |].
  rewrite (u64_small (stop - start)), u64_small by lia.
  assert (Hcl : zlen (concat hs) = 32 * zlen hs).
  { clear - Hhs. induction Hhs as [| x l Hx _ IH]; [done |]. cbn [concat].
    rewrite zlen_app, zlen_cons, IH. unfold zlen at 1. lia. }
  rewrite zlen_app, Hcl. pose proof (zlen_nonneg (f (0 + n)%nat)). unfold zlen at 1. rewrite Hlen.
  destruct (Z.ltb_spec (32 * Z.of_nat n + zlen (f (0 + n)%nat)) ((stop - start) * 32)); [lia |].
  eexists. split; [done |]. cbn [q_is_loaded q_data]. split; [done |]. intros k.
  fold n. rewrite <- Hlen, read_hashes_find by (done || lia || (unfold zlen; lia)). unfold zlen. rewrite Hlen.
  replace (start + Z.of_nat n) with stop by lia.
  destruct (Z.leb_spec start k), (Z.ltb_spec k stop); try done. cbn [andb].
  unfold hs. rewrite list_lookup_fmap, lookup_seq_lt by lia. cbn. unfold f.
  replace (start + Z.of_nat (Z.to_nat (k - start))) with k by lia.
  destruct (znth_is_Some chain k) as [x Hx]; [lia |]. by rewrite Hx.
Qed.

(** ** Enforcing the checkpoints on the stored chain *)

Lemma znth_prefix {A} (l k : list A) i x : l `prefix_of` k -> znth l i = Some x -> znth k i = Some x.
Proof.
  intros [r ->]. unfold znth. destruct (i <? 0); [done |]. by apply lookup_app_l_Some.
Qed.

Lemma rollback_prefix chain h chain' :
  rollback_chain chain h = Ok chain' -> chain' `prefix_of` chain.
Proof.
  unfold rollback_chain. destruct (zlen chain <? h); [by intros [= <-] |].
  destruct (_ && _); [done |]. intros [= <-]. apply prefix_take.
Qed.

Lemma rollback_below chain k chain' :
  2 <= k < zlen chain -> k < 2 ^ 64 -> rollback_chain chain (k -! 2) = Ok chain' ->
  zlen chain' = k - 2.
Proof.
  intros Hk Hb. rewrite u64_small by lia. unfold rollback_chain.
  destruct (Z.ltb_spec (zlen chain) (k - 2)); [lia |].
  destruct (_ && _); [done |]. intros [= <-]. unfold zlen in *. rewrite length_take. lia.
Qed.

Lemma enforce_loop_sound pts all bh chain chain' :
  (forall k v, (k, v) ∈ pts -> find k all = Some v /\ 0 <= k < 2 ^ 64) -> zlen chain <= bh ->
  enforce_loop pts all true bh chain = Ok chain' ->
  chain' `prefix_of` chain /\
  forall k v id, (k, v) ∈ pts -> 2 <= k -> znth chain' k = Some id -> id = v.
Proof.
  revert chain. induction pts as [| [k v] pts IH]; intros chain Hall Hbh E; cbn [enforce_loop] in E.
  { injection E as <-. split; [done |]. by intros ? ? ? ?%not_elem_of_nil. }
  assert (Hall' : forall k' v', (k', v') ∈ pts -> find k' all = Some v' /\ 0 <= k' < 2 ^ 64).
  { intros. apply Hall. by right. }
  assert (Hstep : forall chain1, chain1 `prefix_of` chain ->
    enforce_loop pts all true bh chain1 = Ok chain' ->
    (2 <= k -> forall id, znth chain1 k = Some id -> id = v) ->
    chain' `prefix_of` chain /\
    forall k' v' id, (k', v') ∈ (k, v) :: pts -> 2 <= k' -> znth chain' k' = Some id -> id = v').
  { intros chain1 Hp E1 Hk. apply IH in E1 as [Hp1 Hm]; [| done |].
    - split; [by etrans |]. intros k' v' id [[= -> ->] | Hin]%elem_of_cons Hk' Hid; [| by eapply Hm].
      apply (Hk Hk'). by eapply znth_prefix.
    - apply prefix_length in Hp. unfold zlen in *. lia. }
  destruct (Z.leb_spec bh k).
  { apply (Hstep chain); [done | done |]. intros _ id Hid%znth_Some. lia. }
  destruct (znth chain k) as [id0 |] eqn:Eid; [| done].
  destruct (Hall k v ltac:(by left)) as [Hf Hkr]. pose proof (znth_Some _ _ _ Eid) as Hlen.
  unfold check_block in E. rewrite Hf in E. cbn [fst] in E.
  destruct (bool_decide (v = id0)) eqn:Eb.
  - apply bool_decide_eq_true in Eb as ->.
    apply (Hstep chain); [done | done |]. intros _ id Hid. congruence.
  - destruct (rollback_chain chain (k -! 2)) as [chain1 | |] eqn:Er; [| done..].
    simpl_bind in E. apply (Hstep chain1); [by eapply rollback_prefix | done |].
    intros Hk id Hid%znth_Some. rewrite (rollback_below chain k chain1) in Hid by (done || lia). lia.
Qed.

(** When enforcing the checkpoints on the stored chain returns, the chain is
    a prefix of the previous one and contradicts no checkpoint from height 2
    on. (For a checkpoint at height 0 or 1 the rollback height wraps around and
    nothing is rolled back.) *)
Theorem enforce_checkpoints_sound pts chain chain' :
  ordered pts -> Forall (fun e => in_u 64 e.1) pts ->
  check_against_checkpoints pts true chain = Ok chain' ->
  chain' `prefix_of` chain /\
  forall k v id, find k pts = Some v -> 2 <= k -> znth chain' k = Some id -> id = v.
Proof.
  intros Ho Hb E. apply enforce_loop_sound in E as [Hp Hm]; [| | done].
  - split; [done |]. intros k v id Hf. apply Hm. by apply find_elem_of.
  - intros k v Hin. split; [by apply find_elem_of |].
    rewrite Forall_forall in Hb. apply (Hb _ Hin).
Qed.

(** The two failures of the enforcement: a wrong block at height 1 stays, and
    after a rollback the next checkpoint below the old height is looked up in
    the shortened chain, which throws. *)
Lemma enforce_height_1 :
  check_against_checkpoints [(1, [1])] true [[0]; [2]; [3]] = Ok [[0]; [2]; [3]].
Proof. reflexivity. Qed.

Lemma enforce_after_rollback :
  check_against_checkpoints [(3, [1]); (4, [4])] true [[0]; [1]; [2]; [3]; [4]] = Throw "BLOCK_DNE".
Proof. reflexivity. Qed.

(** ** Instances *)

Definition example_points : points := [(1, [1]); (4, [4])].

Lemma alternative_block_exact_witness :
  is_alternative_block_allowed example_points 5 5 = true /\
  is_alternative_block_allowed example_points 5 4 = false.
Proof.
  split; [| reflexivity]. apply alternative_block_exact; [by_decide |].
  split; [done |]. intros k v Hin _. unfold example_points in Hin.
  rewrite !elem_of_cons in Hin. destruct Hin as [[= -> _] | [[= -> _] | Hin]]; [lia | lia |].
  by apply not_elem_of_nil in Hin.
Defined.

Lemma load_new_checkpoints_extends_witness :
  exists r m', load_new_checkpoints (Some (Some [(9, codes "zz")])) None example_points = (r, m') /\
    find 4 m' = Some [4].
Proof.
  eexists _, _. split; [reflexivity |].
  apply (load_new_checkpoints_extends (Some (Some [(9, codes "zz")])) None example_points false _
    ltac:(by_decide) eq_refl). reflexivity.
Defined.

Lemma enforce_checkpoints_sound_witness :
  [[0]; [1]; [2]; [3]] `prefix_of` [[0]; [1]; [2]; [3]; [4]; [5]; [6]].
Proof.
  apply (enforce_checkpoints_sound [(1, [1]); (6, [7])]
    [[0]; [1]; [2]; [3]; [4]; [5]; [6]] [[0]; [1]; [2]; [3]]); [by_decide | by_decide | reflexivity].
Defined.

Lemma quicksync_export_load_witness :
  exists q, load (Some (store_blockchain (replicate 4 (replicate 32 7)) 1 3)) = Some q /\
    find 2 (q_data q) = Some (replicate 32 7) /\ find 3 (q_data q) = None.
Proof.
  destruct (quicksync_export_load (replicate 4 (replicate 32 7)) 1 3) as (q & E & _ & Hf);
    [by_decide | lia | vm_compute; done | lia |].
  exists q. split_and!; [exact E | by rewrite Hf | by rewrite Hf].
Defined.

(** The main network in fast mode: the proof of work of a block above the last
    hard-coded checkpoint is verified. *)
Definition example_started : sync_state :=
  match start_sync MAINNET true None with
  | Ok st => st
  | _ => Sync_state MAINNET true [] no_quicksync 0
  end.

Lemma accepted_block_anchored_witness :
  4000000 <= get_max_height (m_checkpoints example_started).
Proof.
  destruct (accepted_block_anchored MAINNET true None example_started [] 4000000 [1] None 1000)
    as [[(pow & [=] & _) | (_ & _ & H)] _]; [| by_decide | | exact H].
  - vm_compute. reflexivity.
  - vm_compute. reflexivity.
Defined.
