(* ===== verification/Varint.v ===== *)
(** * Variable-length integers: [src/common/varint.h]

    The codec for an unsigned type of [bits] bits. A varint is a list of
    bytes. *)
From S2P Require Import Prelude.
From Stdlib Require Import Bool.

Open Scope Z_scope.

(** Source: src/src/common/varint.h:58-63 (EVARINT_OVERFLOW) *)
Definition EVARINT_OVERFLOW : Z := -1.

(** Source: src/src/common/varint.h:58-63 (EVARINT_REPRESENT) *)
Definition EVARINT_REPRESENT : Z := -2.

(** The loop runs at most nine times on 64 bits; [fuel] counts the bytes that
    have a successor.
    Source: src/src/common/varint.h:67-80 (write_varint) *)
Fixpoint write_varint_loop (fuel : nat) (i : Z) : list Z :=
  match fuel with
  | O => [u8 i]
  | S fuel =>
      if 0x80 <=? i
      then Z.lor (Z.land i 0x7f) 0x80 :: write_varint_loop fuel (Z.shiftr i 7)
      else [u8 i]
  end.

(** Source: src/src/common/varint.h:84-90 (get_varint_data) *)
Definition get_varint_data (v : Z) : list Z := write_varint_loop 9 v.
#[global] Arguments get_varint_data v : simpl never.

(** The result, the value written and the input left. The input is a list, so
    the loop ends.
    Source: src/src/common/varint.h:98-119 (read_varint) *)
Fixpoint read_varint_loop (bits shift read write : Z) (input : list Z) : Z * Z * list Z :=
  match input with
  | [] => (read, write, [])
  | byte :: rest =>
      if (bits <=? shift + 7) && (Z.shiftl 1 (bits - shift) <=? byte)
      then (EVARINT_OVERFLOW, write, rest)
      else if (byte =? 0) && negb (shift =? 0) then (EVARINT_REPRESENT, write, rest)
      else
        let write := Z.lor write (wrap bits (Z.shiftl (Z.land byte 0x7f) shift)) in
        if Z.land byte 0x80 =? 0 then (read + 1, write, rest)
        else read_varint_loop bits (shift + 7) (read + 1) write rest
  end.

(** Source: src/src/common/varint.h:93-120 (read_varint) *)
Definition read_varint (bits : Z) (input : list Z) : Z * Z * list Z :=
  read_varint_loop bits 0 0 0 input.

(** * Properties *)

(** The two fields of a byte. *)
Lemma byte_fields b : 0 <= b < 256 ->
  Z.land b 0x7f = b mod 128 /\ (Z.land b 0x80 =? 0) = (b <? 128).
Proof.
  intros Hb. pose proof (all_bytes (fun b => (Z.land b 0x7f =? b mod 128) &&
    eqb (Z.land b 0x80 =? 0) (b <? 128)) eq_refl b Hb) as H.
  apply andb_true_iff in H as [H1%Z.eqb_eq H2%eqb_prop]. done.
Qed.

Lemma continuation_byte i : Z.lor (Z.land i 0x7f) 0x80 = i mod 128 + 128.
Proof.
  pose proof (Z.mod_pos_bound i (2 ^ 7) ltac:(lia)) as Hm.
  pose proof (lor_shiftl_add 1 (i mod 2 ^ 7) 7 ltac:(lia) Hm) as E.
  rewrite <- land_mask in E by lia. rewrite Z.lor_comm. etrans; [exact E |].
  rewrite land_mask by lia. change (2 ^ 7) with 128. lia.
Qed.

(** Appending seven bits above the [shift] bits read so far. *)
Lemma accumulate bits shift write x :
  0 <= shift -> 0 <= write < 2 ^ shift -> 0 <= x -> x * 2 ^ shift < 2 ^ bits ->
  Z.lor write (wrap bits (Z.shiftl x shift)) = write + x * 2 ^ shift.
Proof.
  intros Hs Hw Hx Hb. assert (0 < 2 ^ shift) by (apply Z.pow_pos_nonneg; lia).
  rewrite (wrap_small bits) by (unfold in_u; rewrite Z.shiftl_mul_pow2 by lia; nia).
  rewrite Z.lor_comm, lor_shiftl_add by lia. lia.
Qed.

(** The last byte of an encoding. *)
Lemma read_last_byte bits shift read acc i rest :
  0 <= shift < bits -> 0 <= acc < 2 ^ shift -> 0 <= i < 2 ^ (bits - shift) -> i < 128 ->
  (shift = 0 \/ 0 < i) ->
  read_varint_loop bits shift read acc (i :: rest) = (read + 1, acc + i * 2 ^ shift, rest).
Proof.
  intros Hs Ha Hi Hlt Hpos.
  assert (2 ^ (bits - shift) * 2 ^ shift = 2 ^ bits) by (rewrite <- Z.pow_add_r by lia; f_equal; lia).
  cbn [read_varint_loop]. rewrite Z.shiftl_1_l. destruct (byte_fields i ltac:(lia)) as [-> ->].
  rewrite (Z.mod_small i 128) by lia. destruct (Z.leb_spec (2 ^ (bits - shift)) i); [lia |].
  rewrite andb_false_r. assert ((i =? 0) && negb (shift =? 0) = false) as ->.
  { destruct (Z.eqb_spec i 0), (Z.eqb_spec shift 0); cbn; try done; lia. }
  destruct (Z.ltb_spec i 128); [| lia]. by rewrite accumulate by nia.
Qed.

(** A byte with a successor. *)
Lemma read_more bits shift read acc b rest :
  0 <= shift -> shift + 7 < bits -> 0 <= acc < 2 ^ shift -> 128 <= b < 256 ->
  read_varint_loop bits shift read acc (b :: rest) =
  read_varint_loop bits (shift + 7) (read + 1) (acc + (b - 128) * 2 ^ shift) rest /\
  0 <= acc + (b - 128) * 2 ^ shift < 2 ^ (shift + 7).
Proof.
  intros Hs Hb Ha Hr. cbn [read_varint_loop].
  destruct (byte_fields b ltac:(lia)) as [-> ->].
  destruct (Z.leb_spec bits (shift + 7)); [lia |]. cbn [andb].
  destruct (Z.eqb_spec b 0); [lia |]. cbn [andb]. destruct (Z.ltb_spec b 128); [lia |].
  replace (b mod 128) with (b - 128)
    by (symmetry; rewrite <- (Z.mod_small (b - 128) 128) by lia; rewrite <- (Z_mod_plus_full (b - 128) 1 128); f_equal; lia).
  assert (Hsh : 2 ^ (shift + 7) = 2 ^ shift * 128) by (rewrite Z.pow_add_r by lia; done).
  assert (2 ^ (shift + 7) <= 2 ^ bits) by (apply Z.pow_le_mono_r; lia).
  rewrite accumulate by nia. split; [done | nia].
Qed.

Lemma read_write_loop bits fuel shift read acc i rest :
  0 <= shift < bits -> 0 <= acc < 2 ^ shift -> 0 <= i < 2 ^ (bits - shift) ->
  i < 128 * 128 ^ Z.of_nat fuel -> (shift = 0 \/ 0 < i) ->
  let enc := write_varint_loop fuel i in
  read_varint_loop bits shift read acc (enc ++ rest) =
    (read + zlen enc, acc + i * 2 ^ shift, rest).
Proof.
  revert shift read acc i. induction fuel as [| fuel IH]; intros shift read acc i Hs Ha Hi Hf Hpos enc;
    subst enc; cbn [write_varint_loop].
  { change (128 ^ Z.of_nat 0) with 1 in Hf. rewrite u8_small by lia. by apply read_last_byte; try lia. }
  destruct (Z.leb_spec 0x80 i) as [Hge | Hlt].
  2: { rewrite u8_small by lia. by apply read_last_byte. }
  rewrite continuation_byte. cbn [app]. pose proof (Z.mod_pos_bound i 128 ltac:(lia)) as Hm.
  assert (7 < bits - shift).
  { apply (Z.pow_lt_mono_r_iff 2); [lia | lia |]. change (2 ^ 7) with 128. lia. }
  destruct (read_more bits shift read acc (i mod 128 + 128) (write_varint_loop fuel (Z.shiftr i 7) ++ rest))
    as [-> Hacc]; [lia.. |].
  rewrite shiftr_div by lia. change (2 ^ 7) with 128.
  assert (Hpow : 2 ^ (bits - shift) = 2 ^ (bits - (shift + 7)) * 128).
  { change 128 with (2 ^ 7). rewrite <- Z.pow_add_r by lia. f_equal. lia. }
  assert (Hsh : 2 ^ (shift + 7) = 2 ^ shift * 128) by (rewrite Z.pow_add_r by lia; done).
  pose proof (Z.div_mod i 128 ltac:(lia)) as Hdm. rewrite IH; try lia.
  - rewrite zlen_cons, Hsh. f_equal. f_equal; [lia | nia].
  - rewrite Nat2Z.inj_succ, Z.pow_succ_r in Hf by lia. apply Z.div_lt_upper_bound; lia.
Qed.

Lemma write_bytes fuel i : 0 <= i -> bytes (write_varint_loop fuel i).
Proof.
  revert i. induction fuel as [| fuel IH]; intros i Hi; cbn [write_varint_loop].
  - apply Forall_singleton. apply wrap_range. lia.
  - destruct (0x80 <=? i).
    + constructor; [| apply IH, Z.shiftr_nonneg, Hi]. rewrite continuation_byte.
      pose proof (Z.mod_pos_bound i 128 ltac:(lia)). unfold in_u. lia.
    + apply Forall_singleton. apply wrap_range. lia.
Qed.

Lemma write_length fuel i : 0 < zlen (write_varint_loop fuel i) <= Z.of_nat fuel + 1.
Proof.
  revert i. induction fuel as [| fuel IH]; intros i; cbn [write_varint_loop].
  - unfold zlen. cbn. lia.
  - destruct (0x80 <=? i); [rewrite zlen_cons; specialize (IH (Z.shiftr i 7)); lia |].
    unfold zlen. cbn [length]. lia.
Qed.

(** What a successful read says about the input. *)
Lemma read_loop_sound bits shift read acc l r v rest :
  bytes l -> 0 <= shift < bits -> 0 <= acc < 2 ^ shift -> 0 <= read ->
  read_varint_loop bits shift read acc l = (r, v, rest) -> 0 < r ->
  (exists i, v = acc + i * 2 ^ shift /\ 0 <= i < 2 ^ (bits - shift) /\ (shift = 0 \/ 0 < i) /\
     forall fuel, i < 128 * 128 ^ Z.of_nat fuel -> l = write_varint_loop fuel i ++ rest) \/
  (rest = [] /\ default 128 (last l) >= 128).
Proof.
  intros Hl. revert shift read acc. induction Hl as [| b l Hb Hl IH]; intros shift read acc Hs Ha Hr E Hpos.
  { injection E as <- <- <-. right. cbn. split; [done | lia]. }
  unfold in_u in Hb. destruct (Z.ltb_spec b 128) as [Hlt | Hge].
  - left. exists b. assert (Hover : b < 2 ^ (bits - shift)).
    { cbn [read_varint_loop] in E. rewrite Z.shiftl_1_l in E.
      destruct (Z.leb_spec bits (shift + 7)), (Z.leb_spec (2 ^ (bits - shift)) b); cbn [andb] in E; try lia.
      - injection E as <- _ _. unfold EVARINT_OVERFLOW in Hpos. lia.
      - assert (2 ^ 7 <= 2 ^ (bits - shift)) by (apply Z.pow_le_mono_r; lia). lia. }
    assert (Hz : shift = 0 \/ 0 < b).
    { cbn [read_varint_loop] in E. rewrite Z.shiftl_1_l in E.
      destruct (Z.leb_spec (2 ^ (bits - shift)) b); [lia |]. rewrite andb_false_r in E.
      destruct (Z.eqb_spec b 0), (Z.eqb_spec shift 0); cbn [andb negb] in E; try lia.
      injection E as <- _ _. unfold EVARINT_REPRESENT in Hpos. lia. }
    rewrite read_last_byte in E by (done || lia). injection E as _ <- <-.
    split_and!; [done | lia | lia | done |]. intros fuel _.
    destruct fuel; cbn [write_varint_loop]; [by rewrite u8_small by lia |].
    destruct (Z.leb_spec 0x80 b); [lia |]. by rewrite u8_small by lia.
  - assert (Hsb : shift + 7 < bits).
    { destruct (Z.leb_spec bits (shift + 7)) as [Hbs |]; [| lia]. cbn [read_varint_loop] in E.
      rewrite (proj2 (Z.leb_le bits (shift + 7)) Hbs), Z.shiftl_1_l in E. cbn [andb] in E.
      assert (2 ^ (bits - shift) <= 2 ^ 7) by (apply Z.pow_le_mono_r; lia).
      destruct (Z.leb_spec (2 ^ (bits - shift)) b); [| lia].
      injection E as <- _ _. unfold EVARINT_OVERFLOW in Hpos. lia. }
    destruct (read_more bits shift read acc b l) as [Em Hacc]; [lia.. |]. rewrite Em in E.
    destruct (IH (shift + 7) (read + 1) _ ltac:(lia) Hacc ltac:(lia) E Hpos)
      as [(i & Hv & Hi & Hz & Henc) | [-> Hlast]].
    + left. exists (b - 128 + 128 * i).
      assert (Hpow : 2 ^ (bits - shift) = 2 ^ (bits - (shift + 7)) * 128).
      { change 128 with (2 ^ 7). rewrite <- Z.pow_add_r by lia. f_equal. lia. }
      assert (Hsh : 2 ^ (shift + 7) = 2 ^ shift * 128) by (rewrite Z.pow_add_r by lia; done).
      split_and!; [rewrite Hv, Hsh; ring | lia | lia | lia |]. intros fuel Hf.
      destruct fuel as [| fuel]; [change (128 ^ Z.of_nat 0) with 1 in Hf; lia |].
      cbn [write_varint_loop]. destruct (Z.leb_spec 0x80 (b - 128 + 128 * i)); [| lia].
      rewrite continuation_byte, shiftr_div by lia. change (2 ^ 7) with 128.
      replace ((b - 128 + 128 * i) mod 128 + 128) with b by div_lia.
      replace ((b - 128 + 128 * i) / 128) with i by div_lia.
      cbn [app]. f_equal. apply Henc. rewrite Nat2Z.inj_succ, Z.pow_succ_r in Hf by lia. lia.
    + right. split; [done |]. destruct l; [cbn; lia | exact Hlast].
Qed.

Lemma varint_decode bits i rest :
  0 < bits <= 64 -> in_u bits i ->
  let enc := get_varint_data i in
  read_varint bits (enc ++ rest) = (zlen enc, i, rest) /\ bytes enc /\ 0 < zlen enc <= 10.
Proof.
  intros Hb Hi enc. unfold in_u in Hi.
  assert (2 ^ bits <= 2 ^ 64) by (apply Z.pow_le_mono_r; lia). split; [| split].
  - unfold read_varint, enc, get_varint_data.
    rewrite read_write_loop; [f_equal; f_equal; lia | lia | lia | rewrite Z.sub_0_r; lia | |];
      [change (128 * 128 ^ Z.of_nat 9) with (2 ^ 70); lia | by left].
  - apply write_bytes. lia.
  - apply (write_length 9).
Qed.

(** Reading back a written integer of at most 64 bits gives the integer,
    the number of bytes written, and leaves the rest of the input. *)
Theorem varint_roundtrip bits i rest :
  0 < bits <= 64 -> in_u bits i ->
  let enc := get_varint_data i in
  read_varint bits (enc ++ rest) = (zlen enc, i, rest) /\ bytes enc /\ 0 < zlen enc <= 10.
Proof. apply varint_decode. Qed.

Lemma read_loop_counts bits shift read acc l r v rest :
  read_varint_loop bits shift read acc l = (r, v, rest) -> 0 <= r -> read <= r /\ (l <> [] -> read < r).
Proof.
  revert shift read acc. induction l as [| b l IH]; intros shift read acc E Hr; cbn [read_varint_loop] in E.
  { injection E as <- _ _. split; [lia | done]. }
  repeat case_match; try (injection E as <- _ _; unfold EVARINT_OVERFLOW, EVARINT_REPRESENT in *; lia).
  apply IH in E; [lia | done].
Qed.

Lemma read_loop_nonneg bits shift read acc l r v rest :
  read_varint_loop bits shift read acc l = (r, v, rest) -> 0 <= bits -> 0 <= acc -> 0 <= v.
Proof.
  revert shift read acc. induction l as [| b l IH]; intros shift read acc E Hb Ha; cbn [read_varint_loop] in E.
  { by injection E as _ <- _. }
  pose proof (wrap_range bits (Z.shiftl (Z.land b 127) shift) Hb) as [Hw _].
  repeat case_match; try (injection E as _ <- _; try done; by apply Z.lor_nonneg).
  apply IH in E; [done.. |]. by apply Z.lor_nonneg.
Qed.

Lemma varint_sound bits l r v rest :
  0 < bits <= 64 -> bytes l -> read_varint bits l = (r, v, rest) -> 0 < r ->
  (l = get_varint_data v ++ rest /\ in_u bits v) \/ (rest = [] /\ default 128 (last l) >= 128).
Proof.
  intros Hb Hl E Hr.
  destruct (read_loop_sound bits 0 0 0 l r v rest Hl ltac:(lia) ltac:(lia) ltac:(lia) E Hr)
    as [(i & Hv & Hi & _ & Henc) | H]; [left | by right].
  rewrite Z.sub_0_r in Hi. rewrite Z.pow_0_r, Z.mul_1_r, Z.add_0_l in Hv. subst i.
  assert (2 ^ bits <= 2 ^ 64) by (apply Z.pow_le_mono_r; lia).
  split; [| done]. apply Henc. change (128 * 128 ^ Z.of_nat 9) with (2 ^ 70). lia.
Qed.

(** Any result that is not an error. *)
Lemma varint_result bits l r v rest :
  0 < bits <= 64 -> bytes l -> read_varint bits l = (r, v, rest) -> 0 <= r ->
  (l = get_varint_data v ++ rest /\ in_u bits v) \/ (rest = [] /\ default 128 (last l) >= 128).
Proof.
  intros Hb Hl E Hr. destruct (read_loop_counts _ _ _ _ _ _ _ _ E Hr) as [_ Hn].
  destruct l as [| b l]; [right | by eapply varint_sound; eauto; apply Hn].
  injection E as _ _ <-. cbn. split; [done | lia].
Qed.

(** A read that succeeds has consumed the unique encoding of its value, or
    has run off the end of an input whose last byte announces a successor
    (which the function also reports as success). *)
Theorem varint_canonical bits l r v rest :
  0 < bits <= 64 -> bytes l -> read_varint bits l = (r, v, rest) -> 0 < r ->
  (l = get_varint_data v ++ rest /\ in_u bits v) \/ (rest = [] /\ default 128 (last l) >= 128).
Proof. apply varint_sound. Qed.

Lemma varint_roundtrip_witness :
  read_varint 64 (get_varint_data UINT64_MAX ++ [7]) = (zlen (get_varint_data UINT64_MAX), UINT64_MAX, [7]).
Proof. apply varint_roundtrip; [lia | by_decide]. Defined.

Lemma varint_canonical_witness : [0xff; 0x02; 9] = get_varint_data 0x17f ++ [9].
Proof.
  destruct (varint_canonical 64 [0xff; 0x02; 9] 2 0x17f [9]) as [[H _] | [H _]];
    [lia | by_decide | reflexivity | lia | exact H | discriminate H].
Defined.

(** The two examples of the header comment, as the code reads them. *)
Lemma varint_examples :
  read_varint 64 [0x80; 0x02] = (2, 0x100, []) /\ read_varint 64 [0xff; 0x02] = (2, 0x17f, []).
Proof. split; reflexivity. Qed.

(** A truncated encoding is reported as read. *)
Lemma varint_truncated : read_varint 64 [0x80] = (1, 0, []).
Proof. reflexivity. Qed.
