(* ===== verification/FastHash.v ===== *)
(** * The interface of [cn_fast_hash] ([src/crypto/hash.c])

    What the address codec and the tree hash rely on: the hash of any input is
    a string of 32 bytes. [Keccak.v] shows that the implementation provides
    it. *)
From S2P Require Import Prelude.

Open Scope Z_scope.

(** Source: src/src/crypto/hash-ops.h:77-80 (HASH_SIZE) *)
Definition HASH_SIZE : nat := 32.

Class FastHash (hash : list Z -> list Z) : Prop := {
  fast_hash_size : forall data, length (hash data) = HASH_SIZE;
  fast_hash_bytes : forall data, bytes (hash data)
}.

Section Collisions.
Context (hash : list Z -> list Z).

(** Two different strings, one of each list, have the same hash. The lists are
    those of the strings that two computations hash, so the claim that they
    collide is much stronger than the existence of collisions, which any hash
    function has. *)
Definition collide (xs ys : list (list Z)) : Prop :=
  exists x y, x ∈ xs /\ y ∈ ys /\ x <> y /\ hash x = hash y.

Lemma collide_mono xs xs' ys ys' : xs ⊆ xs' -> ys ⊆ ys' -> collide xs ys -> collide xs' ys'.
Proof. intros Hx Hy (x & y & ? & ? & ?). exists x, y. set_solver. Qed.

Lemma hash_or_collide x y xs ys : hash x = hash y -> x ∈ xs -> y ∈ ys -> x = y \/ collide xs ys.
Proof. intros E ? ?. destruct (decide (x = y)); [by left | right; by exists x, y]. Qed.
End Collisions.

(** The alternative of a collision, kept in a case analysis. *)
Ltac or_collide := right; eapply collide_mono; [| | eassumption]; clear; set_solver.
