(* ===== verification/Keccak.v ===== *)
(** * Keccak: [src/crypto/keccak.c] and [cn_fast_hash] of [src/crypto/hash.c]

    The permutation as the code runs it on the array of 25 words, the one-shot
    hash and the streaming interface. Byte buffers are lists of bytes; the host
    is little-endian, so [swap64le] is the identity and the word view of a
    buffer is its little-endian reading. [local_abort] ends the process; it is
    modelled as an exception. *)
From S2P Require Import Prelude FastHash.

Open Scope Z_scope.

(** ** The permutation *)

(** Source: src/src/crypto/keccak.c:22-32 (keccakf_rndc) *)
Definition keccakf_rndc : list Z := [
  0x0000000000000001; 0x0000000000008082; 0x800000000000808a;
  0x8000000080008000; 0x000000000000808b; 0x0000000080000001;
  0x8000000080008081; 0x8000000000008009; 0x000000000000008a;
  0x0000000000000088; 0x0000000080008009; 0x000000008000000a;
  0x000000008000808b; 0x800000000000008b; 0x8000000000008089;
  0x8000000000008003; 0x8000000000008002; 0x8000000000000080;
  0x000000000000800a; 0x800000008000000a; 0x8000000080008081;
  0x8000000000008080; 0x0000000080000001; 0x8000000080008008].

(** Source: src/src/crypto/keccak.h:10-12 (KECCAK_ROUNDS) *)
Definition KECCAK_ROUNDS : nat := 24.

(** Source: src/src/crypto/keccak.h:14-16 (ROTL64) *)
Definition ROTL64 (x y : Z) : Z := Z.lor (x <<! y) (Z.shiftr x (64 - y)).

(** [st[i]]; every index of the code is below 25. *)
Definition word (st : list Z) (i : nat) : Z := nth i st 0.

(** [st[i] ^= t]. *)
Definition xor_at (i : nat) (t : Z) (st : list Z) : list Z := <[i := Z.lxor (word st i) t]> st.

(** Source: src/src/crypto/keccak.c:43-47 (keccakf) *)
Definition parity (st : list Z) (i : nat) : Z :=
  Z.lxor (Z.lxor (Z.lxor (Z.lxor (word st i) (word st (i + 5))) (word st (i + 10))) (word st (i + 15)))
    (word st (i + 20)).

(** Source: src/src/crypto/keccak.c:49-56 (THETA) *)
Definition THETA (bc : list Z) (i : nat) (st : list Z) : list Z :=
  let t := Z.lxor (word bc ((i + 4) mod 5)) (ROTL64 (word bc ((i + 1) mod 5)) 1) in
  xor_at (i + 20) t (xor_at (i + 15) t (xor_at (i + 10) t (xor_at (i + 5) t (xor_at i t st)))).

(** The assignments [st[d] = ROTL64(st[s], r)] in order, as triples [(d, s, r)];
    the last one reads the saved word [t].
    Source: src/src/crypto/keccak.c:65-89 (keccakf) *)
Definition rho_pi_moves : list (nat * nat * nat) := [
  (1, 6, 44); (6, 9, 20); (9, 22, 61); (22, 14, 39); (14, 20, 18); (20, 2, 62); (2, 12, 43);
  (12, 13, 25); (13, 19, 8); (19, 23, 56); (23, 15, 41); (15, 4, 27); (4, 24, 14); (24, 21, 2);
  (21, 8, 55); (8, 16, 45); (16, 5, 36); (5, 3, 28); (3, 18, 21); (18, 17, 15); (17, 11, 10);
  (11, 7, 6); (7, 10, 3)]%nat.

Definition RHO_PI (st : list Z) : list Z :=
  let t := word st 1 in
  <[10%nat := ROTL64 t 1]>
    (foldl (fun st '(d, s, r) => <[d := ROTL64 (word st s) (Z.of_nat r)]> st) st rho_pi_moves).

(** [~x & y] on 64-bit words. *)
Definition andn (x y : Z) : Z := Z.land (u64 (Z.lnot x)) y.

(** Source: src/src/crypto/keccak.c:92-103 (CHI) *)
Definition CHI (j : nat) (st : list Z) : list Z :=
  let st0 := word st j in
  let st1 := word st (j + 1) in
  let st2 := word st (j + 2) in
  let st3 := word st (j + 3) in
  let st4 := word st (j + 4) in
  let st := xor_at j (andn st1 st2) st in
  let st := xor_at (j + 1) (andn st2 st3) st in
  let st := xor_at (j + 2) (andn st3 st4) st in
  let st := xor_at (j + 3) (andn st4 st0) st in
  xor_at (j + 4) (andn st0 st1) st.

(** One round.
    Source: src/src/crypto/keccak.c:41-113 (keccakf) *)
Definition keccak_round (st : list Z) (rndc : Z) : list Z :=
  let bc := map (parity st) (seq 0 5) in
  let st := foldl (fun st i => THETA bc i st) st (seq 0 5) in
  let st := RHO_PI st in
  let st := foldl (fun st j => CHI j st) st [0; 5; 10; 15; 20]%nat in
  xor_at 0 rndc st.

(** At most the 24 rounds of the table.
    Source: src/src/crypto/keccak.c:36-114 (keccakf) *)
Definition keccakf (st : list Z) (rounds : nat) : list Z :=
  foldl keccak_round st (take rounds keccakf_rndc).

(** ** One-shot hash *)

(** The word view of a buffer. *)
Fixpoint words (n : nat) (buf : list Z) : list Z :=
  match n with
  | O => []
  | S n => le_bytes (take 8 buf) :: words n (drop 8 buf)
  end.

(** [st[i] ^= ws[i]] for every [i] below the number of words.
    Source: src/src/crypto/keccak.c:137-141 (keccak) *)
Fixpoint xor_words (ws st : list Z) : list Z :=
  match ws, st with
  | w :: ws, s :: st => Z.lxor s w :: xor_words ws st
  | _, _ => st
  end.

(** The loop over the whole blocks, and the input left. It ends within as many
    rounds as there are bytes, unless [rsiz] is 0.
    Source: src/src/crypto/keccak.c:136-143 (keccak) *)
Fixpoint absorb (fuel : nat) (rsiz : nat) (st input : list Z) : outcome (list Z * list Z) :=
  if (rsiz <=? length input)%nat
  then match fuel with
       | O => Undef
       | S fuel =>
           absorb fuel rsiz (keccakf (xor_words (words (rsiz / 8) (take rsiz input)) st) KECCAK_ROUNDS)
             (drop rsiz input)
       end
  else Ok (st, input).

(** Source: src/src/crypto/hash-ops.h:77-80 (HASH_DATA_AREA) *)
Definition HASH_DATA_AREA : Z := 136.

(** The last block: the input left, a byte 1, zeros, and the top bit of the
    last byte.
    Source: src/src/crypto/keccak.c:151-155 (keccak) *)
Definition pad (rsiz : nat) (input : list Z) : list Z :=
  let temp := input ++ [1] ++ replicate (rsiz - (length input + 1)) 0 in
  alter (fun b => Z.lor b 0x80) (rsiz - 1)%nat temp.

(** [memcpy] of the first [n] words of the state. *)
Definition squeeze (n : nat) (st : list Z) : list Z := concat (map (le_encode 8) (take n st)).

(** Source: src/src/crypto/keccak.c:119-167 (keccak) *)
Definition keccak (input : list Z) (mdlen : Z) : outcome (list Z) :=
  if (mdlen <=? 0) || ((100 <? mdlen) && negb (200 =? mdlen)) then Throw "Bad keccak use" else
  let rsiz := if 200 =? mdlen then HASH_DATA_AREA else 200 - 2 * mdlen in
  let rsizw := rsiz / 8 in
  '(st, input) ← absorb (S (length input)) (Z.to_nat rsiz) (replicate 25 0) input;
  let inlen := zlen input in
  if (144 <=? inlen + 1) || (rsiz <? inlen) || (144 <=? rsiz - inlen + inlen + 1) || (rsiz =? 0)
     || (144 <=? rsiz - 1) || (144 <? rsizw * 8) then Throw "Bad keccak use" else
  let temp := pad (Z.to_nat rsiz) input in
  let st := keccakf (xor_words (words (Z.to_nat rsizw) temp) st) KECCAK_ROUNDS in
  if negb (mdlen mod 8 =? 0) then Throw "Bad keccak use" else
  Ok (squeeze (Z.to_nat (mdlen / 8)) st).

(** Source: src/src/crypto/keccak.c:169-172 (keccak1600) *)
Definition keccak1600 (input : list Z) : outcome (list Z) := keccak input 200.

(** The bytes of the state, of which the first 32 are the hash; the call never
    aborts ([keccak1600_total]).
    Source: src/src/crypto/hash.c:50-58 (cn_fast_hash) *)
Definition cn_fast_hash (data : list Z) : list Z :=
  match keccak1600 data with
  | Ok state => take HASH_SIZE state
  | _ => []
  end.

(** ** Streaming *)

(** Source: src/src/crypto/keccak.h:19-27 (KECCAK_CTX) *)
Record KECCAK_CTX := Keccak_ctx { hash : list Z; message : list Z; rest : Z }.

(** Source: src/src/crypto/keccak.c:174-177 (KECCAK_FINALIZED) *)
Definition KECCAK_FINALIZED : Z := 0x80000000.
Definition KECCAK_BLOCKLEN : nat := 136.
Definition KECCAK_WORDS : nat := 17.
Definition KECCAK_DIGESTSIZE : Z := 32.

(** Source: src/src/crypto/keccak.c:179-183 (KECCAK_PROCESS_BLOCK) *)
Definition process_block (st block : list Z) : list Z :=
  keccakf (xor_words (words KECCAK_WORDS block) st) KECCAK_ROUNDS.

(** Source: src/src/crypto/keccak.c:186-188 (keccak_init) *)
Definition keccak_init : KECCAK_CTX := Keccak_ctx (replicate 25 0) (replicate KECCAK_BLOCKLEN 0) 0.

(** [memcpy(message + at, in, n)], [n] being the length of [input]. *)
Definition copy_in (message : list Z) (at_ : nat) (input : list Z) : list Z :=
  take at_ message ++ input ++ drop (at_ + length input) message.

(** The loop over the whole blocks; a block that is not aligned is copied into
    the context first.
    Source: src/src/crypto/keccak.c:211-223 (keccak_update) *)
Fixpoint update_blocks (fuel : nat) (is_aligned : bool) (st message input : list Z)
    : list Z * list Z * list Z :=
  if (KECCAK_BLOCKLEN <=? length input)%nat
  then match fuel with
       | O => (st, message, input)
       | S fuel =>
           let block := take KECCAK_BLOCKLEN input in
           let message := if is_aligned then message else copy_in message 0 block in
           let aligned_message_block := if is_aligned then block else message in
           update_blocks fuel is_aligned (process_block st aligned_message_block) message
             (drop KECCAK_BLOCKLEN input)
       end
  else (st, message, input).

(** [is_aligned] depends on the address of the input left after the partial
    block; it is an argument.
    Source: src/src/crypto/keccak.c:190-227 (keccak_update) *)
Definition keccak_update (is_aligned : bool) (ctx : KECCAK_CTX) (input : list Z) : outcome KECCAK_CTX :=
  if negb (Z.land (rest ctx) KECCAK_FINALIZED =? 0) then Throw "Bad keccak use" else
  let idx := Z.to_nat (rest ctx) in
  let rest' := (rest ctx +! zlen input) mod Z.of_nat KECCAK_BLOCKLEN in
  let left := (KECCAK_BLOCKLEN - idx)%nat in
  let finish_update st message input :=
    let '(st, message, input) := update_blocks (length input) is_aligned st message input in
    let message := if (0 <? length input)%nat then copy_in message 0 input else message in
    Ok (Keccak_ctx st message rest') in
  if (0 <? idx)%nat then
    let message := copy_in (message ctx) idx (take left input) in
    if (length input <? left)%nat then Ok (Keccak_ctx (hash ctx) message rest') else
    finish_update (process_block (hash ctx) message) message (drop left input)
  else finish_update (hash ctx) (message ctx) input.

(** The digest and the finalised context.
    Source: src/src/crypto/keccak.c:229-247 (keccak_finish) *)
Definition keccak_finish (ctx : KECCAK_CTX) : list Z * KECCAK_CTX :=
  let ctx :=
    if Z.land (rest ctx) KECCAK_FINALIZED =? 0 then
      let r := Z.to_nat (rest ctx) in
      let message := take r (message ctx) ++ replicate (KECCAK_BLOCKLEN - r) 0 in
      let message := alter (fun b => Z.lor b 0x01) r message in
      let message := alter (fun b => Z.lor b 0x80) (KECCAK_BLOCKLEN - 1)%nat message in
      Keccak_ctx (process_block (hash ctx) message) message KECCAK_FINALIZED
    else ctx in
  (squeeze (Z.to_nat (KECCAK_DIGESTSIZE / 8)) (hash ctx), ctx).

(** Known answers of Keccak-256 for the empty string and for "abc". *)
Lemma keccak_known_answers :
  cn_fast_hash [] = [0xc5; 0xd2; 0x46; 0x01; 0x86; 0xf7; 0x23; 0x3c; 0x92; 0x7e; 0x7d; 0xb2; 0xdc; 0xc7;
    0x03; 0xc0; 0xe5; 0x00; 0xb6; 0x53; 0xca; 0x82; 0x27; 0x3b; 0x7b; 0xfa; 0xd8; 0x04; 0x5d; 0x85; 0xa4; 0x70]
  /\ cn_fast_hash [97; 98; 99] = [0x4e; 0x03; 0x65; 0x7a; 0xea; 0x45; 0xa9; 0x4f; 0xc7; 0xd4; 0x7b; 0xa8; 0x26;
    0xc8; 0xd6; 0x67; 0xc0; 0xd1; 0xe6; 0xe3; 0x3a; 0x64; 0xa0; 0x36; 0xec; 0x44; 0xf5; 0x8f; 0xa1; 0x2d; 0x6c; 0x45].
Proof. split; vm_compute; reflexivity. Qed.

(** Successive updates of a context, with the alignment of each input. *)
Fixpoint update_all (ctx : KECCAK_CTX) (chunks : list (bool * list Z)) : outcome KECCAK_CTX :=
  match chunks with
  | [] => Ok ctx
  | (is_aligned, input) :: chunks => ctx ← keccak_update is_aligned ctx input; update_all ctx chunks
  end.

(** * Properties *)

(** ** The permutation and its specification *)

(** Keccak-f[1600] in the notation of FIPS 202: the lane at column [x] and row
    [y] is word [x + 5 y]. *)
Definition lane (st : list Z) (x y : nat) : Z := word st (x mod 5 + 5 * (y mod 5)).

Definition build (f : nat -> nat -> Z) : list Z := map (fun i => f (i mod 5) (i / 5))%nat (seq 0 25).

(** The word of [n] bits [f z], [f (z + 1)], ..., least significant first. *)
Fixpoint bits_from (n : nat) (f : Z -> bool) (z : Z) : Z :=
  match n with
  | O => 0
  | S n => Z.b2z (f z) + 2 * bits_from n f (z + 1)
  end.

(** The lane with the given 64 bits. *)
Definition word_of_bits (f : Z -> bool) : Z := bits_from 64 f 0.

(** Bit [z] of a lane moves to position [z + r] modulo 64. *)
Definition rotl (w : Z) (r : nat) : Z := word_of_bits (fun z => Z.testbit w ((z - Z.of_nat r) mod 64)).

(** The non-linear term of chi, bit by bit. *)
Definition not_and (v w : Z) : Z := word_of_bits (fun z => negb (Z.testbit v z) && Z.testbit w z).

Definition column (st : list Z) (x : nat) : Z :=
  Z.lxor (Z.lxor (Z.lxor (Z.lxor (lane st x 0) (lane st x 1)) (lane st x 2)) (lane st x 3)) (lane st x 4).

(** The walk that assigns the rotation offsets [(t+1)(t+2)/2]. *)
Fixpoint rho_walk (n t x y : nat) : list (nat * nat * nat) :=
  match n with
  | O => []
  | S n => (x, y, ((t + 1) * (t + 2) / 2) mod 64) :: rho_walk n (S t) y ((2 * x + 3 * y) mod 5)
  end%nat.

Definition rho_offset (x y : nat) : nat :=
  match List.find (fun '(x', y', _) => (x' =? x) && (y' =? y))%nat (rho_walk 24 0 1 0) with
  | Some (_, _, r) => r
  | None => O
  end.

(** The steps over a rotation and a non-linear term: the standard's are [rotl]
    and [not_and]. *)
Definition theta (rot : Z -> nat -> Z) (st : list Z) : list Z :=
  build (fun x y => Z.lxor (lane st x y) (Z.lxor (column st (x + 4)) (rot (column st (x + 1)) 1%nat))).

Definition rho (rot : Z -> nat -> Z) (st : list Z) : list Z :=
  build (fun x y => rot (lane st x y) (rho_offset x y)).

Definition pi (st : list Z) : list Z := build (fun x y => lane st (x + 3 * y) x).

Definition chi (term : Z -> Z -> Z) (st : list Z) : list Z :=
  build (fun x y => Z.lxor (lane st x y) (term (lane st (x + 1) y) (lane st (x + 2) y))).

Definition iota (rc : Z) (st : list Z) : list Z :=
  build (fun x y => if ((x =? 0) && (y =? 0))%nat then Z.lxor (lane st x y) rc else lane st x y).

(** The round constants from the shift register of the standard. *)
Fixpoint lfsr (n : nat) (r : Z) : Z :=
  match n with
  | O => r
  | S n => lfsr n (let r := Z.shiftl r 1 in if Z.testbit r 8 then Z.lxor r 0x171 else r)
  end.

Definition round_constant (ir : nat) : Z :=
  foldr Z.lor 0 (map (fun j => Z.shiftl (Z.b2z (Z.testbit (lfsr (j + 7 * ir) 1) 0)) (2 ^ Z.of_nat j - 1)) (seq 0 7)).

Lemma round_constants : keccakf_rndc = map round_constant (seq 0 24).
Proof. vm_compute. reflexivity. Qed.

Definition round_spec (st : list Z) (ir : nat) : list Z :=
  iota (round_constant ir) (chi not_and (pi (rho rotl (theta rotl st)))).

Ltac destruct_state st Hl :=
  do 25 (destruct st as [| ? st]; [discriminate Hl |]);
  destruct st; [clear Hl | discriminate Hl].

(** The rotation of the code, which shifts a 64-bit word by 64 when asked for no
    rotation: the code never asks. *)
Definition code_rotl (w : Z) (r : nat) : Z := if (r =? 0)%nat then w else ROTL64 w (Z.of_nat r).

(** The unrolled in-place round is the five steps, over the code's operations. *)
Lemma keccak_round_steps st rc :
  length st = 25%nat ->
  keccak_round st rc = iota rc (chi andn (pi (rho code_rotl (theta code_rotl st)))).
Proof.
  intros Hl. destruct_state st Hl. cbv -[Z.lxor andn ROTL64]. reflexivity.
Qed.

Lemma build_length f : length (build f) = 25%nat.
Proof. reflexivity. Qed.

Lemma keccak_rounds_length l : forall st, length st = 25%nat -> length (foldl keccak_round st l) = 25%nat.
Proof.
  induction l as [| rc l IH]; intros st Hl; [done |]. cbn [foldl].
  apply IH. rewrite keccak_round_steps by done. apply build_length.
Qed.

Lemma keccakf_length st : length st = 25%nat -> length (keccakf st 24) = 25%nat.
Proof. apply keccak_rounds_length. Qed.

(** The operations of the code have the bits the standard gives them. *)


Lemma bits_from_testbit n f : forall z i, 0 <= i ->
  Z.testbit (bits_from n f z) i = (i <? Z.of_nat n) && f (z + i).
Proof.
  induction n as [| n IH]; intros z i Hi; cbn [bits_from].
  { rewrite Z.testbit_0_l. by destruct (Z.ltb_spec i (Z.of_nat 0)); [lia |]. }
  rewrite Z.add_comm. destruct (Z.eq_dec i 0) as [-> | Hne].
  - by rewrite Z.testbit_0_r, Z.add_0_r.
  - replace i with (Z.succ (i - 1)) at 1 by lia. rewrite Z.testbit_succ_r, IH by lia.
    f_equal; [| f_equal; lia]. destruct (Z.ltb_spec (i - 1) (Z.of_nat n)), (Z.ltb_spec i (Z.of_nat (S n))); done || lia.
Qed.

Lemma word_of_bits_testbit f i : 0 <= i -> Z.testbit (word_of_bits f) i = (i <? 64) && f i.
Proof. apply (bits_from_testbit 64 f 0 i). Qed.

Lemma testbit_above w i : in_u 64 w -> 64 <= i -> Z.testbit w i = false.
Proof. intros Hw Hi. rewrite <- (wrap_small 64 w Hw). apply Z.mod_pow2_bits_high. lia. Qed.

Lemma code_rotl_is w r : in_u 64 w -> (r < 64)%nat -> code_rotl w r = rotl w r.
Proof.
  intros Hw Hr. apply Z.bits_inj'. intros i Hi. unfold rotl. rewrite word_of_bits_testbit by done.
  unfold code_rotl. destruct (Nat.eqb_spec r 0) as [-> | Hr0].
  - rewrite Z.sub_0_r. destruct (Z.ltb_spec i 64); [by rewrite Z.mod_small | by apply testbit_above].
  - unfold ROTL64. rewrite Z.lor_spec, Z.shiftr_spec by lia.
    destruct (Z.ltb_spec i 64).
    + unfold u64, wrap. rewrite Z.mod_pow2_bits_low, Z.shiftl_spec by lia. cbn [andb].
      destruct (Z.le_gt_cases (Z.of_nat r) i).
      * rewrite (testbit_above w (i + _)), orb_false_r by lia || done. by rewrite Z.mod_small by lia.
      * rewrite Z.testbit_neg_r by lia. cbn [orb]. f_equal.
        apply (Z.mod_unique _ _ (-1)); lia.
    + unfold u64, wrap. rewrite Z.mod_pow2_bits_high by lia. apply testbit_above; [done | lia].
Qed.

Lemma andn_is v w : in_u 64 w -> andn v w = not_and v w.
Proof.
  intros Hw. apply Z.bits_inj'. intros i Hi. unfold andn, not_and. rewrite word_of_bits_testbit, Z.land_spec by done.
  destruct (Z.ltb_spec i 64); [| by rewrite (testbit_above w), andb_false_r].
  unfold u64, wrap. by rewrite Z.mod_pow2_bits_low, Z.lnot_spec by lia.
Qed.

(** ** Lanes stay 64-bit words *)

Lemma in_u_bits w : 0 <= w -> (forall i, 64 <= i -> Z.testbit w i = false) -> in_u 64 w.
Proof.
  intros H0 Hb. split; [done |]. destruct (Z.eq_dec w 0) as [-> | Hne]; [lia |].
  apply Z.log2_lt_pow2; [lia |]. destruct (Z.lt_ge_cases (Z.log2 w) 64) as [| Hl]; [done |].
  specialize (Hb _ Hl). rewrite Z.bit_log2 in Hb; [done | lia].
Qed.

Lemma bits_from_nonneg n f : forall z, 0 <= bits_from n f z.
Proof. induction n as [| n IH]; intros z; cbn [bits_from]; [lia |]. specialize (IH (z + 1)). destruct (f z); cbn; lia. Qed.

Lemma word_of_bits_range f : in_u 64 (word_of_bits f).
Proof.
  apply in_u_bits; [apply (bits_from_nonneg 64) |]. intros i Hi. rewrite word_of_bits_testbit by lia.
  by destruct (Z.ltb_spec i 64); [lia |].
Qed.

Lemma lxor_range v w : in_u 64 v -> in_u 64 w -> in_u 64 (Z.lxor v w).
Proof.
  intros Hv Hw. apply in_u_bits; [apply Z.lxor_nonneg; unfold in_u in *; lia |].
  intros i Hi. by rewrite Z.lxor_spec, !testbit_above.
Qed.

Lemma lane_range st x y : Forall (in_u 64) st -> in_u 64 (lane st x y).
Proof.
  intros Hst. unfold lane, word. destruct (nth_in_or_default (x mod 5 + 5 * (y mod 5)) st 0) as [Hin | ->]; [| done].
  rewrite Forall_forall in Hst. apply Hst. by apply list_elem_of_In.
Qed.

Lemma column_range st x : Forall (in_u 64) st -> in_u 64 (column st x).
Proof. intros Hst. unfold column. repeat apply lxor_range; by apply lane_range. Qed.

Lemma build_range f : (forall x y, in_u 64 (f x y)) -> Forall (in_u 64) (build f).
Proof. intros Hf. apply Forall_map, Forall_true. intros i. apply Hf. Qed.

Lemma build_ext f g : (forall x y, f x y = g x y) -> build f = build g.
Proof. intros H. apply map_ext. intros i. apply H. Qed.

Create HintDb lanes.
#[local] Hint Resolve lane_range column_range lxor_range word_of_bits_range build_range : lanes.

Lemma rho_walk_small n : forall t x y, Forall (fun '(_, _, r) => (r < 64)%nat) (rho_walk n t x y).
Proof. induction n; intros t x y; constructor; [apply Nat.mod_upper_bound; lia | done]. Qed.

Lemma rho_offset_small x y : (rho_offset x y < 64)%nat.
Proof.
  unfold rho_offset. destruct (List.find _ _) as [[[x' y'] r] |] eqn:E; [| lia].
  apply find_some in E as [E _]. apply list_elem_of_In in E.
  pose proof (rho_walk_small 24 0 1 0) as H. rewrite Forall_forall in H. by specialize (H _ E).
Qed.

(** One round of the code on 64-bit words is the round of the standard, and
    gives 64-bit words. *)
Lemma keccak_round_spec st ir :
  length st = 25%nat -> Forall (in_u 64) st -> in_u 64 (round_constant ir) ->
  keccak_round st (round_constant ir) = round_spec st ir /\ Forall (in_u 64) (round_spec st ir).
Proof.
  intros Hl Hst Hrc. rewrite keccak_round_steps by done. unfold round_spec.
  assert (Ht : theta code_rotl st = theta rotl st).
  { apply build_ext. intros x y. rewrite code_rotl_is by (auto with lanes || lia). done. }
  assert (Hr : Forall (in_u 64) (theta rotl st)) by (apply build_range; intros; unfold rotl; auto 6 with lanes).
  rewrite Ht. set (st1 := theta rotl st) in *.
  assert (Hrho : rho code_rotl st1 = rho rotl st1).
  { apply build_ext. intros x y. apply code_rotl_is; [auto with lanes | apply rho_offset_small]. }
  assert (Hp : Forall (in_u 64) (pi (rho rotl st1))).
  { apply build_range. intros. apply lane_range, build_range. intros. apply word_of_bits_range. }
  rewrite Hrho. set (st2 := pi (rho rotl st1)) in *.
  assert (Hc : Forall (in_u 64) (chi not_and st2)) by (apply build_range; intros; unfold not_and; auto with lanes).
  split.
  - f_equal. apply build_ext. intros x y. rewrite andn_is by auto with lanes. done.
  - apply build_range. intros x y. destruct (_ && _); auto with lanes.
Qed.

Lemma round_constants_range : Forall (fun ir => in_u 64 (round_constant ir)) (seq 0 24).
Proof. apply (Forall_map round_constant (in_u 64)). rewrite <- round_constants. repeat constructor; done. Qed.

Lemma keccak_rounds_spec l : Forall (fun ir => in_u 64 (round_constant ir)) l ->
  forall st, length st = 25%nat -> Forall (in_u 64) st ->
  foldl keccak_round st (map round_constant l) = foldl round_spec st l
  /\ Forall (in_u 64) (foldl round_spec st l).
Proof.
  induction 1 as [| ir l Hir _ IH]; intros st Hl Hst; [done |]. cbn [map foldl].
  destruct (keccak_round_spec st ir Hl Hst Hir) as [-> Hr]. apply IH; [apply build_length | done].
Qed.

(** C30: on every state of 25 64-bit words the unrolled, in-place code with its
    table of constants, its shifts and its masks computes the 24 rounds theta,
    rho, pi, chi, iota of Keccak-f[1600], and the result is 64-bit words again.
    The steps are those of the standard: a rotation moves bit [z] to [z + r]
    modulo 64, chi is given bit by bit, the rotation offsets and the round
    constants come from their recurrences. *)
Theorem keccakf_standard st :
  length st = 25%nat -> Forall (in_u 64) st ->
  keccakf st KECCAK_ROUNDS = foldl round_spec st (seq 0 24)
  /\ Forall (in_u 64) (keccakf st KECCAK_ROUNDS).
Proof.
  intros Hl Hst. unfold keccakf. rewrite round_constants, take_ge by (rewrite length_map; done).
  destruct (keccak_rounds_spec (seq 0 24) round_constants_range st Hl Hst) as [-> ?]. done.
Qed.

Lemma keccakf_standard_witness :
  keccakf (replicate 25 (2 ^ 63 + 1)) KECCAK_ROUNDS = foldl round_spec (replicate 25 (2 ^ 63 + 1)) (seq 0 24).
Proof.
  apply (keccakf_standard (replicate 25 (2 ^ 63 + 1))); [reflexivity |].
  apply Forall_replicate. split; vm_compute; congruence.
Defined.

(** ** Absorbing whole blocks *)

#[local] Opaque keccakf.

(** The whole blocks of [input] take [st] to [st'], and [r] is left. *)
Inductive absorbs_with (process : list Z -> list Z -> list Z)
    : list Z -> list Z -> list Z -> list Z -> Prop :=
| absorbs_done st input : (length input < 136)%nat -> absorbs_with process st input st input
| absorbs_block st input st' r : (136 <= length input)%nat ->
    absorbs_with process (process st (take 136 input)) (drop 136 input) st' r ->
    absorbs_with process st input st' r.

Abbreviation absorbs := (absorbs_with process_block).

Lemma absorbs_length st input st' r :
  absorbs st input st' r -> length r = (length input mod 136)%nat.
Proof.
  induction 1 as [st input H | st input st' r H _ IH]; [by rewrite Nat.mod_small |].
  rewrite IH, length_drop. replace (length input) with (length input - 136 + 1 * 136)%nat at 2 by lia.
  by rewrite Nat.Div0.mod_add.
Qed.

Lemma absorbs_app st a st1 r1 b st2 r2 :
  absorbs st a st1 r1 -> absorbs st1 (r1 ++ b) st2 r2 -> absorbs st (a ++ b) st2 r2.
Proof.
  induction 1 as [| st a st1 r1 H _ IH]; intros H2; [done |].
  apply absorbs_block; [rewrite length_app; lia |].
  rewrite take_app_le, drop_app_le by lia. by apply IH.
Qed.

Lemma absorb_spec fuel : forall st input,
  (length input < fuel)%nat -> exists st' r, absorb fuel 136 st input = Ok (st', r) /\ absorbs st input st' r.
Proof.
  induction fuel as [| fuel IH]; intros st input Hf; [lia |]. cbn [absorb].
  destruct (Nat.leb_spec 136 (length input)) as [Hge | Hlt].
  - destruct (IH (process_block st (take 136 input)) (drop 136 input)) as (st' & r & E & H);
      [rewrite length_drop; lia |].
    exists st', r. split; [exact E | by apply absorbs_block].
  - exists st, input. split; [done | by constructor].
Qed.

Lemma absorbs_det st input st1 r1 st2 r2 :
  absorbs st input st1 r1 -> absorbs st input st2 r2 -> st1 = st2 /\ r1 = r2.
Proof.
  induction 1 as [| ? ? ? ? ? _ IH]; inversion 1; subst; try lia; auto.
Qed.

Lemma copy_in_0 message input : copy_in message 0 input = input ++ drop (length input) message.
Proof. done. Qed.

Lemma copy_whole message block :
  length message = 136%nat -> length block = 136%nat -> copy_in message 0 block = block.
Proof. intros Hm Hb. unfold copy_in. cbn [take app plus]. by rewrite drop_ge, app_nil_r by lia. Qed.

Lemma update_blocks_spec fuel al : forall st message input,
  (length input <= fuel)%nat -> length message = 136%nat ->
  exists st' message' r, update_blocks fuel al st message input = (st', message', r)
    /\ absorbs st input st' r /\ length message' = 136%nat.
Proof.
  induction fuel as [| fuel IH]; intros st message input Hf Hm; cbn [update_blocks];
    change KECCAK_BLOCKLEN with 136%nat;
    destruct (Nat.leb_spec 136 (length input)) as [Hge | Hlt]; try lia;
    try (exists st, message, input; split; [done | split; [by constructor | done]]).
  assert (Hb : length (take 136 input) = 136%nat) by (rewrite length_take; lia).
  rewrite (copy_whole message) by done.
  assert (Hif : (if al then take 136 input else take 136 input) = take 136 input) by (by destruct al).
  destruct (IH (process_block st (take 136 input)) (if al then message else take 136 input) (drop 136 input))
    as (st' & message' & r & E & H & Hm'); [rewrite length_drop; lia | by destruct al |].
  exists st', message', r. split; [| split; [by apply absorbs_block | done]].
  rewrite <- E. by destruct al.
Qed.

(** ** Streaming *)

(** A context that has been fed the bytes [data]. *)
Record fed (data : list Z) (ctx : KECCAK_CTX) : Prop := {
  fed_message : length (message ctx) = 136%nat;
  fed_rest : exists r, absorbs (replicate 25 0) data (hash ctx) r
    /\ rest ctx = zlen r /\ take (length r) (message ctx) = r
}.

Lemma fed_init : fed [] keccak_init.
Proof. split; [done |]. exists []. split; [| done]. apply absorbs_done. cbn. lia. Qed.

Lemma not_finalized r : 0 <= r < 136 -> Z.land r KECCAK_FINALIZED = 0.
Proof.
  intros Hr. assert (Hall : Forall (fun n => Z.land (Z.of_nat n) KECCAK_FINALIZED = 0) (seq 0 136)) by by_decide.
  rewrite Forall_forall in Hall. rewrite <- (Z2Nat.id r) by lia. apply Hall, elem_of_seq. lia.
Qed.

(** The end of an update: whole blocks, then the bytes left go to the front of
    the message buffer. *)
Lemma finish_update_spec al data st msg input m :
  absorbs (replicate 25 0) data st [] -> length msg = 136%nat ->
  m = zlen (data ++ input) mod 136 ->
  let '(st', msg', r) := update_blocks (length input) al st msg input in
  fed (data ++ input) (Keccak_ctx st' (if (0 <? length r)%nat then copy_in msg' 0 r else msg') m).
Proof.
  intros Hd Hm Em. destruct (update_blocks_spec (length input) al st msg input) as (st' & msg' & r & -> & Ha & Hm');
    [lia | done |].
  pose proof (absorbs_app _ _ _ _ input _ _ Hd Ha) as Hall. pose proof (absorbs_length _ _ _ _ Hall) as Hr.
  pose proof (Nat.mod_upper_bound (length (data ++ input)) 136 ltac:(lia)).
  split; cbn [message hash rest].
  - destruct (0 <? length r)%nat; [| done]. rewrite copy_in_0, length_app, length_drop. lia.
  - exists r. split; [done |]. split.
    + rewrite Em. unfold zlen. rewrite Hr. by rewrite Nat2Z.inj_mod.
    + destruct (Nat.ltb_spec 0 (length r)); [| by destruct r; cbn in *; [| lia]].
      by rewrite copy_in_0, take_app_length.
Qed.

Lemma keccak_update_spec al data ctx input :
  fed data ctx -> zlen data + zlen input < 2 ^ 63 ->
  exists ctx', keccak_update al ctx input = Ok ctx' /\ fed (data ++ input) ctx'.
Proof.
  intros [Hm (r & Ha & Er & Et)] Hlen. pose proof (absorbs_length _ _ _ _ Ha) as Hr.
  pose proof (Nat.mod_upper_bound (length data) 136 ltac:(lia)) as Hlt.
  unfold keccak_update. rewrite Er. rewrite not_finalized by (unfold zlen; lia). cbn [Z.eqb negb].
  change KECCAK_BLOCKLEN with 136%nat. replace (Z.to_nat (zlen r)) with (length r) by (symmetry; apply Nat2Z.id).
  assert (Em : (zlen r +! zlen input) mod Z.of_nat 136 = zlen (data ++ input) mod 136).
  { unfold zlen in *. rewrite u64_small by lia. rewrite length_app, Nat2Z.inj_add, Hr, Nat2Z.inj_mod.
    by rewrite Zplus_mod_idemp_l. }
  rewrite Em. destruct (Nat.ltb_spec 0 (length r)) as [Hpos | Hz].
  2: { destruct r; [| cbn in Hz; lia].
       pose proof (finish_update_spec al data (hash ctx) (message ctx) input _ Ha Hm eq_refl) as Hf.
       destruct (update_blocks _ _ _ _ _) as [[st' msg'] r']. eexists. split; [done | exact Hf]. }
  destruct (Nat.ltb_spec (length input) (136 - length r)) as [Hshort | Hfull].
  - rewrite (take_ge input) by lia. eexists. split; [done |]. split; cbn [message hash rest].
    + unfold copy_in. rewrite !length_app, length_take, length_drop. lia.
    + exists (r ++ input). split; [eapply absorbs_app; [exact Ha |]; apply absorbs_done; rewrite length_app; lia |].
      split.
      * unfold zlen. rewrite !length_app, Hr. change 136%Z with (Z.of_nat 136). rewrite <- Nat2Z.inj_mod. f_equal.
        rewrite <- Nat.Div0.add_mod_idemp_l, Nat.mod_small; lia.
      * unfold copy_in. rewrite Et, app_assoc. by rewrite take_app_length.
  - set (block := copy_in (message ctx) (length r) (take (136 - length r) input)).
    assert (Eb : block = r ++ take (136 - length r) input).
    { unfold block, copy_in. rewrite Et, drop_ge, app_nil_r; [done |]. rewrite length_take. lia. }
    assert (Hbl : length block = 136%nat) by (rewrite Eb, length_app, length_take; lia).
    assert (Hd : absorbs (replicate 25 0) (data ++ take (136 - length r) input) (process_block (hash ctx) block) []).
    { eapply absorbs_app; [exact Ha |]. rewrite <- Eb. apply absorbs_block; [lia |].
      rewrite take_ge, drop_ge by lia. apply absorbs_done. cbn. lia. }
    pose proof (finish_update_spec al _ _ block (drop (136 - length r) input)
      (zlen (data ++ input) mod 136) Hd Hbl) as Hf.
    rewrite <- app_assoc, take_drop in Hf. specialize (Hf eq_refl).
    destruct (update_blocks _ _ _ _ _) as [[st' msg'] r']. eexists. split; [done | exact Hf].
Qed.

Lemma pad_finish r msg :
  (length r < 136)%nat -> take (length r) msg = r ->
  alter (fun b => Z.lor b 0x80) 135%nat
    (alter (fun b => Z.lor b 0x01) (length r) (take (length r) msg ++ replicate (136 - length r) 0)) = pad 136 r.
Proof.
  intros Hr ->. unfold pad. replace (136 - length r)%nat with (S (136 - (length r + 1))) by lia.
  cbn [replicate]. f_equal. rewrite alter_app_r_alt by lia. rewrite Nat.sub_diag. done.
Qed.

Lemma keccak_finish_spec data ctx st r :
  fed data ctx -> absorbs (replicate 25 0) data st r ->
  fst (keccak_finish ctx) = squeeze 4 (process_block st (pad 136 r)).
Proof.
  intros [Hm (r' & Ha' & Er & Et)] Ha. destruct (absorbs_det _ _ _ _ _ _ Ha Ha') as [-> ->].
  pose proof (absorbs_length _ _ _ _ Ha) as Hr. pose proof (Nat.mod_upper_bound (length data) 136 ltac:(lia)).
  unfold keccak_finish. rewrite Er, not_finalized by (unfold zlen; lia). cbn [Z.eqb fst hash].
  replace (Z.to_nat (zlen r')) with (length r') by (symmetry; apply Nat2Z.id).
  change KECCAK_BLOCKLEN with 136%nat. change (136 - 1)%nat with 135%nat.
  rewrite pad_finish by (done || lia). done.
Qed.

Lemma xor_words_length ws : forall st, length (xor_words ws st) = length st.
Proof. induction ws as [| w ws IH]; intros [| s st]; cbn; auto. Qed.

Lemma absorbs_state st input st' r :
  absorbs st input st' r -> length st = 25%nat -> length st' = 25%nat.
Proof.
  induction 1 as [| st input st' r _ _ IH]; [done |]. intros Hl. apply IH. unfold process_block.
  apply keccakf_length. by rewrite xor_words_length.
Qed.

(** The one-shot hash at both digest lengths in use. *)
Lemma keccak_run data mdlen :
  mdlen = 32 \/ mdlen = 200 ->
  exists st r, absorbs (replicate 25 0) data st r
    /\ length (process_block st (pad 136 r)) = 25%nat
    /\ keccak data mdlen = Ok (squeeze (Z.to_nat (mdlen / 8)) (process_block st (pad 136 r))).
Proof.
  intros Hmd. destruct (absorb_spec (S (length data)) (replicate 25 0) data) as (st & r & E & Ha); [lia |].
  exists st, r. split; [done |].
  assert (Hl : length (process_block st (pad 136 r)) = 25%nat).
  { apply keccakf_length. rewrite xor_words_length. by apply (absorbs_state _ _ _ _ Ha). }
  split; [done |]. pose proof (absorbs_length _ _ _ _ Ha) as Hr.
  pose proof (Nat.mod_upper_bound (length data) 136 ltac:(lia)).
  assert (Hchk : (144 <=? zlen r + 1) || (136 <? zlen r) || (144 <=? 136 - zlen r + zlen r + 1) || (136 =? 0)
     || (144 <=? 136 - 1) || (144 <? 136 / 8 * 8) = false) by (change (136 / 8 * 8) with 136; unfold zlen; lia).
  assert (Ek : keccak data mdlen = ('(st, input) ← absorb (S (length data)) 136 (replicate 25 0) data;
    if (144 <=? zlen input + 1) || (136 <? zlen input) || (144 <=? 136 - zlen input + zlen input + 1) || (136 =? 0)
       || (144 <=? 136 - 1) || (144 <? 136 / 8 * 8) then Throw "Bad keccak use"
    else Ok (squeeze (Z.to_nat (mdlen / 8)) (process_block st (pad 136 input)))))
    by (destruct Hmd as [-> | ->]; reflexivity).
  rewrite Ek, E. simpl_bind. by rewrite Hchk.
Qed.

Lemma keccak1600_total data : exists state, keccak1600 data = Ok state.
Proof. destruct (keccak_run data 200) as (st & r & _ & _ & E); [by right |]. by eexists. Qed.

Lemma take_squeeze n : forall st, take (8 * n) (concat (map (le_encode 8) st)) = concat (map (le_encode 8) (take n st)).
Proof.
  induction n as [| n IH]; intros st; [done |]. destruct st as [| w st]; [by rewrite take_nil |].
  replace (8 * S n)%nat with (length (le_encode 8 w) + 8 * n)%nat by (rewrite le_encode_length; lia).
  cbn [map concat]. rewrite take_app_add. cbn [take map concat]. by rewrite IH.
Qed.

Lemma cn_fast_hash_run data :
  exists st r, absorbs (replicate 25 0) data st r /\ length (process_block st (pad 136 r)) = 25%nat
    /\ cn_fast_hash data = squeeze 4 (process_block st (pad 136 r)).
Proof.
  destruct (keccak_run data 200) as (st & r & Ha & Hl & E); [by right |]. exists st, r.
  split; [done |]. split; [done |]. unfold cn_fast_hash, keccak1600. rewrite E. change (Z.to_nat (200 / 8)) with 25%nat.
  unfold squeeze. rewrite (take_ge (process_block _ _)) by lia. apply (take_squeeze 4).
Qed.

#[export] Instance cn_fast_hash_interface : FastHash cn_fast_hash.
Proof.
  split; intros data; destruct (cn_fast_hash_run data) as (st & r & _ & Hl & ->);
    destruct (process_block st (pad 136 r)) as [| a [| b [| c [| d st']]]]; cbn in Hl; try lia; cbn [squeeze take map concat].
  - rewrite !length_app, !le_encode_length. done.
  - do 4 (apply bytes_app; split; [apply le_encode_bytes |]). constructor.
Qed.

(** C31: hashing a message piecewise gives the hash of the whole message: for
    every division into chunks and every alignment of the chunks, the context
    is never refused, and the digest is that of [cn_fast_hash] (and of [keccak]
    with a 32-byte digest) on the concatenation. *)
Theorem keccak_streaming chunks :
  zlen (concat (map snd chunks)) < 2 ^ 63 ->
  exists ctx, update_all keccak_init chunks = Ok ctx
    /\ fst (keccak_finish ctx) = cn_fast_hash (concat (map snd chunks))
    /\ keccak (concat (map snd chunks)) 32 = Ok (fst (keccak_finish ctx)).
Proof.
  intros Hlen. assert (Hup : forall data ctx, fed data ctx -> zlen data + zlen (concat (map snd chunks)) < 2 ^ 63 ->
    exists ctx', update_all ctx chunks = Ok ctx' /\ fed (data ++ concat (map snd chunks)) ctx').
  { clear. induction chunks as [| [al input] chunks IH]; intros data ctx Hf Hl; cbn [update_all map concat snd].
    - exists ctx. by rewrite app_nil_r.
    - cbn [map concat snd] in Hl. rewrite zlen_app in Hl. pose proof (zlen_nonneg (concat (map snd chunks))).
      destruct (keccak_update_spec al data ctx input Hf ltac:(lia)) as (ctx1 & -> & Hf1). simpl_bind.
      destruct (IH (data ++ input) ctx1 Hf1) as (ctx' & E & Hf'); [rewrite zlen_app; lia |].
      exists ctx'. split; [done |]. by rewrite <- app_assoc in Hf'. }
  destruct (Hup [] keccak_init fed_init Hlen) as (ctx & E & Hf). exists ctx. split; [done |].
  destruct (cn_fast_hash_run (concat (map snd chunks))) as (st & r & Ha & _ & ->).
  destruct (keccak_run (concat (map snd chunks)) 32) as (st' & r' & Ha' & _ & ->); [by left |].
  destruct (absorbs_det _ _ _ _ _ _ Ha Ha') as [-> ->].
  rewrite (keccak_finish_spec _ _ _ _ Hf Ha'). done.
Qed.

Lemma keccak_streaming_witness :
  exists ctx, update_all keccak_init [(false, [97]); (true, [98; 99])] = Ok ctx
    /\ fst (keccak_finish ctx) = cn_fast_hash [97; 98; 99].
Proof.
  destruct (keccak_streaming [(false, [97]); (true, [98; 99])]) as (ctx & E & H & _); [by_decide |].
  exists ctx. split; [exact E | exact H].
Defined.
