(* ===== verification/Base58.v ===== *)
(** * Base 58: [src/common/base58.cpp]

    The block-wise base 58 codec and the checksummed address format. Strings
    are lists of character codes. The address functions are proved correct
    against the interface [FastHash] of the checksum hash. *)
From S2P Require Import Prelude IntUtil Varint Hex FastHash Keccak.
From Stdlib Require Import Bool.

Open Scope Z_scope.

(** Source: src/src/common/base58.cpp:48-48 (alphabet) *)
Definition alphabet : list Z := codes "123456789ABCDEFGHJKLMNPQRSTUVWXYZabcdefghijkmnopqrstuvwxyz".

(** Source: src/src/common/base58.cpp:49-49 (alphabet_size) *)
Definition alphabet_size : Z := zlen alphabet.

(** Source: src/src/common/base58.cpp:50-50 (encoded_block_sizes) *)
Definition encoded_block_sizes : list Z := [0; 2; 3; 5; 6; 7; 9; 10; 11].

(** Source: src/src/common/base58.cpp:51-51 (full_block_size) *)
Definition full_block_size : Z := zlen encoded_block_sizes - 1.

Definition encoded_block_size (size : Z) : Z := default 0 (znth encoded_block_sizes size).

(** Source: src/src/common/base58.cpp:52-52 (full_encoded_block_size) *)
Definition full_encoded_block_size : Z := encoded_block_size full_block_size.

(** Source: src/src/common/base58.cpp:53-53 (addr_checksum_size) *)
Definition addr_checksum_size : nat := 4.

(** [alphabet[i]]. *)
Definition letter (i : Z) : Z := default 0 (znth alphabet i).

(** The table the constructor fills.
    Source: src/src/common/base58.cpp:57-66 (reverse_alphabet::reverse_alphabet) *)
Definition reverse_alphabet_data : list Z :=
  foldl (fun m i => <[Z.to_nat (letter i - letter 0) := i]> m)
    (replicate (Z.to_nat (letter (alphabet_size - 1) - letter 0 + 1)) (-1))
    (map Z.of_nat (seq 0 (Z.to_nat alphabet_size))).

(** [char] is signed: the index of a character below ['1'] wraps to a huge one.
    Source: src/src/common/base58.cpp:68-72 (reverse_alphabet::instance) *)
Definition reverse_alphabet (c : Z) : Z :=
  let idx := u64 (to_signed 8 c - letter 0) in
  if idx <? zlen reverse_alphabet_data then default (-1) (znth reverse_alphabet_data idx) else -1.

(** Source: src/src/common/base58.cpp:84-91 (decoded_block_sizes::decoded_block_sizes) *)
Definition decoded_block_sizes_data : list Z :=
  foldl (fun m i => <[Z.to_nat (encoded_block_size i) := i]> m)
    (replicate (Z.to_nat (full_encoded_block_size + 1)) (-1))
    (map Z.of_nat (seq 0 (Z.to_nat full_block_size + 1))).

(** Source: src/src/common/base58.cpp:93-97 (decoded_block_sizes::instance) *)
Definition decoded_block_size (encoded_block_size : Z) : outcome Z :=
  at_or_undef (znth decoded_block_sizes_data encoded_block_size).

(** The bytes are copied to the end of a zeroed big-endian word.
    Source: src/src/common/base58.cpp:107-114 (uint_8be_to_64) *)
Definition uint_8be_to_64 (data : list Z) : Z :=
  be_bytes (replicate (8 - length data) 0 ++ data).

(** Source: src/src/common/base58.cpp:116-122 (uint_64_to_8be) *)
Definition uint_64_to_8be (num : Z) (size : nat) : list Z :=
  drop (8 - size) (reverse (le_encode 8 num)).

(** The digits are written from the end of the block; an index below 0 would
    be outside the block. 11 rounds are enough for 64 bits.
    Source: src/src/common/base58.cpp:129-136 (encode_block) *)
Fixpoint encode_loop (fuel : nat) (num i : Z) (res : list Z) : outcome (list Z) :=
  if 0 <? num then
    match fuel with
    | O => Undef
    | S fuel =>
        if (i <? 0) || (zlen res <=? i) then Undef
        else encode_loop fuel (num / alphabet_size) (i - 1)
               (<[Z.to_nat i := letter (num mod alphabet_size)]> res)
    end
  else Ok res.

(** Writes over [res], the part of the result for this block.
    Source: src/src/common/base58.cpp:124-137 (encode_block) *)
Definition encode_block (block res : list Z) : outcome (list Z) :=
  encode_loop 11 (uint_8be_to_64 block) (encoded_block_size (zlen block) - 1) res.

(** The loop from the last character of the block to the first; the list is
    the reversed block.
    Source: src/src/common/base58.cpp:149-162 (decode_block) *)
Fixpoint decode_loop (rev_block : list Z) (res_num order : Z) : option Z :=
  match rev_block with
  | [] => Some res_num
  | c :: rest =>
      let digit := reverse_alphabet c in
      if digit <? 0 then None else
      let '(product_lo, product_hi) := mul128 order digit in
      let tmp := res_num +! product_lo in
      if (tmp <? res_num) || negb (product_hi =? 0) then None
      else decode_loop rest tmp (order *! alphabet_size)
  end.

(** [None] is the result [false].
    Source: src/src/common/base58.cpp:139-170 (decode_block) *)
Definition decode_block (block : list Z) : outcome (option (list Z)) :=
  res_size ← decoded_block_size (zlen block);
  if res_size <=? 0 then Ok None else
  match decode_loop (reverse block) 0 1 with
  | None => Ok None
  | Some res_num =>
      if (res_size <? full_block_size) && (Z.shiftl 1 (8 * res_size) <=? res_num) then Ok None
      else Ok (Some (uint_64_to_8be res_num (Z.to_nat res_size)))
  end.

(** The full blocks, then a last shorter one; [n] counts the full blocks.
    Source: src/src/common/base58.cpp:183-191 (encode) *)
Fixpoint encode_blocks (n : nat) (data : list Z) : outcome (list Z) :=
  match n with
  | O =>
      if 0 <? zlen data
      then encode_block data (replicate (Z.to_nat (encoded_block_size (zlen data))) (letter 0))
      else Ok []
  | S n =>
      b ← encode_block (take (Z.to_nat full_block_size) data)
            (replicate (Z.to_nat full_encoded_block_size) (letter 0));
      rest ← encode_blocks n (drop (Z.to_nat full_block_size) data);
      Ok (b ++ rest)
  end.

(** Source: src/src/common/base58.cpp:173-194 (encode) *)
Definition encode (data : list Z) : outcome (list Z) :=
  match data with
  | [] => Ok []
  | _ => encode_blocks (Z.to_nat (zlen data / full_block_size)) data
  end.

(** Source: src/src/common/base58.cpp:212-223 (decode) *)
Fixpoint decode_blocks (n : nat) (enc : list Z) : outcome (option (list Z)) :=
  match n with
  | O => if 0 <? zlen enc then decode_block enc else Ok (Some [])
  | S n =>
      b ← decode_block (take (Z.to_nat full_encoded_block_size) enc);
      match b with
      | None => Ok None
      | Some b =>
          rest ← decode_blocks n (drop (Z.to_nat full_encoded_block_size) enc);
          Ok (match rest with None => None | Some rest => Some (b ++ rest) end)
      end
  end.

(** Source: src/src/common/base58.cpp:196-226 (decode) *)
Definition decode (enc : list Z) : outcome (option (list Z)) :=
  match enc with
  | [] => Ok (Some [])
  | _ =>
      let full_block_count := zlen enc / full_encoded_block_size in
      let last_block_size := zlen enc mod full_encoded_block_size in
      last_block_decoded_size ← decoded_block_size last_block_size;
      if last_block_decoded_size <? 0 then Ok None
      else decode_blocks (Z.to_nat full_block_count) enc
  end.

Section Address.
(** The Keccak hash, as 32 bytes. *)
Variable cn_fast_hash : list Z -> list Z.

(** Source: src/src/common/base58.cpp:228-236 (encode_addr) *)
Definition encode_addr (tag : Z) (data : list Z) : outcome (list Z) :=
  let buf := get_varint_data tag ++ data in
  encode (buf ++ take addr_checksum_size (cn_fast_hash buf)).

(** Source: src/src/common/base58.cpp:238-258 (decode_addr) *)
Definition decode_addr (addr : list Z) : outcome (option (Z * list Z)) :=
  r ← decode addr;
  match r with
  | None => Ok None
  | Some addr_data =>
      if zlen addr_data <=? Z.of_nat addr_checksum_size then Ok None else
      let n := (length addr_data - addr_checksum_size)%nat in
      let checksum := drop n addr_data in
      let addr_data := take n addr_data in
      let expected_checksum := take addr_checksum_size (cn_fast_hash addr_data) in
      if bool_decide (expected_checksum <> checksum) then Ok None else
      let '(read, tag, _) := read_varint 64 addr_data in
      if read <=? 0 then Ok None
      else Ok (Some (tag, drop (Z.to_nat read) addr_data))
  end.
End Address.

(** * Properties *)

(** ** Digits *)

Fixpoint val_le (ds : list Z) : Z :=
  match ds with [] => 0 | d :: ds => d + 58 * val_le ds end.

Fixpoint digits_le (n : nat) (num : Z) : list Z :=
  match n with O => [] | S n => num mod 58 :: digits_le n (num / 58) end.

Definition digits (ds : list Z) : Prop := Forall (fun d => 0 <= d < 58) ds.

Lemma digits_le_length n num : length (digits_le n num) = n.
Proof. revert num. induction n; intros num; cbn; [done | by rewrite IHn]. Qed.

Lemma digits_le_range n num : digits (digits_le n num).
Proof.
  revert num. induction n as [| n IH]; intros num; constructor; [| apply IH].
  apply Z.mod_pos_bound. lia.
Qed.

Lemma val_digits n num : 0 <= num < 58 ^ Z.of_nat n -> val_le (digits_le n num) = num.
Proof.
  revert num. induction n as [| n IH]; intros num Hn; cbn [digits_le val_le].
  { change (58 ^ Z.of_nat 0) with 1 in Hn. lia. }
  rewrite Nat2Z.inj_succ, Z.pow_succ_r in Hn by lia. rewrite IH by div_lia. div_lia.
Qed.

Lemma digits_val ds : digits ds -> digits_le (length ds) (val_le ds) = ds.
Proof.
  induction 1 as [| d ds Hd _ IH]; [done |]. cbn [length digits_le val_le].
  replace ((d + 58 * val_le ds) mod 58) with d by div_lia.
  replace ((d + 58 * val_le ds) / 58) with (val_le ds) by div_lia. by rewrite IH.
Qed.

Lemma val_le_nonneg ds : digits ds -> 0 <= val_le ds.
Proof. induction 1; cbn; lia. Qed.

Lemma digits_le_zero n : digits_le n 0 = replicate n 0.
Proof. induction n; cbn; [done | by f_equal]. Qed.

Lemma letter_facts d :
  0 <= d < 58 -> reverse_alphabet (letter d) = d /\ in_u 8 (letter d).
Proof.
  intros Hd. assert (H : forallb (fun i => (reverse_alphabet (letter i) =? i) &&
    (0 <=? letter i) && (letter i <? 256)) (map Z.of_nat (seq 0 58)) = true) by reflexivity.
  rewrite forallb_forall in H. specialize (H d). unfold in_u.
  assert (Hin : In d (map Z.of_nat (seq 0 58))).
  { apply in_map_iff. exists (Z.to_nat d). rewrite in_seq. lia. }
  apply H in Hin. rewrite !andb_true_iff in Hin. lia.
Qed.

Lemma reverse_alphabet_facts c :
  in_u 8 c -> 0 <= reverse_alphabet c ->
  reverse_alphabet c < 58 /\ letter (reverse_alphabet c) = c.
Proof.
  intros Hc Hd. pose proof (all_bytes (fun c => (reverse_alphabet c <? 0) ||
    ((reverse_alphabet c <? 58) && (letter (reverse_alphabet c) =? c))) eq_refl c Hc) as H.
  cbn beta in H. destruct (Z.ltb_spec (reverse_alphabet c) 0); [lia |].
  cbn [orb] in H. apply andb_true_iff in H. lia.
Qed.

(** ** Blocks *)

(** The loop fills the block with the digits of the number. *)
Lemma encode_loop_digits n fuel num tail :
  (n <= fuel)%nat -> 0 <= num < 58 ^ Z.of_nat n ->
  encode_loop fuel num (Z.of_nat n - 1) (replicate n (letter 0) ++ tail) =
    Ok (map letter (reverse (digits_le n num)) ++ tail).
Proof.
  revert fuel num tail. induction n as [| n IH]; intros fuel num tail Hf Hn.
  { change (58 ^ Z.of_nat 0) with 1 in Hn. assert (num = 0) as -> by lia. by destruct fuel. }
  destruct (Z.ltb_spec 0 num) as [Hpos | Hz].
  2: { assert (num = 0) as -> by lia. rewrite digits_le_zero, reverse_replicate.
       rewrite fmap_replicate. by destruct fuel. }
  destruct fuel as [| fuel]; [lia |]. cbn [encode_loop]. rewrite (proj2 (Z.ltb_lt 0 num) Hpos).
  change alphabet_size with 58. rewrite zlen_app. unfold zlen at 1. rewrite length_replicate.
  pose proof (zlen_nonneg tail). destruct (Z.ltb_spec (Z.of_nat (S n) - 1) 0); [lia |].
  destruct (Z.leb_spec (Z.of_nat (S n) + zlen tail) (Z.of_nat (S n) - 1)); [lia |]. cbn [orb].
  replace (Z.of_nat (S n) - 1) with (Z.of_nat n) by lia. rewrite Nat2Z.id.
  rewrite replicate_S_end, <- app_assoc.
  rewrite insert_app_r_alt by (by rewrite length_replicate). rewrite length_replicate, Nat.sub_diag.
  cbn [app insert list_insert]. rewrite IH.
  - cbn [digits_le]. rewrite reverse_cons. by rewrite fmap_app, <- app_assoc.
  - lia.
  - rewrite Nat2Z.inj_succ, Z.pow_succ_r in Hn by lia. div_lia.
Qed.

Lemma decode_loop_digits ds k acc :
  digits ds -> (k + length ds <= 11)%nat -> 0 <= acc ->
  acc + 58 ^ Z.of_nat k * val_le ds < 2 ^ 64 ->
  decode_loop (map letter ds) acc (u64 (58 ^ Z.of_nat k)) = Some (acc + 58 ^ Z.of_nat k * val_le ds).
Proof.
  intros Hds. revert k acc. induction Hds as [| d ds Hd Hds IH]; intros k acc Hk Ha Hb.
  { cbn. f_equal. lia. }
  cbn [length val_le map decode_loop] in *. destruct (letter_facts d Hd) as [-> _].
  destruct (Z.ltb_spec d 0); [lia |]. pose proof (val_le_nonneg ds Hds) as Hv.
  assert (Hp : 0 < 58 ^ Z.of_nat k <= 58 ^ 10).
  { split; [apply Z.pow_pos_nonneg; lia | apply Z.pow_le_mono_r; lia]. }
  rewrite (u64_small (58 ^ Z.of_nat k)) by lia.
  destruct (mul128 (58 ^ Z.of_nat k) d) as [lo hi] eqn:E.
  apply mul128_exact in E as (E & Hlo & Hhi); [| unfold in_u; lia..]. unfold in_u in Hlo, Hhi.
  set (P := 58 ^ Z.of_nat k) in *. assert (P * (58 * val_le ds) >= 0) by nia.
  assert (hi = 0 /\ lo = P * d) as [-> ->] by nia.
  rewrite u64_small by nia. destruct (Z.ltb_spec (acc + P * d) acc); [nia |]. cbn [orb negb Z.eqb].
  change alphabet_size with 58.
  replace (P *! 58) with (u64 (58 ^ Z.of_nat (S k)))
    by (rewrite Nat2Z.inj_succ, Z.pow_succ_r by lia; f_equal; subst P; lia).
  assert (HS : 58 ^ Z.of_nat (S k) = 58 * P) by (rewrite Nat2Z.inj_succ, Z.pow_succ_r by lia; done).
  rewrite IH by (lia || nia). f_equal. rewrite HS. ring.
Qed.

Lemma decode_loop_sound l k acc v :
  bytes l -> (k + length l <= 11)%nat -> 0 <= acc < 2 ^ 64 ->
  decode_loop l acc (u64 (58 ^ Z.of_nat k)) = Some v ->
  exists ds, digits ds /\ l = map letter ds /\ v = acc + 58 ^ Z.of_nat k * val_le ds /\ 0 <= v < 2 ^ 64.
Proof.
  intros Hl. revert k acc. induction Hl as [| c l Hc Hl IH]; intros k acc Hk Ha E.
  { injection E as <-. exists []. split_and!; [constructor | done | cbn; lia | lia | lia]. }
  cbn [length decode_loop] in *.
  destruct (Z.ltb_spec (reverse_alphabet c) 0) as [| Hd]; [done |].
  destruct (reverse_alphabet_facts c Hc Hd) as [Hd' Hlet]. set (d := reverse_alphabet c) in *.
  assert (Hp : 0 < 58 ^ Z.of_nat k <= 58 ^ 10).
  { split; [apply Z.pow_pos_nonneg; lia | apply Z.pow_le_mono_r; lia]. }
  rewrite (u64_small (58 ^ Z.of_nat k)) in E by lia.
  destruct (mul128 (58 ^ Z.of_nat k) d) as [lo hi] eqn:Em.
  apply mul128_exact in Em as (Em & Hlo & Hhi); [| unfold in_u; lia..]. unfold in_u in Hlo, Hhi.
  pose proof (add_carry acc lo ltac:(unfold in_u; lia) ltac:(unfold in_u; lia)) as Hc'.
  destruct (Z.ltb_spec (acc +! lo) acc) as [| Hnc]; [done |].
  destruct (Z.eqb_spec hi 0) as [-> |]; cbn [orb negb] in E; [| done].
  assert (Hsum : acc +! lo = acc + 58 ^ Z.of_nat k * d) by lia. rewrite Hsum in E.
  pose proof (u64_range (acc + lo)) as Hr. rewrite Hsum in Hr.
  change alphabet_size with 58 in E.
  replace (58 ^ Z.of_nat k *! 58) with (u64 (58 ^ Z.of_nat (S k))) in E
    by (rewrite Nat2Z.inj_succ, Z.pow_succ_r by lia; f_equal; lia).
  destruct (IH (S k) _ ltac:(lia) Hr E) as (ds & Hds & -> & -> & Hv).
  exists (d :: ds). split_and!; [by constructor | cbn; by rewrite Hlet | | lia | lia].
  cbn [val_le]. rewrite Nat2Z.inj_succ, Z.pow_succ_r by lia. ring.
Qed.

Lemma le_bytes_zeros l k : le_bytes (l ++ replicate k 0) = le_bytes l.
Proof.
  rewrite le_bytes_app. assert (le_bytes (replicate k 0) = 0) as -> by (induction k; cbn; lia). lia.
Qed.

Lemma uint_8be_to_64_value block : uint_8be_to_64 block = be_bytes block.
Proof.
  unfold uint_8be_to_64, be_bytes. by rewrite reverse_app, reverse_replicate, le_bytes_zeros.
Qed.

Lemma le_encode_take n m x : (n <= m)%nat -> take n (le_encode m x) = le_encode n x.
Proof.
  revert m x. induction n as [| n IH]; intros [| m] x Hn; try done; [lia |].
  cbn. by rewrite IH by lia.
Qed.

Lemma uint_64_to_8be_value num n :
  (n <= 8)%nat -> uint_64_to_8be num n = reverse (le_encode n num).
Proof.
  intros Hn. unfold uint_64_to_8be.
  rewrite <- (le_encode_take n 8) by done. rewrite <- (take_drop n (le_encode 8 num)) at 1.
  rewrite reverse_app, drop_app_length'; [done |]. rewrite length_reverse, length_drop, le_encode_length. lia.
Qed.

(** The nine block sizes: an encoded block has room for its bytes, and the
    size of the block is recovered from it. *)
Lemma block_sizes (n : nat) :
  (n <= 8)%nat ->
  exists e, encoded_block_size (Z.of_nat n) = Z.of_nat e /\ (n <= e <= 11)%nat /\
    ((e < 11)%nat <-> (n < 8)%nat) /\
    256 ^ Z.of_nat n <= 58 ^ Z.of_nat e /\ decoded_block_size (Z.of_nat e) = Ok (Z.of_nat n).
Proof.
  intros Hn. exists (Z.to_nat (encoded_block_size (Z.of_nat n))).
  do 9 (destruct n as [| n]; [vm_compute; intuition (congruence || lia) |]). lia.
Qed.

Lemma decoded_sizes (e : nat) :
  (e <= 11)%nat -> exists r, decoded_block_size (Z.of_nat e) = Ok r /\
    (0 <= r -> 0 <= r <= 8 /\ encoded_block_size r = Z.of_nat e).
Proof.
  intros He. do 12 (destruct e as [| e]; [eexists; split; [vm_compute; reflexivity |];
    vm_compute; intuition (congruence || lia) |]). lia.
Qed.

Lemma be_bytes_range l : bytes l -> 0 <= be_bytes l < 256 ^ zlen l.
Proof.
  intros Hl. unfold be_bytes. replace (zlen l) with (zlen (reverse l)).
  - apply le_bytes_range. by apply Forall_reverse.
  - unfold zlen. by rewrite length_reverse.
Qed.

(** The characters of an encoded block. *)
Definition enc_block (block : list Z) : list Z :=
  map letter (reverse (digits_le (Z.to_nat (encoded_block_size (zlen block))) (be_bytes block))).

Lemma enc_block_length block :
  length (enc_block block) = Z.to_nat (encoded_block_size (zlen block)).
Proof. unfold enc_block. by rewrite length_map, length_reverse, digits_le_length. Qed.

Lemma letters_bytes ds : digits ds -> bytes (map letter ds).
Proof. induction 1; constructor; [by apply letter_facts | done]. Qed.

Lemma reverse_letters ds : reverse (map letter (reverse ds)) = map letter ds.
Proof. by rewrite <- fmap_reverse, reverse_involutive. Qed.

Lemma encode_block_ok block :
  bytes block -> (length block <= 8)%nat ->
  encode_block block (replicate (Z.to_nat (encoded_block_size (zlen block))) (letter 0))
  = Ok (enc_block block).
Proof.
  intros Hb Hl. unfold encode_block, enc_block. rewrite uint_8be_to_64_value.
  destruct (block_sizes _ Hl) as (e & He & Hr & _ & Hroom & _). unfold zlen at 1 2 3. rewrite He, Nat2Z.id.
  pose proof (be_bytes_range block Hb) as Hv. unfold zlen in Hv.
  pose proof (encode_loop_digits e 11 (be_bytes block) [] ltac:(lia) ltac:(lia)) as E.
  rewrite !app_nil_r in E. exact E.
Qed.

Lemma decode_block_enc block :
  bytes block -> (1 <= length block <= 8)%nat -> decode_block (enc_block block) = Ok (Some block).
Proof.
  intros Hb Hl. destruct (block_sizes (length block) ltac:(lia)) as (e & He & Hr & _ & Hroom & Hdec).
  pose proof (be_bytes_range block Hb) as Hv. unfold zlen in Hv.
  assert (H64 : 256 ^ Z.of_nat (length block) <= 2 ^ 64).
  { change (2 ^ 64) with (256 ^ 8). apply Z.pow_le_mono_r; lia. }
  unfold decode_block. unfold zlen at 1. rewrite enc_block_length. unfold zlen at 1.
  rewrite He, Nat2Z.id, Hdec. simpl_bind.
  destruct (Z.leb_spec (Z.of_nat (length block)) 0); [lia |].
  unfold enc_block, zlen. rewrite He, Nat2Z.id, reverse_letters.
  pose proof (decode_loop_digits (digits_le e (be_bytes block)) 0 0 (digits_le_range _ _)) as E.
  rewrite digits_le_length, val_digits in E by lia. cbn [Z.of_nat] in E.
  rewrite Z.pow_0_r, Z.mul_1_l, Z.add_0_l in E. change (u64 1) with 1 in E.
  rewrite E by lia. rewrite Z.shiftl_1_l, Z.pow_mul_r by lia. change (2 ^ 8) with 256.
  destruct (Z.leb_spec (256 ^ Z.of_nat (length block)) (be_bytes block)); [lia |].
  rewrite andb_false_r, Nat2Z.id, uint_64_to_8be_value by lia. do 2 f_equal.
  unfold be_bytes. rewrite <- (length_reverse block).
  rewrite le_encode_value by (by apply Forall_reverse). apply reverse_involutive.
Qed.

(** A block that decodes is the encoding of the result. *)
Lemma decode_block_sound enc :
  bytes enc -> (length enc <= 11)%nat ->
  exists r, decode_block enc = Ok r /\
    forall b, r = Some b -> bytes b /\ (1 <= length b <= 8)%nat /\ enc = enc_block b.
Proof.
  intros He Hl. unfold decode_block. destruct (decoded_sizes (length enc) Hl) as (n & Hn & Hn').
  unfold zlen. rewrite Hn. simpl_bind.
  destruct (Z.leb_spec n 0); [by eexists |]. destruct (Hn' ltac:(lia)) as [Hr Hsize].
  destruct (decode_loop (reverse enc) 0 1) as [v |] eqn:Ed; [| by eexists].
  destruct (decode_loop_sound (reverse enc) 0 0 v) as (ds & Hds & Hrev & Hval & Hv);
    [by apply Forall_reverse | by rewrite length_reverse | lia | done |].
  rewrite Z.pow_0_r, Z.mul_1_l, Z.add_0_l in Hval. rewrite Z.shiftl_1_l, Z.pow_mul_r by lia.
  change (2 ^ 8) with 256. change full_block_size with 8.
  destruct (_ && _) eqn:Eover; [by eexists |]. eexists. split; [done |]. intros b [= <-].
  assert (Hv' : 0 <= v < 256 ^ n).
  { split; [lia |]. destruct (Z.ltb_spec n 8), (Z.leb_spec (256 ^ n) v); cbn [andb] in Eover; try done.
    assert (n = 8) as -> by lia. change (256 ^ 8) with (2 ^ 64). lia. }
  rewrite uint_64_to_8be_value by lia.
  assert (Hbl : length (reverse (le_encode (Z.to_nat n) v)) = Z.to_nat n)
    by (by rewrite length_reverse, le_encode_length).
  split_and!; [by apply Forall_reverse, le_encode_bytes | lia | lia |].
  unfold enc_block, zlen. rewrite Hbl, Z2Nat.id, Hsize, Nat2Z.id by lia.
  unfold be_bytes. rewrite reverse_involutive, le_bytes_encode by (rewrite Z2Nat.id; lia).
  assert (Hlen : length enc = length ds) by (by rewrite <- length_reverse, Hrev, length_map).
  rewrite Hlen, Hval, digits_val by done.
  by rewrite <- (reverse_involutive enc), Hrev, <- reverse_letters, reverse_involutive.
Qed.

(** ** Strings *)

Lemma encode_blocks_roundtrip n data :
  bytes data -> (8 * n <= length data < 8 * n + 8)%nat ->
  exists enc, encode_blocks n data = Ok enc /\ decode_blocks n enc = Ok (Some data) /\
    exists r e, (r < 8)%nat /\ (e < 11)%nat /\ encoded_block_size (Z.of_nat r) = Z.of_nat e /\
      length data = (8 * n + r)%nat /\ length enc = (11 * n + e)%nat.
Proof.
  revert data. induction n as [| n IH]; intros data Hb Hl; cbn [encode_blocks].
  - destruct (block_sizes (length data) ltac:(lia)) as (e & He & Hr & Hlt & _).
    destruct (Z.ltb_spec 0 (zlen data)).
    + rewrite encode_block_ok by (done || lia). exists (enc_block data). split; [done |].
      pose proof (enc_block_length data) as Hel. unfold zlen in Hel. rewrite He, Nat2Z.id in Hel.
      split; [| exists (length data), e; split_and!; [lia.. | done | lia | lia]].
      unfold zlen in *. cbn [decode_blocks]. unfold zlen. destruct (Z.ltb_spec 0 (Z.of_nat (length (enc_block data)))); [| lia].
      apply decode_block_enc; [done | lia].
    + exists []. unfold zlen in *. split_and!; [done | by destruct data; cbn in *; [| lia] |].
      exists 0%nat, 0%nat. split_and!; [lia | lia | done | lia | done].
  - assert (Hlt : length (take 8 data) = 8%nat) by (rewrite length_take; lia).
    change (Z.to_nat full_block_size) with 8%nat.
    assert (E8 : encoded_block_size (zlen (take 8 data)) = 11) by (unfold zlen; by rewrite Hlt).
    change full_encoded_block_size with 11.
    pose proof (encode_block_ok (take 8 data) ltac:(by apply Forall_take) ltac:(lia)) as Ec.
    rewrite E8 in Ec. rewrite Ec. simpl_bind.
    destruct (IH (drop 8 data)) as (enc & -> & Hd & r & e & Hr & He & Hsz & Hl1 & Hl2);
      [by apply Forall_drop | rewrite length_drop; lia |].
    rewrite length_drop in Hl1. simpl_bind. eexists. split; [done |].
    pose proof (enc_block_length (take 8 data)) as Hel. rewrite E8 in Hel. change (Z.to_nat 11) with 11%nat in Hel.
    split.
    + cbn [decode_blocks]. change (Z.to_nat full_encoded_block_size) with 11%nat.
      rewrite take_app_length', drop_app_length' by done.
      rewrite decode_block_enc by (by apply Forall_take || lia). simpl_bind.
      rewrite Hd. simpl_bind. by rewrite take_drop.
    + exists r, e. rewrite length_app, Hel. split_and!; [done.. | lia | lia].
Qed.

Lemma decode_blocks_sound n enc :
  bytes enc -> (11 * n <= length enc < 11 * n + 11)%nat ->
  exists r, decode_blocks n enc = Ok r /\
    forall data, r = Some data -> bytes data /\ (8 * n <= length data < 8 * n + 8)%nat /\
      encode_blocks n data = Ok enc.
Proof.
  revert enc. induction n as [| n IH]; intros enc Hb Hl; cbn [decode_blocks].
  - destruct (Z.ltb_spec 0 (zlen enc)).
    + destruct (decode_block_sound enc Hb ltac:(lia)) as (r & -> & Hr).
      exists r. split; [done |]. intros data Hd. destruct (Hr data Hd) as (Hbd & Hld & ->).
      destruct (block_sizes (length data) ltac:(lia)) as (e & He & _ & Hlt & _).
      rewrite enc_block_length in Hl. unfold zlen in Hl. rewrite He, Nat2Z.id in Hl.
      split_and!; [done | lia | lia |]. cbn [encode_blocks].
      destruct (Z.ltb_spec 0 (zlen data)); [| unfold zlen in *; lia].
      by apply encode_block_ok; [| lia].
    + eexists. split; [done |]. intros data [= <-]. destruct enc; [| unfold zlen in *; cbn in *; lia].
      split_and!; [constructor | cbn; lia | cbn; lia | done].
  - change (Z.to_nat full_encoded_block_size) with 11%nat.
    assert (Hlt : length (take 11 enc) = 11%nat) by (rewrite length_take; lia).
    destruct (decode_block_sound (take 11 enc)) as (r1 & -> & Hr1); [by apply Forall_take | lia |].
    simpl_bind. destruct r1 as [b |]; [| by eexists].
    destruct (Hr1 b eq_refl) as (Hbb & Hlb & Eb).
    destruct (block_sizes (length b) ltac:(lia)) as (e & He & _ & Hiff & _).
    assert (Hb8 : length b = 8%nat).
    { apply (f_equal length) in Eb. rewrite enc_block_length in Eb. unfold zlen in Eb.
      rewrite He, Nat2Z.id, Hlt in Eb. lia. }
    destruct (IH (drop 11 enc)) as (r2 & -> & Hr2); [by apply Forall_drop | rewrite length_drop; lia |].
    simpl_bind. eexists. split; [done |]. intros data Hd.
    destruct r2 as [rest |]; [| done]. injection Hd as <-.
    destruct (Hr2 rest eq_refl) as (Hbr & Hlr & Er).
    split_and!; [by apply Forall_app | rewrite length_app; lia | rewrite length_app; lia |].
    cbn [encode_blocks]. change (Z.to_nat full_block_size) with 8%nat.
    rewrite take_app_length', drop_app_length' by done.
    assert (E8 : encoded_block_size (zlen b) = 11) by (unfold zlen; by rewrite Hb8).
    change full_encoded_block_size with 11.
    pose proof (encode_block_ok b Hbb ltac:(lia)) as Ec. rewrite E8 in Ec. rewrite Ec. simpl_bind. rewrite Er.
    simpl_bind. by rewrite <- Eb, take_drop.
Qed.

Lemma encode_unfold data :
  encode data = encode_blocks (Z.to_nat (zlen data / full_block_size)) data.
Proof. by destruct data. Qed.

Lemma base58_decode data :
  bytes data -> exists enc, encode data = Ok enc /\ decode enc = Ok (Some data).
Proof.
  intros Hb. rewrite encode_unfold. change full_block_size with 8.
  set (n := Z.to_nat (zlen data / 8)).
  assert (Hn : (8 * n <= length data < 8 * n + 8)%nat) by (subst n; unfold zlen; div_lia).
  destruct (encode_blocks_roundtrip n data Hb Hn) as (enc & -> & Hd & r & e & Hr & He & Hsz & Hl1 & Hl2).
  exists enc. split; [done |]. unfold decode. destruct enc as [| c enc'] eqn:Eenc.
  { cbn in Hl2. assert (n = 0%nat) as E0 by lia. rewrite E0 in Hd. exact Hd. }
  rewrite <- Eenc in *. clear Eenc. change full_encoded_block_size with 11. unfold zlen.
  replace (Z.of_nat (length enc) mod 11) with (Z.of_nat e) by (rewrite Hl2; div_lia).
  replace (Z.of_nat (length enc) / 11) with (Z.of_nat n) by (rewrite Hl2; div_lia).
  destruct (block_sizes r ltac:(lia)) as (e' & He' & _ & _ & _ & Hdec).
  assert (e' = e) as -> by lia. rewrite Hdec. simpl_bind.
  destruct (Z.ltb_spec (Z.of_nat r) 0); [lia |]. by rewrite Nat2Z.id.
Qed.

(** Every byte string encodes, and decoding the encoding gives it back. *)
Theorem base58_roundtrip data :
  bytes data -> exists enc, encode data = Ok enc /\ decode enc = Ok (Some data).
Proof. apply base58_decode. Qed.

(** Decoding always returns, and a string that decodes is the encoding of the
    result: no two strings decode to the same bytes, and no value out of the
    range of its block is accepted. *)
Theorem base58_canonical enc :
  bytes enc -> exists r, decode enc = Ok r /\
    forall data, r = Some data -> bytes data /\ encode data = Ok enc.
Proof.
  intros Hb. unfold decode. destruct enc as [| c enc'] eqn:Eenc.
  { eexists. split; [done |]. intros data [= <-]. split; [constructor | done]. }
  rewrite <- Eenc in *. clear Eenc. change full_encoded_block_size with 11.
  set (n := Z.to_nat (zlen enc / 11)).
  assert (Hn : (11 * n <= length enc < 11 * n + 11)%nat) by (subst n; unfold zlen; div_lia).
  destruct (decoded_sizes (Z.to_nat (zlen enc mod 11))) as (d & Hd & _); [unfold zlen; div_lia |].
  rewrite Z2Nat.id in Hd by (unfold zlen; div_lia). rewrite Hd. simpl_bind.
  destruct (d <? 0); [by eexists |].
  destruct (decode_blocks_sound n enc Hb Hn) as (r & -> & Hr). exists r. split; [done |].
  intros data E. destruct (Hr data E) as (Hbd & Hld & He). split; [done |].
  rewrite encode_unfold. change full_block_size with 8.
  replace (Z.to_nat (zlen data / 8)) with n by (unfold zlen; div_lia). done.
Qed.

(** ** Addresses *)

Section AddressRoundtrip.
Variable cn_fast_hash : list Z -> list Z.
Context `{!FastHash cn_fast_hash}.

(** An address decodes to the tag and the data it was made from. *)
Theorem address_roundtrip tag data :
  in_u 64 tag -> bytes data ->
  exists addr, encode_addr cn_fast_hash tag data = Ok addr /\
    decode_addr cn_fast_hash addr = Ok (Some (tag, data)).
Proof.
  intros Ht Hd. unfold encode_addr. set (buf := get_varint_data tag ++ data).
  destruct (varint_decode 64 tag data ltac:(lia) Ht) as (Hread & Hvb & Hvl).
  set (sum := take addr_checksum_size (cn_fast_hash buf)).
  assert (Hsum : length sum = 4%nat).
  { unfold sum. rewrite length_take, fast_hash_size. done. }
  destruct (base58_decode (buf ++ sum)) as (addr & -> & Hdec).
  { unfold buf. rewrite !bytes_app. split_and!; [done | done | apply Forall_take, fast_hash_bytes]. }
  exists addr. split; [done |]. unfold decode_addr. rewrite Hdec. simpl_bind.
  rewrite zlen_app. unfold zlen at 2. rewrite Hsum.
  assert (0 < zlen buf) by (unfold buf; rewrite zlen_app; pose proof (zlen_nonneg data); lia).
  destruct (Z.leb_spec (zlen buf + Z.of_nat 4) (Z.of_nat addr_checksum_size)) as [Hle |];
    [unfold addr_checksum_size in Hle; lia |].
  assert ((length (buf ++ sum) - addr_checksum_size)%nat = length buf) as ->
    by (rewrite length_app, Hsum; unfold addr_checksum_size; lia).
  rewrite drop_app_length, take_app_length. fold sum.
  rewrite bool_decide_false by (intros H'; by apply H').
  unfold buf. rewrite Hread. destruct (Z.leb_spec (zlen (get_varint_data tag)) 0); [lia |].
  unfold zlen. by rewrite Nat2Z.id, drop_app_length.
Qed.
End AddressRoundtrip.

(** ** Instances *)

Lemma base58_roundtrip_witness : exists enc, encode [0; 1; 255] = Ok enc /\ decode enc = Ok (Some [0; 1; 255]).
Proof. apply base58_roundtrip. by_decide. Defined.

Lemma base58_canonical_witness : encode [0xde; 0xad] = Ok (codes "Hwr").
Proof.
  destruct (base58_canonical (codes "Hwr") ltac:(by_decide)) as (r & E & H).
  vm_compute in E. injection E as <-. by destruct (H _ eq_refl) as [_ ?].
Defined.

Lemma address_roundtrip_witness :
  exists addr, encode_addr cn_fast_hash 0x3800 (replicate 64 1) = Ok addr /\
    decode_addr cn_fast_hash addr = Ok (Some (0x3800, replicate 64 1)).
Proof. apply (address_roundtrip cn_fast_hash); by_decide. Defined.
