(* ===== verification/Pruning.v ===== *)
(** * Pruning stripes: [src/common/pruning.cpp]

    A pruned node keeps the prunable data of one block stripe out of
    [2^log_stripes], and of the last [CRYPTONOTE_PRUNING_TIP_BLOCKS] blocks. The
    pruning seed packs the stripe and [log_stripes]; seed 0 is an unpruned
    node. *)
From S2P Require Import Prelude Config.

Open Scope Z_scope.

(** Source: src/src/common/pruning.h:36-36 (PRUNING_SEED_LOG_STRIPES_SHIFT) *)
Definition PRUNING_SEED_LOG_STRIPES_SHIFT : Z := 7.

(** Source: src/src/common/pruning.h:37-37 (PRUNING_SEED_LOG_STRIPES_MASK) *)
Definition PRUNING_SEED_LOG_STRIPES_MASK : Z := 0x7.

(** Source: src/src/common/pruning.h:38-38 (PRUNING_SEED_STRIPE_SHIFT) *)
Definition PRUNING_SEED_STRIPE_SHIFT : Z := 0.

(** Source: src/src/common/pruning.h:39-39 (PRUNING_SEED_STRIPE_MASK) *)
Definition PRUNING_SEED_STRIPE_MASK : Z := 0x7f.

(** Source: src/src/common/pruning.h:41-41 (get_pruning_log_stripes) *)
Definition get_pruning_log_stripes (pruning_seed : Z) : Z :=
  Z.land (Z.shiftr pruning_seed PRUNING_SEED_LOG_STRIPES_SHIFT) PRUNING_SEED_LOG_STRIPES_MASK.

(** Source: src/src/common/pruning.h:42-42 (get_pruning_stripe) *)
Definition seed_pruning_stripe (pruning_seed : Z) : Z :=
  if pruning_seed =? 0 then 0
  else u32 (1 + Z.land (Z.shiftr pruning_seed PRUNING_SEED_STRIPE_SHIFT) PRUNING_SEED_STRIPE_MASK).

(** Source: src/src/common/pruning.cpp:38-43 (make_pruning_seed) *)
Definition make_pruning_seed (stripe log_stripes : Z) : outcome Z :=
  if negb (log_stripes <=? PRUNING_SEED_LOG_STRIPES_MASK) then Throw "log_stripes out of range"
  else if negb ((0 <? stripe) && (stripe <=? Z.shiftl 1 log_stripes)) then
    Throw "stripe out of range"
  else Ok (Z.lor (u32 (Z.shiftl log_stripes PRUNING_SEED_LOG_STRIPES_SHIFT))
             (u32 (Z.shiftl (stripe - 1) PRUNING_SEED_STRIPE_SHIFT))).

(** Source: src/src/common/pruning.cpp:55-60 (get_pruning_stripe) *)
Definition get_pruning_stripe (block_height blockchain_height log_stripes : Z) : Z :=
  if blockchain_height <=? block_height +! CRYPTONOTE_PRUNING_TIP_BLOCKS then 0
  else u32 (Z.land (block_height / CRYPTONOTE_PRUNING_STRIPE_SIZE)
              ((1 <<! log_stripes) -! 1) +! 1).

(** Source: src/src/common/pruning.cpp:45-53 (has_unpruned_block) *)
Definition has_unpruned_block (block_height blockchain_height pruning_seed : Z) : bool :=
  let stripe := seed_pruning_stripe pruning_seed in
  if stripe =? 0 then true else
  let log_stripes := get_pruning_log_stripes pruning_seed in
  let block_stripe := get_pruning_stripe block_height blockchain_height log_stripes in
  (block_stripe =? 0) || (block_stripe =? stripe).

(** Source: src/src/common/pruning.cpp:62-68 (get_pruning_seed) *)
Definition get_pruning_seed (block_height blockchain_height log_stripes : Z) : outcome Z :=
  let stripe := get_pruning_stripe block_height blockchain_height log_stripes in
  if stripe =? 0 then Ok 0 else make_pruning_seed stripe log_stripes.

(** Source: src/src/common/pruning.cpp:70-92 (get_next_unpruned_block_height) *)
Definition get_next_unpruned_block_height (block_height blockchain_height pruning_seed : Z) : Z :=
  if negb (block_height <=? CRYPTONOTE_MAX_BLOCK_NUMBER + 1) then block_height else
  if negb (blockchain_height <=? CRYPTONOTE_MAX_BLOCK_NUMBER + 1) then block_height else
  let stripe := seed_pruning_stripe pruning_seed in
  if stripe =? 0 then block_height else
  if blockchain_height <=? block_height +! CRYPTONOTE_PRUNING_TIP_BLOCKS then block_height else
  let seed_log_stripes := get_pruning_log_stripes pruning_seed in
  let log_stripes :=
    if negb (seed_log_stripes =? 0) then seed_log_stripes else CRYPTONOTE_PRUNING_LOG_STRIPES in
  let mask := (1 <<! log_stripes) -! 1 in
  let block_pruning_stripe :=
    u32 (Z.land (block_height / CRYPTONOTE_PRUNING_STRIPE_SIZE) mask +! 1) in
  if block_pruning_stripe =? stripe then block_height else
  let cycles := Z.shiftr (block_height / CRYPTONOTE_PRUNING_STRIPE_SIZE) log_stripes in
  let cycle_start := cycles +! (if block_pruning_stripe <? stripe then 0 else 1) in
  let h := cycle_start *! Z.shiftl CRYPTONOTE_PRUNING_STRIPE_SIZE log_stripes
           +! u32 ((stripe - 1) * CRYPTONOTE_PRUNING_STRIPE_SIZE) in
  if blockchain_height <? h +! CRYPTONOTE_PRUNING_TIP_BLOCKS then
    (if blockchain_height <? CRYPTONOTE_PRUNING_TIP_BLOCKS then 0
     else blockchain_height -! CRYPTONOTE_PRUNING_TIP_BLOCKS)
  else if negb (block_height <=? h) then block_height
  else h.

(** Source: src/src/common/pruning.cpp:94-109 (get_next_pruned_block_height) *)
Definition get_next_pruned_block_height (block_height blockchain_height pruning_seed : Z)
  : outcome Z :=
  let stripe := seed_pruning_stripe pruning_seed in
  if stripe =? 0 then Ok blockchain_height else
  if blockchain_height <=? block_height +! CRYPTONOTE_PRUNING_TIP_BLOCKS then Ok blockchain_height
  else
  let seed_log_stripes := get_pruning_log_stripes pruning_seed in
  let log_stripes :=
    if negb (seed_log_stripes =? 0) then seed_log_stripes else CRYPTONOTE_PRUNING_LOG_STRIPES in
  let mask := (1 <<! log_stripes) -! 1 in
  let block_pruning_seed :=
    u32 (Z.land (block_height / CRYPTONOTE_PRUNING_STRIPE_SIZE) mask +! 1) in
  if negb (block_pruning_seed =? stripe) then Ok block_height else
  let next_stripe := u32 (1 + Z.land block_pruning_seed mask) in
  seed ← make_pruning_seed next_stripe log_stripes;
  Ok (get_next_unpruned_block_height block_height blockchain_height seed).

(** * Properties *)

(** A seed made from stripe [stripe] out of [2^log]. *)
Lemma make_pruning_seed_total stripe log :
  1 <= log <= 7 -> 1 <= stripe <= 2 ^ log -> exists seed, make_pruning_seed stripe log = Ok seed.
Proof.
  intros Hlog Hs. unfold make_pruning_seed. change PRUNING_SEED_LOG_STRIPES_MASK with 7. rewrite Z.shiftl_1_l.
  destruct (Z.leb_spec log 7); [| lia]. destruct (Z.ltb_spec 0 stripe); [| lia].
  destruct (Z.leb_spec stripe (2 ^ log)); [by eexists | lia].
Qed.

Lemma make_pruning_seed_fields stripe log seed :
  1 <= log <= 7 -> 1 <= stripe <= 2 ^ log -> make_pruning_seed stripe log = Ok seed ->
  seed = log * 128 + (stripe - 1) /\ seed_pruning_stripe seed = stripe /\
  get_pruning_log_stripes seed = log.
Proof.
  intros Hlog Hs. assert (2 ^ log <= 2 ^ 7) by (apply Z.pow_le_mono_r; lia).
  unfold make_pruning_seed. change PRUNING_SEED_LOG_STRIPES_MASK with 7.
  destruct (Z.leb_spec log 7); [| lia]. rewrite Z.shiftl_1_l.
  destruct (Z.ltb_spec 0 stripe); [| lia]. destruct (Z.leb_spec stripe (2 ^ log)); [| lia].
  cbn [andb negb]. intros [= <-]. change PRUNING_SEED_STRIPE_SHIFT with 0. rewrite Z.shiftl_0_r.
  change PRUNING_SEED_LOG_STRIPES_SHIFT with 7.
  rewrite (u32_small (Z.shiftl log 7)) by (rewrite Z.shiftl_mul_pow2; lia).
  rewrite (u32_small (stripe - 1)) by lia. rewrite lor_shiftl_add by lia. change (2 ^ 7) with 128 in *.
  split; [done |]. unfold seed_pruning_stripe, get_pruning_log_stripes.
  change PRUNING_SEED_STRIPE_SHIFT with 0. change PRUNING_SEED_LOG_STRIPES_SHIFT with 7.
  rewrite Z.shiftr_0_r, shiftr_div by lia.
  pose proof (land_mask (log * 128 + (stripe - 1)) 7 ltac:(lia)) as E1.
  pose proof (land_mask ((log * 128 + (stripe - 1)) / 2 ^ 7) 3 ltac:(lia)) as E2.
  change (2 ^ 7 - 1) with PRUNING_SEED_STRIPE_MASK in E1.
  change (2 ^ 3 - 1) with PRUNING_SEED_LOG_STRIPES_MASK in E2. rewrite E1, E2.
  change (2 ^ 7) with 128. change (2 ^ 3) with 8.
  destruct (Z.eqb_spec (log * 128 + (stripe - 1)) 0); [lia |].
  rewrite u32_small by div_lia. split; div_lia.
Qed.

(** The least number from [c * M + b] on whose remainder by [M] is [s]. *)
Lemma next_residue M c b s x :
  0 <= b < M -> 0 <= s < M -> b <> s ->
  c * M + b <= x < (c + if b <? s then 0 else 1) * M + s -> x mod M <> s.
Proof.
  intros Hb Hs Hne Hx. destruct (Z.ltb_spec b s).
  - rewrite <- (Z.mod_unique_pos x M c (x - c * M)) by lia. lia.
  - destruct (Z.lt_ge_cases x ((c + 1) * M)).
    + rewrite <- (Z.mod_unique_pos x M c (x - c * M)) by lia. lia.
    + rewrite <- (Z.mod_unique_pos x M (c + 1) (x - (c + 1) * M)) by lia. lia.
Qed.

Lemma residue_at M c s : 0 <= s < M -> (c * M + s) mod M = s.
Proof. intros. symmetry. apply (Z.mod_unique_pos _ _ c); lia. Qed.

(** The stripe of a block below the tip. *)
Lemma block_stripe_value bh log :
  1 <= log <= 7 -> 0 <= bh < 2 ^ 63 ->
  let q := bh / CRYPTONOTE_PRUNING_STRIPE_SIZE in
  u32 (Z.land q ((1 <<! log) -! 1) +! 1) = q mod 2 ^ log + 1 /\ 0 <= q mod 2 ^ log < 2 ^ log /\ 2 ^ log <= 128.
Proof.
  intros Hlog Hb q. assert (2 ^ log <= 2 ^ 7) by (apply Z.pow_le_mono_r; lia).
  assert (0 < 2 ^ log) by (apply Z.pow_pos_nonneg; lia). change (2 ^ 7) with 128 in *.
  rewrite Z.shiftl_1_l, (u64_small (2 ^ log)), (u64_small (2 ^ log - 1)), land_mask by lia.
  pose proof (Z.mod_pos_bound q (2 ^ log) ltac:(lia)).
  rewrite u64_small, u32_small by lia. lia.
Qed.

Lemma has_unpruned_exact bh bch stripe log seed :
  1 <= log <= 7 -> 1 <= stripe <= 2 ^ log -> make_pruning_seed stripe log = Ok seed ->
  0 <= bh < 2 ^ 63 ->
  has_unpruned_block bh bch seed =
    ((bch <=? bh + 5500) || ((bh / 4096) mod 2 ^ log =? stripe - 1)).
Proof.
  intros Hlog Hs Hseed Hb. destruct (make_pruning_seed_fields _ _ _ Hlog Hs Hseed) as (_ & E1 & E2).
  unfold has_unpruned_block, get_pruning_stripe. rewrite E1, E2.
  change CRYPTONOTE_PRUNING_TIP_BLOCKS with 5500. rewrite u64_small by lia.
  destruct (Z.eqb_spec stripe 0); [lia |]. destruct (bch <=? bh + 5500); [done |].
  destruct (block_stripe_value bh log Hlog Hb) as [-> Hr].
  change CRYPTONOTE_PRUNING_STRIPE_SIZE with 4096 in *. cbn [orb].
  destruct (Z.eqb_spec ((bh / 4096) mod 2 ^ log + 1) 0); [lia |]. cbn [orb].
  destruct (Z.eqb_spec ((bh / 4096) mod 2 ^ log + 1) stripe),
    (Z.eqb_spec ((bh / 4096) mod 2 ^ log) (stripe - 1)); try done; lia.
Qed.

(** The candidate height computed by [get_next_unpruned_block_height]. *)
Lemma next_stripe_start bh log stripe :
  1 <= log <= 7 -> 1 <= stripe <= 2 ^ log -> 0 <= bh <= CRYPTONOTE_MAX_BLOCK_NUMBER + 1 ->
  let q := bh / 4096 in
  let b := q mod 2 ^ log in
  b + 1 <> stripe ->
  let c := q / 2 ^ log + (if b + 1 <? stripe then 0 else 1) in
  let h := c * 2 ^ log * 4096 + (stripe - 1) * 4096 in
  (Z.shiftr q log +! (if b + 1 <? stripe then 0 else 1)) *! Z.shiftl 4096 log
    +! u32 ((stripe - 1) * 4096) = h /\
  bh < h < 2 ^ 63 /\ (h / 4096) mod 2 ^ log = stripe - 1 /\
  forall x, bh <= x < h -> (x / 4096) mod 2 ^ log <> stripe - 1.
Proof.
  intros Hlog Hs Hb q b Hne c h. change CRYPTONOTE_MAX_BLOCK_NUMBER with 500000000 in Hb.
  assert (2 ^ 1 <= 2 ^ log <= 2 ^ 7) as HM by (split; apply Z.pow_le_mono_r; lia).
  change (2 ^ 7) with 128 in HM. change (2 ^ 1) with 2 in HM. remember (2 ^ log) as M eqn:EM.
  assert (Hq : 0 <= q <= 500000001 / 4096) by (subst q; div_lia).
  pose proof (Z.div_mod q M ltac:(lia)) as Hdm. pose proof (Z.mod_pos_bound q M ltac:(lia)) as Hbr.
  fold b in Hdm, Hbr. assert (Hc0 : 0 <= q / M <= q) by (split; [apply Z.div_pos | apply Z.div_le_upper_bound]; nia).
  assert (Hc : 0 <= c <= q / M + 1) by (subst c; destruct (b + 1 <? stripe); lia).
  assert (Hlt : q < c * M + (stripe - 1)) by (subst c; destruct (Z.ltb_spec (b + 1) stripe); nia).
  assert (Hup : c * M + (stripe - 1) <= q + 2 * M) by nia.
  assert (Hh : h = (c * M + (stripe - 1)) * 4096) by (subst h; ring).
  split; [| split; [| split]].
  - rewrite shiftr_div, Z.shiftl_mul_pow2, <- EM by lia. fold c.
    rewrite (u64_small c), (u32_small ((stripe - 1) * 4096)) by div_lia.
    rewrite (u64_small (c * (4096 * M))) by (clear - Hup Hq HM Hc Hs; div_lia || nia).
    rewrite u64_small; [subst h; ring | clear - Hup Hq HM Hc Hs; div_lia || nia].
  - rewrite Hh. subst q. div_lia.
  - rewrite Hh, Z.div_mul by lia. apply residue_at. lia.
  - intros x Hx. rewrite Hh in Hx. apply (next_residue M (q / M) b (stripe - 1)); [lia | lia | lia |].
    replace (b <? stripe - 1) with (b + 1 <? stripe)
      by (destruct (Z.ltb_spec (b + 1) stripe), (Z.ltb_spec b (stripe - 1)); try done; lia).
    fold c. split; [rewrite Z.mul_comm, <- Hdm; apply Z.div_le_mono; lia | apply Z.div_lt_upper_bound; lia].
Qed.

Lemma next_unpruned_correct bh bch stripe log seed :
  1 <= log <= 7 -> 1 <= stripe <= 2 ^ log -> make_pruning_seed stripe log = Ok seed ->
  0 <= bh <= CRYPTONOTE_MAX_BLOCK_NUMBER + 1 -> 0 <= bch <= CRYPTONOTE_MAX_BLOCK_NUMBER + 1 ->
  let r := get_next_unpruned_block_height bh bch seed in
  bh <= r /\ has_unpruned_block r bch seed = true /\
  forall x, bh <= x < r -> has_unpruned_block x bch seed = false.
Proof.
  intros Hlog Hs Hseed Hb Hbc r. destruct (make_pruning_seed_fields _ _ _ Hlog Hs Hseed) as (_ & E1 & E2).
  change CRYPTONOTE_MAX_BLOCK_NUMBER with 500000000 in *.
  assert (Hex : forall x, 0 <= x < 2 ^ 63 -> has_unpruned_block x bch seed =
    ((bch <=? x + 5500) || ((x / 4096) mod 2 ^ log =? stripe - 1)))
    by (intros; by apply has_unpruned_exact).
  subst r. unfold get_next_unpruned_block_height. rewrite E1, E2.
  change CRYPTONOTE_MAX_BLOCK_NUMBER with 500000000. change CRYPTONOTE_PRUNING_TIP_BLOCKS with 5500.
  change CRYPTONOTE_PRUNING_STRIPE_SIZE with 4096.
  destruct (Z.leb_spec bh (500000000 + 1)); [| lia]. destruct (Z.leb_spec bch (500000000 + 1)); [| lia].
  cbn [negb]. destruct (Z.eqb_spec stripe 0); [lia |]. rewrite (u64_small (bh + 5500)) by lia.
  assert (Hhere : has_unpruned_block bh bch seed = true -> bh <= bh /\
    has_unpruned_block bh bch seed = true /\ forall x, bh <= x < bh -> has_unpruned_block x bch seed = false).
  { intros Ht. split_and!; [lia | done | lia]. }
  destruct (Z.leb_spec bch (bh + 5500)) as [Htip | Htip].
  { apply Hhere. rewrite Hex by lia. by rewrite (proj2 (Z.leb_le bch (bh + 5500))) by lia. }
  destruct (Z.eqb_spec log 0); [lia |]. cbn [negb].
  destruct (block_stripe_value bh log Hlog ltac:(lia)) as [Ev Hr].
  change CRYPTONOTE_PRUNING_STRIPE_SIZE with 4096 in Ev, Hr. rewrite Ev.
  destruct (Z.eqb_spec ((bh / 4096) mod 2 ^ log + 1) stripe) as [Heq | Hne].
  { apply Hhere. rewrite Hex by lia. rewrite (proj2 (Z.eqb_eq _ _)) by lia. apply orb_true_r. }
  destruct (next_stripe_start bh log stripe Hlog Hs Hb Hne) as (Eh & Hlt & Hres & Hbetween).
  cbv zeta in Eh, Hlt, Hres, Hbetween. rewrite Eh. set (h := _ * 4096 + _) in *.
  rewrite (u64_small (h + 5500)) by lia.
  assert (Hnone : forall x, bh <= x < h -> x + 5500 < bch -> has_unpruned_block x bch seed = false).
  { intros x Hx Ht. rewrite Hex by lia. rewrite (proj2 (Z.leb_gt _ _)), (proj2 (Z.eqb_neq _ _)) by auto.
    done. }
  destruct (Z.ltb_spec bch (h + 5500)).
  - destruct (Z.ltb_spec bch 5500); [lia |]. rewrite u64_small by lia. split_and!; [lia | |].
    + rewrite Hex by lia. by rewrite (proj2 (Z.leb_le _ _)) by lia.
    + intros x Hx. apply Hnone; lia.
  - destruct (Z.leb_spec bh h); [| lia]. cbn [negb]. split_and!; [lia | |].
    + rewrite Hex by lia. rewrite Hres, Z.eqb_refl. apply orb_true_r.
    + intros x Hx. apply Hnone; lia.
Qed.

(** The residue after [b]. *)
Lemma succ_residue M q : 2 <= M -> (q + 1) mod M = (q mod M + 1) mod M /\ (q + 1) mod M <> q mod M.
Proof.
  intros HM. pose proof (Z.mod_pos_bound q M ltac:(lia)). pose proof (Z.div_mod q M ltac:(lia)).
  destruct (decide (q mod M = M - 1)).
  - rewrite <- (Z.mod_unique_pos (q + 1) M (q / M + 1) 0) by lia.
    rewrite <- (Z.mod_unique_pos (q mod M + 1) M 1 0) by lia. lia.
  - rewrite <- (Z.mod_unique_pos (q + 1) M (q / M) (q mod M + 1)) by lia.
    rewrite (Z.mod_small (q mod M + 1)) by lia. lia.
Qed.

Lemma next_pruned_correct bh bch stripe log seed :
  1 <= log <= 7 -> 1 <= stripe <= 2 ^ log -> make_pruning_seed stripe log = Ok seed ->
  0 <= bh <= CRYPTONOTE_MAX_BLOCK_NUMBER -> 0 <= bch <= CRYPTONOTE_MAX_BLOCK_NUMBER + 1 ->
  exists r, get_next_pruned_block_height bh bch seed = Ok r /\
    (forall x, bh <= x < r -> has_unpruned_block x bch seed = true) /\
    (has_unpruned_block r bch seed = false \/ bch <= r + 5500).
Proof.
  intros Hlog Hs Hseed Hb Hbc. destruct (make_pruning_seed_fields _ _ _ Hlog Hs Hseed) as (_ & E1 & E2).
  change CRYPTONOTE_MAX_BLOCK_NUMBER with 500000000 in *.
  assert (2 ^ 1 <= 2 ^ log <= 2 ^ 7) as HM by (split; apply Z.pow_le_mono_r; lia).
  change (2 ^ 7) with 128 in HM. change (2 ^ 1) with 2 in HM.
  assert (Hex : forall x, 0 <= x < 2 ^ 63 -> has_unpruned_block x bch seed =
    ((bch <=? x + 5500) || ((x / 4096) mod 2 ^ log =? stripe - 1)))
    by (intros; by apply has_unpruned_exact).
  unfold get_next_pruned_block_height. rewrite E1, E2. change CRYPTONOTE_PRUNING_TIP_BLOCKS with 5500.
  destruct (Z.eqb_spec stripe 0); [lia |]. rewrite (u64_small (bh + 5500)) by lia.
  destruct (Z.leb_spec bch (bh + 5500)) as [Htip | Htip].
  { exists bch. split_and!; [done | | right; lia]. intros x Hx. rewrite Hex by lia.
    by rewrite (proj2 (Z.leb_le _ _)) by lia. }
  destruct (Z.eqb_spec log 0); [lia |]. cbn [negb].
  destruct (block_stripe_value bh log Hlog ltac:(lia)) as [Ev Hr].
  change CRYPTONOTE_PRUNING_STRIPE_SIZE with 4096 in *. rewrite Ev. set (q := bh / 4096) in *.
  destruct (Z.eqb_spec (q mod 2 ^ log + 1) stripe) as [Heq | Hne]; cbn [negb].
  2: { exists bh. split_and!; [done | lia | left]. rewrite Hex by lia. fold q.
       by rewrite (proj2 (Z.leb_gt _ _)), (proj2 (Z.eqb_neq _ _)) by lia. }
  rewrite Heq, Z.shiftl_1_l, (u64_small (2 ^ log)), (u64_small (2 ^ log - 1)), land_mask by lia.
  pose proof (Z.mod_pos_bound stripe (2 ^ log) ltac:(lia)). rewrite u32_small by lia.
  destruct (succ_residue (2 ^ log) q ltac:(lia)) as [Hsucc Hsne].
  set (next := 1 + stripe mod 2 ^ log). assert (Hnext : (q + 1) mod 2 ^ log = next - 1).
  { rewrite Hsucc, Heq. unfold next. lia. }
  destruct (make_pruning_seed_total next log Hlog) as [seed' Hseed']; [unfold next; lia |].
  rewrite Hseed'. simpl_bind.
  destruct (next_unpruned_correct bh bch next log seed') as (Hge & Hhas & Hmin);
    [done | unfold next; lia | done | change CRYPTONOTE_MAX_BLOCK_NUMBER with 500000000; lia.. |].
  set (r := get_next_unpruned_block_height bh bch seed') in *. exists r.
  assert (Hh : bh < (q + 1) * 4096 < 2 ^ 63) by (subst q; div_lia).
  assert (Hle : r <= (q + 1) * 4096).
  { destruct (Z.le_gt_cases r ((q + 1) * 4096)) as [| Hgt]; [done |].
    specialize (Hmin ((q + 1) * 4096) ltac:(lia)).
    rewrite (has_unpruned_exact _ bch next log seed') in Hmin by (done || unfold next; lia).
    rewrite Z.div_mul, Hnext, Z.eqb_refl, orb_true_r in Hmin by lia. done. }
  assert (Hin : forall x, bh <= x < (q + 1) * 4096 -> x / 4096 = q) by (intros x Hx; subst q; div_lia).
  split_and!; [done | |].
  - intros x Hx. rewrite Hex, Hin by lia. by rewrite (proj2 (Z.eqb_eq _ _)), orb_true_r by lia.
  - destruct (Z.leb_spec bch (r + 5500)) as [| Hnt]; [by right | left].
    rewrite Hex by lia. rewrite (proj2 (Z.leb_gt _ _)) by lia. cbn [orb]. apply Z.eqb_neq.
    destruct (decide (r = (q + 1) * 4096)) as [-> |]; [rewrite Z.div_mul by lia; lia |].
    rewrite (has_unpruned_exact _ bch next log seed') in Hhas by (done || unfold next; lia).
    rewrite (proj2 (Z.leb_gt _ _)), Hin in Hhas by lia. cbn [orb] in Hhas. lia.
Qed.

(** For the seed of any stripe, [get_next_unpruned_block_height] is the first
    height from the given one on whose block the pruned peer has in full, and
    [get_next_pruned_block_height] is the end of the run of such heights (every
    height before it is kept, and it is pruned or in the unpruned tip). *)
Theorem next_heights_correct bh bch stripe log seed :
  1 <= log <= 7 -> 1 <= stripe <= 2 ^ log -> make_pruning_seed stripe log = Ok seed ->
  0 <= bh <= CRYPTONOTE_MAX_BLOCK_NUMBER -> 0 <= bch <= CRYPTONOTE_MAX_BLOCK_NUMBER + 1 ->
  (let r := get_next_unpruned_block_height bh bch seed in
   bh <= r /\ has_unpruned_block r bch seed = true /\
   forall x, bh <= x < r -> has_unpruned_block x bch seed = false) /\
  (exists r, get_next_pruned_block_height bh bch seed = Ok r /\
    (forall x, bh <= x < r -> has_unpruned_block x bch seed = true) /\
    (has_unpruned_block r bch seed = false \/ bch <= r + CRYPTONOTE_PRUNING_TIP_BLOCKS)).
Proof.
  intros. split; [eapply next_unpruned_correct | eapply next_pruned_correct]; eauto; lia.
Qed.

(** The fields of a seed are those it was made from, and the peers with all
    the stripes of a given [log_stripes] together hold every block: each block
    below the tip is kept by exactly the peers of its own stripe. *)
Theorem stripes_cover bh bch log :
  1 <= log <= 7 -> 0 <= bh < 2 ^ 63 ->
  exists stripe seed, 1 <= stripe <= 2 ^ log /\ make_pruning_seed stripe log = Ok seed /\
    seed_pruning_stripe seed = stripe /\ get_pruning_log_stripes seed = log /\
    has_unpruned_block bh bch seed = true /\
    forall stripe' seed', 1 <= stripe' <= 2 ^ log -> make_pruning_seed stripe' log = Ok seed' ->
      bh + CRYPTONOTE_PRUNING_TIP_BLOCKS < bch ->
      has_unpruned_block bh bch seed' = true -> stripe' = stripe.
Proof.
  intros Hlog Hb. assert (0 < 2 ^ log) by (apply Z.pow_pos_nonneg; lia).
  pose proof (Z.mod_pos_bound (bh / 4096) (2 ^ log) ltac:(lia)) as Hm.
  set (stripe := (bh / 4096) mod 2 ^ log + 1).
  destruct (make_pruning_seed_total stripe log Hlog) as [seed Hseed]; [unfold stripe; lia |].
  destruct (make_pruning_seed_fields stripe log seed Hlog ltac:(lia) Hseed) as (_ & ? & ?).
  exists stripe, seed. split_and!; [lia | lia | done | done | done | |].
  - rewrite (has_unpruned_exact _ _ stripe log) by (done || lia).
    unfold stripe. rewrite Z.add_simpl_r, Z.eqb_refl. apply orb_true_r.
  - intros stripe' seed' Hs' Hseed' Htip. change CRYPTONOTE_PRUNING_TIP_BLOCKS with 5500 in Htip.
    rewrite (has_unpruned_exact _ _ stripe' log) by (done || lia).
    rewrite (proj2 (Z.leb_gt _ _)) by lia. cbn [orb]. intros ?%Z.eqb_eq. lia.
Qed.

(** The seed of the only stripe of [2^0] is 0, which stands for an unpruned node. *)
Lemma seed_of_one_stripe : make_pruning_seed 1 0 = Ok 0 /\ seed_pruning_stripe 0 = 0.
Proof. split; reflexivity. Qed.

Lemma next_heights_correct_witness :
  get_next_unpruned_block_height 0 100000 (3 * 128 + 2) = 8192 /\
  has_unpruned_block 8192 100000 (3 * 128 + 2) = true.
Proof.
  destruct (next_heights_correct 0 100000 3 3 (3 * 128 + 2)) as [(_ & H & _) _];
    [lia | lia | reflexivity | by_decide | by_decide |].
  split; [reflexivity | exact H].
Defined.

Lemma stripes_cover_witness : exists stripe seed, 1 <= stripe <= 2 ^ 3 /\
  make_pruning_seed stripe 3 = Ok seed /\ has_unpruned_block 50000 100000 seed = true.
Proof.
  destruct (stripes_cover 50000 100000 3 ltac:(lia) ltac:(lia)) as (stripe & seed & ? & ? & _ & _ & ? & _).
  exists stripe, seed. auto.
Defined.
