(* ===== verification/BlockQueue.v ===== *)
(** * Download queue: [src/cryptonote_protocol/block_queue.cpp]

    The spans of blocks requested from or received from peers. [std::set<span>]
    is the list of the spans in order of their start height; inserting a span
    whose start height is taken does nothing. The payload of a received block
    is of an arbitrary type, of which the queue uses only the number. Hashes
    are byte strings, connections and times integers. *)
From S2P Require Import Prelude Config Pruning.
From Stdlib Require Import SpecFloat.

Open Scope Z_scope.

Abbreviation hash := (list Z).

(** *** IEEE single precision, for the transfer rates *)
Definition f32_add := SFadd 24 128.
Definition f32_div := SFdiv 24 128.
Definition f32_of_Z (z : Z) : spec_float := binary_normalize 24 128 z 0 false.
Definition f32_lt (x y : spec_float) : bool := SFltb x y.
Definition f32_le (x y : spec_float) : bool := SFleb x y.

Section Queue.
Variable entry : Type.

(** ** State *)

(** Source: src/src/cryptonote_protocol/block_queue.h:51-68 (span) *)
Record span := Span {
  start_block_height : Z;
  hashes : list hash;
  span_blocks : list entry;
  connection_id : Z;
  nblocks : Z;
  rate : spec_float;
  size : Z;
  time : Z
}.

(** Source: src/src/cryptonote_protocol/block_queue.h:62-63 (span::span) *)
Definition filled_span (start : Z) (bs : list entry) (conn : Z) (r : spec_float) (sz : Z) : span :=
  Span start [] bs conn (zlen bs) r sz 0.

(** Source: src/src/cryptonote_protocol/block_queue.h:64-65 (span::span) *)
Definition scheduled_span (start n conn t : Z) : span :=
  Span start [] [] conn n (S754_zero false) 0 t.

Definition with_hashes (hs : list hash) (s : span) : span :=
  Span (start_block_height s) hs (span_blocks s) (connection_id s) (nblocks s) (rate s) (size s) (time s).

Definition with_time (t : Z) (s : span) : span :=
  Span (start_block_height s) (hashes s) (span_blocks s) (connection_id s) (nblocks s) (rate s) (size s) t.

(** Source: src/src/cryptonote_protocol/block_queue.h:106-109 (block_queue) *)
Record block_queue := Block_queue {
  blocks : list span;
  requested_hashes : gset hash;
  have_blocks : gset hash
}.

Definition filled (s : span) : bool := match span_blocks s with [] => false | _ => true end.

(** [blocks.insert(s)]. *)
Fixpoint insert_span (s : span) (l : list span) : list span :=
  match l with
  | [] => [s]
  | x :: l' =>
      if start_block_height s <? start_block_height x then s :: l
      else if start_block_height x <? start_block_height s then x :: insert_span s l'
      else l
  end.

(** [blocks.erase(j)]: start heights are unique. *)
Definition remove_at (h : Z) (l : list span) : list span :=
  List.filter (fun s => negb (start_block_height s =? h)) l.

(** ** Updates *)

(** Source: src/src/cryptonote_protocol/block_queue.cpp:85-94 (block_queue::erase_block) *)
Definition erase_block (j : span) (q : block_queue) : block_queue :=
  Block_queue (remove_at (start_block_height j) (blocks q))
    (requested_hashes q ∖ list_to_set (hashes j)) (have_blocks q ∖ list_to_set (hashes j)).

(** The iteration [j = i++] over the spans, erasing those that satisfy [P]. *)
Fixpoint erase_where (P : span -> bool) (todo : list span) (q : block_queue) : block_queue :=
  match todo with
  | [] => q
  | j :: todo => erase_where P todo (if P j then erase_block j q else q)
  end.

(** Source: src/src/cryptonote_protocol/block_queue.cpp:71-83 (block_queue::flush_spans) *)
Definition flush_spans (conn : Z) (all : bool) (q : block_queue) : block_queue :=
  erase_where (fun j => (connection_id j =? conn) && (all || negb (filled j))) (blocks q) q.

(** Source: src/src/cryptonote_protocol/block_queue.cpp:96-108 (block_queue::flush_stale_spans) *)
Definition flush_stale_spans (live_connections : gset Z) (q : block_queue) : block_queue :=
  erase_where (fun j => negb (filled j) && bool_decide (connection_id j ∉ live_connections))
    (blocks q) q.

(** The erased span's hashes are copied out before the erasure.
    Source: src/src/cryptonote_protocol/block_queue.cpp:110-124 (block_queue::remove_span) *)
Definition remove_span (start : Z) (q : block_queue) : option (list hash) * block_queue :=
  match List.find (fun s => start_block_height s =? start) (blocks q) with
  | Some i => (Some (hashes i), erase_block i q)
  | None => (None, q)
  end.

(** Source: src/src/cryptonote_protocol/block_queue.cpp:126-137 (block_queue::remove_spans) *)
Definition remove_spans (conn start : Z) (q : block_queue) : block_queue :=
  erase_where (fun j => (connection_id j =? conn) && (start_block_height j <=? start)) (blocks q) q.

(** Source: src/src/cryptonote_protocol/block_queue.cpp:331-347 (block_queue::set_span_hashes) *)
Definition set_span_hashes (start conn : Z) (hs : list hash) (q : block_queue) : block_queue :=
  match List.find (fun s => (start_block_height s =? start) && (connection_id s =? conn)) (blocks q) with
  | None => q
  | Some s =>
      let q := erase_block s q in
      Block_queue (insert_span (with_hashes hs s) (blocks q))
        (requested_hashes q ∪ list_to_set hs) (have_blocks q)
  end.

(** Source: src/src/cryptonote_protocol/block_queue.cpp:47-62 (block_queue::add_blocks) *)
Definition add_filled (height : Z) (bcel : list entry) (conn : Z) (r : spec_float) (sz : Z)
    (q : block_queue) : block_queue :=
  let '(removed, q) := remove_span height q in
  let q := Block_queue (insert_span (filled_span height bcel conn r sz) (blocks q))
             (requested_hashes q) (have_blocks q) in
  match removed with
  | None => q
  | Some hs =>
      set_span_hashes height conn hs
        (Block_queue (blocks q) (requested_hashes q ∪ list_to_set hs) (have_blocks q ∪ list_to_set hs))
  end.

(** Source: src/src/cryptonote_protocol/block_queue.cpp:64-69 (block_queue::add_blocks) *)
Definition add_scheduled (height n conn t : Z) (q : block_queue) : outcome block_queue :=
  if n <=? 0 then Throw "Empty span"
  else Ok (Block_queue (insert_span (scheduled_span height n conn t) (blocks q))
             (requested_hashes q) (have_blocks q)).

(** Source: src/src/cryptonote_protocol/block_queue.cpp:321-329 (block_queue::reset_next_span_time) *)
Definition reset_next_span_time (t : Z) (q : block_queue) : outcome block_queue :=
  match blocks q with
  | [] => Throw "No next span to reset time"
  | i :: rest =>
      if filled i then Throw "Next span is not empty"
      else Ok (Block_queue (with_time t i :: rest) (requested_hashes q) (have_blocks q))
  end.

(** Source: src/src/cryptonote_protocol/block_queue.cpp:206-215 (block_queue::requested) *)
Definition requested (q : block_queue) (h : hash) : bool := bool_decide (h ∈ requested_hashes q).

(** Source: src/src/cryptonote_protocol/block_queue.cpp:217-221 (block_queue::have) *)
Definition have (q : block_queue) (h : hash) : bool := bool_decide (h ∈ have_blocks q).

(** The number of leading hashes that are already requested, the loop that
    moves [i] and [span_start_height] together.
    Source: src/src/cryptonote_protocol/block_queue.cpp:244-249 (block_queue::reserve_span) *)
Fixpoint skip_requested (q : block_queue) (l : list (hash * Z)) : nat :=
  match l with
  | [] => O
  | (h, _) :: l => if requested q h then S (skip_requested q l) else O
  end.

(** The loop that collects the hashes of the span, starting at [height].
    Source: src/src/cryptonote_protocol/block_queue.cpp:282-293 (block_queue::reserve_span) *)
Fixpoint collect_span (max_blocks : Z) (sync_pruned first_is_pruned : bool)
    (local_seed seed blockchain_height : Z) (height n : Z) (l : list (hash * Z)) : list hash :=
  match l with
  | [] => []
  | (h, _) :: l =>
      if (n <? max_blocks)
         && (sync_pruned || has_unpruned_block height blockchain_height seed)
         && negb (sync_pruned
                  && Bool.eqb first_is_pruned (has_unpruned_block height blockchain_height local_seed))
      then h :: collect_span max_blocks sync_pruned first_is_pruned local_seed seed blockchain_height
                  (height +! 1) (n + 1) l
      else []
  end.

(** Source: src/src/cryptonote_protocol/block_queue.cpp:223-303 (block_queue::reserve_span) *)
Definition reserve_span (first_block_height last_block_height max_blocks conn : Z)
    (sync_pruned_blocks : bool) (local_pruning_seed pruning_seed blockchain_height : Z)
    (block_hashes : list (hash * Z)) (t : Z) (q : block_queue) : outcome ((Z * Z) * block_queue) :=
  if (last_block_height <? first_block_height) || (max_blocks =? 0) then Ok ((0, 0), q) else
  if last_block_height <? zlen block_hashes then Ok ((0, 0), q) else
  let block_hashes_start_height := last_block_height -! zlen block_hashes +! 1 in
  let span_start_height :=
    block_hashes_start_height +! Z.of_nat (skip_requested q block_hashes) in
  let span_start_height :=
    if negb sync_pruned_blocks then
      let next_unpruned_height :=
        u32 (get_next_unpruned_block_height span_start_height blockchain_height pruning_seed) in
      if (span_start_height <? next_unpruned_height)
         && (next_unpruned_height <? span_start_height +! CRYPTONOTE_PRUNING_STRIPE_SIZE)
      then next_unpruned_height else span_start_height
    else span_start_height in
  if zlen block_hashes +! block_hashes_start_height <=? span_start_height then Ok ((0, 0), q) else
  let rest := drop (Z.to_nat (span_start_height - block_hashes_start_height)) block_hashes in
  let skipped := skip_requested q rest in
  let span_start_height := span_start_height +! Z.of_nat skipped in
  let first_is_pruned :=
    sync_pruned_blocks && negb (has_unpruned_block span_start_height blockchain_height local_pruning_seed) in
  let hs := collect_span max_blocks sync_pruned_blocks first_is_pruned local_pruning_seed pruning_seed
    blockchain_height span_start_height 0 (drop skipped rest) in
  let span_length := zlen hs in
  if span_length =? 0 then Ok ((0, 0), q) else
  q ← add_scheduled span_start_height span_length conn t q;
  Ok ((span_start_height, span_length), set_span_hashes span_start_height conn hs q).

(** ** Queries *)

(** [start_block_height + nblocks - 1]. *)
Definition last_height (s : span) : Z := start_block_height s +! nblocks s -! 1.

(** Source: src/src/cryptonote_protocol/block_queue.cpp:139-150 (block_queue::get_max_block_height) *)
Definition get_max_block_height (q : block_queue) : Z :=
  foldl (fun height s => if height <? last_height s then last_height s else height) 0 (blocks q).

(** Source: src/src/cryptonote_protocol/block_queue.cpp:157-168 (block_queue::get_next_needed_height) *)
Fixpoint needed_loop (blockchain_height last_needed_height : Z) (first : bool) (l : list span) : Z :=
  match l with
  | [] => last_needed_height
  | s :: l =>
      if last_height s <? blockchain_height
      then needed_loop blockchain_height last_needed_height first l
      else if negb (start_block_height s =? last_needed_height) || (first && negb (filled s))
      then last_needed_height
      else needed_loop blockchain_height (start_block_height s +! nblocks s) false l
  end.

(** Source: src/src/cryptonote_protocol/block_queue.cpp:152-169 (block_queue::get_next_needed_height) *)
Definition get_next_needed_height (blockchain_height : Z) (q : block_queue) : Z :=
  match blocks q with
  | [] => blockchain_height
  | l => needed_loop blockchain_height blockchain_height true l
  end.

(** Source: src/src/cryptonote_protocol/block_queue.cpp:187-201 (block_queue::get_overview) *)
Fixpoint overview_loop (blockchain_height expected : Z) (l : list span) : list Z :=
  match l with
  | [] => []
  | i :: l =>
      if start_block_height i <? expected then 60 :: overview_loop blockchain_height expected l
      else
        (if expected <? start_block_height i
         then replicate (Z.to_nat (Z.max 1 ((start_block_height i -! expected) /
                (if nblocks i =? 0 then 1 else nblocks i)))) 95
         else [])
        ++ [if negb (filled i) then 46 else if start_block_height i =? blockchain_height then 109 else 111]
        ++ overview_loop blockchain_height (start_block_height i +! nblocks i) l
  end.

(** The character codes of the overview.
    Source: src/src/cryptonote_protocol/block_queue.cpp:179-204 (block_queue::get_overview) *)
Definition get_overview (blockchain_height : Z) (q : block_queue) : list Z :=
  match blocks q with
  | [] => [91; 93]
  | l => [91] ++ overview_loop blockchain_height blockchain_height l ++ [93]
  end.

(** The hashes, connection and time of a scheduled first span, with its range.
    Source: src/src/cryptonote_protocol/block_queue.cpp:305-319 (block_queue::get_next_span_if_scheduled) *)
Definition get_next_span_if_scheduled (q : block_queue) : option (Z * Z * list hash * Z * Z) :=
  match blocks q with
  | [] => None
  | i :: _ =>
      if filled i then None
      else Some (start_block_height i, nblocks i, hashes i, connection_id i, time i)
  end.

(** Source: src/src/cryptonote_protocol/block_queue.cpp:349-366 (block_queue::get_next_span) *)
Definition get_next_span (want_filled : bool) (q : block_queue) : option (Z * list entry * Z) :=
  i ← List.find (fun i => negb want_filled || filled i) (blocks q);
  Some (start_block_height i, span_blocks i, connection_id i).

(** Source: src/src/cryptonote_protocol/block_queue.cpp:368-381 (block_queue::has_next_span) *)
Definition has_next_span_of (conn : Z) (q : block_queue) : option (bool * Z) :=
  match blocks q with
  | [] => None
  | i :: _ => if negb (connection_id i =? conn) then None else Some (filled i, time i)
  end.

(** Source: src/src/cryptonote_protocol/block_queue.cpp:383-397 (block_queue::has_next_span) *)
Definition has_next_span_at (height : Z) (q : block_queue) : option (bool * Z * Z) :=
  match blocks q with
  | [] => None
  | i :: _ =>
      if height <? start_block_height i then None else Some (filled i, time i, connection_id i)
  end.

(** Source: src/src/cryptonote_protocol/block_queue.cpp:399-406 (block_queue::get_data_size) *)
Definition get_data_size (q : block_queue) : Z := foldl (fun sz s => sz +! size s) 0 (blocks q).

(** Source: src/src/cryptonote_protocol/block_queue.cpp:414-421 (block_queue::get_num_filled_spans_prefix) *)
Fixpoint filled_prefix (l : list span) : Z :=
  match l with
  | [] => 0
  | i :: l => if filled i then 1 + filled_prefix l else 0
  end.

(** Source: src/src/cryptonote_protocol/block_queue.cpp:408-422 (block_queue::get_num_filled_spans_prefix) *)
Definition get_num_filled_spans_prefix (q : block_queue) : Z := filled_prefix (blocks q).

(** Source: src/src/cryptonote_protocol/block_queue.cpp:424-432 (block_queue::get_num_filled_spans) *)
Definition get_num_filled_spans (q : block_queue) : Z := zlen (List.filter filled (blocks q)).

(** The null hash when no complete span of the connection ends above height 0.
    Source: src/src/cryptonote_protocol/block_queue.cpp:434-451 (block_queue::get_last_known_hash) *)
Definition get_last_known_hash (conn : Z) (q : block_queue) : hash :=
  fst (foldl (fun '(h, highest_height) s =>
    if negb (connection_id s =? conn) then (h, highest_height)
    else if (highest_height <? last_height s) && (zlen (hashes s) =? nblocks s)
    then (default (replicate 32 0) (last (hashes s)), last_height s)
    else (h, highest_height)) (replicate 32 0, 0) (blocks q)).

(** Source: src/src/cryptonote_protocol/block_queue.cpp:453-461 (block_queue::has_spans) *)
Definition has_spans (conn : Z) (q : block_queue) : bool :=
  existsb (fun s => connection_id s =? conn) (blocks q).

(** The running averages of the rates by connection.
    Source: src/src/cryptonote_protocol/block_queue.cpp:466-479 (block_queue::get_speed) *)
Definition speeds (q : block_queue) : gmap Z spec_float :=
  foldl (fun m s =>
    if negb (filled s) then m
    else match m !! connection_id s with
         | None => <[connection_id s := rate s]> m
         | Some r => <[connection_id s := f32_div (f32_add r (rate s)) (f32_of_Z 2)]> m
         end) ∅ (blocks q).

(** Source: src/src/cryptonote_protocol/block_queue.cpp:463-497 (block_queue::get_speed) *)
Definition get_speed (conn : Z) (q : block_queue) : spec_float :=
  let m := speeds q in
  let conn_rate := default (f32_of_Z (-1)) (m !! conn) in
  let best_rate := foldr (fun '(_, r) best => if f32_lt best r then r else best)
    (S754_zero false) (map_to_list m) in
  if f32_le conn_rate (S754_zero false) then f32_of_Z 1
  else if SFeqb best_rate (S754_zero false) then f32_of_Z 1
  else f32_div conn_rate best_rate.

(** Source: src/src/cryptonote_protocol/block_queue.cpp:499-522 (block_queue::get_download_rate) *)
Definition get_download_rate (conn : Z) (q : block_queue) : spec_float :=
  let conn_rate := foldl (fun conn_rate s =>
    if negb (filled s) then conn_rate
    else if negb (connection_id s =? conn) then conn_rate
    else if f32_lt conn_rate (S754_zero false) then rate s
    else f32_div (f32_add conn_rate (rate s)) (f32_of_Z 2)) (f32_of_Z (-1)) (blocks q) in
  if f32_lt conn_rate (S754_zero false) then S754_zero false else conn_rate.

End Queue.

Arguments start_block_height {entry} s.
Arguments hashes {entry} s.
Arguments span_blocks {entry} s.
Arguments connection_id {entry} s.
Arguments nblocks {entry} s.
Arguments rate {entry} s.
Arguments size {entry} s.
Arguments time {entry} s.
Arguments blocks {entry} q : rename.
Arguments requested_hashes {entry} q : rename.
Arguments have_blocks {entry} q : rename.
Arguments Span {entry}.
Arguments Block_queue {entry}.
Arguments filled {entry} s.
Arguments filled_span {entry}.
Arguments scheduled_span {entry}.
Arguments with_hashes {entry}.
Arguments with_time {entry}.
Arguments insert_span {entry}.
Arguments remove_at {entry}.
Arguments erase_block {entry}.
Arguments erase_where {entry}.
Arguments flush_spans {entry}.
Arguments flush_stale_spans {entry}.
Arguments remove_span {entry}.
Arguments remove_spans {entry}.
Arguments set_span_hashes {entry}.
Arguments add_filled {entry}.
Arguments add_scheduled {entry}.
Arguments reset_next_span_time {entry}.
Arguments requested {entry}.
Arguments have {entry}.
Arguments skip_requested {entry}.
Arguments reserve_span {entry}.
Arguments last_height {entry}.
Arguments needed_loop {entry}.
Arguments get_next_needed_height {entry}.

(** ** The queue as the protocol handler drives it *)

Section Steps.
Context {entry : Type}.

Inductive bq_step : block_queue entry -> block_queue entry -> Prop :=
| step_add_filled height bcel conn r sz q :
    bq_step q (add_filled height bcel conn r sz q)
| step_add_scheduled height n conn t q q' :
    add_scheduled height n conn t q = Ok q' -> bq_step q q'
| step_flush conn all q : bq_step q (flush_spans conn all q)
| step_flush_stale live q : bq_step q (flush_stale_spans live q)
| step_remove_span start q : bq_step q (snd (remove_span start q))
| step_remove_spans conn start q : bq_step q (remove_spans conn start q)
| step_set_hashes start conn hs q : bq_step q (set_span_hashes start conn hs q)
| step_reset_time t q q' : reset_next_span_time t q = Ok q' -> bq_step q q'
| step_reserve first last max conn sp ls s bch bhs t q r q' :
    reserve_span first last max conn sp ls s bch bhs t q = Ok (r, q') -> bq_step q q'.

Definition empty_queue : block_queue entry := Block_queue [] ∅ ∅.

Definition span_lt (s s' : span entry) : Prop := start_block_height s < start_block_height s'.

(** Some span of the queue is responsible for the hash. *)
Definition owned (l : list (span entry)) (h : hash) : Prop := exists s, s ∈ l /\ h ∈ hashes s.

(** The invariant: spans are in strict order of their start, every hash marked
    as requested belongs to a span, and every hash marked as present is marked
    as requested. *)
Record bq_inv (q : block_queue entry) : Prop := {
  inv_sorted : StronglySorted span_lt (blocks q);
  inv_owned : forall h, h ∈ requested_hashes q -> owned (blocks q) h;
  inv_have : have_blocks q ⊆ requested_hashes q
}.

(** * Properties *)

(** ** The ordered set of spans *)

Lemma elem_insert_span (s : span entry) l x : x ∈ insert_span s l -> x = s \/ x ∈ l.
Proof.
  induction l as [| y l IH]; cbn [insert_span].
  { rewrite list_elem_of_singleton. auto. }
  destruct (_ <? _); [rewrite elem_of_cons; tauto |].
  destruct (_ <? _); rewrite !elem_of_cons; tauto.
Qed.

Lemma elem_insert_old (s : span entry) l x : x ∈ l -> x ∈ insert_span s l.
Proof.
  induction l as [| y l IH]; cbn [insert_span]; [by intros ?%not_elem_of_nil |].
  destruct (_ <? _); [by right |]. destruct (_ <? _); rewrite !elem_of_cons; tauto.
Qed.

Lemma elem_insert_new (s : span entry) l :
  (forall x, x ∈ l -> start_block_height x <> start_block_height s) -> s ∈ insert_span s l.
Proof.
  induction l as [| y l IH]; intros Hne; cbn [insert_span]; [by left |].
  destruct (Z.ltb_spec (start_block_height s) (start_block_height y)); [by left |].
  destruct (Z.ltb_spec (start_block_height y) (start_block_height s)).
  - right. apply IH. intros x Hx. apply Hne. by right.
  - specialize (Hne y ltac:(by left)). lia.
Qed.

Lemma insert_span_sorted s l : StronglySorted span_lt l -> StronglySorted span_lt (insert_span s l).
Proof.
  induction 1 as [| y l Hs IH Hall]; cbn [insert_span]; [by repeat constructor |].
  destruct (Z.ltb_spec (start_block_height s) (start_block_height y)).
  { constructor; [by constructor |]. constructor; [done |].
    eapply Forall_impl; [exact Hall |]. unfold span_lt. lia. }
  destruct (Z.ltb_spec (start_block_height y) (start_block_height s)); [| by constructor].
  constructor; [done |]. rewrite Forall_forall in Hall |- *. intros x [-> | Hx]%elem_insert_span; auto.
Qed.

Lemma elem_remove_at h l (x : span entry) : x ∈ remove_at h l <-> x ∈ l /\ start_block_height x <> h.
Proof.
  unfold remove_at. rewrite !list_elem_of_In, filter_In, negb_true_iff, Z.eqb_neq. tauto.
Qed.

Lemma remove_at_sorted h l : StronglySorted span_lt l -> StronglySorted span_lt (remove_at h l).
Proof.
  unfold remove_at. induction 1 as [| y l Hs IH Hall]; cbn; [constructor |].
  destruct (negb _); [| done]. constructor; [done |].
  rewrite Forall_forall in Hall |- *. intros x Hx. apply Hall.
  by apply elem_remove_at in Hx as [? _].
Qed.

Lemma same_start l (s s' : span entry) :
  StronglySorted span_lt l -> s ∈ l -> s' ∈ l ->
  start_block_height s = start_block_height s' -> s = s'.
Proof.
  induction 1 as [| y l Hs IH Hall]; intros Hi Hi' E; [by apply not_elem_of_nil in Hi |].
  rewrite Forall_forall in Hall. unfold span_lt in Hall.
  apply elem_of_cons in Hi as [-> | Hi]; apply elem_of_cons in Hi' as [-> | Hi']; auto.
  - specialize (Hall s' Hi'). lia.
  - specialize (Hall s Hi). lia.
Qed.

(** ** Erasing *)

Lemma erase_block_inv (j : span entry) q :
  (forall s, s ∈ blocks q -> start_block_height s = start_block_height j -> s = j) ->
  bq_inv q -> bq_inv (erase_block j q).
Proof.
  intros Huniq [Hs Ho Hh]. split; cbn [erase_block blocks requested_hashes have_blocks].
  - by apply remove_at_sorted.
  - intros h [Hr Hj]%elem_of_difference. destruct (Ho h Hr) as (s & Hin & Hsh).
    exists s. split; [| done]. apply elem_remove_at. split; [done |]. intros E.
    rewrite (Huniq s Hin E) in Hsh. set_solver.
  - set_solver.
Qed.

Lemma erase_where_inv P todo q :
  (forall s j, s ∈ blocks q -> j ∈ todo -> start_block_height s = start_block_height j -> s = j) ->
  bq_inv q -> bq_inv (erase_where P todo q).
Proof.
  revert q. induction todo as [| j todo IH]; intros q Huniq Hq; [done |]. cbn [erase_where].
  apply IH; destruct (P j); [| | |]; try done.
  - intros s j' Hs%elem_remove_at Hj'. apply Huniq; [tauto | by right].
  - intros s j' Hs Hj'. apply Huniq; [done | by right].
  - apply erase_block_inv; [| done]. intros s Hs. apply Huniq; [done | by left].
Qed.

Lemma erase_own_inv P q : bq_inv q -> bq_inv (erase_where P (blocks q) q).
Proof.
  intros Hq. apply erase_where_inv; [| done]. intros s j Hs Hj. by apply (same_start (blocks q)); [apply Hq |..].
Qed.

Lemma erase_member_inv j q : j ∈ blocks q -> bq_inv q -> bq_inv (erase_block j q).
Proof.
  intros Hj Hq. apply erase_block_inv; [| done]. intros s Hs. by apply (same_start (blocks q)); [apply Hq |..].
Qed.

Lemma find_member (P : span entry -> bool) l s :
  List.find P l = Some s -> s ∈ l /\ P s = true.
Proof. intros H%find_some. by rewrite list_elem_of_In. Qed.

Lemma remove_span_inv start q : bq_inv q -> bq_inv (snd (remove_span start q)).
Proof.
  intros Hq. unfold remove_span. destruct (List.find _ _) as [s |] eqn:E; [| done].
  apply find_member in E as [? _]. by apply erase_member_inv.
Qed.

(** ** Hashes of a span *)

Lemma set_hashes_inv start conn hs q s :
  StronglySorted span_lt (blocks q) -> have_blocks q ⊆ requested_hashes q ->
  (forall h, h ∈ requested_hashes q -> owned (blocks q) h \/ h ∈ hs) ->
  List.find (fun s => (start_block_height s =? start) && (connection_id s =? conn)) (blocks q) = Some s ->
  bq_inv (set_span_hashes start conn hs q).
Proof.
  intros Hs Hh Ho E. unfold set_span_hashes. rewrite E. apply find_member in E as [Hin _].
  assert (Hnew : with_hashes hs s ∈ insert_span (with_hashes hs s)
    (remove_at (start_block_height s) (blocks q))).
  { apply elem_insert_new. intros x Hx%elem_remove_at. cbn. tauto. }
  split; cbn [erase_block blocks requested_hashes have_blocks].
  - by apply insert_span_sorted, remove_at_sorted.
  - intros h [[Hr Hsh]%elem_of_difference | Hhs]%elem_of_union.
    + destruct (Ho h Hr) as [(x & Hx & Hxh) | Hhs]; [| exists (with_hashes hs s); split; [done | done]].
      exists x. split; [| done]. apply elem_insert_old, elem_remove_at. split; [done |].
      intros Est. rewrite (same_start _ x s Hs Hx Hin Est) in Hxh. set_solver.
    + exists (with_hashes hs s). split; [done |]. set_solver.
  - set_solver.
Qed.

Lemma set_span_hashes_inv start conn hs q : bq_inv q -> bq_inv (set_span_hashes start conn hs q).
Proof.
  intros Hq. destruct (List.find (fun s => (start_block_height s =? start) && (connection_id s =? conn))
    (blocks q)) as [s |] eqn:E.
  - eapply set_hashes_inv; [apply Hq | apply Hq | | exact E]. intros h Hr. left. by apply Hq.
  - unfold set_span_hashes. by rewrite E.
Qed.

Lemma insert_inv s q :
  bq_inv q -> bq_inv (Block_queue (insert_span s (blocks q)) (requested_hashes q) (have_blocks q)).
Proof.
  intros [Hs Ho Hh]. split; cbn; [by apply insert_span_sorted | | done].
  intros h Hr. destruct (Ho h Hr) as (x & Hx & ?). exists x. split; [by apply elem_insert_old | done].
Qed.

Lemma find_exists (P : span entry -> bool) l s : s ∈ l -> P s = true -> exists x, List.find P l = Some x.
Proof.
  intros Hin HP. destruct (List.find P l) as [x |] eqn:E; [by exists x |].
  apply (find_none P l) with (x := s) in E; [congruence | by apply list_elem_of_In].
Qed.

Lemma add_filled_inv height bcel conn r sz q : bq_inv q -> bq_inv (add_filled height bcel conn r sz q).
Proof.
  intros Hq. unfold add_filled. pose proof (remove_span_inv height q Hq) as Hq1.
  destruct (remove_span height q) as [removed q1] eqn:Er. cbn [snd] in Hq1.
  pose proof (insert_inv (filled_span height bcel conn r sz) q1 Hq1) as Hq2.
  destruct removed as [hs |]; [| done]. set (f := filled_span height bcel conn r sz) in *.
  assert (Hfresh : forall x, x ∈ blocks q1 -> start_block_height x <> height).
  { unfold remove_span in Er. destruct (List.find _ _) as [s |] eqn:Ef; [| done].
    injection Er as _ <-. apply find_member in Ef as [_ Hst%Z.eqb_eq].
    intros x Hx%elem_remove_at. rewrite <- Hst. tauto. }
  cbn [blocks requested_hashes have_blocks].
  destruct (find_exists (fun s => (start_block_height s =? height) && (connection_id s =? conn))
    (insert_span f (blocks q1)) f) as [x Hx].
  { by apply elem_insert_new. }
  { cbn. by rewrite !Z.eqb_refl. }
  destruct Hq2 as [Hs2 Ho2 Hh2]. cbn in Hs2, Ho2, Hh2.
  eapply set_hashes_inv; cbn [blocks requested_hashes have_blocks]; [done | set_solver | | exact Hx].
  intros h [Hr | Hr]%elem_of_union; [left; by apply Ho2 | right; set_solver].
Qed.

Lemma reset_time_inv t q q' : reset_next_span_time t q = Ok q' -> bq_inv q -> bq_inv q'.
Proof.
  unfold reset_next_span_time. intros E [Hs Ho Hh]. destruct (blocks q) as [| i rest]; [done |].
  destruct (filled i); [done |]. injection E as <-. apply StronglySorted_inv in Hs as [Hs Hall].
  split; cbn; [by constructor | | done]. intros h Hr. destruct (Ho h Hr) as (x & Hx & Hxh).
  apply elem_of_cons in Hx as [-> | Hx]; [exists (with_time t i) | exists x]; split; try done; [by left | by right].
Qed.

Lemma add_scheduled_inv height n conn t q q' :
  add_scheduled height n conn t q = Ok q' -> bq_inv q -> bq_inv q'.
Proof.
  unfold add_scheduled. destruct (_ <=? _); [done |]. intros [= <-] Hq. by apply insert_inv.
Qed.

Lemma reserve_span_inv first last max conn sp ls s bch bhs t q r q' :
  reserve_span first last max conn sp ls s bch bhs t q = Ok (r, q') -> bq_inv q -> bq_inv q'.
Proof.
  unfold reserve_span. intros E Hq. destruct (_ || _); [by injection E as _ <- |].
  destruct (_ <? _); [by injection E as _ <- |].
  destruct (_ <=? _) in E; [by injection E as _ <- |].
  destruct (_ =? 0) in E; [by injection E as _ <- |].
  destruct (add_scheduled _ _ _ _ _) as [q1 | |] eqn:E1; [| done..].
  simpl_bind in E. injection E as _ <-.
  by eapply set_span_hashes_inv, add_scheduled_inv.
Qed.

#[local] Hint Resolve add_filled_inv add_scheduled_inv erase_own_inv remove_span_inv
  set_span_hashes_inv reset_time_inv reserve_span_inv : nerva.

Lemma step_inv q q' : bq_step q q' -> bq_inv q -> bq_inv q'.
Proof. destruct 1; unfold flush_spans, flush_stale_spans, remove_spans; eauto with nerva. Qed.

Lemma empty_inv : bq_inv empty_queue.
Proof. split; cbn; [constructor | set_solver..]. Qed.

(** C28: in every state that any sequence of the queue's operations reaches
    from the empty queue, the spans are in strict order of their start height,
    a hash that the queue reports as requested belongs to a span that is still
    in the queue (a flushed or removed span leaves no hash behind that would
    never be asked for again), and a hash reported as present is reported as
    requested. *)
Theorem reachable_queue_inv (q : block_queue entry) :
  rtc bq_step empty_queue q ->
  StronglySorted span_lt (blocks q)
  /\ (forall h, requested q h = true -> exists s, s ∈ blocks q /\ h ∈ hashes s)
  /\ (forall h, have q h = true -> requested q h = true).
Proof.
  intros Hr. assert (Hq : bq_inv q).
  { generalize empty_inv. induction Hr; [done |]. eauto using step_inv. }
  destruct Hq as [Hs Ho Hh]. split; [done | split].
  - intros h ?%bool_decide_eq_true. by apply Ho.
  - intros h ?%bool_decide_eq_true. apply bool_decide_eq_true. set_solver.
Qed.

(** ** Reservation *)

Lemma skip_requested_spec (q : block_queue entry) l :
  (skip_requested q l <= length l)%nat
  /\ (forall h n, l !! skip_requested q l = Some (h, n) -> requested q h = false).
Proof.
  induction l as [| [h n] l [IH1 IH2]]; [done |]. cbn [skip_requested].
  destruct (requested q h) eqn:E; cbn; split; [lia | done | lia |]. by intros h' n' [= -> ->].
Qed.

Lemma collect_span_spec max sp fp ls s bch l : forall height n,
  0 <= height -> height + zlen l < 2 ^ 64 -> 0 <= n <= max ->
  let hs := collect_span max sp fp ls s bch height n l in
  hs = take (length hs) (map fst l) /\ n + zlen hs <= max
  /\ forall x, height <= x < height + zlen hs ->
       if sp then has_unpruned_block x bch ls = negb fp else has_unpruned_block x bch s = true.
Proof.
  induction l as [| [h w] l IH]; intros height n Hh Hl Hn hs; subst hs.
  { cbn. repeat split; unfold zlen; cbn; lia. }
  rewrite zlen_cons in Hl. cbn [collect_span].
  destruct (_ && _ && _) eqn:E; [| unfold zlen; cbn; repeat split; lia].
  apply andb_prop in E as [[E1%Z.ltb_lt E2]%andb_prop E3].
  pose proof (zlen_nonneg l) as Hnn.
  assert (Ew : height +! 1 = height + 1) by (apply u64_small; lia). rewrite Ew.
  destruct (IH (height + 1) (n + 1)) as (H1 & H2 & H3); [lia.. |].
  set (hs := collect_span _ _ _ _ _ _ _ _ _) in *. rewrite !zlen_cons. split; [| split; [lia |]].
  - cbn. by f_equal.
  - intros x Hx. destruct (decide (x = height)) as [-> | Hne]; [| apply H3; lia].
    destruct sp; cbn in E2, E3; [| done]. by destruct fp, (has_unpruned_block _ _ _).
Qed.

Lemma remove_insert_fresh (s : span entry) l :
  (forall x, x ∈ l -> start_block_height x <> start_block_height s) ->
  remove_at (start_block_height s) (insert_span s l) = l.
Proof.
  intros Hne. assert (Hid : remove_at (start_block_height s) l = l).
  { unfold remove_at. induction l as [| y l IH]; [done |]. cbn.
    rewrite (proj2 (Z.eqb_neq _ _)) by (apply Hne; by left). cbn. f_equal. apply IH. intros x Hx. apply Hne. by right. }
  induction l as [| y l IH]; cbn [insert_span]; [cbn; by rewrite Z.eqb_refl |].
  destruct (Z.ltb_spec (start_block_height s) (start_block_height y)).
  { unfold remove_at in *. cbn [List.filter]. by rewrite Z.eqb_refl. }
  destruct (Z.ltb_spec (start_block_height y) (start_block_height s));
    [| exfalso; apply (Hne y); [by left | lia]].
  unfold remove_at in *. cbn in Hid |- *.
  destruct (start_block_height y =? _) eqn:E; [lia |]. cbn in Hid |- *. injection Hid as Hid.
  f_equal. apply IH; [| done]. intros x Hx. apply Hne. by right.
Qed.

Lemma schedule_fresh start conn n t hs (q q1 : block_queue entry) :
  (forall x, x ∈ blocks q -> start_block_height x <> start) ->
  add_scheduled start n conn t q = Ok q1 ->
  set_span_hashes start conn hs q1
  = Block_queue (insert_span (with_hashes hs (scheduled_span start n conn t)) (blocks q))
      (requested_hashes q ∪ list_to_set hs) (have_blocks q).
Proof.
  intros Hfresh E. unfold add_scheduled in E. destruct (_ <=? _); [done |]. injection E as <-.
  set (f := scheduled_span start n conn t). unfold set_span_hashes. cbn [blocks].
  assert (Hf : f ∈ insert_span f (blocks q)) by (by apply elem_insert_new).
  destruct (find_exists (fun s => (start_block_height s =? start) && (connection_id s =? conn))
    (insert_span f (blocks q)) f) as [x Hx]; [done | cbn; by rewrite !Z.eqb_refl |].
  rewrite Hx. apply find_member in Hx as [Hx Hst]. apply andb_prop in Hst as [Hst%Z.eqb_eq _].
  apply elem_insert_span in Hx as [-> | Hx]; [| by destruct (Hfresh x Hx)].
  cbn [erase_block blocks requested_hashes have_blocks].
  rewrite remove_insert_fresh by done. cbn [hashes f scheduled_span list_to_set].
  f_equal; apply set_eq; set_solver.
Qed.

(** The specification of a reservation of [len] blocks from [start] out of the
    chain of hashes that ends at [last]. *)
Record reserved (last max conn : Z) (sp : bool) (ls s bch : Z) (bhs : list (hash * Z)) (t : Z)
    (start len : Z) (q q' : block_queue entry) : Prop := {
  res_range : last - zlen bhs + 1 <= start /\ start + len <= last + 1;
  res_len : 0 < len <= max;
  res_first : forall h w, bhs !! Z.to_nat (start - (last - zlen bhs + 1)) = Some (h, w) ->
    requested q h = false;
  res_unpruned : forall x, start <= x < start + len ->
    if sp then has_unpruned_block x bch ls = has_unpruned_block start bch ls
    else has_unpruned_block x bch s = true;
  res_queue : (forall x, x ∈ blocks q -> start_block_height x <> start) ->
    let hs := take (Z.to_nat len) (drop (Z.to_nat (start - (last - zlen bhs + 1))) (map fst bhs)) in
    q' = Block_queue (insert_span (with_hashes hs (scheduled_span start len conn t)) (blocks q))
           (requested_hashes q ∪ list_to_set hs) (have_blocks q)
}.

(** The last part of a reservation, from a start within the hashes. *)
Lemma reserve_tail last max conn sp ls s bch bhs t k (q : block_queue entry) :
  zlen bhs <= last < 2 ^ 64 - 1 -> 0 <= max -> (k <= length bhs)%nat ->
  let base := last - zlen bhs + 1 in
  let skipped := skip_requested q (drop k bhs) in
  let start := base + Z.of_nat k + Z.of_nat skipped in
  let hs := collect_span max sp (sp && negb (has_unpruned_block start bch ls)) ls s bch start 0
    (drop skipped (drop k bhs)) in
  0 < zlen hs ->
  exists q1, add_scheduled start (zlen hs) conn t q = Ok q1
  /\ reserved last max conn sp ls s bch bhs t start (zlen hs) q (set_span_hashes start conn hs q1).
Proof.
  intros Hl Hm Hk base skipped start hs Hpos.
  destruct (skip_requested_spec q (drop k bhs)) as [Hs1 Hs2]. fold skipped in Hs1, Hs2.
  rewrite length_drop in Hs1.
  destruct (collect_span_spec max sp (sp && negb (has_unpruned_block start bch ls)) ls s bch
    (drop skipped (drop k bhs)) start 0) as (C1 & C2 & C3).
  { unfold start, base. lia. }
  { unfold start, base, zlen in *. rewrite !length_drop. lia. }
  { lia. }
  fold hs in C1, C2, C3.
  destruct (add_scheduled start (zlen hs) conn t q) as [q1 | |] eqn:E1;
    [| unfold add_scheduled in E1; destruct (Z.leb_spec (zlen hs) 0); [lia | done]..].
  exists q1. split; [done |].
  assert (Hidx : Z.to_nat (start - (last - zlen bhs + 1)) = (k + skipped)%nat) by (unfold start, base; lia).
  assert (Hlen : zlen hs <= zlen bhs - Z.of_nat (k + skipped)).
  { apply (f_equal length) in C1. rewrite length_take, length_map, !length_drop in C1. unfold zlen. lia. }
  split.
  - unfold start, base in *. lia.
  - lia.
  - intros h w. rewrite Hidx. intros H. apply (Hs2 h w). by rewrite lookup_drop.
  - intros x Hx. specialize (C3 x Hx). destruct sp; [| done].
    cbn in C3. by rewrite negb_involutive in C3.
  - intros Hfresh. rewrite Hidx. rewrite (schedule_fresh start conn (zlen hs) t hs q q1 Hfresh E1).
    assert (Ehs : take (Z.to_nat (zlen hs)) (drop (k + skipped) (map fst bhs)) = hs).
    { rewrite C1 at 2. unfold zlen. by rewrite Nat2Z.id, <- drop_drop, !skipn_map. }
    by rewrite Ehs.
Qed.

(** The height a reservation starts from, before the second pass over the
    requested hashes. *)
Lemma reserve_start sp s bch height :
  0 <= height < 2 ^ 64 ->
  let start := if negb sp then
      let next := u32 (get_next_unpruned_block_height height bch s) in
      if (height <? next) && (next <? height +! CRYPTONOTE_PRUNING_STRIPE_SIZE) then next else height
    else height in
  height <= start /\ (sp = true \/ seed_pruning_stripe s = 0 -> start = height).
Proof.
  intros Hh start. destruct sp; cbn in start; [unfold start; lia |].
  split; [unfold start; destruct (Z.ltb_spec height (u32 (get_next_unpruned_block_height height bch s)));
    [destruct (_ <? _) |]; cbn; lia |].
  intros [? | E]; [done |]. unfold start.
  assert (En : get_next_unpruned_block_height height bch s = height).
  { unfold get_next_unpruned_block_height. rewrite E. repeat (destruct (negb _); [done |]). done. }
  rewrite En. destruct (Z.ltb_spec height (u32 height)) as [H |]; [| done].
  pose proof (Z.mod_le height (2 ^ 32) ltac:(lia) ltac:(lia)). unfold u32, wrap in H. lia.
Qed.

Lemma skip_requested_first (q : block_queue entry) l :
  Exists (fun hw => requested q hw.1 = false) l ->
  (skip_requested q l < length l)%nat /\ skip_requested q (drop (skip_requested q l) l) = O.
Proof.
  induction 1 as [[h w] l E | [h w] l Hex [IH1 IH2]]; cbn in *; [rewrite E |].
  - split; [lia |]. cbn. by rewrite E.
  - destruct (requested q h) eqn:E; cbn; [split; [lia | done] |]. rewrite E. split; [lia | done].
Qed.

Lemma collect_first max sp ls s bch start l :
  0 < max -> l <> [] -> sp = true \/ seed_pruning_stripe s = 0 ->
  0 < zlen (collect_span max sp (sp && negb (has_unpruned_block start bch ls)) ls s bch start 0 l).
Proof.
  intros Hm Hl Hs. destruct l as [| [h w] l]; [done |]. cbn [collect_span].
  rewrite (proj2 (Z.ltb_lt 0 max)) by done.
  assert (Ec : (sp || has_unpruned_block start bch s)
    && negb (sp && Bool.eqb (sp && negb (has_unpruned_block start bch ls))
                            (has_unpruned_block start bch ls)) = true).
  { destruct sp; cbn; [by destruct (has_unpruned_block start bch ls) |].
    destruct Hs as [? | E]; [done |]. unfold has_unpruned_block. by rewrite E. }
  cbn [andb] in *. rewrite Ec. rewrite zlen_cons. pose proof (zlen_nonneg (collect_span max sp
    (sp && negb (has_unpruned_block start bch ls)) ls s bch (start +! 1) (0 + 1) l)). lia.
Qed.

(** The second half of a reservation, for the hashes from the [k]-th on. *)
Lemma reserve_from last max conn sp ls s bch bhs t k (q : block_queue entry) :
  zlen bhs <= last < 2 ^ 64 - 1 -> 0 <= max -> (k <= length bhs)%nat ->
  let base := last - zlen bhs + 1 in
  let skipped := skip_requested q (drop k bhs) in
  let start := base + Z.of_nat k +! Z.of_nat skipped in
  let hs := collect_span max sp (sp && negb (has_unpruned_block start bch ls)) ls s bch start 0
    (drop skipped (drop k bhs)) in
  exists start' len q',
    (if zlen hs =? 0 then Ok ((0, 0), q) else
     q1 ← add_scheduled start (zlen hs) conn t q;
     Ok ((start, zlen hs), set_span_hashes start conn hs q1)) = Ok ((start', len), q')
    /\ ((len = 0 /\ q' = q) \/ reserved last max conn sp ls s bch bhs t start' len q q')
    /\ (0 < max -> sp = true \/ seed_pruning_stripe s = 0 ->
        Exists (fun hw => requested q hw.1 = false) bhs -> k = skip_requested q bhs ->
        0 < len /\ start' = base + Z.of_nat k).
Proof.
  intros Hl Hm Hkb base skipped start.
  destruct (skip_requested_spec q (drop k bhs)) as [Hsk _]. rewrite length_drop in Hsk.
  assert (Est : start = base + Z.of_nat k + Z.of_nat skipped)
    by (apply u64_small; unfold base, skipped, zlen in *; lia).
  rewrite Est. pose proof (reserve_tail last max conn sp ls s bch bhs t k q Hl Hm Hkb) as Htail.
  cbv zeta in Htail. fold base skipped in Htail.
  remember (collect_span _ _ _ _ _ _ _ _ _) as hs eqn:Ehs in *. pose proof (zlen_nonneg hs).
  assert (Hprog : 0 < max -> sp = true \/ seed_pruning_stripe s = 0 ->
    Exists (fun hw => requested q hw.1 = false) bhs -> k = skip_requested q bhs ->
    0 < zlen hs /\ skipped = O).
  { intros Hm0 Hs [Hex1 Hex2]%skip_requested_first Ek. unfold skipped in *. rewrite Ek, Hex2 in *.
    split; [| done]. rewrite Ehs. apply collect_first; [done | | done].
    intros E%(f_equal length). rewrite !length_drop in E. cbn in E. lia. }
  cbv zeta. destruct (Z.eqb_spec (zlen hs) 0) as [E0 | Hne].
  { eexists _, _, _. split; [done |]. split; [by left |]. intros Hm0 Hs Hex Ek.
    destruct (Hprog Hm0 Hs Hex Ek). lia. }
  destruct Htail as (q1 & Eq1 & Hres); [lia |]. rewrite Eq1. simpl_bind.
  eexists _, _, _. split; [done |]. split; [by right |]. intros Hm0 Hs Hex Ek.
  destruct (Hprog Hm0 Hs Hex Ek) as (? & ->). lia.
Qed.

(** A reservation always returns. What it returns is either the empty
    range with the queue unchanged, or a range of at most [max] blocks among
    the offered hashes, whose first hash nobody was asked for, all of which the
    peer keeps unpruned (when pruned blocks are accepted: all of which are
    alike in whether this node keeps them), and, unless a span started there
    before, the queue holds exactly one new span with the hashes of that range,
    now marked as requested. When the peer is unpruned or pruned blocks are
    accepted, the range is not empty as long as some offered hash has not been
    requested, and starts at the first such hash. *)
Theorem reserve_span_exact first last max conn sp ls s bch bhs t (q : block_queue entry) :
  0 <= last < 2 ^ 64 - 1 -> 0 <= max ->
  exists start len q',
    reserve_span first last max conn sp ls s bch bhs t q = Ok ((start, len), q')
    /\ ((len = 0 /\ q' = q) \/ reserved last max conn sp ls s bch bhs t start len q q')
    /\ (first <= last -> 0 < max -> zlen bhs <= last -> sp = true \/ seed_pruning_stripe s = 0 ->
        Exists (fun hw => requested q hw.1 = false) bhs ->
        0 < len /\ start = last - zlen bhs + 1 + Z.of_nat (skip_requested q bhs)).
Proof.
  intros Hl Hm. unfold reserve_span.
  destruct (Z.ltb_spec last first); [eexists _, _, _; split; [done | split; [by left | lia]] |].
  destruct (Z.eqb_spec max 0); [eexists _, _, _; split; [done | split; [by left | lia]] |].
  cbn [orb]. destruct (Z.ltb_spec last (zlen bhs)); [eexists _, _, _; split; [done | split; [by left | lia]] |].
  pose proof (zlen_nonneg bhs). destruct (skip_requested_spec q bhs) as [Hk _].
  remember (last - zlen bhs + 1) as base eqn:Eb.
  assert (Ebase : last -! zlen bhs +! 1 = base) by (rewrite (u64_small (_ - _)), u64_small; lia).
  assert (Eskip : base +! Z.of_nat (skip_requested q bhs) = base + Z.of_nat (skip_requested q bhs))
    by (apply u64_small; unfold zlen in *; lia).
  rewrite Ebase, Eskip. cbv zeta.
  destruct (reserve_start sp s bch (base + Z.of_nat (skip_requested q bhs))) as [Hst1 Hst2];
    [unfold zlen in *; lia |]. cbv zeta in Hst1, Hst2.
  remember (if negb sp then _ else _) as st eqn:Est in *. clear Est.
  assert (Eend : zlen bhs +! base = zlen bhs + base) by (apply u64_small; lia). rewrite Eend.
  destruct (Z.leb_spec (zlen bhs + base) st) as [Hge | Hlt].
  { eexists _, _, _. split; [done |]. split; [by left |]. intros _ _ _ Hs Hex.
    rewrite (Hst2 Hs) in Hge. apply skip_requested_first in Hex as [? _]. unfold zlen in *. lia. }
  remember (Z.to_nat (st - base)) as k eqn:Ek.
  destruct (reserve_from last max conn sp ls s bch bhs t k q) as (start & len & q' & E & Hres & Hprog);
    [lia | done | unfold zlen in *; lia |].
  rewrite <- Eb in E, Hprog. replace (base + Z.of_nat k) with st in E, Hprog by lia.
  exists start, len, q'. split; [exact E |]. split; [done |]. intros _ Hm0 _ Hs Hex.
  destruct (Hprog Hm0 Hs Hex) as [? ->]; [rewrite (Hst2 Hs) in Ek; lia |]. rewrite (Hst2 Hs). lia.
Qed.
End Steps.

(** ** Witnesses *)

Definition offered : list (hash * Z) := [([1], 0); ([2], 0); ([3], 0)].

(** A first and a second reservation at heights 10 to 12 on an empty queue. *)
Definition first_reservation : outcome ((Z * Z) * block_queue unit) :=
  reserve_span 10 12 2 7 false 0 0 1000 offered 0 empty_queue.
Definition second_reservation (bhs : list (hash * Z)) : outcome ((Z * Z) * block_queue unit) :=
  '(_, q) ← first_reservation; reserve_span 10 12 2 8 false 0 0 1000 bhs 0 q.

Lemma two_reservations :
  (r ← first_reservation; Ok (fst r)) = Ok (10, 2)
  /\ ('(r, q) ← second_reservation offered;
      Ok (r, requested q [3], requested (flush_spans 8 true q) [3])) = Ok ((12, 1), true, false).
Proof. split; vm_compute; reflexivity. Qed.

(** A range whose first height is the start of another peer's span is reported
    as reserved, but no span is added and no hash marked. *)
Lemma reserve_taken_start :
  ('(r, q) ← second_reservation [([4], 0); ([5], 0); ([6], 0)];
   Ok (r, length (blocks q), requested q [4])) = Ok ((10, 2), 1%nat, false).
Proof. vm_compute; reflexivity. Qed.

Definition reserved_queue : block_queue unit :=
  match first_reservation with Ok (_, q) => q | _ => empty_queue end.

Lemma reserved_queue_eq : first_reservation = Ok ((10, 2), reserved_queue).
Proof. unfold reserved_queue. vm_compute. reflexivity. Qed.

Lemma reachable_queue_inv_witness :
  let q := add_filled 10 [tt; tt] 7 (S754_zero false) 100 reserved_queue in
  have q [1] = true /\ requested q [1] = true.
Proof.
  set (q := add_filled _ _ _ _ _ _). cbv zeta. assert (E : have q [1] = true) by (vm_compute; reflexivity).
  split; [exact E |]. refine (proj2 (proj2 (reachable_queue_inv q _)) [1] E).
  eapply rtc_l; [| apply rtc_once; apply step_add_filled].
  exact (step_reserve _ _ _ _ _ _ _ _ _ _ _ _ _ reserved_queue_eq).
Defined.

Lemma reserve_span_exact_witness :
  exists start len q', first_reservation = Ok ((start, len), q') /\ 0 < len /\ start = 10.
Proof.
  destruct (reserve_span_exact 10 12 2 7 false 0 0 1000 offered 0 (empty_queue (entry := unit)))
    as (start & len & q' & E & _ & H); [lia | lia |].
  exists start, len, q'. split; [exact E |]. apply H; [lia | lia | by_decide | by right | by constructor].
Defined.
