(* ===== verification/Emission.v ===== *)
(** * Emission and fees: [src/cryptonote_basic/cryptonote_basic_impl.cpp] and the
    fee functions of [src/cryptonote_core/blockchain.cpp]

    The block reward with its weight penalty, the count of generated coins, the
    dynamic fee per kilobyte and the ring size rule. Heights, weights and
    amounts are 64-bit. *)
From S2P Require Import Prelude Config IntUtil.

Open Scope Z_scope.

(** ** Rules by version *)

(** Source: src/src/cryptonote_basic/cryptonote_basic_impl.cpp:71-74 (get_min_block_weight) *)
Definition get_min_block_weight (version : Z) : Z := CRYPTONOTE_BLOCK_GRANTED_FULL_REWARD_ZONE.

(** Source: src/src/cryptonote_basic/cryptonote_basic_impl.cpp:76-79 (get_ring_size) *)
Definition get_ring_size (version : Z) : Z :=
  if HF_VERSION_RING_SIZE_16 <=? version then DEFAULT_RINGSIZE_V14 else DEFAULT_RINGSIZE.

(** Source: src/src/cryptonote_basic/cryptonote_basic_impl.cpp:81-86 (is_valid_ring_size) *)
Definition is_valid_ring_size (version ring_size : Z) : bool :=
  if HF_VERSION_RING_SIZE_16 <=? version then ring_size =? DEFAULT_RINGSIZE_V14
  else ring_size =? DEFAULT_RINGSIZE.

(** Source: src/src/cryptonote_basic/cryptonote_basic_impl.cpp:88-91 (get_max_tx_size) *)
Definition get_max_tx_size : Z := CRYPTONOTE_MAX_TX_SIZE.

(** ** Block reward *)

(** Source: src/src/cryptonote_basic/cryptonote_basic_impl.cpp:95-95 (get_block_reward) *)
Definition target_minutes : Z := DIFFICULTY_TARGET / 60.

(** Source: src/src/cryptonote_basic/cryptonote_basic_impl.cpp:96-96 (get_block_reward) *)
Definition emission_speed_factor : Z := EMISSION_SPEED_FACTOR_PER_MINUTE - (target_minutes - 1).

(** Source: src/src/cryptonote_basic/cryptonote_basic_impl.cpp:98-98 (get_block_reward) *)
Definition premine : Z := 180000000000000000.

(** The reward before the penalty.
    Source: src/src/cryptonote_basic/cryptonote_basic_impl.cpp:104-108 (get_block_reward) *)
Definition base_block_reward (already_generated_coins : Z) : Z :=
  let base_reward := Z.shiftr (MONEY_SUPPLY -! already_generated_coins) emission_speed_factor in
  if base_reward <? FINAL_SUBSIDY_PER_MINUTE *! target_minutes
  then FINAL_SUBSIDY_PER_MINUTE *! target_minutes else base_reward.

(** [None] is the result [false], for a block that is too heavy.
    Source: src/src/cryptonote_basic/cryptonote_basic_impl.cpp:93-143 (get_block_reward) *)
Definition get_block_reward (median_weight current_block_weight already_generated_coins version : Z)
    : outcome (option Z) :=
  if (0 <? median_weight) && (already_generated_coins <? premine) then Ok (Some premine) else
  let base_reward := base_block_reward already_generated_coins in
  let full_reward_zone := get_min_block_weight version in
  let median_weight := if median_weight <? full_reward_zone then full_reward_zone else median_weight in
  if current_block_weight <=? median_weight then Ok (Some base_reward) else
  if 2 *! median_weight <? current_block_weight then Ok None else
  let multiplicand := 2 *! median_weight -! current_block_weight in
  let multiplicand := multiplicand *! current_block_weight in
  let '(product_lo, product_hi) := mul128 base_reward multiplicand in
  '((reward_hi, reward_lo), _) ← div128_64 product_hi product_lo median_weight;
  '((reward_hi, reward_lo), _) ← div128_64 reward_hi reward_lo median_weight;
  Ok (Some reward_lo).

(** Source: src/src/cryptonote_core/blockchain.h:1400-1403 (Blockchain::compute_generated_coins) *)
Definition compute_generated_coins (block_reward prev_generated_coins : Z) : Z :=
  if block_reward <? MONEY_SUPPLY -! prev_generated_coins
  then prev_generated_coins +! block_reward else MONEY_SUPPLY.

(** ** Fees *)

(** [mask *= 10] from [n] decimals on.
    Source: src/src/cryptonote_core/blockchain.cpp:3250-3251 (Blockchain::get_fee_quantization_mask) *)
Fixpoint mask_loop (decimals : nat) (mask : Z) : Z :=
  match decimals with O => mask | S k => mask_loop k (mask *! 10) end.

(** The static cache holds the same value on every call.
    Source: src/src/cryptonote_core/blockchain.cpp:3244-3254 (Blockchain::get_fee_quantization_mask) *)
Definition get_fee_quantization_mask : Z :=
  mask_loop (Z.to_nat (CRYPTONOTE_DISPLAY_DECIMAL_POINT - PER_KB_FEE_QUANTIZATION_DECIMALS)) 1.

(** Source: src/src/cryptonote_core/blockchain.cpp:3257-3281 (Blockchain::get_dynamic_per_kb_fee) *)
Definition get_dynamic_per_kb_fee (block_reward median_block_weight version : Z) : outcome Z :=
  let min_block_weight := get_min_block_weight version in
  let fee_per_kb_base := DYNAMIC_FEE_PER_KB_BASE_FEE in
  let median_block_weight :=
    if median_block_weight <? min_block_weight then min_block_weight else median_block_weight in
  let unscaled_fee_per_kb := fee_per_kb_base *! min_block_weight / median_block_weight in
  let '(lo, hi) := mul128 unscaled_fee_per_kb block_reward in
  '(_, (hi, lo)) ← div128_32 hi lo (DYNAMIC_FEE_PER_KB_BASE_BLOCK_REWARD / 1000000);
  '(_, (hi, lo)) ← div128_32 hi lo 1000000;
  let mask := get_fee_quantization_mask in
  Ok ((lo +! mask -! 1) / mask *! mask).

(** The fee a transaction of the given weight owes.
    Source: src/src/cryptonote_core/blockchain.cpp:3304-3306 (Blockchain::check_fee) *)
Definition needed_fee (tx_weight fee_per_kb : Z) : Z :=
  let needed_fee := tx_weight / 1024 in
  let needed_fee := needed_fee +! (if tx_weight mod 1024 =? 0 then 0 else 1) in
  needed_fee *! fee_per_kb.

(** The chain enters through the weight limit, the coins generated up to its top
    block (0 for the empty chain), the version and the long-term median.
    Source: src/src/cryptonote_core/blockchain.cpp:3284-3314 (Blockchain::check_fee) *)
Definition check_fee (weight_limit already_generated_coins version long_term_median : Z)
    (tx_weight fee : Z) : outcome bool :=
  let median := weight_limit / 2 in
  r ← get_block_reward median 1 already_generated_coins version;
  match r with
  | None => Ok false
  | Some base_reward =>
      fee_per_kb ← get_dynamic_per_kb_fee base_reward
        (if HF_VERSION_LONG_TERM_BLOCK_WEIGHT <=? version then long_term_median else median) version;
      let needed_fee := needed_fee tx_weight fee_per_kb in
      Ok (negb (fee <? needed_fee -! needed_fee / 50))
  end.

(** The coin count along a chain of blocks given by the median weight before
    the block, the block's weight and the version in force; the rewards are
    listed in order. [None] when a block is too heavy.
    Source: src/src/cryptonote_core/blockchain.cpp:3830-3852 (Blockchain::handle_block_to_main_chain) *)
Fixpoint emit (already_generated_coins : Z) (l : list (Z * Z * Z)) : outcome (option (list Z * Z)) :=
  match l with
  | [] => Ok (Some ([], already_generated_coins))
  | (median, weight, version) :: l =>
      r ← get_block_reward median weight already_generated_coins version;
      match r with
      | None => Ok None
      | Some base_reward =>
          rest ← emit (compute_generated_coins base_reward already_generated_coins) l;
          Ok (match rest with
              | None => None
              | Some (rs, coins) => Some (base_reward :: rs, coins)
              end)
      end
  end.

(** * Properties *)

(** ** Reward *)

(** The reward as a formula over the integers: the base reward, reduced for a
    block heavier than the effective median [m] by the square of its excess. *)
Definition base_spec (coins : Z) : Z :=
  Z.max FINAL_SUBSIDY_PER_MINUTE ((2 ^ 64 - 1 - coins) / 2 ^ 18).

Definition reward_spec (median weight coins : Z) : option Z :=
  let m := Z.max median CRYPTONOTE_BLOCK_GRANTED_FULL_REWARD_ZONE in
  if weight <=? m then Some (base_spec coins)
  else if 2 * m <? weight then None
  else Some (base_spec coins * ((2 * m - weight) * weight) / (m * m)).

Lemma base_block_reward_spec coins : in_u 64 coins -> base_block_reward coins = base_spec coins.
Proof.
  unfold in_u. intros Hc. unfold base_block_reward, base_spec.
  change MONEY_SUPPLY with (2 ^ 64 - 1). rewrite u64_small by lia.
  change emission_speed_factor with 18. rewrite shiftr_div by lia.
  change (FINAL_SUBSIDY_PER_MINUTE *! target_minutes) with FINAL_SUBSIDY_PER_MINUTE.
  destruct (Z.ltb_spec ((2 ^ 64 - 1 - coins) / 2 ^ 18) FINAL_SUBSIDY_PER_MINUTE); lia.
Qed.

Lemma base_spec_range coins : in_u 64 coins -> FINAL_SUBSIDY_PER_MINUTE <= base_spec coins < 2 ^ 46.
Proof.
  unfold in_u, base_spec. intros. split; [lia |].
  change FINAL_SUBSIDY_PER_MINUTE with 300000000000. div_lia.
Qed.

(** The product in the penalty never exceeds the square of the median. *)
Lemma penalty_le m w : m < w <= 2 * m -> 0 <= (2 * m - w) * w < m * m.
Proof. intros. nia. Qed.

Lemma penalty_lt b m w : 0 < b -> 0 < m -> m < w <= 2 * m -> 0 <= b * ((2 * m - w) * w) / (m * m) < b.
Proof.
  intros Hb Hm Hw. pose proof (penalty_le m w Hw). split; [apply Z.div_pos; nia |].
  apply Z.div_lt_upper_bound; nia.
Qed.

Lemma get_block_reward_spec median weight coins version :
  0 <= median < 2 ^ 32 -> in_u 64 weight -> in_u 64 coins -> ~ (0 < median /\ coins < premine) ->
  get_block_reward median weight coins version = Ok (reward_spec median weight coins).
Proof.
  intros Hm Hw Hc Hpre. unfold get_block_reward, reward_spec.
  replace ((0 <? median) && (coins <? premine)) with false by (symmetry; lia).
  rewrite base_block_reward_spec by done. cbv zeta. change (get_min_block_weight version) with 300000.
  change CRYPTONOTE_BLOCK_GRANTED_FULL_REWARD_ZONE with 300000.
  replace (if median <? 300000 then 300000 else median) with (Z.max median 300000) by
    (destruct (Z.ltb_spec median 300000); lia).
  pose proof (base_spec_range coins Hc) as Hb. change FINAL_SUBSIDY_PER_MINUTE with 300000000000 in Hb.
  assert (Hmm : 300000 <= Z.max median 300000 < 2 ^ 32) by lia.
  revert Hmm. generalize (Z.max median 300000) as m. intros m Hmm. unfold in_u in Hw.
  rewrite (u64_small (2 * m)) by lia.
  destruct (Z.leb_spec weight m); [done |]. destruct (Z.ltb_spec (2 * m) weight); [done |].
  pose proof (penalty_le m weight ltac:(lia)) as Hp.
  rewrite (u64_small (2 * m - weight)) by lia. rewrite (u64_small (_ * _)) by nia.
  destruct (mul128 _ _) as [lo hi] eqn:E.
  apply mul128_exact in E as (E & Hlo & Hhi); [| unfold in_u; lia | unfold in_u; nia].
  rewrite div128_64_exact by (done || lia). simpl_bind.
  rewrite <- E. set (n := base_spec coins * ((2 * m - weight) * weight)) in *.
  assert (0 <= n / m < 2 ^ 128).
  { split; [apply Z.div_pos; nia |]. apply Z.div_lt_upper_bound; unfold in_u in *; nia. }
  rewrite div128_64_exact; [| | | lia].
  - simpl_bind. rewrite <- split_at by lia. rewrite Z.div_div by lia.
    pose proof (penalty_lt (base_spec coins) m weight ltac:(lia) ltac:(lia) ltac:(lia)) as Hlt.
    fold n in Hlt. rewrite Z.mod_small by lia. done.
  - unfold in_u. split; [apply Z.div_pos; lia | apply Z.div_lt_upper_bound; lia].
  - apply Z.mod_pos_bound. lia.
Qed.

Lemma reward_spec_bounds median weight coins r :
  0 <= weight -> in_u 64 coins -> reward_spec median weight coins = Some r -> 0 <= r <= base_spec coins.
Proof.
  intros Hw Hc. unfold reward_spec. pose proof (base_spec_range coins Hc) as Hb.
  change FINAL_SUBSIDY_PER_MINUTE with 300000000000 in Hb.
  set (m := Z.max _ _). assert (300000 <= m) by (apply Z.le_max_r).
  destruct (Z.leb_spec weight m); [intros [= <-]; lia |].
  destruct (Z.ltb_spec (2 * m) weight); [done |]. intros [= <-].
  pose proof (penalty_lt (base_spec coins) m weight ltac:(lia) ltac:(lia) ltac:(lia)). lia.
Qed.

Lemma reward_spec_antitone median w1 w2 coins r1 r2 :
  0 <= w1 <= w2 -> in_u 64 coins -> reward_spec median w1 coins = Some r1 ->
  reward_spec median w2 coins = Some r2 -> r2 <= r1.
Proof.
  intros Hw Hc H1 H2. pose proof (reward_spec_bounds median w2 coins r2 ltac:(lia) Hc H2) as Hr2.
  revert H1 H2. unfold reward_spec. pose proof (base_spec_range coins Hc) as Hb.
  change FINAL_SUBSIDY_PER_MINUTE with 300000000000 in Hb.
  set (m := Z.max _ _). assert (300000 <= m) by (apply Z.le_max_r).
  destruct (Z.leb_spec w1 m); [intros [= <-]; lia |].
  destruct (Z.ltb_spec (2 * m) w1); [done |]. intros [= <-].
  destruct (Z.leb_spec w2 m); [lia |]. destruct (Z.ltb_spec (2 * m) w2); [done |]. intros [= <-].
  apply Z.div_le_mono; [nia |]. apply Z.mul_le_mono_nonneg_l; [lia |].
  enough (0 <= (w2 - w1) * (w1 + w2 - 2 * m)) by lia. apply Z.mul_nonneg_nonneg; lia.
Qed.

(** C27: outside the premine, the reward of a block up to the effective median
    weight [m] is the base reward (at least the tail subsidy), a block of more
    than twice that is refused, and in between the reward is exactly
    [base * (2m - w) * w / m^2], none of the intermediate products
    overflowing; it is below the base reward and never grows with the weight. *)
Theorem get_block_reward_exact median weight coins version :
  0 <= median < 2 ^ 32 -> in_u 64 weight -> in_u 64 coins -> ~ (0 < median /\ coins < premine) ->
  get_block_reward median weight coins version = Ok (reward_spec median weight coins)
  /\ (forall r, reward_spec median weight coins = Some r -> 0 <= r <= base_spec coins)
  /\ (forall w r r', in_u 64 w -> w <= weight ->
        get_block_reward median w coins version = Ok (Some r) ->
        get_block_reward median weight coins version = Ok (Some r') -> r' <= r).
Proof.
  intros Hm Hw Hc Hpre. split; [by apply get_block_reward_spec |]. split.
  - intros r. apply reward_spec_bounds; [apply Hw | done].
  - intros w r r' Hw' Hle. rewrite !get_block_reward_spec by done. intros [= H1] [= H2].
    apply (reward_spec_antitone median w weight coins); [split; [apply Hw' |] | ..]; done.
Qed.

Lemma get_block_reward_exact_witness :
  get_block_reward 400000 500000 premine 12 = Ok (reward_spec 400000 500000 premine)
  /\ reward_spec 400000 500000 premine = Some (base_spec premine * 15 / 16).
Proof.
  split; [apply get_block_reward_exact; [lia | by_decide | by_decide | intros [_ ?]; lia] |].
  vm_compute. reflexivity.
Defined.

(** ** Coin count *)

Lemma compute_generated_coins_spec r coins :
  0 <= r -> in_u 64 coins -> compute_generated_coins r coins = Z.min MONEY_SUPPLY (coins + r).
Proof.
  unfold in_u, compute_generated_coins. change MONEY_SUPPLY with (2 ^ 64 - 1). intros Hr Hc.
  rewrite (u64_small (_ - _)) by lia.
  destruct (Z.ltb_spec r (2 ^ 64 - 1 - coins)); [rewrite u64_small by lia |]; lia.
Qed.

(** Blocks as they occur: 64-bit weights, medians below 2^32. *)
Definition block_ok (b : Z * Z * Z) : Prop :=
  let '(median, weight, _) := b in 0 < median < 2 ^ 32 /\ in_u 64 weight.

Definition total (rs : list Z) : Z := foldr Z.add 0 rs.

(** The largest base reward once the premine is out is far below the premine. *)
Lemma base_after_premine coins : premine <= coins -> in_u 64 coins -> base_spec coins < premine.
Proof. unfold base_spec, in_u, premine. change FINAL_SUBSIDY_PER_MINUTE with 300000000000. intros. div_lia. Qed.

(** After the premine the count is the sum of the rewards, capped, and no block
    earns the premine again. *)
Lemma emit_after_premine l : forall coins rs coins',
  Forall block_ok l -> premine <= coins -> in_u 64 coins -> emit coins l = Ok (Some (rs, coins')) ->
  coins' = Z.min MONEY_SUPPLY (coins + total rs) /\ length rs = length l
  /\ Forall (fun r => 0 <= r < premine) rs.
Proof.
  induction l as [| [[median weight] version] l IH]; intros coins rs coins' Hl Hp Hc; cbn [emit].
  { intros [= <- <-]. unfold in_u in Hc. change MONEY_SUPPLY with (2 ^ 64 - 1). cbn. split; [lia | done]. }
  apply Forall_cons in Hl as [[Hm Hw] Hl].
  rewrite get_block_reward_spec by (done || lia). simpl_bind.
  destruct (reward_spec median weight coins) as [r |] eqn:Er; [| done].
  pose proof (reward_spec_bounds _ _ _ _ ltac:(apply Hw) Hc Er) as Hr.
  pose proof (base_after_premine coins Hp Hc) as Hb.
  rewrite compute_generated_coins_spec by (done || lia).
  destruct (emit _ l) as [[[rs' c] |] | |] eqn:El; simpl_bind; [| done..].
  intros [= <- <-]. unfold in_u in Hc. apply IH in El as (Ec & Elen & Hall);
    [| done | change MONEY_SUPPLY with (2 ^ 64 - 1); unfold premine in *; lia |
       unfold in_u; change MONEY_SUPPLY with (2 ^ 64 - 1); lia].
  assert (0 <= total rs').
  { clear -Hall. induction Hall as [| x rs' Hx _ IH]; cbn; [done |]. unfold total in IH. lia. }
  split; [| split; [cbn; by f_equal | constructor; [lia | done]]].
  cbn [total foldr]. fold (total rs'). lia.
Qed.

(** Along any accepted chain whose genesis block is within the full reward
    zone, the genesis block earns [MONEY_SUPPLY >> 18], the block after it earns
    the premine, no later block earns as much, and the stored coin count is the
    sum of all rewards, capped at [MONEY_SUPPLY] instead of wrapping. *)
Theorem emission_schedule weight version b l rs coins :
  0 <= weight <= CRYPTONOTE_BLOCK_GRANTED_FULL_REWARD_ZONE -> Forall block_ok (b :: l) ->
  emit 0 ((0, weight, version) :: b :: l) = Ok (Some (rs, coins)) ->
  exists rest, rs = MONEY_SUPPLY / 2 ^ 18 :: premine :: rest /\ length rest = length l
    /\ Forall (fun r => 0 <= r < premine) rest
    /\ coins = Z.min MONEY_SUPPLY (total rs).
Proof.
  intros Hw Hl. change CRYPTONOTE_BLOCK_GRANTED_FULL_REWARD_ZONE with 300000 in Hw.
  destruct b as [[median bw] bv]. apply Forall_cons in Hl as [[Hm _] Hl].
  cbn [emit]. rewrite get_block_reward_spec; [| lia | unfold in_u; lia | by_decide | lia].
  simpl_bind. assert (E0 : reward_spec 0 weight 0 = Some (MONEY_SUPPLY / 2 ^ 18)).
  { unfold reward_spec. change CRYPTONOTE_BLOCK_GRANTED_FULL_REWARD_ZONE with 300000.
    rewrite (proj2 (Z.leb_le _ _)) by lia. vm_compute. reflexivity. }
  rewrite E0. simpl_bind.
  change (compute_generated_coins (MONEY_SUPPLY / 2 ^ 18) 0) with 70368744177663.
  unfold get_block_reward at 1. replace ((0 <? median) && (70368744177663 <? premine)) with true
    by (symmetry; apply andb_true_intro; split; [lia | done]).
  simpl_bind. change (compute_generated_coins premine 70368744177663) with 180070368744177663.
  destruct (emit _ l) as [[[rest c] |] | |] eqn:El; simpl_bind; [| done..].
  intros [= <- <-]. apply emit_after_premine in El as (Ec & Elen & Hall);
    [| done | unfold premine; lia | by_decide].
  exists rest. split; [done |]. split; [done |]. split; [done |].
  rewrite Ec. cbn [total foldr]. fold (total rest). unfold premine.
  change (MONEY_SUPPLY / 2 ^ 18) with 70368744177663. f_equal. lia.
Qed.

Lemma emission_schedule_witness :
  exists rest, [70368744177663; premine; 69681830234395; 69681564419308] = MONEY_SUPPLY / 2 ^ 18 :: premine :: rest
    /\ length rest = 2%nat.
Proof.
  destruct (emission_schedule 100 1 (100, 100, 1) [(100, 100, 1); (100, 100, 1)]
    [70368744177663; premine; 69681830234395; 69681564419308] 180209732138831366)
    as (rest & E & Hlen & _).
  - vm_compute. by split.
  - repeat (apply Forall_cons; split; [vm_compute; by repeat split |]). constructor.
  - vm_compute. reflexivity.
  - exists rest. split; [exact E | exact Hlen].
Defined.

(** ** Fees *)

(** The least multiple of [q] that is at least [x]. *)
Lemma round_up x q : 0 <= x -> 0 < q -> x <= (x + q - 1) / q * q < x + q.
Proof. intros. div_lia. Qed.

(** The fee per kilobyte before it is rounded up. *)
Definition fee_spec (reward median : Z) : Z :=
  DYNAMIC_FEE_PER_KB_BASE_FEE * 300000 / Z.max median 300000 * reward
  / DYNAMIC_FEE_PER_KB_BASE_BLOCK_REWARD.

Lemma fee_spec_range reward median : in_u 64 reward -> 0 <= fee_spec reward median < 2 ^ 50.
Proof.
  unfold in_u, fee_spec. intros Hr. change (DYNAMIC_FEE_PER_KB_BASE_FEE * 300000) with 120000000000000.
  change DYNAMIC_FEE_PER_KB_BASE_BLOCK_REWARD with 10000000000000.
  assert (0 <= 120000000000000 / Z.max median 300000 <= 400000000) by
    (split; [apply Z.div_pos; lia | apply Z.div_le_upper_bound; lia]).
  split; [apply Z.div_pos; nia | apply Z.div_lt_upper_bound; nia].
Qed.

Lemma get_dynamic_per_kb_fee_spec reward median version :
  in_u 64 reward -> in_u 64 median ->
  get_dynamic_per_kb_fee reward median version
  = Ok ((fee_spec reward median + 10 ^ 4 - 1) / 10 ^ 4 * 10 ^ 4).
Proof.
  intros Hr Hm. pose proof (fee_spec_range reward median Hr) as Hf. unfold fee_spec in Hf |- *.
  unfold get_dynamic_per_kb_fee. change (get_min_block_weight version) with 300000. cbv zeta.
  replace (if median <? 300000 then 300000 else median) with (Z.max median 300000)
    by (destruct (Z.ltb_spec median 300000); lia).
  change (DYNAMIC_FEE_PER_KB_BASE_FEE *! 300000) with 120000000000000.
  change (DYNAMIC_FEE_PER_KB_BASE_FEE * 300000) with 120000000000000 in Hf |- *.
  change (DYNAMIC_FEE_PER_KB_BASE_BLOCK_REWARD / 1000000) with 10000000.
  change DYNAMIC_FEE_PER_KB_BASE_BLOCK_REWARD with 10000000000000 in Hf |- *.
  set (u := 120000000000000 / Z.max median 300000) in *.
  assert (0 <= u <= 400000000) by
    (split; [apply Z.div_pos; lia | apply Z.div_le_upper_bound; lia]).
  destruct (mul128 u reward) as [lo hi] eqn:E.
  apply mul128_exact in E as (E & Hlo & Hhi); [| unfold in_u; lia | done].
  destruct (div128_32_exact hi lo 10000000 Hhi Hlo ltac:(lia)) as (r1 & h1 & l1 & -> & E1 & R1 & H1 & L1).
  simpl_bind.
  destruct (div128_32_exact h1 l1 1000000 H1 L1 ltac:(lia)) as (r2 & h2 & l2 & -> & E2 & R2 & H2 & L2).
  simpl_bind. change get_fee_quantization_mask with 10000.
  assert (Eq : u * reward / 10000000000000 = h2 * 2 ^ 64 + l2).
  { symmetry. apply (Z.div_unique _ _ _ (10000000 * r2 + r1)); lia. }
  rewrite Eq in Hf |- *. unfold in_u in *. assert (h2 = 0) as -> by lia.
  rewrite (u64_small (l2 + 10000)) by lia. rewrite (u64_small (_ - 1)) by lia.
  rewrite u64_small; [done |]. div_lia.
Qed.

Lemma fee_spec_antitone reward m m' :
  in_u 64 reward -> m <= m' -> fee_spec reward m' <= fee_spec reward m.
Proof.
  unfold in_u, fee_spec. intros Hr Hm. apply Z.div_le_mono; [done |].
  apply Z.mul_le_mono_nonneg_r; [lia |]. apply Z.div_le_compat_l; [done | lia].
Qed.

(** The fee per kilobyte is computed without overflow for every 64-bit
    reward (the high word of the two-step division is zero), and is the least
    multiple of 10^4 atomic units that is at least
    [floor (floor (base * 300000 / m) * reward / 10^13)] for the effective
    median [m]; it does not increase with the median. *)
Theorem get_dynamic_per_kb_fee_exact reward median version :
  in_u 64 reward -> in_u 64 median ->
  exists f, get_dynamic_per_kb_fee reward median version = Ok f
    /\ f mod 10 ^ 4 = 0 /\ fee_spec reward median <= f < fee_spec reward median + 10 ^ 4
    /\ forall median' f', in_u 64 median' -> median <= median' ->
         get_dynamic_per_kb_fee reward median' version = Ok f' -> f' <= f.
Proof.
  intros Hr Hm. eexists. split; [by apply get_dynamic_per_kb_fee_spec |].
  split; [apply Z.mod_mul; lia |]. split.
  - apply round_up; [| lia]. by apply fee_spec_range.
  - intros m' f' Hm' Hle. rewrite get_dynamic_per_kb_fee_spec by done. intros [= <-].
    pose proof (fee_spec_antitone reward median m' Hr Hle).
    apply Z.mul_le_mono_nonneg_r; [lia |]. apply Z.div_le_mono; lia.
Qed.

Lemma get_dynamic_per_kb_fee_exact_witness :
  exists f, get_dynamic_per_kb_fee FINAL_SUBSIDY_PER_MINUTE 600000 12 = Ok f /\ f mod 10 ^ 4 = 0.
Proof.
  destruct (get_dynamic_per_kb_fee_exact FINAL_SUBSIDY_PER_MINUTE 600000 12) as (f & E & H & _);
    [by_decide | by_decide |]. exists f. split; [exact E | exact H].
Defined.
