(* ===== verification/ChainDb.v ===== *)
(** * The stored chain: the block records of [src/blockchain_db/lmdb]

    The rules of the chain read the [block_info] table, one record per height.
    The table is the list of its records, the record of height [h] at index
    [h]; the LMDB transactions and cursors that fetch a record have no other
    effect on what is read. Reading a height that is not in the table throws. *)
From S2P Require Import Prelude Config Median.

Open Scope Z_scope.

Abbreviation hash := (list Z).

(** Source: src/src/blockchain_db/lmdb/db_lmdb.h:57-70 (mdb_block_info) *)
Record block_info := Block_info {
  bi_timestamp : Z;
  bi_coins : Z;
  bi_weight : Z;
  bi_diff : Z;
  bi_hash : hash;
  bi_long_term_block_weight : Z
}.

Abbreviation chain := (list block_info).

Definition null_hash : hash := replicate 32 0.

(** Source: src/src/blockchain_db/lmdb/db_lmdb.cpp:3550-3562 (BlockchainLMDB::height) *)
Definition height (db : chain) : Z := zlen db.

Definition get_block_info {A} (field : block_info -> A) (db : chain) (h : Z) : outcome A :=
  match znth db h with
  | Some bi => Ok (field bi)
  | None => Throw "BLOCK_DNE"
  end.

(** Source: src/src/blockchain_db/lmdb/db_lmdb.cpp:3142-3163 (BlockchainLMDB::get_block_timestamp) *)
Definition get_block_timestamp : chain -> Z -> outcome Z := get_block_info bi_timestamp.

(** Source: src/src/blockchain_db/lmdb/db_lmdb.cpp:3242-3263 (BlockchainLMDB::get_block_weight) *)
Definition get_block_weight : chain -> Z -> outcome Z := get_block_info bi_weight.

(** Source: src/src/blockchain_db/lmdb/db_lmdb.cpp:3381-3404 (BlockchainLMDB::get_block_cumulative_difficulty) *)
Definition get_block_cumulative_difficulty : chain -> Z -> outcome Z := get_block_info bi_diff.

(** Source: src/src/blockchain_db/lmdb/db_lmdb.cpp:3423-3444 (BlockchainLMDB::get_block_already_generated_coins) *)
Definition get_block_already_generated_coins : chain -> Z -> outcome Z := get_block_info bi_coins.

(** Source: src/src/blockchain_db/lmdb/db_lmdb.cpp:3446-3467 (BlockchainLMDB::get_block_long_term_weight) *)
Definition get_block_long_term_weight : chain -> Z -> outcome Z :=
  get_block_info bi_long_term_block_weight.

(** Source: src/src/blockchain_db/lmdb/db_lmdb.cpp:3469-3490 (BlockchainLMDB::get_block_hash_from_height) *)
Definition get_block_hash_from_height : chain -> Z -> outcome hash := get_block_info bi_hash.

(** The conversion of boost's 128-bit integer is a parameter.
    Source: src/src/blockchain_db/lmdb/db_lmdb.cpp:3406-3421 (BlockchainLMDB::get_block_difficulty) *)
Definition get_block_difficulty (convert_to_u64 : Z -> Z) (db : chain) (h : Z) : outcome Z :=
  diff1 ← get_block_cumulative_difficulty db h;
  diff2 ← (if h =? 0 then Ok 0 else get_block_cumulative_difficulty db (h -! 1));
  Ok (convert_to_u64 (wrap 128 (diff1 - diff2))).

(** The hash and the height of the top block; 2^64 - 1 for the empty chain.
    Source: src/src/blockchain_db/lmdb/db_lmdb.cpp:3520-3533 (BlockchainLMDB::top_block_hash) *)
Definition top_block_hash (db : chain) : outcome (hash * Z) :=
  let block_height := height db -! 1 in
  if negb (height db =? 0)
  then h ← get_block_hash_from_height db (height db -! 1); Ok (h, block_height)
  else Ok (null_hash, block_height).

(** Fields of the records from [start_height] on, at most [count].
    Source: src/src/blockchain_db/lmdb/db_lmdb.cpp:3265-3317 (BlockchainLMDB::get_block_info_64bit_fields) *)
Definition get_block_info_64bit_fields (field : block_info -> Z) (db : chain) (start_height count : Z)
    : outcome (list Z) :=
  if height db <=? start_height then Throw "DB_ERROR"
  else Ok (map field (take (Z.to_nat count) (drop (Z.to_nat start_height) db))).

(** Source: src/src/blockchain_db/lmdb/db_lmdb.cpp:3371-3374 (BlockchainLMDB::get_block_weights) *)
Definition get_block_weights : chain -> Z -> Z -> outcome (list Z) := get_block_info_64bit_fields bi_weight.

(** Source: src/src/blockchain_db/lmdb/db_lmdb.cpp:3376-3379 (BlockchainLMDB::get_long_term_block_weights) *)
Definition get_long_term_block_weights : chain -> Z -> Z -> outcome (list Z) :=
  get_block_info_64bit_fields bi_long_term_block_weight.

(** Source: src/src/cryptonote_core/blockchain.cpp:1299-1312 (Blockchain::get_last_n_blocks_weights) *)
Definition get_last_n_blocks_weights (db : chain) (count : Z) : outcome (list Z) :=
  let h := height db in
  if h =? 0 then Ok [] else
  let start_offset := h -! Z.min h count in
  get_block_weights db start_offset count.

(** A loop that reads one field of [n] consecutive heights from [from] on. *)
Fixpoint read_range {A} (get : Z -> outcome A) (from : Z) (n : nat) : outcome (list A) :=
  match n with
  | O => Ok []
  | S n => a ← get from; l ← read_range get (from +! 1) n; Ok (a :: l)
  end.

(** * Properties *)

Definition top_hash (db : chain) : hash := match last db with Some b => bi_hash b | None => null_hash end.

Lemma get_block_info_at {A} (field : block_info -> A) db h b :
  0 <= h -> db !! Z.to_nat h = Some b -> get_block_info field db h = Ok (field b).
Proof. intros Hh E. unfold get_block_info, znth. destruct (Z.ltb_spec h 0); [lia |]. by rewrite E. Qed.

Lemma top_block_hash_spec db : height db < 2 ^ 64 -> top_block_hash db = Ok (top_hash db, height db -! 1).
Proof.
  intros Hl. unfold top_block_hash, top_hash, height in *. rewrite last_lookup.
  destruct db as [| b db] using rev_ind; [done |].
  rewrite zlen_app. change (zlen [b]) with 1. pose proof (zlen_nonneg db).
  rewrite zlen_app in Hl. change (zlen [b]) with 1 in Hl.
  destruct (Z.eqb_spec (zlen db + 1) 0); [lia |]. cbn [negb]. rewrite u64_small by lia.
  replace (zlen db + 1 - 1) with (zlen db) by lia.
  assert (El : (db ++ [b]) !! Z.to_nat (zlen db) = Some b).
  { unfold zlen. rewrite Nat2Z.id. by rewrite list_lookup_middle. }
  unfold get_block_hash_from_height. rewrite (get_block_info_at _ _ _ b) by done. simpl_bind.
  rewrite length_app. cbn [length]. rewrite Nat.add_1_r. cbn [Nat.pred].
  unfold zlen in El. rewrite Nat2Z.id in El. by rewrite El.
Qed.

(** Reading a range that lies in the table gives the fields of that range. *)
Lemma read_range_spec {A} (field : block_info -> A) db n : forall from,
  0 <= from -> from + Z.of_nat n <= height db -> height db < 2 ^ 64 ->
  read_range (get_block_info field db) from n
  = Ok (map field (take n (drop (Z.to_nat from) db))).
Proof.
  induction n as [| n IH]; intros from Hf Hn Hh; [done |]. cbn [read_range].
  unfold height in *. destruct (lookup_lt_is_Some_2 db (Z.to_nat from)) as [b Hb]; [unfold zlen in Hn; lia |].
  rewrite (get_block_info_at _ _ _ b Hf Hb). simpl_bind.
  rewrite u64_small by (unfold zlen in *; lia). rewrite IH by lia. simpl_bind.
  rewrite (drop_S db b (Z.to_nat from) Hb). cbn [take map]. by replace (Z.to_nat (from + 1)) with (S (Z.to_nat from)) by lia.
Qed.

Lemma read_range_to_end {A} (field : block_info -> A) db from :
  0 <= from <= height db -> height db < 2 ^ 64 ->
  read_range (get_block_info field db) from (Z.to_nat (height db - from))
  = Ok (map field (drop (Z.to_nat from) db)).
Proof.
  intros Hf Hh. rewrite read_range_spec by lia.
  rewrite take_ge; [done |]. rewrite length_drop. unfold height, zlen in *. lia.
Qed.
