(* ===== verification/NextDifficulty.v ===== *)
(** * The difficulty of the next block:
      [Blockchain::get_difficulty_for_next_block] and
      [Blockchain::get_next_difficulty_for_alternative_chain]

    The blockchain object keeps the last difficulty, keyed by the hash of the
    top block, and the window of timestamps and cumulative difficulties it was
    computed from, keyed by height and hash. The main theorem says that these
    caches cannot be observed, whatever chains the queries see. A query runs on
    one snapshot of the database; the fork version is a function of the chain,
    as [HardFork.v] shows. *)
From S2P Require Import Prelude Config Difficulty ChainDb.
From Stdlib Require Import SpecFloat.

Open Scope Z_scope.

(** ** State *)

(** Source: src/src/cryptonote_core/blockchain.h:1100-1114 (Blockchain) *)
Record difficulty_cache := Difficulty_cache {
  m_timestamps : list Z;
  m_difficulties : list Z;
  m_timestamps_and_difficulties_height : Z;
  m_timestamps_and_difficulties_top_hash : hash;
  m_difficulty_for_next_block_top_hash : hash;
  m_difficulty_for_next_block : Z
}.

(** Source: src/src/cryptonote_core/blockchain.cpp:88-101 (Blockchain::Blockchain) *)
Definition initial_cache : difficulty_cache := Difficulty_cache [] [] 0 null_hash null_hash 1.

(** What popping a block, a rollback, a switch, an alternative block and a
    reset do to the cache.
    Source: src/src/cryptonote_core/blockchain.cpp:609-609 (Blockchain::pop_block_from_blockchain) *)
Definition reset_window (c : difficulty_cache) : difficulty_cache :=
  Difficulty_cache (m_timestamps c) (m_difficulties c) 0 (m_timestamps_and_difficulties_top_hash c)
    (m_difficulty_for_next_block_top_hash c) (m_difficulty_for_next_block c).

(** ** Operations *)

(** Source: src/src/cryptonote_core/blockchain.cpp:890-900 (Blockchain::get_difficulty_for_next_block) *)
Definition difficulty_blocks_count (version : Z) : Z :=
  if version =? 1 then DIFFICULTY_BLOCKS_COUNT
  else if version =? 2 then DIFFICULTY_BLOCKS_COUNT_V2
  else if version <? 6 then DIFFICULTY_BLOCKS_COUNT_V3
  else DIFFICULTY_BLOCKS_COUNT_V6.

(** [while (v.size() > count) v.erase(v.begin());]
    Source: src/src/cryptonote_core/blockchain.cpp:918-921 (Blockchain::get_difficulty_for_next_block) *)
Fixpoint erase_front (count : Z) (v : list Z) : list Z :=
  match v with
  | [] => []
  | _ :: v' => if count <? zlen v then erase_front count v' else v
  end.

(** The first height of the window.
    Source: src/src/cryptonote_core/blockchain.cpp:930-932 (Blockchain::get_difficulty_for_next_block) *)
Definition window_offset (height count : Z) : Z :=
  let offset := height -! Z.min height count in
  if offset =? 0 then offset +! 1 else offset.

Section Boost.
Variable convert_to_u64 : Z -> Z.
Variable boost_round : spec_float -> outcome Z.

(** Source: src/src/cryptonote_core/blockchain.cpp:952-964 (Blockchain::get_difficulty_for_next_block) *)
Definition difficulty_for_version (version : Z) (timestamps difficulties : list Z) : outcome Z :=
  let target := DIFFICULTY_TARGET in
  if version =? 1 then next_difficulty convert_to_u64 timestamps difficulties target
  else if version =? 2 then next_difficulty_v2 convert_to_u64 timestamps difficulties target
  else if version =? 3 then next_difficulty_v3 convert_to_u64 timestamps difficulties target false
  else if version <? 6 then next_difficulty_v3 convert_to_u64 timestamps difficulties target true
  else next_difficulty_v6 convert_to_u64 boost_round timestamps difficulties target.

(** The window, from the cache or from the database, and the updated cache.
    Source: src/src/cryptonote_core/blockchain.cpp:911-951 (Blockchain::get_difficulty_for_next_block) *)
Definition difficulty_window (count height : Z) (top_hash : hash) (db : chain) (c : difficulty_cache)
    : outcome difficulty_cache :=
  incremental ←
    (if negb (m_timestamps_and_difficulties_height c =? 0)
        && (height -! m_timestamps_and_difficulties_height c =? 1)
        && (count <=? zlen (m_timestamps c))
     then h ← get_block_hash_from_height db (height -! 2);
          Ok (bool_decide (h = m_timestamps_and_difficulties_top_hash c))
     else Ok false);
  if (incremental : bool) then
    let index := height -! 1 in
    t ← get_block_timestamp db index;
    d ← get_block_cumulative_difficulty db index;
    Ok (Difficulty_cache (erase_front count (m_timestamps c ++ [t]))
          (erase_front count (m_difficulties c ++ [d])) height top_hash
          (m_difficulty_for_next_block_top_hash c) (m_difficulty_for_next_block c))
  else
    let offset := window_offset height count in
    let n := Z.to_nat (height - offset) in
    ts ← read_range (get_block_timestamp db) offset n;
    ds ← read_range (get_block_cumulative_difficulty db) offset n;
    Ok (Difficulty_cache ts ds height top_hash
          (m_difficulty_for_next_block_top_hash c) (m_difficulty_for_next_block c)).

(** Source: src/src/cryptonote_core/blockchain.cpp:862-970 (Blockchain::get_difficulty_for_next_block) *)
Definition get_difficulty_for_next_block (m_fixed_difficulty version : Z) (db : chain)
    (c : difficulty_cache) : outcome (Z * difficulty_cache) :=
  if negb (m_fixed_difficulty =? 0)
  then Ok (if negb (height db =? 0) then m_fixed_difficulty else 1, c) else
  '(top_hash, _) ← top_block_hash db;
  if bool_decide (top_hash = m_difficulty_for_next_block_top_hash c)
  then Ok (m_difficulty_for_next_block c, c) else
  '(top_hash, top_height) ← top_block_hash db;
  let height := top_height +! 1 in
  c ← difficulty_window (difficulty_blocks_count version) height top_hash db c;
  diff ← difficulty_for_version version (m_timestamps c) (m_difficulties c);
  Ok (diff, Difficulty_cache (m_timestamps c) (m_difficulties c)
              (m_timestamps_and_difficulties_height c) (m_timestamps_and_difficulties_top_hash c)
              top_hash diff).

(** *** Alternative chains *)

(** The fields of a block of an alternative chain that the rule reads.
    Source: src/src/cryptonote_core/blockchain.h:104-111 (Blockchain::block_extended_info) *)
Record block_extended_info := Block_extended_info {
  bei_timestamp : Z;
  bei_height : Z;
  bei_cumulative_difficulty : Z
}.

(** The version is the one of the main chain, which [get_current_hard_fork_version]
    reads, whatever the height of the block. The CHECK_AND_ASSERT_MES on the size
    of the window returns [false], that is 0.
    Source: src/src/cryptonote_core/blockchain.cpp:1144-1231 (Blockchain::get_next_difficulty_for_alternative_chain) *)
Definition get_next_difficulty_for_alternative_chain (m_fixed_difficulty : Z)
    (get_current_hard_fork_version : chain -> Z) (db : chain)
    (alt_chain : list block_extended_info) (bei : block_extended_info) : outcome Z :=
  if negb (m_fixed_difficulty =? 0)
  then Ok (if negb (height db =? 0) then m_fixed_difficulty else 1) else
  let version := get_current_hard_fork_version db in
  let count := difficulty_blocks_count version in
  if zlen alt_chain <? count then
    let main_chain_stop_offset :=
      match alt_chain with a :: _ => bei_height a | [] => bei_height bei end in
    let main_chain_count := count -! Z.min count (zlen alt_chain) in
    let main_chain_count := Z.min main_chain_count main_chain_stop_offset in
    let main_chain_start_offset := main_chain_stop_offset -! main_chain_count in
    let main_chain_start_offset :=
      if main_chain_start_offset =? 0 then main_chain_start_offset +! 1 else main_chain_start_offset in
    let n := Z.to_nat (main_chain_stop_offset - main_chain_start_offset) in
    ts ← read_range (get_block_timestamp db) main_chain_start_offset n;
    ds ← read_range (get_block_cumulative_difficulty db) main_chain_start_offset n;
    if negb (zlen alt_chain +! zlen ts <=? count) then Ok 0 else
    difficulty_for_version version (ts ++ map bei_timestamp alt_chain)
      (ds ++ map bei_cumulative_difficulty alt_chain)
  else
    let recent := reverse (take (Z.to_nat count) (reverse alt_chain)) in
    difficulty_for_version version (map bei_timestamp recent) (map bei_cumulative_difficulty recent).
End Boost.

(** * Properties *)

(** ** The window as a suffix of the chain *)

(** The blocks the next difficulty depends on: the last [count] blocks of the
    chain, the genesis block apart. *)
Definition window (count : Z) (db : chain) : chain :=
  drop (Nat.max 1 (length db - Z.to_nat count)) db.

Lemma count_range version : 29 <= difficulty_blocks_count version <= 735.
Proof. unfold difficulty_blocks_count. repeat case_match; by_decide. Qed.

Lemma window_offset_spec h count :
  0 <= h < 2 ^ 64 -> 0 < count -> window_offset h count = Z.max 1 (h - count).
Proof.
  intros Hh Hc. unfold window_offset. rewrite u64_small by lia.
  destruct (Z.eqb_spec (h - Z.min h count) 0) as [E |]; [rewrite E, u64_small; lia | lia].
Qed.

Lemma erase_front_spec count v :
  0 <= count -> erase_front count v = drop (length v - Z.to_nat count) v.
Proof.
  intros Hc. induction v as [| x v IH]; [done |]. cbn [erase_front]. rewrite zlen_cons.
  destruct (Z.ltb_spec count (zlen v + 1)) as [Hlt | Hge]; unfold height, zlen in *.
  - replace (length (x :: v) - Z.to_nat count)%nat with (S (length v - Z.to_nat count)) by (cbn; lia).
    cbn [drop]. exact IH.
  - by replace (length (x :: v) - Z.to_nat count)%nat with O by (cbn; lia).
Qed.

Lemma window_length count db :
  0 <= count -> length (window count db) = (Nat.min (length db - 1) (Z.to_nat count)).
Proof. intros. unfold window. rewrite length_drop. lia. Qed.

(** Appending a block to a chain whose window is at least as long as the new
    one: drop from the old window. *)
Lemma window_snoc count count' db b :
  0 < count -> 0 <= count' -> (Z.to_nat count <= length (window count' db))%nat ->
  window count (db ++ [b]) = drop (S (length (window count' db)) - Z.to_nat count) (window count' db ++ [b]).
Proof.
  intros Hc Hc' Hl. rewrite window_length in * by done. unfold window.
  rewrite <- drop_app_le by lia. rewrite drop_drop. f_equal. rewrite length_app. cbn. lia.
Qed.

Lemma zlen_snoc {A} (l : list A) x : zlen (l ++ [x]) = zlen l + 1.
Proof. apply zlen_app. Qed.

(** The hash of the block below the top, and the fields of the top. *)
Lemma hash_below_top db b :
  db <> [] -> get_block_hash_from_height (db ++ [b]) (zlen db - 1) = Ok (top_hash db).
Proof.
  intros Hne. destruct db as [| b1 db _] using rev_ind; [done |].
  unfold get_block_hash_from_height. rewrite zlen_app. change (zlen [b1]) with 1.
  replace (zlen db + 1 - 1) with (zlen db) by lia.
  rewrite (get_block_info_at _ _ _ b1); [| apply zlen_nonneg |].
  - unfold top_hash. by rewrite last_snoc.
  - unfold zlen. rewrite Nat2Z.id, <- app_assoc. cbn [app]. by rewrite list_lookup_middle.
Qed.

Lemma field_at_top {A} (field : block_info -> A) db b :
  get_block_info field (db ++ [b]) (zlen db) = Ok (field b).
Proof.
  apply get_block_info_at; [apply zlen_nonneg |]. unfold zlen. rewrite Nat2Z.id. by rewrite list_lookup_middle.
Qed.

Lemma erase_front_window (f : block_info -> Z) count count0 db b :
  0 < count -> 0 < count0 -> count <= zlen (window count0 db) ->
  erase_front count (map f (window count0 db) ++ [f b]) = map f (window count (db ++ [b])).
Proof.
  intros Hc Hc0 Hl. rewrite erase_front_spec by lia. rewrite (window_snoc count count0) by (unfold zlen in Hl; lia).
  change [f b] with (map f [b]). rewrite <- map_app. rewrite skipn_map, length_map, length_app.
  do 2 f_equal. cbn. lia.
Qed.

(** ** Alternative chains *)

(** The record an alternative block would have in the table. *)
Definition as_block_info (a : block_extended_info) (b : block_info) : Prop :=
  bi_timestamp b = bei_timestamp a /\ bi_diff b = bei_cumulative_difficulty a.

Lemma recent_suffix {A} (l : list A) n : reverse (take n (reverse l)) = drop (length l - n) l.
Proof. by rewrite take_reverse, reverse_involutive. Qed.

Lemma alt_fields alt (alts : chain) :
  Forall2 as_block_info alt alts ->
  map bei_timestamp alt = map bi_timestamp alts /\ map bei_cumulative_difficulty alt = map bi_diff alts.
Proof.
  induction 1 as [| a b alt alts [Ht Hd] _ [IH1 IH2]]; [done |]. cbn. rewrite Ht, Hd, IH1, IH2. done.
Qed.

(** Reading the part of the main chain below the split. *)
Lemma read_below_split {A} (f : block_info -> A) (db : chain) (start split : nat) :
  (start <= split <= length db)%nat -> height db < 2 ^ 63 ->
  read_range (get_block_info f db) (Z.of_nat start) (split - start)
  = Ok (map f (drop start (take split db))).
Proof.
  intros Hs Hh. rewrite read_range_spec by (unfold height, zlen in *; lia).
  rewrite Nat2Z.id. rewrite take_drop_commute. by replace (start + (split - start))%nat with split by lia.
Qed.

(** ** The caches cannot be observed *)

Section Cache.
Variable convert_to_u64 : Z -> Z.
Variable boost_round : spec_float -> outcome Z.
Variable valid : chain -> Prop.
Variable version_of : chain -> Z.

(** The chains that can be stored: prefixes of a storable chain are storable,
    and the hash of the top block identifies the chain (a block's hash commits
    to its predecessor). *)
Hypothesis valid_nil : valid [].
Hypothesis valid_prefix : forall db b, valid (db ++ [b]) -> valid db.
Hypothesis valid_height : forall db, valid db -> height db < 2 ^ 63.
Hypothesis top_hash_inj : forall db db', valid db -> valid db' -> top_hash db = top_hash db' -> db = db'.

(** The specification: the rule of the version applied to the window. *)
Definition uncached (db : chain) : outcome Z :=
  let w := window (difficulty_blocks_count (version_of db)) db in
  difficulty_for_version convert_to_u64 boost_round (version_of db) (map bi_timestamp w) (map bi_diff w).

Record caches_window (count : Z) (db : chain) (c : difficulty_cache) : Prop := {
  cw_height : m_timestamps_and_difficulties_height c = height db;
  cw_hash : m_timestamps_and_difficulties_top_hash c = top_hash db;
  cw_timestamps : m_timestamps c = map bi_timestamp (window count db);
  cw_difficulties : m_difficulties c = map bi_diff (window count db)
}.

Record coherent (c : difficulty_cache) : Prop := {
  coh_window : m_timestamps_and_difficulties_height c <> 0 ->
    exists count db, 0 < count /\ valid db /\ caches_window count db c;
  coh_difficulty : exists db, valid db /\ m_difficulty_for_next_block_top_hash c = top_hash db
    /\ uncached db = Ok (m_difficulty_for_next_block c)
}.

Lemma uncached_nil : uncached [] = Ok 1.
Proof. unfold uncached, difficulty_for_version. repeat case_match; reflexivity. Qed.

Lemma initial_coherent : coherent initial_cache.
Proof. split; [done |]. exists []. split_and!; [done | done | apply uncached_nil]. Qed.

Lemma reset_coherent c : coherent c -> coherent (reset_window c).
Proof. intros [_ H]. by split. Qed.

(** Rebuilding the window from the database. *)
Lemma rebuild_window count db ts_d_top_hash diff :
  0 < count -> height db < 2 ^ 63 ->
  exists c', (ts ← read_range (get_block_timestamp db) (window_offset (height db) count)
                  (Z.to_nat (height db - window_offset (height db) count));
         ds ← read_range (get_block_cumulative_difficulty db) (window_offset (height db) count)
                  (Z.to_nat (height db - window_offset (height db) count));
         Ok (Difficulty_cache ts ds (height db) (top_hash db) ts_d_top_hash diff)) = Ok c'
    /\ caches_window count db c' /\ m_difficulty_for_next_block_top_hash c' = ts_d_top_hash
    /\ m_difficulty_for_next_block c' = diff.
Proof.
  intros Hc Hh. assert (0 <= height db) by apply zlen_nonneg.
  assert (Hread : forall A (f : block_info -> A),
    read_range (get_block_info f db) (window_offset (height db) count)
      (Z.to_nat (height db - window_offset (height db) count)) = Ok (map f (window count db))).
  { intros A f. rewrite window_offset_spec by lia. destruct (decide (height db = 0)) as [E0 | Hne].
    - unfold height, zlen in E0. destruct db; [| cbn in E0; lia].
      replace (Z.to_nat _) with O by (change (height []) with 0; lia). unfold window. by rewrite drop_nil.
    - rewrite read_range_to_end by lia. do 2 f_equal. unfold window, height, zlen in *. f_equal. lia. }
  unfold get_block_timestamp, get_block_cumulative_difficulty. rewrite !Hread. simpl_bind.
  eexists. split; [done |]. by split_and!.
Qed.

Lemma difficulty_window_spec count db c :
  0 < count -> valid db -> coherent c ->
  exists c', difficulty_window count (height db) (top_hash db) db c = Ok c'
    /\ caches_window count db c'
    /\ m_difficulty_for_next_block_top_hash c' = m_difficulty_for_next_block_top_hash c
    /\ m_difficulty_for_next_block c' = m_difficulty_for_next_block c.
Proof.
  intros Hc Hv Hcoh. pose proof (valid_height db Hv) as Hh. unfold difficulty_window.
  assert (0 <= height db) by apply zlen_nonneg.
  destruct (Z.eqb_spec (m_timestamps_and_difficulties_height c) 0) as [| Hne]; cbn [negb andb].
  { by apply rebuild_window. }
  destruct (coh_window c Hcoh Hne) as (count0 & db0 & Hc0 & Hv0 & [Eh Ehash Ets Eds]).
  pose proof (valid_height db0 Hv0) as Hh0. assert (0 <= height db0) by apply zlen_nonneg.
  destruct (Z.eqb_spec (height db -! m_timestamps_and_difficulties_height c) 1) as [E1 | _];
    cbn [andb]; [| by apply rebuild_window].
  destruct (Z.leb_spec count (zlen (m_timestamps c))) as [Hlen | _]; [| by apply rebuild_window].
  assert (Elen : height db = height db0 + 1).
  { rewrite Eh in E1. unfold wrap in E1. destruct (decide (height db0 <= height db)).
    - rewrite Z.mod_small in E1; lia.
    - rewrite <- (Z.mod_add _ 1) in E1 by done. rewrite Z.mod_small in E1; lia. }
  destruct db as [| b db1 _] using rev_ind; [change (height []) with 0 in Elen; lia |].
  unfold height in *. rewrite zlen_app in *. change (zlen [b]) with 1 in *.
  assert (Hne1 : db1 <> []) by (intros ->; change (zlen []) with 0 in *; lia).
  assert (0 < zlen db1) by (destruct db1; [done |]; rewrite zlen_cons; pose proof (zlen_nonneg db1); lia).
  rewrite (u64_small (_ - 2)) by lia. replace (zlen db1 + 1 - 2) with (zlen db1 - 1) by lia.
  rewrite hash_below_top by done. simpl_bind.
  case_bool_decide as Ehh; [| rewrite <- (zlen_snoc db1 b); apply (rebuild_window count (db1 ++ [b]));
    [done | unfold height; rewrite zlen_snoc; lia]].
  assert (db1 = db0) as -> by (apply top_hash_inj; [by eapply valid_prefix | done | congruence]).
  rewrite !(u64_small (_ - 1)) by lia. replace (zlen db0 + 1 - 1) with (zlen db0) by lia.
  unfold get_block_timestamp, get_block_cumulative_difficulty. rewrite !field_at_top. simpl_bind.
  eexists. split; [done |]. split; [| done]. rewrite Ets in Hlen. unfold zlen in Hlen. rewrite length_map in Hlen.
  split; cbn [m_timestamps_and_difficulties_height m_timestamps_and_difficulties_top_hash
    m_timestamps m_difficulties]; [symmetry; apply zlen_snoc | done | |].
  - rewrite Ets. by apply erase_front_window.
  - rewrite Eds. by apply erase_front_window.
Qed.

(** One query: the value is that of the rule, and the caches stay coherent. *)
Lemma query_spec db c :
  valid db -> coherent c ->
  fst <$> get_difficulty_for_next_block convert_to_u64 boost_round 0 (version_of db) db c = uncached db
  /\ forall d c', get_difficulty_for_next_block convert_to_u64 boost_round 0 (version_of db) db c = Ok (d, c') ->
     coherent c'.
Proof.
  intros Hv Hc. pose proof (valid_height db Hv) as Hh. assert (0 <= height db) by apply zlen_nonneg.
  unfold get_difficulty_for_next_block. cbn [Z.eqb negb].
  rewrite top_block_hash_spec by lia. simpl_bind.
  case_bool_decide as Etop.
  - destruct (coh_difficulty c Hc) as (db' & Hv' & Etop' & Hu).
    assert (db = db') as -> by (apply top_hash_inj; congruence).
    split; [by rewrite Hu | by intros d c' [= <- <-]].
  - assert (Eh : height db -! 1 +! 1 = height db).
    { unfold wrap. rewrite Zplus_mod_idemp_l, Z.mod_small; lia. }
    rewrite Eh. pose proof (count_range (version_of db)) as Hcnt.
    destruct (difficulty_window_spec (difficulty_blocks_count (version_of db)) db c ltac:(lia) Hv Hc) as (c1 & -> & Hw & Et & Ed).
    simpl_bind. pose proof Hw as [Eh1 Eh2 Ets Eds]. rewrite Ets, Eds.
    fold (uncached db). destruct (uncached db) as [d | |] eqn:Eu; cbn; [| done..].
    split; [done |]. intros d' c' [= <- <-]. split; cbn.
    + intros _. exists (difficulty_blocks_count (version_of db)), db. split; [lia |]. split; [done |].
      by split.
    + exists db. by rewrite Eu.
Qed.

(** Queries on any sequence of storable chains, and resets of the window. *)
Inductive cache_step : difficulty_cache -> difficulty_cache -> Prop :=
| step_query db c d c' : valid db ->
    get_difficulty_for_next_block convert_to_u64 boost_round 0 (version_of db) db c = Ok (d, c') ->
    cache_step c c'
| step_reset c : cache_step c (reset_window c).

Lemma reachable_coherent c : rtc cache_step initial_cache c -> coherent c.
Proof.
  intros Hr. generalize initial_coherent.
  induction Hr as [| c1 c2 c3 Hs Hr IH]; [done |]. intros Hc. apply IH. destruct Hs as [db' c d c' Hv' E | c].
  - by eapply (query_spec db').
  - by apply reset_coherent.
Qed.

(** C1: after any sequence of queries on any storable chains (extensions,
    reorganisations, stale snapshots) and window resets, a query on a chain
    returns what the rule of its version computes from the last blocks of that
    chain: the cached difficulty and the incrementally updated window are never
    those of another chain or of another version. *)
Theorem difficulty_cache_transparent c db :
  rtc cache_step initial_cache c -> valid db ->
  fst <$> get_difficulty_for_next_block convert_to_u64 boost_round 0 (version_of db) db c = uncached db.
Proof. intros Hr Hv. apply query_spec; [done | by apply reachable_coherent]. Qed.

(** *** Alternative chains and the main chain *)

(** The rule of the main chain's version on the window of the alternative chain. *)
Lemma alternative_difficulty_rule (db : chain) split alt (alts : chain) bei :
  (1 <= split <= length db)%nat -> height db < 2 ^ 63 -> zlen alt < 2 ^ 63 ->
  Forall2 as_block_info alt alts ->
  match alt with a :: _ => bei_height a | [] => bei_height bei end = Z.of_nat split ->
  let version := version_of db in
  let w := window (difficulty_blocks_count version) (take split db ++ alts) in
  get_next_difficulty_for_alternative_chain convert_to_u64 boost_round 0 version_of db alt bei
  = difficulty_for_version convert_to_u64 boost_round version (map bi_timestamp w) (map bi_diff w).
Proof.
  intros Hs Hh Ha Hall Ebei version w. pose proof (count_range version) as Hc.
  destruct (alt_fields alt alts Hall) as [Et Ed]. pose proof (Forall2_length _ _ _ Hall) as El.
  unfold get_next_difficulty_for_alternative_chain. cbn [Z.eqb negb]. fold version. cbv zeta. rewrite Ebei.
  unfold w, window. clear w. set (count := difficulty_blocks_count version) in *.
  rewrite length_app, length_take. replace (Nat.min split (length db)) with split by lia.
  destruct (Z.ltb_spec (zlen alt) count) as [Hlt | Hge]; unfold height, zlen in *.
  - rewrite (u64_small (count - _)), (u64_small (Z.of_nat split - _)) by lia.
    set (start := Nat.max 1 (split + length alts - Z.to_nat count)).
    assert (Est : (let s := Z.of_nat split - Z.min (count - Z.min count (Z.of_nat (length alt))) (Z.of_nat split) in
      if s =? 0 then s +! 1 else s) = Z.of_nat start).
    { cbv zeta. destruct (Z.eqb_spec (Z.of_nat split - Z.min (count - Z.min count (Z.of_nat (length alt)))
        (Z.of_nat split)) 0) as [E |]; [rewrite E, u64_small |]; lia. }
    cbv zeta in Est |- *. rewrite Est.
    replace (Z.to_nat (Z.of_nat split - Z.of_nat start)) with (split - start)%nat by lia.
    unfold get_block_timestamp, get_block_cumulative_difficulty.
    rewrite !read_below_split by (unfold height, zlen; lia). simpl_bind.
    rewrite length_map, length_drop, length_take, u64_small by lia.
    rewrite (proj2 (Z.leb_le _ _)) by lia. cbn [negb].
    rewrite Et, Ed, <- !map_app. by rewrite drop_app_le by (rewrite length_take; lia).
  - rewrite recent_suffix. rewrite <- !skipn_map, Et, Ed, !skipn_map.
    rewrite drop_app_ge by (rewrite length_take; lia). rewrite length_take.
    by replace (Nat.max 1 (split + length alts - Z.to_nat count) - Nat.min split (length db))%nat
      with (length alt - Z.to_nat count)%nat by lia.
Qed.

(** C36: the difficulty demanded of a block on an alternative chain is what the
    rule of the version that the main chain has reached gives on the last
    blocks of the chain up to the split and the alternative blocks after it.
    When that chain, as the main chain, has the same version, this is the
    difficulty that [get_difficulty_for_next_block] returns on it, whatever the
    caches hold: a switch then checks the block against the target it was
    checked against before. Across a fork the two versions differ, and the
    targets can ([alternative_difficulty_differs]). *)
Theorem alternative_difficulty_agrees (db : chain) split alt (alts : chain) bei c :
  (1 <= split <= length db)%nat -> valid db -> valid (take split db ++ alts) ->
  Forall2 as_block_info alt alts ->
  match alt with a :: _ => bei_height a | [] => bei_height bei end = Z.of_nat split ->
  rtc cache_step initial_cache c ->
  let switched := take split db ++ alts in
  let w := window (difficulty_blocks_count (version_of db)) switched in
  get_next_difficulty_for_alternative_chain convert_to_u64 boost_round 0 version_of db alt bei
  = difficulty_for_version convert_to_u64 boost_round (version_of db) (map bi_timestamp w) (map bi_diff w)
  /\ (version_of switched = version_of db ->
      get_next_difficulty_for_alternative_chain convert_to_u64 boost_round 0 version_of db alt bei
      = fst <$> get_difficulty_for_next_block convert_to_u64 boost_round 0 (version_of switched) switched c).
Proof.
  intros Hs Hv Hv' Hall Ebei Hr switched w.
  assert (Ha : zlen alt < 2 ^ 63).
  { pose proof (valid_height _ Hv') as H. unfold height, zlen in *. rewrite length_app in H.
    rewrite (Forall2_length _ _ _ Hall). lia. }
  pose proof (alternative_difficulty_rule db split alt alts bei Hs (valid_height db Hv) Ha Hall Ebei) as E.
  split; [exact E |]. intros Ev. rewrite E.
  rewrite (proj1 (query_spec switched c Hv' (reachable_coherent c Hr))). unfold uncached. by rewrite Ev.
Qed.
End Cache.

(** ** Witnesses *)

(** A chain of three blocks and a fork from its genesis block. *)
Definition genesis : block_info := Block_info 0 0 0 1 [1] 0.
Definition block_a : block_info := Block_info 60 0 0 101 [2] 0.
Definition block_b : block_info := Block_info 120 0 0 201 [3] 0.
Definition block_c : block_info := Block_info 90 0 0 131 [4] 0.
Definition stored_chains : list chain :=
  [[]; [genesis]; [genesis; block_a]; [genesis; block_a; block_b]; [genesis; block_c]].

Lemma stored_prefix db b : In (db ++ [b]) stored_chains -> In db stored_chains.
Proof.
  intros H. rewrite <- (removelast_last db b). revert H. generalize (db ++ [b]) as l.
  intros l Hl. cbn in Hl. repeat (destruct Hl as [<- | Hl]; [cbn; tauto |]). done.
Qed.

Lemma stored_top_hash db db' :
  In db stored_chains -> In db' stored_chains -> top_hash db = top_hash db' -> db = db'.
Proof.
  intros H H'. cbn in H, H'. repeat (destruct H as [<- | H]; [
    repeat (destruct H' as [<- | H']; [first [done | discriminate] |]); done |]). done.
Qed.

Lemma stored_height db : In db stored_chains -> height db < 2 ^ 63.
Proof. intros H. cbn in H. repeat (destruct H as [<- | H]; [done |]). done. Qed.

(** A query on the fork after one on the longer chain. *)
Lemma difficulty_cache_transparent_witness :
  exists c, get_difficulty_for_next_block u64 (fun _ => Ok 0) 0 1 [genesis; block_a; block_b] initial_cache
            = Ok (100, c)
    /\ fst <$> get_difficulty_for_next_block u64 (fun _ => Ok 0) 0 1 [genesis; block_c] c
       = uncached u64 (fun _ => Ok 0) (fun _ => 1) [genesis; block_c].
Proof.
  eexists. split; [vm_compute; reflexivity |].
  apply (difficulty_cache_transparent u64 (fun _ => Ok 0) (fun db => In db stored_chains) (fun _ => 1));
    [by left | apply stored_prefix | apply stored_height | apply stored_top_hash | | cbn; tauto].
  apply rtc_once. eapply (step_query _ _ _ _ [genesis; block_a; block_b]); [cbn; tauto |].
  vm_compute. reflexivity.
Defined.

Lemma alternative_difficulty_agrees_witness :
  get_next_difficulty_for_alternative_chain u64 (fun _ => Ok 0) 0 (fun _ => 1) [genesis; block_a; block_b]
    [Block_extended_info 90 1 131] (Block_extended_info 150 2 0)
  = fst <$> get_difficulty_for_next_block u64 (fun _ => Ok 0) 0 1 [genesis; block_c] initial_cache.
Proof.
  apply (alternative_difficulty_agrees u64 (fun _ => Ok 0) (fun db => In db stored_chains) (fun _ => 1)
    ltac:(by left) stored_prefix stored_height stored_top_hash [genesis; block_a; block_b] 1 _ [block_c] (Block_extended_info 150 2 0) initial_cache);
    [cbn; lia | cbn; tauto | cbn; tauto | by repeat constructor | done | done | done].
Defined.

(** A main chain past a fork demands another difficulty of an alternative block
    below the fork than the rule of the chain that block extends. *)
Definition fork_at_four (db : chain) : Z := if height db <? 4 then 2 else 3.

Lemma alternative_difficulty_differs :
  let main := [genesis; block_a; block_b; Block_info 180 0 0 301 [5] 0] in
  let alts := [block_c; Block_info 120 0 0 231 [6] 0] in
  get_next_difficulty_for_alternative_chain u64 (fun _ => Ok 0) 0 fork_at_four main
    [Block_extended_info 90 1 131; Block_extended_info 120 2 231] (Block_extended_info 150 3 0) = Ok 100
  /\ fst <$> get_difficulty_for_next_block u64 (fun _ => Ok 0) 0 (fork_at_four (genesis :: alts)) (genesis :: alts) initial_cache
     = Ok 200.
Proof. split; vm_compute; reflexivity. Qed.
