(* ===== verification/BlockRules.v ===== *)
(** * Consensus rules of a block: [src/cryptonote_core/blockchain.cpp]

    The tests on timestamps, miner transaction, unlock times and the fee
    estimate of [Blockchain]. The wall clock and the fork version in force are
    arguments; the stored chain is that of [ChainDb.v]. *)
From S2P Require Import Prelude Config Median Emission ChainDb.

Open Scope Z_scope.

(** ** Data *)

(** Source: src/src/cryptonote_basic/cryptonote_basic.h:87-138 (txin_v) *)
Inductive txin :=
| txin_gen (height : Z)
| txin_to_script
| txin_to_scripthash
| txin_to_key (amount : Z) (key_offsets : list Z) (k_image : list Z).

(** The fields of a coinbase transaction that the rules read; the outputs are
    their amounts.
    Source: src/src/cryptonote_basic/cryptonote_basic.h:160-171 (transaction_prefix) *)
Record miner_transaction := Miner_transaction {
  unlock_time : Z;
  vin : list txin;
  vout : list Z
}.

(** Source: src/src/cryptonote_basic/cryptonote_basic.h:410-449 (block) *)
Record block := Block {
  major_version : Z;
  timestamp : Z;
  miner_tx : miner_transaction
}.

(** ** Timestamps *)

(** Source: src/src/cryptonote_core/blockchain.cpp:3449-3449 (Blockchain::check_block_timestamp) *)
Definition timestamp_check_window (hf_version : Z) : Z :=
  if hf_version <? 2 then BLOCKCHAIN_TIMESTAMP_CHECK_WINDOW else BLOCKCHAIN_TIMESTAMP_CHECK_WINDOW_V2.

(** [median] sorts the caller's vector, so [timestamps.back()] is read from the
    sorted vector. The result is the verdict and the median.
    Source: src/src/cryptonote_core/blockchain.cpp:3443-3465 (Blockchain::check_block_timestamp) *)
Definition check_timestamp_vector (hf_version : Z) (timestamps : list Z) (b : block) : bool * Z :=
  let '(median_ts, timestamps) := median timestamps in
  let top_block_timestamp := match last timestamps with None => timestamp b | Some t => t end in
  if (5 <? hf_version) && (timestamp b <? top_block_timestamp -! CRYPTONOTE_BLOCK_FUTURE_TIME_LIMIT_V6)
  then (false, median_ts)
  else if timestamp b <? median_ts then (false, median_ts)
  else (true, median_ts).

(** Source: src/src/cryptonote_core/blockchain.cpp:3480-3487 (Blockchain::check_block_timestamp) *)
Definition future_time_limit (hf_version : Z) : Z :=
  if hf_version <? 2 then CRYPTONOTE_BLOCK_FUTURE_TIME_LIMIT
  else if hf_version <? 6 then CRYPTONOTE_BLOCK_FUTURE_TIME_LIMIT_V2
  else CRYPTONOTE_BLOCK_FUTURE_TIME_LIMIT_V6.

(** The median is not assigned on the early returns.
    Source: src/src/cryptonote_core/blockchain.cpp:3475-3513 (Blockchain::check_block_timestamp) *)
Definition check_block_timestamp (now hf_version : Z) (db : chain) (b : block) : outcome (bool * option Z) :=
  if now +! future_time_limit hf_version <? timestamp b then Ok (false, None) else
  let window := timestamp_check_window hf_version in
  let h := height db in
  if h <? window then Ok (true, None) else
  let offset := h -! window in
  timestamps ← read_range (get_block_timestamp db) offset (Z.to_nat (h - offset));
  let '(ok, median_ts) := check_timestamp_vector hf_version timestamps b in
  Ok (ok, Some median_ts).

(** The loop from [start_top_height] down to [stop_offset], [n] steps. *)
Fixpoint push_timestamps (db : chain) (start_top_height : Z) (n : nat) (timestamps : list Z)
    : outcome (list Z) :=
  match n with
  | O => Ok timestamps
  | S n =>
      t ← get_block_timestamp db start_top_height;
      push_timestamps db (start_top_height -! 1) n (timestamps ++ [t])
  end.

(** [None] is the result [false].
    Source: src/src/cryptonote_core/blockchain.cpp:1611-1630 (Blockchain::complete_timestamps_vector) *)
Definition complete_timestamps_vector (hf_version : Z) (db : chain) (start_top_height : Z)
    (timestamps : list Z) : outcome (option (list Z)) :=
  let window := timestamp_check_window hf_version in
  if window <=? zlen timestamps then Ok (Some timestamps) else
  let need_elements := window -! zlen timestamps in
  if negb (start_top_height <? height db) then Ok None else
  let stop_offset := if need_elements <? start_top_height then start_top_height -! need_elements else 0 in
  ts ← push_timestamps db start_top_height (Z.to_nat (start_top_height - stop_offset)) timestamps;
  Ok (Some ts).

(** ** Miner transaction *)

(** Source: src/src/cryptonote_basic/cryptonote_format_utils.cpp:881-891 (check_outs_overflow) *)
Fixpoint outs_loop (money : Z) (outs : list Z) : bool :=
  match outs with
  | [] => true
  | amount :: outs => if amount +! money <? money then false else outs_loop (money +! amount) outs
  end.

Definition check_outs_overflow (tx : miner_transaction) : bool := outs_loop 0 (vout tx).

(** Source: src/src/cryptonote_core/blockchain.cpp:1238-1263 (Blockchain::prevalidate_miner_transaction) *)
Definition prevalidate_miner_transaction (b : block) (height : Z) : bool :=
  match vin (miner_tx b) with
  | [txin_gen h] =>
      if negb (h =? height) then false else
      let unlock_window :=
        if 6 <=? major_version b then CRYPTONOTE_MINED_MONEY_UNLOCK_WINDOW_V6
        else CRYPTONOTE_MINED_MONEY_UNLOCK_WINDOW in
      if negb (unlock_time (miner_tx b) =? height +! unlock_window) then false else
      if negb (check_outs_overflow (miner_tx b)) then false else true
  | _ => false
  end.

(** [None] is the result [false]; otherwise the base reward.
    Source: src/src/cryptonote_core/blockchain.cpp:1266-1296 (Blockchain::validate_miner_transaction) *)
Definition validate_miner_transaction (db : chain) (b : block) (cumulative_block_size fee : Z)
    (already_generated_coins version : Z) : outcome (option Z) :=
  match vout (miner_tx b) with
  | [] => Ok None
  | outs =>
      let money_in_use := foldl (fun m o => m +! o) 0 outs in
      last_blocks_weights ← get_last_n_blocks_weights db CRYPTONOTE_REWARD_BLOCKS_WINDOW;
      r ← get_block_reward (median_of last_blocks_weights) cumulative_block_size
            already_generated_coins version;
      match r with
      | None => Ok None
      | Some base_reward =>
          let total_reward := base_reward +! fee in
          if negb (total_reward =? money_in_use) && (0 <? already_generated_coins)
          then Ok None else Ok (Some base_reward)
      end
  end.

(** ** Unlock times *)

(** Source: src/src/cryptonote_core/blockchain.cpp:3354-3376 (Blockchain::is_tx_spendtime_unlocked) *)
Definition is_tx_spendtime_unlocked (now : Z) (db : chain) (unlock_time : Z) : bool :=
  if unlock_time <? CRYPTONOTE_MAX_BLOCK_NUMBER
  then unlock_time <=? height db -! 1 +! CRYPTONOTE_LOCKED_TX_ALLOWED_DELTA_BLOCKS
  else unlock_time <=? now +! CRYPTONOTE_LOCKED_TX_ALLOWED_DELTA_SECONDS_V1.

(** ** Fee estimate *)

(** Source: src/src/cryptonote_core/blockchain.cpp:85-85 (BLOCK_REWARD_OVERESTIMATE) *)
Definition BLOCK_REWARD_OVERESTIMATE : Z := 10 * 1000000000000.

(** Source: src/src/cryptonote_core/blockchain.cpp:3317-3349 (Blockchain::get_dynamic_per_kb_fee_estimate) *)
Definition get_dynamic_per_kb_fee_estimate (db : chain) (version long_term_median grace_blocks : Z)
    : outcome Z :=
  let db_height := height db in
  let grace_blocks :=
    if CRYPTONOTE_REWARD_BLOCKS_WINDOW <=? grace_blocks then CRYPTONOTE_REWARD_BLOCKS_WINDOW - 1
    else grace_blocks in
  let min_block_weight := get_min_block_weight version in
  weights ← get_last_n_blocks_weights db (CRYPTONOTE_REWARD_BLOCKS_WINDOW -! grace_blocks);
  let weights := weights ++ replicate (Z.to_nat grace_blocks) min_block_weight in
  let median := median_of weights in
  let median := if median <=? min_block_weight then min_block_weight else median in
  already_generated_coins ←
    (if negb (db_height =? 0) then get_block_already_generated_coins db (db_height -! 1) else Ok 0);
  r ← get_block_reward median 1 already_generated_coins version;
  let base_reward := match r with Some r => r | None => BLOCK_REWARD_OVERESTIMATE end in
  let use_median_value :=
    if HF_VERSION_LONG_TERM_BLOCK_WEIGHT <=? version then Z.min median long_term_median else median in
  get_dynamic_per_kb_fee base_reward use_median_value version.

(** * Properties *)

(** ** Timestamps *)

(** The timestamps the rule looks at: those of the last blocks. *)
Definition recent (hf_version : Z) (db : chain) : list Z :=
  map bi_timestamp (drop (length db - Z.to_nat (timestamp_check_window hf_version)) db).

Lemma check_window_cases hf : timestamp_check_window hf = 60 \/ timestamp_check_window hf = 12.
Proof. unfold timestamp_check_window. destruct (_ <? _); [by left | by right]. Qed.

Lemma future_limit_range hf : 0 < future_time_limit hf <= 7200.
Proof. unfold future_time_limit. repeat case_match; by_decide. Qed.

Lemma recent_length hf db :
  timestamp_check_window hf <= height db -> length (recent hf db) = Z.to_nat (timestamp_check_window hf).
Proof.
  intros H. unfold recent. rewrite length_map, length_drop. pose proof (check_window_cases hf).
  unfold height, zlen in H. lia.
Qed.

Lemma check_vector_sound hf ts b :
  Nat.even (length ts) = true -> Forall (fun t => 300 <= t < 2 ^ 63) ts ->
  fst (check_timestamp_vector hf ts b) = true ->
  (length ts / 2 <= length (filter (fun t => (t <= timestamp b)%Z) ts))%nat
  /\ (5 < hf -> Forall (fun t => t <= timestamp b + CRYPTONOTE_BLOCK_FUTURE_TIME_LIMIT_V6) ts).
Proof.
  intros Hev Hall. unfold check_timestamp_vector. pose proof (median_vector ts) as Hv.
  assert (Em : fst (median ts) = median_of ts) by done.
  destruct (median ts) as [m v]. cbn [fst snd] in Hv, Em. subst v.
  destruct (_ && _) eqn:E1; [done |]. destruct (Z.ltb_spec (timestamp b) m) as [| Hm]; [done |]. intros _. split.
  - etransitivity; [apply median_half; [done |] |].
    + eapply Forall_impl; [exact Hall |]. cbn. lia.
    + rewrite <- Em. clear -Hm. induction ts as [| t ts IH]; [done |].
      rewrite !filter_cons. repeat case_decide; cbn; lia.
  - intros H5. change CRYPTONOTE_BLOCK_FUTURE_TIME_LIMIT_V6 with 300 in *.
    destruct (last (std_sort ts)) as [x |] eqn:Ex.
    + apply std_sort_last in Ex as [Hx Hle]. rewrite Forall_forall in Hall. specialize (Hall x Hx).
      rewrite u64_small in E1 by lia. apply andb_false_iff in E1.
      eapply Forall_impl; [exact Hle |]. cbn. lia.
    + apply last_None in Ex. assert (length ts = O) by (rewrite <- std_sort_length, Ex; done).
      by destruct ts.
Qed.

Lemma check_vector_complete hf ts b :
  Forall (fun t => 300 <= t < 2 ^ 63) ts -> 0 <= timestamp b < 2 ^ 63 ->
  Forall (fun t => t <= timestamp b) ts -> ts <> [] -> fst (check_timestamp_vector hf ts b) = true.
Proof.
  intros Hall Hb Hle Hne. unfold check_timestamp_vector. pose proof (median_vector ts) as Hv.
  assert (Em : fst (median ts) = median_of ts) by done.
  destruct (median ts) as [m v]. cbn [fst snd] in Hv, Em. subst v.
  assert (Hm : 0 <= median_of ts <= timestamp b).
  { apply median_bounds; [done | lia | lia |]. apply Forall_and. split; [| done].
    eapply Forall_impl; [exact Hall |]. cbn. lia. }
  change CRYPTONOTE_BLOCK_FUTURE_TIME_LIMIT_V6 with 300.
  assert (Htop : (timestamp b <? (match last (std_sort ts) with None => timestamp b | Some t => t end -! 300)) = false).
  { destruct (last (std_sort ts)) as [x |] eqn:Ex.
    - apply std_sort_last in Ex as [Hx _]. rewrite Forall_forall in Hall, Hle.
      specialize (Hall x Hx). specialize (Hle x Hx). rewrite u64_small by lia. lia.
    - apply last_None in Ex. assert (length ts = O) by (rewrite <- std_sort_length, Ex; done). by destruct ts. }
  rewrite Htop, andb_false_r. destruct (Z.ltb_spec (timestamp b) m); [lia | done].
Qed.

(** The timestamp test of a block on the main chain always returns. A block
    it accepts is not further ahead of the clock than the limit of the version,
    at least half of the blocks of the window (once the chain has that many)
    are not newer than it, and from version 6 on none of them is newer by more
    than five minutes. A block within the clock limit that is not older than
    any block of the window is accepted. *)
Theorem check_block_timestamp_sound_complete now hf db b :
  0 <= now < 2 ^ 62 -> 0 <= timestamp b < 2 ^ 63 -> height db < 2 ^ 63 ->
  Forall (fun bi => 300 <= bi_timestamp bi < 2 ^ 63) db ->
  exists ok m, check_block_timestamp now hf db b = Ok (ok, m)
  /\ (ok = true ->
      timestamp b <= now + future_time_limit hf
      /\ (timestamp_check_window hf <= height db ->
          (length (recent hf db) / 2 <= length (filter (fun t => (t <= timestamp b)%Z) (recent hf db)))%nat
          /\ (5 < hf -> Forall (fun t => t <= timestamp b + CRYPTONOTE_BLOCK_FUTURE_TIME_LIMIT_V6) (recent hf db))))
  /\ (timestamp b <= now + future_time_limit hf -> Forall (fun t => t <= timestamp b) (recent hf db) -> ok = true).
Proof.
  intros Hnow Hb Hh Hall. unfold check_block_timestamp. pose proof (future_limit_range hf) as Hlim.
  pose proof (check_window_cases hf) as Hw. assert (0 <= height db) by apply zlen_nonneg.
  rewrite (u64_small (now + _)) by lia.
  destruct (Z.ltb_spec (now + future_time_limit hf) (timestamp b)).
  { eexists _, _. split; [done |]. split; [done | lia]. }
  destruct (Z.ltb_spec (height db) (timestamp_check_window hf)).
  { eexists _, _. split; [done |]. split; [lia | done]. }
  rewrite (u64_small (_ - _)) by lia. unfold get_block_timestamp.
  rewrite read_range_to_end by lia. simpl_bind.
  replace (Z.to_nat (height db - timestamp_check_window hf))
    with (length db - Z.to_nat (timestamp_check_window hf))%nat by (unfold height, zlen; lia).
  fold (recent hf db).
  assert (Hr : Forall (fun t => 300 <= t < 2 ^ 63) (recent hf db)).
  { unfold recent. apply Forall_fmap, Forall_drop. exact Hall. }
  pose proof (recent_length hf db ltac:(lia)) as Hlen.
  pose proof (check_vector_sound hf (recent hf db) b) as Hsound.
  pose proof (check_vector_complete hf (recent hf db) b Hr Hb) as Hcomplete.
  destruct (check_timestamp_vector hf (recent hf db) b) as [ok m]. cbn [fst] in *.
  exists ok, (Some m). split; [done |]. split.
  - intros ->. split; [done |]. intros _. apply Hsound; [| done | done].
    rewrite Hlen. by destruct Hw as [-> | ->].
  - intros _ Hle. apply Hcomplete; [done |]. intros E. rewrite E in Hlen. cbn in Hlen. lia.
Qed.

(** At version 12, a chain of twelve blocks a minute apart. *)
Definition minute_chain : chain :=
  map (fun i => Block_info (1700000000 + 60 * Z.of_nat i) 0 0 0 [Z.of_nat i] 0) (seq 0 12).

Lemma check_block_timestamp_sound_complete_witness :
  exists ok m,
    check_block_timestamp 1700001000 12 minute_chain
      (Block 12 1700000700 (Miner_transaction 0 [] [])) = Ok (ok, m) /\ ok = true.
Proof.
  destruct (check_block_timestamp_sound_complete 1700001000 12 minute_chain
    (Block 12 1700000700 (Miner_transaction 0 [] []))) as (ok & m & E & _ & H); [by_decide.. |].
  exists ok, m. split; [exact E |]. apply H; [by_decide |]. by_decide.
Defined.

(** The window holds the largest timestamp, not the latest block, at its end:
    a block six minutes older than one with a timestamp ahead of its time is
    refused although it is newer than the top block. *)
Lemma timestamp_of_max_not_top :
  check_block_timestamp 1700002000 12 (<[5%nat := Block_info 1700001200 0 0 0 [5] 0]> minute_chain)
    (Block 12 1700000840 (Miner_transaction 0 [] [])) = Ok (false, Some 1700000390).
Proof. vm_compute. reflexivity. Qed.

(** ** Miner transaction *)

Lemma outs_loop_exact outs : forall money,
  in_u 64 money -> Forall (in_u 64) outs ->
  outs_loop money outs = true -> 0 <= money + total outs < 2 ^ 64
  /\ foldl (fun m o => m +! o) money outs = money + total outs.
Proof.
  induction outs as [| a outs IH]; intros money Hm Hall; unfold in_u in *.
  { cbn. intros _. split; lia. }
  apply Forall_cons in Hall as [Ha Hall]. cbn [outs_loop foldl total foldr]. fold (total outs).
  destruct (Z.ltb_spec (a +! money) money) as [| Hge]; [done |]. intros Hl.
  assert (Hw : a + money < 2 ^ 64).
  { destruct (decide (a + money < 2 ^ 64)) as [| Hn]; [done |]. exfalso. unfold wrap in Hge.
    rewrite <- (Z.mod_add _ (-1)) in Hge by done. rewrite Z.mod_small in Hge; lia. }
  rewrite u64_small in Hl |- * by lia. destruct (IH (money + a)) as [H1 H2]; [lia | done | done |].
  rewrite H2. lia.
Qed.

(** C26: a block whose miner transaction passes both tests has exactly one input,
    the generation input of its height, its outputs unlock after the window of
    its version, and, beyond the first block, its outputs sum up (without
    wrapping) to the base reward plus the fees: mining creates no more money
    than the emission rule allows. *)
Theorem miner_transaction_conserves db b height size fee coins version r :
  in_u 64 height -> Forall (in_u 64) (vout (miner_tx b)) ->
  prevalidate_miner_transaction b height = true ->
  validate_miner_transaction db b size fee coins version = Ok (Some r) -> 0 < coins ->
  vin (miner_tx b) = [txin_gen height]
  /\ unlock_time (miner_tx b) = height +! (if 6 <=? major_version b then 20 else 10)
  /\ total (vout (miner_tx b)) = r +! fee
  /\ get_last_n_blocks_weights db 100 ≫=
       (fun ws => get_block_reward (median_of ws) size coins version) = Ok (Some r).
Proof.
  intros Hh Hall. unfold prevalidate_miner_transaction.
  destruct (vin (miner_tx b)) as [| [h | | | a ko ki] [| i vs]]; try done.
  destruct (Z.eqb_spec h height) as [-> |]; cbn [negb]; [| done].
  destruct (Z.eqb_spec (unlock_time (miner_tx b)) (height +! (if 6 <=? major_version b
    then CRYPTONOTE_MINED_MONEY_UNLOCK_WINDOW_V6 else CRYPTONOTE_MINED_MONEY_UNLOCK_WINDOW)));
    cbn [negb]; [| done].
  destruct (check_outs_overflow (miner_tx b)) eqn:Eo; [intros _ | done].
  destruct (outs_loop_exact _ 0 ltac:(by_decide) Hall Eo) as [_ Esum].
  unfold validate_miner_transaction. destruct (vout (miner_tx b)) as [| o outs] eqn:Ev; [done |].
  rewrite <- Ev in *. rewrite Esum. change CRYPTONOTE_REWARD_BLOCKS_WINDOW with 100.
  destruct (get_last_n_blocks_weights db 100) as [ws | |]; simpl_bind; [| done..].
  destruct (get_block_reward _ _ _ _) as [[r' |] | |]; simpl_bind; [| done..].
  intros E Hc. rewrite (proj2 (Z.ltb_lt _ _) Hc), andb_true_r in E.
  destruct (Z.eqb_spec (r' +! fee) (0 + total (vout (miner_tx b)))) as [Et |]; cbn [negb] in E; [| done].
  injection E as ->. split; [done |]. split; [done |]. split; [lia | done].
Qed.

Lemma miner_transaction_conserves_witness :
  let b := Block 12 1700000700 (Miner_transaction 32 [txin_gen 12] [FINAL_SUBSIDY_PER_MINUTE; 5]) in
  total (vout (miner_tx b)) = FINAL_SUBSIDY_PER_MINUTE +! 5.
Proof.
  intros b.
  refine (proj1 (proj2 (proj2 (miner_transaction_conserves minute_chain b 12 1000 5 MONEY_SUPPLY 12
    FINAL_SUBSIDY_PER_MINUTE _ _ _ _ _)))).
  - by_decide.
  - by_decide.
  - vm_compute. reflexivity.
  - vm_compute. reflexivity.
  - by_decide.
Defined.
