(* ===== verification/TreeHash.v ===== *)
(** * Merkle root of the transactions of a block: [src/crypto/tree-hash.c]

    The buffer [ints] is a list of hashes updated in place, as the loops do.
    The hash function is any
    implementation of [FastHash]; the witnesses use the one of [Keccak.v]. Sizes are small enough for the
    arithmetic on them not to wrap; the counting loop is kept at its width. *)
From S2P Require Import Prelude FastHash Keccak.

Open Scope Z_scope.

Abbreviation hash := (list Z).

(** [while(pow < count) pow <<= 1;]. The loop does not end for a [count] above
    2^63; 64 rounds are enough for every other one.
    Source: src/src/crypto/tree-hash.c:58-59 (tree_hash_cnt) *)
Fixpoint cnt_loop (fuel : nat) (pow count : Z) : outcome Z :=
  if pow <? count
  then match fuel with O => Undef | S fuel => cnt_loop fuel (pow <<! 1) count end
  else Ok pow.

(** The assertions are compiled out.
    Source: src/src/crypto/tree-hash.c:42-61 (tree_hash_cnt) *)
Definition tree_hash_cnt (count : Z) : outcome Z :=
  pow ← cnt_loop 64 2 count; Ok (Z.shiftr pow 1).

Section Hash.
Variable cn_fast_hash : list Z -> hash.

(** [n] rounds of the loop that hashes pairs of leaves into [ints].
    Source: src/src/crypto/tree-hash.c:92-94 (tree_hash) *)
Fixpoint first_level (n i j : nat) (hashes ints : list hash) : outcome (list hash) :=
  match n with
  | O => Ok ints
  | S n =>
      a ← at_or_undef (hashes !! i);
      b ← at_or_undef (hashes !! S i);
      first_level n (i + 2) (j + 1) hashes (<[j := cn_fast_hash (a ++ b)]> ints)
  end.

(** [n] rounds of the loop that hashes pairs of [ints] in place.
    Source: src/src/crypto/tree-hash.c:99-101 (tree_hash) *)
Fixpoint fold_level (n i j : nat) (ints : list hash) : outcome (list hash) :=
  match n with
  | O => Ok ints
  | S n =>
      a ← at_or_undef (ints !! i);
      b ← at_or_undef (ints !! S i);
      fold_level n (i + 2) (j + 1) (<[j := cn_fast_hash (a ++ b)]> ints)
  end.

(** [while (cnt > 2)]; [cnt] halves, so 64 rounds are enough.
    Source: src/src/crypto/tree-hash.c:97-102 (tree_hash) *)
Fixpoint fold_levels (fuel : nat) (cnt : Z) (ints : list hash) : outcome (list hash) :=
  if 2 <? cnt then
    match fuel with
    | O => Undef
    | S fuel =>
        let cnt := Z.shiftr cnt 1 in
        ints ← fold_level (Z.to_nat cnt) 0 0 ints;
        fold_levels fuel cnt ints
    end
  else Ok ints.

(** An empty list makes the copy overrun the buffer.
    Source: src/src/crypto/tree-hash.c:63-107 (tree_hash) *)
Definition tree_hash (hashes : list hash) : outcome hash :=
  match hashes with
  | [] => Undef
  | [h] => Ok h
  | [a; b] => Ok (cn_fast_hash (a ++ b))
  | _ =>
      let count := zlen hashes in
      cnt ← tree_hash_cnt count;
      let kept := Z.to_nat (2 * cnt - count) in
      let ints := take kept hashes ++ replicate (Z.to_nat cnt - kept) (replicate HASH_SIZE 0) in
      ints ← first_level (Z.to_nat cnt - kept) kept kept hashes ints;
      ints ← fold_levels 64 cnt ints;
      a ← at_or_undef (ints !! 0%nat);
      b ← at_or_undef (ints !! 1%nat);
      Ok (cn_fast_hash (a ++ b))
  end.

(** * Properties *)

(** ** Specification *)

(** The hashes of consecutive pairs. *)
Fixpoint pairs (l : list hash) : list hash :=
  match l with
  | a :: b :: l => cn_fast_hash (a ++ b) :: pairs l
  | _ => []
  end.

(** The root of the perfect binary tree of depth [k] over [2^k] leaves. *)
Fixpoint merkle (k : nat) (l : list hash) : hash :=
  match k with
  | O => default [] (head l)
  | S k => cn_fast_hash (merkle k (take (2 ^ k) l) ++ merkle k (drop (2 ^ k) l))
  end.

(** The leaves of the perfect tree for [count] hashes: the last ones are paired
    so that [2^k] remain. *)
Definition leaves (k : nat) (hashes : list hash) : list hash :=
  let kept := (2 * 2 ^ k - length hashes)%nat in
  take kept hashes ++ pairs (drop kept hashes).
End Hash.

Lemma cnt_loop_spec count : forall fuel k,
  0 <= count <= 2 ^ 63 -> (0 < k)%nat -> Z.of_nat k + Z.of_nat fuel >= 63 -> 2 ^ Z.of_nat k <= 2 ^ 63 ->
  2 ^ (Z.of_nat k - 1) < count ->
  exists j, cnt_loop fuel (2 ^ Z.of_nat k) count = Ok (2 ^ Z.of_nat j) /\ (0 < j)%nat /\
    2 ^ (Z.of_nat j - 1) < count <= 2 ^ Z.of_nat j.
Proof.
  induction fuel as [| fuel IH]; intros k Hc Hk Hf Hle Hlt; cbn [cnt_loop].
  - assert (2 ^ 63 <= 2 ^ Z.of_nat k) by (apply Z.pow_le_mono_r; lia).
    destruct (Z.ltb_spec (2 ^ Z.of_nat k) count); [lia |]. exists k. split; [done |]. lia.
  - destruct (Z.ltb_spec (2 ^ Z.of_nat k) count) as [Hl |].
    + assert (Ew : 2 ^ Z.of_nat k <<! 1 = 2 ^ Z.of_nat (S k)).
      { rewrite Z.shiftl_mul_pow2 by lia. rewrite u64_small by lia.
        rewrite Nat2Z.inj_succ, Z.pow_succ_r by lia. lia. }
      rewrite Ew. assert (Z.of_nat k < 63).
      { apply (Z.pow_lt_mono_r_iff 2); lia. }
      apply IH; [done | lia | lia | apply Z.pow_le_mono_r; lia |].
      replace (Z.of_nat (S k) - 1) with (Z.of_nat k) by lia. done.
    + exists k. split; [done |]. lia.
Qed.

(** The count is the greatest power of two below [count]. *)
Lemma tree_hash_cnt_spec count :
  3 <= count <= 2 ^ 63 ->
  exists k, tree_hash_cnt count = Ok (2 ^ Z.of_nat k) /\ (0 < k)%nat /\ 2 ^ Z.of_nat k < count <= 2 * 2 ^ Z.of_nat k.
Proof.
  intros Hc. destruct (cnt_loop_spec count 64 1) as (j & E & Hj & H); [lia | lia | lia | done | cbn; lia |].
  unfold tree_hash_cnt. change (2 ^ Z.of_nat 1) with 2 in E. rewrite E. simpl_bind.
  exists (j - 1)%nat. replace (Z.of_nat (j - 1)) with (Z.of_nat j - 1) by lia.
  assert (E2 : 2 * 2 ^ (Z.of_nat j - 1) = 2 ^ Z.of_nat j) by (rewrite <- Z.pow_succ_r by lia; f_equal; lia).
  split; [| split; [| lia]].
  - rewrite shiftr_div by lia. f_equal. change (2 ^ 1) with 2. rewrite <- E2, Z.mul_comm. by apply Z.div_mul.
  - destruct (decide (j = 1)%nat) as [-> |]; [cbn in H; lia | lia].
Qed.

Section Refinement.
Variable cn_fast_hash : list Z -> hash.
Local Abbreviation pairs := (pairs cn_fast_hash).
Local Abbreviation merkle := (merkle cn_fast_hash).

(** ** The loops *)

Lemma pairs_app l1 : forall n l2, length l1 = (2 * n)%nat -> pairs (l1 ++ l2) = pairs l1 ++ pairs l2.
Proof.
  induction l1 as [l1 IH] using (induction_ltof1 _ length). unfold ltof in IH.
  intros n l2 Hn. destruct l1 as [| a [| b l1]]; [done | cbn in Hn; lia |].
  cbn. f_equal. apply (IH l1 ltac:(cbn; lia) (n - 1)%nat). cbn in Hn. lia.
Qed.

Lemma pairs_length n : forall l, length l = (2 * n)%nat -> length (pairs l) = n.
Proof.
  induction n as [| n IH]; intros l Hl; [by destruct l |].
  destruct l as [| a [| b l]]; cbn in Hl |- *; [lia | lia |]. f_equal. apply IH. lia.
Qed.

Lemma first_level_spec n : forall i j hashes ints A R,
  ints = A ++ R -> length A = j -> length R = n -> (i + 2 * n = length hashes)%nat ->
  first_level cn_fast_hash n i j hashes ints = Ok (A ++ pairs (drop i hashes)).
Proof.
  induction n as [| n IH]; intros i j hashes ints A R E HA HR Hi; cbn [first_level].
  { rewrite drop_ge by lia. destruct R; [| done]. by rewrite E. }
  destruct (lookup_lt_is_Some_2 hashes i) as [a Ha]; [lia |].
  destruct (lookup_lt_is_Some_2 hashes (S i)) as [b Hb]; [lia |].
  rewrite Ha, Hb. simpl_bind.
  destruct R as [| r R]; [done |]. rewrite (drop_S _ _ _ Ha), (drop_S _ _ _ Hb).
  erewrite (IH _ _ _ _ (A ++ [cn_fast_hash (a ++ b)]) R); [| | | cbn in HR; lia | lia].
  - replace (i + 2)%nat with (S (S i)) by lia. by rewrite <- app_assoc.
  - rewrite E, insert_app_r_alt by lia. replace (j - length A)%nat with O by lia. by rewrite <- app_assoc.
  - rewrite length_app, HA. done.
Qed.

Lemma fold_level_spec n : forall i j A B l,
  length A = j -> (length A + length B = i)%nat -> i = (2 * j)%nat -> (2 * n <= length l)%nat ->
  exists R, fold_level cn_fast_hash n i j (A ++ B ++ l) = Ok (A ++ pairs (take (2 * n) l) ++ R)
    /\ length (pairs (take (2 * n) l) ++ R) = length (B ++ l).
Proof.
  induction n as [| n IH]; intros i j A B l HA HB Hi Hl; cbn [fold_level].
  { exists (B ++ l). done. }
  destruct l as [| a [| b l]]; cbn [length] in Hl; [lia | lia |].
  assert (Ea : (A ++ B ++ a :: b :: l) !! i = Some a).
  { rewrite app_assoc. apply list_lookup_middle. rewrite length_app. lia. }
  assert (Eb : (A ++ B ++ a :: b :: l) !! S i = Some b).
  { rewrite (cons_middle a B), !app_assoc. apply list_lookup_middle. rewrite !length_app. cbn. lia. }
  rewrite Ea, Eb. simpl_bind.
  rewrite insert_app_r_alt by lia. replace (j - length A)%nat with O by lia.
  set (h := cn_fast_hash (a ++ b)).
  assert (Ei : exists B', <[O := h]> (B ++ a :: b :: l) = h :: B' ++ l /\ length B' = S (length B)).
  { destruct B as [| x B]; cbn; [by exists [b] |]. exists (B ++ [a; b]). rewrite <- app_assoc.
    split; [done |]. rewrite length_app. cbn. lia. }
  destruct Ei as (B' & -> & HB').
  destruct (IH (i + 2)%nat (j + 1)%nat (A ++ [h]) B' l) as (R & E & Hlen);
    [rewrite length_app; cbn; lia | rewrite length_app; cbn; lia | lia | lia |].
  exists R. replace (2 * S n)%nat with (S (S (2 * n))) by lia. cbn [take TreeHash.pairs]. fold h.
  rewrite <- app_assoc in E. cbn [app] in E. rewrite E, <- app_assoc. split; [done |].
  rewrite !length_app in Hlen |- *. cbn [length]. lia.
Qed.

(** ** The tree *)

Lemma merkle_pairs k : forall l, length l = (2 ^ S k)%nat -> merkle (S k) l = merkle k (pairs l).
Proof.
  induction k as [| k IH]; intros l Hl.
  { destruct l as [| a [| b [| c l]]]; cbn in Hl; try lia. done. }
  change (merkle (S (S k)) l) with
    (cn_fast_hash (merkle (S k) (take (2 ^ S k) l) ++ merkle (S k) (drop (2 ^ S k) l))).
  assert (Hp : (2 ^ S k = 2 * 2 ^ k)%nat) by (cbn; lia).
  assert (Hp2 : (2 ^ S (S k) = 2 * 2 ^ S k)%nat) by (cbn; lia). rewrite Hp2 in Hl.
  rewrite !IH by (rewrite ?length_take, ?length_drop; lia).
  change (merkle (S k) (pairs l)) with
    (cn_fast_hash (merkle k (take (2 ^ k) (pairs l)) ++ merkle k (drop (2 ^ k) (pairs l)))).
  rewrite <- (take_drop (2 ^ S k) l) at 3 4.
  rewrite (pairs_app (take (2 ^ S k) l) (2 ^ k)) by (rewrite length_take; lia).
  rewrite take_app_length', drop_app_length'; [done | |];
    (symmetry; apply pairs_length; rewrite length_take; lia).
Qed.

Lemma fold_levels_spec k : forall fuel ints,
  (k <= fuel)%nat -> (2 ^ S k <= length ints)%nat ->
  exists a b R, fold_levels cn_fast_hash fuel (2 ^ Z.of_nat (S k)) ints = Ok (a :: b :: R)
    /\ cn_fast_hash (a ++ b) = merkle (S k) (take (2 ^ S k) ints).
Proof.
  induction k as [| k IH]; intros fuel ints Hf Hl.
  { destruct ints as [| a [| b ints]]; cbn in Hl; [lia | lia |]. exists a, b, ints.
    split; [by destruct fuel | done]. }
  destruct fuel as [| fuel]; [lia |]. cbn [fold_levels].
  assert (Hz : 2 ^ Z.of_nat (S (S k)) = 2 * 2 ^ Z.of_nat (S k)).
  { rewrite (Nat2Z.inj_succ (S k)), Z.pow_succ_r by lia. done. }
  assert (H2 : 2 <= 2 ^ Z.of_nat (S k)) by (apply (Z.pow_le_mono_r 2 1); lia).
  rewrite (proj2 (Z.ltb_lt _ _)) by lia. rewrite Hz, shiftr_div by lia. change (2 ^ 1) with 2.
  rewrite (Z.mul_comm 2), Z.div_mul by done.
  assert (En : Z.to_nat (2 ^ Z.of_nat (S k)) = (2 ^ S k)%nat) by
    (apply Nat2Z.inj; rewrite Z2Nat.id, Nat2Z.inj_pow by lia; done).
  rewrite En. assert (Hp : (2 ^ S (S k) = 2 * 2 ^ S k)%nat) by (cbn; lia). rewrite Hp in *.
  destruct (fold_level_spec (2 ^ S k) 0 0 [] [] ints) as (R & E & Hlen); [done | done | done | lia |].
  cbn [app] in E, Hlen. rewrite E. simpl_bind.
  assert (Hpl : length (pairs (take (2 * 2 ^ S k) ints)) = (2 ^ S k)%nat)
    by (apply pairs_length; rewrite length_take; lia).
  destruct (IH fuel (pairs (take (2 * 2 ^ S k) ints) ++ R)) as (a & b & R' & E' & Hroot);
    [lia | rewrite length_app; lia |].
  exists a, b, R'. split; [done |]. rewrite Hroot, take_app_length' by done.
  symmetry. apply merkle_pairs. rewrite length_take. lia.
Qed.

(** The depth of the tree for [n >= 2] hashes. *)
Definition depth (n k : nat) : Prop := (2 ^ k < n <= 2 * 2 ^ k)%nat.

Lemma leaves_length k hashes :
  depth (length hashes) k -> length (leaves cn_fast_hash k hashes) = (2 ^ k)%nat.
Proof.
  unfold depth, leaves. intros H. rewrite length_app, length_take.
  rewrite (pairs_length (length hashes - 2 ^ k)) by (rewrite length_drop; lia). lia.
Qed.

Lemma tree_hash_spec hashes :
  (2 <= length hashes)%nat -> zlen hashes <= 2 ^ 28 ->
  exists k, depth (length hashes) k
    /\ tree_hash cn_fast_hash hashes = Ok (merkle k (leaves cn_fast_hash k hashes)).
Proof.
  intros H2 Hmax. destruct hashes as [| a [| b [| c hashes]]]; [cbn in H2; lia | cbn in H2; lia | |].
  { exists O. split; [unfold depth; cbn; lia | done]. }
  remember (a :: b :: c :: hashes) as hs eqn:Ehs.
  assert (H3 : 3 <= zlen hs) by (rewrite Ehs; unfold zlen; cbn; lia).
  destruct (tree_hash_cnt_spec (zlen hs)) as (k & Ecnt & Hk & Hkr); [lia |].
  assert (En : Z.of_nat (2 ^ k) = 2 ^ Z.of_nat k) by (by rewrite Nat2Z.inj_pow).
  assert (Hd : depth (length hs) k) by (unfold depth, zlen in *; lia).
  exists k. split; [done |]. unfold tree_hash. rewrite Ehs. cbv iota beta. rewrite <- Ehs.
  rewrite Ecnt. simpl_bind. rewrite <- En, Nat2Z.id.
  replace (Z.to_nat (2 * Z.of_nat (2 ^ k) - zlen hs)) with (2 * 2 ^ k - length hs)%nat by (unfold zlen; lia).
  set (kept := (2 * 2 ^ k - length hs)%nat). unfold depth in Hd.
  erewrite (first_level_spec (2 ^ k - kept) kept kept hs _ (take kept hs) _ eq_refl);
    [| rewrite length_take; lia | apply length_replicate | lia].
  simpl_bind. change (take kept hs ++ pairs (drop kept hs)) with (leaves cn_fast_hash k hs). rewrite En.
  pose proof (leaves_length k hs Hd) as Hl. destruct k as [| k]; [lia |].
  destruct (fold_levels_spec k 64 (leaves cn_fast_hash (S k) hs)) as (x & y & R & E & Hroot); [| lia |].
  { assert (Z.of_nat (S k) < 29); [| lia]. apply (Z.pow_lt_mono_r_iff 2); lia. }
  rewrite E. cbn [mbind outcome_bind at_or_undef lookup list_lookup]. rewrite Hroot, take_ge by lia. done.
Qed.

(** ** Binding *)

(** The strings hashed for consecutive pairs, for a perfect tree, and for a list
    of any length. *)
Fixpoint pair_inputs (l : list hash) : list (list Z) :=
  match l with
  | a :: b :: l => (a ++ b) :: pair_inputs l
  | _ => []
  end.

Fixpoint merkle_inputs (k : nat) (l : list hash) : list (list Z) :=
  match k with
  | O => []
  | S k => pair_inputs l ++ merkle_inputs k (pairs l)
  end.

Definition tree_inputs (l : list hash) : list (list Z) :=
  let k := Nat.log2 (length l - 1) in
  pair_inputs (drop (2 * 2 ^ k - length l) l) ++ merkle_inputs k (leaves cn_fast_hash k l).

Local Abbreviation collide := (collide cn_fast_hash).

Context `{!FastHash cn_fast_hash}.

Definition hash_sized (l : list hash) : Prop := Forall (fun h => length h = HASH_SIZE) l.

Lemma pairs_sized l : hash_sized (pairs l).
Proof.
  induction l as [l IH] using (induction_ltof1 _ length). unfold ltof in IH.
  destruct l as [| a [| b l]]; [constructor.. |]. constructor; [apply fast_hash_size |]. apply IH. cbn. lia.
Qed.

Lemma pairs_inj n : forall l l',
  length l = (2 * n)%nat -> length l' = (2 * n)%nat -> hash_sized l -> hash_sized l' ->
  pairs l = pairs l' -> l = l' \/ collide (pair_inputs l) (pair_inputs l').
Proof.
  induction n as [| n IH]; intros l l' Hl Hl' Hs Hs' E; [left; by destruct l, l' |].
  destruct l as [| a [| b l]], l' as [| a' [| b' l']]; cbn [length] in Hl, Hl'; try lia.
  cbn in E. injection E as Eh E. unfold hash_sized in *. rewrite !Forall_cons in Hs, Hs'.
  destruct Hs as (Ha & Hb & Hs), Hs' as (Ha' & Hb' & Hs'). cbn [pair_inputs].
  apply (hash_or_collide _ _ _ ((a ++ b) :: pair_inputs l) ((a' ++ b') :: pair_inputs l')) in Eh as [Eh | ?];
    [| by right | by left | by left].
  apply app_inj_1 in Eh as [-> ->]; [| congruence].
  destruct (IH l l') as [-> | ?]; [lia | lia | done.. | by left | or_collide].
Qed.

Lemma merkle_inj k : forall l l',
  length l = (2 ^ k)%nat -> length l' = (2 ^ k)%nat -> hash_sized l -> hash_sized l' ->
  merkle k l = merkle k l' -> l = l' \/ collide (merkle_inputs k l) (merkle_inputs k l').
Proof.
  induction k as [| k IH]; intros l l' Hl Hl' Hs Hs' E.
  { destruct l as [| a [| ? ?]], l' as [| a' [| ? ?]]; cbn in Hl, Hl'; try lia. cbn in E. left. by rewrite E. }
  assert (Hp : (2 ^ S k = 2 * 2 ^ k)%nat) by (cbn; lia).
  rewrite !merkle_pairs in E by done. cbn [merkle_inputs].
  destruct (IH (pairs l) (pairs l')) as [Ep | ?]; [apply pairs_length; lia | apply pairs_length; lia | apply pairs_sized | apply pairs_sized | done | | or_collide].
  destruct (pairs_inj (2 ^ k) l l') as [? | ?]; [lia | lia | done.. | by left | or_collide].
Qed.

Lemma depth_log2 n k : depth n k -> Nat.log2 (n - 1) = k.
Proof. unfold depth. intros H. apply Nat.log2_unique; [lia |]. cbn. lia. Qed.

Lemma leaves_sized k l : hash_sized l -> hash_sized (leaves cn_fast_hash k l).
Proof. intros. apply Forall_app. split; [by apply Forall_take | apply pairs_sized]. Qed.

Lemma tree_hash_inj l l' r :
  (2 <= length l)%nat -> zlen l <= 2 ^ 28 -> length l = length l' -> hash_sized l -> hash_sized l' ->
  tree_hash cn_fast_hash l = Ok r -> tree_hash cn_fast_hash l' = Ok r ->
  l = l' \/ collide (tree_inputs l) (tree_inputs l').
Proof.
  intros H2 Hmax Hlen Hs Hs' E E'.
  destruct (tree_hash_spec l H2 Hmax) as (k & Hd & Ek).
  destruct (tree_hash_spec l') as (k' & Hd' & Ek'); [lia | unfold zlen in *; lia |].
  unfold tree_inputs. rewrite <- Hlen in Hd' |- *. rewrite (depth_log2 _ _ Hd).
  assert (k = k') as <- by (by rewrite <- (depth_log2 _ _ Hd), <- (depth_log2 _ _ Hd')).
  rewrite E in Ek. rewrite E' in Ek'. injection Ek as Ek. injection Ek' as Ek'. rewrite Ek in Ek'.
  destruct (merkle_inj k (leaves cn_fast_hash k l) (leaves cn_fast_hash k l')) as [El | ?];
    [by apply leaves_length | apply leaves_length; by rewrite <- Hlen | by apply leaves_sized | by apply leaves_sized | done | | or_collide].
  unfold leaves, depth in El, Hd. rewrite <- Hlen in El. apply app_inj_1 in El as [Et Ed];
    [| rewrite !length_take; lia].
  destruct (pairs_inj (length l - 2 ^ k) (drop (2 * 2 ^ k - length l) l) (drop (2 * 2 ^ k - length l) l'))
    as [Edrop | ?]; [rewrite length_drop; lia | rewrite length_drop; lia | by apply Forall_drop
    | by apply Forall_drop | exact Ed | | or_collide].
  left. rewrite <- (take_drop (2 * 2 ^ k - length l) l), <- (take_drop (2 * 2 ^ k - length l) l').
  by rewrite Et, Edrop.
Qed.

(** The root of two to 2^28 hashes is the root of the perfect binary tree
    whose [2^k] leaves are the first hashes and the hashes of the remaining
    pairs, [2^k] being the greatest power of two below their number; in
    particular the in-place loops never overwrite an entry they still need. *)
Theorem tree_hash_merkle hashes :
  (2 <= length hashes)%nat -> zlen hashes <= 2 ^ 28 ->
  exists k, (2 ^ k < length hashes <= 2 * 2 ^ k)%nat
    /\ tree_hash cn_fast_hash hashes = Ok (merkle k (leaves cn_fast_hash k hashes)).
Proof. apply tree_hash_spec. Qed.

(** C29: two different lists of the same number of 32-byte hashes with the same
    root yield a collision between the strings that the two computations of the
    root hash. *)
Theorem tree_hash_binding l l' r :
  (2 <= length l)%nat -> zlen l <= 2 ^ 28 -> length l = length l' -> hash_sized l -> hash_sized l' ->
  tree_hash cn_fast_hash l = Ok r -> tree_hash cn_fast_hash l' = Ok r ->
  l = l' \/ collide (tree_inputs l) (tree_inputs l').
Proof. apply tree_hash_inj. Qed.
End Refinement.

(** ** Witnesses *)

Definition five_hashes : list hash := map (fun i => replicate 32 (Z.of_nat i)) (seq 0 5).

Lemma tree_hash_merkle_witness :
  exists k, (2 ^ k < 5 <= 2 * 2 ^ k)%nat
    /\ tree_hash cn_fast_hash five_hashes = Ok (merkle cn_fast_hash k (leaves cn_fast_hash k five_hashes)).
Proof. apply (tree_hash_merkle cn_fast_hash five_hashes); by_decide. Defined.

Lemma tree_hash_binding_witness :
  exists r, tree_hash cn_fast_hash five_hashes = Ok r /\ (five_hashes = five_hashes \/
    collide cn_fast_hash (tree_inputs cn_fast_hash five_hashes) (tree_inputs cn_fast_hash five_hashes)).
Proof.
  destruct (tree_hash cn_fast_hash five_hashes) as [r | |] eqn:E; [| vm_compute in E; discriminate E ..].
  exists r. split; [reflexivity |].
  apply (tree_hash_binding cn_fast_hash five_hashes five_hashes r);
    [by_decide | by_decide | reflexivity | by_decide | by_decide | exact E | exact E].
Defined.
