(* ===== verification/Archive.v ===== *)
(** * The binary archive: [src/serialization]

    [binary_archive<false>] reads from a stream, [binary_archive<true>] writes
    to one, and the serialisation macros run the fields of an object through
    either. A reader is a function from the bytes left in the stream to the
    value and the bytes that remain; [None] stands for a stream that is not
    good any more or a serializer that returned false. Both end in the same
    refusal, because nothing in the archive clears a failed stream and every
    top-level entry tests [good]. A writer is the bytes written so far and
    whether the serializer returned true: callers such as [block_to_blob] keep
    the bytes of a failed run.

    The second half is what the formats built on the archive use: [codec] says
    that a reader inverts a writer on the values that satisfy a predicate, and
    [strict] that the reader accepts no other bytes. Varints make the
    difference: one cut off by the end of the stream is read as if it were
    complete, so a reader is canonical only up to the end of its input. *)
From S2P Require Import Prelude Varint.

Open Scope Z_scope.

Definition parser (A : Type) : Type := list Z -> option (A * list Z).

#[export] Instance parser_ret : MRet parser := fun A a l => Some (a, l).
#[export] Instance parser_bind : MBind parser := fun A B f p l =>
  match p l with Some (a, l) => f a l | None => None end.

Definition writer : Type := list Z * bool.

Definition w_done : writer := ([], true).

Definition w_then (w1 w2 : writer) : writer := if w1.2 then (w1.1 ++ w2.1, w2.2) else w1.

Declare Scope archive_scope.
Delimit Scope archive_scope with archive.
Notation "w1 ⋙ w2" := (w_then w1 w2) (at level 60, right associativity) : archive_scope.
Open Scope archive_scope.

(** A serializer that returns false, and a test in the middle of one. *)
Definition r_fail {A} : parser A := fun _ => None.
Definition r_check (c : bool) : parser unit := fun l => if c then Some (tt, l) else None.
Definition w_check (c : bool) : writer := ([], c).

(** ** Basic values *)

(** Source: src/src/serialization/binary_archive.h:135-138 (binary_archive<false>::serialize_blob) *)
Definition r_blob (len : nat) : parser (list Z) := fun l =>
  if (len <=? length l)%nat then Some (take len l, drop len l) else None.

(** Source: src/src/serialization/binary_archive.h:200-203 (binary_archive<true>::serialize_blob) *)
Definition w_blob (buf : list Z) : writer := (buf, true).

(** Source: src/src/serialization/binary_archive.h:119-133 (binary_archive<false>::serialize_uint) *)
Definition r_uint (width : nat) : parser Z := b ← r_blob width; mret (le_bytes b).

(** Source: src/src/serialization/binary_archive.h:192-198 (binary_archive<true>::serialize_uint) *)
Definition w_uint (width : nat) (v : Z) : writer := (le_encode width v, true).

(** Source: src/src/serialization/binary_archive.h:146-152 (binary_archive<false>::serialize_uvarint) *)
Definition r_varint (bits : Z) : parser Z := fun l =>
  let '(res, v, rest) := read_varint bits l in
  if res <? 0 then None else Some (v, rest).

(** Source: src/src/serialization/binary_archive.h:211-216 (binary_archive<true>::serialize_uvarint) *)
Definition w_varint (v : Z) : writer := (get_varint_data v, true).

(** ** Vectors and strings *)

(** A vector whose size is known, element by element.
    Source: src/src/serialization/serialization.h:300-304 (prepare_custom_vector_serialization) *)
Fixpoint r_array {A} (elem : parser A) (n : nat) : parser (list A) :=
  match n with
  | O => mret []
  | S n => e ← elem; l ← r_array elem n; mret (e :: l)
  end.

Fixpoint w_array {A} (elem : A -> writer) (l : list A) : writer :=
  match l with
  | [] => w_done
  | e :: l => elem e ⋙ w_array elem l
  end.

(** The test that at least [n] bytes are left.
    Source: src/src/serialization/binary_archive.h:170-176 (binary_archive<false>::remaining_bytes) *)
Definition r_left {A} (n : Z) (r : parser A) : parser A := fun l => if zlen l <? n then None else r l.

(** The number of elements comes first, and cannot be more than the bytes left.
    Source: src/src/serialization/container.h:65-94 (do_serialize_container) *)
Definition r_container {A} (elem : parser A) : parser (list A) :=
  cnt ← r_varint 64;
  r_left cnt (r_array elem (Z.to_nat cnt)).

(** Source: src/src/serialization/container.h:96-114 (do_serialize_container) *)
Definition w_container {A} (elem : A -> writer) (v : list A) : writer :=
  w_varint (zlen v) ⋙ w_array elem v.

(** Source: src/src/serialization/string.h:36-52 (do_serialize) *)
Definition r_string : parser (list Z) :=
  size ← r_varint 64;
  r_left size (r_blob (Z.to_nat size)).

(** Source: src/src/serialization/string.h:55-62 (do_serialize) *)
Definition w_string (s : list Z) : writer := w_varint (zlen s) ⋙ w_blob s.

(** ** Entry points *)

(** Source: src/src/serialization/binary_utils.h:40-46 (parse_binary) *)
Definition parse_binary {A} (r : parser A) (blob : list Z) : option A :=
  match r blob with Some (a, []) => Some a | _ => None end.

(** Source: src/src/serialization/serialization.h:371-376 (serialize_noeof) *)
Definition parse_noeof {A} (r : parser A) (blob : list Z) : option A := fst <$> r blob.

(** Source: src/src/serialization/binary_utils.h:50-58 (dump_binary) *)
Definition dump_binary (w : writer) : bool * list Z := (w.2, w.1).

(** * Properties *)

(** ** Readers take a prefix of their input *)

Class Consumes {A} (r : parser A) : Prop :=
  consumes : forall l a rest, r l = Some (a, rest) -> exists used, l = used ++ rest.

#[export] Instance consumes_ret {A} (a : A) : Consumes (mret a).
Proof. intros l a' rest [= <- <-]. by exists []. Qed.

#[export] Instance consumes_fail {A} : Consumes (@r_fail A).
Proof. intros l a rest [=]. Qed.

#[export] Instance consumes_check c : Consumes (r_check c).
Proof. intros l a rest. unfold r_check. destruct c; intros [= <- <-]. by exists []. Qed.

Lemma parser_bind_Some {A B} (k : A -> parser B) (r : parser A) l b rest :
  (x ← r; k x) l = Some (b, rest) <-> exists a mid, r l = Some (a, mid) /\ k a mid = Some (b, rest).
Proof.
  unfold mbind, parser_bind. destruct (r l) as [[a mid] |].
  - split; [by exists a, mid | by intros (? & ? & [= <- <-] & ?)].
  - split; [done | by intros (? & ? & [=] & ?)].
Qed.

#[export] Instance consumes_bind {A B} (k : A -> parser B) (r : parser A) :
  Consumes r -> (forall a, Consumes (k a)) -> Consumes (x ← r; k x).
Proof.
  intros Hr Hk l b rest (a & mid & (u & ->)%Hr & (v & ->)%Hk)%parser_bind_Some.
  exists (u ++ v). by rewrite app_assoc.
Qed.

#[export] Instance consumes_if {A} (c : bool) (r1 r2 : parser A) :
  Consumes r1 -> Consumes r2 -> Consumes (if c then r1 else r2).
Proof. by destruct c. Qed.

#[export] Instance consumes_left {A} n (r : parser A) : Consumes r -> Consumes (r_left n r).
Proof. intros Hr l a rest. unfold r_left. destruct (zlen l <? n); [done | apply Hr]. Qed.

#[export] Instance consumes_blob n : Consumes (r_blob n).
Proof.
  intros l a rest. unfold r_blob. destruct (Nat.leb_spec n (length l)); [| done].
  intros [= <- <-]. exists (take n l). by rewrite take_drop.
Qed.

#[export] Instance consumes_uint n : Consumes (r_uint n).
Proof. unfold r_uint. apply _. Qed.

Lemma read_varint_loop_suffix bits shift read acc l r v rest :
  read_varint_loop bits shift read acc l = (r, v, rest) -> exists used, l = used ++ rest.
Proof.
  revert shift read acc. induction l as [| b l IH]; intros shift read acc E; cbn [read_varint_loop] in E.
  { injection E as _ _ <-. by exists []. }
  repeat case_match; try (injection E as _ _ <-; by exists [b]).
  apply IH in E as (u & ->). by exists (b :: u).
Qed.

#[export] Instance consumes_varint bits : Consumes (r_varint bits).
Proof.
  intros l a rest. unfold r_varint. destruct (read_varint bits l) as [[res v] rest'] eqn:E.
  destruct (res <? 0); [done |]. intros [= -> ->]. by eapply read_varint_loop_suffix.
Qed.

#[export] Instance consumes_array {A} (elem : parser A) n : Consumes elem -> Consumes (r_array elem n).
Proof. intros He. induction n; cbn [r_array]; apply _. Qed.

#[export] Instance consumes_container {A} (elem : parser A) : Consumes elem -> Consumes (r_container elem).
Proof. intros He. unfold r_container. apply _. Qed.

#[export] Instance consumes_string : Consumes r_string.
Proof. unfold r_string. apply _. Qed.

Lemma consumes_bytes {A} (r : parser A) l a rest : Consumes r -> bytes l -> r l = Some (a, rest) -> bytes rest.
Proof. intros Hr Hl (u & ->)%Hr. by apply bytes_app in Hl as [_ ?]. Qed.

Lemma consumes_nil {A} (r : parser A) a rest : Consumes r -> r [] = Some (a, rest) -> rest = [].
Proof. intros Hr (u & E)%Hr. by destruct u, rest. Qed.

(** ** Codecs *)

Record codec {A} (P : A -> Prop) (w : A -> writer) (r : parser A) : Prop := {
  codec_write : forall a, P a -> (w a).2 = true;
  codec_bytes : forall a, P a -> bytes (w a).1;
  codec_read : forall a rest, P a -> r ((w a).1 ++ rest) = Some (a, rest);
  codec_canon : forall l a rest, bytes l -> r l = Some (a, rest) ->
    (P a /\ l = (w a).1 ++ rest) \/ rest = []
}.
Arguments codec_write {A P w r}.
Arguments codec_bytes {A P w r}.
Arguments codec_read {A P w r}.
Arguments codec_canon {A P w r}.

(** The reader accepts the encoding of a value only. *)
Definition strict {A} (P : A -> Prop) (w : A -> writer) (r : parser A) : Prop :=
  forall l a rest, bytes l -> r l = Some (a, rest) -> P a /\ l = (w a).1 ++ rest.

Lemma w_then_true w1 w2 : w1.2 = true -> (w1 ⋙ w2).1 = w1.1 ++ w2.1 /\ (w1 ⋙ w2).2 = w2.2.
Proof. unfold w_then. by intros ->. Qed.

(** One field [f] of an object, followed by the rest of the object. *)
Lemma codec_field {A B} (f : B -> A) (P : B -> Prop) P1 w1 w2 (r1 : parser A) (k : A -> parser B) :
  (forall b, P b -> P1 (f b)) -> codec P1 w1 r1 -> (forall x, Consumes (k x)) ->
  (forall x, P1 x -> codec (fun b => P b /\ f b = x) w2 (k x)) ->
  codec P (fun b => w1 (f b) ⋙ w2 b) (x ← r1; k x).
Proof.
  intros HP C1 Hk C2. constructor.
  - intros b Hb. rewrite (proj2 (w_then_true _ _ (codec_write C1 _ (HP b Hb)))).
    by apply (codec_write (C2 (f b) (HP b Hb))).
  - intros b Hb. rewrite (proj1 (w_then_true _ _ (codec_write C1 _ (HP b Hb)))).
    apply bytes_app. split; [by apply (codec_bytes C1), HP |]. by apply (codec_bytes (C2 (f b) (HP b Hb))).
  - intros b rest Hb. rewrite (proj1 (w_then_true _ _ (codec_write C1 _ (HP b Hb)))).
    apply parser_bind_Some. exists (f b), ((w2 b).1 ++ rest). rewrite <- app_assoc.
    split; [by apply (codec_read C1), HP |]. by apply (codec_read (C2 (f b) (HP b Hb))).
  - intros l b rest Hl (x & mid & E1 & E2)%parser_bind_Some.
    destruct (codec_canon C1 _ _ _ Hl E1) as [[Hx ->] | ->]; [| right; by eapply consumes_nil].
    apply bytes_app in Hl as [_ Hm].
    destruct (codec_canon (C2 x Hx) _ _ _ Hm E2) as [[[Hb Hf] ->] | ->]; [left | by right].
    split; [done |]. subst x. rewrite (proj1 (w_then_true _ _ (codec_write C1 _ Hx))). by rewrite app_assoc.
Qed.

(** The end of an object: everything has been read. *)
Lemma codec_ret {B} (P : B -> Prop) (b : B) :
  P b -> (forall b', P b' -> b' = b) -> codec P (fun _ => w_done) (mret b).
Proof.
  intros Hb Hu. constructor; [done | constructor | |].
  - by intros b' rest ->%Hu.
  - intros l b' rest _ [= <- <-]. by left.
Qed.

(** A test that reader and writer make. *)
Lemma codec_check {B} (c : B -> bool) (c' : bool) (P : B -> Prop) w2 (k : parser B) :
  (forall b, P b -> c b = true) -> (forall b, P b -> c' = true) -> Consumes k ->
  (c' = true -> codec P w2 k) ->
  codec P (fun b => w_check (c b) ⋙ w2 b) (_ ← r_check c'; k).
Proof.
  intros Hc Hc' Hk C. assert (E : forall b, P b -> (w_check (c b) ⋙ w2 b) = ([] ++ (w2 b).1, (w2 b).2)).
  { intros b Hb. unfold w_check, w_then. cbn. by rewrite (Hc b Hb). }
  constructor.
  - intros b Hb. rewrite (E b Hb). by apply (codec_write (C (Hc' b Hb))).
  - intros b Hb. rewrite (E b Hb). by apply (codec_bytes (C (Hc' b Hb))).
  - intros b rest Hb. rewrite (E b Hb). apply parser_bind_Some. exists tt, ((w2 b).1 ++ rest).
    unfold r_check. rewrite (Hc' b Hb). split; [done |]. by apply (codec_read (C (Hc' b Hb))).
  - intros l b rest Hl (x & mid & E1 & E2)%parser_bind_Some. unfold r_check in E1.
    destruct c' eqn:Ec; [| done]. injection E1 as _ <-.
    destruct (codec_canon (C eq_refl) _ _ _ Hl E2) as [[Hb ->] | ->]; [left | by right].
    split; [done |]. by rewrite (E b Hb).
Qed.

Lemma codec_iff {A} (P Q : A -> Prop) w r :
  (forall a, P a <-> Q a) -> codec P w r -> codec Q w r.
Proof.
  intros H C. constructor.
  - intros a ?%H. by apply (codec_write C).
  - intros a ?%H. by apply (codec_bytes C).
  - intros a rest ?%H. by apply (codec_read C).
  - intros l a rest Hl E. destruct (codec_canon C _ _ _ Hl E) as [[?%H ?] | ?]; auto.
Qed.

(** A writer may be replaced where the values are. *)
Lemma codec_writer {A} (P : A -> Prop) w w' r :
  (forall a, P a -> w a = w' a) -> codec P w r -> codec P w' r.
Proof.
  intros H C. constructor.
  - intros a Ha. rewrite <- H by done. by apply (codec_write C).
  - intros a Ha. rewrite <- H by done. by apply (codec_bytes C).
  - intros a rest Ha. rewrite <- H by done. by apply (codec_read C).
  - intros l a rest Hl E. destruct (codec_canon C _ _ _ Hl E) as [[Ha ->] | ->]; [left | by right].
    by rewrite H.
Qed.

Lemma strict_codec {A} (P : A -> Prop) w r :
  (forall a, P a -> (w a).2 = true) -> (forall a, P a -> bytes (w a).1) ->
  (forall a rest, P a -> r ((w a).1 ++ rest) = Some (a, rest)) -> strict P w r -> codec P w r.
Proof. intros H1 H2 H3 H4. constructor; [done.. |]. intros. left. by apply H4. Qed.

(** ** The basic codecs *)

Definition blob_of (n : nat) (b : list Z) : Prop := bytes b /\ length b = n.

#[export] Instance blob_of_dec n b : Decision (blob_of n b).
Proof. unfold blob_of, bytes. apply _. Defined.

Lemma blob_strict n : strict (blob_of n) w_blob (r_blob n).
Proof.
  intros l a rest Hl. unfold r_blob. destruct (Nat.leb_spec n (length l)); [| done].
  intros [= <- <-]. cbn. rewrite take_drop. split; [| done]. split; [by apply Forall_take |].
  rewrite length_take. lia.
Qed.

Lemma blob_codec n : codec (blob_of n) w_blob (r_blob n).
Proof.
  apply strict_codec; [done | by intros a [? _] | | apply blob_strict].
  intros a rest [_ <-]. unfold r_blob. cbn. rewrite length_app.
  destruct (Nat.leb_spec (length a) (length a + length rest)); [| lia].
  by rewrite take_app_length, drop_app_length.
Qed.

Lemma uint_strict n : strict (in_u (8 * Z.of_nat n)) (w_uint n) (r_uint n).
Proof.
  intros l a rest Hl (b & mid & E & [= <- <-])%parser_bind_Some.
  destruct (blob_strict n _ _ _ Hl E) as [[Hb <-] ->]. cbn. split.
  - pose proof (le_bytes_range b Hb) as Hr. unfold in_u, zlen in *.
    replace (2 ^ (8 * Z.of_nat (length b))) with (256 ^ Z.of_nat (length b)); [lia |].
    change 256 with (2 ^ 8). by rewrite <- Z.pow_mul_r by lia.
  - by rewrite le_encode_value by done.
Qed.

Lemma uint_codec n : codec (in_u (8 * Z.of_nat n)) (w_uint n) (r_uint n).
Proof.
  apply strict_codec; [done | intros; apply le_encode_bytes | | apply uint_strict].
  intros a rest Ha. apply parser_bind_Some. exists (le_encode n a), rest. split.
  - apply (codec_read (blob_codec n)). split; [apply le_encode_bytes | apply le_encode_length].
  - unfold mret, parser_ret. rewrite le_bytes_encode; [done |]. unfold in_u in Ha.
    rewrite Z.pow_mul_r in Ha by lia. exact Ha.
Qed.

Lemma varint_codec bits : 0 < bits <= 64 -> codec (in_u bits) w_varint (r_varint bits).
Proof.
  intros Hb. constructor.
  - done.
  - intros a Ha. apply (varint_decode bits a [] Hb Ha).
  - intros a rest Ha. destruct (varint_decode bits a rest Hb Ha) as (E & _ & Hl).
    unfold r_varint, w_varint. cbn [fst]. rewrite E. destruct (Z.ltb_spec (zlen (get_varint_data a)) 0); [lia | done].
  - intros l a rest Hl. unfold r_varint. destruct (read_varint bits l) as [[res v] rest'] eqn:E.
    destruct (Z.ltb_spec res 0) as [| Hres]; [done |]. intros [= -> ->].
    destruct (varint_result bits l res a rest Hb Hl E Hres) as [[-> Hv] | [-> _]]; [by left | by right].
Qed.

Lemma varint_nonneg bits l v rest : 0 <= bits -> r_varint bits l = Some (v, rest) -> 0 <= v.
Proof.
  intros Hb. unfold r_varint. destruct (read_varint bits l) as [[res v'] rest'] eqn:E.
  destruct (res <? 0); [done |]. intros [= -> ->]. by eapply read_loop_nonneg.
Qed.

(** ** Arrays *)

Definition array_of {A} (P : A -> Prop) (n : nat) (l : list A) : Prop := length l = n /\ Forall P l.

#[export] Instance array_of_dec {A} (P : A -> Prop) n l :
  (forall a, Decision (P a)) -> Decision (array_of P n l).
Proof. unfold array_of. apply _. Defined.

Lemma array_write {A} (P : A -> Prop) w (r : parser A) l :
  codec P w r -> Forall P l ->
  w_array w l = (concat (map (fun a => (w a).1) l), true) /\ bytes (w_array w l).1.
Proof.
  intros C. induction 1 as [| a l Ha _ [IH IHb]]; [split; [done | constructor] |].
  cbn [w_array map concat]. unfold w_then. rewrite (codec_write C a Ha), IH. split; [done |].
  apply bytes_app. split; [by apply (codec_bytes C) |]. by rewrite IH in IHb.
Qed.

Lemma array_codec {A} (P : A -> Prop) w (r : parser A) n :
  Consumes r -> codec P w r -> codec (array_of P n) (w_array w) (r_array r n).
Proof.
  intros Hr C. constructor.
  - intros l [_ Hl]. by rewrite (proj1 (array_write P w r l C Hl)).
  - intros l [_ Hl]. apply (array_write P w r l C Hl).
  - intros l rest [<- Hl]. rewrite (proj1 (array_write P w r l C Hl)). cbn [fst].
    induction Hl as [| a l Ha Hl IH]; [done |]. cbn [length r_array map concat].
    rewrite <- app_assoc. apply parser_bind_Some. eexists _, _. split; [by apply (codec_read C) |].
    apply parser_bind_Some. eexists _, _. by split; [apply IH |].
  - induction n as [| n IH]; intros l v rest Hl; cbn [r_array].
    { intros [= <- <-]. left. by repeat split. }
    intros (a & mid & Ea & (v' & mid' & Ev & [= <- <-])%parser_bind_Some)%parser_bind_Some.
    destruct (codec_canon C _ _ _ Hl Ea) as [[Ha ->] | ->]; [| right; by eapply consumes_nil, Ev; apply _].
    apply bytes_app in Hl as [_ Hm]. destruct (IH _ _ _ Hm Ev) as [[[Hn Hv] ->] | ->]; [left | by right].
    split; [split; [by cbn; rewrite Hn | by constructor] |]. cbn [w_array]. unfold w_then.
    rewrite (codec_write C a Ha). by rewrite app_assoc.
Qed.

Lemma array_strict {A} (P : A -> Prop) w (r : parser A) n :
  (forall a, P a -> (w a).2 = true) -> strict P w r -> strict (array_of P n) (w_array w) (r_array r n).
Proof.
  intros Hw S. induction n as [| n IH]; intros l v rest Hl; cbn [r_array].
  { intros [= <- <-]. by repeat split. }
  intros (a & mid & Ea & (v' & mid' & Ev & [= <- <-])%parser_bind_Some)%parser_bind_Some.
  destruct (S _ _ _ Hl Ea) as [Ha ->]. apply bytes_app in Hl as [_ Hm].
  destruct (IH _ _ _ Hm Ev) as [[Hn Hv] ->].
  split; [split; [by cbn; rewrite Hn | by constructor] |]. cbn [w_array]. unfold w_then.
  rewrite (Hw a Ha). by rewrite app_assoc.
Qed.

(** Elements that take at least one byte each pass the size test. *)
Lemma array_length {A} (P : A -> Prop) w (r : parser A) l :
  codec P w r -> (forall a, P a -> (w a).1 <> []) -> Forall P l -> zlen l <= zlen (w_array w l).1.
Proof.
  intros C Hne Hl. rewrite (proj1 (array_write P w r l C Hl)). cbn [fst].
  induction Hl as [| a l Ha _ IH]; [done |]. cbn [map concat]. rewrite zlen_app, zlen_cons.
  specialize (Hne a Ha). destruct (w a).1 as [| b k]; [done |]. rewrite zlen_cons.
  pose proof (zlen_nonneg k). lia.
Qed.

Lemma left_read {A} n (r : parser A) l x : n <= zlen l -> r l = x -> r_left n r l = x.
Proof. intros Hn <-. unfold r_left. destruct (Z.ltb_spec (zlen l) n); [lia | done]. Qed.

Lemma left_Some {A} n (r : parser A) l x : r_left n r l = Some x -> n <= zlen l /\ r l = Some x.
Proof. unfold r_left. destruct (Z.ltb_spec (zlen l) n); [done | by split]. Qed.

Definition vector_of {A} (P : A -> Prop) (l : list A) : Prop := zlen l < 2 ^ 64 /\ Forall P l.

#[export] Instance vector_of_dec {A} (P : A -> Prop) l :
  (forall a, Decision (P a)) -> Decision (vector_of P l).
Proof. unfold vector_of. apply _. Defined.

Lemma container_codec {A} (P : A -> Prop) w (r : parser A) :
  Consumes r -> codec P w r -> (forall a, P a -> (w a).1 <> []) ->
  codec (vector_of P) (w_container w) (r_container r).
Proof.
  intros Hr C Hne. unfold w_container, r_container.
  apply (codec_field zlen (vector_of P) (in_u 64)).
  - intros b [Hb _]. pose proof (zlen_nonneg b). unfold in_u. lia.
  - apply varint_codec. lia.
  - apply _.
  - intros n Hn. pose proof (array_codec P w r (Z.to_nat n) Hr C) as Ca. unfold in_u in Hn.
    assert (Hlen : forall l, zlen l = n -> array_of P (Z.to_nat n) l <-> Forall P l)
      by (unfold array_of, zlen; intros l Hl; split; [tauto | split; [lia | done]]).
    constructor.
    + intros l [[_ Hl] Hz]. apply (codec_write Ca). by apply Hlen.
    + intros l [[_ Hl] Hz]. apply (codec_bytes Ca). by apply Hlen.
    + intros l rest [[_ Hl] Hz]. apply left_read; [| by apply (codec_read Ca), Hlen].
      pose proof (array_length P w r l C Hne Hl). rewrite zlen_app. pose proof (zlen_nonneg rest). lia.
    + intros l v rest Hb [_ E]%left_Some. destruct (codec_canon Ca _ _ _ Hb E) as [[[Hv Hp] ->] | ->];
        [left | by right]. unfold vector_of, zlen. by repeat split; try lia.
Qed.

Lemma string_codec : codec (vector_of (in_u 8)) w_string r_string.
Proof.
  unfold w_string, r_string. apply (codec_field zlen (vector_of (in_u 8)) (in_u 64)).
  - intros b [Hb _]. pose proof (zlen_nonneg b). unfold in_u. lia.
  - apply varint_codec. lia.
  - apply _.
  - intros n Hn. pose proof (blob_codec (Z.to_nat n)) as Cb. unfold in_u in Hn.
    assert (Hlen : forall l : list Z, zlen l = n -> length l = Z.to_nat n) by (unfold zlen; lia). constructor.
    + done.
    + by intros l [[_ Hl] _].
    + intros l rest [[_ Hl] Hz]. apply left_read; [| apply (codec_read Cb); split; auto].
      cbn [w_blob fst]. rewrite zlen_app. pose proof (zlen_nonneg rest). lia.
    + intros l v rest Hb [_ E]%left_Some. destruct (codec_canon Cb _ _ _ Hb E) as [[[Hv Hp] ->] | ->];
        [left | by right]. unfold vector_of, zlen. by repeat split; try lia.
Qed.

(** ** Strict readers *)

Lemma strict_field {A B} (f : B -> A) (P : B -> Prop) P1 w1 w2 (r1 : parser A) (k : A -> parser B) :
  codec P1 w1 r1 -> (forall x, k x [] = None) ->
  (forall x, P1 x -> strict (fun b => P b /\ f b = x) w2 (k x)) ->
  strict P (fun b => w1 (f b) ⋙ w2 b) (x ← r1; k x).
Proof.
  intros C1 Hk S l b rest Hl (x & mid & E1 & E2)%parser_bind_Some.
  destruct (codec_canon C1 _ _ _ Hl E1) as [[Hx ->] | ->]; [| by rewrite Hk in E2].
  apply bytes_app in Hl as [_ Hm]. destruct (S x Hx _ _ _ Hm E2) as [[Hb <-] ->].
  split; [done |]. rewrite (proj1 (w_then_true _ _ (codec_write C1 _ Hx))). by rewrite app_assoc.
Qed.

Lemma strict_first {A B} (f : B -> A) (P : B -> Prop) P1 w1 w2 (r1 : parser A) (k : A -> parser B) :
  (forall x, P1 x -> (w1 x).2 = true) -> strict P1 w1 r1 ->
  (forall x, P1 x -> strict (fun b => P b /\ f b = x) w2 (k x)) ->
  strict P (fun b => w1 (f b) ⋙ w2 b) (x ← r1; k x).
Proof.
  intros Hw S1 S l b rest Hl (x & mid & E1 & E2)%parser_bind_Some.
  destruct (S1 _ _ _ Hl E1) as [Hx ->].
  apply bytes_app in Hl as [_ Hm]. destruct (S x Hx _ _ _ Hm E2) as [[Hb <-] ->].
  split; [done |]. rewrite (proj1 (w_then_true _ _ (Hw _ Hx))). by rewrite app_assoc.
Qed.

Lemma strict_iff {A} (P Q : A -> Prop) w r : (forall a, P a -> Q a) -> strict P w r -> strict Q w r.
Proof. intros H S l a rest Hl E. destruct (S l a rest Hl E) as [?%H ?]. done. Qed.

(** ** Whole inputs *)

Lemma parse_binary_roundtrip {A} (P : A -> Prop) w (r : parser A) a :
  codec P w r -> P a -> parse_binary r (w a).1 = Some a.
Proof.
  intros C Ha. unfold parse_binary. pose proof (codec_read C a [] Ha) as E.
  rewrite app_nil_r in E. by rewrite E.
Qed.

Lemma parse_binary_strict {A} (P : A -> Prop) w (r : parser A) l a :
  strict P w r -> bytes l -> parse_binary r l = Some a -> P a /\ l = (w a).1.
Proof.
  intros S Hl. unfold parse_binary. destruct (r l) as [[a' [|]] |] eqn:E; try done. intros [= ->].
  destruct (S l a [] Hl E) as [? ->]. by rewrite app_nil_r.
Qed.
