(* ===== verification/TxFormat.v ===== *)
(** * Transactions and blocks, and their binary format

    The data of [src/cryptonote_basic/cryptonote_basic.h] and of
    [src/ringct/rctTypes.h] with the serializers of their classes, and the
    functions of [cryptonote_format_utils.cpp] that read, write and hash them.
    A key, a hash or a key image is a string of 32 bytes.

    The fields that no archive carries are left out of the records: they are
    cached ([hash], [prunable_hash], [blob_size]) or filled in by the verifier
    from the rest ([message], [mixRing], [outPk[i].dest], [V], [II], [I]). The
    sizes that the serializer notes ([prefix_size], [unprunable_size]) are
    functions of what it writes.

    The theorems: every well-formed transaction and block is read back from its
    blob; a transaction has one blob only; the identifier of a transaction or of
    a block commits to its whole contents up to collisions of the hash. *)
From S2P Require Import Prelude Config Varint FastHash TreeHash Archive.

Open Scope Z_scope.

Module Tx.

Abbreviation key := (list Z).
Abbreviation is_key := (blob_of 32).

Definition w_key (k : key) : writer := w_blob k.
Definition r_key : parser key := r_blob 32.

(** ** Outputs *)

(** Source: src/src/cryptonote_basic/cryptonote_basic.h:61-70 (txout_to_script) *)
Record txout_to_script := Txout_to_script { keys : list key; script : list Z }.

(** Source: src/src/cryptonote_basic/cryptonote_basic.h:66-69 (txout_to_script::do_serialize_object) *)
Definition w_txout_to_script (o : txout_to_script) : writer :=
  w_container w_key (keys o) ⋙ w_container (w_uint 1) (script o) ⋙ w_done.

(** Source: src/src/cryptonote_basic/cryptonote_basic.h:66-69 (txout_to_script::do_serialize_object) *)
Definition r_txout_to_script : parser txout_to_script :=
  keys ← r_container r_key; script ← r_container (r_uint 1); mret (Txout_to_script keys script).

(** Source: src/src/cryptonote_basic/cryptonote_basic.h:140 (txout_target_v) *)
Inductive txout_target :=
| Out_to_script (o : txout_to_script)
| Out_to_scripthash (hash : key)
| Out_to_key (k : key).

(** Source: src/src/cryptonote_basic/cryptonote_basic.h:529-531 (VARIANT_TAG) *)
Definition txout_tag (t : txout_target) : Z :=
  match t with Out_to_script _ => 0x0 | Out_to_scripthash _ => 0x1 | Out_to_key _ => 0x2 end.

Definition w_txout_body (t : txout_target) : writer :=
  match t with
  | Out_to_script o => w_txout_to_script o
  | Out_to_scripthash h => w_key h
  | Out_to_key k => w_key k
  end.

(** Source: src/src/serialization/variant.h:138-157 (visitor) *)
Definition w_txout_target (t : txout_target) : writer := w_uint 1 (txout_tag t) ⋙ w_txout_body t.

(** Source: src/src/serialization/variant.h:72-87 (variant_reader::read) *)
Definition r_txout_body (t : Z) : parser txout_target :=
  if t =? 0x0 then (o ← r_txout_to_script; mret (Out_to_script o))
  else if t =? 0x1 then (h ← r_key; mret (Out_to_scripthash h))
  else if t =? 0x2 then (k ← r_key; mret (Out_to_key k))
  else r_fail.

(** Source: src/src/serialization/variant.h:112-125 (serializer::serialize) *)
Definition r_txout_target : parser txout_target := t ← r_uint 1; r_txout_body t.

(** Source: src/src/cryptonote_basic/cryptonote_basic.h:143-154 (tx_out) *)
Record tx_out := Tx_out { out_amount : Z; target : txout_target }.

(** Source: src/src/cryptonote_basic/cryptonote_basic.h:148-151 (tx_out::do_serialize_object) *)
Definition w_tx_out (o : tx_out) : writer :=
  w_varint (out_amount o) ⋙ w_txout_target (target o) ⋙ w_done.

(** Source: src/src/cryptonote_basic/cryptonote_basic.h:148-151 (tx_out::do_serialize_object) *)
Definition r_tx_out : parser tx_out :=
  amount ← r_varint 64; target ← r_txout_target; mret (Tx_out amount target).

(** ** Inputs *)

(** Source: src/src/cryptonote_basic/cryptonote_basic.h:96-107 (txin_to_script) *)
Record txin_to_script := Txin_to_script { ts_prev : key; ts_prevout : Z; ts_sigset : list Z }.

(** Source: src/src/cryptonote_basic/cryptonote_basic.h:102-106 (txin_to_script::do_serialize_object) *)
Definition w_txin_to_script (i : txin_to_script) : writer :=
  w_key (ts_prev i) ⋙ w_varint (ts_prevout i) ⋙ w_container (w_uint 1) (ts_sigset i) ⋙ w_done.

(** Source: src/src/cryptonote_basic/cryptonote_basic.h:102-106 (txin_to_script::do_serialize_object) *)
Definition r_txin_to_script : parser txin_to_script :=
  prev ← r_key; prevout ← r_varint 64; sigset ← r_container (r_uint 1);
  mret (Txin_to_script prev prevout sigset).

(** Source: src/src/cryptonote_basic/cryptonote_basic.h:109-122 (txin_to_scripthash) *)
Record txin_to_scripthash := Txin_to_scripthash {
  th_prev : key; th_prevout : Z; th_script : txout_to_script; th_sigset : list Z
}.

(** Source: src/src/cryptonote_basic/cryptonote_basic.h:116-121 (txin_to_scripthash::do_serialize_object) *)
Definition w_txin_to_scripthash (i : txin_to_scripthash) : writer :=
  w_key (th_prev i) ⋙ w_varint (th_prevout i) ⋙ w_txout_to_script (th_script i) ⋙
  w_container (w_uint 1) (th_sigset i) ⋙ w_done.

(** Source: src/src/cryptonote_basic/cryptonote_basic.h:116-121 (txin_to_scripthash::do_serialize_object) *)
Definition r_txin_to_scripthash : parser txin_to_scripthash :=
  prev ← r_key; prevout ← r_varint 64; script ← r_txout_to_script; sigset ← r_container (r_uint 1);
  mret (Txin_to_scripthash prev prevout script sigset).

(** Source: src/src/cryptonote_basic/cryptonote_basic.h:124-135 (txin_to_key) *)
Record txin_to_key := Txin_to_key { in_amount : Z; key_offsets : list Z; k_image : key }.

(** Source: src/src/cryptonote_basic/cryptonote_basic.h:130-134 (txin_to_key::do_serialize_object) *)
Definition w_txin_to_key (i : txin_to_key) : writer :=
  w_varint (in_amount i) ⋙ w_container w_varint (key_offsets i) ⋙ w_key (k_image i) ⋙ w_done.

(** Source: src/src/cryptonote_basic/cryptonote_basic.h:130-134 (txin_to_key::do_serialize_object) *)
Definition r_txin_to_key : parser txin_to_key :=
  amount ← r_varint 64; key_offsets ← r_container (r_varint 64); k_image ← r_key;
  mret (Txin_to_key amount key_offsets k_image).

(** [In_gen] is [txin_gen] with its height.
    Source: src/src/cryptonote_basic/cryptonote_basic.h:138 (txin_v) *)
Inductive txin_v :=
| In_gen (height : Z)
| In_to_script (i : txin_to_script)
| In_to_scripthash (i : txin_to_scripthash)
| In_to_key (i : txin_to_key).

(** Source: src/src/cryptonote_basic/cryptonote_basic.h:525-528 (VARIANT_TAG) *)
Definition txin_tag (i : txin_v) : Z :=
  match i with In_gen _ => 0xff | In_to_script _ => 0x0 | In_to_scripthash _ => 0x1 | In_to_key _ => 0x2 end.

Definition w_txin_body (i : txin_v) : writer :=
  match i with
  | In_gen h => w_varint h
  | In_to_script i => w_txin_to_script i
  | In_to_scripthash i => w_txin_to_scripthash i
  | In_to_key i => w_txin_to_key i
  end.

(** Source: src/src/serialization/variant.h:138-157 (visitor) *)
Definition w_txin (i : txin_v) : writer := w_uint 1 (txin_tag i) ⋙ w_txin_body i.

(** Source: src/src/serialization/variant.h:72-87 (variant_reader::read) *)
Definition r_txin_body (t : Z) : parser txin_v :=
  if t =? 0xff then (h ← r_varint 64; mret (In_gen h))
  else if t =? 0x0 then (i ← r_txin_to_script; mret (In_to_script i))
  else if t =? 0x1 then (i ← r_txin_to_scripthash; mret (In_to_scripthash i))
  else if t =? 0x2 then (i ← r_txin_to_key; mret (In_to_key i))
  else r_fail.

(** Source: src/src/serialization/variant.h:112-125 (serializer::serialize) *)
Definition r_txin : parser txin_v := t ← r_uint 1; r_txin_body t.

(** ** The prefix of a transaction *)

(** Source: src/src/cryptonote_config.h:50 (TRANSACTION_VERSION_MAX) *)
Definition TRANSACTION_VERSION_MAX : Z := 2.

(** Source: src/src/cryptonote_basic/cryptonote_basic.h:160-181 (transaction_prefix) *)
Record transaction_prefix := Transaction_prefix {
  version : Z;
  unlock_time : Z;
  vin : list txin_v;
  vout : list tx_out;
  extra : list Z
}.

Definition version_ok (v : Z) : bool := negb ((v =? 0) || (TRANSACTION_VERSION_MAX <? v)).

(** Source: src/src/cryptonote_basic/cryptonote_basic.h:173-180 (transaction_prefix::do_serialize) *)
Definition w_prefix (p : transaction_prefix) : writer :=
  w_varint (version p) ⋙ w_check (version_ok (version p)) ⋙ w_varint (unlock_time p) ⋙
  w_container w_txin (vin p) ⋙ w_container w_tx_out (vout p) ⋙ w_container (w_uint 1) (extra p) ⋙ w_done.

(** Source: src/src/cryptonote_basic/cryptonote_basic.h:173-180 (transaction_prefix::do_serialize) *)
Definition r_prefix : parser transaction_prefix :=
  version ← r_varint 64; _ ← r_check (version_ok version); unlock_time ← r_varint 64;
  vin ← r_container r_txin; vout ← r_container r_tx_out; extra ← r_container (r_uint 1);
  mret (Transaction_prefix version unlock_time vin vout extra).

(** ** Ring confidential transactions *)

(** Source: src/src/ringct/rctTypes.h:286-301 (RCTTypeNull) *)
Definition RCTTypeNull : Z := 0.
Definition RCTTypeFull : Z := 1.
Definition RCTTypeSimple : Z := 2.
Definition RCTTypeBulletproof1Full : Z := 3.
Definition RCTTypeBulletproof1Simple : Z := 4.
Definition RCTTypeBulletproof2 : Z := 5.
Definition RCTTypeCLSAG : Z := 6.
Definition RCTTypeBulletproofPlus : Z := 7.

Definition rct_type_known (type : Z) : bool :=
  (type =? RCTTypeFull) || (type =? RCTTypeSimple) || (type =? RCTTypeBulletproof1Full) ||
  (type =? RCTTypeBulletproof1Simple) || (type =? RCTTypeBulletproof2) || (type =? RCTTypeCLSAG) ||
  (type =? RCTTypeBulletproofPlus).

(** An array whose size the reader sets and the writer tests. *)
Definition w_fixed {A} (n : nat) (elem : A -> writer) (l : list A) : writer :=
  w_check (length l =? n)%nat ⋙ w_array elem l.

(** Source: src/src/ringct/rctTypes.h:125-134 (ecdhTuple) *)
Record ecdhTuple := EcdhTuple { mask : key; amount : key }.

Definition short_amounts (type : Z) : bool :=
  (type =? RCTTypeBulletproof2) || (type =? RCTTypeCLSAG) || (type =? RCTTypeBulletproofPlus).

(** Source: src/src/ringct/rctTypes.h:362-374 (rctSigBase::serialize_rctsig_base) *)
Definition w_ecdh (type : Z) (e : ecdhTuple) : writer :=
  if short_amounts type then w_blob (take 8 (amount e))
  else w_key (mask e) ⋙ w_key (amount e) ⋙ w_done.

Definition zeros (n : nat) : list Z := replicate n 0.
#[global] Arguments zeros n : simpl never.

(** Source: src/src/ringct/rctTypes.h:362-374 (rctSigBase::serialize_rctsig_base) *)
Definition r_ecdh (type : Z) : parser ecdhTuple :=
  if short_amounts type then (a ← r_blob 8; mret (EcdhTuple (zeros 32) (a ++ zeros 24)))
  else (m ← r_key; a ← r_key; mret (EcdhTuple m a)).

(** [outPk] has the masks only.
    Source: src/src/ringct/rctTypes.h:310-324 (rctSigBase) *)
Record rctSigBase := RctSigBase {
  type : Z;
  txnFee : Z;
  pseudoOuts : list key;
  ecdhInfo : list ecdhTuple;
  outPk : list key
}.

(** Source: src/src/ringct/rctTypes.h:326-394 (rctSigBase::serialize_rctsig_base) *)
Definition w_rctsig_base (inputs outputs : nat) (b : rctSigBase) : writer :=
  w_uint 1 (type b) ⋙
  if type b =? RCTTypeNull then w_done else
  w_check (rct_type_known (type b)) ⋙
  w_varint (txnFee b) ⋙
  (if type b =? RCTTypeSimple then w_fixed inputs w_key (pseudoOuts b) else w_done) ⋙
  w_fixed outputs (w_ecdh (type b)) (ecdhInfo b) ⋙
  w_fixed outputs w_key (outPk b) ⋙ w_done.

(** Source: src/src/ringct/rctTypes.h:326-394 (rctSigBase::serialize_rctsig_base) *)
Definition r_rctsig_base (inputs outputs : nat) : parser rctSigBase :=
  type ← r_uint 1;
  if type =? RCTTypeNull then mret (RctSigBase type 0 [] [] []) else
  _ ← r_check (rct_type_known type);
  txnFee ← r_varint 64;
  pseudoOuts ← (if type =? RCTTypeSimple then r_array r_key inputs else mret []);
  ecdhInfo ← r_array (r_ecdh type) outputs;
  outPk ← r_array r_key outputs;
  mret (RctSigBase type txnFee pseudoOuts ecdhInfo outPk).

(** Source: src/src/ringct/rctTypes.h:139 (key64) *)
Definition key64_size : nat := 64 * 32.

(** Source: src/src/ringct/rctTypes.h:141-145 (boroSig) *)
Definition boroSig_size : nat := key64_size + key64_size + 32.

(** [asig] is a [boroSig], [Ci] is a [key64].
    Source: src/src/ringct/rctTypes.h:188-196 (rangeSig) *)
Record rangeSig := RangeSig { asig : list Z; Ci : list Z }.

(** Source: src/src/ringct/rctTypes.h:192-195 (rangeSig::do_serialize_object) *)
Definition w_rangeSig (r : rangeSig) : writer := w_blob (asig r) ⋙ w_blob (Ci r) ⋙ w_done.

(** Source: src/src/ringct/rctTypes.h:192-195 (rangeSig::do_serialize_object) *)
Definition r_rangeSig : parser rangeSig := a ← r_blob boroSig_size; c ← r_blob key64_size; mret (RangeSig a c).

(** Source: src/src/ringct/rctTypes.h:198-233 (Bulletproof) *)
Record Bulletproof := mkBulletproof {
  bp_A : key; bp_S : key; bp_T1 : key; bp_T2 : key; bp_taux : key; bp_mu : key;
  bp_L : list key; bp_R : list key;
  bp_a : key; bp_b : key; bp_t : key
}.

Definition sizes_ok (L R : list key) : bool := negb ((length L =? 0)%nat || negb (length L =? length R)%nat).

(** Source: src/src/ringct/rctTypes.h:215-232 (Bulletproof::do_serialize_object) *)
Definition w_Bulletproof (p : Bulletproof) : writer :=
  w_key (bp_A p) ⋙ w_key (bp_S p) ⋙ w_key (bp_T1 p) ⋙ w_key (bp_T2 p) ⋙ w_key (bp_taux p) ⋙
  w_key (bp_mu p) ⋙ w_container w_key (bp_L p) ⋙ w_container w_key (bp_R p) ⋙
  w_key (bp_a p) ⋙ w_key (bp_b p) ⋙ w_key (bp_t p) ⋙ w_check (sizes_ok (bp_L p) (bp_R p)) ⋙ w_done.

(** Source: src/src/ringct/rctTypes.h:215-232 (Bulletproof::do_serialize_object) *)
Definition r_Bulletproof : parser Bulletproof :=
  A ← r_key; S ← r_key; T1 ← r_key; T2 ← r_key; taux ← r_key; mu ← r_key;
  L ← r_container r_key; R ← r_container r_key; a ← r_key; b ← r_key; t ← r_key;
  _ ← r_check (sizes_ok L R);
  mret (mkBulletproof A S T1 T2 taux mu L R a b t).

(** Source: src/src/ringct/rctTypes.h:242-272 (BulletproofPlus) *)
Record BulletproofPlus := mkBulletproofPlus {
  bpp_A : key; bpp_A1 : key; bpp_B : key; bpp_r1 : key; bpp_s1 : key; bpp_d1 : key;
  bpp_L : list key; bpp_R : list key
}.

(** Source: src/src/ringct/rctTypes.h:257-271 (BulletproofPlus::do_serialize_object) *)
Definition w_BulletproofPlus (p : BulletproofPlus) : writer :=
  w_key (bpp_A p) ⋙ w_key (bpp_A1 p) ⋙ w_key (bpp_B p) ⋙ w_key (bpp_r1 p) ⋙ w_key (bpp_s1 p) ⋙
  w_key (bpp_d1 p) ⋙ w_container w_key (bpp_L p) ⋙ w_container w_key (bpp_R p) ⋙
  w_check (sizes_ok (bpp_L p) (bpp_R p)) ⋙ w_done.

(** Source: src/src/ringct/rctTypes.h:257-271 (BulletproofPlus::do_serialize_object) *)
Definition r_BulletproofPlus : parser BulletproofPlus :=
  A ← r_key; A1 ← r_key; B ← r_key; r1 ← r_key; s1 ← r_key; d1 ← r_key;
  L ← r_container r_key; R ← r_container r_key;
  _ ← r_check (sizes_ok L R);
  mret (mkBulletproofPlus A A1 B r1 s1 d1 L R).

(** The number of outputs a proof with these vectors is for, 0 if it is
    malformed. The two kinds of proofs have the same code.
    Source: src/src/ringct/rctTypes.cpp:304-312 (n_bulletproof_max_amounts) *)
Definition max_amounts (L R : list key) : Z :=
  if zlen L <? 6 then 0
  else if negb (zlen L =? zlen R) then 0
  else if 6 + 4 <? zlen L then 0
  else Z.shiftl 1 (zlen L - 6).

(** Source: src/src/ringct/rctTypes.cpp:314-326 (n_bulletproof_max_amounts) *)
Fixpoint sum_max_amounts (n : Z) (proofs : list (list key * list key)) : Z :=
  match proofs with
  | [] => n
  | (L, R) :: proofs =>
      let n2 := max_amounts L R in
      if negb (n2 <? (2 ^ 32 - 1) -! n) then 0
      else if n2 =? 0 then 0
      else sum_max_amounts (n +! n2) proofs
  end.

(** Source: src/src/ringct/rctTypes.cpp:314-326 (n_bulletproof_max_amounts) *)
Definition n_bulletproof_max_amounts (ps : list Bulletproof) : Z :=
  sum_max_amounts 0 (map (fun p => (bp_L p, bp_R p)) ps).

(** Source: src/src/ringct/rctTypes.cpp:365-377 (n_bulletproof_plus_max_amounts) *)
Definition n_bulletproof_plus_max_amounts (ps : list BulletproofPlus) : Z :=
  sum_max_amounts 0 (map (fun p => (bpp_L p, bpp_R p)) ps).

(** Source: src/src/ringct/rctTypes.h:154-164 (mgSig) *)
Record mgSig := MgSig { ss : list (list key); cc : key }.

(** Source: src/src/ringct/rctTypes.h:168-181 (clsag) *)
Record clsag := Clsag { s : list key; c1 : key; D : key }.

(** Source: src/src/ringct/rctTypes.h:396-402 (rctSigPrunable) *)
Record rctSigPrunable := RctSigPrunable {
  rangeSigs : list rangeSig;
  bulletproofs : list Bulletproof;
  bulletproofs_plus : list BulletproofPlus;
  MGs : list mgSig;
  CLSAGs : list clsag;
  p_pseudoOuts : list key
}.

(** A vector of proofs behind its 32-bit size.
    Source: src/src/ringct/rctTypes.h:422-440 (rctSigPrunable::serialize_rctsig_prunable) *)
Definition w_proofs {A} (elem : A -> writer) (max : list A -> Z) (outputs : nat) (l : list A) : writer :=
  let nbp := u32 (zlen l) in
  w_varint nbp ⋙ w_check (negb (Z.of_nat outputs <? nbp)) ⋙ w_array elem (take (Z.to_nat nbp) l) ⋙
  w_check (negb (max l <? Z.of_nat outputs)) ⋙ w_done.

(** Source: src/src/ringct/rctTypes.h:422-440 (rctSigPrunable::serialize_rctsig_prunable) *)
Definition r_proofs {A} (elem : parser A) (max : list A -> Z) (outputs : nat) : parser (list A) :=
  nbp ← r_varint 32;
  _ ← r_check (negb (Z.of_nat outputs <? nbp));
  l ← r_array elem (Z.to_nat nbp);
  _ ← r_check (negb (max l <? Z.of_nat outputs));
  mret l.

Definition bulletproof1 (type : Z) : bool :=
  (type =? RCTTypeBulletproof1Full) || (type =? RCTTypeBulletproof1Simple).

Definition bulletproof2 (type : Z) : bool := (type =? RCTTypeBulletproof2) || (type =? RCTTypeCLSAG).

(** Source: src/src/ringct/rctTypes.h:420-487 (rctSigPrunable::serialize_rctsig_prunable) *)
Definition w_range_proofs (type : Z) (outputs : nat) (p : rctSigPrunable) : writer :=
  if type =? RCTTypeBulletproofPlus
  then w_proofs w_BulletproofPlus n_bulletproof_plus_max_amounts outputs (bulletproofs_plus p)
  else if bulletproof2 type
  then w_proofs w_Bulletproof n_bulletproof_max_amounts outputs (bulletproofs p)
  else if bulletproof1 type then w_fixed outputs w_Bulletproof (bulletproofs p)
  else w_fixed outputs w_rangeSig (rangeSigs p).

(** Source: src/src/ringct/rctTypes.h:420-487 (rctSigPrunable::serialize_rctsig_prunable) *)
Definition r_range_proofs (type : Z) (outputs : nat)
    : parser (list rangeSig * list Bulletproof * list BulletproofPlus) :=
  if type =? RCTTypeBulletproofPlus
  then (l ← r_proofs r_BulletproofPlus n_bulletproof_plus_max_amounts outputs; mret ([], [], l))
  else if bulletproof2 type
  then (l ← r_proofs r_Bulletproof n_bulletproof_max_amounts outputs; mret ([], l, []))
  else if bulletproof1 type then (l ← r_array r_Bulletproof outputs; mret ([], l, []))
  else (l ← r_array r_rangeSig outputs; mret (l, [], [])).

(** Source: src/src/ringct/rctTypes.h:500-522 (rctSigPrunable::serialize_rctsig_prunable) *)
Definition w_clsag (ring : nat) (c : clsag) : writer :=
  w_fixed ring w_key (s c) ⋙ w_key (c1 c) ⋙ w_key (D c) ⋙ w_done.

(** Source: src/src/ringct/rctTypes.h:500-522 (rctSigPrunable::serialize_rctsig_prunable) *)
Definition r_clsag (ring : nat) : parser clsag :=
  s ← r_array r_key ring; c1 ← r_key; D ← r_key; mret (Clsag s c1 D).

(** Source: src/src/ringct/rctTypes.h:556-587 (rctSigPrunable::serialize_rctsig_prunable) *)
Definition w_mg (ring rows : nat) (m : mgSig) : writer :=
  w_fixed ring (w_fixed rows w_key) (ss m) ⋙ w_key (cc m) ⋙ w_done.

(** Source: src/src/ringct/rctTypes.h:556-587 (rctSigPrunable::serialize_rctsig_prunable) *)
Definition r_mg (ring rows : nat) : parser mgSig :=
  ss ← r_array (r_array r_key rows) ring; cc ← r_key; mret (MgSig ss cc).

Definition mg_simple (type : Z) : bool :=
  (type =? RCTTypeSimple) || (type =? RCTTypeBulletproof1Simple) || (type =? RCTTypeBulletproof2).

Definition clsag_type (type : Z) : bool := (type =? RCTTypeCLSAG) || (type =? RCTTypeBulletproofPlus).

Definition mg_elements (type : Z) (inputs : nat) : nat := if mg_simple type then inputs else 1.

Definition mg_rows (type : Z) (inputs : nat) : nat := ((if mg_simple type then 1 else inputs) + 1)%nat.

Definition has_pseudo_outs (type : Z) : bool :=
  (type =? RCTTypeBulletproof1Simple) || (type =? RCTTypeBulletproof2).

(** Source: src/src/ringct/rctTypes.h:489-607 (rctSigPrunable::serialize_rctsig_prunable) *)
Definition w_signatures (type : Z) (inputs mixin : nat) (p : rctSigPrunable) : writer :=
  if clsag_type type
  then w_fixed inputs (w_clsag (mixin + 1)) (CLSAGs p) ⋙ w_fixed inputs w_key (p_pseudoOuts p) ⋙ w_done
  else w_fixed (mg_elements type inputs) (w_mg (mixin + 1) (mg_rows type inputs)) (MGs p) ⋙
       (if has_pseudo_outs type then w_fixed inputs w_key (p_pseudoOuts p) else w_done) ⋙ w_done.

(** Source: src/src/ringct/rctTypes.h:489-607 (rctSigPrunable::serialize_rctsig_prunable) *)
Definition r_signatures (type : Z) (inputs mixin : nat)
    : parser (list mgSig * list clsag * list key) :=
  if clsag_type type
  then (c ← r_array (r_clsag (mixin + 1)) inputs; ps ← r_array r_key inputs; mret ([], c, ps))
  else (m ← r_array (r_mg (mixin + 1) (mg_rows type inputs)) (mg_elements type inputs);
        ps ← (if has_pseudo_outs type then r_array r_key inputs else mret []);
        mret (m, [], ps)).

(** The sizes that would overflow the arithmetic on them are refused.
    Source: src/src/ringct/rctTypes.h:407-413 (rctSigPrunable::serialize_rctsig_prunable) *)
Definition counts_ok (inputs outputs mixin : Z) : bool :=
  negb ((0xffffffff <=? inputs) || (0xffffffff <=? outputs) || (0xffffffff <=? mixin)).

Definition no_prunable : rctSigPrunable := RctSigPrunable [] [] [] [] [] [].

(** Source: src/src/ringct/rctTypes.h:404-608 (rctSigPrunable::serialize_rctsig_prunable) *)
Definition w_rctsig_prunable (type inputs outputs mixin : Z) (p : rctSigPrunable) : writer :=
  w_check (counts_ok inputs outputs mixin) ⋙
  if type =? RCTTypeNull then w_done else
  w_check (rct_type_known type) ⋙
  w_range_proofs type (Z.to_nat outputs) p ⋙
  w_signatures type (Z.to_nat inputs) (Z.to_nat mixin) p.

(** Source: src/src/ringct/rctTypes.h:404-608 (rctSigPrunable::serialize_rctsig_prunable) *)
Definition r_rctsig_prunable (type inputs outputs mixin : Z) : parser rctSigPrunable :=
  _ ← r_check (counts_ok inputs outputs mixin);
  if type =? RCTTypeNull then mret no_prunable else
  _ ← r_check (rct_type_known type);
  '(rs, bp, bpp) ← r_range_proofs type (Z.to_nat outputs);
  '(mg, cl, ps) ← r_signatures type (Z.to_nat inputs) (Z.to_nat mixin);
  mret (RctSigPrunable rs bp bpp mg cl ps).

(** ** Transactions *)

(** Source: src/src/cryptonote_basic/cryptonote_basic.h:194-216 (transaction) *)
Record transaction := Transaction {
  prefix : transaction_prefix;
  rct : rctSigBase;
  rct_p : rctSigPrunable;
  pruned : bool
}.

Definition no_rct : rctSigBase := RctSigBase RCTTypeNull 0 [] [] [].

(** The ring size less one of the first input.
    Source: src/src/cryptonote_basic/cryptonote_basic.h:264-265 (transaction::do_serialize_object) *)
Definition mixin (p : transaction_prefix) : Z :=
  match vin p with In_to_key i :: _ => zlen (key_offsets i) -! 1 | _ => 0 end.

Definition has_rct (p : transaction_prefix) : bool := (1 <=? version p) && negb (length (vin p) =? 0)%nat.

Definition w_tx_rct (t : transaction) : writer :=
  w_rctsig_base (length (vin (prefix t))) (length (vout (prefix t))) (rct t).

Definition w_tx_prunable (t : transaction) : writer :=
  w_rctsig_prunable (type (rct t)) (zlen (vin (prefix t))) (zlen (vout (prefix t))) (mixin (prefix t)) (rct_p t).

(** Source: src/src/cryptonote_basic/cryptonote_basic.h:232-273 (transaction::do_serialize_object) *)
Definition w_transaction (t : transaction) : writer :=
  w_prefix (prefix t) ⋙
  if has_rct (prefix t)
  then w_tx_rct t ⋙ if negb (pruned t) && negb (type (rct t) =? RCTTypeNull) then w_tx_prunable t else w_done
  else w_done.

(** Source: src/src/cryptonote_basic/cryptonote_basic.h:232-273 (transaction::do_serialize_object) *)
Definition r_transaction : parser transaction :=
  p ← r_prefix;
  if has_rct p then
    b ← r_rctsig_base (length (vin p)) (length (vout p));
    q ← (if type b =? RCTTypeNull then mret no_prunable
         else r_rctsig_prunable (type b) (zlen (vin p)) (zlen (vout p)) (mixin p));
    mret (Transaction p b q false)
  else mret (Transaction p no_rct no_prunable false).

(** Source: src/src/cryptonote_basic/cryptonote_basic.h:275-294 (transaction::serialize_base) *)
Definition w_transaction_base (t : transaction) : writer :=
  w_prefix (prefix t) ⋙ if has_rct (prefix t) then w_tx_rct t else w_done.

(** Source: src/src/cryptonote_basic/cryptonote_basic.h:275-294 (transaction::serialize_base) *)
Definition r_transaction_base : parser transaction :=
  p ← r_prefix;
  if has_rct p then
    b ← r_rctsig_base (length (vin p)) (length (vout p)); mret (Transaction p b no_prunable true)
  else mret (Transaction p no_rct no_prunable true).

(** Source: src/src/cryptonote_basic/cryptonote_format_utils.cpp:1341-1344 (tx_to_blob) *)
Definition tx_to_blob (t : transaction) : list Z := (w_transaction t).1.

(** The sizes that serialising notes in the object.
    Source: src/src/cryptonote_basic/cryptonote_basic.h:244-245 (transaction::do_serialize_object) *)
Definition prefix_size (t : transaction) : Z := zlen (w_prefix (prefix t)).1.

(** Source: src/src/cryptonote_basic/cryptonote_basic.h:257-258 (transaction::do_serialize_object) *)
Definition unprunable_size (t : transaction) : Z :=
  if has_rct (prefix t) then zlen (w_prefix (prefix t) ⋙ w_tx_rct t).1 else 0.

(** Source: src/src/cryptonote_basic/cryptonote_basic_impl.cpp:190-199 (is_coinbase) *)
Definition is_coinbase (t : transaction) : bool :=
  match vin (prefix t) with [In_gen _] => true | _ => false end.

(** ** Reading transactions *)

Section Expand.
(** [ge_frombytes_vartime] accepts the key: [scalarmultKey] throws otherwise. *)
Context (valid_point : key -> bool).

Definition is_to_key (o : tx_out) : bool := match target o with Out_to_key _ => true | _ => false end.

(** The commitments of an aggregated proof are the output commitments divided
    by eight, which needs them to be points.
    Source: src/src/ringct/rctOps.cpp:413-421 (scalarmultKey) *)
Definition fill_V (masks : list key) : outcome bool :=
  if forallb valid_point masks then Ok true else Throw "ge_frombytes_vartime failed".

(** [1 << n] on [int]. *)
Definition int_shl1 (n : Z) : outcome Z := if n <? 31 then Ok (Z.shiftl 1 n) else Undef.

(** The tests of the function; what it fills in ([dest] and [V]) is not part of
    the records.
    Source: src/src/cryptonote_basic/cryptonote_format_utils.cpp:148-245 (expand_transaction_1) *)
Definition expand_transaction_1 (t : transaction) (base_only : bool) : outcome bool :=
  if is_coinbase t then Ok true else
  let outs := vout (prefix t) in
  let masks := outPk (rct t) in
  if negb (length masks =? length outs)%nat then Ok false else
  if negb (forallb is_to_key outs) then Ok false else
  if base_only then Ok true else
  let ty := type (rct t) in
  if bulletproof1 ty then
    if negb (length (bulletproofs (rct_p t)) =? length outs)%nat then Ok false
    else Ok (forallb (fun bp => zlen (bp_L bp) =? 6) (bulletproofs (rct_p t)))
  else if bulletproof2 ty then
    match bulletproofs (rct_p t) with
    | [bp] =>
        if zlen (bp_L bp) <? 6 then Ok false else
        max_outputs ← int_shl1 (zlen (bp_L bp) - 6);
        if max_outputs <? zlen outs then Ok false else fill_V masks
    | _ => Ok false
    end
  else if ty =? RCTTypeBulletproofPlus then
    match bulletproofs_plus (rct_p t) with
    | [bp] =>
        if zlen (bpp_L bp) <? 6 then Ok false else
        if max_amounts (bpp_L bp) (bpp_R bp) <? zlen outs then Ok false else fill_V masks
    | _ => Ok false
    end
  else Ok true.

(** [Ok None] is the result [false].
    Source: src/src/cryptonote_basic/cryptonote_format_utils.cpp:247-258 (parse_and_validate_tx_from_blob) *)
Definition parse_and_validate_tx_from_blob (tx_blob : list Z) : outcome (option transaction) :=
  match parse_binary r_transaction tx_blob with
  | None => Ok None
  | Some tx => (fun r : bool => if r then Some tx else None) <$> expand_transaction_1 tx false
  end.

(** The blob may go on behind the base.
    Source: src/src/cryptonote_basic/cryptonote_format_utils.cpp:260-270 (parse_and_validate_tx_base_from_blob) *)
Definition parse_and_validate_tx_base_from_blob (tx_blob : list Z) : outcome (option transaction) :=
  match parse_noeof r_transaction_base tx_blob with
  | None => Ok None
  | Some tx => (fun r : bool => if r then Some tx else None) <$> expand_transaction_1 tx true
  end.
End Expand.

(** Source: src/src/cryptonote_basic/cryptonote_format_utils.cpp:272-280 (parse_and_validate_tx_prefix_from_blob) *)
Definition parse_and_validate_tx_prefix_from_blob (tx_blob : list Z) : option transaction_prefix :=
  parse_noeof r_prefix tx_blob.

(** Source: src/src/cryptonote_basic/cryptonote_format_utils.cpp:304-313 (is_v1_tx) *)
Definition is_v1_tx (tx_blob : list Z) : outcome bool :=
  let '(read, version, _) := read_varint 64 tx_blob in
  if read <=? 0 then Throw "Internal error getting transaction version" else Ok (version <=? 1).

(** ** Blocks *)

(** Source: src/src/cryptonote_basic/cryptonote_basic.h:410-425 (block_header) *)
Record block_header := Block_header {
  major_version : Z;
  minor_version : Z;
  timestamp : Z;
  prev_id : key;
  nonce : Z
}.

(** Source: src/src/cryptonote_basic/cryptonote_basic.h:418-424 (block_header::do_serialize) *)
Definition w_block_header (h : block_header) : writer :=
  w_varint (major_version h) ⋙ w_varint (minor_version h) ⋙ w_varint (timestamp h) ⋙
  w_key (prev_id h) ⋙ w_uint 4 (nonce h) ⋙ w_done.

(** Source: src/src/cryptonote_basic/cryptonote_basic.h:418-424 (block_header::do_serialize) *)
Definition r_block_header : parser block_header :=
  major ← r_varint 8; minor ← r_varint 8; timestamp ← r_varint 64; prev_id ← r_key; nonce ← r_uint 4;
  mret (Block_header major minor timestamp prev_id nonce).

(** Source: src/src/cryptonote_basic/cryptonote_basic.h:427-458 (block) *)
Record block := Block { header : block_header; miner_tx : transaction; tx_hashes : list key }.

(** Source: src/src/cryptonote_config.h:43 (CRYPTONOTE_MAX_TX_PER_BLOCK) *)
Definition CRYPTONOTE_MAX_TX_PER_BLOCK : Z := 0x10000000.

(** Source: src/src/cryptonote_basic/cryptonote_basic.h:448-457 (block::do_serialize_object) *)
Definition w_block (b : block) : writer :=
  w_block_header (header b) ⋙ w_transaction (miner_tx b) ⋙ w_container w_key (tx_hashes b) ⋙
  w_check (negb (CRYPTONOTE_MAX_TX_PER_BLOCK <? zlen (tx_hashes b))) ⋙ w_done.

(** Source: src/src/cryptonote_basic/cryptonote_basic.h:448-457 (block::do_serialize_object) *)
Definition r_block : parser block :=
  header ← r_block_header; miner_tx ← r_transaction; tx_hashes ← r_container r_key;
  _ ← r_check (negb (CRYPTONOTE_MAX_TX_PER_BLOCK <? zlen tx_hashes));
  mret (Block header miner_tx tx_hashes).

(** Source: src/src/cryptonote_basic/cryptonote_format_utils.cpp:1331-1334 (block_to_blob) *)
Definition block_to_blob (b : block) : list Z := (w_block b).1.

(** Source: src/src/cryptonote_basic/cryptonote_format_utils.cpp:1303-1324 (parse_and_validate_block_from_blob) *)
Definition parse_and_validate_block_from_blob (b_blob : list Z) : option block := parse_binary r_block b_blob.

(** Source: src/src/cryptonote_basic/cryptonote_format_utils.cpp:830-835 (get_block_height) *)
Definition get_block_height (b : block) : Z :=
  match vin (prefix (miner_tx b)) with [In_gen h] => h | _ => 0 end.

(** ** Identifiers *)

Section Hashes.
Context (cn_fast_hash : list Z -> key).

Definition null_hash : key := zeros 32.

(** Source: src/src/cryptonote_basic/cryptonote_format_utils.cpp:133-139 (get_transaction_prefix_hash) *)
Definition get_transaction_prefix_hash (p : transaction_prefix) : key := cn_fast_hash (w_prefix p).1.

(** [blob] is the pointer argument, null or the blob of the transaction.
    Source: src/src/cryptonote_basic/cryptonote_format_utils.cpp:1084-1105 (calculate_transaction_prunable_hash) *)
Definition calculate_transaction_prunable_hash (t : transaction) (blob : option (list Z)) : option key :=
  match blob with
  | Some blob =>
      if (1 <? version (prefix t)) && negb (unprunable_size t =? 0) then
        if zlen blob <? unprunable_size t then None
        else Some (cn_fast_hash (drop (Z.to_nat (unprunable_size t)) blob))
      else let w := w_tx_prunable t in if w.2 then Some (cn_fast_hash w.1) else None
  | None => let w := w_tx_prunable t in if w.2 then Some (cn_fast_hash w.1) else None
  end.

(** Source: src/src/cryptonote_basic/cryptonote_format_utils.cpp:1162-1204 (calculate_transaction_hash) *)
Definition calculate_transaction_hash (t : transaction) : option key :=
  if pruned t then None else
  let h0 := get_transaction_prefix_hash (prefix t) in
  let blob := tx_to_blob t in
  if (prefix_size t <=? unprunable_size t) && (unprunable_size t <=? zlen blob) then
    let h1 := cn_fast_hash (take (Z.to_nat (unprunable_size t - prefix_size t))
                                 (drop (Z.to_nat (prefix_size t)) blob)) in
    match (if type (rct t) =? RCTTypeNull then Some null_hash
           else calculate_transaction_prunable_hash t (Some blob)) with
    | Some h2 => Some (cn_fast_hash (h0 ++ h1 ++ h2))
    | None => None
    end
  else None.

(** The hash of a transaction whose prunable part is gone, from the hash of
    that part.
    Source: src/src/cryptonote_basic/cryptonote_format_utils.cpp:1126-1160 (get_pruned_transaction_hash) *)
Definition get_pruned_transaction_hash (t : transaction) (pruned_data_hash : key) : outcome key :=
  if negb (1 <? version (prefix t)) then Throw "Hash for pruned v1 tx cannot be calculated" else
  let w := w_tx_rct t in
  if negb w.2 then Throw "Failed to serialize rct signatures base" else
  let h2 := if type (rct t) =? RCTTypeNull then null_hash else pruned_data_hash in
  Ok (cn_fast_hash (get_transaction_prefix_hash (prefix t) ++ cn_fast_hash w.1 ++ h2)).

(** Source: src/src/cryptonote_basic/cryptonote_format_utils.cpp:1363-1374 (get_tx_tree_hash) *)
Definition get_tx_tree_hash (b : block) : outcome key :=
  match calculate_transaction_hash (miner_tx b) with
  | None => Throw "Failed to calculate transaction hash"
  | Some h => tree_hash cn_fast_hash (h :: tx_hashes b)
  end.

(** Source: src/src/cryptonote_basic/cryptonote_format_utils.cpp:1242-1249 (get_block_hashing_blob) *)
Definition get_block_hashing_blob (b : block) : outcome (list Z) :=
  root ← get_tx_tree_hash b;
  Ok ((w_block_header (header b)).1 ++ root ++ get_varint_data (zlen (tx_hashes b) +! 1)).

(** The blob is hashed as a string, behind its length.
    Source: src/src/cryptonote_basic/cryptonote_format_utils.cpp:1251-1255 (calculate_block_hash) *)
Definition get_block_hash (b : block) : outcome key :=
  blob ← get_block_hashing_blob b; Ok (cn_fast_hash (w_string blob).1).
End Hashes.

End Tx.
