(* ===== verification/TxCodec.v ===== *)
(** * Transactions and blocks: round trips, canonicity, binding

    The properties of the formats of [TxFormat.v]. For every class there is the
    predicate of the values that the serializer writes, and the proof that the
    reader inverts the writer on them; [codec_field] composes these proofs field
    by field, in the order of the serialisation macros. *)
From S2P Require Import Prelude Config Varint FastHash Keccak TreeHash Archive TxFormat.
Import Tx.

Open Scope Z_scope.

(** One field of an object whose serializer is a codec. *)
Ltac field f C :=
  eapply (codec_field f); [intros ? ?; destruct_and?; naive_solver | apply C | apply _ | intros ? ?].

Ltac field_with f w C :=
  eapply (codec_field f _ _ w); [intros ? ?; destruct_and?; naive_solver | apply C | apply _ | intros ? ?].

(** All fields have been read. *)
Ltac fields_done :=
  apply codec_ret; [cbn; split_and!; done | intros [] ?; destruct_and?; by simplify_eq/=].

Lemma then_nonempty w1 w2 : w1.1 <> [] -> (w1 ⋙ w2).1 <> [].
Proof. unfold w_then. destruct w1 as [[| b l] []]; done. Qed.

Lemma varint_nonempty v : (w_varint v).1 <> [].
Proof.
  pose proof (write_length 9 v) as [H _]. unfold w_varint, get_varint_data. cbn [fst]. intros E. rewrite E in H. done.
Qed.

Lemma key_nonempty k : is_key k -> (w_key k).1 <> [].
Proof. intros [_ Hl] E. cbn in E. by rewrite E in Hl. Qed.

Lemma uint_nonempty n v : n <> O -> (w_uint n v).1 <> [].
Proof. by destruct n. Qed.

#[export] Hint Resolve then_nonempty varint_nonempty key_nonempty uint_nonempty : nerva.

Lemma key_codec : codec is_key w_key r_key.
Proof. apply blob_codec. Qed.

#[export] Instance consumes_key : Consumes r_key.
Proof. unfold r_key. apply _. Qed.

Abbreviation byte_vector := (vector_of (in_u 8)).
Abbreviation key_vector := (vector_of is_key).

Lemma bytes_codec : codec byte_vector (w_container (w_uint 1)) (r_container (r_uint 1)).
Proof. apply container_codec; [apply _ | apply (uint_codec 1) | by intros; apply uint_nonempty]. Qed.

Lemma keys_codec : codec key_vector (w_container w_key) (r_container r_key).
Proof. apply container_codec; [apply _ | apply key_codec | apply key_nonempty]. Qed.

Lemma u64_codec : codec (in_u 64) w_varint (r_varint 64).
Proof. by apply varint_codec. Qed.

Lemma offsets_codec : codec (vector_of (in_u 64)) (w_container w_varint) (r_container (r_varint 64)).
Proof. apply container_codec; [apply _ | apply u64_codec | intros; apply varint_nonempty]. Qed.

(** The alternatives of a variant. *)
Lemma codec_ctor {A B} (f : A -> B) (Q : B -> Prop) P w1 w (r : parser A) :
  codec P w1 r -> (forall a, Q (f a) <-> P a) -> (forall b, Q b -> exists a, b = f a) ->
  (forall a, P a -> w (f a) = w1 a) -> codec Q w (a ← r; mret (f a)).
Proof.
  intros C HQ Hs Hw. constructor.
  - intros b Hb. destruct (Hs b Hb) as [a ->]. apply HQ in Hb. rewrite Hw by done. by apply (codec_write C).
  - intros b Hb. destruct (Hs b Hb) as [a ->]. apply HQ in Hb. rewrite Hw by done. by apply (codec_bytes C).
  - intros b rest Hb. destruct (Hs b Hb) as [a ->]. apply HQ in Hb. rewrite Hw by done. apply parser_bind_Some.
    exists a, rest. split; [by apply (codec_read C) | done].
  - intros l b rest Hl (a & mid & E & [= <- <-])%parser_bind_Some.
    destruct (codec_canon C _ _ _ Hl E) as [[Ha ->] | ->]; [left | by right]. by rewrite Hw, HQ.
Qed.

Ltac ctor C :=
  eapply codec_ctor; [apply C | by split; [intros [? _] | split] | intros [] []; eauto; done | done].

Lemma codec_fail {A} (P : A -> Prop) w : (forall a, ~ P a) -> codec P w r_fail.
Proof. intros H. constructor; try (intros a **; by destruct (H a)). done. Qed.

(** ** Outputs and inputs *)

Definition wf_txout_to_script (o : txout_to_script) : Prop := key_vector (keys o) /\ byte_vector (script o).

#[export] Instance consumes_txout_to_script : Consumes r_txout_to_script.
Proof. unfold r_txout_to_script. apply _. Qed.

Lemma txout_to_script_codec : codec wf_txout_to_script w_txout_to_script r_txout_to_script.
Proof.
  unfold w_txout_to_script, r_txout_to_script, wf_txout_to_script.
  field keys keys_codec. field script bytes_codec. fields_done.
Qed.

Definition wf_target (t : txout_target) : Prop :=
  match t with
  | Out_to_script o => wf_txout_to_script o
  | Out_to_scripthash h => is_key h
  | Out_to_key k => is_key k
  end.

#[export] Instance consumes_txout_target : Consumes r_txout_target.
Proof. unfold r_txout_target, r_txout_body. apply _. Qed.

Lemma txout_target_codec : codec wf_target w_txout_target r_txout_target.
Proof.
  unfold w_txout_target, r_txout_target.
  apply (codec_field txout_tag wf_target (in_u 8)); [by intros [] _ | apply (uint_codec 1) | |].
  { intros x. unfold r_txout_body. apply _. }
  intros t _. unfold r_txout_body.
  destruct (Z.eqb_spec t 0x0) as [-> | ?].
  { ctor txout_to_script_codec. }
  destruct (Z.eqb_spec t 0x1) as [-> | ?].
  { ctor key_codec. }
  destruct (Z.eqb_spec t 0x2) as [-> | ?].
  { ctor key_codec. }
  apply codec_fail. intros [] [_ E]; cbn in E; congruence.
Qed.

Definition wf_tx_out (o : tx_out) : Prop := in_u 64 (out_amount o) /\ wf_target (target o).

#[export] Instance consumes_tx_out : Consumes r_tx_out.
Proof. unfold r_tx_out. apply _. Qed.

Lemma tx_out_codec : codec wf_tx_out w_tx_out r_tx_out.
Proof.
  unfold w_tx_out, r_tx_out, wf_tx_out. field out_amount u64_codec. field target txout_target_codec. fields_done.
Qed.

Definition wf_txin_to_script (i : txin_to_script) : Prop :=
  is_key (ts_prev i) /\ in_u 64 (ts_prevout i) /\ byte_vector (ts_sigset i).

#[export] Instance consumes_txin_to_script : Consumes r_txin_to_script.
Proof. unfold r_txin_to_script. apply _. Qed.

Lemma txin_to_script_codec : codec wf_txin_to_script w_txin_to_script r_txin_to_script.
Proof.
  unfold w_txin_to_script, r_txin_to_script, wf_txin_to_script.
  field ts_prev key_codec. field ts_prevout u64_codec. field ts_sigset bytes_codec. fields_done.
Qed.

Definition wf_txin_to_scripthash (i : txin_to_scripthash) : Prop :=
  is_key (th_prev i) /\ in_u 64 (th_prevout i) /\ wf_txout_to_script (th_script i) /\ byte_vector (th_sigset i).

#[export] Instance consumes_txin_to_scripthash : Consumes r_txin_to_scripthash.
Proof. unfold r_txin_to_scripthash. apply _. Qed.

Lemma txin_to_scripthash_codec : codec wf_txin_to_scripthash w_txin_to_scripthash r_txin_to_scripthash.
Proof.
  unfold w_txin_to_scripthash, r_txin_to_scripthash, wf_txin_to_scripthash.
  field th_prev key_codec. field th_prevout u64_codec. field th_script txout_to_script_codec.
  field th_sigset bytes_codec. fields_done.
Qed.

Definition wf_txin_to_key (i : txin_to_key) : Prop :=
  in_u 64 (in_amount i) /\ vector_of (in_u 64) (key_offsets i) /\ is_key (k_image i).

#[export] Instance consumes_txin_to_key : Consumes r_txin_to_key.
Proof. unfold r_txin_to_key. apply _. Qed.

Lemma txin_to_key_codec : codec wf_txin_to_key w_txin_to_key r_txin_to_key.
Proof.
  unfold w_txin_to_key, r_txin_to_key, wf_txin_to_key.
  field in_amount u64_codec. field key_offsets offsets_codec. field k_image key_codec. fields_done.
Qed.

Definition wf_txin (i : txin_v) : Prop :=
  match i with
  | In_gen h => in_u 64 h
  | In_to_script i => wf_txin_to_script i
  | In_to_scripthash i => wf_txin_to_scripthash i
  | In_to_key i => wf_txin_to_key i
  end.

#[export] Instance consumes_txin : Consumes r_txin.
Proof. unfold r_txin, r_txin_body. apply _. Qed.

Lemma txin_codec : codec wf_txin w_txin r_txin.
Proof.
  unfold w_txin, r_txin.
  apply (codec_field txin_tag wf_txin (in_u 8)); [by intros [] _ | apply (uint_codec 1) | |].
  { intros x. unfold r_txin_body. apply _. }
  intros t _. unfold r_txin_body.
  destruct (Z.eqb_spec t 0xff) as [-> | ?].
  { ctor u64_codec. }
  destruct (Z.eqb_spec t 0x0) as [-> | ?].
  { ctor txin_to_script_codec. }
  destruct (Z.eqb_spec t 0x1) as [-> | ?].
  { ctor txin_to_scripthash_codec. }
  destruct (Z.eqb_spec t 0x2) as [-> | ?].
  { ctor txin_to_key_codec. }
  apply codec_fail. intros [] [_ E]; cbn in E; congruence.
Qed.

(** ** The prefix *)

Definition wf_prefix (p : transaction_prefix) : Prop :=
  1 <= version p <= TRANSACTION_VERSION_MAX /\ in_u 64 (unlock_time p) /\
  vector_of wf_txin (vin p) /\ vector_of wf_tx_out (vout p) /\ byte_vector (extra p).

#[export] Instance consumes_prefix : Consumes r_prefix.
Proof. unfold r_prefix. apply _. Qed.

Lemma version_ok_spec v : in_u 64 v -> version_ok v = true <-> 1 <= v <= TRANSACTION_VERSION_MAX.
Proof.
  unfold in_u, version_ok, TRANSACTION_VERSION_MAX. intros Hv. split_cmp; cbn [orb negb]; split; intros; try lia; done.
Qed.

Lemma prefix_codec : codec wf_prefix w_prefix r_prefix.
Proof.
  unfold w_prefix, r_prefix, wf_prefix, TRANSACTION_VERSION_MAX.
  eapply (codec_field version _ (in_u 64)); [cbn; intros b Hb; unfold in_u; lia | apply u64_codec | apply _ | intros v Hv].
  apply (codec_check (fun b => version_ok (version b))).
  - intros b [[? _] <-]. by apply version_ok_spec.
  - intros b [[? _] <-]. by apply version_ok_spec.
  - apply _.
  - intros [Hok1 Hok2]%version_ok_spec; [| done]. unfold TRANSACTION_VERSION_MAX in Hok2.
    field unlock_time u64_codec.
    field vin (container_codec _ _ _ _ txin_codec). { intros; by apply then_nonempty, uint_nonempty. }
    field vout (container_codec _ _ _ _ tx_out_codec). { intros; by apply then_nonempty, varint_nonempty. }
    field extra bytes_codec. fields_done.
Qed.

(** ** Ring signatures *)

Lemma fixed_codec {A} (P : A -> Prop) w (r : parser A) n :
  Consumes r -> codec P w r -> codec (array_of P n) (w_fixed n w) (r_array r n).
Proof.
  intros Hr C. apply (codec_writer _ (w_array w)); [| by apply array_codec].
  intros l [<- _]. unfold w_fixed, w_check, w_then. rewrite Nat.eqb_refl. cbn. by destruct (w_array w l).
Qed.

Definition optional {A} (c : bool) (P : list A -> Prop) (l : list A) : Prop := if c then P l else l = [].

Lemma optional_codec {A} (c : bool) (P : list A -> Prop) w (r : parser (list A)) :
  codec P w r -> codec (optional c P) (fun l => if c then w l else w_done) (if c then r else mret []).
Proof. intros C. destruct c; [done |]. by apply codec_ret. Qed.

Definition wf_ecdh (ty : Z) (e : ecdhTuple) : Prop :=
  is_key (amount e) /\
  if short_amounts ty then mask e = zeros 32 /\ drop 8 (amount e) = zeros 24 else is_key (mask e).

#[export] Instance consumes_ecdh ty : Consumes (r_ecdh ty).
Proof. unfold r_ecdh. apply _. Qed.

Lemma ecdh_codec ty : codec (wf_ecdh ty) (w_ecdh ty) (r_ecdh ty).
Proof.
  unfold wf_ecdh, w_ecdh, r_ecdh. destruct (short_amounts ty).
  - eapply (codec_ctor (fun a => EcdhTuple (zeros 32) (a ++ zeros 24))); [apply (blob_codec 8) | | |].
    + intros a. unfold blob_of. cbn [amount mask]. rewrite bytes_app, length_app.
      change (length (zeros 24)) with 24%nat. split.
      * intros ([[? _] Hl] & _ & _). split; [done | lia].
      * intros [? Hl]. split_and!; [done | by apply Forall_replicate | lia | done |]. by rewrite drop_app_length'.
    + intros [m a] ([_ Hl] & Hm & Ha). cbn [mask amount] in Hm, Ha. exists (take 8 a). by rewrite <- Ha, Hm, take_drop.
    + intros a [_ Hl]. cbn [amount]. by rewrite take_app_length'.
  - field mask key_codec. field amount key_codec. fields_done.
Qed.

Definition wf_base (inputs outputs : nat) (b : rctSigBase) : Prop :=
  if type b =? RCTTypeNull then b = no_rct else
  rct_type_known (type b) = true /\ in_u 64 (txnFee b) /\
  optional (type b =? RCTTypeSimple) (array_of is_key inputs) (pseudoOuts b) /\
  array_of (wf_ecdh (type b)) outputs (ecdhInfo b) /\ array_of is_key outputs (outPk b).

#[export] Instance consumes_rctsig_base inputs outputs : Consumes (r_rctsig_base inputs outputs).
Proof. unfold r_rctsig_base. apply _. Qed.

Lemma known_type_byte ty : rct_type_known ty = true -> in_u 8 ty.
Proof.
  unfold rct_type_known, in_u, RCTTypeFull, RCTTypeSimple, RCTTypeBulletproof1Full, RCTTypeBulletproof1Simple,
    RCTTypeBulletproof2, RCTTypeCLSAG, RCTTypeBulletproofPlus. split_cmp; cbn; intros; done || lia.
Qed.

Lemma rctsig_base_codec inputs outputs :
  codec (wf_base inputs outputs) (w_rctsig_base inputs outputs) (r_rctsig_base inputs outputs).
Proof.
  unfold w_rctsig_base, r_rctsig_base, wf_base. eapply (codec_field type _ (in_u 8)).
  { intros b. destruct (Z.eqb_spec (type b) RCTTypeNull) as [-> |]; [intros _; by_decide |].
    intros [Hk _]. by apply known_type_byte. }
  { apply (uint_codec 1). }
  { apply _. }
  intros ty Hty. destruct (Z.eqb_spec ty RCTTypeNull) as [-> | Hnull].
  { apply (codec_writer _ (fun _ => w_done)); [by intros b [_ ->] |].
    apply codec_ret; [done |]. intros b [Hb E]. by rewrite E in Hb. }
  eapply (codec_writer _ (fun b => w_check (rct_type_known ty) ⋙ w_varint (txnFee b) ⋙
    (if ty =? RCTTypeSimple then w_fixed inputs w_key (pseudoOuts b) else w_done) ⋙
    w_fixed outputs (w_ecdh ty) (ecdhInfo b) ⋙ w_fixed outputs w_key (outPk b) ⋙ w_done)).
  { intros b [_ <-]. by destruct (Z.eqb_spec (type b) RCTTypeNull). }
  eapply (codec_iff (fun b => type b = ty /\ rct_type_known ty = true /\ in_u 64 (txnFee b) /\
    optional (ty =? RCTTypeSimple) (array_of is_key inputs) (pseudoOuts b) /\
    array_of (wf_ecdh ty) outputs (ecdhInfo b) /\ array_of is_key outputs (outPk b))).
  { intros b. split; [intros [<- H] | intros [H <-]]; by destruct (Z.eqb_spec (type b) RCTTypeNull). }
  apply (codec_check (fun _ => rct_type_known ty)); [tauto | tauto | apply _ | intros Hk].
  field txnFee u64_codec.
  field_with pseudoOuts (fun l => if ty =? RCTTypeSimple then w_fixed inputs w_key l else w_done)
    (optional_codec (ty =? RCTTypeSimple) _ _ _ (fixed_codec _ _ _ inputs _ key_codec)).
  field ecdhInfo (fixed_codec _ _ _ outputs _ (ecdh_codec ty)).
  field outPk (fixed_codec _ _ _ outputs _ key_codec). fields_done.
Qed.

Definition wf_rangeSig (r : rangeSig) : Prop := blob_of boroSig_size (asig r) /\ blob_of key64_size (Ci r).

#[export] Instance consumes_rangeSig : Consumes r_rangeSig.
Proof. unfold r_rangeSig. apply _. Qed.

Lemma rangeSig_codec : codec wf_rangeSig w_rangeSig r_rangeSig.
Proof.
  unfold wf_rangeSig, w_rangeSig, r_rangeSig. generalize boroSig_size, key64_size. intros m n.
  field asig (blob_codec m). field Ci (blob_codec n). fields_done.
Qed.

Definition wf_Bulletproof (p : Bulletproof) : Prop :=
  is_key (bp_A p) /\ is_key (bp_S p) /\ is_key (bp_T1 p) /\ is_key (bp_T2 p) /\ is_key (bp_taux p) /\
  is_key (bp_mu p) /\ key_vector (bp_L p) /\ key_vector (bp_R p) /\ is_key (bp_a p) /\ is_key (bp_b p) /\
  is_key (bp_t p) /\ sizes_ok (bp_L p) (bp_R p) = true.

#[export] Instance consumes_Bulletproof : Consumes r_Bulletproof.
Proof. unfold r_Bulletproof. apply _. Qed.

Lemma Bulletproof_codec : codec wf_Bulletproof w_Bulletproof r_Bulletproof.
Proof.
  unfold wf_Bulletproof, w_Bulletproof, r_Bulletproof.
  field bp_A key_codec. field bp_S key_codec. field bp_T1 key_codec. field bp_T2 key_codec.
  field bp_taux key_codec. field bp_mu key_codec. field bp_L keys_codec. field bp_R keys_codec.
  field bp_a key_codec. field bp_b key_codec. field bp_t key_codec.
  apply (codec_check (fun p => sizes_ok (bp_L p) (bp_R p)));
    [intros b ?; by destruct_and? | intros b ?; destruct_and?; congruence | apply _ | intros ?]. fields_done.
Qed.

Definition wf_BulletproofPlus (p : BulletproofPlus) : Prop :=
  is_key (bpp_A p) /\ is_key (bpp_A1 p) /\ is_key (bpp_B p) /\ is_key (bpp_r1 p) /\ is_key (bpp_s1 p) /\
  is_key (bpp_d1 p) /\ key_vector (bpp_L p) /\ key_vector (bpp_R p) /\ sizes_ok (bpp_L p) (bpp_R p) = true.

#[export] Instance consumes_BulletproofPlus : Consumes r_BulletproofPlus.
Proof. unfold r_BulletproofPlus. apply _. Qed.

Lemma BulletproofPlus_codec : codec wf_BulletproofPlus w_BulletproofPlus r_BulletproofPlus.
Proof.
  unfold wf_BulletproofPlus, w_BulletproofPlus, r_BulletproofPlus.
  field bpp_A key_codec. field bpp_A1 key_codec. field bpp_B key_codec. field bpp_r1 key_codec.
  field bpp_s1 key_codec. field bpp_d1 key_codec. field bpp_L keys_codec. field bpp_R keys_codec.
  apply (codec_check (fun p => sizes_ok (bpp_L p) (bpp_R p)));
    [intros b ?; by destruct_and? | intros b ?; destruct_and?; congruence | apply _ | intros ?]. fields_done.
Qed.

Definition wf_proofs {A} (P : A -> Prop) (max : list A -> Z) (outputs : nat) (l : list A) : Prop :=
  zlen l < 2 ^ 32 /\ Forall P l /\ zlen l <= Z.of_nat outputs <= max l.

#[export] Instance consumes_proofs {A} (r : parser A) max outputs : Consumes r -> Consumes (r_proofs r max outputs).
Proof. intros. unfold r_proofs. apply _. Qed.

Lemma negb_ltb a b : negb (a <? b) = true <-> b <= a.
Proof. destruct (Z.ltb_spec a b); cbn; split; intros; done || lia. Qed.

Lemma proofs_codec {A} (P : A -> Prop) w (r : parser A) max outputs :
  Consumes r -> codec P w r -> codec (wf_proofs P max outputs) (w_proofs w max outputs) (r_proofs r max outputs).
Proof.
  intros Hr C. unfold w_proofs, r_proofs, wf_proofs. cbn zeta.
  eapply (codec_field (fun l => u32 (zlen l)) _ (in_u 32)).
  { intros b _. apply wrap_range. lia. }
  { by apply varint_codec. }
  { apply _. }
  intros n Hn. unfold in_u in Hn.
  eapply (codec_writer _ (fun l => w_check (negb (Z.of_nat outputs <? n)) ⋙ w_array w l ⋙
    w_check (negb (max l <? Z.of_nat outputs)) ⋙ w_done)).
  { intros l [(Hl & _) <-]. rewrite take_ge; [done |]. pose proof (zlen_nonneg l). rewrite u32_small by lia.
    unfold zlen. lia. }
  eapply (codec_iff (fun l => array_of P (Z.to_nat n) l /\ n <= Z.of_nat outputs <= max l)).
  { intros l. unfold array_of. pose proof (zlen_nonneg l). split.
    - intros [[Hl HP] Ho]. assert (zlen l = n) as <- by (unfold zlen; lia). rewrite u32_small by lia.
      by split_and!; try lia.
    - intros [(Hl & HP & Ho) Hz]. rewrite u32_small in Hz by lia. subst n. unfold zlen in *. split_and!; try done; lia. }
  apply (codec_check (fun _ => negb (Z.of_nat outputs <? n)));
    [intros b [_ ?]; apply negb_ltb; lia | intros b [_ ?]; apply negb_ltb; lia | apply _ | intros Ho%negb_ltb].
  eapply (codec_field (fun l => l)); [by intros b [? _] | by apply array_codec | apply _ | intros l Hl].
  apply (codec_check (fun l => negb (max l <? Z.of_nat outputs)));
    [intros b [[_ ?] _]; apply negb_ltb; lia | intros b [[_ ?] <-]; apply negb_ltb; lia | apply _ | intros Hm%negb_ltb].
  apply codec_ret; [split_and!; try done; lia | by intros b [_ ?]].
Qed.

(** The range proofs, as the three vectors of which one is used. *)
Abbreviation proofs := (list rangeSig * list Bulletproof * list BulletproofPlus)%type.

Definition proofs_of (p : rctSigPrunable) : proofs := (rangeSigs p, bulletproofs p, bulletproofs_plus p).

Definition w_proofs_of (ty : Z) (outputs : nat) (t : proofs) : writer :=
  w_range_proofs ty outputs (RctSigPrunable t.1.1 t.1.2 t.2 [] [] []).

Definition wf_range_proofs (ty : Z) (outputs : nat) (t : proofs) : Prop :=
  if ty =? RCTTypeBulletproofPlus then t.1 = ([], []) /\
    wf_proofs wf_BulletproofPlus n_bulletproof_plus_max_amounts outputs t.2
  else if bulletproof2 ty then t.1.1 = [] /\ t.2 = [] /\
    wf_proofs wf_Bulletproof n_bulletproof_max_amounts outputs t.1.2
  else if bulletproof1 ty then t.1.1 = [] /\ t.2 = [] /\ array_of wf_Bulletproof outputs t.1.2
  else t.1.2 = [] /\ t.2 = [] /\ array_of wf_rangeSig outputs t.1.1.

#[export] Instance consumes_range_proofs ty outputs : Consumes (r_range_proofs ty outputs).
Proof. unfold r_range_proofs. apply _. Qed.

Ltac triple C :=
  eapply codec_ctor; [apply C | cbn; naive_solver | intros [[? ?] ?] ?; cbn in *; naive_solver | done].

Lemma range_proofs_codec ty outputs :
  codec (wf_range_proofs ty outputs) (w_proofs_of ty outputs) (r_range_proofs ty outputs).
Proof.
  unfold wf_range_proofs, w_proofs_of, w_range_proofs, r_range_proofs. cbn [rangeSigs bulletproofs bulletproofs_plus].
  destruct (ty =? RCTTypeBulletproofPlus); [triple (proofs_codec _ _ _ n_bulletproof_plus_max_amounts outputs _ BulletproofPlus_codec) |].
  destruct (bulletproof2 ty); [triple (proofs_codec _ _ _ n_bulletproof_max_amounts outputs _ Bulletproof_codec) |].
  destruct (bulletproof1 ty); [triple (fixed_codec _ _ _ outputs _ Bulletproof_codec) |].
  triple (fixed_codec _ _ _ outputs _ rangeSig_codec).
Qed.

Definition wf_clsag (ring : nat) (c : clsag) : Prop := array_of is_key ring (s c) /\ is_key (c1 c) /\ is_key (D c).

#[export] Instance consumes_clsag ring : Consumes (r_clsag ring).
Proof. unfold r_clsag. apply _. Qed.

Lemma clsag_codec ring : codec (wf_clsag ring) (w_clsag ring) (r_clsag ring).
Proof.
  unfold wf_clsag, w_clsag, r_clsag. field s (fixed_codec _ _ _ ring _ key_codec).
  field c1 key_codec. field D key_codec. fields_done.
Qed.

Definition wf_mg (ring rows : nat) (m : mgSig) : Prop :=
  array_of (array_of is_key rows) ring (ss m) /\ is_key (cc m).

#[export] Instance consumes_mg ring rows : Consumes (r_mg ring rows).
Proof. unfold r_mg. apply _. Qed.

Lemma mg_codec ring rows : codec (wf_mg ring rows) (w_mg ring rows) (r_mg ring rows).
Proof.
  unfold wf_mg, w_mg, r_mg. field ss (fixed_codec _ _ _ ring _ (fixed_codec _ _ _ rows _ key_codec)).
  field cc key_codec. fields_done.
Qed.

(** The signatures and the commitments they use. *)
Abbreviation signatures := (list mgSig * list clsag * list key)%type.

Definition signatures_of (p : rctSigPrunable) : signatures := (MGs p, CLSAGs p, p_pseudoOuts p).

Definition w_signatures_of (ty : Z) (inputs mixin : nat) (t : signatures) : writer :=
  w_signatures ty inputs mixin (RctSigPrunable [] [] [] t.1.1 t.1.2 t.2).

Definition wf_signatures (ty : Z) (inputs mixin : nat) (t : signatures) : Prop :=
  if clsag_type ty
  then t.1.1 = [] /\ array_of (wf_clsag (mixin + 1)) inputs t.1.2 /\ array_of is_key inputs t.2
  else t.1.2 = [] /\ array_of (wf_mg (mixin + 1) (mg_rows ty inputs)) (mg_elements ty inputs) t.1.1 /\
       optional (has_pseudo_outs ty) (array_of is_key inputs) t.2.

#[export] Instance consumes_signatures ty inputs mixin : Consumes (r_signatures ty inputs mixin).
Proof. unfold r_signatures. apply _. Qed.

Lemma signatures_codec ty inputs mixin :
  codec (wf_signatures ty inputs mixin) (w_signatures_of ty inputs mixin) (r_signatures ty inputs mixin).
Proof.
  unfold wf_signatures, w_signatures_of, w_signatures, r_signatures. cbn [MGs CLSAGs p_pseudoOuts].
  destruct (clsag_type ty).
  - field (fun t : signatures => t.1.2) (fixed_codec _ _ _ inputs _ (clsag_codec (mixin + 1))).
    field (fun t : signatures => t.2) (fixed_codec _ _ _ inputs _ key_codec).
    apply codec_ret; [done |]. intros [[? ?] ?] ?. cbn in *. naive_solver.
  - field (fun t : signatures => t.1.1)
      (fixed_codec _ _ _ (mg_elements ty inputs) _ (mg_codec (mixin + 1) (mg_rows ty inputs))).
    field_with (fun t : signatures => t.2) (fun l => if has_pseudo_outs ty then w_fixed inputs w_key l else w_done)
      (optional_codec (has_pseudo_outs ty) _ _ _ (fixed_codec _ _ _ inputs _ key_codec)).
    apply codec_ret; [done |]. intros [[? ?] ?] ?. cbn in *. naive_solver.
Qed.

Definition wf_prunable (ty inputs outputs mix : Z) (p : rctSigPrunable) : Prop :=
  counts_ok inputs outputs mix = true /\ rct_type_known ty = true /\
  wf_range_proofs ty (Z.to_nat outputs) (proofs_of p) /\
  wf_signatures ty (Z.to_nat inputs) (Z.to_nat mix) (signatures_of p).

#[export] Instance consumes_let_pair {A B C} (r : parser (A * B)) (k : A -> B -> parser C) :
  Consumes r -> (forall a b, Consumes (k a b)) -> Consumes ('(a, b) ← r; k a b).
Proof. intros Hr Hk. apply consumes_bind; [done |]. by intros [a b]. Qed.

#[export] Instance consumes_let_triple {A B C D} (r : parser (A * B * C)) (k : A -> B -> C -> parser D) :
  Consumes r -> (forall a b c, Consumes (k a b c)) -> Consumes ('(a, b, c) ← r; k a b c).
Proof. intros Hr Hk. apply consumes_bind; [done |]. by intros [[a b] c]. Qed.

#[export] Instance consumes_rctsig_prunable ty inputs outputs mix : Consumes (r_rctsig_prunable ty inputs outputs mix).
Proof. unfold r_rctsig_prunable. apply _. Qed.

Lemma known_not_null ty : rct_type_known ty = true -> (ty =? RCTTypeNull) = false.
Proof. intros H. apply Z.eqb_neq. by intros ->. Qed.

Lemma rctsig_prunable_codec ty inputs outputs mix : ty <> RCTTypeNull ->
  codec (wf_prunable ty inputs outputs mix) (w_rctsig_prunable ty inputs outputs mix) (r_rctsig_prunable ty inputs outputs mix).
Proof.
  intros Hty. unfold w_rctsig_prunable, r_rctsig_prunable, wf_prunable.
  apply (codec_check (fun _ => counts_ok inputs outputs mix)); [tauto | tauto | apply _ | intros Hc].
  destruct (Z.eqb_spec ty RCTTypeNull); [done |].
  apply (codec_check (fun _ => rct_type_known ty)); [tauto | tauto | apply _ | intros Hk].
  apply (codec_field proofs_of _ (wf_range_proofs ty (Z.to_nat outputs)) (w_proofs_of ty (Z.to_nat outputs)));
    [tauto | apply range_proofs_codec | intros [[? ?] ?]; apply _ |]. intros [[rs bp] bpp] Hp.
  apply (codec_writer _ (fun p => w_signatures_of ty (Z.to_nat inputs) (Z.to_nat mix) (signatures_of p) ⋙ w_done)).
  { intros p _. unfold w_then, w_signatures_of. cbn. unfold w_signatures. cbn.
    match goal with |- (if ?w.2 then _ else _) = _ => destruct w as [l []] end; [cbn; by rewrite app_nil_r | done]. }
  apply (codec_field signatures_of _ (wf_signatures ty (Z.to_nat inputs) (Z.to_nat mix))
    (w_signatures_of ty (Z.to_nat inputs) (Z.to_nat mix)));
    [tauto | apply signatures_codec | intros [[? ?] ?]; apply _ |]. intros [[mg cl] ps] Hs.
  apply codec_ret; [by split_and! |]. intros [] ([_ [= -> -> ->]] & [= -> -> ->]). done.
Qed.

(** ** Transactions *)

(** The transactions that have a blob. *)
Definition wf_rct (t : transaction) : Prop :=
  let p := prefix t in
  if has_rct p then
    wf_base (length (vin p)) (length (vout p)) (rct t) /\
    if type (rct t) =? RCTTypeNull then rct_p t = no_prunable
    else wf_prunable (type (rct t)) (zlen (vin p)) (zlen (vout p)) (mixin p) (rct_p t)
  else rct t = no_rct /\ rct_p t = no_prunable.

Definition wf_tx (t : transaction) : Prop := wf_prefix (prefix t) /\ pruned t = false /\ wf_rct t.

#[export] Instance consumes_transaction : Consumes r_transaction.
Proof. unfold r_transaction. apply _. Qed.

Lemma transaction_codec : codec wf_tx w_transaction r_transaction.
Proof.
  unfold w_transaction, r_transaction, wf_tx, wf_rct.
  apply (codec_field prefix _ wf_prefix w_prefix); [tauto | apply prefix_codec | apply _ |]. intros p Hp.
  destruct (has_rct p) eqn:Hr.
  2: { apply (codec_writer _ (fun _ => w_done)); [by intros t [_ ->]; rewrite Hr |].
       apply codec_ret; [cbn; by rewrite Hr |].
       intros [p' b q f] ((_ & Hf & Ht) & E). cbn in *. subst. rewrite Hr in Ht. by destruct Ht as [-> ->]. }
  pose (ni := length (vin p)). pose (no := length (vout p)).
  apply (codec_writer _ (fun t => w_rctsig_base ni no (rct t) ⋙
    if type (rct t) =? RCTTypeNull then w_done
    else w_rctsig_prunable (type (rct t)) (zlen (vin p)) (zlen (vout p)) (mixin p) (rct_p t))).
  { intros t [(_ & Hf & _) <-]. rewrite Hr, Hf. unfold w_tx_rct, w_tx_prunable.
    by destruct (type (rct t) =? RCTTypeNull). }
  apply (codec_field rct _ (wf_base ni no) (w_rctsig_base ni no)).
  { intros t [(_ & _ & Ht) <-]. rewrite Hr in Ht. apply Ht. }
  { apply rctsig_base_codec. }
  { apply _. }
  intros b Hb. destruct (Z.eqb_spec (type b) RCTTypeNull) as [Hn | Hn].
  - apply (codec_writer _ (fun _ => w_done)); [by intros t [_ ->]; rewrite Hn |].
    apply codec_ret; [cbn; by rewrite Hr, Hn |].
    intros [p' b' q f] (((_ & Hf & Ht) & E) & E'). cbn in *. subst. rewrite Hr, Hn in Ht. by destruct Ht as [_ ->].
  - pose (w := w_rctsig_prunable (type b) (zlen (vin p)) (zlen (vout p)) (mixin p)).
    apply (codec_writer _ (fun t => w (rct_p t) ⋙ w_done)).
    { intros t [_ ->]. destruct (Z.eqb_spec (type b) RCTTypeNull); [done |]. unfold w_then.
      destruct (w (rct_p t)) as [l []] eqn:Ew; subst w; cbn in Ew |- *; rewrite Ew; [by rewrite app_nil_r | done]. }
    apply (codec_field rct_p _ (wf_prunable (type b) (zlen (vin p)) (zlen (vout p)) (mixin p)) w).
    { intros t [[(_ & _ & Ht) <-] <-]. rewrite Hr in Ht. by destruct (Z.eqb_spec (type (rct t)) RCTTypeNull), Ht. }
    { by apply rctsig_prunable_codec. }
    { apply _. }
    intros q Hq. apply codec_ret.
    { cbn. rewrite Hr. by destruct (Z.eqb_spec (type b) RCTTypeNull). }
    intros [p' b' q' f] ((((_ & Hf & _) & E) & E') & E''). cbn in *. by subst.
Qed.

(** ** One blob per transaction *)

Lemma key_strict : strict is_key w_key r_key.
Proof. apply blob_strict. Qed.

Lemma fixed_strict {A} (P : A -> Prop) w (r : parser A) n :
  (forall a, P a -> (w a).2 = true) -> strict P w r -> strict (array_of P n) (w_fixed n w) (r_array r n).
Proof.
  intros Hw S l v rest Hl E. destruct (array_strict P w r n Hw S l v rest Hl E) as [[<- Hv] ->].
  split; [done |]. unfold w_fixed, w_check, w_then. rewrite Nat.eqb_refl. done.
Qed.

Lemma strict_ret {B} (P : B -> Prop) (b : B) : P b -> strict P (fun _ => w_done) (mret b).
Proof. intros Hb l b' rest _ [= <- <-]. done. Qed.

Ltac strict_field f C S :=
  eapply (strict_first f); [apply (codec_write C) | apply S | intros ? ?].

Lemma clsag_strict ring : strict (wf_clsag ring) (w_clsag ring) (r_clsag ring).
Proof.
  unfold w_clsag, r_clsag. pose proof (fixed_codec _ _ _ ring _ key_codec) as C.
  strict_field s C (fixed_strict _ _ _ ring (codec_write key_codec) key_strict).
  strict_field c1 key_codec key_strict. strict_field D key_codec key_strict. by apply strict_ret.
Qed.

Lemma mg_strict ring rows : strict (wf_mg ring rows) (w_mg ring rows) (r_mg ring rows).
Proof.
  unfold w_mg, r_mg. pose proof (fixed_codec _ _ _ rows _ key_codec) as C.
  strict_field ss (fixed_codec _ _ _ ring _ C) (fixed_strict _ _ _ ring (codec_write C)
    (fixed_strict _ _ _ rows (codec_write key_codec) key_strict)).
  strict_field cc key_codec key_strict. by apply strict_ret.
Qed.

Lemma signatures_strict ty inputs mix :
  strict (wf_signatures ty inputs mix) (w_signatures_of ty inputs mix) (r_signatures ty inputs mix).
Proof.
  unfold wf_signatures, w_signatures_of, w_signatures, r_signatures. cbn [MGs CLSAGs p_pseudoOuts].
  pose proof (fixed_codec _ _ _ inputs _ key_codec) as Ck.
  pose proof (fixed_strict _ _ _ inputs (codec_write key_codec) key_strict) as Sk.
  destruct (clsag_type ty).
  - strict_field (fun t : signatures => t.1.2) (fixed_codec _ _ _ inputs _ (clsag_codec (mix + 1)))
      (fixed_strict _ _ _ inputs (codec_write (clsag_codec (mix + 1))) (clsag_strict _)).
    strict_field (fun t : signatures => t.2) Ck Sk. by apply strict_ret.
  - pose proof (mg_codec (mix + 1) (mg_rows ty inputs)) as Cm.
    strict_field (fun t : signatures => t.1.1) (fixed_codec _ _ _ (mg_elements ty inputs) _ Cm)
      (fixed_strict _ _ _ (mg_elements ty inputs) (codec_write Cm) (mg_strict _ _)).
    eapply (strict_first (fun t : signatures => t.2) _ (optional (has_pseudo_outs ty) (array_of is_key inputs))
      (fun l => if has_pseudo_outs ty then w_fixed inputs w_key l else w_done)).
    + unfold optional. intros l Hl. destruct (has_pseudo_outs ty); [by apply (codec_write Ck) | done].
    + unfold optional. destruct (has_pseudo_outs ty); [apply Sk | by apply strict_ret].
    + intros l Hl. by apply strict_ret.
Qed.

(** Signatures are at least one key long. *)
Lemma signatures_nil ty inputs mix : (1 <= inputs)%nat -> r_signatures ty inputs mix [] = None.
Proof.
  intros Hi. unfold r_signatures. rewrite (Nat.add_comm mix 1). destruct inputs as [| n]; [lia |].
  destruct (clsag_type ty); [done |]. unfold mg_rows, mg_elements. rewrite (Nat.add_comm _ 1).
  by destruct (mg_simple ty).
Qed.

Lemma prunable_write ty inputs outputs mix p :
  counts_ok inputs outputs mix = true -> rct_type_known ty = true ->
  w_rctsig_prunable ty inputs outputs mix p =
  w_proofs_of ty (Z.to_nat outputs) (proofs_of p) ⋙ w_signatures_of ty (Z.to_nat inputs) (Z.to_nat mix) (signatures_of p).
Proof.
  intros Hc Hk. unfold w_rctsig_prunable. rewrite Hc, Hk, (known_not_null ty Hk). unfold w_then, w_check. cbn [fst snd app].
  change (w_proofs_of ty (Z.to_nat outputs) (proofs_of p)) with (w_range_proofs ty (Z.to_nat outputs) p).
  change (w_signatures_of ty (Z.to_nat inputs) (Z.to_nat mix) (signatures_of p)) with (w_signatures ty (Z.to_nat inputs) (Z.to_nat mix) p).
  by destruct (w_range_proofs ty (Z.to_nat outputs) p) as [? []].
Qed.

Lemma prunable_strict ty inputs outputs mix l p rest :
  ty <> RCTTypeNull -> 1 <= inputs -> bytes l -> r_rctsig_prunable ty inputs outputs mix l = Some (p, rest) ->
  wf_prunable ty inputs outputs mix p /\ l = (w_rctsig_prunable ty inputs outputs mix p).1 ++ rest.
Proof.
  intros Hty Hi Hl E. destruct (codec_canon (rctsig_prunable_codec ty inputs outputs mix Hty) _ _ _ Hl E)
    as [? | ->]; [done |]. unfold r_rctsig_prunable in E.
  apply parser_bind_Some in E as (u & l0 & E0 & E). unfold r_check in E0.
  destruct (counts_ok inputs outputs mix) eqn:Hc; [injection E0 as _ <- | done].
  destruct (Z.eqb_spec ty RCTTypeNull); [done |].
  apply parser_bind_Some in E as (u' & l0 & E0 & E). unfold r_check in E0.
  destruct (rct_type_known ty) eqn:Hk; [injection E0 as _ <- | done].
  apply parser_bind_Some in E as ([[rs bp] bpp] & mid & Er & E).
  apply parser_bind_Some in E as ([[mg cl] ps] & mid' & Es & [= <- <-]).
  destruct (codec_canon (range_proofs_codec ty (Z.to_nat outputs)) _ _ _ Hl Er) as [[Hp ->] | ->];
    [| by rewrite signatures_nil in Es by lia].
  apply bytes_app in Hl as [_ Hm]. destruct (signatures_strict _ _ _ _ _ _ Hm Es) as [Hs ->].
  split; [by split_and! |]. rewrite prunable_write by done. unfold w_then. cbn [proofs_of signatures_of].
  unfold proofs_of, signatures_of. cbn [rangeSigs bulletproofs bulletproofs_plus MGs CLSAGs p_pseudoOuts].
  rewrite (codec_write (range_proofs_codec ty (Z.to_nat outputs)) _ Hp). cbn [fst]. by rewrite app_assoc.
Qed.

(** The base ends in the type byte, or has been read to the end of the input. *)
Lemma base_canon inputs outputs l b rest :
  bytes l -> r_rctsig_base inputs outputs l = Some (b, rest) ->
  (wf_base inputs outputs b /\ l = (w_rctsig_base inputs outputs b).1 ++ rest) \/
  (rest = [] /\ type b <> RCTTypeNull).
Proof.
  intros Hl E. destruct (codec_canon (rctsig_base_codec inputs outputs) _ _ _ Hl E) as [? | ->]; [by left |].
  unfold r_rctsig_base in E. apply parser_bind_Some in E as (ty & mid & Et & E).
  destruct (uint_strict 1 _ _ _ Hl Et) as [_ ->]. destruct (Z.eqb_spec ty RCTTypeNull) as [-> | Hn].
  - injection E as <- ->. left. done.
  - right. split; [done |]. apply parser_bind_Some in E as (? & ? & _ & E).
    apply parser_bind_Some in E as (? & ? & _ & E). apply parser_bind_Some in E as (? & ? & _ & E).
    apply parser_bind_Some in E as (? & ? & _ & E). by apply parser_bind_Some in E as (? & ? & _ & [= <- _]).
Qed.

Lemma prunable_nil ty inputs outputs mix :
  ty <> RCTTypeNull -> 1 <= inputs -> r_rctsig_prunable ty inputs outputs mix [] = None.
Proof.
  intros Hty Hi. destruct (r_rctsig_prunable ty inputs outputs mix []) as [[p rest] |] eqn:E; [| done].
  unfold r_rctsig_prunable in E. apply parser_bind_Some in E as (? & l0 & E0 & E).
  unfold r_check in E0. destruct (counts_ok inputs outputs mix); [injection E0 as _ <- | done].
  destruct (Z.eqb_spec ty RCTTypeNull); [done |]. apply parser_bind_Some in E as (? & l0 & E0 & E).
  unfold r_check in E0. destruct (rct_type_known ty); [injection E0 as _ <- | done].
  apply parser_bind_Some in E as ([[? ?] ?] & mid & Er & E).
  apply parser_bind_Some in E as ([[? ?] ?] & mid' & Es & _).
  rewrite (consumes_nil _ _ _ _ Er) in Es. by rewrite signatures_nil in Es by lia.
Qed.

Lemma has_rct_nonempty p : has_rct p = true -> 1 <= zlen (vin p).
Proof.
  unfold has_rct, zlen. intros [_ H]%andb_true_iff. destruct (Nat.eqb_spec (length (vin p)) 0); [done | lia].
Qed.

(** A reader of transactions with inputs accepts their blobs only. *)
Lemma transaction_strict l t rest :
  bytes l -> r_transaction l = Some (t, rest) -> has_rct (prefix t) = true ->
  wf_tx t /\ l = (w_transaction t).1 ++ rest.
Proof.
  intros Hl E Hr. unfold r_transaction in E. apply parser_bind_Some in E as (p & mid & Ep & E).
  destruct (has_rct p) eqn:Hp; [| injection E as <- _; cbn in Hr; congruence]. clear Hr.
  apply parser_bind_Some in E as (b & mid' & Eb & E). apply parser_bind_Some in E as (q & mid'' & Eq & [= <- <-]).
  pose proof (has_rct_nonempty p Hp) as Hi.
  destruct (codec_canon prefix_codec _ _ _ Hl Ep) as [[Hwp ->] | ->]; [| done].
  apply bytes_app in Hl as [_ Hl]. destruct (base_canon _ _ _ _ _ Hl Eb) as [[Hwb ->] | [-> Hn]].
  2: { apply Z.eqb_neq in Hn as Hn'. rewrite Hn' in Eq. by rewrite prunable_nil in Eq. }
  apply bytes_app in Hl as [_ Hl].
  pose proof (codec_write prefix_codec _ Hwp) as Tp. pose proof (codec_write (rctsig_base_codec _ _) _ Hwb) as Tb.
  assert (Ew : forall q, (w_transaction (Transaction p b q false)).1 = (w_prefix p).1 ++
    (w_rctsig_base (length (vin p)) (length (vout p)) b).1 ++
    (if type b =? RCTTypeNull then [] else (w_rctsig_prunable (type b) (zlen (vin p)) (zlen (vout p)) (mixin p) q).1)).
  { intros q'. unfold w_transaction, w_tx_rct, w_tx_prunable. cbn [prefix rct rct_p pruned]. rewrite Hp.
    rewrite (proj1 (w_then_true _ _ Tp)), (proj1 (w_then_true _ _ Tb)). by destruct (type b =? RCTTypeNull). }
  rewrite Ew, <- !app_assoc. unfold wf_tx, wf_rct. cbn [prefix rct rct_p pruned]. rewrite Hp.
  destruct (Z.eqb_spec (type b) RCTTypeNull) as [Hn | Hn]; [injection Eq as <- ->; by split_and! |].
  destruct (prunable_strict _ _ _ _ _ _ _ Hn Hi Hl Eq) as [Hq ->]. split; [| by rewrite !app_assoc]. by split_and!.
Qed.

(** ** Blocks *)

Definition wf_block_header (h : block_header) : Prop :=
  in_u 8 (major_version h) /\ in_u 8 (minor_version h) /\ in_u 64 (timestamp h) /\ is_key (prev_id h) /\ in_u 32 (nonce h).

#[export] Instance consumes_block_header : Consumes r_block_header.
Proof. unfold r_block_header. apply _. Qed.

Lemma u8_codec : codec (in_u 8) w_varint (r_varint 8).
Proof. by apply varint_codec. Qed.

Lemma block_header_codec : codec wf_block_header w_block_header r_block_header.
Proof.
  unfold wf_block_header, w_block_header, r_block_header.
  field major_version u8_codec. field minor_version u8_codec. field timestamp u64_codec.
  field prev_id key_codec. field nonce (uint_codec 4). fields_done.
Qed.

Definition wf_block (b : block) : Prop :=
  wf_block_header (header b) /\ wf_tx (miner_tx b) /\ Forall is_key (tx_hashes b) /\
  zlen (tx_hashes b) <= CRYPTONOTE_MAX_TX_PER_BLOCK.

#[export] Instance consumes_block : Consumes r_block.
Proof. unfold r_block. apply _. Qed.

Lemma block_codec : codec wf_block w_block r_block.
Proof.
  unfold wf_block, w_block, r_block.
  eapply (codec_field header); [intros b ?; destruct_and?; eassumption | apply block_header_codec | apply _ | intros h Hh].
  eapply (codec_field miner_tx); [intros b ?; destruct_and?; eassumption | apply transaction_codec | apply _ | intros m Hm].
  eapply (codec_field tx_hashes _ key_vector); [| apply keys_codec | apply _ | intros v Hv].
  { unfold CRYPTONOTE_MAX_TX_PER_BLOCK. intros b ?; destruct_and?. split; [lia | done]. }
  apply (codec_check (fun b => negb (CRYPTONOTE_MAX_TX_PER_BLOCK <? zlen (tx_hashes b)))).
  - intros b ?; destruct_and?. by apply negb_ltb.
  - intros b ?; destruct_and?. apply negb_ltb. congruence.
  - apply _.
  - intros Hn%negb_ltb. destruct Hv. fields_done.
Qed.

(** What the reader of a block accepts: the blob of the block, or, for a block
    with no transactions, a blob whose last varint is cut off and reads as 0. *)
Lemma block_accepts l b :
  bytes l -> parse_and_validate_block_from_blob l = Some b -> has_rct (prefix (miner_tx b)) = true ->
  wf_block b /\ (l = block_to_blob b \/ exists body tail,
    tx_hashes b = [] /\ l = body ++ tail /\ block_to_blob b = body ++ [0] /\ r_varint 64 tail = Some (0, [])).
Proof.
  unfold parse_and_validate_block_from_blob, parse_binary, block_to_blob. intros Hl.
  destruct (r_block l) as [[b' [|]] |] eqn:E; try done. intros [= ->] Hr. unfold r_block in E.
  apply parser_bind_Some in E as (h & l1 & Eh & E). apply parser_bind_Some in E as (m & l2 & Em & E).
  apply parser_bind_Some in E as (v & l3 & Ev & E). apply parser_bind_Some in E as (u & l4 & Ec & [= <- ->]).
  unfold r_check in Ec. destruct (negb _) eqn:Hv; [injection Ec as _ -> | done]. apply negb_ltb in Hv.
  cbn [header miner_tx tx_hashes] in *.
  destruct (codec_canon block_header_codec _ _ _ Hl Eh) as [[Hh ->] | ->]; [| done].
  apply bytes_app in Hl as [_ Hl]. destruct (transaction_strict _ _ _ Hl Em Hr) as [Hm ->].
  apply bytes_app in Hl as [_ Hl]. unfold w_block. cbn [header miner_tx tx_hashes].
  rewrite (proj1 (w_then_true _ _ (codec_write block_header_codec _ Hh))).
  rewrite (proj1 (w_then_true _ _ (codec_write transaction_codec _ Hm))).
  unfold r_container in Ev. apply parser_bind_Some in Ev as (n & l3 & En & [Hn Ev]%left_Some).
  destruct (codec_canon u64_codec _ _ _ Hl En) as [[Hn64 ->] | ->].
  - apply bytes_app in Hl as [_ Hl].
    destruct (array_strict _ _ _ _ (codec_write key_codec) key_strict _ _ _ Hl Ev) as [[Hlen Hk] ->].
    assert (zlen v = n) as Hz by (unfold zlen, in_u in *; lia).
    split; [by split_and! |]. left. do 2 f_equal. unfold w_container, w_check, w_then. rewrite Hz, app_nil_r. cbn [fst snd w_varint].
    rewrite (proj1 (array_write is_key _ r_key v key_codec Hk)). cbn [fst snd].
    destruct (Z.ltb_spec CRYPTONOTE_MAX_TX_PER_BLOCK n); [lia |]. cbn. by rewrite app_nil_r.
  - change (zlen []) with 0 in Hn. assert (Z.to_nat n = O) as En0 by lia. rewrite En0 in Ev. injection Ev as <-.
    split; [by split_and! |]. right. exists ((w_block_header h).1 ++ (w_transaction m).1), l2.
    split_and!; [done | by rewrite app_assoc | by rewrite <- app_assoc |].
    rewrite En. do 2 f_equal. pose proof (varint_nonneg 64 _ _ _ ltac:(lia) En). lia.
Qed.

(** ** The parts of a blob *)

Lemma codec_inj {A} (P : A -> Prop) w (r : parser A) a b l l' :
  codec P w r -> P a -> P b -> (w a).1 ++ l = (w b).1 ++ l' -> a = b /\ l = l'.
Proof.
  intros C Ha Hb E. pose proof (codec_read C a l Ha) as Ea. rewrite E, (codec_read C b l' Hb) in Ea.
  by injection Ea as -> ->.
Qed.

Definition base_blob (t : transaction) : list Z := (w_tx_rct t).1.

Definition prunable_blob (t : transaction) : list Z :=
  if type (rct t) =? RCTTypeNull then [] else (w_tx_prunable t).1.

Lemma wf_tx_writes t : wf_tx t -> has_rct (prefix t) = true ->
  (w_prefix (prefix t)).2 = true /\ (w_tx_rct t).2 = true /\
  (type (rct t) <> RCTTypeNull -> (w_tx_prunable t).2 = true).
Proof.
  intros (Hp & _ & Ht) Hr. unfold wf_rct in Ht. rewrite Hr in Ht. destruct Ht as [Hb Hq]. split_and!.
  - by apply (codec_write prefix_codec).
  - by apply (codec_write (rctsig_base_codec _ _)).
  - intros Hn. destruct (Z.eqb_spec (type (rct t)) RCTTypeNull); [done |].
    by apply (codec_write (rctsig_prunable_codec _ _ _ _ Hn)).
Qed.

(** A blob is the prefix, the base and the prunable part, and the sizes noted
    in the object are where the parts meet. *)
Lemma tx_blob_parts t : wf_tx t -> has_rct (prefix t) = true ->
  tx_to_blob t = (w_prefix (prefix t)).1 ++ base_blob t ++ prunable_blob t /\
  prefix_size t = zlen (w_prefix (prefix t)).1 /\
  unprunable_size t = zlen ((w_prefix (prefix t)).1 ++ base_blob t) /\
  (w_transaction_base t).1 = (w_prefix (prefix t)).1 ++ base_blob t.
Proof.
  intros Ht Hr. destruct (wf_tx_writes t Ht Hr) as (Tp & Tb & Tq). destruct Ht as (_ & Hf & _).
  unfold tx_to_blob, w_transaction, w_transaction_base, unprunable_size, prunable_blob, base_blob.
  rewrite Hr, Hf. cbn [negb andb]. rewrite (proj1 (w_then_true _ _ Tp)), (proj1 (w_then_true _ _ Tb)), (proj1 (w_then_true _ _ Tp)).
  split_and!; [| done | done | done]. by destruct (type (rct t) =? RCTTypeNull).
Qed.

Section Binding.
Context (H : list Z -> key) `{!FastHash H}.

Definition prunable_hash (t : transaction) : key :=
  if type (rct t) =? RCTTypeNull then null_hash else H (prunable_blob t).

(** The strings hashed for the hash of a transaction. *)
Definition tx_preimage (t : transaction) : list Z := H (w_prefix (prefix t)).1 ++ H (base_blob t) ++ prunable_hash t.

Definition tx_inputs (t : transaction) : list (list Z) :=
  [tx_preimage t; (w_prefix (prefix t)).1; base_blob t; prunable_blob t].

Lemma prunable_hash_length t : length (prunable_hash t) = 32%nat.
Proof. unfold prunable_hash. destruct (_ =? _); [done | apply fast_hash_size]. Qed.

(** The hash of a transaction is the hash of the hashes of its three parts,
    for both versions. *)
Lemma tx_hash_parts t : wf_tx t -> has_rct (prefix t) = true ->
  calculate_transaction_hash H t =
  Some (H (tx_preimage t)).
Proof.
  intros Ht Hr. unfold tx_preimage. destruct (tx_blob_parts t Ht Hr) as (Eb & Ep & Eu & _).
  destruct (wf_tx_writes t Ht Hr) as (_ & _ & Tq). pose proof Ht as (_ & Hf & _).
  unfold calculate_transaction_hash. rewrite Hf, Eb, Ep, Eu, !zlen_app.
  pose proof (zlen_nonneg (w_prefix (prefix t)).1). pose proof (zlen_nonneg (base_blob t)).
  pose proof (zlen_nonneg (prunable_blob t)).
  destruct (Z.leb_spec (zlen (w_prefix (prefix t)).1) (zlen (w_prefix (prefix t)).1 + zlen (base_blob t))); [| lia].
  destruct (Z.leb_spec (zlen (w_prefix (prefix t)).1 + zlen (base_blob t))
    (zlen (w_prefix (prefix t)).1 + (zlen (base_blob t) + zlen (prunable_blob t)))); [| lia]. cbn [andb].
  rewrite drop_app_length' by (unfold zlen; lia). rewrite take_app_length' by (unfold zlen; lia).
  unfold get_transaction_prefix_hash, prunable_hash, calculate_transaction_prunable_hash. rewrite Eu, !zlen_app.
  destruct (Z.eqb_spec (type (rct t)) RCTTypeNull) as [| Hn]; [done |].
  assert (Eq : (w_tx_prunable t).1 = prunable_blob t)
    by (unfold prunable_blob; by destruct (Z.eqb_spec (type (rct t)) RCTTypeNull)).
  rewrite (Tq Hn), Eq. destruct (Z.ltb_spec 1 (version (prefix t))); cbn [andb]; [| done].
  destruct (negb _); [| done].
  destruct (Z.ltb_spec (zlen (w_prefix (prefix t)).1 + (zlen (base_blob t) + zlen (prunable_blob t)))
    (zlen (w_prefix (prefix t)).1 + zlen (base_blob t))); [lia |].
  rewrite (app_assoc (w_prefix (prefix t)).1), drop_app_length'; [done |]. rewrite length_app. unfold zlen. lia.
Qed.

Lemma append3_inj (a b c a' b' c' : list Z) :
  length a = length a' -> length b = length b' -> a ++ b ++ c = a' ++ b' ++ c' -> a = a' /\ b = b' /\ c = c'.
Proof.
  intros Ha Hb E. apply app_inj_1 in E as [-> E]; [| done]. by apply app_inj_1 in E as [-> ->].
Qed.

Lemma tx_hash_inj t t' h :
  wf_tx t -> wf_tx t' -> has_rct (prefix t) = true -> has_rct (prefix t') = true ->
  calculate_transaction_hash H t = Some h -> calculate_transaction_hash H t' = Some h ->
  t = t' \/ collide H (tx_inputs t) (tx_inputs t').
Proof.
  intros Ht Ht' Hr Hr'. rewrite !tx_hash_parts by done. intros Eh E. rewrite <- Eh in E. symmetry in E.
  apply (inj Some), (hash_or_collide _ _ _ (tx_inputs t) (tx_inputs t')) in E as [E | ?]; [| by right | set_solver..].
  apply append3_inj in E as (E0 & E1 & E2); [| by rewrite !fast_hash_size..].
  apply (hash_or_collide _ _ _ (tx_inputs t) (tx_inputs t')) in E0 as [E0 | ?]; [| by right | set_solver..].
  apply (hash_or_collide _ _ _ (tx_inputs t) (tx_inputs t')) in E1 as [E1 | ?]; [| by right | set_solver..].
  symmetry in E0, E1, E2.
  pose proof Ht as (Hp & Hf & Hc). pose proof Ht' as (Hp' & Hf' & Hc').
  destruct (codec_inj _ _ _ (prefix t') (prefix t) [] [] prefix_codec Hp' Hp) as [Ep _];
    [by rewrite E0 |]. unfold wf_rct in Hc, Hc'. rewrite Hr in Hc. rewrite Hr' in Hc'. rewrite Ep in Hc'.
  destruct Hc as [Hb Hq], Hc' as [Hb' Hq']. unfold base_blob, w_tx_rct in E1. rewrite Ep in E1.
  destruct (codec_inj _ _ _ (rct t') (rct t) [] [] (rctsig_base_codec _ _) Hb' Hb) as [Eb _]; [by rewrite E1 |].
  unfold prunable_hash in E2. rewrite Eb in E2, Hq'.
  destruct (Z.eqb_spec (type (rct t)) RCTTypeNull) as [En | Hn];
    [left; destruct t, t'; cbn in *; congruence |].
  symmetry in E2. apply (hash_or_collide _ _ _ (tx_inputs t) (tx_inputs t')) in E2 as [E2 | ?]; [left | by right | set_solver..].
  unfold prunable_blob, w_tx_prunable in E2. rewrite Eb, Ep in E2.
  destruct (Z.eqb_spec (type (rct t)) RCTTypeNull); [done |]. symmetry in E2.
  destruct t as [p b q f], t' as [p' b' q' f']. cbn [prefix rct rct_p pruned] in *. subst p' b' f f'.
  destruct (codec_inj _ _ _ q' q [] [] (rctsig_prunable_codec _ _ _ _ Hn) Hq' Hq) as [-> _]; [by rewrite E2 | done].
Qed.

(** ** Block identifiers *)

Lemma tree_hash_inj1 l l' r :
  (1 <= length l)%nat -> zlen l <= 2 ^ 28 -> length l = length l' -> hash_sized l -> hash_sized l' ->
  tree_hash H l = Ok r -> tree_hash H l' = Ok r -> l = l' \/ collide H (tree_inputs H l) (tree_inputs H l').
Proof.
  intros H1 Hmax Hlen Hs Hs' E E'. destruct (decide (2 <= length l)%nat) as [H2 |].
  - by apply (tree_hash_inj H l l' r).
  - left. destruct l as [| a [| ? ?]], l' as [| a' [| ? ?]]; cbn in *; try lia. congruence.
Qed.

(** The strings hashed for the identifier of a block, given the root of the tree
    of its transactions. *)
Definition block_preimage (b : block) (root : key) : list Z :=
  (w_string ((w_block_header (header b)).1 ++ root ++ get_varint_data (zlen (tx_hashes b) +! 1))).1.

Definition block_inputs (b : block) : list (list Z) :=
  let hashes := H (tx_preimage (miner_tx b)) :: tx_hashes b in
  match tree_hash H hashes with
  | Ok root => block_preimage b root :: tree_inputs H hashes ++ tx_inputs (miner_tx b)
  | _ => []
  end.

(** What the identifier of a block is computed from. *)
Lemma block_hash_parts b h : wf_block b -> has_rct (prefix (miner_tx b)) = true -> get_block_hash H b = Ok h ->
  exists root, tree_hash H (H (tx_preimage (miner_tx b)) :: tx_hashes b) = Ok root /\
    h = H (block_preimage b root) /\
    block_inputs b = block_preimage b root :: tree_inputs H (H (tx_preimage (miner_tx b)) :: tx_hashes b) ++ tx_inputs (miner_tx b).
Proof.
  intros Hb Hr. unfold get_block_hash, get_block_hashing_blob, get_tx_tree_hash, block_inputs.
  rewrite (tx_hash_parts _ (proj1 (proj2 Hb)) Hr).
  destruct (tree_hash H _) as [root | |] eqn:Er; [| done..]. simpl_bind. intros Eh.
  exists root. split_and!; [done | by inversion Eh | done].
Qed.

Lemma string_inj a b : bytes a -> bytes b -> zlen a < 2 ^ 64 -> zlen b < 2 ^ 64 ->
  (w_string a).1 = (w_string b).1 -> a = b.
Proof.
  intros Ha Hb La Lb E. destruct (codec_inj _ _ _ a b [] [] string_codec) as [? _]; [by split | by split | | done].
  by rewrite E.
Qed.

Lemma hash_key x : is_key (H x).
Proof. split; [apply fast_hash_bytes | apply fast_hash_size]. Qed.

Lemma pairs_key l : Forall is_key (pairs H l).
Proof.
  induction l as [l IH] using (induction_ltof1 _ length). unfold ltof in IH.
  destruct l as [| a [| b l]]; [constructor.. |]. constructor; [apply hash_key |]. apply IH. cbn. lia.
Qed.

Lemma root_key l r : l <> [] -> zlen l <= 2 ^ 28 -> Forall is_key l -> tree_hash H l = Ok r -> is_key r.
Proof.
  intros Hl Hmax Hk E. destruct l as [| a [| b l]]; [done | |].
  { injection E as <-. by inversion Hk. }
  destruct (tree_hash_spec H (a :: b :: l)) as (k & Hd & Em); [cbn; lia | done |].
  rewrite Em in E. injection E as <-. pose proof (leaves_length H k _ Hd) as Hlen.
  assert (Hks : Forall is_key (leaves H k (a :: b :: l)))
    by (apply Forall_app; split; [by apply Forall_take | apply pairs_key]).
  destruct k; [| apply hash_key]. cbn [merkle].
  destruct (leaves H 0 (a :: b :: l)) as [| x ?]; [done |]. by inversion Hks.
Qed.

Lemma keys_sized l : Forall is_key l -> hash_sized l.
Proof. intros Hl. eapply Forall_impl; [exact Hl |]. by intros k [_ ?]. Qed.

Lemma varint_bytes v : 0 <= v -> bytes (get_varint_data v) /\ zlen (get_varint_data v) <= 10.
Proof. intros Hv. split; [by apply write_bytes | apply (write_length 9 v)]. Qed.

(** What is hashed for a block is short. *)
Lemma hashing_blob_ok hd root n : wf_block_header hd -> is_key root ->
  let blob := (w_block_header hd).1 ++ root ++ get_varint_data (n +! 1) in bytes blob /\ zlen blob < 2 ^ 64.
Proof.
  intros Hh [Kr Lr] blob. subst blob. pose proof (codec_bytes block_header_codec _ Hh) as Bh.
  destruct Hh as (Ha & Hb & Hc & [_ Ld] & _). unfold in_u in *.
  destruct (varint_bytes (n +! 1)) as [Bv Lv]; [apply u64_range |].
  destruct (varint_bytes (major_version hd)) as [_ L1]; [lia |].
  destruct (varint_bytes (minor_version hd)) as [_ L2]; [lia |].
  destruct (varint_bytes (timestamp hd)) as [_ L3]; [lia |].
  rewrite !bytes_app. split; [done |]. rewrite !zlen_app.
  unfold w_block_header, w_then, w_varint, w_key, w_blob, w_uint, w_done. cbn [fst snd].
  rewrite !zlen_app. change (zlen (@nil Z)) with 0.
  assert (zlen (le_encode 4 (nonce hd)) = 4) as -> by (unfold zlen; by rewrite le_encode_length).
  unfold zlen in *. lia.
Qed.

Lemma block_hash_inj b b' h :
  wf_block b -> wf_block b' -> has_rct (prefix (miner_tx b)) = true -> has_rct (prefix (miner_tx b')) = true ->
  zlen (tx_hashes b) < CRYPTONOTE_MAX_TX_PER_BLOCK -> zlen (tx_hashes b') < CRYPTONOTE_MAX_TX_PER_BLOCK ->
  get_block_hash H b = Ok h -> get_block_hash H b' = Ok h -> b = b' \/ collide H (block_inputs b) (block_inputs b').
Proof.
  unfold CRYPTONOTE_MAX_TX_PER_BLOCK. intros Hb Hb' Hr Hr' Hn Hn' E E'.
  destruct (block_hash_parts b h Hb Hr E) as (root & Et & -> & ->).
  destruct (block_hash_parts b' _ Hb' Hr' E') as (root' & Et' & Eh & ->).
  eapply hash_or_collide in Eh as [Eh | ?]; [| by right | by left | by left].
  assert (Km : is_key (H (tx_preimage (miner_tx b)))) by apply hash_key.
  assert (Km' : is_key (H (tx_preimage (miner_tx b')))) by apply hash_key.
  remember (H (tx_preimage (miner_tx b))) as hm eqn:Em. remember (H (tx_preimage (miner_tx b'))) as hm' eqn:Em'.
  destruct Hb as (Hh & Hm & Hk & _), Hb' as (Hh' & Hm' & Hk' & _).
  assert (Kr : is_key root) by (eapply root_key, Et; [done | rewrite zlen_cons; lia | by constructor]).
  assert (Kr' : is_key root') by (eapply root_key, Et'; [done | rewrite zlen_cons; lia | by constructor]).
  apply string_inj in Eh; cycle 1.
  { by apply hashing_blob_ok. } { by apply hashing_blob_ok. } { by apply hashing_blob_ok. } { by apply hashing_blob_ok. }
  destruct (codec_inj _ _ _ _ _ _ _ block_header_codec Hh Hh' Eh) as [Ehd Erest].
  apply app_inj_1 in Erest as [-> Ev]; [| destruct Kr, Kr'; congruence].
  pose proof (zlen_nonneg (tx_hashes b)). pose proof (zlen_nonneg (tx_hashes b')).
  destruct (codec_inj _ _ _ (zlen (tx_hashes b) +! 1) (zlen (tx_hashes b') +! 1) [] [] u64_codec) as [En _];
    [apply wrap_range; lia | apply wrap_range; lia | cbn [w_varint fst]; by rewrite Ev |].
  rewrite !u64_small in En by lia.
  destruct (tree_hash_inj1 (hm :: tx_hashes b) (hm' :: tx_hashes b') root') as [El | ?];
    [cbn; lia | rewrite zlen_cons; lia | unfold zlen in *; cbn; lia
    | by apply keys_sized; constructor | by apply keys_sized; constructor | done | done | | or_collide].
  injection El as Et0 Etx.
  destruct (tx_hash_inj (miner_tx b) (miner_tx b') hm) as [Emt | ?];
    [done.. | by rewrite Em; apply tx_hash_parts | by rewrite Et0, Em'; apply tx_hash_parts | | or_collide].
  left. destruct b, b'. cbn in *. congruence.
Qed.
End Binding.

(** ** Pruned transactions *)

(** What remains of a transaction without its prunable part. *)
Definition strip (t : transaction) : transaction := Transaction (prefix t) (rct t) no_prunable true.

Lemma base_reads t rest : wf_tx t -> has_rct (prefix t) = true ->
  r_transaction_base ((w_transaction_base t).1 ++ rest) = Some (strip t, rest).
Proof.
  intros Ht Hr. destruct (tx_blob_parts t Ht Hr) as (_ & _ & _ & ->). rewrite <- app_assoc.
  destruct Ht as (Hp & _ & Hc). unfold wf_rct in Hc. rewrite Hr in Hc. destruct Hc as [Hb _].
  apply parser_bind_Some. eexists _, _. split; [by apply (codec_read prefix_codec) |]. rewrite Hr.
  apply parser_bind_Some. eexists _, _. by split; [apply (codec_read (rctsig_base_codec _ _)) |].
Qed.

Lemma unprunable_prefix t : wf_tx t -> has_rct (prefix t) = true ->
  take (Z.to_nat (unprunable_size t)) (tx_to_blob t) = (w_transaction_base t).1 /\
  drop (Z.to_nat (unprunable_size t)) (tx_to_blob t) = prunable_blob t.
Proof.
  intros Ht Hr. destruct (tx_blob_parts t Ht Hr) as (-> & _ & -> & ->). rewrite app_assoc. unfold zlen. rewrite Nat2Z.id.
  by rewrite take_app_length, drop_app_length.
Qed.

Lemma expand_base vp t : expand_transaction_1 vp t false = Ok true -> expand_transaction_1 vp (strip t) true = Ok true.
Proof.
  unfold expand_transaction_1. change (is_coinbase (strip t)) with (is_coinbase t). unfold strip. cbn [prefix rct].
  destruct (is_coinbase t); [done |]. destruct (negb (length _ =? _)%nat); [done |]. by destruct (negb _).
Qed.

Lemma vin_has_rct t : wf_tx t -> vin (prefix t) <> [] -> has_rct (prefix t) = true.
Proof.
  intros ((Hver & _) & _) Hv. unfold has_rct. apply andb_true_iff. split; [apply Z.leb_le; lia |].
  by destruct (vin (prefix t)).
Qed.

Lemma parsed_prefix_version l p rest : r_prefix l = Some (p, rest) -> 1 <= version p.
Proof.
  intros E. unfold r_prefix in E. apply parser_bind_Some in E as (v & l1 & Ev & E).
  apply parser_bind_Some in E as (? & l2 & Ec & E). unfold r_check in Ec.
  destruct (version_ok v) eqn:Hv; [| done].
  repeat (apply parser_bind_Some in E as (? & ? & _ & E)). injection E as <- _. cbn [version].
  pose proof (varint_nonneg 64 _ _ _ ltac:(lia) Ev). revert Hv. unfold version_ok. split_cmp; done || lia.
Qed.

Lemma parsed_version l t rest : r_transaction l = Some (t, rest) -> 1 <= version (prefix t).
Proof.
  intros E. unfold r_transaction in E. apply parser_bind_Some in E as (p & l1 & Ep & E).
  apply parsed_prefix_version in Ep. enough (prefix t = p) by congruence. revert E.
  destruct (has_rct p); [| by intros [= <- _]]. intros E. apply parser_bind_Some in E as (b & l2 & _ & E).
  revert E. destruct (type b =? RCTTypeNull); [by intros [= <- _] |].
  intros E. apply parser_bind_Some in E as (q & l3 & _ & E). by injection E as <- _.
Qed.

Lemma parsed_miner_version l b : parse_and_validate_block_from_blob l = Some b -> 1 <= version (prefix (miner_tx b)).
Proof.
  unfold parse_and_validate_block_from_blob, parse_binary. destruct (r_block l) as [[b' [|]] |] eqn:E; try done.
  intros [= ->]. unfold r_block in E. apply parser_bind_Some in E as (h & l1 & _ & E).
  apply parser_bind_Some in E as (m & l2 & Em & E). apply parsed_version in Em.
  repeat (apply parser_bind_Some in E as (? & ? & _ & E)). by injection E as <- _.
Qed.

(** A block without transactions is also read when its last varint is cut off. *)
Lemma block_cut b body tail : wf_block b -> tx_hashes b = [] -> block_to_blob b = body ++ [0] ->
  r_varint 64 tail = Some (0, []) -> parse_and_validate_block_from_blob (body ++ tail) = Some b.
Proof.
  intros (Hh & Hm & _) Ht Eb Er. unfold block_to_blob, w_block in Eb. rewrite Ht in Eb.
  rewrite (proj1 (w_then_true _ _ (codec_write block_header_codec _ Hh))) in Eb.
  rewrite (proj1 (w_then_true _ _ (codec_write transaction_codec _ Hm))) in Eb.
  change (w_container w_key [] ⋙ w_check (negb (CRYPTONOTE_MAX_TX_PER_BLOCK <? zlen [])) ⋙ w_done).1 with [0] in Eb.
  rewrite app_assoc in Eb. apply app_inj_2 in Eb as [<- _]; [| done].
  unfold parse_and_validate_block_from_blob, parse_binary, r_block. rewrite <- app_assoc.
  assert (E : r_block ((w_block_header (header b)).1 ++ (w_transaction (miner_tx b)).1 ++ tail) = Some (b, [])); [| by unfold r_block in E; rewrite E].
  unfold r_block. apply parser_bind_Some. eexists _, _. split; [by apply (codec_read block_header_codec) |].
  apply parser_bind_Some. eexists _, _. split; [by apply (codec_read transaction_codec) |].
  apply parser_bind_Some. exists [], []. split; [| by destruct b; cbn in *; subst].
  apply parser_bind_Some. eexists _, _. by split; [exact Er |].
Qed.

(** * The theorems *)

Lemma tx_blob_parses vp t :
  wf_tx t -> vin (prefix t) <> [] -> expand_transaction_1 vp t false = Ok true ->
  parse_and_validate_tx_from_blob vp (tx_to_blob t) = Ok (Some t) /\
  parse_and_validate_tx_base_from_blob vp (take (Z.to_nat (unprunable_size t)) (tx_to_blob t)) = Ok (Some (strip t)).
Proof.
  intros Ht Hv He. pose proof (vin_has_rct t Ht Hv) as Hr. split.
  - unfold parse_and_validate_tx_from_blob, tx_to_blob.
    rewrite (parse_binary_roundtrip _ _ _ _ transaction_codec Ht). by rewrite He.
  - rewrite (proj1 (unprunable_prefix t Ht Hr)). unfold parse_and_validate_tx_base_from_blob, parse_noeof.
    pose proof (base_reads t [] Ht Hr) as E. rewrite app_nil_r in E. rewrite E. cbn. by rewrite (expand_base _ _ He).
Qed.

(** C34: a transaction that the serializer writes and that passes the tests of
    the parser is read back from its blob; and the first [unprunable_size] bytes
    of the blob are read, by the parser for pruned transactions, as the
    transaction without its prunable part. *)
Theorem tx_blob_roundtrip vp t :
  wf_tx t -> vin (prefix t) <> [] -> expand_transaction_1 vp t false = Ok true ->
  parse_and_validate_tx_from_blob vp (tx_to_blob t) = Ok (Some t) /\
  parse_and_validate_tx_base_from_blob vp (take (Z.to_nat (unprunable_size t)) (tx_to_blob t)) = Ok (Some (strip t)).
Proof. apply tx_blob_parses. Qed.

Lemma tx_parsed_blob vp blob t :
  bytes blob -> parse_and_validate_tx_from_blob vp blob = Ok (Some t) -> vin (prefix t) <> [] ->
  wf_tx t /\ tx_to_blob t = blob.
Proof.
  intros Hb E Hv. unfold parse_and_validate_tx_from_blob, parse_binary in E.
  destruct (r_transaction blob) as [[t' rest] |] eqn:Er; [| done].
  destruct rest; [| done]. destruct (expand_transaction_1 _ _ _) as [[] | |]; try done. injection E as ->.
  assert (Hr : has_rct (prefix t) = true).
  { pose proof (parsed_version _ _ _ Er) as Hver. unfold has_rct. apply andb_true_iff. split; [by apply Z.leb_le |].
    by destruct (vin (prefix t)). }
  destruct (transaction_strict _ _ _ Hb Er Hr) as [Ht ->]. by rewrite app_nil_r.
Qed.

(** C32: a blob of bytes that is accepted as a transaction with inputs is the
    blob of that transaction, which is well formed: a transaction has one
    encoding only, so the blob cannot be altered without altering the
    transaction. *)
Theorem tx_blob_canonical vp blob t :
  bytes blob -> parse_and_validate_tx_from_blob vp blob = Ok (Some t) -> vin (prefix t) <> [] ->
  wf_tx t /\ tx_to_blob t = blob.
Proof. apply tx_parsed_blob. Qed.

(** The hash of a transaction with inputs commits to the transaction: two
    different transactions with the same hash give a collision between the
    strings hashed for the one and for the other. *)
Theorem tx_hash_binding (H : list Z -> key) `{!FastHash H} t t' h :
  wf_tx t -> wf_tx t' -> vin (prefix t) <> [] -> vin (prefix t') <> [] ->
  calculate_transaction_hash H t = Some h -> calculate_transaction_hash H t' = Some h ->
  t = t' \/ collide H (tx_inputs H t) (tx_inputs H t').
Proof. intros Ht Ht' Hv Hv'. apply tx_hash_inj; auto using vin_has_rct. Qed.

(** A node that has only the pruned transaction and the hash of the part cut
    off computes, for version 2, the hash of the whole transaction. *)
Theorem pruned_tx_hash (H : list Z -> key) `{!FastHash H} t :
  wf_tx t -> vin (prefix t) <> [] -> version (prefix t) = 2 ->
  exists h, calculate_transaction_hash H t = Some h /\
    get_pruned_transaction_hash H (strip t) (H (drop (Z.to_nat (unprunable_size t)) (tx_to_blob t))) = Ok h.
Proof.
  intros Ht Hv H2. pose proof (vin_has_rct t Ht Hv) as Hr. exists (H (tx_preimage H t)). split; [by apply tx_hash_parts |].
  rewrite (proj2 (unprunable_prefix t Ht Hr)). unfold get_pruned_transaction_hash. cbn [prefix rct strip]. rewrite H2.
  change (w_tx_rct (strip t)) with (w_tx_rct t). destruct (wf_tx_writes t Ht Hr) as (_ & -> & _). cbn [negb].
  by unfold tx_preimage, prunable_hash, get_transaction_prefix_hash, base_blob.
Qed.

(** Every well-formed block is read back from its blob; and an accepted blob
    of a block whose miner transaction has inputs is the blob of the block,
    except that the count 0 at the end of a block without transactions may be
    cut off: a reader at the end of the input still yields 0. *)
Theorem block_blob_accepted blob b :
  bytes blob -> vin (prefix (miner_tx b)) <> [] ->
  parse_and_validate_block_from_blob blob = Some b <->
  wf_block b /\ (blob = block_to_blob b \/ exists body tail,
    tx_hashes b = [] /\ blob = body ++ tail /\ block_to_blob b = body ++ [0] /\ r_varint 64 tail = Some (0, [])).
Proof.
  intros Hb Hv. split.
  - intros E. apply block_accepts; [done.. |].
    unfold has_rct. apply andb_true_iff. split; [| by destruct (vin _)].
    apply Z.leb_le. by eapply parsed_miner_version.
  - intros [Hw [-> | (body & tail & Ht & -> & Eb & Er)]].
    + by apply (parse_binary_roundtrip _ _ _ _ block_codec).
    + by apply (block_cut b body tail).
Qed.

(** C33: the identifier of a block commits to the whole block, up to collisions
    between the strings hashed for the one block and for the other. *)
Theorem block_hash_binding (H : list Z -> key) `{!FastHash H} b b' h :
  wf_block b -> wf_block b' -> vin (prefix (miner_tx b)) <> [] -> vin (prefix (miner_tx b')) <> [] ->
  zlen (tx_hashes b) < CRYPTONOTE_MAX_TX_PER_BLOCK -> zlen (tx_hashes b') < CRYPTONOTE_MAX_TX_PER_BLOCK ->
  get_block_hash H b = Ok h -> get_block_hash H b' = Ok h ->
  b = b' \/ collide H (block_inputs H b) (block_inputs H b').
Proof.
  intros Hb Hb' Hv Hv'. apply block_hash_inj; [done | done | done | |].
  - apply vin_has_rct; [apply Hb | done].
  - apply vin_has_rct; [apply Hb' | done].
Qed.

(** ** Witnesses *)

(** Well-formedness is decidable. *)
#[export] Instance wf_target_dec t : Decision (wf_target t).
Proof. unfold wf_target, wf_txout_to_script. destruct t; apply _. Defined.
#[export] Instance wf_tx_out_dec o : Decision (wf_tx_out o).
Proof. unfold wf_tx_out. apply _. Defined.
#[export] Instance wf_txin_dec i : Decision (wf_txin i).
Proof.
  unfold wf_txin, wf_txin_to_script, wf_txin_to_scripthash, wf_txin_to_key, wf_txout_to_script. destruct i; apply _.
Defined.
#[export] Instance wf_prefix_dec p : Decision (wf_prefix p).
Proof. unfold wf_prefix. apply _. Defined.
#[export] Instance wf_ecdh_dec ty e : Decision (wf_ecdh ty e).
Proof. unfold wf_ecdh. destruct (short_amounts ty); apply _. Defined.
#[export] Instance ecdhTuple_eq_dec : EqDecision ecdhTuple.
Proof. solve_decision. Defined.
#[export] Instance rctSigBase_eq_dec : EqDecision rctSigBase.
Proof. solve_decision. Defined.
#[export] Instance rctSigPrunable_eq_dec : EqDecision rctSigPrunable.
Proof.
  assert (EqDecision rangeSig) by solve_decision. assert (EqDecision Bulletproof) by solve_decision.
  assert (EqDecision BulletproofPlus) by solve_decision. assert (EqDecision mgSig) by solve_decision.
  assert (EqDecision clsag) by solve_decision. solve_decision.
Defined.
#[export] Instance optional_dec {A} (c : bool) (P : list A -> Prop) l : (forall l, Decision (P l)) -> Decision (optional c P l).
Proof. intros. unfold optional. destruct c; [apply _ |]. destruct l; [left | right]; done. Defined.
#[export] Instance wf_base_dec i o b : Decision (wf_base i o b).
Proof. unfold wf_base. destruct (type b =? RCTTypeNull); apply _. Defined.
#[export] Instance wf_range_proofs_dec ty o t : Decision (wf_range_proofs ty o t).
Proof.
  unfold wf_range_proofs, wf_proofs, wf_BulletproofPlus, wf_Bulletproof, wf_rangeSig.
  assert (forall l : list Bulletproof, Decision (l = [])) by (intros []; [by left | by right]).
  assert (forall l : list BulletproofPlus, Decision (l = [])) by (intros []; [by left | by right]).
  assert (forall l : list rangeSig, Decision (l = [])) by (intros []; [by left | by right]).
  assert (forall t : list rangeSig * list Bulletproof, Decision (t = ([], []))) by (intros [[] []]; first [by left | by right]).
  destruct (ty =? _), (bulletproof2 ty), (bulletproof1 ty); apply _.
Defined.
#[export] Instance wf_signatures_dec ty i m t : Decision (wf_signatures ty i m t).
Proof.
  unfold wf_signatures, wf_clsag, wf_mg.
  assert (forall l : list mgSig, Decision (l = [])) by (intros []; [by left | by right]).
  assert (forall l : list clsag, Decision (l = [])) by (intros []; [by left | by right]).
  destruct (clsag_type ty); apply _.
Defined.
#[export] Instance wf_tx_dec t : Decision (wf_tx t).
Proof.
  unfold wf_tx, wf_rct, wf_prunable. destruct (has_rct (prefix t)), (type (rct t) =? RCTTypeNull); apply _.
Defined.
#[export] Instance wf_block_dec b : Decision (wf_block b).
Proof. unfold wf_block, wf_block_header. apply _. Defined.

Definition any_point : key -> bool := fun _ => true.

(** A key whose bytes are all [n]. *)
Definition k (n : Z) : key := replicate 32 n.

(** A transaction with one ring of two members and two outputs. *)
Definition some_tx : transaction :=
  Transaction
    (Transaction_prefix 2 0 [In_to_key (Txin_to_key 0 [7; 300] (k 1))]
      [Tx_out 0 (Out_to_key (k 2)); Tx_out 0 (Out_to_key (k 3))] (1 :: k 4))
    (RctSigBase RCTTypeBulletproofPlus 1000000 []
      [EcdhTuple (zeros 32) (replicate 8 5 ++ zeros 24); EcdhTuple (zeros 32) (replicate 8 6 ++ zeros 24)] [k 7; k 8])
    (RctSigPrunable [] [] [mkBulletproofPlus (k 9) (k 10) (k 11) (k 12) (k 13) (k 14) (replicate 7 (k 15)) (replicate 7 (k 16))]
      [] [Clsag [k 17; k 18] (k 19) (k 20)] [k 21])
    false.

Definition some_coinbase : transaction :=
  Transaction (Transaction_prefix 2 65 [In_gen 5] [Tx_out 100 (Out_to_key (k 2))] (1 :: k 4)) no_rct no_prunable false.

Definition some_block (txs : list key) : block :=
  Block (Block_header 12 12 1600000000 (k 1) 77) some_coinbase txs.

Lemma some_tx_wf : wf_tx some_tx.
Proof. by_decide. Qed.

Lemma some_block_wf : wf_block (some_block []) /\ wf_block (some_block [k 2; k 3; k 4]).
Proof. split; by_decide. Qed.

Lemma tx_blob_roundtrip_witness :
  parse_and_validate_tx_from_blob any_point (tx_to_blob some_tx) = Ok (Some some_tx) /\
  parse_and_validate_tx_base_from_blob any_point (take (Z.to_nat (unprunable_size some_tx)) (tx_to_blob some_tx))
    = Ok (Some (strip some_tx)).
Proof. apply (tx_blob_roundtrip any_point some_tx); [apply some_tx_wf | done | vm_compute; reflexivity]. Defined.

Lemma tx_blob_canonical_witness : wf_tx some_tx /\ tx_to_blob some_tx = tx_to_blob some_tx.
Proof.
  apply (tx_blob_canonical any_point (tx_to_blob some_tx) some_tx); [by_decide | vm_compute; reflexivity | done].
Defined.

Lemma tx_hash_binding_witness :
  some_tx = some_tx \/
  collide cn_fast_hash (tx_inputs cn_fast_hash some_tx) (tx_inputs cn_fast_hash some_tx).
Proof.
  pose proof (tx_hash_parts cn_fast_hash some_tx some_tx_wf eq_refl) as E.
  apply (tx_hash_binding cn_fast_hash some_tx some_tx (cn_fast_hash (tx_preimage cn_fast_hash some_tx)));
    [apply some_tx_wf | apply some_tx_wf | done | done | exact E | exact E].
Defined.

Lemma pruned_tx_hash_witness :
  exists h, calculate_transaction_hash cn_fast_hash some_tx = Some h /\
    get_pruned_transaction_hash cn_fast_hash (strip some_tx)
      (cn_fast_hash (drop (Z.to_nat (unprunable_size some_tx)) (tx_to_blob some_tx))) = Ok h.
Proof. apply (pruned_tx_hash cn_fast_hash some_tx); [apply some_tx_wf | done | reflexivity]. Defined.

Lemma block_blob_accepted_witness :
  parse_and_validate_block_from_blob (take 118 (block_to_blob (some_block []))) = Some (some_block []) /\
  length (block_to_blob (some_block [])) = 119%nat.
Proof.
  split; [| vm_compute; reflexivity].
  apply (block_blob_accepted (take 118 (block_to_blob (some_block []))) (some_block [])); [by_decide | done |].
  split; [apply some_block_wf | right]. exists (take 118 (block_to_blob (some_block []))), [].
  split_and!; [done | symmetry; apply app_nil_r | vm_compute; reflexivity | vm_compute; reflexivity].
Defined.

Lemma some_block_hash : exists h, get_block_hash cn_fast_hash (some_block [k 2; k 3; k 4]) = Ok h.
Proof. eexists. vm_compute. reflexivity. Qed.

Lemma block_hash_binding_witness :
  let b := some_block [k 2; k 3; k 4] in
  b = b \/ collide cn_fast_hash (block_inputs cn_fast_hash b) (block_inputs cn_fast_hash b).
Proof.
  intros b. destruct some_block_hash as [h E].
  apply (block_hash_binding cn_fast_hash b b h);
    [apply some_block_wf | apply some_block_wf | done | done | by_decide | by_decide | exact E | exact E].
Defined.
