(* ===== verification/TxWeight.v ===== *)
(** * The weight of a transaction

    [get_transaction_weight], [get_pruned_transaction_weight] and
    [get_transaction_weight_clawback] of
    [src/cryptonote_basic/cryptonote_format_utils.cpp], and the functions of
    [src/ringct/rctTypes.cpp] that count the outputs of range proofs. The weight
    is the size of the blob plus what an aggregated range proof saves over one
    proof for two outputs each; a node that has only the pruned transaction
    computes it from the sizes that the missing part must have. The theorem is
    that the two computations agree on every transaction whose range proof is
    for exactly its outputs, as the verification requires. *)
From S2P Require Import Prelude Config Varint Archive TxFormat TxCodec.

Import Tx.
Open Scope Z_scope.

(** Source: src/src/cryptonote_config.h:55 (BULLETPROOF_MAX_OUTPUTS) *)
Definition BULLETPROOF_MAX_OUTPUTS : Z := 16.

(** Source: src/src/cryptonote_config.h:56 (BULLETPROOF_PLUS_MAX_OUTPUTS) *)
Definition BULLETPROOF_PLUS_MAX_OUTPUTS : Z := 16.

(** Source: src/src/ringct/rctTypes.cpp:228-240 (is_rct_bulletproof) *)
Definition is_rct_bulletproof (type : Z) : bool :=
  (type =? RCTTypeBulletproof1Simple) || (type =? RCTTypeBulletproof1Full) || (type =? RCTTypeBulletproof2) ||
  (type =? RCTTypeCLSAG).

(** Source: src/src/ringct/rctTypes.cpp:242-251 (is_rct_bulletproof_plus) *)
Definition is_rct_bulletproof_plus (type : Z) : bool := type =? RCTTypeBulletproofPlus.

(** Source: src/src/ringct/rctTypes.cpp:253-263 (is_rct_clsag) *)
Definition is_rct_clsag (type : Z) : bool := (type =? RCTTypeCLSAG) || (type =? RCTTypeBulletproofPlus).

(** The number of outputs of a proof with [V] commitments; 0 if it is malformed
    or longer than that number needs. The two kinds of proofs have the same
    code.
    Source: src/src/ringct/rctTypes.cpp:277-288 (n_bulletproof_amounts) *)
Definition n_bulletproof_amounts (V : Z) (L R : list key) : Z :=
  if zlen L <? 6 then 0
  else if negb (zlen L =? zlen R) then 0
  else if 6 + 4 <? zlen L then 0
  else if negb (V <=? Z.shiftl 1 (zlen L - 6)) then 0
  else if negb (Z.shiftl 1 (zlen L - 6) <? V *! 2) then 0
  else if negb (0 <? V) then 0
  else V.

(** The loop [while ((1u << nlr) < n) ++nlr]: a shift by 32 is undefined.
    Source: src/src/cryptonote_basic/cryptonote_format_utils.cpp:116-118 (get_transaction_weight_clawback) *)
Fixpoint padding_log2 (fuel : nat) (nlr n : Z) : outcome Z :=
  if u32 (Z.shiftl 1 nlr) <? n then
    match fuel with
    | O => Undef
    | S fuel => padding_log2 fuel (nlr + 1) n
    end
  else Ok nlr.

(** Source: src/src/cryptonote_basic/cryptonote_format_utils.cpp:108-129 (get_transaction_weight_clawback) *)
Definition get_transaction_weight_clawback (tx : transaction) (n_padded_outputs : Z) : outcome Z :=
  let plus := type (rct tx) =? RCTTypeBulletproofPlus in
  let bp_base := 32 * ((if plus then 6 else 9) + 7 * 2) / 2 in
  let n_outputs := zlen (vout (prefix tx)) in
  if n_padded_outputs <=? 2 then Ok 0 else
  nlr ← padding_log2 31 0 n_padded_outputs;
  let nlr := nlr + 6 in
  let bp_size := 32 * ((if plus then 6 else 9) + 2 * nlr) in
  let max_outputs := if plus then BULLETPROOF_PLUS_MAX_OUTPUTS else BULLETPROOF_MAX_OUTPUTS in
  if negb (n_outputs <=? max_outputs) then Throw "maximum number of outputs"
  else if negb (bp_size <=? bp_base *! n_padded_outputs) then Throw "Invalid bulletproof clawback"
  else Ok ((((bp_base *! n_padded_outputs) -! bp_size) *! 4) / 5).

(** The number of outputs the range proofs of the transaction have room for.
    Source: src/src/cryptonote_basic/cryptonote_format_utils.cpp:466 (get_transaction_weight) *)
Definition padded_outputs (tx : transaction) : Z :=
  if is_rct_bulletproof_plus (type (rct tx)) then n_bulletproof_plus_max_amounts (bulletproofs_plus (rct_p tx))
  else n_bulletproof_max_amounts (bulletproofs (rct_p tx)).

(** Source: src/src/cryptonote_basic/cryptonote_format_utils.cpp:456-470 (get_transaction_weight) *)
Definition get_transaction_weight (tx : transaction) (blob_size : Z) : outcome Z :=
  if pruned tx then Ok (2 ^ 64 - 1) else
  if version (prefix tx) <? 2 then Ok blob_size else
  let ty := type (rct tx) in
  if negb (is_rct_bulletproof ty) && negb (is_rct_bulletproof_plus ty) then Ok blob_size else
  bp_clawback ← get_transaction_weight_clawback tx (padded_outputs tx);
  if negb (bp_clawback <=? (2 ^ 64 - 1) -! blob_size) then Throw "Weight overflow"
  else Ok (blob_size +! bp_clawback).

(** Source: src/src/cryptonote_basic/cryptonote_format_utils.cpp:472-516 (get_pruned_transaction_weight) *)
Definition get_pruned_transaction_weight (tx : transaction) : outcome Z :=
  let max := 2 ^ 64 - 1 in
  let ty := type (rct tx) in
  if negb (pruned tx) then Ok max else
  if negb (2 <=? version (prefix tx)) then Ok max else
  if negb ((ty =? RCTTypeBulletproof2) || (ty =? RCTTypeCLSAG) || (ty =? RCTTypeBulletproofPlus)) then Ok max else
  match vin (prefix tx) with
  | In_to_key i :: _ =>
      let inputs := zlen (vin (prefix tx)) in
      let weight := zlen (w_transaction tx).1 +! 1 in
      nrl ← padding_log2 31 0 (zlen (vout (prefix tx)));
      let n_padded_outputs := u32 (Z.shiftl 1 nrl) in
      let nrl := nrl + 6 in
      let weight := weight +! (32 * ((if is_rct_bulletproof_plus ty then 6 else 9) + 2 * nrl) + 2) in
      let ring_size := zlen (key_offsets i) in
      let weight := weight +! (if is_rct_clsag ty then (inputs *! (ring_size +! 2)) *! 32
                               else inputs *! (((ring_size *! (1 + 1)) *! 32) +! 32)) in
      let weight := weight +! (32 *! inputs) in
      bp_clawback ← get_transaction_weight_clawback tx n_padded_outputs;
      if negb (bp_clawback <=? max -! weight) then Throw "Weight overflow"
      else Ok (weight +! bp_clawback)
  | _ => Ok max
  end.

(** ** The sizes of what is written *)

(** Every value with [P] is written in [n] bytes. *)
Definition sized {A} (P : A -> Prop) (w : A -> writer) (n : Z) : Prop :=
  forall a, P a -> (w a).2 = true /\ zlen (w a).1 = n.

Lemma then_sized {A} (P : A -> Prop) (w1 w2 : A -> writer) m n :
  sized P w1 m -> sized P w2 n -> sized P (fun a => w1 a ⋙ w2 a) (m + n).
Proof.
  intros H1 H2 a Ha. destruct (H1 a Ha) as [T1 L1], (H2 a Ha) as [T2 L2].
  destruct (w_then_true (w1 a) (w2 a) T1) as [-> ->]. by rewrite zlen_app, L1, L2.
Qed.

Lemma done_sized {A} (P : A -> Prop) : sized P (fun _ => w_done) 0.
Proof. done. Qed.

Lemma field_sized {A B} (P : B -> Prop) (Q : A -> Prop) (f : A -> B) w n :
  sized P w n -> (forall a, Q a -> P (f a)) -> sized Q (fun a => w (f a)) n.
Proof. intros H Hf a Ha. by apply H, Hf. Qed.

Lemma key_sized : sized is_key w_key 32.
Proof. intros a [_ Ha]. split; [done |]. unfold w_key, w_blob, zlen. cbn [fst]. by rewrite Ha. Qed.

Lemma check_sized {A} (P : A -> Prop) c : (forall a, P a -> c a = true) -> sized P (fun a => w_check (c a)) 0.
Proof. intros H a Ha. unfold w_check. by rewrite (H a Ha). Qed.

Lemma array_sized {A} (P : A -> Prop) w m n : sized P w m -> sized (array_of P n) (w_array w) (Z.of_nat n * m).
Proof.
  intros H l [<- Hl]. induction Hl as [| a l Ha _ [T L]]; [done |]. cbn [w_array length].
  destruct (H a Ha) as [Ta La]. destruct (w_then_true (w a) (w_array w l) Ta) as [-> ->].
  rewrite zlen_app, La, L. split; [done | lia].
Qed.

Lemma fixed_sized {A} (P : A -> Prop) w m n : sized P w m -> sized (array_of P n) (w_fixed n w) (Z.of_nat n * m).
Proof.
  intros H. apply (then_sized _ _ _ 0); [| by apply array_sized].
  apply check_sized. intros l [Hl _]. by apply Nat.eqb_eq.
Qed.

Lemma short_container_sized {A} (P : A -> Prop) w m n :
  (n < 128)%nat -> sized P w m -> sized (array_of P n) (w_container w) (Z.of_nat n * m + 1).
Proof.
  intros Hn H. rewrite Z.add_comm. apply then_sized; [| by apply array_sized].
  intros l [Hl _]. split; [done |]. unfold w_varint, get_varint_data. cbn [fst write_varint_loop].
  unfold zlen at 2. rewrite Hl. by destruct (Z.leb_spec 0x80 (Z.of_nat n)); [lia |].
Qed.

(** Range proofs whose vectors have [n] keys. *)
Definition bulletproof_of (n : nat) (p : Bulletproof) : Prop :=
  wf_Bulletproof p /\ length (bp_L p) = n /\ length (bp_R p) = n.

Definition bulletproof_plus_of (n : nat) (p : BulletproofPlus) : Prop :=
  wf_BulletproofPlus p /\ length (bpp_L p) = n /\ length (bpp_R p) = n.

Ltac size_keys :=
  repeat first
    [ apply done_sized
    | eapply field_sized; [apply short_container_sized; [eassumption | apply key_sized] |]
    | apply then_sized
    | eapply field_sized; [apply key_sized |]
    | apply check_sized ].

Lemma bulletproof_sized n : (n < 128)%nat -> sized (bulletproof_of n) w_Bulletproof (32 * (9 + 2 * Z.of_nat n) + 2).
Proof.
  intros Hn. replace (32 * (9 + 2 * Z.of_nat n) + 2) with
    (32 + (32 + (32 + (32 + (32 + (32 + ((Z.of_nat n * 32 + 1) + ((Z.of_nat n * 32 + 1) + (32 + (32 + (32 + (0 + 0)))))))))))) by lia.
  unfold w_Bulletproof. size_keys; intros p (Hp & HL & HR); destruct Hp as (?&?&?&?&?&?&[]&[]&?&?&?&?); first [eassumption | by split].
Qed.

Lemma bulletproof_plus_sized n : (n < 128)%nat -> sized (bulletproof_plus_of n) w_BulletproofPlus (32 * (6 + 2 * Z.of_nat n) + 2).
Proof.
  intros Hn. replace (32 * (6 + 2 * Z.of_nat n) + 2) with
    (32 + (32 + (32 + (32 + (32 + (32 + ((Z.of_nat n * 32 + 1) + ((Z.of_nat n * 32 + 1) + (0 + 0))))))))) by lia.
  unfold w_BulletproofPlus. size_keys; intros p (Hp & HL & HR); destruct Hp as (?&?&?&?&?&?&[]&[]&?); first [eassumption | by split].
Qed.

Lemma clsag_sized ring : sized (wf_clsag ring) (w_clsag ring) (32 * (Z.of_nat ring + 2)).
Proof.
  replace (32 * (Z.of_nat ring + 2)) with (Z.of_nat ring * 32 + (32 + (32 + 0))) by lia.
  unfold w_clsag. repeat apply then_sized; try apply done_sized.
  1: eapply field_sized; [apply fixed_sized, key_sized |]. 2-3: eapply field_sized; [apply key_sized |].
  all: intros c Hc; apply Hc.
Qed.

Lemma mg_sized ring rows : sized (wf_mg ring rows) (w_mg ring rows) (Z.of_nat ring * (Z.of_nat rows * 32) + 32).
Proof.
  rewrite <- (Z.add_0_r 32) at 2. unfold w_mg. repeat apply then_sized; try apply done_sized.
  1: eapply field_sized; [apply fixed_sized, fixed_sized, key_sized |]. 2: eapply field_sized; [apply key_sized |].
  all: intros c Hc; apply Hc.
Qed.

(** ** The two weights *)

(** The vectors of the only range proof. *)
Definition range_proof (ty : Z) (p : rctSigPrunable) : option (list key * list key) :=
  if is_rct_bulletproof_plus ty
  then match bulletproofs_plus p with [p] => Some (bpp_L p, bpp_R p) | _ => None end
  else match bulletproofs p with [p] => Some (bp_L p, bp_R p) | _ => None end.

(** The range proof is for the outputs and no longer than needed. *)
Definition exact_range_proof (t : transaction) : bool :=
  match range_proof (type (rct t)) (rct_p t) with
  | Some (L, R) => negb (n_bulletproof_amounts (zlen (outPk (rct t))) L R =? 0)
  | None => false
  end.

(** The size of the range proofs with their count, of the signatures, and of the
    pseudo outputs. *)
Definition proof_size (ty : Z) (n : nat) : Z :=
  1 + (32 * ((if is_rct_bulletproof_plus ty then 6 else 9) + 2 * Z.of_nat n) + 2).

Definition signatures_size (ty inputs ring : Z) : Z :=
  (if is_rct_clsag ty then inputs * (32 * (ring + 2)) else inputs * (ring * (2 * 32) + 32)) + inputs * 32.

(** What [n_bulletproof_amounts] checks. *)
Lemma amounts_spec V L R : 0 <= V < 2 ^ 62 -> n_bulletproof_amounts V L R <> 0 ->
  exists j, length L = (6 + j)%nat /\ length R = (6 + j)%nat /\ (j <= 4)%nat /\ 0 < V /\ V <= 2 ^ Z.of_nat j < 2 * V.
Proof.
  intros HV. unfold n_bulletproof_amounts. pose proof (zlen_nonneg L) as HL.
  destruct (Z.ltb_spec (zlen L) 6); [done |]. destruct (Z.eqb_spec (zlen L) (zlen R)) as [E |]; cbn [negb]; [| done].
  destruct (Z.ltb_spec (6 + 4) (zlen L)); [done |]. rewrite Z.shiftl_mul_pow2, Z.mul_1_l, u64_small by lia.
  destruct (Z.leb_spec V (2 ^ (zlen L - 6))); cbn [negb]; [| done].
  destruct (Z.ltb_spec (2 ^ (zlen L - 6)) (V * 2)); cbn [negb]; [| done].
  destruct (Z.ltb_spec 0 V); cbn [negb]; [| done]. intros _. exists (length L - 6)%nat. unfold zlen in *.
  replace (Z.of_nat (length L - 6)) with (Z.of_nat (length L) - 6) by lia. lia.
Qed.

Lemma max_amounts_exact L R j : length L = (6 + j)%nat -> length R = (6 + j)%nat -> (j <= 4)%nat ->
  sum_max_amounts 0 [(L, R)] = 2 ^ Z.of_nat j.
Proof.
  intros HL HR Hj. cbn [sum_max_amounts]. unfold max_amounts, zlen. rewrite HL, HR.
  do 5 (destruct j as [| j]; [by vm_compute |]). lia.
Qed.

Lemma padding_log2_exact n j : (j <= 4)%nat -> 0 < n -> n <= 2 ^ Z.of_nat j < 2 * n ->
  padding_log2 31 0 n = Ok (Z.of_nat j).
Proof.
  intros Hj H0 Hn. destruct (Z_of_nat_complete n) as [m ->]; [lia |].
  assert (m <= 16)%nat by (do 5 (destruct j as [| j]; [cbn in Hn; lia |]); lia).
  do 17 (destruct m as [| m]; [do 5 (destruct j as [| j]; [cbn in Hn; first [lia | by vm_compute] |]); lia |]). lia.
Qed.

(** The clawback is defined for one proof of at most 16 outputs. *)
Lemma clawback_exact t j : (j <= 4)%nat -> zlen (vout (prefix t)) <= 16 ->
  exists c, get_transaction_weight_clawback t (2 ^ Z.of_nat j) = Ok c /\ 0 <= c <= 2 ^ 20.
Proof.
  intros Hj Hv. unfold get_transaction_weight_clawback, BULLETPROOF_MAX_OUTPUTS, BULLETPROOF_PLUS_MAX_OUTPUTS.
  destruct (type (rct t) =? RCTTypeBulletproofPlus); destruct (Z.leb_spec (zlen (vout (prefix t))) 16); try lia;
    do 5 (destruct j as [| j]; [by eexists; split; [vm_compute; reflexivity | lia] |]); lia.
Qed.

Lemma proofs_sized {A} (P : A -> Prop) w max outputs m p : sized P w m -> P p ->
  1 <= Z.of_nat outputs <= max [p] ->
  (w_proofs w max outputs [p]).2 = true /\ zlen (w_proofs w max outputs [p]).1 = 1 + m.
Proof.
  intros Hs Hp Ho. destruct (Hs p Hp) as [T L].
  unfold w_proofs. change (u32 (zlen [p])) with 1. change (take (Z.to_nat 1) [p]) with [p]. cbn [w_array].
  change (w_varint 1) with ([1], true).
  destruct (Z.ltb_spec (Z.of_nat outputs) 1); [lia |]. destruct (Z.ltb_spec (max [p]) (Z.of_nat outputs)); [lia |].
  unfold w_then, w_check, w_done. cbn [negb fst snd]. rewrite T. cbn [fst snd]. split; [done |].
  rewrite !app_nil_r. cbn [app]. rewrite zlen_cons, L. lia.
Qed.

Lemma signatures_sized ty inputs mix p :
  wf_signatures ty inputs mix (signatures_of p) -> short_amounts ty = true ->
  (w_signatures ty inputs mix p).2 = true /\
  zlen (w_signatures ty inputs mix p).1 = signatures_size ty (Z.of_nat inputs) (Z.of_nat mix + 1).
Proof.
  unfold wf_signatures, w_signatures, signatures_size, signatures_of. cbn [fst snd].
  change (is_rct_clsag ty) with (clsag_type ty). replace (Z.of_nat mix + 1) with (Z.of_nat (mix + 1)) by lia.
  destruct (clsag_type ty) eqn:Hc.
  - intros (_ & Hcl & Hps) _. rewrite <- (Z.add_0_r (Z.of_nat inputs * 32)).
    apply (then_sized (fun p => array_of (wf_clsag (mix + 1)) inputs (CLSAGs p) /\ array_of is_key inputs (p_pseudoOuts p))
      (fun p => w_fixed inputs (w_clsag (mix + 1)) (CLSAGs p)) (fun p => w_fixed inputs w_key (p_pseudoOuts p) ⋙ w_done));
      [| | done].
    + eapply field_sized; [apply fixed_sized, clsag_sized | tauto].
    + apply then_sized; [| apply done_sized]. eapply field_sized; [apply fixed_sized, key_sized | tauto].
  - intros (_ & Hmg & Hps) Hs.
    assert (ty = RCTTypeBulletproof2) as -> by (revert Hs Hc; unfold short_amounts, clsag_type; split_cmp; cbn; done || lia).
    cbn -[w_fixed w_mg signatures_size] in *. rewrite <- (Z.add_0_r (Z.of_nat inputs * 32)).
    apply (then_sized (fun p => array_of (wf_mg (mix + 1) 2) inputs (MGs p) /\ array_of is_key inputs (p_pseudoOuts p))
      (fun p => w_fixed inputs (w_mg (mix + 1) 2) (MGs p)) (fun p => w_fixed inputs w_key (p_pseudoOuts p) ⋙ w_done));
      [| | done].
    + eapply field_sized; [apply fixed_sized, mg_sized | tauto].
    + apply then_sized; [| apply done_sized]. eapply field_sized; [apply fixed_sized, key_sized | tauto].
Qed.

Lemma range_proofs_sized ty outputs p L R n :
  wf_range_proofs ty outputs (proofs_of p) -> short_amounts ty = true -> range_proof ty p = Some (L, R) ->
  length L = n -> length R = n -> (n < 128)%nat ->
  (w_range_proofs ty outputs p).2 = true /\ zlen (w_range_proofs ty outputs p).1 = proof_size ty n.
Proof.
  intros Hw Hs Hp HL HR Hn. unfold wf_range_proofs, w_range_proofs, proof_size, range_proof, is_rct_bulletproof_plus in *.
  destruct (Z.eqb_spec ty RCTTypeBulletproofPlus) as [-> | Hne].
  - destruct (bulletproofs_plus p) as [| q [|]] eqn:E; [done | | done]. apply (inj Some) in Hp as [= <- <-].
    destruct Hw as (_ & _ & Hq & Ho). unfold proofs_of in Hq, Ho. cbn [snd] in Hq, Ho. rewrite E in Hq, Ho.
    apply (proofs_sized (bulletproof_plus_of n)); [by apply bulletproof_plus_sized | | done].
    split; [by inversion Hq | done].
  - destruct (bulletproofs p) as [| q [|]] eqn:E; [done | | done]. apply (inj Some) in Hp as [= <- <-].
    assert (H2 : bulletproof2 ty = true)
      by (revert Hs Hne; unfold short_amounts, bulletproof2; split_cmp; cbn; done || lia). rewrite H2 in *.
    destruct Hw as (_ & _ & _ & Hq & Ho). unfold proofs_of in Hq, Ho. cbn [fst snd] in Hq, Ho. rewrite E in Hq, Ho.
    apply (proofs_sized (bulletproof_of n)); [by apply bulletproof_sized | | done].
    split; [by inversion Hq | done].
Qed.

Lemma prunable_size t L R n :
  wf_tx t -> has_rct (prefix t) = true -> short_amounts (type (rct t)) = true ->
  range_proof (type (rct t)) (rct_p t) = Some (L, R) -> length L = n -> length R = n -> (n < 128)%nat ->
  zlen (prunable_blob t) =
    proof_size (type (rct t)) n + signatures_size (type (rct t)) (zlen (vin (prefix t))) (mixin (prefix t) + 1) /\
  0 <= mixin (prefix t) < 2 ^ 32.
Proof.
  intros (_ & _ & Hr) Hrct Hs Hp HL HR Hn. unfold wf_rct in Hr. rewrite Hrct in Hr. destruct Hr as [_ Hr].
  assert (Hnn : type (rct t) <> RCTTypeNull) by (intros E; rewrite E in Hs; done).
  unfold prunable_blob, w_tx_prunable, w_rctsig_prunable. destruct (Z.eqb_spec (type (rct t)) RCTTypeNull); [done |].
  destruct Hr as (Hc & Hk & Hrp & Hsig). rewrite Hc, Hk.
  assert (Hm : 0 <= mixin (prefix t) < 2 ^ 32).
  { split; [unfold mixin; destruct (vin _) as [| []]; try done; apply u64_range |].
    revert Hc. unfold counts_ok. split_cmp; cbn; done || lia. }
  split; [| done]. destruct (range_proofs_sized _ _ _ _ _ n Hrp Hs Hp HL HR Hn) as [T1 L1].
  destruct (signatures_sized _ _ _ _ Hsig Hs) as [T2 L2]. unfold w_check. unfold w_then at 1 2. cbn [fst snd app].
  rewrite (proj1 (w_then_true _ _ T1)), zlen_app, L1, L2.
  rewrite !Z2Nat.id by (apply zlen_nonneg || lia). done.
Qed.

(** The weight of a whole transaction whose range proof has [6 + j] keys. *)
Lemma weight_exact t j c :
  pruned t = false -> version (prefix t) = 2 -> short_amounts (type (rct t)) = true ->
  padded_outputs t = 2 ^ Z.of_nat j -> get_transaction_weight_clawback t (2 ^ Z.of_nat j) = Ok c ->
  0 <= c <= 2 ^ 20 -> 0 <= zlen (tx_to_blob t) < 2 ^ 62 ->
  get_transaction_weight t (zlen (tx_to_blob t)) = Ok (zlen (tx_to_blob t) + c).
Proof.
  intros Hf H2 Hs Hpad Hc Hc20 Hlen. unfold get_transaction_weight. rewrite Hf, H2. cbn [Z.ltb Z.compare Pos.compare Pos.compare_cont].
  assert (negb (is_rct_bulletproof (type (rct t))) && negb (is_rct_bulletproof_plus (type (rct t))) = false) as ->
    by (revert Hs; unfold short_amounts, is_rct_bulletproof, is_rct_bulletproof_plus; split_cmp; done).
  rewrite Hpad, Hc. simpl_bind. rewrite (u64_small (2 ^ 64 - 1 - _)), u64_small by lia.
  by destruct (Z.leb_spec c (2 ^ 64 - 1 - zlen (tx_to_blob t))); [| lia].
Qed.

Lemma strip_blob t : wf_tx t -> has_rct (prefix t) = true ->
  (w_transaction (strip t)).1 = (w_prefix (prefix t)).1 ++ base_blob t.
Proof.
  intros Ht Hr. destruct (wf_tx_writes t Ht Hr) as (Tp & Tb & _). unfold w_transaction. cbn [prefix strip]. rewrite Hr.
  rewrite (proj1 (w_then_true _ _ Tp)). change (w_tx_rct (strip t)) with (w_tx_rct t).
  rewrite (proj1 (w_then_true _ _ Tb)). cbn [pruned strip negb andb w_done fst]. by rewrite app_nil_r.
Qed.

Lemma outputs_of t : wf_tx t -> has_rct (prefix t) = true -> short_amounts (type (rct t)) = true ->
  zlen (outPk (rct t)) = zlen (vout (prefix t)) /\ zlen (vout (prefix t)) < 2 ^ 32.
Proof.
  intros (_ & _ & Hr) Hrct Hs. unfold wf_rct, wf_base in Hr. rewrite Hrct in Hr.
  destruct (Z.eqb_spec (type (rct t)) RCTTypeNull) as [E | _]; [by rewrite E in Hs |].
  destruct Hr as [(_ & _ & _ & _ & [Hl _]) (Hc & _)]. split; [unfold zlen; by rewrite Hl |].
  revert Hc. unfold counts_ok. split_cmp; cbn; done || lia.
Qed.

Lemma padded_exact t L R j : range_proof (type (rct t)) (rct_p t) = Some (L, R) ->
  length L = (6 + j)%nat -> length R = (6 + j)%nat -> (j <= 4)%nat -> padded_outputs t = 2 ^ Z.of_nat j.
Proof.
  intros Hp HL HR Hj. unfold range_proof, padded_outputs in *. destruct (is_rct_bulletproof_plus _).
  - destruct (bulletproofs_plus (rct_p t)) as [| q [|]]; [done | | done]. injection Hp as <- <-. by apply max_amounts_exact.
  - destruct (bulletproofs (rct_p t)) as [| q [|]]; [done | | done]. injection Hp as <- <-. by apply max_amounts_exact.
Qed.

(** The sum does not wrap around. *)
Lemma pruned_sum b ty j inputs ring :
  0 <= b -> 0 <= inputs -> 0 <= ring < 2 ^ 33 ->
  b + (proof_size ty (6 + j) + signatures_size ty inputs ring) < 2 ^ 62 ->
  (b +! 1) +! (32 * ((if is_rct_bulletproof_plus ty then 6 else 9) + 2 * (Z.of_nat j + 6)) + 2) +!
    (if is_rct_clsag ty then (inputs *! (ring +! 2)) *! 32 else inputs *! (((ring *! (1 + 1)) *! 32) +! 32)) +! (32 *! inputs)
  = b + (proof_size ty (6 + j) + signatures_size ty inputs ring).
Proof.
  intros Hb Hi Hr. unfold proof_size, signatures_size. set (n := if is_rct_bulletproof_plus ty then 6 else 9).
  assert (Hn : 6 <= n <= 9) by (unfold n; destruct (is_rct_bulletproof_plus ty); lia). clearbody n. intros Hs.
  rewrite (u64_small (ring + 2)), (u64_small (ring * (1 + 1))), (u64_small (ring * (1 + 1) * 32)), (u64_small (_ + 32)) by lia.
  destruct (is_rct_clsag ty).
  - replace (inputs * (32 * (ring + 2))) with (inputs * (ring + 2) * 32) in * by lia.
    assert (0 <= inputs * (ring + 2)) by nia. set (sig := inputs * (ring + 2)) in *. clearbody sig.
    rewrite (u64_small sig), (u64_small (sig * 32)), (u64_small (32 * inputs)), (u64_small (b + 1)) by lia.
    rewrite (u64_small (b + 1 + _)) by lia. do 2 rewrite u64_small by (rewrite ?u64_small; lia). lia.
  - replace (ring * (1 + 1) * 32 + 32) with (ring * (2 * 32) + 32) by lia.
    assert (0 <= inputs * (ring * (2 * 32) + 32)) by nia. set (sig := inputs * _) in *. clearbody sig.
    rewrite (u64_small sig), (u64_small (32 * inputs)), (u64_small (b + 1)) by lia.
    rewrite (u64_small (b + 1 + _)) by lia. do 2 rewrite u64_small by (rewrite ?u64_small; lia). lia.
Qed.

(** The sizes that are added up for a pruned transaction are those of the parts
    cut off. *)
Lemma pruned_weight_exact t i rest L R j c :
  wf_tx t -> has_rct (prefix t) = true -> version (prefix t) = 2 -> short_amounts (type (rct t)) = true ->
  vin (prefix t) = In_to_key i :: rest -> zlen (tx_to_blob t) < 2 ^ 62 ->
  range_proof (type (rct t)) (rct_p t) = Some (L, R) -> length L = (6 + j)%nat -> length R = (6 + j)%nat ->
  (j <= 4)%nat -> 0 < zlen (vout (prefix t)) -> zlen (vout (prefix t)) <= 2 ^ Z.of_nat j < 2 * zlen (vout (prefix t)) ->
  get_transaction_weight_clawback t (2 ^ Z.of_nat j) = Ok c -> 0 <= c <= 2 ^ 20 ->
  get_pruned_transaction_weight (strip t) = Ok (zlen (tx_to_blob t) + c).
Proof.
  intros Ht Hr H2 Hs Hi Hlen Hp HL HR Hj Hv Hvj Hc Hc20.
  destruct (prunable_size t L R (6 + j) Ht Hr Hs Hp HL HR ltac:(lia)) as [Hq Hm].
  assert (Hring : mixin (prefix t) + 1 = zlen (key_offsets i)).
  { revert Hm. unfold mixin. rewrite Hi. pose proof (zlen_nonneg (key_offsets i)).
    destruct (decide (zlen (key_offsets i) = 0)) as [E | Hne]; [rewrite E; change (0 -! 1) with 18446744073709551615; lia |].
    intros _. assert (Ho : zlen (key_offsets i) < 2 ^ 64).
    { destruct Ht as ((_ & _ & [_ Hin] & _) & _). rewrite Hi in Hin. inversion_clear Hin as [| ? ? Hk _].
      by destruct Hk as (_ & [? _] & _). }
    rewrite u64_small by lia. lia. }
  rewrite Hring in Hq. destruct (tx_blob_parts t Ht Hr) as (Eb & _). rewrite Eb, app_assoc, zlen_app, Hq in Hlen |- *.
  rewrite <- (strip_blob t Ht Hr) in Hlen |- *. unfold get_pruned_transaction_weight. cbn [pruned prefix rct strip].
  rewrite H2. change (negb true) with false. change (negb (2 <=? 2)) with false. cbv iota.
  assert ((type (rct t) =? RCTTypeBulletproof2) || (type (rct t) =? RCTTypeCLSAG) || (type (rct t) =? RCTTypeBulletproofPlus) = true)
    as -> by exact Hs. cbn [negb].
  remember (zlen (vin (prefix t))) as inputs eqn:Ein. rewrite Hi.
  rewrite (padding_log2_exact _ j) by done. simpl_bind.
  assert (u32 (Z.shiftl 1 (Z.of_nat j)) = 2 ^ Z.of_nat j) as -> by (do 5 (destruct j as [| j]; [done |]); lia).
  change (get_transaction_weight_clawback (strip t)) with (get_transaction_weight_clawback t). rewrite Hc. simpl_bind.
  rewrite (pruned_sum _ (type (rct t)) j inputs (zlen (key_offsets i)))
    by (try done; first [apply zlen_nonneg | rewrite <- Hring; lia | rewrite Ein; apply zlen_nonneg]).
  set (total := zlen (w_transaction (strip t)).1 + _) in *.
  assert (0 <= total).
  { unfold total. rewrite <- Hq. pose proof (zlen_nonneg (prunable_blob t)). pose proof (zlen_nonneg (w_transaction (strip t)).1). lia. }
  rewrite (u64_small (2 ^ 64 - 1 - total)), u64_small by lia.
  by destruct (Z.leb_spec c (2 ^ 64 - 1 - total)); [| lia].
Qed.

(** A node that has pruned a transaction computes the same weight for it as a
    node that has it whole, whenever the transaction is well formed, spends
    outputs, and has one range proof that is for its outputs and no longer than
    they need. *)
Theorem pruned_weight_agrees t i rest :
  wf_tx t -> version (prefix t) = 2 -> short_amounts (type (rct t)) = true ->
  vin (prefix t) = In_to_key i :: rest -> exact_range_proof t = true -> zlen (tx_to_blob t) < 2 ^ 62 ->
  exists w, get_transaction_weight t (zlen (tx_to_blob t)) = Ok w /\
            get_pruned_transaction_weight (strip t) = Ok w.
Proof.
  intros Ht H2 Hs Hi He Hlen. assert (Hr : has_rct (prefix t) = true) by (apply vin_has_rct; [done | by rewrite Hi]).
  unfold exact_range_proof in He. destruct (range_proof _ _) as [[L R] |] eqn:Hp; [| done].
  apply negb_true_iff, Z.eqb_neq in He. destruct (outputs_of t Ht Hr Hs) as [Ho Hmax]. rewrite Ho in He.
  apply amounts_spec in He as (j & HL & HR & Hj & Hv & Hvj); [| pose proof (zlen_nonneg (vout (prefix t))); lia].
  destruct (clawback_exact t j Hj) as (c & Hc & Hc20); [pose proof (Z.pow_le_mono_r 2 (Z.of_nat j) 4); lia |].
  exists (zlen (tx_to_blob t) + c). split.
  - apply (weight_exact t j); try done; [apply Ht | | split; [apply zlen_nonneg | done]].
    by apply (padded_exact t L R).
  - by apply (pruned_weight_exact t i rest L R j).
Qed.

Lemma pruned_weight_agrees_witness :
  exists w, get_transaction_weight some_tx (zlen (tx_to_blob some_tx)) = Ok w /\
            get_pruned_transaction_weight (strip some_tx) = Ok w.
Proof.
  eapply (pruned_weight_agrees some_tx); [apply some_tx_wf | reflexivity | reflexivity | reflexivity | reflexivity | by_decide].
Defined.
