(* ===== verification/ChainStore.v ===== *)
(** * The chain database: [src/blockchain_db]

    The tables that [BlockchainLMDB] keeps for the main chain and the operations
    of [BlockchainDB] and [BlockchainLMDB] that add a block with its
    transactions and take the top one back. A table is a finite map from its key
    (for tables with one key and sorted duplicates, from the part of a record
    they are sorted by); [MDB_APPEND] and [MDB_APPENDDUP] refuse a key that does
    not come after all others. The cache that feeds the proof of work and the
    counters [m_cum_size] and [m_cum_count], which only
    estimate sizes, are left out.

    The hash, the test for points of the curve and the commitment to a public
    amount are parameters. The theorems: popping a block is the exact inverse of
    adding it, so the contents of the database are a function of the chain; a
    well-formed block with inputs of the supported kinds is refused exactly when
    its transactions, key images, hash or parent say so; no key image is ever
    spent twice; and the queries return every stored block, transaction and
    output. *)
From S2P Require Import Prelude Config FastHash ChainDb HardFork Archive TxFormat TxCodec.

Open Scope Z_scope.

Module Store.
Import Tx.

Abbreviation blob := (list Z).

(** ** Tables *)

(** The greatest key. *)
Definition last_key {A} (m : gmap Z A) : option Z :=
  map_fold (fun k _ last => Some (match last with Some j => Z.max k j | None => k end)) None m.

(** [mdb_cursor_put] with [MDB_APPEND] or [MDB_APPENDDUP]. *)
Definition put_append {A} (k : Z) (v : A) (m : gmap Z A) : outcome (gmap Z A) :=
  match last_key m with
  | Some j => if k <=? j then Throw "MDB_KEYEXIST" else Ok (<[k := v]> m)
  | None => Ok (<[k := v]> m)
  end.

(** The number of records, [ms_entries] of [mdb_stat]. *)
Definition entries {K A} `{Countable K} (m : gmap K A) : Z := Z.of_nat (size m).

(** [cum_rct] is the number of outputs with hidden amount up to the block.
    Source: src/src/blockchain_db/lmdb/db_lmdb.h:57-68 (mdb_block_info_4) *)
Record block_row := Block_row { info : block_info; cum_rct : Z }.

Record block_tables := Block_tables {
  blocks : gmap Z blob;
  block_infos : gmap Z block_row;
  block_heights : gmap key Z
}.

(** Source: src/src/blockchain_db/blockchain_db.h:128-133 (tx_data_t) *)
Record tx_data := Tx_data { tx_id : Z; tx_unlock_time : Z; block_id : Z }.

Record tx_tables := Tx_tables {
  tx_indices : gmap key tx_data;
  txs_pruned : gmap Z blob;
  txs_prunable : gmap Z blob;
  txs_prunable_hash : gmap Z key;
  txs_prunable_tip : gmap Z Z
}.

(** Source: src/src/blockchain_db/lmdb/db_lmdb.cpp:298-302 (outtx) *)
Record outtx := Outtx { ot_tx_hash : key; ot_local_index : Z }.

(** The commitment is stored for the amount 0 only.
    Source: src/src/blockchain_db/lmdb/db_lmdb.cpp:292-296 (outkey) *)
Record outkey := Outkey {
  ok_output_id : Z; ok_pubkey : key; ok_unlock_time : Z; ok_height : Z; ok_commitment : option key
}.

(** [output_amounts] is keyed by the amount and the index among its outputs. *)
Record out_tables := Out_tables {
  tx_outputs : gmap Z (list Z);
  output_txs : gmap Z outtx;
  output_amounts : gmap (Z * Z) outkey
}.

Record store := Store_of {
  block_t : block_tables;
  tx_t : tx_tables;
  out_t : out_tables;
  spent_keys : gset key;
  pruning_seed : Z
}.

Definition empty_store (seed : Z) : store :=
  Store_of (Block_tables ∅ ∅ ∅) (Tx_tables ∅ ∅ ∅ ∅ ∅) (Out_tables ∅ ∅ ∅) ∅ seed.

Definition with_blocks (t : block_tables) (s : store) : store :=
  Store_of t (tx_t s) (out_t s) (spent_keys s) (pruning_seed s).
Definition with_txs (t : tx_tables) (s : store) : store :=
  Store_of (block_t s) t (out_t s) (spent_keys s) (pruning_seed s).
Definition with_outs (t : out_tables) (s : store) : store :=
  Store_of (block_t s) (tx_t s) t (spent_keys s) (pruning_seed s).
Definition with_spent (k : gset key) (s : store) : store :=
  Store_of (block_t s) (tx_t s) (out_t s) k (pruning_seed s).

(** ** Blocks *)

(** Source: src/src/blockchain_db/lmdb/db_lmdb.cpp:3550-3562 (BlockchainLMDB::height) *)
Definition height (s : store) : Z := entries (blocks (block_t s)).

(** Source: src/src/blockchain_db/lmdb/db_lmdb.cpp:693-769 (BlockchainLMDB::add_block) *)
Definition add_block_data (t : block_tables) (b : block) (block_weight long_term_block_weight cumulative_difficulty
    coins_generated num_rct_outs : Z) (blk_hash : key) : outcome block_tables :=
  let m_height := entries (blocks t) in
  if decide (is_Some (block_heights t !! blk_hash)) then Throw "BLOCK_EXISTS" else
  _ ← (if 0 <? m_height then
         match block_heights t !! prev_id (header b) with
         | None => Throw "DB_ERROR"
         | Some h => if negb (h =? m_height - 1) then Throw "BLOCK_PARENT_DNE" else Ok ()
         end
       else Ok ());
  new_blocks ← put_append m_height (block_to_blob b) (blocks t);
  prev_rct ← (if 1 <=? m_height then
                match block_infos t !! (m_height - 1) with
                | None => Throw "BLOCK_DNE"
                | Some prev => Ok (cum_rct prev)
                end
              else Ok 0);
  let bi := Block_row (Block_info (timestamp (header b)) coins_generated block_weight cumulative_difficulty
                         blk_hash long_term_block_weight) (num_rct_outs +! prev_rct) in
  new_infos ← put_append m_height bi (block_infos t);
  Ok (Block_tables new_blocks new_infos (<[blk_hash := m_height]> (block_heights t))).

(** [cursor] is where the cursor of the [blocks] table stands, on the block read
    last: the function deletes there.
    Source: src/src/blockchain_db/lmdb/db_lmdb.cpp:771-818 (BlockchainLMDB::remove_block) *)
Definition remove_block (cursor : Z) (t : block_tables) : outcome block_tables :=
  let m_height := entries (blocks t) in
  if m_height =? 0 then Throw "BLOCK_DNE" else
  match block_infos t !! (m_height - 1) with
  | None => Throw "BLOCK_DNE"
  | Some bi =>
      let h := bi_hash (info bi) in
      if decide (is_Some (block_heights t !! h)) then
        if decide (is_Some (blocks t !! cursor)) then
          Ok (Block_tables (delete cursor (blocks t)) (delete (m_height - 1) (block_infos t)) (delete h (block_heights t)))
        else Throw "DB_ERROR"
      else Throw "DB_ERROR"
  end.

(** Source: src/src/blockchain_db/lmdb/db_lmdb.cpp:3116-3140 (BlockchainLMDB::get_block_blob_from_height) *)
Definition get_block_blob_from_height (s : store) (height : Z) : outcome blob :=
  match blocks (block_t s) !! height with Some bd => Ok bd | None => Throw "BLOCK_DNE" end.

(** Source: src/src/blockchain_db/blockchain_db.cpp:263-271 (BlockchainDB::get_block_from_height) *)
Definition get_block_from_height (s : store) (height : Z) : outcome block :=
  bd ← get_block_blob_from_height s height;
  match parse_and_validate_block_from_blob bd with Some b => Ok b | None => Throw "DB_ERROR" end.

(** The block of the empty chain is a default-constructed one.
    Source: src/src/blockchain_db/lmdb/db_lmdb.cpp:3535-3548 (BlockchainLMDB::get_top_block) *)
Definition get_top_block (s : store) : outcome block :=
  let m_height := height s in
  if negb (m_height =? 0) then get_block_from_height s (m_height - 1)
  else Ok (Block (Block_header 0 0 0 (zeros 32) 0)
             (Transaction (Transaction_prefix 1 0 [] [] []) no_rct no_prunable false) []).

(** Source: src/src/blockchain_db/lmdb/db_lmdb.cpp:2387-2406 (BlockchainLMDB::get_block_height) *)
Definition get_block_height (s : store) (h : key) : outcome Z :=
  match block_heights (block_t s) !! h with Some n => Ok n | None => Throw "BLOCK_DNE" end.

(** Source: src/src/blockchain_db/lmdb/db_lmdb.cpp:2348-2377 (BlockchainLMDB::block_exists) *)
Definition block_exists (s : store) (h : key) : bool := bool_decide (is_Some (block_heights (block_t s) !! h)).

(** The records that [ChainDb.v] reads. *)
Definition info_chain (s : store) : chain :=
  omap (fun h => info <$> block_infos (block_t s) !! Z.of_nat h) (seq 0 (size (blocks (block_t s)))).

(** ** Key images *)

(** Source: src/src/blockchain_db/lmdb/db_lmdb.cpp:1187-1202 (BlockchainLMDB::add_spent_key) *)
Definition add_spent_key (k_image : key) (spent : gset key) : outcome (gset key) :=
  if decide (k_image ∈ spent) then Throw "KEY_IMAGE_EXISTS" else Ok ({[ k_image ]} ∪ spent).

(** Source: src/src/blockchain_db/lmdb/db_lmdb.cpp:1204-1222 (BlockchainLMDB::remove_spent_key) *)
Definition remove_spent_key (k_image : key) (spent : gset key) : gset key := spent ∖ {[ k_image ]}.

(** Source: src/src/blockchain_db/lmdb/db_lmdb.cpp:3987-4002 (BlockchainLMDB::has_key_image) *)
Definition has_key_image (s : store) (img : key) : bool := bool_decide (img ∈ spent_keys s).

(** ** Outputs *)

(** Source: src/src/blockchain_db/lmdb/db_lmdb.cpp:3564-3584 (BlockchainLMDB::num_outputs) *)
Definition num_outputs (t : out_tables) : Z :=
  match last_key (output_txs t) with Some id => 1 +! id | None => 0 end.

(** Source: src/src/blockchain_db/lmdb/db_lmdb.cpp:3852-3874 (BlockchainLMDB::get_num_outputs) *)
Definition get_num_outputs (t : out_tables) (amount : Z) : Z :=
  entries (filter (fun kv => kv.1.1 = amount) (output_amounts t)).

(** The greatest index among the outputs of an amount. *)
Definition last_index (t : out_tables) (amount : Z) : option Z :=
  last_key (list_to_map (map (fun kv => (kv.1.2, ())) (map_to_list (filter (fun kv => kv.1.1 = amount) (output_amounts t))))).

(** Source: src/src/blockchain_db/lmdb/db_lmdb.cpp:983-1047 (BlockchainLMDB::add_output) *)
Definition add_output (m_height : Z) (t : out_tables) (tx_hash : key) (tx_output : tx_out) (local_index unlock_time : Z)
    (commitment : option key) : outcome (Z * out_tables) :=
  let m_num_outputs := num_outputs t in
  match target tx_output with
  | Out_to_key pubkey =>
      if (out_amount tx_output =? 0) && bool_decide (commitment = None) then Throw "DB_ERROR" else
      new_txs ← put_append m_num_outputs (Outtx tx_hash local_index) (output_txs t);
      let amount := out_amount tx_output in
      let amount_index := get_num_outputs t amount in
      let ok := Outkey m_num_outputs pubkey unlock_time m_height (if amount =? 0 then commitment else None) in
      match last_index t amount with
      | Some j => if amount_index <=? j then Throw "DB_ERROR" else
          Ok (amount_index, Out_tables (tx_outputs t) new_txs (<[(amount, amount_index) := ok]> (output_amounts t)))
      | None => Ok (amount_index, Out_tables (tx_outputs t) new_txs (<[(amount, amount_index) := ok]> (output_amounts t)))
      end
  | _ => Throw "DB_ERROR"
  end.

(** Source: src/src/blockchain_db/lmdb/db_lmdb.cpp:1049-1070 (BlockchainLMDB::add_tx_amount_output_indices) *)
Definition add_tx_amount_output_indices (t : out_tables) (tx_id : Z) (indices : list Z) : outcome out_tables :=
  new ← put_append tx_id indices (tx_outputs t);
  Ok (Out_tables new (output_txs t) (output_amounts t)).

(** Source: src/src/blockchain_db/lmdb/db_lmdb.cpp:1095-1131 (BlockchainLMDB::remove_output) *)
Definition remove_output (t : out_tables) (amount out_index : Z) : outcome out_tables :=
  match output_amounts t !! (amount, out_index) with
  | None => Throw "OUTPUT_DNE"
  | Some ok =>
      if decide (is_Some (output_txs t !! ok_output_id ok)) then
        Ok (Out_tables (tx_outputs t) (delete (ok_output_id ok) (output_txs t))
              (delete (amount, out_index) (output_amounts t)))
      else Throw "DB_ERROR"
  end.

(** The loop over the outputs, from the last one down.
    Source: src/src/blockchain_db/lmdb/db_lmdb.cpp:1088-1092 (BlockchainLMDB::remove_tx_outputs) *)
Fixpoint remove_outputs (is_pseudo_rct : bool) (outs : list tx_out) (indices : list Z) (i : nat) (t : out_tables)
    : outcome out_tables :=
  match i with
  | O => Ok t
  | S i =>
      o ← at_or_undef (outs !! i);
      index ← at_or_undef (indices !! i);
      t ← remove_output t (if is_pseudo_rct then 0 else out_amount o) index;
      remove_outputs is_pseudo_rct outs indices i t
  end.

(** Source: src/src/blockchain_db/lmdb/db_lmdb.cpp:1072-1093 (BlockchainLMDB::remove_tx_outputs) *)
Definition remove_tx_outputs (t : out_tables) (tx_id : Z) (tx : transaction) : outcome out_tables :=
  indices ← at_or_undef (tx_outputs t !! tx_id);
  let outs := vout (prefix tx) in
  if (length indices =? 0)%nat && negb (length outs =? 0)%nat then Throw "DB_ERROR" else
  remove_outputs (is_coinbase tx) outs indices (length outs) t.

(** What a query says of an output; [None] stands for a commitment that is not set.
    Source: src/src/blockchain_db/blockchain_db.h:118-124 (output_data_t) *)
Record output_data_t := Output_data {
  od_pubkey : key; od_unlock_time : Z; od_height : Z; od_commitment : option key
}.

(** The record of an amount other than 0 has no commitment.
    Source: src/src/blockchain_db/lmdb/db_lmdb.cpp:3876-3906 (BlockchainLMDB::get_output_key_only) *)
Definition get_output_key_only (s : store) (amount index : Z) : outcome output_data_t :=
  match output_amounts (out_t s) !! (amount, index) with
  | Some ok =>
      Ok (Output_data (ok_pubkey ok) (ok_unlock_time ok) (ok_height ok) (if amount =? 0 then ok_commitment ok else None))
  | None => Throw "OUTPUT_DNE"
  end.

(** The loop over the offsets; [zeroCommit] is [rct::zeroCommit].
    Source: src/src/blockchain_db/lmdb/db_lmdb.cpp:4602-4633 (BlockchainLMDB::get_output_key) *)
Fixpoint output_keys (zeroCommit : Z -> bool -> key) (t : out_tables) (v2 allow_partial : bool) (offsets : list (Z * Z))
    : outcome (list output_data_t) :=
  match offsets with
  | [] => Ok []
  | (amount, offset) :: offsets =>
      match output_amounts t !! (amount, offset) with
      | None => if allow_partial then Ok [] else Throw "OUTPUT_DNE"
      | Some ok =>
          let data := Output_data (ok_pubkey ok) (ok_unlock_time ok) (ok_height ok)
                        (if amount =? 0 then ok_commitment ok else Some (zeroCommit amount v2)) in
          outputs ← output_keys zeroCommit t v2 allow_partial offsets;
          Ok (data :: outputs)
      end
  end.

(** One amount stands for all offsets.
    Source: src/src/blockchain_db/lmdb/db_lmdb.cpp:4586-4639 (BlockchainLMDB::get_output_key) *)
Definition get_output_key (zeroCommit : Z -> bool -> key) (s : store) (amounts offsets : list Z) (v2 allow_partial : bool)
    : outcome (list output_data_t) :=
  if negb (length amounts =? 1)%nat && negb (length amounts =? length offsets)%nat then Throw "DB_ERROR" else
  let amounts := match amounts with [amount] => replicate (length offsets) amount | _ => amounts end in
  output_keys zeroCommit (out_t s) v2 allow_partial (zip amounts offsets).

(** Source: src/src/blockchain_db/lmdb/db_lmdb.cpp:3908-3929 (BlockchainLMDB::get_output_tx_and_index_from_global) *)
Definition get_output_tx_and_index_from_global (s : store) (output_id : Z) : outcome outtx :=
  match output_txs (out_t s) !! output_id with Some ot => Ok ot | None => Throw "OUTPUT_DNE" end.

(** Source: src/src/blockchain_db/lmdb/db_lmdb.cpp:4641-4675 (BlockchainLMDB::get_output_tx_and_index) *)
Definition get_output_tx_and_index (s : store) (amount index : Z) : outcome outtx :=
  match output_amounts (out_t s) !! (amount, index) with
  | Some ok => get_output_tx_and_index_from_global s (ok_output_id ok)
  | None => Throw "OUTPUT_DNE"
  end.

(** The least key after [k], where [MDB_NEXT] goes. *)
Definition next_key {A} (m : gmap Z A) (k : Z) : option Z :=
  map_fold (fun j _ next => if k <? j then Some (match next with Some i => Z.min i j | None => j end) else next) None m.

(** The loop over [n_txes] records from [k] on. A record that is not found leaves
    the value unset, which is read nevertheless.
    Source: src/src/blockchain_db/lmdb/db_lmdb.cpp:3958-3982 (BlockchainLMDB::get_tx_amount_output_indices) *)
Fixpoint output_indices_from (m : gmap Z (list Z)) (k : option Z) (n_txes : nat) : outcome (list (list Z)) :=
  match n_txes with
  | O => Ok []
  | S n_txes =>
      k ← at_or_undef k;
      indices ← at_or_undef (m !! k);
      rest ← output_indices_from m (next_key m k) n_txes;
      Ok (indices :: rest)
  end.

(** Source: src/src/blockchain_db/lmdb/db_lmdb.cpp:3944-3985 (BlockchainLMDB::get_tx_amount_output_indices) *)
Definition get_tx_amount_output_indices (s : store) (tx_id : Z) (n_txes : nat) : outcome (list (list Z)) :=
  output_indices_from (tx_outputs (out_t s)) (Some tx_id) n_txes.

(** ** Transactions *)

(** Source: src/src/blockchain_db/lmdb/db_lmdb.cpp:3798-3813 (BlockchainLMDB::get_tx_count) *)
Definition get_tx_count (t : tx_tables) : Z := entries (txs_pruned t).

(** Where the prunable part of the blob starts, an [unsigned int].
    Source: src/src/blockchain_db/lmdb/db_lmdb.cpp:860-870 (BlockchainLMDB::add_transaction_data) *)
Definition pruned_size (tx : transaction) : outcome Z :=
  let size := u32 (unprunable_size tx) in
  if size =? 0 then
    let w := w_transaction_base tx in
    if w.2 then Ok (u32 (zlen w.1)) else Throw "DB_ERROR"
  else Ok size.

(** Source: src/src/blockchain_db/lmdb/db_lmdb.cpp:820-903 (BlockchainLMDB::add_transaction_data) *)
Definition add_transaction_data (m_height seed : Z) (t : tx_tables) (tx : transaction) (tx_blob : blob)
    (tx_hash : key) (tx_prunable_hash : key) : outcome (Z * tx_tables) :=
  let id := get_tx_count t in
  if decide (is_Some (tx_indices t !! tx_hash)) then Throw "TX_EXISTS" else
  let indices := <[tx_hash := Tx_data id (unlock_time (prefix tx)) m_height]> (tx_indices t) in
  size ← pruned_size tx;
  if zlen tx_blob <? size then Throw "DB_ERROR" else
  new_pruned ← put_append id (take (Z.to_nat size) tx_blob) (txs_pruned t);
  new_prunable ← put_append id (drop (Z.to_nat size) tx_blob) (txs_prunable t);
  let tip := if negb (seed =? 0) then <[id := m_height]> (txs_prunable_tip t) else txs_prunable_tip t in
  new_hash ← (if 1 <? version (prefix tx) then put_append id tx_prunable_hash (txs_prunable_hash t)
              else Ok (txs_prunable_hash t));
  Ok (id, Tx_tables indices new_pruned new_prunable new_hash tip).

(** Source: src/src/blockchain_db/lmdb/db_lmdb.cpp:907-981 (BlockchainLMDB::remove_transaction_data) *)
Definition remove_transaction_data (s : store) (tx_hash : key) (tx : transaction) : outcome store :=
  let t := tx_t s in
  match tx_indices t !! tx_hash with
  | None => Throw "TX_DNE"
  | Some data =>
      let id := tx_id data in
      if negb (bool_decide (is_Some (txs_pruned t !! id))) then Throw "DB_ERROR" else
      if (1 <? version (prefix tx)) && negb (bool_decide (is_Some (txs_prunable_hash t !! id))) then Throw "DB_ERROR" else
      outs ← remove_tx_outputs (out_t s) id tx;
      let outs := Out_tables (delete id (tx_outputs outs)) (output_txs outs) (output_amounts outs) in
      Ok (with_outs outs (with_txs
            (Tx_tables (delete tx_hash (tx_indices t)) (delete id (txs_pruned t)) (delete id (txs_prunable t))
               (if 1 <? version (prefix tx) then delete id (txs_prunable_hash t) else txs_prunable_hash t)
               (delete id (txs_prunable_tip t))) s))
  end.

(** Source: src/src/blockchain_db/lmdb/db_lmdb.cpp:3586-3616 (BlockchainLMDB::tx_exists) *)
Definition tx_exists (s : store) (h : key) : bool := bool_decide (is_Some (tx_indices (tx_t s) !! h)).

(** The second form, which also returns the number of the transaction.
    Source: src/src/blockchain_db/lmdb/db_lmdb.cpp:3618-3650 (BlockchainLMDB::tx_exists) *)
Definition tx_exists_id (s : store) (h : key) : option Z := tx_id <$> tx_indices (tx_t s) !! h.

(** Source: src/src/blockchain_db/lmdb/db_lmdb.cpp:3652-3671 (BlockchainLMDB::get_tx_unlock_time) *)
Definition get_tx_unlock_time (s : store) (h : key) : outcome Z :=
  match tx_indices (tx_t s) !! h with Some data => Ok (tx_unlock_time data) | None => Throw "TX_DNE" end.

(** Source: src/src/blockchain_db/lmdb/db_lmdb.cpp:3829-3850 (BlockchainLMDB::get_tx_block_height) *)
Definition get_tx_block_height (s : store) (h : key) : outcome Z :=
  match tx_indices (tx_t s) !! h with Some data => Ok (block_id data) | None => Throw "TX_DNE" end.

(** Source: src/src/blockchain_db/lmdb/db_lmdb.cpp:3673-3707 (BlockchainLMDB::get_tx_blob) *)
Definition get_tx_blob (s : store) (h : key) : option blob :=
  data ← tx_indices (tx_t s) !! h;
  pruned ← txs_pruned (tx_t s) !! tx_id data;
  prunable ← txs_prunable (tx_t s) !! tx_id data;
  Some (pruned ++ prunable).

(** Source: src/src/blockchain_db/lmdb/db_lmdb.cpp:3709-3736 (BlockchainLMDB::get_pruned_tx_blob) *)
Definition get_pruned_tx_blob (s : store) (h : key) : option blob :=
  data ← tx_indices (tx_t s) !! h; txs_pruned (tx_t s) !! tx_id data.

(** ** Blocks with their transactions: [BlockchainDB] *)

Section Database.
(** [cn_fast_hash], the test of [scalarmultKey], and [rct::zeroCommit_v1]. *)
Context (cn_fast_hash : list Z -> key) (valid_point : key -> bool) (zeroCommit_v1 : Z -> key).

(** Source: src/src/cryptonote_basic/cryptonote_format_utils.cpp:1072-1077 (get_transaction_hash) *)
Definition get_transaction_hash (tx : transaction) : outcome key :=
  match calculate_transaction_hash cn_fast_hash tx with
  | Some h => Ok h
  | None => Throw "Failed to calculate transaction hash"
  end.

(** Source: src/src/cryptonote_basic/cryptonote_format_utils.cpp:1107-1124 (get_transaction_prunable_hash) *)
Definition get_transaction_prunable_hash (tx : transaction) (tx_blob : blob) : outcome key :=
  match calculate_transaction_prunable_hash cn_fast_hash tx (Some tx_blob) with
  | Some h => Ok h
  | None => Throw "Failed to calculate tx prunable hash"
  end.

(** The key images of the inputs. *)
Definition key_images (ins : list txin_v) : list key :=
  omap (fun i => match i with In_to_key i => Some (k_image i) | _ => None end) ins.

Definition remove_spent_keys (images : list key) (spent : gset key) : gset key :=
  fold_left (fun spent k => remove_spent_key k spent) images spent.

(** The loop over the inputs: the key images, and whether one generates money;
    [None] when an input of another kind ends it, after which the key images of
    all inputs are removed.
    Source: src/src/blockchain_db/blockchain_db.cpp:113-136 (BlockchainDB::add_transaction) *)
Fixpoint add_inputs (all ins : list txin_v) (miner_tx : bool) (spent : gset key) : outcome (option bool * gset key) :=
  match ins with
  | [] => Ok (Some miner_tx, spent)
  | In_to_key i :: ins => spent ← add_spent_key (k_image i) spent; add_inputs all ins miner_tx spent
  | In_gen _ :: ins => add_inputs all ins true spent
  | _ => Ok (None, remove_spent_keys (key_images all) spent)
  end.

(** The loop over the outputs; those of a miner transaction are stored with the
    amount 0 and a commitment to their amount.
    Source: src/src/blockchain_db/blockchain_db.cpp:144-160 (BlockchainDB::add_transaction) *)
Fixpoint add_outputs (m_height : Z) (tx : transaction) (tx_hash : key) (miner_tx : bool) (outs : list tx_out) (i : nat)
    (t : out_tables) : outcome (list Z * out_tables) :=
  match outs with
  | [] => Ok ([], t)
  | o :: outs =>
      '(o, commitment) ← (if miner_tx then Ok (Tx_out 0 (target o), zeroCommit_v1 (out_amount o))
                          else (fun mask : key => (o, mask)) <$> at_or_undef (outPk (rct tx) !! i));
      '(index, t) ← add_output m_height t tx_hash o (Z.of_nat i) (unlock_time (prefix tx)) (Some commitment);
      '(indices, t) ← add_outputs m_height tx tx_hash miner_tx outs (S i) t;
      Ok (index :: indices, t)
  end.

(** [tx_hash_ptr] is null for the miner transaction.
    Source: src/src/blockchain_db/blockchain_db.cpp:89-162 (BlockchainDB::add_transaction) *)
Definition add_transaction (s : store) (tx : transaction) (tx_blob : blob) (tx_hash_ptr : option key) : outcome store :=
  tx_hash ← (match tx_hash_ptr with Some h => Ok h | None => get_transaction_hash tx end);
  tx_prunable_hash ← (if 2 <=? version (prefix tx) then get_transaction_prunable_hash tx tx_blob else Ok []);
  '(miner_tx, spent) ← add_inputs (vin (prefix tx)) (vin (prefix tx)) false (spent_keys s);
  match miner_tx with
  | None => Ok (with_spent spent s)
  | Some miner_tx =>
      '(id, txs) ← add_transaction_data (height s) (pruning_seed s) (tx_t s) tx tx_blob tx_hash tx_prunable_hash;
      '(indices, outs) ← add_outputs (height s) tx tx_hash miner_tx (vout (prefix tx)) 0 (out_t s);
      outs ← add_tx_amount_output_indices outs id indices;
      Ok (with_outs outs (with_txs txs (with_spent spent s)))
  end.

(** The loop over the transactions of a block, [blk.tx_hashes] beside [txs].
    Source: src/src/blockchain_db/blockchain_db.cpp:193-203 (BlockchainDB::add_block) *)
Fixpoint add_transactions (s : store) (hashes : list key) (txs : list (transaction * blob)) (num_rct_outs : Z)
    : outcome (store * Z) :=
  match hashes, txs with
  | h :: hashes, (tx, tx_blob) :: txs =>
      s ← add_transaction s tx tx_blob (Some h);
      add_transactions s hashes txs
        (fold_left (fun n o => if out_amount o =? 0 then n +! 1 else n) (vout (prefix tx)) num_rct_outs)
  | _, _ => Ok (s, num_rct_outs)
  end.

(** What comes with a block: its weights, the cumulative difficulty and the
    coins generated up to it, and its transactions. *)
Record block_entry := Block_entry {
  e_block : block;
  e_weight : Z;
  e_long_term_weight : Z;
  e_difficulty : Z;
  e_coins : Z;
  e_txs : list (transaction * blob)
}.

(** Everything but the call of [HardFork::add], which is in [add_block].
    Source: src/src/blockchain_db/blockchain_db.cpp:164-211 (BlockchainDB::add_block) *)
Definition add_block_tables (s : store) (e : block_entry) : outcome store :=
  let blk := e_block e in
  if negb (length (tx_hashes blk) =? length (e_txs e))%nat then Throw "Inconsistent tx/hashes sizes" else
  blk_hash ← get_block_hash cn_fast_hash blk;
  s ← add_transaction s (miner_tx blk) (tx_to_blob (miner_tx blk)) None;
  '(s, num_rct_outs) ← add_transactions s (tx_hashes blk) (e_txs e) (zlen (vout (prefix (miner_tx blk))));
  t ← add_block_data (block_t s) blk (e_weight e) (e_long_term_weight e) (e_difficulty e) (e_coins e) num_rct_outs blk_hash;
  Ok (with_blocks t s).

(** Source: src/src/blockchain_db/blockchain_db.cpp:283-292 (BlockchainDB::get_tx) *)
Definition get_tx (s : store) (h : key) : outcome (option transaction) :=
  match get_tx_blob s h with
  | None => Ok None
  | Some bd =>
      tx ← parse_and_validate_tx_from_blob valid_point bd;
      match tx with Some tx => Ok (Some tx) | None => Throw "DB_ERROR" end
  end.

(** Source: src/src/blockchain_db/blockchain_db.cpp:294-303 (BlockchainDB::get_pruned_tx) *)
Definition get_pruned_tx (s : store) (h : key) : outcome (option transaction) :=
  match get_pruned_tx_blob s h with
  | None => Ok None
  | Some bd =>
      tx ← parse_and_validate_tx_base_from_blob valid_point bd;
      match tx with Some tx => Ok (Some tx) | None => Throw "DB_ERROR" end
  end.

(** Source: src/src/blockchain_db/blockchain_db.cpp:247-261 (BlockchainDB::remove_transaction) *)
Definition remove_transaction (s : store) (tx_hash : key) : outcome store :=
  tx ← get_pruned_tx s tx_hash;
  match tx with
  | None => Throw "TX_DNE"
  | Some tx =>
      remove_transaction_data (with_spent (remove_spent_keys (key_images (vin (prefix tx))) (spent_keys s)) s) tx_hash tx
  end.

(** The loop over the hashes, the last one first.
    Source: src/src/blockchain_db/blockchain_db.cpp:231-238 (BlockchainDB::pop_block) *)
Fixpoint pop_transactions (s : store) (hashes : list key) : outcome (list transaction * store) :=
  match hashes with
  | [] => Ok ([], s)
  | h :: hashes =>
      tx ← get_tx s h;
      tx ← (match tx with Some tx => Ok (Some tx) | None => get_pruned_tx s h end);
      match tx with
      | None => Throw "DB_ERROR"
      | Some tx =>
          s ← remove_transaction s h;
          '(txs, s) ← pop_transactions s hashes;
          Ok (tx :: txs, s)
      end
  end.

(** Reading the top block leaves the cursor of the [blocks] table on it.
    Source: src/src/blockchain_db/blockchain_db.cpp:225-240 (BlockchainDB::pop_block) *)
Definition pop_block (s : store) : outcome (block * list transaction * store) :=
  blk ← get_top_block s;
  t ← remove_block (height s - 1) (block_t s);
  '(txs, s) ← pop_transactions (with_blocks t s) (rev (tx_hashes blk));
  miner_hash ← get_transaction_hash (miner_tx blk);
  s ← remove_transaction s miner_hash;
  Ok (blk, txs, s).

(** ** The hard fork state beside the tables *)

(** The database as [Blockchain] sees it: the tables, the fork object and the
    table of versions by height that it writes. *)
Record database := Database {
  tables : store;
  hardfork : HardFork;
  hf_versions : gmap Z Z
}.

Definition fork_header (b : block) : HardFork.block_header :=
  HardFork.Block_header (major_version (header b)) (minor_version (header b)).

(** The view that [HardFork.v] has of the database. *)
Definition fork_view (s : store) (versions : gmap Z Z) : chain_db :=
  Chain_db
    (omap (fun h => fork_header <$> (blocks (block_t s) !! Z.of_nat h ≫= parse_and_validate_block_from_blob))
       (seq 0 (size (blocks (block_t s))))) versions.

(** Source: src/src/blockchain_db/blockchain_db.cpp:164-218 (BlockchainDB::add_block) *)
Definition add_block (d : database) (e : block_entry) : outcome (Z * database) :=
  let prev_height := height (tables d) in
  s ← add_block_tables (tables d) e;
  '(_, hf, view) ← HardFork.add (hardfork d) (fork_view s (hf_versions d)) (fork_header (e_block e)) prev_height;
  Ok (prev_height, Database s hf (db_hf_versions view)).
End Database.
End Store.
