(* ===== verification/StoreProofs.v ===== *)
(** * The chain database is a function of the chain

    The properties of [ChainStore.v]: the tables have consecutive keys, removing
    undoes adding for outputs, transactions and blocks, and every state that
    adding and popping blocks can reach is the one that adding the blocks of its
    chain alone gives. *)
From S2P Require Import Prelude Config FastHash Keccak ChainDb HardFork Archive TxFormat TxCodec ChainStore.

Import Tx Store.
Open Scope Z_scope.

(** ** Tables whose keys are consecutive *)

Definition bounded {A} (n : Z) (m : gmap Z A) : Prop := forall k, is_Some (m !! k) -> 0 <= k < n.

Definition dense {A} (m : gmap Z A) : Prop := forall k, is_Some (m !! k) <-> 0 <= k < entries m.

Lemma last_key_spec {A} (m : gmap Z A) :
  match last_key m with
  | None => m = ∅
  | Some j => is_Some (m !! j) /\ forall k, is_Some (m !! k) -> k <= j
  end.
Proof.
  unfold last_key. apply (map_fold_weak_ind (fun r m => match r with
    | None => m = ∅
    | Some j => is_Some (m !! j) /\ forall k, is_Some (m !! k) -> k <= j
    end)); [done |].
  intros i x m' r Hi IH. destruct r as [j |].
  - destruct IH as [Hj Hmax]. split.
    + destruct (Z.max_spec i j) as [[_ ->] | [_ ->]]; [| rewrite lookup_insert_eq; eauto].
      destruct (decide (i = j)) as [-> |]; [rewrite lookup_insert_eq; eauto | by rewrite lookup_insert_ne].
    + intros k. destruct (decide (i = k)) as [-> |]; [lia |]. rewrite lookup_insert_ne by done.
      intros Hk. specialize (Hmax k Hk). lia.
  - subst. split; [rewrite lookup_insert_eq; eauto |]. intros k [y Hk]. apply lookup_insert_Some in Hk as [[-> _] | [_ Hk]]; [done |].
    by rewrite lookup_empty in Hk.
Qed.

Lemma put_append_ok {A} k (v : A) m : bounded k m -> put_append k v m = Ok (<[k := v]> m).
Proof.
  intros Hb. unfold put_append. pose proof (last_key_spec m) as Hl. destruct (last_key m) as [j |]; [| done].
  destruct Hl as [Hj _]. apply Hb in Hj. by destruct (Z.leb_spec k j); [lia |].
Qed.

Lemma put_append_eq {A} k (v : A) m m' : put_append k v m = Ok m' -> m' = <[k := v]> m.
Proof. unfold put_append. repeat case_match; naive_solver. Qed.

Lemma bounded_fresh {A} n (m : gmap Z A) : bounded n m -> m !! n = None.
Proof. intros Hb. destruct (m !! n) eqn:E; [| done]. specialize (Hb n ltac:(eauto)). lia. Qed.

Lemma bounded_insert {A} n (v : A) m : 0 <= n -> bounded n m -> bounded (n + 1) (<[n := v]> m).
Proof.
  intros Hn Hb k [x Hk]. apply lookup_insert_Some in Hk as [[<- _] | [_ Hk]]; [lia |].
  specialize (Hb k ltac:(eauto)). lia.
Qed.

Lemma bounded_mono {A} n n' (m : gmap Z A) : n <= n' -> bounded n m -> bounded n' m.
Proof. intros Hn Hb k Hk. specialize (Hb k Hk). lia. Qed.

Lemma entries_nonneg {K A} `{Countable K} (m : gmap K A) : 0 <= entries m.
Proof. unfold entries. lia. Qed.

Lemma entries_insert {K A} `{Countable K} (m : gmap K A) k v : m !! k = None -> entries (<[k := v]> m) = entries m + 1.
Proof. intros Hk. unfold entries. rewrite map_size_insert_None by done. lia. Qed.

Lemma dense_bounded {A} (m : gmap Z A) : dense m -> bounded (entries m) m.
Proof. intros Hd k Hk. by apply Hd. Qed.

Lemma dense_empty {A} : dense (∅ : gmap Z A).
Proof. intros k. unfold entries. rewrite lookup_empty, map_size_empty. split; [by intros [] | lia]. Qed.

Lemma dense_insert {A} (m : gmap Z A) v : dense m -> dense (<[entries m := v]> m).
Proof.
  intros Hd k. rewrite entries_insert by (by apply bounded_fresh, dense_bounded).
  pose proof (entries_nonneg m). destruct (decide (entries m = k)) as [<- | Hne].
  - rewrite lookup_insert_eq. split; [lia | eauto].
  - rewrite lookup_insert_ne by done. rewrite (Hd k). lia.
Qed.

(** In a dense table the next key is the number of records. *)
Lemma dense_last {A} (m : gmap Z A) : dense m ->
  match last_key m with Some j => entries m = 1 + j | None => entries m = 0 end.
Proof.
  intros Hd. pose proof (last_key_spec m) as Hl. destruct (last_key m) as [j |]; [| by subst].
  destruct Hl as [Hj Hmax]. apply Hd in Hj. destruct (decide (entries m = 1 + j)); [done |].
  specialize (Hmax (entries m - 1)). rewrite (Hd (entries m - 1)) in Hmax. lia.
Qed.

(** ** Outputs *)

Record out_wf (t : out_tables) : Prop := {
  ow_dense : dense (output_txs t);
  ow_word : entries (output_txs t) <= 2 ^ 64;
  ow_amounts : forall a i, is_Some (output_amounts t !! (a, i)) <-> 0 <= i < get_num_outputs t a
}.

Lemma last_index_spec t a :
  match last_index t a with
  | None => forall i, output_amounts t !! (a, i) = None
  | Some j => is_Some (output_amounts t !! (a, j)) /\ forall i, is_Some (output_amounts t !! (a, i)) -> i <= j
  end.
Proof.
  unfold last_index. set (l := map_to_list _). set (m := list_to_map _).
  assert (Hm : forall i, is_Some ((m : gmap Z ()) !! i) <-> is_Some (output_amounts t !! (a, i))).
  { intros i. split.
    - intros Hi. destruct (decide (i ∈ (map (fun kv => (kv.1.2, ())) l).*1)) as [Hin |]; cycle 1.
      { unfold m in Hi. rewrite (not_elem_of_list_to_map_1 _ i) in Hi by done. by destruct Hi. }
      apply list_elem_of_fmap in Hin as ([i' u] & -> & Hin).
      apply list_elem_of_fmap in Hin as ([[a' j] ok] & [= -> ->] & Hin).
      apply elem_of_map_to_list, map_lookup_filter_Some in Hin as [Hin Ha]. cbn in *. subst. eauto.
    - intros [ok E]. destruct (m !! i) eqn:Em; [eauto |]. apply not_elem_of_list_to_map_2 in Em. exfalso. apply Em.
      apply list_elem_of_fmap. exists (i, ()). split; [done |].
      apply list_elem_of_fmap. exists ((a, i), ok). split; [done |]. apply elem_of_map_to_list.
      by apply map_lookup_filter_Some. }
  pose proof (last_key_spec m) as Hl. destruct (last_key m) as [j |].
  - destruct Hl as [Hj Hmax]. split; [by apply Hm |]. intros i Hi. by apply Hmax, Hm.
  - intros i. apply eq_None_not_Some. rewrite <- Hm, Hl, lookup_empty. by intros [].
Qed.

Lemma num_outputs_insert t a i ok a' x y : output_amounts t !! (a, i) = None ->
  get_num_outputs (Out_tables x y (<[(a, i) := ok]> (output_amounts t))) a'
  = get_num_outputs t a' + (if decide (a = a') then 1 else 0).
Proof.
  intros Hn. unfold get_num_outputs. cbn [output_amounts]. destruct (decide (a = a')) as [-> | Hne].
  - rewrite map_filter_insert_True by done. apply entries_insert. apply map_lookup_filter_None. by left.
  - rewrite map_filter_insert_False by done. rewrite delete_id by done. lia.
Qed.

Lemma num_outputs_dense t : out_wf t -> num_outputs t = u64 (entries (output_txs t)).
Proof.
  intros W. unfold num_outputs. pose proof (dense_last _ (ow_dense t W)) as Hl. pose proof (ow_word t W).
  pose proof (entries_nonneg (output_txs t)).
  destruct (last_key (output_txs t)) as [j |]; [by rewrite Hl | by rewrite Hl].
Qed.

(** What adding an output does, and that it can be undone. *)
Lemma add_output_spec h t hash o li ut c idx t' :
  out_wf t -> add_output h t hash o li ut c = Ok (idx, t') ->
  exists pk, target o = Out_to_key pk /\ idx = get_num_outputs t (out_amount o) /\ entries (output_txs t) < 2 ^ 64 /\
    t' = Out_tables (tx_outputs t) (<[entries (output_txs t) := Outtx hash li]> (output_txs t))
           (<[(out_amount o, idx) :=
              Outkey (entries (output_txs t)) pk ut h (if out_amount o =? 0 then c else None)]> (output_amounts t)).
Proof.
  intros W E. unfold add_output in E. rewrite (num_outputs_dense t W) in E.
  destruct (target o) as [| | pk]; [done | done |]. exists pk. destruct (_ && _); [done |].
  destruct (put_append _ _ _) as [txs | |] eqn:Ep; [| done..]. simpl_bind in E.
  assert (Hw : entries (output_txs t) < 2 ^ 64).
  { pose proof (ow_word t W). destruct (decide (entries (output_txs t) = 2 ^ 64)) as [E64 |]; [| lia].
    exfalso. rewrite E64 in Ep. change (u64 (2 ^ 64)) with 0 in Ep. unfold put_append in Ep.
    pose proof (dense_last _ (ow_dense t W)) as Hl. destruct (last_key _) as [j |]; [| lia].
    destruct (Z.leb_spec 0 j); [done | lia]. }
  rewrite u64_small in E, Ep by (pose proof (entries_nonneg (output_txs t)); lia).
  apply put_append_eq in Ep as ->. pose proof (last_index_spec t (out_amount o)) as Hl.
  destruct (last_index _ _) as [j |]; [destruct (_ <=? j); [done |] |]; by injection E as <- <-.
Qed.

Lemma add_output_wf h t hash o li ut c idx t' :
  out_wf t -> add_output h t hash o li ut c = Ok (idx, t') -> out_wf t'.
Proof.
  intros W E. destruct (add_output_spec _ _ _ _ _ _ _ _ _ W E) as (pk & _ & -> & Hw & ->).
  assert (Hn : output_amounts t !! (out_amount o, get_num_outputs t (out_amount o)) = None).
  { apply eq_None_not_Some. rewrite (ow_amounts t W). lia. }
  split; cbn [output_txs output_amounts].
  - apply dense_insert, W.
  - rewrite entries_insert; [lia |]. apply bounded_fresh, dense_bounded, W.
  - intros a i. rewrite num_outputs_insert by done.
    destruct (decide (out_amount o = a)) as [<- | Hne].
    + destruct (decide (get_num_outputs t (out_amount o) = i)) as [<- | Hi].
      * rewrite lookup_insert_eq. split; [intros _ | eauto]. unfold get_num_outputs. pose proof (entries_nonneg
          (filter (fun kv => kv.1.1 = out_amount o) (output_amounts t))). lia.
      * rewrite lookup_insert_ne by congruence. rewrite (ow_amounts t W). lia.
    + rewrite lookup_insert_ne by congruence. rewrite (ow_amounts t W). lia.
Qed.

Lemma remove_add_output h t hash o li ut c idx t' :
  out_wf t -> add_output h t hash o li ut c = Ok (idx, t') -> remove_output t' (out_amount o) idx = Ok t.
Proof.
  intros W E. destruct (add_output_spec _ _ _ _ _ _ _ _ _ W E) as (pk & _ & -> & Hw & ->).
  unfold remove_output. cbn [output_amounts output_txs tx_outputs]. rewrite lookup_insert_eq. cbn [ok_output_id].
  rewrite decide_True by (rewrite lookup_insert_eq; eauto). rewrite !delete_insert_id; [by destruct t | |].
  - apply eq_None_not_Some. rewrite (ow_amounts t W). lia.
  - apply bounded_fresh, dense_bounded, W.
Qed.

(** ** Key images *)

Definition supported (i : txin_v) : bool := match i with In_gen _ | In_to_key _ => true | _ => false end.
Definition generates (i : txin_v) : bool := match i with In_gen _ => true | _ => false end.

Lemma add_inputs_spec all ins : forall miner spent r spent',
  forallb supported ins = true -> add_inputs all ins miner spent = Ok (r, spent') ->
  r = Some (miner || existsb generates ins) /\ spent' = list_to_set (key_images ins) ∪ spent /\
  NoDup (key_images ins) /\ list_to_set (key_images ins) ## spent.
Proof.
  induction ins as [| i ins IH]; intros miner spent r spent' Hs E; cbn [forallb] in Hs.
  { injection E as <- <-. rewrite orb_false_r. cbn. split_and!; [done | set_solver | constructor | set_solver]. }
  apply andb_true_iff in Hs as [Hi Hs]. destruct i as [h | | | i]; [| done | done |]; cbn [add_inputs] in E.
  - apply IH in E as (-> & E & ?); [| done]. cbn. by rewrite orb_true_r.
  - unfold add_spent_key in E. destruct (decide (k_image i ∈ spent)) as [| Hn]; [done |]. simpl_bind in E.
    apply IH in E as (-> & -> & Hnd & Hd); [| done]. cbn. split_and!; [done | set_solver | | set_solver].
    constructor; [| done]. intros Hin. assert (k_image i ∈ (list_to_set (key_images ins) : gset key)) by set_solver. set_solver.
Qed.

Lemma remove_spent_keys_spec images : forall spent, remove_spent_keys images spent = spent ∖ list_to_set images.
Proof.
  induction images as [| k images IH]; intros spent; cbn; [set_solver |]. unfold remove_spent_keys in IH.
  rewrite IH. unfold remove_spent_key. set_solver.
Qed.

Lemma remove_add_inputs (images : list key) (spent : gset key) :
  list_to_set images ## spent -> remove_spent_keys images (list_to_set images ∪ spent) = spent.
Proof. intros Hd. rewrite remove_spent_keys_spec. set_solver. Qed.

Section Database.
Context (H : list Z -> key) `{!FastHash H} (vp : key -> bool) (zc : Z -> key).

Local Abbreviation add_outputs := (add_outputs zc).
Local Abbreviation add_transaction := (add_transaction H zc).
Local Abbreviation add_transactions := (add_transactions H zc).
Local Abbreviation add_block_tables := (add_block_tables H zc).
Local Abbreviation get_transaction_hash := (get_transaction_hash H).
Local Abbreviation remove_transaction := (remove_transaction vp).
Local Abbreviation pop_transactions := (pop_transactions vp).
Local Abbreviation pop_block := (Store.pop_block H vp).

(** The output as it is stored. *)
Lemma add_outputs_step h tx hash miner o outs i t r :
  add_outputs h tx hash miner (o :: outs) i t = Ok r ->
  exists o' c idx t1 indices t', target o' = target o /\ out_amount o' = (if miner then 0 else out_amount o) /\
    Some c = (if miner then Some (zc (out_amount o)) else outPk (rct tx) !! i) /\
    add_output h t hash o' (Z.of_nat i) (unlock_time (prefix tx)) (Some c) = Ok (idx, t1) /\
    add_outputs h tx hash miner outs (S i) t1 = Ok (indices, t') /\ r = (idx :: indices, t').
Proof.
  cbn [Store.add_outputs]. intros E. destruct miner.
  - simpl_bind in E. destruct (add_output _ _ _ _ _ _ _) as [[idx t1] | |] eqn:Eo; [| done..]. simpl_bind in E.
    destruct (Store.add_outputs _ _ _ _ _ _ _ _) as [[indices t'] | |] eqn:Er; [| done..]. injection E as <-.
    do 6 eexists. split_and!; cycle 3; [exact Eo | exact Er | done | done | done | done].
  - destruct (outPk (rct tx) !! i) as [c |]; [| done]. cbn in E. simpl_bind in E.
    destruct (add_output _ _ _ _ _ _ _) as [[idx t1] | |] eqn:Eo; [| done..]. simpl_bind in E.
    destruct (Store.add_outputs _ _ _ _ _ _ _ _) as [[indices t'] | |] eqn:Er; [| done..]. injection E as <-.
    do 6 eexists. split_and!; cycle 3; [exact Eo | exact Er | done | done | done | done].
Qed.

Lemma add_outputs_wf h tx hash miner outs : forall i t indices t',
  out_wf t -> add_outputs h tx hash miner outs i t = Ok (indices, t') ->
  out_wf t' /\ tx_outputs t' = tx_outputs t /\ length indices = length outs.
Proof.
  induction outs as [| o outs IH]; intros i t indices t' W E; [by injection E as <- <- |].
  destruct (add_outputs_step _ _ _ _ _ _ _ _ _ E) as (o' & c & idx & t1 & indices1 & t2 & _ & _ & _ & Eo & Er & [= -> ->]).
  destruct (IH _ _ _ _ (add_output_wf _ _ _ _ _ _ _ _ _ W Eo) Er) as (W2 & Et & Hl).
  destruct (add_output_spec _ _ _ _ _ _ _ _ _ W Eo) as (pk & _ & _ & _ & ->).
  split_and!; [done | by rewrite Et | cbn; by rewrite Hl].
Qed.

Lemma remove_add_outputs h tx hash miner outs : forall i t indices t' pre pre_indices,
  out_wf t -> add_outputs h tx hash miner outs i t = Ok (indices, t') -> length pre = i -> length pre_indices = i ->
  remove_outputs miner (pre ++ outs) (pre_indices ++ indices) (length outs + i) t'
  = remove_outputs miner (pre ++ outs) (pre_indices ++ indices) i t.
Proof.
  induction outs as [| o outs IH]; intros i t indices t' pre pre_indices W E Hp Hpi; [by injection E as <- <- |].
  destruct (add_outputs_step _ _ _ _ _ _ _ _ _ E) as (o' & c & idx & t1 & indices1 & t2 & _ & Ha & _ & Eo & Er & [= -> ->]).
  specialize (IH (S i) t1 indices1 t2 (pre ++ [o]) (pre_indices ++ [idx]) (add_output_wf _ _ _ _ _ _ _ _ _ W Eo) Er).
  rewrite !length_app in IH. cbn [length] in IH. rewrite <- !app_assoc in IH. cbn [app] in IH.
  cbn [length]. replace (S (length outs) + i)%nat with (length outs + S i)%nat by lia. rewrite IH by lia.
  cbn [remove_outputs]. rewrite (list_lookup_middle pre outs o i), (list_lookup_middle pre_indices indices1 idx i) by done.
  simpl_bind. rewrite <- Ha. by rewrite (remove_add_output _ _ _ _ _ _ _ _ _ W Eo).
Qed.

(** Removing outputs does not look at the indices of other transactions. *)
Lemma remove_outputs_tx_outputs txo miner outs indices i : forall t,
  remove_outputs miner outs indices i (Out_tables txo (output_txs t) (output_amounts t))
  = (t' ← remove_outputs miner outs indices i t; Ok (Out_tables txo (output_txs t') (output_amounts t'))).
Proof.
  induction i as [| i IH]; intros t; [done |]. cbn [remove_outputs]. destruct (outs !! i) as [o |]; [| done].
  destruct (indices !! i) as [idx |]; [| done]. simpl_bind. unfold remove_output. cbn [output_txs output_amounts tx_outputs].
  destruct (output_amounts t !! _) as [ok |]; [| done]. destruct (decide _); [| done]. simpl_bind.
  rewrite <- (IH (Out_tables (tx_outputs t) (delete (ok_output_id ok) (output_txs t))
    (delete (if miner then 0 else out_amount o, idx) (output_amounts t)))). done.
Qed.

(** ** Transactions *)

(** A transaction as it reaches the database: read from its blob, with inputs
    that the database can store. *)
Record storable (tx : transaction) (tx_blob : blob) : Prop := {
  st_bytes : bytes tx_blob;
  st_size : zlen tx_blob < 2 ^ 32;
  st_parsed : parse_and_validate_tx_from_blob vp tx_blob = Ok (Some tx);
  st_inputs : vin (prefix tx) <> [];
  st_supported : forallb supported (vin (prefix tx)) = true;
  st_generates : existsb generates (vin (prefix tx)) = is_coinbase tx
}.

Lemma storable_wf tx tx_blob : storable tx tx_blob ->
  wf_tx tx /\ has_rct (prefix tx) = true /\ tx_blob = tx_to_blob tx /\
  expand_transaction_1 vp tx false = Ok true.
Proof.
  intros S. destruct (tx_parsed_blob vp tx_blob tx) as [Hw <-]; [apply S.. |].
  split_and!; [done | apply vin_has_rct; [done | apply S] | done |].
  pose proof (st_parsed _ _ S) as E. unfold parse_and_validate_tx_from_blob in E.
  destruct (parse_binary _ _) as [tx' |]; [| done]. destruct (expand_transaction_1 vp tx' false) as [[] | |] eqn:Ee; try done.
  by injection E as ->.
Qed.

(** The blob is split where its base ends, and the base is read back. *)
Lemma storable_base tx tx_blob : storable tx tx_blob ->
  exists n, pruned_size tx = Ok n /\ 0 <= n <= zlen tx_blob /\
    parse_and_validate_tx_base_from_blob vp (take (Z.to_nat n) tx_blob) = Ok (Some (strip tx)).
Proof.
  intros S. destruct (storable_wf tx tx_blob S) as (Hw & Hr & -> & He). exists (unprunable_size tx).
  destruct (tx_blob_parts tx Hw Hr) as (Eb & _ & Eu & Et).
  assert (Hn : 0 <= unprunable_size tx <= zlen (tx_to_blob tx)).
  { rewrite Eb, Eu, app_assoc, !zlen_app. pose proof (zlen_nonneg (w_prefix (prefix tx)).1).
    pose proof (zlen_nonneg (base_blob tx)). pose proof (zlen_nonneg (prunable_blob tx)). lia. }
  pose proof (st_size _ _ S). split_and!; [| apply Hn | apply Hn | apply (tx_blob_parses vp tx Hw (st_inputs _ _ S) He)].
  unfold pruned_size. rewrite u32_small by lia.
  destruct (Z.eqb_spec (unprunable_size tx) 0) as [E0 |]; [| done]. rewrite Et, <- Eu, E0.
  destruct (wf_tx_writes tx Hw Hr) as (Tp & Tb & _). unfold w_transaction_base. rewrite Hr.
  by rewrite (proj2 (w_then_true _ _ Tp)), Tb.
Qed.

Record tx_wf (t : tx_tables) : Prop := {
  tw_dense : dense (txs_pruned t);
  tw_prunable : bounded (entries (txs_pruned t)) (txs_prunable t);
  tw_hash : bounded (entries (txs_pruned t)) (txs_prunable_hash t);
  tw_tip : bounded (entries (txs_pruned t)) (txs_prunable_tip t)
}.

(** What adding the data of a transaction does. *)
Lemma add_transaction_data_spec h seed t tx tx_blob hash ph id t' :
  tx_wf t -> add_transaction_data h seed t tx tx_blob hash ph = Ok (id, t') ->
  tx_indices t !! hash = None /\ id = entries (txs_pruned t) /\
  exists n, pruned_size tx = Ok n /\
    t' = Tx_tables (<[hash := Tx_data id (unlock_time (prefix tx)) h]> (tx_indices t))
           (<[id := take (Z.to_nat n) tx_blob]> (txs_pruned t)) (<[id := drop (Z.to_nat n) tx_blob]> (txs_prunable t))
           (if 1 <? version (prefix tx) then <[id := ph]> (txs_prunable_hash t) else txs_prunable_hash t)
           (if negb (seed =? 0) then <[id := h]> (txs_prunable_tip t) else txs_prunable_tip t).
Proof.
  intros W E. unfold add_transaction_data, get_tx_count in E.
  destruct (decide (is_Some (tx_indices t !! hash))) as [| Hn]; [done |].
  destruct (pruned_size tx) as [n | |] eqn:En; [| done..]. simpl_bind in E.
  destruct (zlen tx_blob <? n); [done |]. rewrite (put_append_ok _ _ (txs_pruned t)) in E by (apply dense_bounded, W). simpl_bind in E.
  rewrite (put_append_ok _ _ (txs_prunable t)) in E by apply W. simpl_bind in E. split; [by apply eq_None_not_Some |].
  destruct (1 <? version (prefix tx)); [rewrite put_append_ok in E by apply W |]; simpl_bind in E;
    injection E as <- <-; (split; [done |]); by exists n.
Qed.

Lemma add_transaction_data_wf h seed t tx tx_blob hash ph id t' :
  tx_wf t -> add_transaction_data h seed t tx tx_blob hash ph = Ok (id, t') ->
  tx_wf t' /\ entries (txs_pruned t') = entries (txs_pruned t) + 1.
Proof.
  intros W E. destruct (add_transaction_data_spec _ _ _ _ _ _ _ _ _ W E) as (_ & -> & n & _ & ->).
  assert (Hf : txs_pruned t !! entries (txs_pruned t) = None) by (apply bounded_fresh, dense_bounded, W).
  pose proof (entries_nonneg (txs_pruned t)).
  assert (He : forall v, entries (<[entries (txs_pruned t) := v]> (txs_pruned t)) = entries (txs_pruned t) + 1)
    by (intros; by apply entries_insert).
  split; [| cbn; apply He]. split; cbn [txs_pruned txs_prunable txs_prunable_hash txs_prunable_tip]; rewrite ?He.
  - apply dense_insert, W.
  - apply bounded_insert; [done | apply W].
  - destruct (1 <? _); [apply bounded_insert; [done | apply W] |]. eapply bounded_mono, (tw_hash t W). lia.
  - destruct (negb _); [apply bounded_insert; [done | apply W] |]. eapply bounded_mono, (tw_tip t W). lia.
Qed.

Record block_wf (t : block_tables) : Prop := {
  bw_blocks : dense (blocks t);
  bw_infos : dense (block_infos t);
  bw_same : entries (block_infos t) = entries (blocks t)
}.

Record store_wf (s : store) : Prop := {
  sw_blocks : block_wf (block_t s);
  sw_txs : tx_wf (tx_t s);
  sw_outs : out_wf (out_t s);
  sw_tx_outputs : bounded (entries (txs_pruned (tx_t s))) (tx_outputs (out_t s))
}.

(** The hash under which a transaction is stored. *)
Definition stored_hash (tx : transaction) (hash_ptr : option key) : outcome key :=
  match hash_ptr with Some h => Ok h | None => get_transaction_hash tx end.

Lemma add_transaction_spec s tx tx_blob hash_ptr s' :
  storable tx tx_blob -> store_wf s -> add_transaction s tx tx_blob hash_ptr = Ok s' ->
  exists hash ph id txs indices outs,
    stored_hash tx hash_ptr = Ok hash /\ NoDup (key_images (vin (prefix tx))) /\
    list_to_set (key_images (vin (prefix tx))) ## spent_keys s /\
    add_transaction_data (height s) (pruning_seed s) (tx_t s) tx tx_blob hash ph = Ok (id, txs) /\
    add_outputs (height s) tx hash (is_coinbase tx) (vout (prefix tx)) 0 (out_t s) = Ok (indices, outs) /\
    id = entries (txs_pruned (tx_t s)) /\
    s' = Store_of (block_t s) txs (Out_tables (<[id := indices]> (tx_outputs outs)) (output_txs outs) (output_amounts outs))
           (list_to_set (key_images (vin (prefix tx))) ∪ spent_keys s) (pruning_seed s).
Proof.
  intros S W E. unfold Store.add_transaction in E. fold (stored_hash tx hash_ptr) in E.
  destruct (stored_hash tx hash_ptr) as [hash | |] eqn:Eh; [| done..]. simpl_bind in E.
  destruct (if 2 <=? version (prefix tx) then _ else _) as [ph | |] eqn:Eph; [| done..]. simpl_bind in E.
  destruct (add_inputs _ _ _ _) as [[r spent] | |] eqn:Ei; [| done..]. simpl_bind in E.
  apply add_inputs_spec in Ei as (-> & -> & Hnd & Hd); [| apply S]. rewrite (st_generates _ _ S) in E. cbn [orb] in E.
  destruct (add_transaction_data _ _ _ _ _ _ _) as [[id txs] | |] eqn:Ed; [| done..]. simpl_bind in E.
  destruct (Store.add_outputs _ _ _ _ _ _ _ _) as [[indices outs] | |] eqn:Eo; [| done..]. simpl_bind in E.
  destruct (add_transaction_data_spec _ _ _ _ _ _ _ _ _ (sw_txs s W) Ed) as (_ & Hid & _).
  destruct (add_outputs_wf _ _ _ _ _ _ _ _ _ (sw_outs s W) Eo) as (_ & Eto & _).
  unfold add_tx_amount_output_indices in E. rewrite put_append_ok in E by (rewrite Eto, Hid; apply W).
  simpl_bind in E. injection E as <-. by exists hash, ph, id, txs, indices, outs.
Qed.

Lemma add_transaction_wf s tx tx_blob hash_ptr s' :
  storable tx tx_blob -> store_wf s -> add_transaction s tx tx_blob hash_ptr = Ok s' ->
  store_wf s' /\ block_t s' = block_t s /\ pruning_seed s' = pruning_seed s.
Proof.
  intros S W E. destruct (add_transaction_spec _ _ _ _ _ S W E) as (hash & ph & id & txs & indices & outs & _ & _ & _ & Ed & Eo & Hid & ->).
  destruct (add_transaction_data_wf _ _ _ _ _ _ _ _ _ (sw_txs s W) Ed) as [W' He].
  destruct (add_outputs_wf _ _ _ _ _ _ _ _ _ (sw_outs s W) Eo) as (Wo & Eto & _).
  split; [| done]. split; cbn [block_t tx_t out_t]; [apply W | done | by destruct Wo |].
  cbn [tx_outputs]. rewrite He, Hid, Eto. apply bounded_insert; [apply entries_nonneg | apply W].
Qed.

Lemma remove_data_added s tx tx_blob hash ph id txs indices outs :
  store_wf s ->
  add_transaction_data (height s) (pruning_seed s) (tx_t s) tx tx_blob hash ph = Ok (id, txs) ->
  add_outputs (height s) tx hash (is_coinbase tx) (vout (prefix tx)) 0 (out_t s) = Ok (indices, outs) ->
  remove_transaction_data
    (Store_of (block_t s) txs (Out_tables (<[id := indices]> (tx_outputs outs)) (output_txs outs) (output_amounts outs))
       (spent_keys s) (pruning_seed s)) hash (strip tx) = Ok s.
Proof.
  intros W Ed Eo. destruct (add_transaction_data_spec _ _ _ _ _ _ _ _ _ (sw_txs s W) Ed) as (Hnew & Hid & n & _ & ->).
  destruct (add_outputs_wf _ _ _ _ _ _ _ _ _ (sw_outs s W) Eo) as (_ & Eto & Hl).
  pose proof (remove_add_outputs _ _ _ _ _ 0 _ _ _ [] [] (sw_outs s W) Eo eq_refl eq_refl) as Er.
  cbn [app remove_outputs] in Er. rewrite Nat.add_0_r in Er.
  assert (Hf : txs_pruned (tx_t s) !! id = None) by (rewrite Hid; apply bounded_fresh, dense_bounded, W).
  assert (Hp : txs_prunable (tx_t s) !! id = None) by (rewrite Hid; apply bounded_fresh, W).
  assert (Hh : txs_prunable_hash (tx_t s) !! id = None) by (rewrite Hid; apply bounded_fresh, W).
  assert (Ht : txs_prunable_tip (tx_t s) !! id = None) by (rewrite Hid; apply bounded_fresh, W).
  assert (Ho : tx_outputs (out_t s) !! id = None) by (rewrite Hid; apply bounded_fresh, W).
  unfold remove_transaction_data. cbn [tx_t tx_indices]. rewrite lookup_insert_eq. cbn [tx_id txs_pruned txs_prunable_hash].
  rewrite (bool_decide_eq_true_2 (is_Some (<[id := _]> _ !! id))) by (rewrite lookup_insert_eq; eauto). cbn [negb strip prefix].
  assert (Hc : (1 <? version (prefix tx)) && negb (bool_decide (is_Some
    ((if 1 <? version (prefix tx) then <[id := ph]> (txs_prunable_hash (tx_t s)) else txs_prunable_hash (tx_t s)) !! id))) = false).
  { destruct (1 <? version (prefix tx)); [| done]. by rewrite lookup_insert_eq. }
  rewrite Hc. unfold remove_tx_outputs. cbn [out_t tx_outputs]. rewrite lookup_insert_eq. simpl_bind. cbn [strip prefix].
  rewrite (proj2 (andb_false_iff _ _)) by (rewrite Hl; destruct (length (vout (prefix tx)) =? 0)%nat; tauto).
  change (is_coinbase (strip tx)) with (is_coinbase tx).
  rewrite (remove_outputs_tx_outputs (<[id := indices]> (tx_outputs outs))), Er. simpl_bind.
  unfold with_outs, with_txs. cbn [tx_outputs output_txs output_amounts tx_indices txs_pruned txs_prunable txs_prunable_hash txs_prunable_tip
    block_t tx_t out_t spent_keys pruning_seed].
  rewrite Eto, !delete_insert_id by done.
  destruct s as [bt [ti tp tn th tt] [txo otx oam] sk ps]. cbn in *. do 2 f_equal. f_equal.
  - destruct (1 <? version (prefix tx)); [by apply delete_insert_id | done].
  - destruct (negb (ps =? 0)); [by apply delete_insert_id | by apply delete_id].
Qed.

(** A stored transaction is found under its hash, and removing it restores the
    state before it was added. *)
Lemma remove_add_transaction s tx tx_blob hash_ptr hash s' :
  storable tx tx_blob -> store_wf s -> stored_hash tx hash_ptr = Ok hash ->
  add_transaction s tx tx_blob hash_ptr = Ok s' ->
  get_tx vp s' hash = Ok (Some tx) /\ remove_transaction s' hash = Ok s.
Proof.
  intros S W Eh E. destruct (add_transaction_spec _ _ _ _ _ S W E) as
    (hash' & ph & id & txs & indices & outs & Eh' & _ & Hd & Ed & Eo & Hid & ->).
  rewrite Eh in Eh'. injection Eh' as <-.
  destruct (add_transaction_data_spec _ _ _ _ _ _ _ _ _ (sw_txs s W) Ed) as (Hnew & _ & n & En & ->).
  destruct (storable_base tx tx_blob S) as (n' & En' & Hn & Ebase). rewrite En in En'. injection En' as <-.
  split.
  - unfold get_tx, get_tx_blob. cbn [tx_t tx_indices txs_pruned txs_prunable]. rewrite lookup_insert_eq. cbn [mbind option_bind tx_id].
    rewrite !lookup_insert_eq. cbn [mbind option_bind]. rewrite take_drop, (st_parsed _ _ S). done.
  - assert (Ep : get_pruned_tx vp (Store_of (block_t s)
      (Tx_tables (<[hash := Tx_data id (unlock_time (prefix tx)) (height s)]> (tx_indices (tx_t s)))
           (<[id := take (Z.to_nat n) tx_blob]> (txs_pruned (tx_t s))) (<[id := drop (Z.to_nat n) tx_blob]> (txs_prunable (tx_t s)))
           (if 1 <? version (prefix tx) then <[id := ph]> (txs_prunable_hash (tx_t s)) else txs_prunable_hash (tx_t s))
           (if negb (pruning_seed s =? 0) then <[id := height s]> (txs_prunable_tip (tx_t s)) else txs_prunable_tip (tx_t s)))
      (Out_tables (<[id := indices]> (tx_outputs outs)) (output_txs outs) (output_amounts outs))
      (list_to_set (key_images (vin (prefix tx))) ∪ spent_keys s) (pruning_seed s)) hash = Ok (Some (strip tx))).
    { unfold get_pruned_tx, get_pruned_tx_blob. cbn [tx_t tx_indices txs_pruned]. rewrite lookup_insert_eq. cbn [mbind option_bind tx_id].
      by rewrite lookup_insert_eq, Ebase. }
    unfold Store.remove_transaction. rewrite Ep. simpl_bind. cbn [strip prefix spent_keys with_spent].
    rewrite (remove_add_inputs _ _ Hd). by apply (remove_data_added s tx tx_blob hash ph).
Qed.

(** ** Blocks *)

Definition all_storable (txs : list (transaction * blob)) : Prop := Forall (fun p => storable p.1 p.2) txs.

Lemma pop_add_transactions : forall hashes txs s n s' n' rest,
  all_storable txs -> length hashes = length txs -> store_wf s -> add_transactions s hashes txs n = Ok (s', n') ->
  (store_wf s' /\ block_t s' = block_t s /\ pruning_seed s' = pruning_seed s) /\
  pop_transactions s' (rev hashes ++ rest)
  = ('(l, sf) ← pop_transactions s rest; Ok (rev txs.*1 ++ l, sf)).
Proof.
  induction hashes as [| h hashes IH]; intros [| [tx tx_blob] txs] s n s' n' rest Hs Hl W E; try done.
  { injection E as <- <-. split; [done |]. cbn. by destruct (Store.pop_transactions vp s rest) as [[] | |]. }
  cbn [Store.add_transactions] in E. destruct (Store.add_transaction _ _ _ _ _ _) as [s1 | |] eqn:Et; [| done..]. simpl_bind in E.
  unfold all_storable in Hs. rewrite Forall_cons in Hs. destruct Hs as [Htx Hs]. cbn [fst snd] in Htx.
  destruct (add_transaction_wf _ _ _ _ _ Htx W Et) as (W1 & Eb & Eseed).
  destruct (remove_add_transaction s tx tx_blob (Some h) h s1 Htx W eq_refl Et) as [Eg Er].
  destruct (IH txs s1 _ s' n' (h :: rest) Hs ltac:(cbn in Hl; lia) W1 E) as ((W' & Eb' & Eseed') & Ep).
  split; [split_and!; [done | congruence | congruence] |].
  cbn [rev fmap list_fmap]. rewrite <- app_assoc. cbn [app]. rewrite Ep. cbn [Store.pop_transactions].
  rewrite Eg. simpl_bind. rewrite Er. simpl_bind.
  destruct (Store.pop_transactions vp s rest) as [[l sf] | |]; [| done..]. simpl_bind. by rewrite <- app_assoc.
Qed.

Lemma add_block_data_spec t b w ltw diff coins n hash t' :
  block_wf t -> add_block_data t b w ltw diff coins n hash = Ok t' ->
  block_heights t !! hash = None /\
  (0 < entries (blocks t) -> block_heights t !! prev_id (header b) = Some (entries (blocks t) - 1)) /\
  exists rct, t' = Block_tables (<[entries (blocks t) := block_to_blob b]> (blocks t))
    (<[entries (blocks t) := Block_row (Block_info (timestamp (header b)) coins w diff hash ltw) rct]> (block_infos t))
    (<[hash := entries (blocks t)]> (block_heights t)).
Proof.
  intros W E. unfold add_block_data in E.
  destruct (decide (is_Some (block_heights t !! hash))) as [| Hn]; [done |].
  split; [by apply eq_None_not_Some |].
  assert (Hparent : (0 < entries (blocks t) -> block_heights t !! prev_id (header b) = Some (entries (blocks t) - 1))).
  { intros Hh. rewrite (proj2 (Z.ltb_lt _ _)) in E by done.
    destruct (block_heights t !! prev_id (header b)) as [h' |]; [| done].
    destruct (Z.eqb_spec h' (entries (blocks t) - 1)) as [E' |]; [by rewrite E' | done]. }
  split; [done |]. destruct (if 0 <? entries (blocks t) then _ else Ok ()) as [[] | |]; [| done..]. simpl_bind in E.
  rewrite (put_append_ok _ _ (blocks t)) in E by (apply dense_bounded, W). simpl_bind in E.
  destruct (if 1 <=? entries (blocks t) then _ else Ok 0) as [rct | |]; [| done..]. simpl_bind in E.
  rewrite (put_append_ok _ _ (block_infos t)) in E by (rewrite <- (bw_same t W); apply dense_bounded, W). simpl_bind in E.
  injection E as <-. by eexists.
Qed.

Lemma add_block_data_wf t b w ltw diff coins n hash t' :
  block_wf t -> add_block_data t b w ltw diff coins n hash = Ok t' ->
  block_wf t' /\ entries (blocks t') = entries (blocks t) + 1.
Proof.
  intros W E. destruct (add_block_data_spec _ _ _ _ _ _ _ _ _ W E) as (_ & _ & rct & ->). cbn.
  assert (blocks t !! entries (blocks t) = None) by (apply bounded_fresh, dense_bounded, W).
  assert (block_infos t !! entries (blocks t) = None) by (rewrite <- (bw_same t W); apply bounded_fresh, dense_bounded, W).
  split; [| by apply entries_insert]. split; cbn [blocks block_infos].
  - apply dense_insert, W.
  - rewrite <- (bw_same t W). apply dense_insert, W.
  - rewrite !entries_insert by done. by rewrite (bw_same t W).
Qed.

Lemma remove_add_block_data t b w ltw diff coins n hash t' :
  block_wf t -> add_block_data t b w ltw diff coins n hash = Ok t' -> remove_block (entries (blocks t)) t' = Ok t.
Proof.
  intros W E. destruct (add_block_data_wf _ _ _ _ _ _ _ _ _ W E) as [_ He].
  destruct (add_block_data_spec _ _ _ _ _ _ _ _ _ W E) as (Hn & _ & rct & ->). unfold remove_block. rewrite He.
  pose proof (entries_nonneg (blocks t)). destruct (Z.eqb_spec (entries (blocks t) + 1) 0); [lia |].
  replace (entries (blocks t) + 1 - 1) with (entries (blocks t)) by lia. cbn [blocks block_infos block_heights].
  rewrite lookup_insert_eq. cbn [info bi_hash]. rewrite !decide_True by (rewrite lookup_insert_eq; eauto).
  rewrite !delete_insert_id; [by destruct t | done | |].
  - rewrite <- (bw_same t W). apply bounded_fresh, dense_bounded, W.
  - apply bounded_fresh, dense_bounded, W.
Qed.

(** What a block and its transactions satisfy when they reach the database. *)
Record valid_entry (e : block_entry) : Prop := {
  ve_block : wf_block (e_block e);
  ve_miner : storable (miner_tx (e_block e)) (tx_to_blob (miner_tx (e_block e)));
  ve_txs : all_storable (e_txs e)
}.

Lemma add_block_tables_spec s e s' :
  valid_entry e -> store_wf s -> add_block_tables s e = Ok s' ->
  store_wf s' /\ height s' = height s + 1 /\ pruning_seed s' = pruning_seed s /\
  pop_block s' = Ok (e_block e, rev (e_txs e).*1, s).
Proof.
  intros V W E. unfold Store.add_block_tables in E.
  destruct (length (tx_hashes (e_block e)) =? length (e_txs e))%nat eqn:El; cbn [negb] in E; [apply Nat.eqb_eq in El | done].
  destruct (get_block_hash H (e_block e)) as [hash | |] eqn:Eh; [| done..]. simpl_bind in E.
  destruct (Store.add_transaction _ _ _ _ _ _) as [s1 | |] eqn:Em; [| done..]. simpl_bind in E.
  destruct (Store.add_transactions _ _ _ _ _ _) as [[s2 n] | |] eqn:Et; [| done..]. simpl_bind in E.
  destruct (add_block_data _ _ _ _ _ _ _ _) as [t | |] eqn:Ed; [| done..]. simpl_bind in E. injection E as <-.
  destruct (add_transaction_wf _ _ _ _ _ (ve_miner e V) W Em) as (W1 & Eb1 & Es1).
  destruct (pop_add_transactions _ _ _ _ _ _ [] (ve_txs e V) El W1 Et) as ((W2 & Eb2 & Es2) & Epop).
  destruct (add_block_data_wf _ _ _ _ _ _ _ _ _ (sw_blocks s2 W2) Ed) as [Wt He].
  assert (Hh : height (with_blocks t s2) = height s + 1) by (unfold height; cbn; by rewrite He, Eb2, Eb1).
  split_and!; [split; [done | apply W2..] | done | cbn; congruence |].
  unfold Store.pop_block, get_top_block. rewrite Hh. pose proof (entries_nonneg (blocks (block_t s))) as Hnn.
  fold (height s) in Hnn. destruct (Z.eqb_spec (height s + 1) 0); [lia |]. cbn [negb].
  replace (height s + 1 - 1) with (height s) by lia.
  unfold get_block_from_height, get_block_blob_from_height. cbn [with_blocks block_t].
  destruct (add_block_data_spec _ _ _ _ _ _ _ _ _ (sw_blocks s2 W2) Ed) as (_ & _ & rct & Et'). rewrite Et' at 1. cbn [blocks].
  rewrite Eb2, Eb1. fold (height s). rewrite lookup_insert_eq. simpl_bind.
  unfold parse_and_validate_block_from_blob, block_to_blob.
  rewrite (parse_binary_roundtrip _ _ _ _ block_codec (ve_block e V)). simpl_bind.
  pose proof (remove_add_block_data _ _ _ _ _ _ _ _ _ (sw_blocks s2 W2) Ed) as Erm. rewrite Eb2, Eb1 in Erm.
  fold (height s) in Erm. rewrite Erm. simpl_bind.
  assert (with_blocks (block_t s) (with_blocks t s2) = s2) as -> by (rewrite <- Eb1, <- Eb2; by destruct s2).
  rewrite app_nil_r in Epop. rewrite Epop. cbn [Store.pop_transactions]. simpl_bind. rewrite app_nil_r.
  destruct (add_transaction_spec _ _ _ _ _ (ve_miner e V) W Em) as (mh & _ & _ & _ & _ & _ & Emh & _).
  cbn [stored_hash] in Emh. rewrite Emh. simpl_bind.
  by rewrite (proj2 (remove_add_transaction s _ _ None mh s1 (ve_miner e V) W Emh Em)).
Qed.

(** ** The database is a function of the chain *)

(** The states of the database, with the chain they stand for. *)
Inductive reachable (seed : Z) : store -> list block_entry -> Prop :=
| reach_empty : reachable seed (empty_store seed) []
| reach_add s l e s' :
    reachable seed s l -> valid_entry e -> add_block_tables s e = Ok s' -> reachable seed s' (l ++ [e])
| reach_pop s l e b txs s' :
    reachable seed s (l ++ [e]) -> pop_block s = Ok (b, txs, s') -> reachable seed s' l.

(** Adding the blocks of a chain to a database. *)
Fixpoint replay (s : store) (l : list block_entry) : outcome store :=
  match l with
  | [] => Ok s
  | e :: l => s ← add_block_tables s e; replay s l
  end.

Lemma replay_app s l1 l2 : replay s (l1 ++ l2) = (s ← replay s l1; replay s l2).
Proof.
  revert s. induction l1 as [| e l1 IH]; intros s; [done |]. cbn [replay app].
  destruct (Store.add_block_tables _ _ _ _) as [s1 | |]; [apply IH | done..].
Qed.

Lemma empty_wf seed : store_wf (empty_store seed).
Proof.
  split; [split | split | split |]; cbn; try apply dense_empty; try done.
  all: try (intros k; rewrite lookup_empty; by intros []).
  intros a i. unfold get_num_outputs. cbn. rewrite lookup_empty, map_filter_empty. unfold entries. rewrite map_size_empty.
  split; [by intros [] | lia].
Qed.

Lemma replay_wf seed l s : Forall valid_entry l -> replay (empty_store seed) l = Ok s ->
  store_wf s /\ height s = zlen l /\ pruning_seed s = seed.
Proof.
  revert s. induction l as [| e l IH] using rev_ind; intros s Hl E.
  { injection E as <-. split; [apply empty_wf | done]. }
  rewrite replay_app in E. destruct (replay _ l) as [s0 | |] eqn:E0; [| done..]. simpl_bind in E. cbn [replay] in E.
  destruct (Store.add_block_tables _ _ _ _) as [s1 | |] eqn:E1; [| done..]. injection E as <-.
  apply Forall_app in Hl as [Hl He]. rewrite Forall_singleton in He.
  destruct (IH s0 Hl eq_refl) as (W & Hh & Hs).
  destruct (add_block_tables_spec s0 e s1 He W E1) as (W1 & Hh1 & Hs1 & _).
  split_and!; [done | | congruence]. rewrite Hh1, Hh, zlen_app. done.
Qed.

(** The last block of a replayed chain is popped, and leaves the chain before. *)
Lemma replay_pop seed l e s : Forall valid_entry (l ++ [e]) -> replay (empty_store seed) (l ++ [e]) = Ok s ->
  exists s0, replay (empty_store seed) l = Ok s0 /\ pop_block s = Ok (e_block e, rev (e_txs e).*1, s0).
Proof.
  intros Hl E. rewrite replay_app in E. destruct (replay _ l) as [s0 | |] eqn:E0; [| done..]. simpl_bind in E. cbn [replay] in E.
  destruct (Store.add_block_tables _ _ _ _) as [s1 | |] eqn:E1; [| done..]. injection E as <-.
  apply Forall_app in Hl as [Hl He]. rewrite Forall_singleton in He. exists s0. split; [done |].
  destruct (replay_wf seed l s0 Hl E0) as (W & _). by apply (add_block_tables_spec s0 e s1 He W E1).
Qed.

Lemma reachable_replay seed s l : reachable seed s l -> Forall valid_entry l /\ replay (empty_store seed) l = Ok s.
Proof.
  induction 1 as [| s l e s' _ [Hl E] He Ea | s l e b txs s' _ [Hl E] Ep]; [done | |].
  - split; [apply Forall_app; by split; [| apply Forall_singleton] |]. rewrite replay_app, E. simpl_bind. cbn. by rewrite Ea.
  - destruct (replay_pop seed l e s Hl E) as (s0 & E0 & Ep'). rewrite Ep in Ep'. injection Ep' as -> -> ->.
    apply Forall_app in Hl as [Hl _]. done.
Qed.

Lemma pop_empty seed : pop_block (empty_store seed) = Throw "BLOCK_DNE".
Proof. done. Qed.

(** C3: whatever blocks were added and popped, the contents of every table are
    those that adding the blocks of the current chain to an empty database
    gives; popping returns the top block and its transactions, last one first,
    and leaves the database of the chain before it; the empty database refuses. *)
Theorem database_function_of_chain seed s l :
  reachable seed s l ->
  replay (empty_store seed) l = Ok s /\ height s = zlen l /\
  (l = [] -> pop_block s = Throw "BLOCK_DNE") /\
  (forall l0 e, l = l0 ++ [e] -> exists s0, replay (empty_store seed) l0 = Ok s0 /\
     pop_block s = Ok (e_block e, rev (e_txs e).*1, s0)).
Proof.
  intros Hr. destruct (reachable_replay seed s l Hr) as [Hl E]. destruct (replay_wf seed l s Hl E) as (_ & Hh & _).
  split_and!; [done | done | |].
  - intros ->. injection E as <-. apply pop_empty.
  - intros l0 e ->. by apply replay_pop.
Qed.
End Database.
