(* ===== verification/StoreReads.v ===== *)
(** * What the chain database accepts and gives back

    On top of [StoreProofs.v]: exactly which blocks the database takes, that no
    key image is ever spent twice, and that every block, transaction and output
    of the chain is found again by the queries of [BlockchainLMDB]. *)
From S2P Require Import Prelude Config Varint FastHash Keccak ChainDb HardFork Archive TxFormat TxCodec ChainStore StoreProofs.

Import Tx Store.
Open Scope Z_scope.

(** The key images are new and occur once. *)
Definition fresh_images (ks : list key) (spent : gset key) : Prop := NoDup ks /\ list_to_set ks ## spent.

#[export] Instance fresh_images_dec ks spent : Decision (fresh_images ks spent).
Proof. unfold fresh_images. apply _. Defined.


Section Reads.
Context (H : list Z -> key) `{!FastHash H} (vp : key -> bool) (zc : Z -> key).

Local Abbreviation add_outputs := (add_outputs zc).
Local Abbreviation add_transaction := (add_transaction H zc).
Local Abbreviation add_transactions := (add_transactions H zc).
Local Abbreviation add_block_tables := (add_block_tables H zc).
Local Abbreviation storable := (storable vp).
Local Abbreviation valid_entry := (valid_entry vp).
Local Abbreviation replay := (replay H zc).
Local Abbreviation images := (fun tx => key_images (vin (prefix tx))).

(** ** When adding succeeds *)


Lemma add_output_counts h t hash o li ut c idx t' : out_wf t -> add_output h t hash o li ut c = Ok (idx, t') ->
  entries (output_txs t') = entries (output_txs t) + 1.
Proof.
  intros W E. destruct (add_output_spec _ _ _ _ _ _ _ _ _ W E) as (pk & _ & _ & _ & ->). cbn.
  apply entries_insert, bounded_fresh, dense_bounded, W.
Qed.


Lemma add_outputs_counts h tx hash miner outs : forall i t indices t',
  out_wf t -> add_outputs h tx hash miner outs i t = Ok (indices, t') ->
  entries (output_txs t') = entries (output_txs t) + zlen outs /\ forallb is_to_key outs = true.
Proof.
  induction outs as [| o outs IH]; intros i t indices t' W E; [injection E as _ <-; split; [unfold zlen; cbn; lia | done] |].
  destruct (add_outputs_step _ _ _ _ _ _ _ _ _ _ E) as (o' & c & idx & t1 & indices1 & t2 & Ht & _ & _ & Eo & Er & [= -> ->]).
  destruct (IH _ _ _ _ (add_output_wf _ _ _ _ _ _ _ _ _ W Eo) Er) as [-> Hk].
  rewrite (add_output_counts _ _ _ _ _ _ _ _ _ W Eo), zlen_cons. split; [lia |]. cbn. rewrite Hk.
  destruct (add_output_spec _ _ _ _ _ _ _ _ _ W Eo) as (pk & Hpk & _). unfold is_to_key.
  by rewrite <- Ht, Hpk.
Qed.


(** What the database demands of a transaction. *)
Definition tx_accepted (s : store) (tx : transaction) (hash : key) : Prop :=
  fresh_images (images tx) (spent_keys s) /\ tx_indices (tx_t s) !! hash = None /\
  forallb is_to_key (vout (prefix tx)) = true.

#[export] Instance tx_accepted_dec s tx hash : Decision (tx_accepted s tx hash).
Proof. unfold tx_accepted. apply _. Defined.




Lemma add_transaction_effect s tx tx_blob hash_ptr hash s' :
  storable tx tx_blob -> store_wf s -> stored_hash H tx hash_ptr = Ok hash -> add_transaction s tx tx_blob hash_ptr = Ok s' ->
  tx_accepted s tx hash /\ store_wf s' /\ block_t s' = block_t s /\
  spent_keys s' = list_to_set (images tx) ∪ spent_keys s /\
  (exists data, tx_indices (tx_t s') = <[hash := data]> (tx_indices (tx_t s))) /\
  entries (output_txs (out_t s')) = entries (output_txs (out_t s)) + zlen (vout (prefix tx)).
Proof.
  intros S W Eh E. destruct (add_transaction_wf H vp zc _ _ _ _ _ S W E) as (W' & Eb & _).
  destruct (add_transaction_spec H vp zc _ _ _ _ _ S W E) as (hash' & ph & id & txs & indices & outs & Eh' & Hnd & Hd & Ed & Eo & Hid & ->).
  rewrite Eh in Eh'. injection Eh' as <-.
  destruct (add_transaction_data_spec _ _ _ _ _ _ _ _ _ (sw_txs s W) Ed) as (Hnew & _ & n & _ & ->).
  destruct (add_outputs_counts _ _ _ _ _ _ _ _ _ (sw_outs s W) Eo) as [Hc Hk].
  split_and!; [by split_and! | done | done | done | by eexists | done].
Qed.

(** What the database demands of the transactions of a block. *)
Record txs_accepted (s : store) (hashes : list key) (txs : list transaction) : Prop := {
  ta_images : fresh_images (concat (map images txs)) (spent_keys s);
  ta_distinct : NoDup hashes;
  ta_new : Forall (fun h => tx_indices (tx_t s) !! h = None) hashes;
  ta_outputs : Forall (fun tx => forallb is_to_key (vout (prefix tx)) = true) txs
}.

Lemma txs_accepted_cons s h hashes tx txs s' data :
  spent_keys s' = list_to_set (images tx) ∪ spent_keys s -> tx_indices (tx_t s') = <[h := data]> (tx_indices (tx_t s)) ->
  txs_accepted s (h :: hashes) (tx :: txs) <-> tx_accepted s tx h /\ txs_accepted s' hashes txs.
Proof.
  intros Es Ei. assert (Hnew : forall hs, Forall (fun h' => tx_indices (tx_t s') !! h' = None) hs <->
    h ∉ hs /\ Forall (fun h' => tx_indices (tx_t s) !! h' = None) hs).
  { intros hs. rewrite Ei. induction hs as [| h' hs IH]; [split; [split; [set_solver | done] | done] |].
    rewrite !Forall_cons, IH, lookup_insert_None, not_elem_of_cons. naive_solver. }
  split.
  - intros [[Hnd Hd] Hh Hn Ho]. cbn [map concat] in Hnd, Hd. apply Forall_cons in Hn. apply Forall_cons in Ho. apply NoDup_cons in Hh as [Hh Hh'].
    apply NoDup_app in Hnd as (Hnd1 & Hx & Hnd2). rewrite list_to_set_app in Hd. destruct Hn as [Hn1 Hn2], Ho as [Ho1 Ho2].
    split; [split_and!; [split; [done | set_solver] | done | done] |].
    split; [split; [done |] | done | by apply Hnew | done]. rewrite Es.
    intros x Hx1 Hx2. apply elem_of_list_to_set in Hx1. apply elem_of_union in Hx2 as [Hx2 | Hx2]; [| set_solver].
    apply elem_of_list_to_set in Hx2. by apply (Hx x).
  - intros [([Hnd1 Hd1] & Hn1 & Ho1) [[Hnd2 Hd2] Hh Hn Ho]]. apply Hnew in Hn as [Hh' Hn]. rewrite Es in Hd2.
    split; [split | by constructor | by constructor | by constructor]; cbn [map concat].
    + apply NoDup_app. split_and!; [done | | done]. intros x Hx1 Hx2. apply (Hd2 x); set_solver.
    + rewrite list_to_set_app. set_solver.
Qed.




(** ** Blocks *)

(** What the database demands of a block with identifier [bh], whose miner
    transaction has the hash [mh]. *)
Record block_accepted (s : store) (e : block_entry) (bh mh : key) : Prop := {
  ba_sizes : length (tx_hashes (e_block e)) = length (e_txs e);
  ba_txs : txs_accepted s (mh :: tx_hashes (e_block e)) (miner_tx (e_block e) :: (e_txs e).*1);
  ba_new : block_heights (block_t s) !! bh = None;
  ba_parent : 0 < height s -> block_heights (block_t s) !! prev_id (header (e_block e)) = Some (height s - 1)
}.



(** ** An input of another kind *)





(** ** Later blocks keep what is stored *)

Record extends (s s' : store) : Prop := {
  ex_blocks : blocks (block_t s) ⊆ blocks (block_t s');
  ex_infos : block_infos (block_t s) ⊆ block_infos (block_t s');
  ex_heights : block_heights (block_t s) ⊆ block_heights (block_t s');
  ex_indices : tx_indices (tx_t s) ⊆ tx_indices (tx_t s');
  ex_pruned : txs_pruned (tx_t s) ⊆ txs_pruned (tx_t s');
  ex_prunable : txs_prunable (tx_t s) ⊆ txs_prunable (tx_t s');
  ex_tx_outputs : tx_outputs (out_t s) ⊆ tx_outputs (out_t s');
  ex_output_txs : output_txs (out_t s) ⊆ output_txs (out_t s');
  ex_amounts : output_amounts (out_t s) ⊆ output_amounts (out_t s')
}.

#[export] Instance extends_preorder : PreOrder extends.
Proof.
  split; [by intros s |]. intros s1 s2 s3 [] []. split; by etrans.
Qed.

Lemma add_output_extends h t hash o li ut c idx t' : out_wf t -> add_output h t hash o li ut c = Ok (idx, t') ->
  output_txs t ⊆ output_txs t' /\ output_amounts t ⊆ output_amounts t'.
Proof.
  intros W E. destruct (add_output_spec _ _ _ _ _ _ _ _ _ W E) as (pk & _ & -> & _ & ->). cbn. split; apply insert_subseteq.
  - apply bounded_fresh, dense_bounded, W.
  - apply eq_None_not_Some. rewrite (ow_amounts t W). lia.
Qed.

Lemma add_outputs_extends h tx hash miner outs : forall i t indices t',
  out_wf t -> add_outputs h tx hash miner outs i t = Ok (indices, t') ->
  output_txs t ⊆ output_txs t' /\ output_amounts t ⊆ output_amounts t'.
Proof.
  induction outs as [| o outs IH]; intros i t indices t' W E; [by injection E as _ <- |].
  destruct (add_outputs_step _ _ _ _ _ _ _ _ _ _ E) as (o' & c & idx & t1 & indices1 & t2 & _ & _ & _ & Eo & Er & [= -> ->]).
  destruct (IH _ _ _ _ (add_output_wf _ _ _ _ _ _ _ _ _ W Eo) Er). destruct (add_output_extends _ _ _ _ _ _ _ _ _ W Eo).
  split; by etrans.
Qed.

Lemma add_transaction_extends s tx tx_blob hash_ptr s' :
  storable tx tx_blob -> store_wf s -> add_transaction s tx tx_blob hash_ptr = Ok s' -> extends s s'.
Proof.
  intros S W E. destruct (add_transaction_spec H vp zc _ _ _ _ _ S W E) as (hash & ph & id & txs & indices & outs & _ & _ & _ & Ed & Eo & Hid & ->).
  destruct (add_transaction_data_spec _ _ _ _ _ _ _ _ _ (sw_txs s W) Ed) as (Hnew & _ & n & _ & ->).
  destruct (add_outputs_wf _ _ _ _ _ _ _ _ _ _ (sw_outs s W) Eo) as (_ & Eto & _).
  destruct (add_outputs_extends _ _ _ _ _ _ _ _ _ (sw_outs s W) Eo).
  split; cbn [block_t tx_t out_t tx_indices txs_pruned txs_prunable tx_outputs output_txs output_amounts]; try done.
  - by apply insert_subseteq.
  - apply insert_subseteq. rewrite Hid. apply bounded_fresh, dense_bounded, W.
  - apply insert_subseteq. rewrite Hid. apply bounded_fresh, W.
  - rewrite Eto. apply insert_subseteq. rewrite Hid. apply bounded_fresh, W.
Qed.

(** The amount under which an output is stored. *)
Definition stored_amount (tx : transaction) (o : tx_out) : Z := if is_coinbase tx then 0 else out_amount o.

(** The commitment stored with output [j]: to the amount for a miner transaction,
    the one of the transaction when the amount is hidden, and none otherwise. *)
Definition stored_commitment (tx : transaction) (j : nat) (o : tx_out) : option key :=
  if is_coinbase tx then Some (zc (out_amount o)) else if out_amount o =? 0 then outPk (rct tx) !! j else None.

(** The record of output [j] of a transaction. *)
Definition output_stored (t : out_tables) (h : Z) (hash : key) (tx : transaction) (j : nat) (o : tx_out) (idx : Z) : Prop :=
  exists ok, output_amounts t !! (stored_amount tx o, idx) = Some ok /\
    target o = Out_to_key (ok_pubkey ok) /\ ok_height ok = h /\ ok_unlock_time ok = unlock_time (prefix tx) /\
    ok_commitment ok = stored_commitment tx j o /\ output_txs t !! ok_output_id ok = Some (Outtx hash (Z.of_nat j)).

Lemma output_stored_extends t t' h hash tx j o idx : output_txs t ⊆ output_txs t' -> output_amounts t ⊆ output_amounts t' ->
  output_stored t h hash tx j o idx -> output_stored t' h hash tx j o idx.
Proof.
  intros X1 X2 (ok & Ha & ? & ? & ? & ? & Ht). exists ok. split_and!; [by eapply lookup_weaken | done | done | done | done |].
  by eapply lookup_weaken.
Qed.

Lemma add_outputs_stored h tx hash outs : forall i t indices t',
  out_wf t -> add_outputs h tx hash (is_coinbase tx) outs i t = Ok (indices, t') ->
  forall j o, outs !! j = Some o -> exists idx, indices !! j = Some idx /\ output_stored t' h hash tx (i + j) o idx.
Proof.
  induction outs as [| o outs IH]; intros i t indices t' W E j o' Hj; [done |].
  destruct (add_outputs_step _ _ _ _ _ _ _ _ _ _ E) as (o1 & c & idx & t1 & indices1 & t2 & Ht & Ha & Hc & Eo & Er & [= -> ->]).
  pose proof (add_output_wf _ _ _ _ _ _ _ _ _ W Eo) as W1. destruct j as [| j].
  - injection Hj as <-. exists idx. split; [done |]. destruct (add_outputs_extends _ _ _ _ _ _ _ _ _ W1 Er) as [X1 X2].
    eapply output_stored_extends; [exact X1 | exact X2 |].
    destruct (add_output_spec _ _ _ _ _ _ _ _ _ W Eo) as (pk & Hpk & -> & _ & ->). unfold output_stored, stored_amount.
    cbn [output_amounts output_txs]. rewrite <- Ha, lookup_insert_eq. eexists. split; [done |]. cbn [ok_pubkey ok_height ok_unlock_time ok_output_id ok_commitment].
    rewrite lookup_insert_eq, Nat.add_0_r, <- Ht, Hpk. split_and!; [done | done | done | | done].
    rewrite Hc, Ha. unfold stored_commitment. by destruct (is_coinbase tx).
  - destruct (IH _ _ _ _ W1 Er j o' Hj) as (idx' & Hi & Hs). exists idx'. split; [done |].
    by replace (i + S j)%nat with (S i + j)%nat by lia.
Qed.

(** A stored transaction: it is read back under its hash, belongs to the block at
    height [h], and its outputs are found. *)
Definition tx_stored (s : store) (h : Z) (hash : key) (tx : transaction) : Prop :=
  get_tx vp s hash = Ok (Some tx) /\
  exists data indices, tx_indices (tx_t s) !! hash = Some data /\ block_id data = h /\
    tx_unlock_time data = unlock_time (prefix tx) /\ length indices = length (vout (prefix tx)) /\
    tx_outputs (out_t s) !! tx_id data = Some indices /\
    forall j o, vout (prefix tx) !! j = Some o ->
      exists idx, indices !! j = Some idx /\ output_stored (out_t s) h hash tx j o idx.

Lemma tx_stored_extends s s' h hash tx : extends s s' -> tx_stored s h hash tx -> tx_stored s' h hash tx.
Proof.
  intros X [Hg (data & indices & Hd & Hh & Hu & Hl & Ho & Hout)]. pose proof (lookup_weaken _ _ _ _ Hd (ex_indices _ _ X)) as Hd'. split.
  - unfold get_tx, get_tx_blob in *. rewrite Hd in Hg. rewrite Hd'. cbn [mbind option_bind] in *.
    destruct (txs_pruned (tx_t s) !! tx_id data) as [p |] eqn:Ep; [| done].
    rewrite (lookup_weaken _ _ _ _ Ep (ex_pruned _ _ X)). cbn [mbind option_bind] in *.
    destruct (txs_prunable (tx_t s) !! tx_id data) as [q |] eqn:Eq; [| done].
    by rewrite (lookup_weaken _ _ _ _ Eq (ex_prunable _ _ X)).
  - exists data, indices. split_and!; [done | done | done | done | by apply (lookup_weaken _ _ _ _ Ho (ex_tx_outputs _ _ X)) |].
    intros j o Hj. destruct (Hout j o Hj) as (idx & Hi & Hs). exists idx. split; [done |].
    by eapply output_stored_extends; [apply X | apply X |].
Qed.

Lemma add_transaction_stored s tx tx_blob hash_ptr hash s' :
  storable tx tx_blob -> store_wf s -> stored_hash H tx hash_ptr = Ok hash -> add_transaction s tx tx_blob hash_ptr = Ok s' ->
  tx_stored s' (height s) hash tx.
Proof.
  intros S W Eh E. split; [by apply (remove_add_transaction H vp zc s tx tx_blob hash_ptr hash s') |].
  destruct (add_transaction_spec H vp zc _ _ _ _ _ S W E) as (hash' & ph & id & txs & indices & outs & Eh' & _ & _ & Ed & Eo & _ & ->).
  rewrite Eh in Eh'. injection Eh' as <-.
  destruct (add_transaction_data_spec _ _ _ _ _ _ _ _ _ (sw_txs s W) Ed) as (_ & _ & n & _ & ->).
  exists (Tx_data id (unlock_time (prefix tx)) (height s)), indices.
  destruct (add_outputs_wf _ _ _ _ _ _ _ _ _ _ (sw_outs s W) Eo) as (_ & _ & Hlen).
  cbn [tx_t tx_indices out_t tx_outputs block_id tx_id]. rewrite !lookup_insert_eq. split_and!; [done | done | done | done | done |]. intros j o Hj.
  destruct (add_outputs_stored _ _ _ _ _ _ _ _ (sw_outs s W) Eo j o Hj) as (idx & Hi & Hs). exists idx. split; [done |].
  by eapply output_stored_extends; [| | exact Hs].
Qed.

Lemma add_transactions_stored : forall hashes txs s n s' n',
  all_storable vp txs -> length hashes = length txs -> store_wf s -> add_transactions s hashes txs n = Ok (s', n') ->
  extends s s' /\ Forall2 (tx_stored s' (height s)) hashes txs.*1 /\ txs_accepted s hashes txs.*1 /\
  spent_keys s' = list_to_set (concat (map images txs.*1)) ∪ spent_keys s.
Proof.
  induction hashes as [| h hashes IH]; intros [| [tx tx_blob] txs] s n s' n' Hs Hl W E; try done.
  { injection E as <- <-. split_and!; [done | constructor | | set_solver].
    split; cbn; [split; [constructor | set_solver] | constructor..]. }
  cbn [Store.add_transactions] in E. destruct (Store.add_transaction _ _ _ _ _ _) as [s1 | |] eqn:Et; [| done..]. simpl_bind in E.
  unfold all_storable in Hs. rewrite Forall_cons in Hs. destruct Hs as [Htx Hs]. cbn [fst snd] in Htx.
  destruct (add_transaction_effect s tx tx_blob (Some h) h s1 Htx W eq_refl Et) as (Ha & W1 & Eb & Es & [data Ei] & _).
  destruct (IH txs s1 _ s' n' Hs ltac:(cbn in Hl; lia) W1 E) as (X & Hst & Hacc & Hsp).
  assert (height s1 = height s) as Hh by (unfold height; by rewrite Eb). rewrite Hh in Hst.
  pose proof (add_transaction_extends s tx tx_blob (Some h) s1 Htx W Et) as X1.
  split_and!; [by etrans | | |].
  - constructor; [| done]. eapply tx_stored_extends, (add_transaction_stored s tx tx_blob (Some h) h s1); done.
  - cbn [fmap list_fmap fst]. by apply (txs_accepted_cons s h hashes tx txs.*1 s1 data Es Ei).
  - rewrite Hsp, Es. cbn [fmap list_fmap map concat fst]. rewrite list_to_set_app_L. clear. set_solver.
Qed.

(** ** The whole chain *)

Definition all_txs (e : block_entry) : list transaction := miner_tx (e_block e) :: (e_txs e).*1.

Definition chain_images (l : list block_entry) : list key := concat (map (fun e => concat (map images (all_txs e))) l).

(** The block at height [h] and its transactions are found. *)
Definition block_stored (s : store) (h : Z) (e : block_entry) : Prop :=
  get_block_from_height s h = Ok (e_block e) /\
  (exists bh row, get_block_hash H (e_block e) = Ok bh /\ get_block_height s bh = Ok h /\
     block_infos (block_t s) !! h = Some row /\
     info row = Block_info (timestamp (header (e_block e))) (e_coins e) (e_weight e) (e_difficulty e) bh (e_long_term_weight e)) /\
  exists mh, get_transaction_hash H (miner_tx (e_block e)) = Ok mh /\
    Forall2 (tx_stored s h) (mh :: tx_hashes (e_block e)) (all_txs e).

Lemma block_stored_extends s s' h e : extends s s' -> block_stored s h e -> block_stored s' h e.
Proof.
  intros X (Hb & (bh & row & Eh & Hh & Hr & Hi) & mh & Em & Ht). split_and!.
  - unfold get_block_from_height, get_block_blob_from_height in *. destruct (blocks (block_t s) !! h) as [bd |] eqn:E; [| done].
    by rewrite (lookup_weaken _ _ _ _ E (ex_blocks _ _ X)).
  - exists bh, row. split_and!; [done | | by apply (lookup_weaken _ _ _ _ Hr (ex_infos _ _ X)) | done].
    unfold get_block_height in *. destruct (block_heights (block_t s) !! bh) as [n |] eqn:E; [| done].
    by rewrite (lookup_weaken _ _ _ _ E (ex_heights _ _ X)).
  - exists mh. split; [done |]. eapply Forall2_impl; [exact Ht |]. intros. by eapply tx_stored_extends.
Qed.

Lemma add_block_stored s e s' :
  valid_entry e -> store_wf s -> add_block_tables s e = Ok s' ->
  extends s s' /\ block_stored s' (height s) e /\
  (exists bh mh, block_accepted s e bh mh /\ get_block_hash H (e_block e) = Ok bh) /\
  spent_keys s' = list_to_set (concat (map images (all_txs e))) ∪ spent_keys s.
Proof.
  intros V W E. unfold Store.add_block_tables in E.
  destruct (length (tx_hashes (e_block e)) =? length (e_txs e))%nat eqn:El; cbn [negb] in E; [apply Nat.eqb_eq in El | done].
  destruct (get_block_hash H (e_block e)) as [bh | |] eqn:Eh; [| done..]. simpl_bind in E.
  destruct (Store.add_transaction _ _ _ _ _ _) as [s1 | |] eqn:Em; [| done..]. simpl_bind in E.
  destruct (Store.add_transactions _ _ _ _ _ _) as [[s2 n] | |] eqn:Et; [| done..]. simpl_bind in E.
  destruct (add_block_data _ _ _ _ _ _ _ _) as [t | |] eqn:Ed; [| done..]. simpl_bind in E. injection E as <-.
  destruct (add_transaction_spec H vp zc _ _ _ _ _ (ve_miner _ e V) W Em) as (mh & _ & _ & _ & _ & _ & Emh & _).
  destruct (add_transaction_effect s _ _ None mh s1 (ve_miner _ e V) W Emh Em) as (Ha & W1 & Eb1 & Es1 & [data Ei] & _).
  destruct (add_transactions_stored _ _ _ _ _ _ (ve_txs _ e V) El W1 Et) as (X2 & Hst & Hacc & Es2).
  destruct (pop_add_transactions H vp zc _ _ _ _ _ _ [] (ve_txs _ e V) El W1 Et) as ((W2 & Eb2 & _) & _).
  destruct (add_block_data_spec _ _ _ _ _ _ _ _ _ (sw_blocks s2 W2) Ed) as (Hnew & Hparent & rct & Et').
  rewrite Eb2, Eb1 in Hnew, Hparent, Et'. fold (height s) in Hparent, Et'.
  assert (Hh1 : height s1 = height s) by (unfold height; by rewrite Eb1). rewrite Hh1 in Hst.
  assert (X3 : extends s2 (with_blocks t s2)).
  { split; cbn [with_blocks block_t tx_t out_t]; try done; rewrite Eb2, Eb1, Et'; cbn [blocks block_infos block_heights].
    - apply insert_subseteq, bounded_fresh, dense_bounded, W.
    - apply insert_subseteq. unfold height. rewrite <- (bw_same _ (sw_blocks s W)). apply bounded_fresh, dense_bounded, W.
    - by apply insert_subseteq. }
  pose proof (add_transaction_extends s _ _ None s1 (ve_miner _ e V) W Em) as X1. split_and!.
  - etrans; [exact X1 |]. by etrans.
  - split_and!.
    + unfold get_block_from_height, get_block_blob_from_height. cbn [with_blocks block_t]. rewrite Et'. cbn [blocks].
      rewrite lookup_insert_eq. simpl_bind. unfold parse_and_validate_block_from_blob, block_to_blob.
      by rewrite (parse_binary_roundtrip _ _ _ _ block_codec (ve_block _ e V)).
    + unfold get_block_height. cbn [with_blocks block_t]. rewrite Et'. cbn [block_heights block_infos]. eexists bh, _.
      rewrite !lookup_insert_eq. split_and!; [done | done | done | done].
    + exists mh. split; [done |]. constructor.
      * eapply tx_stored_extends; [etrans; [exact X2 | exact X3] |].
        exact (add_transaction_stored s _ _ None mh s1 (ve_miner _ e V) W Emh Em).
      * eapply Forall2_impl; [exact Hst |]. intros. by eapply tx_stored_extends.
  - exists bh, mh. split; [| done]. split; [done | | done | done].
    by apply (txs_accepted_cons s mh _ _ _ s1 data Es1 Ei).
  - cbn [with_blocks spent_keys all_txs map concat]. rewrite Es2, Es1, list_to_set_app_L. clear. set_solver.
Qed.

Lemma replay_stored seed l s : Forall valid_entry l -> replay (empty_store seed) l = Ok s ->
  spent_keys s = list_to_set (chain_images l) /\ NoDup (chain_images l) /\
  forall i e, l !! i = Some e -> block_stored s (Z.of_nat i) e.
Proof.
  revert s. induction l as [| e l IH] using rev_ind; intros s Hl E.
  { injection E as <-. split_and!; [done | constructor | done]. }
  rewrite replay_app in E. destruct (StoreProofs.replay _ _ _ l) as [s0 | |] eqn:E0; [| done..]. simpl_bind in E. cbn [StoreProofs.replay] in E.
  destruct (Store.add_block_tables _ _ _ _) as [s1 | |] eqn:E1; [| done..]. injection E as <-.
  apply Forall_app in Hl as [Hl He]. rewrite Forall_singleton in He.
  destruct (replay_wf H vp zc seed l s0 Hl E0) as (W & Hh & _). destruct (IH s0 Hl eq_refl) as (Es & Hnd & Hst).
  destruct (add_block_stored s0 e s1 He W E1) as (X & Hb & (bh & mh & [_ [[Hnd1 Hd1] _ _ _] _ _] & _) & Es1).
  assert (Ec : chain_images (l ++ [e]) = chain_images l ++ concat (map images (all_txs e))).
  { unfold chain_images. rewrite map_app, concat_app. cbn. by rewrite app_nil_r. }
  rewrite Ec. split_and!.
  - rewrite Es1, Es, list_to_set_app_L. apply union_comm_L.
  - apply NoDup_app. split_and!; [done | | done]. intros x Hx1 Hx2. rewrite Es in Hd1. apply (Hd1 x); by apply elem_of_list_to_set.
  - intros i e' Hi. apply lookup_snoc_Some in Hi as [[Hlt Hi] | [-> ->]].
    + by eapply block_stored_extends, Hst.
    + rewrite Hh in Hb. exact Hb.
Qed.

(** C8: in every reachable state, the key images of the inputs of all
    transactions of the chain are pairwise different, and the database reports a
    key image as spent exactly when it is one of them: no output is spent twice,
    and popping a block makes its outputs unspent again. *)
Theorem no_double_spend seed s l :
  reachable H vp zc seed s l ->
  NoDup (chain_images l) /\ forall img, has_key_image s img = true <-> img ∈ chain_images l.
Proof.
  intros Hr. destruct (reachable_replay H vp zc seed s l Hr) as [Hl E].
  destruct (replay_stored seed l s Hl E) as (Es & Hnd & _). split; [done |]. intros img. unfold has_key_image.
  rewrite bool_decide_eq_true, Es. apply elem_of_list_to_set.
Qed.

(** ** What the queries return *)

Section Queries.
Context (zeroCommit : Z -> bool -> key).

(** Output [j] of a transaction of the block at height [h], by its amount and index:
    both queries for its key, and the one for where it comes from. *)
Definition output_found (s : store) (h : Z) (hash : key) (tx : transaction) (j : nat) (o : tx_out) (idx : Z) : Prop :=
  let amount := stored_amount tx o in
  exists pk, target o = Out_to_key pk /\
    get_output_key_only s amount idx = Ok (Output_data pk (unlock_time (prefix tx)) h (stored_commitment tx j o)) /\
    (forall v2 allow_partial, get_output_key zeroCommit s [amount] [idx] v2 allow_partial =
       Ok [Output_data pk (unlock_time (prefix tx)) h
             (if amount =? 0 then stored_commitment tx j o else Some (zeroCommit amount v2))]) /\
    get_output_tx_and_index s amount idx = Ok (Outtx hash (Z.of_nat j)).

(** A transaction of the block at height [h], by its hash. *)
Definition tx_found (s : store) (h : Z) (hash : key) (tx : transaction) : Prop :=
  tx_exists s hash = true /\ get_tx vp s hash = Ok (Some tx) /\
  get_tx_block_height s hash = Ok h /\ get_tx_unlock_time s hash = Ok (unlock_time (prefix tx)) /\
  exists id indices, tx_exists_id s hash = Some id /\ get_tx_amount_output_indices s id 1 = Ok [indices] /\
    length indices = length (vout (prefix tx)) /\
    forall j o, vout (prefix tx) !! j = Some o -> exists idx, indices !! j = Some idx /\ output_found s h hash tx j o idx.

(** The block at height [h]: by its height, by its identifier, the fields of its
    record, and its transactions. *)
Definition block_found (s : store) (h : Z) (e : block_entry) : Prop :=
  get_block_from_height s h = Ok (e_block e) /\
  exists bh mh, get_block_hash H (e_block e) = Ok bh /\ get_transaction_hash H (miner_tx (e_block e)) = Ok mh /\
    block_exists s bh = true /\ get_block_height s bh = Ok h /\
    (let db := info_chain s in
     get_block_hash_from_height db h = Ok bh /\ get_block_timestamp db h = Ok (timestamp (header (e_block e))) /\
     get_block_already_generated_coins db h = Ok (e_coins e) /\ get_block_weight db h = Ok (e_weight e) /\
     get_block_long_term_weight db h = Ok (e_long_term_weight e) /\
     get_block_cumulative_difficulty db h = Ok (e_difficulty e)) /\
    Forall2 (tx_found s h) (mh :: tx_hashes (e_block e)) (all_txs e).

Lemma output_stored_found s h hash tx j o idx :
  output_stored (out_t s) h hash tx j o idx -> output_found s h hash tx j o idx.
Proof.
  intros (ok & Ha & Ht & Hh & Hu & Hc & Hx). exists (ok_pubkey ok). split; [done |].
  unfold get_output_key_only, get_output_key, get_output_tx_and_index, get_output_tx_and_index_from_global.
  cbn [length replicate zip zip_with output_keys negb Nat.eqb andb]. rewrite Ha, Hx, Hh, Hu, Hc. split_and!; [| done | done].
  unfold stored_commitment, stored_amount. destruct (is_coinbase tx); [done |]. by destruct (out_amount o =? 0).
Qed.

Lemma tx_stored_found s h hash tx : tx_stored s h hash tx -> tx_found s h hash tx.
Proof.
  intros [Hg (data & indices & Hd & Hh & Hu & Hl & Ho & Hout)].
  unfold tx_found, tx_exists, tx_exists_id, get_tx_block_height, get_tx_unlock_time, get_tx_amount_output_indices.
  rewrite Hd, Hh, Hu. split_and!; [by apply bool_decide_eq_true | done | done | done |].
  exists (tx_id data), indices. split_and!; [done | cbn [output_indices_from at_or_undef]; simpl_bind; by rewrite Ho | done |].
  intros j o Hj. destruct (Hout j o Hj) as (idx & Hi & Hs). exists idx. split; [done | by apply output_stored_found].
Qed.

Lemma omap_total {A B} (f : A -> option B) (l : list A) : (forall a, a ∈ l -> is_Some (f a)) ->
  forall i, omap f l !! i = l !! i ≫= f.
Proof.
  induction l as [| a l IH]; intros Hf i; [done |]. cbn [omap list_omap].
  destruct (Hf a ltac:(left)) as [b Hb]. rewrite Hb. destruct i as [| i]; [by cbn; rewrite Hb |].
  cbn. apply IH. intros x Hx. apply Hf. by right.
Qed.

(** The records by height, as a chain. *)
Lemma info_chain_lookup s i row : store_wf s -> block_infos (block_t s) !! Z.of_nat i = Some row -> info_chain s !! i = Some (info row).
Proof.
  intros W Hr. pose proof (bw_infos _ (sw_blocks s W)) as Hd. pose proof (bw_same _ (sw_blocks s W)) as Hsame. unfold entries in Hsame.
  unfold info_chain. rewrite omap_total.
  - assert (Hi : (i < size (blocks (block_t s)))%nat).
    { assert (is_Some (block_infos (block_t s) !! Z.of_nat i)) as Hx by eauto. apply Hd in Hx. unfold entries in Hx. lia. }
    rewrite (lookup_seq_lt 0 _ _ Hi). cbn [mbind option_bind]. by rewrite Nat.add_0_l, Hr.
  - intros h Hh. apply elem_of_seq in Hh. destruct (proj2 (Hd (Z.of_nat h))) as [r ->]; [unfold entries; lia | by eexists].
Qed.

Lemma block_stored_found s i e : store_wf s -> block_stored s (Z.of_nat i) e -> block_found s (Z.of_nat i) e.
Proof.
  intros W (Hb & (bh & row & Eh & Hh & Hr & Hi) & mh & Em & Ht). split; [done |]. exists bh, mh.
  pose proof (info_chain_lookup s i row W Hr) as Hx. rewrite Hi in Hx.
  split; [done |]. split; [done |]. split.
  { unfold block_exists, get_block_height in *. apply bool_decide_eq_true. destruct (block_heights _ !! bh); [by eexists | done]. }
  split; [done |]. split.
  - cbv zeta. unfold get_block_hash_from_height, get_block_timestamp, get_block_already_generated_coins, get_block_weight,
      get_block_long_term_weight, get_block_cumulative_difficulty, get_block_info.
    assert (Ez : znth (info_chain s) (Z.of_nat i) = info_chain s !! i).
    { unfold znth. rewrite (proj2 (Z.ltb_ge _ _)) by lia. by rewrite Nat2Z.id. }
    rewrite Ez, Hx. done.
  - eapply Forall2_impl; [exact Ht |]. intros. by apply tx_stored_found.
Qed.

(** C9: in every reachable state the queries return, for every block of the chain,
    what was stored: the block by its height, its height by its identifier, each
    field of its record; for the miner transaction and each other transaction,
    by its hash, the transaction, its height, its unlock time and the indices of
    its outputs; and for each output, by amount and index, the key, the unlock
    time, the height, the transaction and position it comes from, and the
    commitment: to the amount for miner outputs, the transaction's own for hidden
    amounts, and none stored but one computed for others. *)
Theorem chain_found seed s l i e :
  reachable H vp zc seed s l -> l !! i = Some e -> block_found s (Z.of_nat i) e.
Proof.
  intros Hr Hi. destruct (reachable_replay H vp zc seed s l Hr) as [Hl E].
  destruct (replay_wf H vp zc seed l s Hl E) as (W & _). apply block_stored_found; [done |].
  by apply (replay_stored seed l s Hl E).
Qed.
End Queries.
End Reads.

(** ** Witnesses *)

Definition ok_or {A} (d : A) (m : outcome A) : A := match m with Ok a => a | _ => d end.

Lemma ok_or_eq {A} (d : A) m : is_ok m = true -> m = Ok (ok_or d m).
Proof. by destruct m. Qed.

Definition commit (amount : Z) : key := replicate 32 (amount mod 256).

Definition coinbase_at (h : Z) : transaction :=
  Transaction (Transaction_prefix 2 (h + 60) [In_gen h] [Tx_out 100 (Out_to_key (k h))] []) no_rct no_prunable false.

Definition entry_at (h : Z) (prev : key) (txs : list transaction) : block_entry :=
  Block_entry (Block (Block_header 12 12 (1600000000 + h) prev 7) (coinbase_at h)
    (map (fun tx => ok_or [] (get_transaction_hash cn_fast_hash tx)) txs)) 300 300 (h + 1) 100 (map (fun tx => (tx, tx_to_blob tx)) txs).

Definition entry0 : block_entry := Eval vm_compute in entry_at 0 (zeros 32) [].
Definition entry1 : block_entry := Eval vm_compute in
  entry_at 1 (ok_or [] (get_block_hash cn_fast_hash (e_block entry0))) [some_tx].

Definition store0 : store := ok_or (empty_store 0) (add_block_tables cn_fast_hash commit (empty_store 0) entry0).
Definition store1 : store := ok_or (empty_store 0) (add_block_tables cn_fast_hash commit store0 entry1).

Lemma store0_ok : add_block_tables cn_fast_hash commit (empty_store 0) entry0 = Ok store0.
Proof. apply ok_or_eq. vm_compute. reflexivity. Qed.

Lemma store1_ok : add_block_tables cn_fast_hash commit store0 entry1 = Ok store1.
Proof. apply ok_or_eq. vm_compute. reflexivity. Qed.

Lemma some_storable tx : wf_tx tx -> zlen (tx_to_blob tx) < 2 ^ 32 -> expand_transaction_1 any_point tx false = Ok true ->
  vin (prefix tx) <> [] -> forallb supported (vin (prefix tx)) = true ->
  existsb generates (vin (prefix tx)) = is_coinbase tx -> storable any_point tx (tx_to_blob tx).
Proof.
  intros Hw Hz He Hv Hs Hg. split; try done.
  - by apply (codec_bytes transaction_codec).
  - by apply tx_blob_parses.
Qed.

Lemma entries_valid : valid_entry any_point entry0 /\ valid_entry any_point entry1.
Proof.
  split; split; try by_decide; [apply some_storable; by_decide || done | constructor | apply some_storable; by_decide || done |].
  constructor; [| constructor]. apply some_storable; [by_decide | by_decide | vm_compute; reflexivity | done | done | done].
Qed.

Lemma store1_reachable : reachable cn_fast_hash any_point commit 0 store1 [entry0; entry1].
Proof.
  apply (reach_add _ _ _ _ store0 [entry0]); [| apply entries_valid | apply store1_ok].
  apply (reach_add _ _ _ _ (empty_store 0) []); [constructor | apply entries_valid | apply store0_ok].
Qed.

Lemma database_function_of_chain_witness :
  replay cn_fast_hash commit (empty_store 0) [entry0; entry1] = Ok store1 /\ height store1 = 2 /\
  exists s0, pop_block cn_fast_hash any_point store1 = Ok (e_block entry1, [some_tx], s0).
Proof.
  destruct (database_function_of_chain cn_fast_hash any_point commit 0 store1 _ store1_reachable) as (E & Hh & _ & Hp).
  split_and!; [exact E | exact Hh |]. destruct (Hp [entry0] entry1 eq_refl) as (s0 & _ & Ep). by exists s0.
Defined.








Lemma no_double_spend_witness : NoDup [k 1] /\ has_key_image store1 (k 1) = true.
Proof.
  destruct (no_double_spend cn_fast_hash any_point commit 0 store1 _ store1_reachable) as [Hnd Hin].
  split; [exact Hnd |]. apply Hin. apply (bool_decide_unpack _). vm_compute. exact I.
Defined.

Lemma chain_found_witness : block_found cn_fast_hash any_point commit (fun amount _ => commit amount) store1 1 entry1.
Proof.
  apply (chain_found cn_fast_hash any_point commit (fun amount _ => commit amount) 0 store1 [entry0; entry1] 1 entry1 store1_reachable eq_refl).
Defined.
