(* ===== verification/ForkStore.v ===== *)
(** * The hard fork object on the chain database

    [BlockchainDB::add_block] calls [HardFork::add] after the tables are
    written, and [Blockchain::pop_block_from_blockchain] calls
    [HardFork::on_block_popped] after they are restored. This file composes
    [HardFork.v] with [ChainStore.v]: the headers that the fork object sees are
    those of the stored blocks, every run of the composed database is a run of
    the fork object, and so every stored block has the version that the fork
    table schedules for its height. *)
From S2P Require Import Prelude Config Emission FastHash Keccak ChainDb HardFork Archive TxFormat TxCodec ChainStore StoreProofs StoreReads.

Import Tx Store.
Open Scope Z_scope.

Section Forks.
Context (H : list Z -> key) `{!FastHash H} (vp : key -> bool) (zc : Z -> key).

Local Abbreviation add_block := (add_block H zc).

(** Removing the top block, on the database alone.
    Source: src/src/cryptonote_core/blockchain.cpp:614-634 (Blockchain::pop_block_from_blockchain) *)
Definition pop_block_from_database (d : database) : outcome (block * list transaction * database) :=
  if height (tables d) <=? 1 then Throw "Cannot pop the genesis block" else
  '(blk, txs, s) ← Store.pop_block H vp (tables d);
  hf ← on_block_popped (hardfork d) (fork_view s (hf_versions d)) 1;
  Ok (blk, txs, Database s hf (hf_versions d)).

(** The states of the database, from the first start on, without test options.
    Adding is guarded by the version check of [handle_block_to_main_chain]. *)
Inductive db_reachable (nettype : network_type) (seed : Z) : database -> list block_entry -> Prop :=
| db_start uninit hf :
    blockchain_init_hardfork None nettype uninit empty_db = Ok hf ->
    db_reachable nettype seed (Database (empty_store seed) hf ∅) []
| db_add d l e h d' :
    db_reachable nettype seed d l -> valid_entry vp e -> zlen l < 2 ^ 63 - 1 ->
    check (hardfork d) (fork_header (e_block e)) = Ok true -> add_block d e = Ok (h, d') ->
    db_reachable nettype seed d' (l ++ [e])
| db_pop d l e b txs d' :
    db_reachable nettype seed d (l ++ [e]) -> pop_block_from_database d = Ok (b, txs, d') ->
    db_reachable nettype seed d' l.

(** ** The view of the fork object *)

Lemma omap_seq {A B} (f : nat -> option B) (g : A -> B) l :
  (forall i, (i < length l)%nat -> f i = g <$> l !! i) -> omap f (seq 0 (length l)) = map g l.
Proof.
  induction l as [| a l IH] using rev_ind; intros Hf; [done |].
  rewrite length_app, Nat.add_1_r, seq_S, omap_app, map_app. f_equal.
  - apply IH. intros i Hi. rewrite Hf by (rewrite length_app; cbn; lia). by rewrite lookup_app_l.
  - cbn [omap list_omap]. rewrite Hf by (rewrite length_app; cbn; lia). by rewrite list_lookup_middle.
Qed.

Lemma fork_view_chain seed s l v :
  Forall (valid_entry vp) l -> replay H zc (empty_store seed) l = Ok s ->
  fork_view s v = Chain_db (map (fun e => fork_header (e_block e)) l) v.
Proof.
  intros Hl E. destruct (replay_wf H vp zc seed l s Hl E) as (_ & Hh & _).
  destruct (replay_stored H vp zc seed l s Hl E) as (_ & _ & Hst).
  assert (Hsz : size (blocks (block_t s)) = length l) by (unfold height, entries, zlen in Hh; lia).
  unfold fork_view. rewrite Hsz. f_equal. apply omap_seq. intros i Hi.
  destruct (lookup_lt_is_Some_2 l i Hi) as [e He]. rewrite He. destruct (Hst i e He) as (Hb & _).
  unfold get_block_from_height, get_block_blob_from_height in Hb.
  destruct (blocks (block_t s) !! Z.of_nat i) as [bd |]; [| done]. simpl_bind in Hb. cbn [mbind option_bind fmap option_fmap option_map].
  destruct (parse_and_validate_block_from_blob bd); [| done]. by injection Hb as ->.
Qed.

(** ** Runs of the composed database *)

Lemma add_keeps_blocks hf db b h r hf' db' : HardFork.add hf db b h = Ok (r, hf', db') -> db_blocks db' = db_blocks db.
Proof.
  unfold HardFork.add, add_versions. destruct (do_check _ _ _) as [ok | |]; [| done..]. simpl_bind.
  destruct (negb ok); [by intros [= _ _ <-] |].
  destruct (at_or_undef _) as [p | |]; [| done..]. simpl_bind. by repeat case_match; intros [= _ _ <-].
Qed.

Lemma valid_entry_versions e : valid_entry vp e ->
  in_u 8 (HardFork.major_version (fork_header (e_block e))) /\ in_u 8 (HardFork.minor_version (fork_header (e_block e))).
Proof. intros [(Hh & _) _ _]. unfold wf_block_header in Hh. cbn. by destruct_and?. Qed.

Lemma db_add_step d l e h d' seed :
  Forall (valid_entry vp) l -> replay H zc (empty_store seed) l = Ok (tables d) -> valid_entry vp e ->
  check (hardfork d) (fork_header (e_block e)) = Ok true -> add_block d e = Ok (h, d') ->
  replay H zc (empty_store seed) (l ++ [e]) = Ok (tables d') /\ h = zlen l /\
  append_block (hardfork d) (fork_view (tables d) (hf_versions d)) (fork_header (e_block e))
  = Ok (true, hardfork d', fork_view (tables d') (hf_versions d')).
Proof.
  intros Hl E V Hc Ha. destruct (replay_wf H vp zc seed l _ Hl E) as (_ & Hh & _).
  unfold Store.add_block in Ha. destruct (Store.add_block_tables _ _ _ _) as [s |  |] eqn:Es; [| done..]. simpl_bind in Ha.
  assert (E' : replay H zc (empty_store seed) (l ++ [e]) = Ok s) by (rewrite replay_app, E; simpl_bind; cbn; by rewrite Es).
  assert (Hl' : Forall (valid_entry vp) (l ++ [e])) by (apply Forall_app; by split; [| apply Forall_singleton]).
  rewrite (fork_view_chain _ _ _ _ Hl' E'), Hh, map_app in Ha.
  unfold append_block. rewrite Hc. simpl_bind. rewrite (fork_view_chain _ _ _ _ Hl E). unfold db_height. cbn [db_blocks db_hf_versions negb].
  unfold zlen in *. rewrite length_map. cbn [map] in Ha.
  destruct (HardFork.add _ _ _ _) as [[[r hf] view] | |] eqn:Ea; [| done..]. simpl_bind in Ha. injection Ha as <- <-.
  cbn [tables hardfork hf_versions]. split_and!; [done | done |]. simpl_bind. do 2 f_equal.
  rewrite (fork_view_chain _ _ _ _ Hl' E'), map_app. apply add_keeps_blocks in Ea. cbn [db_blocks] in Ea. by destruct view; cbn in *; subst.
Qed.

Lemma pop_block_from_database_eq d l e seed :
  Forall (valid_entry vp) (l ++ [e]) -> replay H zc (empty_store seed) (l ++ [e]) = Ok (tables d) ->
  exists s, replay H zc (empty_store seed) l = Ok s /\
  pop_block_from_database d =
    ('(hf, _) ← HardFork.pop_block (hardfork d) (fork_view (tables d) (hf_versions d));
     Ok (e_block e, rev (e_txs e).*1, Database s hf (hf_versions d))) /\
  forall hf view, HardFork.pop_block (hardfork d) (fork_view (tables d) (hf_versions d)) = Ok (hf, view) ->
    view = fork_view s (hf_versions d).
Proof.
  intros Hl E. destruct (replay_wf H vp zc seed _ _ Hl E) as (_ & Hh & _).
  destruct (replay_pop H vp zc seed l e _ Hl E) as (s0 & E0 & Ep). exists s0. split; [done |].
  apply Forall_app in Hl as [Hl0 He]. pose proof (Forall_app_2 _ _ _ Hl0 He) as Hl.
  unfold pop_block_from_database, HardFork.pop_block. rewrite Ep, Hh, (fork_view_chain _ _ _ _ Hl E). simpl_bind.
  unfold db_height. cbn [db_blocks db_hf_versions]. unfold zlen. rewrite length_map, map_app. cbn [map]. rewrite removelast_last.
  rewrite (fork_view_chain _ _ _ _ Hl0 E0). destruct (_ <=? 1); [done |].
  destruct (on_block_popped _ _ _) as [hf | |]; [| done..]. simpl_bind. split; [done |]. by intros ? ? [= <- <-].
Qed.

(** A run of the database is a run of the fork object on its view. *)
Lemma db_reachable_fork nettype seed d l : db_reachable nettype seed d l ->
  Forall (valid_entry vp) l /\ replay H zc (empty_store seed) l = Ok (tables d) /\
  HardFork.reachable nettype (hardfork d, fork_view (tables d) (hf_versions d)).
Proof.
  induction 1 as [u hf E | d l e h d' _ (Hl & E & Hr) V Hlt Hc Ha | d l e b txs d' _ (Hl & E & Hr) Ep].
  - split_and!; [done | done |]. exists u, hf. split; [done |]. apply rtc_refl.
  - destruct (db_add_step _ _ _ _ _ _ Hl E V Hc Ha) as (E' & _ & Hs). split_and!; [| done |].
    { apply Forall_app; by split; [| apply Forall_singleton]. }
    destruct Hr as (u & s0 & E0 & Hr). exists u, s0. split; [done |]. eapply rtc_r; [exact Hr |].
    eapply step_append; [| apply valid_entry_versions, V | apply valid_entry_versions, V | exact Hs].
    rewrite (fork_view_chain _ _ _ _ Hl E). unfold db_height, zlen in *. cbn. by rewrite length_map.
  - destruct (pop_block_from_database_eq _ _ _ _ Hl E) as (s1 & E' & Eq & Hv). apply Forall_app in Hl as [Hl _].
    rewrite Ep in Eq. destruct (HardFork.pop_block _ _) as [[hf view] | |] eqn:Eh; [| done..]. simpl_bind in Eq.
    rewrite (Hv hf view eq_refl) in Eh. injection Eq as -> -> ->. cbn. split_and!; [done | done |].
    destruct Hr as (u & s0 & E0 & Hr). exists u, s0. split; [done |]. eapply rtc_r; [exact Hr |]. by apply step_pop.
Qed.

Definition fork_schedule (nettype : network_type) : list Params :=
  map (fun f => mkParams (hf_version f) (hf_height f) 0) (hard_fork_table nettype).

(** C6: whatever blocks were added and popped, the tables hold the current chain,
    every block of it has the version that the network's fork table schedules for
    its height and votes for at least that, and the fork object is in step with
    the chain; while more than the genesis block is stored, removing the top
    block succeeds and returns it. *)
Theorem chain_follows_forks nettype seed d l :
  db_reachable nettype seed d l ->
  replay H zc (empty_store seed) l = Ok (tables d) /\
  synced (hardfork d) (fork_view (tables d) (hf_versions d)) /\
  (forall i e, l !! i = Some e -> let v := fork_version_at (fork_schedule nettype) (Z.of_nat i) in
     HardFork.major_version (fork_header (e_block e)) = v /\ v <= get_block_vote (fork_header (e_block e)) /\
     hf_versions d !! Z.of_nat i = Some v) /\
  (forall l0 e, l = l0 ++ [e] -> l0 <> [] ->
     exists d', pop_block_from_database d = Ok (e_block e, rev (e_txs e).*1, d') /\ db_reachable nettype seed d' l0).
Proof.
  intros Hd. destruct (db_reachable_fork _ _ _ _ Hd) as (Hl & E & Hr).
  destruct (reachable_invariant _ _ Hr) as [Hs Eh]. cbn [fst snd] in Hs, Eh. split_and!; [done | done | |].
  - intros i e He v. pose proof (synced_chain _ _ Hs (Z.of_nat i) (fork_header (e_block e))) as Hf.
    rewrite (fork_view_chain _ _ _ _ Hl E), Eh in Hf. cbn [db_blocks db_hf_versions] in Hf.
    destruct Hf as (? & [? _] & ?); [| by split_and!].
    unfold znth. destruct (Z.ltb_spec (Z.of_nat i) 0); [lia |]. rewrite Nat2Z.id, list_lookup_fmap, He. done.
  - intros l0 e -> Hne. destruct (pop_block_from_database_eq _ _ _ _ Hl E) as (s0 & E0 & Ep & _).
    destruct (pop_block_synced _ _ Hs) as (hf & view & Ehf & _).
    { rewrite (fork_view_chain _ _ _ _ Hl E). unfold db_height, zlen. cbn. rewrite length_map, length_app. destruct l0; [done | cbn; lia]. }
    rewrite Ehf in Ep. simpl_bind in Ep. eexists. split; [exact Ep |]. by eapply db_pop.
Qed.
End Forks.

(** ** Witness *)

(** Two blocks of the first version on the main network. *)
Definition first_entry (h : Z) (prev : key) : block_entry :=
  Block_entry (Block (Block_header 1 0 (1500000000 + h) prev 7) (coinbase_at h) []) 300 300 (h + 1) 100 [].
Definition first0 : block_entry := Eval vm_compute in first_entry 0 (zeros 32).
Definition first1 : block_entry := Eval vm_compute in
  first_entry 1 (ok_or [] (get_block_hash cn_fast_hash (e_block first0))).

Definition genesis_database : database := Database (empty_store 0) example0 ∅.
Definition add_or_stay (d : database) (e : block_entry) : database :=
  snd (ok_or (0, d) (Store.add_block cn_fast_hash commit d e)).
Definition database0 : database := add_or_stay genesis_database first0.
Definition database1 : database := add_or_stay database0 first1.

Lemma first_valid : valid_entry any_point first0 /\ valid_entry any_point first1.
Proof. split; split; try by_decide; try apply some_storable; by_decide || done || constructor. Qed.

Lemma database0_ok : Store.add_block cn_fast_hash commit genesis_database first0 = Ok (0, database0).
Proof. vm_compute. reflexivity. Qed.

Lemma database1_ok : Store.add_block cn_fast_hash commit database0 first1 = Ok (1, database1).
Proof. vm_compute. reflexivity. Qed.

Lemma database1_reachable : db_reachable cn_fast_hash any_point commit MAINNET 0 database1 [first0; first1].
Proof.
  apply (db_add _ _ _ _ _ database0 [first0] first1 1);
    [| apply first_valid | by_decide | vm_compute; reflexivity | apply database1_ok].
  apply (db_add _ _ _ _ _ genesis_database [] first0 0);
    [| apply first_valid | by_decide | vm_compute; reflexivity | apply database0_ok].
  apply (db_start _ _ _ _ _ []). vm_compute. reflexivity.
Qed.

Lemma chain_follows_forks_witness :
  hf_versions database1 !! 1 = Some 1 /\
  exists d', pop_block_from_database cn_fast_hash any_point database1 = Ok (e_block first1, [], d').
Proof.
  destruct (chain_follows_forks cn_fast_hash any_point commit MAINNET 0 database1 _ database1_reachable) as (_ & _ & Hv & Hp).
  split; [by destruct (Hv 1%nat first1 eq_refl) as (_ & _ & Hv1) |].
  destruct (Hp [first0] first1 eq_refl ltac:(done)) as (d' & Ep & _). by exists d'.
Defined.
