(* ===== verification/Weights.v ===== *)
(** * Block weight limits: the long-term weights of [src/cryptonote_core/blockchain.cpp]

    From version 12 on the weight a block may count for is capped by the median
    of the last 50000 long-term weights. [Blockchain] keeps that median in a
    rolling median with the height of its newest entry. The main theorem says
    that this cache, which is keyed by height only, cannot be observed: after any
    sequence of added and popped blocks every weight is a function of the stored
    chain, and so is the limit once it is recomputed, which a block added inside
    a batch puts off. It needs one condition on the chain, that the last block
    before version 12 is not heavier than the cap of that version: such a block
    is stored with its full weight and enters the cache capped, and
    [fork_block_history] shows two nodes that then disagree. *)
From S2P Require Import Prelude Config Median Emission ChainDb RollingMedian.

Open Scope Z_scope.

(** ** State *)

(** Source: src/src/cryptonote_core/blockchain.h:1107-1110 (Blockchain) *)
Record weight_state := Weight_state {
  m_long_term_block_weights_window : Z;
  m_long_term_effective_median_block_weight : Z;
  m_long_term_block_weights_cache_tip_height : Z;
  m_long_term_block_weights_cache_rolling_median : Rolling.rolling_median;
  m_current_block_cumul_weight_limit : Z;
  m_current_block_cumul_weight_median : Z;
  (** the property [max_block_size] of the database *)
  max_block_size : option Z
}.

Definition set_cache (tip : Z) (r : Rolling.rolling_median) (st : weight_state) : weight_state :=
  Weight_state (m_long_term_block_weights_window st) (m_long_term_effective_median_block_weight st) tip r
    (m_current_block_cumul_weight_limit st) (m_current_block_cumul_weight_median st) (max_block_size st).
Definition set_effective_median (m : Z) (st : weight_state) : weight_state :=
  Weight_state (m_long_term_block_weights_window st) m (m_long_term_block_weights_cache_tip_height st)
    (m_long_term_block_weights_cache_rolling_median st)
    (m_current_block_cumul_weight_limit st) (m_current_block_cumul_weight_median st) (max_block_size st).
Definition set_limits (limit median : Z) (sz : option Z) (st : weight_state) : weight_state :=
  Weight_state (m_long_term_block_weights_window st) (m_long_term_effective_median_block_weight st)
    (m_long_term_block_weights_cache_tip_height st) (m_long_term_block_weights_cache_rolling_median st)
    limit median sz.

(** Source: src/src/cryptonote_core/blockchain.cpp:88-104 (Blockchain::Blockchain) *)
Definition new_weight_state (garbage : list Z) : outcome weight_state :=
  r ← Rolling.new_rolling_median (Z.to_nat CRYPTONOTE_LONG_TERM_BLOCK_WEIGHT_WINDOW_SIZE) garbage;
  Ok (Weight_state CRYPTONOTE_LONG_TERM_BLOCK_WEIGHT_WINDOW_SIZE 0 0 r 0 0 None).

(** A window of another size, from the test options.
    Source: src/src/cryptonote_core/blockchain.cpp:462-466 (Blockchain::init) *)
Definition set_test_window (window : Z) (garbage : list Z) (st : weight_state) : outcome weight_state :=
  r ← Rolling.new_rolling_median (Z.to_nat window) garbage;
  Ok (Weight_state window (m_long_term_effective_median_block_weight st)
        (m_long_term_block_weights_cache_tip_height st) r
        (m_current_block_cumul_weight_limit st) (m_current_block_cumul_weight_median st) (max_block_size st)).

(** ** Operations *)

(** Source: src/src/blockchain_db/lmdb/db_lmdb.cpp:3319-3339 (BlockchainLMDB::get_max_block_size) *)
Definition get_max_block_size (st : weight_state) : Z := default UINT64_MAX (max_block_size st).

(** Source: src/src/blockchain_db/lmdb/db_lmdb.cpp:3341-3368 (BlockchainLMDB::add_max_block_size) *)
Definition add_max_block_size (sz : Z) (old : option Z) : option Z :=
  let max_block_size := match old with Some m => m | None => 0 end in
  Some (if max_block_size <? sz then sz else max_block_size).

(** Source: src/src/cryptonote_core/blockchain.cpp:1314-1357 (Blockchain::get_long_term_block_weight_median) *)
Definition get_long_term_block_weight_median (st : weight_state) (db : chain) (start_height count : Z)
    : outcome (Z * weight_state) :=
  if negb (0 <? count) then Throw "count == 0" else
  let r := m_long_term_block_weights_cache_rolling_median st in
  let blockchain_height := height db in
  let tip_height := start_height +! count -! 1 in
  let same_size := (tip_height <? blockchain_height) && (count =? Rolling.size r) in
  let cached := same_size && (tip_height =? m_long_term_block_weights_cache_tip_height st) in
  if cached then m ← Rolling.rolling_value r; Ok (m, st) else
  if (0 <? tip_height) && same_size && (tip_height -! 1 =? m_long_term_block_weights_cache_tip_height st)
  then
    w ← get_block_long_term_weight db tip_height;
    r ← Rolling.insert r w;
    m ← Rolling.rolling_value r;
    Ok (m, set_cache tip_height r st)
  else
    weights ← get_long_term_block_weights db start_height count;
    r ← Rolling.clear r;
    r ← Rolling.insert_all r weights;
    m ← Rolling.rolling_value r;
    Ok (m, set_cache tip_height r st).

(** [m + m * 2 / 5].
    Source: src/src/cryptonote_core/blockchain.cpp:3984-3986 (Blockchain::get_next_long_term_block_weight) *)
Definition short_term_constraint (long_term_median : Z) : Z :=
  let m := Z.max CRYPTONOTE_BLOCK_GRANTED_FULL_REWARD_ZONE long_term_median in
  m +! (m *! 2) / 5.

(** The weight, and the long-term median when it was computed.
    Source: src/src/cryptonote_core/blockchain.cpp:3969-3990 (Blockchain::get_next_long_term_block_weight) *)
Definition get_next_long_term_block_weight (st : weight_state) (db : chain) (hf_version block_weight : Z)
    : outcome (Z * option Z * weight_state) :=
  let db_height := height db in
  let nblocks := Z.min (m_long_term_block_weights_window st) db_height in
  if hf_version <? HF_VERSION_LONG_TERM_BLOCK_WEIGHT then Ok (block_weight, None, st) else
  '(long_term_median, st) ← get_long_term_block_weight_median st db (db_height -! nblocks) nblocks;
  Ok (Z.min block_weight (short_term_constraint long_term_median), Some long_term_median, st).

(** The long-term median before the top block.
    Source: src/src/cryptonote_core/blockchain.cpp:4012-4027 (Blockchain::update_next_cumulative_weight_limit) *)
Definition median_before_top (st : weight_state) (db : chain) (precomputed : option Z)
    : outcome (Z * weight_state) :=
  let db_height := height db in
  if db_height =? 1 then Ok (CRYPTONOTE_BLOCK_GRANTED_FULL_REWARD_ZONE, st) else
  match precomputed with
  | Some m => Ok (m, st)
  | None =>
      let nblocks := Z.min (m_long_term_block_weights_window st) db_height in
      let nblocks := if nblocks =? db_height then nblocks -! 1 else nblocks in
      get_long_term_block_weight_median st db (db_height -! nblocks -! 1) nblocks
  end.

(** The long-term part: the effective median and the cache.
    Source: src/src/cryptonote_core/blockchain.cpp:4010-4045 (Blockchain::update_next_cumulative_weight_limit) *)
Definition update_long_term (st : weight_state) (db : chain) (precomputed : option Z) : outcome weight_state :=
  let db_height := height db in
  block_weight ← get_block_weight db (db_height -! 1);
  '(long_term_median, st) ← median_before_top st db precomputed;
  let long_term_block_weight := Z.min block_weight (short_term_constraint long_term_median) in
  '(long_term_median, st) ←
    (if db_height =? 1 then Ok (long_term_block_weight, st)
     else
       r ← Rolling.insert (m_long_term_block_weights_cache_rolling_median st) long_term_block_weight;
       m ← Rolling.rolling_value r;
       Ok (m, set_cache (db_height -! 1) r st));
  Ok (set_effective_median (Z.max CRYPTONOTE_BLOCK_GRANTED_FULL_REWARD_ZONE long_term_median) st).

(** Source: src/src/cryptonote_core/blockchain.cpp:4061-4070 (Blockchain::update_next_cumulative_weight_limit) *)
Definition store_limits (full_reward_zone : Z) (is_read_only : bool) (median : Z) (st : weight_state) : weight_state :=
  let median := if median <=? full_reward_zone then full_reward_zone else median in
  let limit := median *! 2 in
  set_limits limit median
    (if is_read_only then max_block_size st else add_max_block_size limit (max_block_size st)) st.

(** The function always returns [true]; the optional output is
    [m_long_term_effective_median_block_weight].
    Source: src/src/cryptonote_core/blockchain.cpp:3992-4073 (Blockchain::update_next_cumulative_weight_limit) *)
Definition update_next_cumulative_weight_limit (st : weight_state) (db : chain) (hf_version : Z)
    (is_read_only : bool) (precomputed_long_term_median : option Z) (mid_batch : bool) : outcome weight_state :=
  let full_reward_zone := get_min_block_weight hf_version in
  if hf_version <? HF_VERSION_LONG_TERM_BLOCK_WEIGHT then
    weights ← get_last_n_blocks_weights db CRYPTONOTE_REWARD_BLOCKS_WINDOW;
    Ok (store_limits full_reward_zone is_read_only (median_of weights) st)
  else
    st ← update_long_term st db precomputed_long_term_median;
    if mid_batch then Ok st else
    weights ← get_last_n_blocks_weights db CRYPTONOTE_REWARD_BLOCKS_WINDOW;
    let short_term_median := median_of weights in
    let effective_median_block_weight :=
      Z.min (Z.max CRYPTONOTE_BLOCK_GRANTED_FULL_REWARD_ZONE short_term_median)
            (CRYPTONOTE_SHORT_TERM_BLOCK_WEIGHT_SURGE_FACTOR *! m_long_term_effective_median_block_weight st) in
    Ok (store_limits full_reward_zone is_read_only effective_median_block_weight st).

(** How a block is added and popped, as far as its weight is concerned: the
    long-term weight is computed from the chain below, stored with the block, and
    the limits are updated for the version that holds on the longer chain.
    [hf] is the version in force by chain height. *)
Definition add_weighted_block (hf : Z -> Z) (mid_batch : bool) (st : weight_state) (db : chain) (b : block_info)
    : outcome (weight_state * chain) :=
  '(long_term_block_weight, precomputed, st) ←
    get_next_long_term_block_weight st db (hf (height db)) (bi_weight b);
  let db := db ++ [Block_info (bi_timestamp b) (bi_coins b) (bi_weight b) (bi_diff b) (bi_hash b) long_term_block_weight] in
  st ← update_next_cumulative_weight_limit st db (hf (height db)) false precomputed mid_batch;
  Ok (st, db).

Definition pop_weighted_block (hf : Z -> Z) (st : weight_state) (db : chain) : outcome (weight_state * chain) :=
  if negb (1 <? height db) then Throw "Cannot pop the genesis block" else
  let db := take (length db - 1) db in
  st ← update_next_cumulative_weight_limit st db (hf (height db)) false None false;
  Ok (st, db).

(** * Properties *)

(** ** Reference definitions: functions of the chain alone *)

Definition ltw_window (n : nat) (db : chain) : list Z := map bi_long_term_block_weight (Rolling.last_n n db).

Definition long_term_median (n : nat) (db : chain) : Z := median_of (ltw_window n db).

Definition next_weight (n : nat) (version : Z) (db : chain) (block_weight : Z) : Z :=
  if version <? HF_VERSION_LONG_TERM_BLOCK_WEIGHT then block_weight
  else Z.min block_weight (short_term_constraint (long_term_median n db)).

Definition effective_median (n : nat) (db : chain) : Z :=
  Z.max CRYPTONOTE_BLOCK_GRANTED_FULL_REWARD_ZONE (long_term_median n db).

Definition short_term_median (db : chain) : Z :=
  median_of (map bi_weight (Rolling.last_n (Z.to_nat CRYPTONOTE_REWARD_BLOCKS_WINDOW) db)).

(** The weight that the next block must not exceed half of. *)
Definition weight_limit (n : nat) (version : Z) (db : chain) : Z :=
  let median :=
    if version <? HF_VERSION_LONG_TERM_BLOCK_WEIGHT then short_term_median db
    else Z.min (Z.max CRYPTONOTE_BLOCK_GRANTED_FULL_REWARD_ZONE (short_term_median db))
               (CRYPTONOTE_SHORT_TERM_BLOCK_WEIGHT_SURGE_FACTOR *! effective_median n db) in
  Z.max CRYPTONOTE_BLOCK_GRANTED_FULL_REWARD_ZONE median *! 2.

(** ** Queries of the cached median *)

Lemma last_n_length {A} n (l : list A) : length (Rolling.last_n n l) = Nat.min n (length l).
Proof. unfold Rolling.last_n. rewrite length_drop. lia. Qed.

Lemma ltw_window_snoc n db b :
  (0 < n)%nat -> Rolling.last_n n (ltw_window n db ++ [bi_long_term_block_weight b]) = ltw_window n (db ++ [b]).
Proof.
  intros Hn. unfold ltw_window. rewrite <- (Rolling.last_n_snoc n db b Hn).
  replace [bi_long_term_block_weight b] with (map bi_long_term_block_weight [b]) by done. rewrite <- map_app.
  unfold Rolling.last_n at 1 3. by rewrite length_map, <- (fmap_drop bi_long_term_block_weight).
Qed.

Lemma last_n_slice {A} n (l k : list A) :
  Rolling.last_n n l = take (Nat.min n (length l)) (drop (length l - n) (l ++ k)).
Proof.
  unfold Rolling.last_n. rewrite drop_app_le by lia. rewrite take_app_le by (rewrite length_drop; lia).
  rewrite take_ge; [done | rewrite length_drop; lia].
Qed.

Lemma ltw_window_nonempty n db : (0 < n)%nat -> db <> [] -> ltw_window n db <> [].
Proof.
  intros Hn Hd E. apply (f_equal length) in E. unfold ltw_window in E. rewrite length_map, last_n_length in E.
  destruct db; [done |]. cbn in E. lia.
Qed.

Section Window.
Context (n : nat).

(** The cache of [st] is a rolling median of [n] entries that contains [w]. *)
Definition cache_holds (st : weight_state) (w : list Z) : Prop :=
  m_long_term_block_weights_window st = Z.of_nat n
  /\ Rolling.holds n (m_long_term_block_weights_cache_rolling_median st) w.

(** The window below the top of [db ++ k]: found in the cache... *)
Lemma median_hit st db k :
  cache_holds st (ltw_window n db) -> db <> [] -> height (db ++ k) < 2 ^ 64 ->
  m_long_term_block_weights_cache_tip_height st = height db - 1 ->
  get_long_term_block_weight_median st (db ++ k) (height db - Z.of_nat (Nat.min n (length db)))
    (Z.of_nat (Nat.min n (length db)))
  = Ok (long_term_median n db, st).
Proof.
  intros [Hw Hh] Hne Hb Htip. pose proof (Rolling.holds_positive _ _ _ Hh) as Hn.
  unfold get_long_term_block_weight_median, height in *. rewrite zlen_app in *. pose proof (zlen_nonneg k).
  assert (0 < length db)%nat by (destruct db; [done | cbn; lia]). unfold zlen in *.
  destruct (Z.ltb_spec 0 (Z.of_nat (n `min` length db))); [| lia]. cbn [negb].
  rewrite (Rolling.holds_size _ _ _ Hh). unfold zlen, ltw_window. rewrite length_map, last_n_length.
  rewrite (u64_small (_ + _)) by lia. rewrite u64_small by lia.
  rewrite Htip, !(proj2 (Z.eqb_eq _ _)) by lia. rewrite (proj2 (Z.ltb_lt _ _)) by lia. cbn [andb].
  rewrite (Rolling.holds_value _ _ _ Hh) by (by apply ltw_window_nonempty). done.
Qed.

(** ... or read again, when the cache ends elsewhere. *)
Lemma median_miss st w db k :
  cache_holds st w -> db <> [] -> height (db ++ k) < 2 ^ 64 ->
  w = [] \/ (m_long_term_block_weights_cache_tip_height st <> height db - 1
             /\ m_long_term_block_weights_cache_tip_height st <> height db - 2) ->
  exists r, Rolling.holds n r (ltw_window n db) /\
  get_long_term_block_weight_median st (db ++ k) (height db - Z.of_nat (Nat.min n (length db)))
    (Z.of_nat (Nat.min n (length db)))
  = Ok (long_term_median n db, set_cache (height db - 1) r st).
Proof.
  intros [Hw Hh] Hne Hb Htip. pose proof (Rolling.holds_positive _ _ _ Hh) as Hn.
  destruct (Rolling.holds_refill _ _ _ (ltw_window n db) Hh) as (r1 & r2 & E1 & E2 & H2).
  assert (El : Rolling.last_n n (ltw_window n db) = ltw_window n db).
  { unfold Rolling.last_n at 1. unfold ltw_window. rewrite length_map, last_n_length.
    by replace (n `min` length db - n)%nat with 0%nat by lia. }
  rewrite El in H2. exists r2. split; [done |].
  unfold get_long_term_block_weight_median, height in *. rewrite zlen_app in *. pose proof (zlen_nonneg k).
  assert (0 < length db)%nat by (destruct db; [done | cbn; lia]). unfold zlen in *.
  destruct (Z.ltb_spec 0 (Z.of_nat (n `min` length db))); [| lia]. cbn [negb].
  rewrite (Rolling.holds_size _ _ _ Hh).
  rewrite (u64_small (_ + _)) by lia. rewrite (u64_small (_ + _ - 1)) by lia.
  set (tip := m_long_term_block_weights_cache_tip_height st) in *.
  assert (Hmiss : zlen w <> Z.of_nat (n `min` length db) \/ tip <> Z.of_nat (length db) - 1 /\ tip <> Z.of_nat (length db) - 2).
  { destruct Htip as [-> | ?]; [left; change (zlen (@nil Z)) with 0; lia | by right]. }
  set (same := _ && (_ =? zlen w)).
  assert (Hs : same = true -> tip <> Z.of_nat (length db) - 1 /\ tip <> Z.of_nat (length db) - 2).
  { unfold same. rewrite andb_true_iff, Z.eqb_eq. intros [_ E]. destruct Hmiss; [congruence | done]. }
  replace (same && (_ =? tip)) with false.
  2: { destruct same; [| done]. destruct (Hs eq_refl). symmetry. apply Z.eqb_neq. lia. }
  replace ((0 <? _) && same && (_ =? tip)) with false.
  2: { destruct same; [| by rewrite andb_false_r]. destruct (Hs eq_refl). rewrite andb_true_r. symmetry.
       destruct (Z.ltb_spec 0 (Z.of_nat (length db) - Z.of_nat (n `min` length db) + Z.of_nat (n `min` length db) - 1)); [| done].
       rewrite u64_small by lia. apply Z.eqb_neq. lia. }
  unfold get_long_term_block_weights, get_block_info_64bit_fields, height. rewrite zlen_app. unfold zlen.
  destruct (Z.leb_spec (Z.of_nat (length db) + Z.of_nat (length k)) (Z.of_nat (length db) - Z.of_nat (n `min` length db))); [lia |].
  simpl_bind. rewrite E1. simpl_bind. rewrite Nat2Z.id.
  replace (Z.to_nat _) with (length db - n)%nat by lia. rewrite <- last_n_slice. fold (ltw_window n db).
  rewrite E2. simpl_bind. rewrite (Rolling.holds_value _ _ _ H2) by (by apply ltw_window_nonempty). simpl_bind.
  do 3 f_equal. lia.
Qed.

(** The cache ends at the top of [db]. *)
Definition cache_at_top (st : weight_state) (db : chain) : Prop :=
  cache_holds st (ltw_window n db) /\ m_long_term_block_weights_cache_tip_height st = height db - 1.

(** Updating the long-term part for a chain whose top block stores the capped
    weight: from the median computed before the block was added, or again from
    the database. *)
Lemma update_long_term_ok st w db b precomputed :
  cache_holds st w -> db <> [] -> height (db ++ [b]) < 2 ^ 64 ->
  bi_long_term_block_weight b = Z.min (bi_weight b) (short_term_constraint (long_term_median n db)) ->
  precomputed = Some (long_term_median n db) /\ w = ltw_window n db
  \/ precomputed = None /\ (w = [] \/ (m_long_term_block_weights_cache_tip_height st <> height db - 1
             /\ m_long_term_block_weights_cache_tip_height st <> height db - 2)) ->
  exists r, Rolling.holds n r (ltw_window n (db ++ [b])) /\
  update_long_term st (db ++ [b]) precomputed
  = Ok (set_effective_median (effective_median n (db ++ [b])) (set_cache (height db) r st)).
Proof.
  intros Hc Hne Hb Hlt Hpre. pose proof (Rolling.holds_positive _ _ _ (proj2 Hc)) as Hn.
  assert (Hm : exists r, Rolling.holds n r (ltw_window n db) /\ exists tip,
     median_before_top st (db ++ [b]) precomputed = Ok (long_term_median n db, set_cache tip r st)).
  { unfold median_before_top. unfold height in *. rewrite zlen_app in *. change (zlen [b]) with 1 in *.
    assert (0 < zlen db) by (unfold zlen; destruct db; [done | cbn; lia]).
    destruct (Z.eqb_spec (zlen db + 1) 1); [lia |]. destruct Hpre as [[-> ->] | [-> Hmiss]].
    - exists (m_long_term_block_weights_cache_rolling_median st). split; [apply Hc |].
      exists (m_long_term_block_weights_cache_tip_height st). by destruct st.
    - destruct (median_miss st w db [b] Hc Hne) as (r & Hr & E); [unfold height; by rewrite zlen_app | done |].
      exists r. split; [done |]. exists (height db - 1). rewrite <- E. destruct Hc as [-> _].
      unfold height, zlen in *. rewrite (u64_small (Z.of_nat n `min` _ - 1)) by lia.
      assert (En : (if Z.of_nat n `min` (Z.of_nat (length db) + 1) =? Z.of_nat (length db) + 1
        then Z.of_nat n `min` (Z.of_nat (length db) + 1) - 1
        else Z.of_nat n `min` (Z.of_nat (length db) + 1)) = Z.of_nat (n `min` length db)) by (split_cmp; lia).
      rewrite En. rewrite (u64_small (_ + 1 - _)) by lia. rewrite u64_small by lia. f_equal. lia. }
  destruct Hm as (r & Hr & tip & Em). unfold update_long_term.
  assert (El : height (db ++ [b]) = height db + 1) by (unfold height; by rewrite zlen_app).
  assert (0 < height db) by (unfold height, zlen; destruct db; [done | cbn; lia]).
  rewrite El in *. rewrite (u64_small (height db + 1 - 1)) by lia. replace (height db + 1 - 1) with (height db) by lia.
  unfold get_block_weight. rewrite (get_block_info_at _ _ _ b); [| lia |].
  2: { unfold height, zlen. rewrite Nat2Z.id. by apply list_lookup_middle. }
  simpl_bind. rewrite Em. simpl_bind. destruct (Z.eqb_spec (height db + 1) 1); [lia |]. rewrite <- Hlt.
  cbn [m_long_term_block_weights_cache_rolling_median set_cache].
  destruct (Rolling.holds_insert n r _ (bi_long_term_block_weight b) Hr) as (r' & -> & Hr'). simpl_bind.
  rewrite (ltw_window_snoc n db b Hn) in Hr'. exists r'. split; [done |].
  rewrite (Rolling.holds_value _ _ _ Hr') by (apply ltw_window_nonempty; [done | by destruct db]). simpl_bind. done.
Qed.

(** The short-term part. *)
Lemma recent_weights db :
  db <> [] -> height db < 2 ^ 64 ->
  get_last_n_blocks_weights db CRYPTONOTE_REWARD_BLOCKS_WINDOW
  = Ok (map bi_weight (Rolling.last_n (Z.to_nat CRYPTONOTE_REWARD_BLOCKS_WINDOW) db)).
Proof.
  intros Hne Hb. unfold get_last_n_blocks_weights, get_block_weights, get_block_info_64bit_fields.
  change CRYPTONOTE_REWARD_BLOCKS_WINDOW with 100. unfold height in *.
  assert (0 < zlen db) by (unfold zlen; destruct db; [done | cbn; lia]).
  destruct (Z.eqb_spec (zlen db) 0); [lia |]. rewrite u64_small by lia.
  destruct (Z.leb_spec (zlen db) (zlen db - zlen db `min` 100)); [lia |]. unfold Rolling.last_n, zlen in *.
  replace (Z.to_nat (Z.of_nat (length db) - Z.of_nat (length db) `min` 100)) with (length db - Z.to_nat 100)%nat by lia.
  rewrite take_ge; [done |]. rewrite length_drop. lia.
Qed.

Lemma store_limits_limit version median st :
  m_current_block_cumul_weight_limit (store_limits (get_min_block_weight version) false median st)
  = Z.max CRYPTONOTE_BLOCK_GRANTED_FULL_REWARD_ZONE median *! 2.
Proof.
  unfold store_limits, get_min_block_weight. cbn [m_current_block_cumul_weight_limit set_limits].
  destruct (Z.leb_spec median CRYPTONOTE_BLOCK_GRANTED_FULL_REWARD_ZONE); do 2 f_equal; lia.
Qed.

(** Two states with the same cache. *)
Definition same_cache (st st' : weight_state) : Prop :=
  m_long_term_block_weights_window st' = m_long_term_block_weights_window st
  /\ m_long_term_block_weights_cache_tip_height st' = m_long_term_block_weights_cache_tip_height st
  /\ m_long_term_block_weights_cache_rolling_median st' = m_long_term_block_weights_cache_rolling_median st.

Lemma cache_holds_same st st' w : same_cache st st' -> cache_holds st w -> cache_holds st' w.
Proof. intros (E1 & _ & E3) [H1 H2]. unfold cache_holds. by rewrite E1, E3. Qed.

Lemma update_old_version st db version precomputed mid_batch :
  version < HF_VERSION_LONG_TERM_BLOCK_WEIGHT -> db <> [] -> height db < 2 ^ 64 ->
  exists st', update_next_cumulative_weight_limit st db version false precomputed mid_batch = Ok st'
    /\ same_cache st st' /\ m_current_block_cumul_weight_limit st' = weight_limit n version db.
Proof.
  intros Hv Hne Hb. unfold update_next_cumulative_weight_limit, weight_limit.
  rewrite (proj2 (Z.ltb_lt _ _)) by done. rewrite recent_weights by done. simpl_bind. eexists. split; [done |].
  split; [done |]. apply store_limits_limit.
Qed.

Lemma update_new_version st w db b version precomputed mid_batch :
  HF_VERSION_LONG_TERM_BLOCK_WEIGHT <= version ->
  cache_holds st w -> db <> [] -> height (db ++ [b]) < 2 ^ 64 ->
  bi_long_term_block_weight b = Z.min (bi_weight b) (short_term_constraint (long_term_median n db)) ->
  precomputed = Some (long_term_median n db) /\ w = ltw_window n db
  \/ precomputed = None /\ (w = [] \/ (m_long_term_block_weights_cache_tip_height st <> height db - 1
             /\ m_long_term_block_weights_cache_tip_height st <> height db - 2)) ->
  exists st', update_next_cumulative_weight_limit st (db ++ [b]) version false precomputed mid_batch = Ok st'
    /\ cache_at_top st' (db ++ [b])
    /\ m_long_term_effective_median_block_weight st' = effective_median n (db ++ [b])
    /\ m_current_block_cumul_weight_limit st'
       = if mid_batch then m_current_block_cumul_weight_limit st else weight_limit n version (db ++ [b]).
Proof.
  intros Hv Hc Hne Hb Hlt Hpre. destruct (update_long_term_ok st w db b precomputed) as (r & Hr & E); [done.. |].
  unfold update_next_cumulative_weight_limit, weight_limit. rewrite (proj2 (Z.ltb_ge _ _)) by done. rewrite E. simpl_bind.
  assert (Hh : height db = height (db ++ [b]) - 1) by (unfold height; rewrite zlen_app; change (zlen [b]) with 1; lia).
  assert (Ht : forall st', same_cache (set_cache (height db) r st) st' -> cache_at_top st' (db ++ [b])).
  { intros st' Hs. split; [apply (cache_holds_same (set_cache (height db) r st)); [done | split; [apply Hc | done]] |]. rewrite (proj1 (proj2 Hs)). cbn. lia. }
  destruct mid_batch.
  - eexists. split_and!; [done | by apply Ht | done | done].
  - rewrite recent_weights; [| by destruct db | done]. simpl_bind. eexists. split_and!; [done | by apply Ht | done |].
    apply store_limits_limit.
Qed.
End Window.

(** ** Runs of a node *)

Definition with_weight (b : block_info) (w : Z) : block_info :=
  Block_info (bi_timestamp b) (bi_coins b) (bi_weight b) (bi_diff b) (bi_hash b) w.

Section Run.
Context (n : nat) (hf : Z -> Z) (F : Z).
Context (Hfork : forall h, HF_VERSION_LONG_TERM_BLOCK_WEIGHT <= hf h <-> F <= h) (HF : 2 <= F).

(** Every stored long-term weight is the one computed when its block was added. *)
Definition stored_weights (db : chain) : Prop :=
  forall i b, db !! i = Some b ->
    bi_long_term_block_weight b = next_weight n (hf (Z.of_nat i)) (take i db) (bi_weight b).

(** The block that activates the rule is stored with its full weight; it is not
    heavier than the cap that holds from then on. *)
Definition fork_block_fits (db : chain) : Prop :=
  forall b, db !! Z.to_nat (F - 1) = Some b ->
    bi_weight b <= short_term_constraint (long_term_median n (take (Z.to_nat (F - 1)) db)).

(** The states of a node: it starts on a stored chain, adds and pops blocks, and
    may recompute the limits at any time. *)
Inductive weights_reachable : weight_state -> chain -> Prop :=
| wr_new st : cache_holds n st [] -> weights_reachable st []
| wr_start st db st' :
    cache_holds n st [] -> stored_weights db -> fork_block_fits db -> db <> [] -> height db < 2 ^ 63 ->
    update_next_cumulative_weight_limit st db (hf (height db)) false None false = Ok st' ->
    weights_reachable st' db
| wr_refresh st db st' :
    weights_reachable st db -> db <> [] ->
    update_next_cumulative_weight_limit st db (hf (height db)) false None false = Ok st' ->
    weights_reachable st' db
| wr_add mid_batch st db b st' db' :
    weights_reachable st db -> add_weighted_block hf mid_batch st db b = Ok (st', db') ->
    fork_block_fits db' -> height db' < 2 ^ 63 -> weights_reachable st' db'
| wr_pop st db st' db' :
    weights_reachable st db -> pop_weighted_block hf st db = Ok (st', db') -> weights_reachable st' db'.

Record weights_inv (st : weight_state) (db : chain) : Prop := {
  wi_stored : stored_weights db;
  wi_fork : fork_block_fits db;
  wi_height : height db < 2 ^ 63;
  wi_new : F <= height db ->
    cache_at_top n st db /\ m_long_term_effective_median_block_weight st = effective_median n db;
  wi_old : height db < F -> exists w, cache_holds n st w /\ (w = [] \/ m_long_term_block_weights_cache_tip_height st = F - 1)
}.

Lemma old_version h : h < F -> hf h < HF_VERSION_LONG_TERM_BLOCK_WEIGHT.
Proof. intros H. destruct (Z.lt_ge_cases (hf h) HF_VERSION_LONG_TERM_BLOCK_WEIGHT); [done |]. apply Hfork in H0. lia. Qed.

Lemma height_snoc (db : chain) b : height (db ++ [b]) = height db + 1.
Proof. unfold height. by rewrite zlen_app. Qed.

Lemma stored_weights_prefix db k : stored_weights (db ++ k) -> stored_weights db.
Proof.
  intros H i b Hi. pose proof (lookup_lt_Some _ _ _ Hi). rewrite <- (take_app_le db k i) by lia. apply H.
  by apply lookup_app_l_Some.
Qed.

Lemma stored_snoc db b :
  stored_weights db -> bi_long_term_block_weight b = next_weight n (hf (height db)) db (bi_weight b) ->
  stored_weights (db ++ [b]).
Proof.
  intros H Hb i c Hi. apply lookup_app_Some in Hi as [Hi | [Hge Hi]].
  - pose proof (lookup_lt_Some _ _ _ Hi). rewrite take_app_le by lia. by apply H.
  - apply list_lookup_singleton_Some in Hi as [Hz <-]. assert (i = length db) as -> by lia.
    by rewrite take_app_length.
Qed.

Lemma fork_prefix db k : fork_block_fits (db ++ k) -> fork_block_fits db.
Proof.
  intros H b Hb. pose proof (lookup_lt_Some _ _ _ Hb). rewrite <- (take_app_le db k) by lia. apply H.
  by apply lookup_app_l_Some.
Qed.

(** From the fork on, the top block stores the capped weight. *)
Lemma top_weight db b :
  stored_weights (db ++ [b]) -> fork_block_fits (db ++ [b]) -> F <= height (db ++ [b]) ->
  bi_long_term_block_weight b = Z.min (bi_weight b) (short_term_constraint (long_term_median n db)).
Proof.
  intros Hs Hf Hh. rewrite height_snoc in Hh. unfold height, zlen in Hh.
  assert (Hl : (db ++ [b]) !! length db = Some b) by (by apply list_lookup_middle).
  rewrite (Hs _ _ Hl). rewrite take_app_length. unfold next_weight.
  destruct (Z.ltb_spec (hf (Z.of_nat (length db))) HF_VERSION_LONG_TERM_BLOCK_WEIGHT) as [Hlt |]; [| done].
  assert (Z.of_nat (length db) < F) by (destruct (Z.lt_ge_cases (Z.of_nat (length db)) F) as [| Hge]; [done |]; apply Hfork in Hge; lia).
  assert (Z.to_nat (F - 1) = length db) as E by lia.
  specialize (Hf b). rewrite E, take_app_length in Hf. rewrite Z.min_l; [done | by apply Hf].
Qed.

(** An update that finds the cache ending elsewhere. *)
Lemma update_inv st w db :
  cache_holds n st w -> stored_weights db -> fork_block_fits db -> db <> [] -> height db < 2 ^ 63 ->
  w = [] \/ (m_long_term_block_weights_cache_tip_height st <> height db - 2
             /\ m_long_term_block_weights_cache_tip_height st <> height db - 3) ->
  (height db < F -> w = [] \/ m_long_term_block_weights_cache_tip_height st = F - 1) ->
  exists st', update_next_cumulative_weight_limit st db (hf (height db)) false None false = Ok st'
    /\ weights_inv st' db /\ m_current_block_cumul_weight_limit st' = weight_limit n (hf (height db)) db.
Proof.
  intros Hc Hs Hf Hne Hb Hmiss Hold. destruct (Z.lt_ge_cases (height db) F) as [Hlt | Hge].
  - destruct (update_old_version n st db (hf (height db)) None false) as (st1 & E & Same & L);
      [by apply old_version | done | lia |].
    exists st1. split_and!; [done | | done]. split; [done.. | lia |]. intros _. exists w.
    split; [by eapply cache_holds_same |]. rewrite (proj1 (proj2 Same)). by apply Hold.
  - destruct db as [| b db _] using rev_ind; [done |].
    assert (db <> []) by (intros ->; change (height ([] ++ [b])) with 1 in Hge; lia).
    pose proof (height_snoc db b) as Eh.
    destruct (update_new_version n st w db b (hf (height (db ++ [b]))) None false) as (st1 & E & T & M & L);
      [by apply Hfork | done | done | lia | by apply top_weight | | ].
    + right. split; [done |]. rewrite Eh in Hmiss. destruct Hmiss as [-> | [H1 H2]]; [by left | right; lia].
    + exists st1. split_and!; [done | | by apply L]. split; [done.. | | lia]. by intros _.
Qed.

(** What the next block is given: a function of the chain. *)
Lemma next_weight_ok st db w :
  weights_inv st db ->
  get_next_long_term_block_weight st db (hf (height db)) w
  = Ok (next_weight n (hf (height db)) db w,
        (if hf (height db) <? HF_VERSION_LONG_TERM_BLOCK_WEIGHT then None else Some (long_term_median n db)), st).
Proof.
  intros I. pose proof (wi_height st db I) as Hb. unfold get_next_long_term_block_weight, next_weight.
  destruct (Z.ltb_spec (hf (height db)) HF_VERSION_LONG_TERM_BLOCK_WEIGHT) as [| Hge]; [done |].
  apply Hfork in Hge. destruct (wi_new st db I Hge) as [[Hc Ht] _].
  assert (Hne : db <> []) by (intros ->; change (height []) with 0 in Hge; lia).
  pose proof (median_hit n st db [] Hc Hne) as E. rewrite app_nil_r in E. specialize (E ltac:(lia) Ht).
  rewrite (proj1 Hc). unfold height, zlen in *. rewrite u64_small by lia.
  replace (Z.of_nat n `min` Z.of_nat (length db)) with (Z.of_nat (n `min` length db)) by lia.
  rewrite E. done.
Qed.

Lemma add_inv mid_batch st db b :
  weights_inv st db -> height db + 1 < 2 ^ 63 ->
  let db' := db ++ [with_weight b (next_weight n (hf (height db)) db (bi_weight b))] in
  fork_block_fits db' ->
  exists st', add_weighted_block hf mid_batch st db b = Ok (st', db') /\ weights_inv st' db'
    /\ m_current_block_cumul_weight_limit st'
       = if mid_batch && (F <=? height db') then m_current_block_cumul_weight_limit st
         else weight_limit n (hf (height db')) db'.
Proof.
  intros I Hb db' Hf. unfold add_weighted_block. rewrite next_weight_ok by done. simpl_bind.
  fold (with_weight b (next_weight n (hf (height db)) db (bi_weight b))). fold db'.
  assert (Hs : stored_weights db') by (apply stored_snoc; [apply (wi_stored st db I) | done]).
  assert (Eh : height db' = height db + 1) by apply height_snoc.
  destruct (Z.lt_ge_cases (height db') F) as [Hlt | Hge].
  - rewrite (proj2 (Z.leb_gt F _)), andb_false_r by done.
    destruct (update_old_version n st db' (hf (height db')) None mid_batch) as (st1 & E & Same & L);
      [by apply old_version | by destruct db | lia |].
    rewrite (proj2 (Z.ltb_lt (hf (height db)) _)) by (apply old_version; lia).
    rewrite E. simpl_bind. exists st1. split_and!; [done | | done]. split; [done.. | lia | lia |]. intros _.
    destruct (wi_old st db I) as (w & Hc & Hw); [lia |]. exists w. split; [by eapply cache_holds_same |].
    by rewrite (proj1 (proj2 Same)).
  - rewrite (proj2 (Z.leb_le F _)), andb_true_r by done.
    assert (Hne : db <> []) by (intros ->; change (height []) with 0 in *; lia).
    destruct (Z.lt_ge_cases (height db) F) as [Hlt' | Hge'].
    + rewrite (proj2 (Z.ltb_lt (hf (height db)) _)) by (by apply old_version).
      destruct (wi_old st db I Hlt') as (w & Hc & Hw).
      destruct (update_new_version n st w db (with_weight b (next_weight n (hf (height db)) db (bi_weight b)))
        (hf (height db')) None mid_batch) as (st1 & E & T & M & L);
        [by apply Hfork | done | done | fold db'; lia | by apply top_weight | |].
      { right. split; [done |]. destruct Hw as [-> | Hw]; [by left | right; lia]. }
      fold db' in E, T, M, L. rewrite E. simpl_bind. exists st1. split_and!; [done | | done]. split; [done.. | lia | | lia]. by intros _.
    + rewrite (proj2 (Z.ltb_ge (hf (height db)) _)) by (by apply Hfork).
      destruct (wi_new st db I Hge') as [[Hc Ht] _].
      destruct (update_new_version n st (ltw_window n db) db (with_weight b (next_weight n (hf (height db)) db (bi_weight b)))
        (hf (height db')) (Some (long_term_median n db)) mid_batch) as (st1 & E & T & M & L);
        [by apply Hfork | done | done | fold db'; lia | by apply top_weight | by left |].
      fold db' in E, T, M, L. rewrite E. simpl_bind. exists st1. split_and!; [done | | done]. split; [done.. | lia | | lia]. by intros _.
Qed.

Lemma pop_inv st db :
  weights_inv st db -> 1 < height db ->
  let db' := take (length db - 1) db in
  exists st', pop_weighted_block hf st db = Ok (st', db') /\ weights_inv st' db'
    /\ m_current_block_cumul_weight_limit st' = weight_limit n (hf (height db')) db'.
Proof.
  intros I Hh db'. unfold pop_weighted_block. rewrite (proj2 (Z.ltb_lt 1 (height db))) by done. cbn [negb]. fold db'.
  destruct db as [| b db _] using rev_ind; [done |].
  assert (E : db' = db). { unfold db'. rewrite length_app. cbn. rewrite Nat.add_sub. by rewrite take_app_length. }
  rewrite E. clear db' E. rewrite height_snoc in Hh. pose proof (wi_height _ _ I) as Hb. rewrite height_snoc in Hb.
  pose proof (stored_weights_prefix _ _ (wi_stored _ _ I)) as Hs. pose proof (fork_prefix _ _ (wi_fork _ _ I)) as Hf.
  assert (Hne : db <> []) by (intros ->; change (height []) with 0 in Hh; lia).
  assert (Hw : exists w, cache_holds n st w
    /\ (w = [] \/ (m_long_term_block_weights_cache_tip_height st <> height db - 2
                   /\ m_long_term_block_weights_cache_tip_height st <> height db - 3))
    /\ (height db < F -> w = [] \/ m_long_term_block_weights_cache_tip_height st = F - 1)).
  { destruct (Z.lt_ge_cases (height (db ++ [b])) F) as [Hlt | Hge].
    - destruct (wi_old _ _ I Hlt) as (w & Hc & Hw). rewrite height_snoc in Hlt. exists w. split_and!; [done | | by intros _].
      destruct Hw as [-> | Hw]; [by left | right; lia].
    - destruct (wi_new _ _ I Hge) as [[Hc Ht] _]. rewrite height_snoc in *. eexists. split_and!; [done | right; lia | right; lia]. }
  destruct Hw as (w & Hc & Hmiss & Hold).
  destruct (update_inv st w db) as (st1 & -> & I1 & L1); [done.. | lia | done | done |]. simpl_bind. by exists st1.
Qed.

Lemma refresh_inv st db :
  weights_inv st db -> db <> [] ->
  exists st', update_next_cumulative_weight_limit st db (hf (height db)) false None false = Ok st'
    /\ weights_inv st' db /\ m_current_block_cumul_weight_limit st' = weight_limit n (hf (height db)) db.
Proof.
  intros I Hne. destruct (Z.lt_ge_cases (height db) F) as [Hlt | Hge].
  - destruct (wi_old _ _ I Hlt) as (w & Hc & Hw).
    apply (update_inv st w db Hc (wi_stored _ _ I) (wi_fork _ _ I) Hne (wi_height _ _ I)); [| done].
    destruct Hw as [-> | Hw]; [by left | right; lia].
  - destruct (wi_new _ _ I Hge) as [[Hc Ht] _].
    apply (update_inv st _ db Hc (wi_stored _ _ I) (wi_fork _ _ I) Hne (wi_height _ _ I)); [right; lia | lia].
Qed.

Lemma reachable_weights_inv st db : weights_reachable st db -> weights_inv st db.
Proof.
  induction 1 as [st Hc | st db st' Hc Hs Hf Hne Hb E | st db st' _ I Hne E | mid st db b st' db' _ I E Hf Hb
                 | st db st' db' _ I E].
  - split; [by intros i b Hi | by intros b Hi | done | change (height []) with 0; lia |]. intros _. exists []. by split; [| left].
  - destruct (update_inv st [] db) as (st1 & E1 & I1 & _); [done.. | by left | by intros _; left |]. rewrite E in E1. by simplify_eq.
  - destruct (refresh_inv st db I Hne) as (st1 & E1 & I1 & _). rewrite E in E1. by simplify_eq.
  - pose proof E as E0. unfold add_weighted_block in E0. rewrite next_weight_ok in E0 by done. simpl_bind in E0.
    destruct (update_next_cumulative_weight_limit _ _ _ _ _ _) as [st1 | |]; simpl_bind in E0; [| done..]. simplify_eq.
    rewrite height_snoc in Hb. destruct (add_inv mid st db b I Hb Hf) as (st2 & E2 & I2 & _).
    rewrite E in E2. by simplify_eq.
  - assert (1 < height db) as H1.
    { revert E. unfold pop_weighted_block. by destruct (Z.ltb_spec 1 (height db)). }
    destruct (pop_inv st db I H1) as (st1 & E1 & I1 & _).
    rewrite E in E1. by simplify_eq.
Qed.
End Run.

(** C35: In every state a node can reach by adding and popping blocks, on chains
    whose last block before version 12 is not heavier than the cap of that
    version, the cached rolling median cannot be observed: the long-term weight
    and median the next block gets, and the effective median, are those computed
    from the stored chain alone. Adding a block, popping one and recomputing the
    limits succeed, and set the weight limit to the same function of the new
    chain; only a block added inside a batch, from version 12 on, leaves the
    limit as it was until the limits are recomputed. [F] is the chain height from
    which version 12 holds. Without the condition on that block the theorem
    fails ([fork_block_history]). *)
Theorem weights_function_of_chain n hf F st db :
  (forall h, HF_VERSION_LONG_TERM_BLOCK_WEIGHT <= hf h <-> F <= h) -> 2 <= F ->
  weights_reachable n hf F st db ->
  (forall w, get_next_long_term_block_weight st db (hf (height db)) w
     = Ok (next_weight n (hf (height db)) db w,
           (if hf (height db) <? HF_VERSION_LONG_TERM_BLOCK_WEIGHT then None else Some (long_term_median n db)), st))
  /\ (F <= height db -> m_long_term_effective_median_block_weight st = effective_median n db)
  /\ (forall mid_batch b, let db' := db ++ [with_weight b (next_weight n (hf (height db)) db (bi_weight b))] in
       height db' < 2 ^ 63 -> fork_block_fits n F db' ->
       exists st', add_weighted_block hf mid_batch st db b = Ok (st', db')
         /\ m_current_block_cumul_weight_limit st'
            = if mid_batch && (F <=? height db') then m_current_block_cumul_weight_limit st
              else weight_limit n (hf (height db')) db')
  /\ (1 < height db ->
       let db' := take (length db - 1) db in
       exists st', pop_weighted_block hf st db = Ok (st', db')
         /\ m_current_block_cumul_weight_limit st' = weight_limit n (hf (height db')) db')
  /\ (db <> [] ->
       exists st', update_next_cumulative_weight_limit st db (hf (height db)) false None false = Ok st'
         /\ m_current_block_cumul_weight_limit st' = weight_limit n (hf (height db)) db).
Proof.
  intros Hfork HF R. pose proof (reachable_weights_inv n hf F Hfork HF st db R) as I. split_and!.
  - intros w. by apply (next_weight_ok n hf F Hfork HF).
  - intros Hh. by apply (wi_new n hf F st db I).
  - intros mid_batch b db' Hb Hf. unfold db' in Hb. rewrite height_snoc in Hb.
    destruct (add_inv n hf F Hfork HF mid_batch st db b I Hb Hf) as (st' & E & _ & L). by exists st'.
  - intros Hh. destruct (pop_inv n hf F Hfork HF st db I Hh) as (st' & E & _ & L). by exists st'.
  - intros Hne. destruct (refresh_inv n hf F Hfork HF st db I Hne) as (st' & E & _ & L). by exists st'.
Qed.

(** A window of three blocks, version 12 from height 2 on. *)
Definition example_hf (h : Z) : Z := if h <? 2 then 11 else 12.

Definition example_block (w : Z) : block_info := Block_info 0 0 w 0 null_hash 0.

Definition example_median : Rolling.rolling_median :=
  Eval vm_compute in
  match Rolling.new_rolling_median 3 (replicate 9 0) with Ok r => r | _ => Rolling.Rolling_median [] [] [] 0 0 0 0 0 end.

Definition example_start : weight_state := Weight_state 3 0 0 example_median 0 0 None.

Definition example_run (ws : list Z) : weight_state * chain :=
  foldl (fun '(st, db) w =>
      match add_weighted_block example_hf false st db (example_block w) with Ok r => r | _ => (st, db) end)
    (example_start, []) ws.

Lemma example_fork h : HF_VERSION_LONG_TERM_BLOCK_WEIGHT <= example_hf h <-> 2 <= h.
Proof. unfold example_hf, HF_VERSION_LONG_TERM_BLOCK_WEIGHT. split_cmp; lia. Qed.

Definition example_weights (k : nat) : list Z := take k [0; 400000; 350000; 600000].

Lemma weights_example_reachable k :
  (k <= 4)%nat ->
  weights_reachable 3 example_hf 2 (fst (example_run (example_weights k))) (snd (example_run (example_weights k))).
Proof.
  induction k as [| k IH]; intros Hk.
  - apply wr_new. split; [done |]. destruct (Rolling.holds_new 3 (replicate 9 0)) as (r & E & H); [lia | done |].
    vm_compute in E. by simplify_eq.
  - eapply (wr_add 3 example_hf 2 false _ _ (example_block (nth k [0; 400000; 350000; 600000] 0))); [apply IH; lia | | |];
      clear IH; assert (k = 0 \/ k = 1 \/ k = 2 \/ k = 3)%nat as [-> | [-> | [-> | ->]]] by lia;
      try (vm_compute; reflexivity); intros b Hb; vm_compute in Hb; simplify_eq; vm_compute; discriminate.
Qed.

Lemma weights_function_of_chain_witness :
  let st := fst (example_run (example_weights 4)) in
  let db := snd (example_run (example_weights 4)) in
  (height db = 4 /\ map bi_long_term_block_weight db = [0; 400000; 350000; 490000])
  /\ get_next_long_term_block_weight st db (example_hf (height db)) 580000
    = Ok (next_weight 3 12 db 580000, Some 400000, st).
Proof.
  split; [vm_compute; done |].
  destruct (weights_function_of_chain 3 example_hf 2 _ _ example_fork ltac:(lia) (weights_example_reachable 4 ltac:(lia)))
    as [H _]. exact (H 580000).
Defined.

(** The block before the fork is stored with its full weight but enters the
    rolling median capped. When it is heavier than the cap, a node that runs
    through the fork and one that restarts after it disagree on the effective
    median of the same chain. *)
Lemma fork_block_history :
  let '(st, db) := example_run [0; 1000000; 900000; 600000] in
  m_long_term_effective_median_block_weight st = 420000
  /\ effective_median 3 db = 588000
  /\ exists st', update_next_cumulative_weight_limit example_start db (example_hf (height db)) false None false = Ok st'
      /\ m_long_term_effective_median_block_weight st' = 588000.
Proof. vm_compute. split_and!; [done | done |]. eexists. by split. Qed.
