(* ===== verification/Limbs.v ===== *)
(** * Straight-line arithmetic on vectors of limbs

    [src/crypto/crypto-ops.c] computes with large integers spread over vectors
    of signed machine words, in long unrolled sequences of carries and
    multiplications by constants. This file models such sequences: a [line] is
    one line of that code, [run] executes a list of lines on a vector, and a
    signed operation that overflows is undefined. [run_abs] executes the same
    lines on intervals; [run_sound] shows that a sequence accepted by it does not
    overflow and stays within the computed intervals. The value of a vector is
    the sum of its limbs with their weights. *)
From S2P Require Import Prelude.

Open Scope Z_scope.

(** Runs a bind whose first step is known by an equation. *)
Lemma bind_ok {A B} (m : outcome A) a (k : A -> outcome B) : m = Ok a -> (x ← m; k x) = k a.
Proof. by intros ->. Qed.

Ltac bind_with E := rewrite (bind_ok _ _ _ E); cbv beta.

(** ** Signed arithmetic

    Signed overflow is undefined. A right shift of a negative number rounds down
    and a left shift multiplies, as gcc and clang document. *)

Definition fits (w x : Z) : bool := (- 2 ^ (w - 1) <=? x) && (x <? 2 ^ (w - 1)).

Definition int_of (w x : Z) : outcome Z := if fits w x then Ok x else Undef.

(** The lines of the unrolled code, on the vector [s]:

    - [Round i n j k]: carry = (s[i] + (1 << (n - 1))) >> n; s[j] += carry * k; s[i] -= carry << n;
    - [Floor i n j k]: carry = s[i] >> n; s[j] += carry * k; s[i] -= carry << n;
    - [Drop i n]: carry = s[i] >> n; s[i] -= carry << n;
    - [Madd j i c]: s[j] += s[i] * c;
    - [Msub j i c]: s[j] -= s[i] * c;
    - [Clear i]: s[i] = 0. *)
Inductive line :=
| Round (i : nat) (n : Z) (j : nat) (k : Z)
| Floor (i : nat) (n : Z) (j : nat) (k : Z)
| Drop (i : nat) (n : Z)
| Madd (j i : nat) (c : Z)
| Msub (j i : nat) (c : Z)
| Clear (i : nat).

Section Machine.
Context (w : Z).

Definition shift_out (s : list Z) (i : nat) (n : Z) (t : Z) : outcome (list Z) :=
  e ← int_of w (Z.shiftl (Z.shiftr t n) n);
  si ← at_or_undef (s !! i);
  si ← int_of w (si - e);
  Ok (<[i := si]> s).

Definition carry_to (s : list Z) (i : nat) (n : Z) (j : nat) (k t : Z) : outcome (list Z) :=
  d ← (if k =? 1 then Ok (Z.shiftr t n) else int_of w (Z.shiftr t n * k));
  sj ← at_or_undef (s !! j);
  sj ← int_of w (sj + d);
  shift_out (<[j := sj]> s) i n t.

Definition run_line (s : list Z) (l : line) : outcome (list Z) :=
  match l with
  | Round i n j k => si ← at_or_undef (s !! i); t ← int_of w (si + 2 ^ (n - 1)); carry_to s i n j k t
  | Floor i n j k => si ← at_or_undef (s !! i); carry_to s i n j k si
  | Drop i n => si ← at_or_undef (s !! i); shift_out s i n si
  | Madd j i c =>
      si ← at_or_undef (s !! i); m ← int_of w (si * c);
      sj ← at_or_undef (s !! j); sj ← int_of w (sj + m); Ok (<[j := sj]> s)
  | Msub j i c =>
      si ← at_or_undef (s !! i); m ← int_of w (si * c);
      sj ← at_or_undef (s !! j); sj ← int_of w (sj - m); Ok (<[j := sj]> s)
  | Clear i => _ ← at_or_undef (s !! i); Ok (<[i := 0]> s)
  end.

Fixpoint run (ls : list line) (s : list Z) : outcome (list Z) :=
  match ls with
  | [] => Ok s
  | l :: ls => s ← run_line s l; run ls s
  end.

(** ** Intervals *)

Definition itv : Type := Z * Z.

Definition inside (a : itv) (x : Z) : Prop := a.1 <= x <= a.2.

Definition within (A : list itv) (s : list Z) : Prop := Forall2 inside A s.

Definition itv_int (a : itv) : option itv := if fits w a.1 && fits w a.2 then Some a else None.

Definition itv_add (a b : itv) : itv := (a.1 + b.1, a.2 + b.2).
Definition itv_sub (a b : itv) : itv := (a.1 - b.2, a.2 - b.1).
Definition itv_mul (a b : itv) : itv :=
  let x := a.1 * b.1 in let y := a.1 * b.2 in let z := a.2 * b.1 in let t := a.2 * b.2 in
  (Z.min (Z.min x y) (Z.min z t), Z.max (Z.max x y) (Z.max z t)).
Definition itv_shr (n : Z) (a : itv) : itv := (Z.shiftr a.1 n, Z.shiftr a.2 n).
Definition itv_const (c : Z) : itv := (c, c).

(** [rest] is the interval of [s[i] - (carry << n)]. *)
Definition shift_out_abs (A : list itv) (i : nat) (n : Z) (t rest : itv) : option (list itv) :=
  _ ← itv_int (itv_mul (itv_shr n t) (itv_const (2 ^ n)));
  _ ← itv_int rest;
  Some (<[i := rest]> A).

Definition carry_to_abs (A : list itv) (i : nat) (n : Z) (j : nat) (k : Z) (t rest : itv) : option (list itv) :=
  if bool_decide (i = j) || (n <? 1) then None else
  d ← (if k =? 1 then Some (itv_shr n t) else itv_int (itv_mul (itv_shr n t) (itv_const k)));
  aj ← A !! j;
  aj ← itv_int (itv_add aj d);
  shift_out_abs (<[j := aj]> A) i n t rest.

Definition run_line_abs (A : list itv) (l : line) : option (list itv) :=
  match l with
  | Round i n j k =>
      ai ← A !! i; t ← itv_int (itv_add ai (itv_const (2 ^ (n - 1))));
      carry_to_abs A i n j k t (- 2 ^ (n - 1), 2 ^ (n - 1) - 1)
  | Floor i n j k => ai ← A !! i; carry_to_abs A i n j k ai (0, 2 ^ n - 1)
  | Drop i n => ai ← A !! i; if n <? 1 then None else shift_out_abs A i n ai (0, 2 ^ n - 1)
  | Madd j i c =>
      ai ← A !! i; m ← itv_int (itv_mul ai (itv_const c));
      aj ← A !! j; aj ← itv_int (itv_add aj m); Some (<[j := aj]> A)
  | Msub j i c =>
      ai ← A !! i; m ← itv_int (itv_mul ai (itv_const c));
      aj ← A !! j; aj ← itv_int (itv_sub aj m); Some (<[j := aj]> A)
  | Clear i => _ ← A !! i; Some (<[i := (0, 0)]> A)
  end.

Fixpoint run_abs (ls : list line) (A : list itv) : option (list itv) :=
  match ls with
  | [] => Some A
  | l :: ls => A ← run_line_abs A l; run_abs ls A
  end.
End Machine.

(** ** Soundness of the intervals *)

Lemma fits_between w a b x : fits w a = true -> fits w b = true -> a <= x <= b -> fits w x = true.
Proof. unfold fits. rewrite !andb_true_iff, !Z.leb_le, !Z.ltb_lt. lia. Qed.

Lemma itv_int_sound w a b x : itv_int w a = Some b -> inside a x -> int_of w x = Ok x /\ a = b.
Proof.
  unfold itv_int, int_of. destruct (fits w a.1 && fits w a.2) eqn:E; [| done]. intros [= <-] Hx.
  apply andb_true_iff in E as [E1 E2]. by rewrite (fits_between w _ _ x E1 E2 Hx).
Qed.

Lemma itv_add_sound a b x y : inside a x -> inside b y -> inside (itv_add a b) (x + y).
Proof. unfold inside, itv_add. cbn. lia. Qed.

Lemma itv_sub_sound a b x y : inside a x -> inside b y -> inside (itv_sub a b) (x - y).
Proof. unfold inside, itv_sub. cbn. lia. Qed.

Lemma itv_mul_sound a b x y : inside a x -> inside b y -> inside (itv_mul a b) (x * y).
Proof.
  unfold inside, itv_mul. cbn. intros Hx Hy.
  assert (a.1 * y <= x * y <= a.2 * y \/ a.2 * y <= x * y <= a.1 * y) by (destruct (Z.le_ge_cases 0 y); [left | right]; nia).
  assert (forall u, u * b.1 <= u * y <= u * b.2 \/ u * b.2 <= u * y <= u * b.1) as Hu
    by (intros u; destruct (Z.le_ge_cases 0 u); [left | right]; nia).
  destruct (Hu a.1), (Hu a.2); lia.
Qed.

Lemma itv_shr_sound n a x : 0 <= n -> inside a x -> inside (itv_shr n a) (Z.shiftr x n).
Proof.
  unfold inside, itv_shr. cbn. intros Hn Hx. rewrite !shiftr_div by done.
  split; apply Z.div_le_mono; lia.
Qed.

Lemma itv_const_sound c : inside (itv_const c) c.
Proof. unfold inside, itv_const. cbn. lia. Qed.

#[export] Hint Resolve itv_add_sound itv_sub_sound itv_mul_sound itv_const_sound : nerva.

Lemma within_lookup A s i a : within A s -> A !! i = Some a -> exists x, s !! i = Some x /\ inside a x.
Proof. intros H E. destruct (Forall2_lookup_l _ _ _ _ _ H E) as (x & ? & ?). eauto. Qed.

Lemma within_insert A s i a x : within A s -> inside a x -> within (<[i := a]> A) (<[i := x]> s).
Proof. intros H Hx. by apply Forall2_insert. Qed.

(** Runs a step of the abstract execution and the same step of the concrete one. *)
Ltac abs_lookup H Hw :=
  let a := fresh "a" in let E := fresh "E" in let x := fresh "x" in let Ex := fresh "Ex" in let Hx := fresh "Hx" in
  match type of H with
  | context [@mbind option _ _ _ _ (?A !! ?i)] =>
      destruct (A !! i) as [a |] eqn:E; [| done]; cbn [mbind option_bind] in H;
      destruct (within_lookup _ _ _ _ Hw E) as (x & Ex & Hx); rewrite ?Ex; simpl_bind
  end.

Ltac abs_int H t :=
  let E := fresh "E" in let Eo := fresh "Eo" in
  match type of H with
  | context [itv_int ?w ?a] =>
      destruct (itv_int w a) eqn:E; [| done]; cbn [mbind option_bind] in H;
      destruct (itv_int_sound _ _ _ t E ltac:(auto with nerva)) as [Eo <-]; rewrite Eo; simpl_bind; clear E Eo
  end.

Lemma shift_out_sound w A s i n t x a rest B :
  1 <= n -> within A s -> s !! i = Some x -> inside a t ->
  inside rest (x - Z.shiftl (Z.shiftr t n) n) -> shift_out_abs w A i n a rest = Some B ->
  shift_out w s i n t = Ok (<[i := x - Z.shiftl (Z.shiftr t n) n]> s) /\
  within B (<[i := x - Z.shiftl (Z.shiftr t n) n]> s).
Proof.
  intros Hn Hw Ex Ht Hr H. unfold shift_out_abs in H. unfold shift_out.
  assert (Ht' := itv_shr_sound n a t ltac:(lia) Ht).
  rewrite Z.shiftl_mul_pow2 in * by lia.
  abs_int H (Z.shiftr t n * 2 ^ n). rewrite Ex. simpl_bind.
  abs_int H (x - Z.shiftr t n * 2 ^ n). injection H as <-. split; [done |]. by apply within_insert.
Qed.

Lemma carry_to_sound w A s i n j k t x a rest B :
  within A s -> s !! i = Some x -> inside a t -> (1 <= n -> inside rest (x - Z.shiftl (Z.shiftr t n) n)) ->
  carry_to_abs w A i n j k a rest = Some B ->
  exists y, s !! j = Some y /\ i <> j /\ 1 <= n /\
  carry_to w s i n j k t = Ok (<[i := x - Z.shiftl (Z.shiftr t n) n]> (<[j := y + Z.shiftr t n * k]> s)) /\
  within B (<[i := x - Z.shiftl (Z.shiftr t n) n]> (<[j := y + Z.shiftr t n * k]> s)).
Proof.
  intros Hw Ex Ht Hr H. unfold carry_to_abs in H. unfold carry_to.
  case_bool_decide as Hij; [done |]. destruct (n <? 1) eqn:Hn; [done |].
  cbn [orb] in H. apply Z.ltb_ge in Hn. specialize (Hr Hn). assert (Ht' := itv_shr_sound n a t ltac:(lia) Ht).
  assert (Hd : exists d, (if k =? 1 then Some (itv_shr n a) else itv_int w (itv_mul (itv_shr n a) (itv_const k))) = Some d /\
    inside d (Z.shiftr t n * k) /\
    (if k =? 1 then Ok (Z.shiftr t n) else int_of w (Z.shiftr t n * k)) = Ok (Z.shiftr t n * k)).
  { destruct (Z.eqb_spec k 1) as [-> | _]; [rewrite Z.mul_1_r; eauto |].
    destruct (itv_int w _) as [d |] eqn:E; [| done]. eapply itv_int_sound in E as [Eo <-]; eauto 6 with nerva. }
  destruct Hd as (d & Ed & Hd & ->). rewrite Ed in H. simpl_bind. cbn [mbind option_bind] in H.
  abs_lookup H Hw. abs_int H (x0 + Z.shiftr t n * k).
  exists x0. split_and!; [done | done | done |..].
  all: refine (_ (shift_out_sound w (<[j := itv_add a0 d]> A) (<[j := x0 + Z.shiftr t n * k]> s) i n t x a rest B Hn _ _ Ht Hr H)).
  1, 4: by intros [].
  1, 3: by apply within_insert; auto with nerva.
  all: by rewrite list_lookup_insert_ne.
Qed.

Lemma round_rest n x : 1 <= n ->
  inside (- 2 ^ (n - 1), 2 ^ (n - 1) - 1) (x - Z.shiftl (Z.shiftr (x + 2 ^ (n - 1)) n) n).
Proof.
  intros Hn. unfold inside. cbn. rewrite Z.shiftl_mul_pow2, shiftr_div by lia.
  assert (2 ^ n = 2 * 2 ^ (n - 1)) by (rewrite <- Z.pow_succ_r by lia; f_equal; lia).
  pose proof (Z.mod_pos_bound (x + 2 ^ (n - 1)) (2 ^ n) ltac:(lia)).
  pose proof (Z.div_mod (x + 2 ^ (n - 1)) (2 ^ n) ltac:(lia)). lia.
Qed.

Lemma floor_rest n x : 1 <= n -> inside (0, 2 ^ n - 1) (x - Z.shiftl (Z.shiftr x n) n).
Proof.
  intros Hn. unfold inside. cbn. rewrite Z.shiftl_mul_pow2, shiftr_div by lia.
  pose proof (Z.mod_pos_bound x (2 ^ n) ltac:(lia)). pose proof (Z.div_mod x (2 ^ n) ltac:(lia)). lia.
Qed.

(** ** The same lines on integers *)

Definition carry_exact (s : list Z) (i : nat) (n : Z) (j : nat) (k t : Z) : list Z :=
  let s := <[j := s !!! j + Z.shiftr t n * k]> s in
  <[i := s !!! i - Z.shiftl (Z.shiftr t n) n]> s.

Definition exact_line (s : list Z) (l : line) : list Z :=
  match l with
  | Round i n j k => carry_exact s i n j k (s !!! i + 2 ^ (n - 1))
  | Floor i n j k => carry_exact s i n j k (s !!! i)
  | Drop i n => <[i := s !!! i - Z.shiftl (Z.shiftr (s !!! i) n) n]> s
  | Madd j i c => <[j := s !!! j + s !!! i * c]> s
  | Msub j i c => <[j := s !!! j - s !!! i * c]> s
  | Clear i => <[i := 0]> s
  end.

Definition exact (ls : list line) (s : list Z) : list Z := foldl exact_line s ls.

Lemma carry_sound w A s i n j k t x a rest B :
  within A s -> s !! i = Some x -> inside a t -> (1 <= n -> inside rest (x - Z.shiftl (Z.shiftr t n) n)) ->
  carry_to_abs w A i n j k a rest = Some B ->
  carry_to w s i n j k t = Ok (carry_exact s i n j k t) /\ within B (carry_exact s i n j k t).
Proof.
  intros Hw Ex Ht Hr H. destruct (carry_to_sound w A s i n j k t x a rest B Hw Ex Ht Hr H) as (y & Ey & Hij & _ & E & HB).
  unfold carry_exact. rewrite (list_lookup_total_correct s j y Ey).
  rewrite (list_lookup_total_correct _ i x) by by rewrite list_lookup_insert_ne. done.
Qed.

Lemma run_line_sound w A s l B :
  within A s -> run_line_abs w A l = Some B ->
  run_line w s l = Ok (exact_line s l) /\ within B (exact_line s l).
Proof.
  intros Hw H. destruct l as [i n j k | i n j k | i n | j i c | j i c | i]; cbn [run_line run_line_abs exact_line] in *;
    abs_lookup H Hw; rewrite ?(list_lookup_total_correct _ _ _ Ex).
  - abs_int H (x + 2 ^ (n - 1)). eapply carry_sound; [done | done | | intros; by apply round_rest | done]. auto with nerva.
  - eapply carry_sound; [done | done | done | intros; by apply floor_rest | done].
  - destruct (n <? 1) eqn:Hn; [done |]. apply Z.ltb_ge in Hn.
    eapply shift_out_sound; [done | done | done | done | by apply floor_rest | done].
  - abs_int H (x * c). abs_lookup H Hw. rewrite (list_lookup_total_correct _ _ _ Ex0).
    abs_int H (x0 + x * c). injection H as <-. split; [done |]. apply within_insert; auto with nerva.
  - abs_int H (x * c). abs_lookup H Hw. rewrite (list_lookup_total_correct _ _ _ Ex0).
    abs_int H (x0 - x * c). injection H as <-. split; [done |]. apply within_insert; auto with nerva.
  - injection H as <-. split; [done |]. apply within_insert; [done |]. split; cbn; lia.
Qed.

(** Lines accepted on intervals run without overflow and stay in the intervals. *)
Lemma run_sound w ls A s B :
  within A s -> run_abs w ls A = Some B -> run w ls s = Ok (exact ls s) /\ within B (exact ls s).
Proof.
  revert A s. induction ls as [| l ls IH]; intros A s Hw H; cbn in H |- *; [by simplify_eq |].
  destruct (run_line_abs w A l) as [A' |] eqn:E; [| done].
  destruct (run_line_sound w A s l A' Hw E) as [-> Hw']. by apply (IH A').
Qed.

Lemma run_app w l1 l2 s : run w (l1 ++ l2) s = (s ← run w l1 s; run w l2 s).
Proof.
  revert s. induction l1 as [| l l1 IH]; intros s; cbn [app run]; [done |].
  destruct (run_line w s l) as [s1 | |]; [apply IH | done..].
Qed.

Lemma exact_app l1 l2 s : exact (l1 ++ l2) s = exact l2 (exact l1 s).
Proof. apply foldl_app. Qed.

(** ** The value of a vector *)

(** Limb [i] has the weight [2 ^ ws[i]]; limbs without a weight do not count. *)
Fixpoint value (ws s : list Z) : Z :=
  match ws, s with
  | w :: ws, x :: s => 2 ^ w * x + value ws s
  | _, _ => 0
  end.

Definition weight (ws : list Z) (i : nat) : Z := match ws !! i with Some w => 2 ^ w | None => 0 end.

Lemma value_insert_at ws s i x y : s !! i = Some y -> value ws (<[i := x]> s) = value ws s + weight ws i * (x - y).
Proof.
  revert ws i. induction s as [| z s IH]; intros ws i Hi; [done |].
  destruct ws as [| w ws]; [by destruct i; cbn |]. destruct i as [| i].
  - injection Hi as ->. change (weight (w :: ws) 0) with (2 ^ w). cbn. ring.
  - change (weight (w :: ws) (S i)) with (weight ws i). change (<[S i := x]> (z :: s)) with (z :: <[i := x]> s).
    cbn [value]. rewrite (IH ws i Hi). ring.
Qed.

Lemma value_insert ws s i x : (i < length s)%nat -> value ws (<[i := x]> s) = value ws s + weight ws i * (x - s !!! i).
Proof. intros Hi. by apply value_insert_at, list_lookup_lookup_total_lt. Qed.

Lemma length_exact_line s l : length (exact_line s l) = length s.
Proof. destruct l; cbn; unfold carry_exact; by rewrite ?length_insert. Qed.

Lemma length_exact ls s : length (exact ls s) = length s.
Proof.
  unfold exact. revert s. induction ls as [| l ls IH]; intros s; cbn; [done |]. by rewrite IH, length_exact_line.
Qed.

(** The change of the value that a carry makes, for some carry. *)
Lemma value_carry ws s i n j k t : i <> j -> 0 <= n -> (i < length s)%nat -> (j < length s)%nat ->
  value ws (carry_exact s i n j k t) = value ws s + Z.shiftr t n * (weight ws j * k - weight ws i * 2 ^ n).
Proof.
  intros Hij Hn Hi Hj. unfold carry_exact. rewrite !value_insert by by rewrite ?length_insert.
  rewrite list_lookup_total_insert_ne by done. rewrite Z.shiftl_mul_pow2 by done. lia.
Qed.

(** Carries that move a multiple of the modulus [m]. *)
Definition carry_ok (m : Z) (ws : list Z) (len : nat) (l : line) : bool :=
  match l with
  | Round i n j k | Floor i n j k =>
      ((weight ws j * k - weight ws i * 2 ^ n) mod m =? 0) && negb (i =? j)%nat && (0 <=? n)
      && (i <? len)%nat && (j <? len)%nat
  | Drop i n => ((weight ws i * 2 ^ n) mod m =? 0) && (0 <=? n) && (i <? len)%nat
  | _ => false
  end.

Lemma value_carries m ws ls s : m <> 0 -> forallb (carry_ok m ws (length s)) ls = true ->
  value ws (exact ls s) mod m = value ws s mod m.
Proof.
  intros Hm. revert s. unfold exact. induction ls as [| l ls IH]; intros s H; [done |].
  cbn [forallb foldl] in *. apply andb_true_iff in H as [H Hr].
  rewrite IH by by rewrite length_exact_line.
  assert (Hc : exists t c, exact_line s l = c /\ value ws c = value ws s + t * m); [| by destruct Hc as (t & c & -> & ->); rewrite Z.mod_add].
  destruct l as [i n j k | i n j k | i n | | |]; try done; cbn [carry_ok] in H.
  3: { rewrite !andb_true_iff, Z.leb_le, Nat.ltb_lt, Z.eqb_eq in H. destruct H as [[H ?] ?].
       apply Z.mod_divide in H as [q Hq]; [| done]. eexists (- Z.shiftr (s !!! i) n * q), _. split; [done |]. cbn [exact_line].
       rewrite value_insert, Z.shiftl_mul_pow2 by done.
       rewrite <- Z.mul_assoc, <- Hq. ring. }
  all: rewrite !andb_true_iff, negb_true_iff, Nat.eqb_neq, Z.leb_le, !Nat.ltb_lt, Z.eqb_eq in H; destruct H as [[[[H ?] ?] ?] ?].
  all: apply Z.mod_divide in H as [q Hq]; [| done]; cbn [exact_line]; eexists _, _; split; [done |].
  all: rewrite value_carry, Hq by done; rewrite Z.mul_assoc; reflexivity.
Qed.

(** ** Reading limbs from bytes *)

(** Source: src/src/crypto/crypto-ops.c:52-58 (load_3) *)
Definition load_3 (s : list Z) (o : nat) : outcome Z :=
  a ← at_or_undef (s !! o); b ← at_or_undef (s !! (o + 1)%nat); c ← at_or_undef (s !! (o + 2)%nat);
  Ok (Z.lor (Z.lor a (Z.shiftl b 8)) (Z.shiftl c 16)).

(** Source: src/src/crypto/crypto-ops.c:60-68 (load_4) *)
Definition load_4 (s : list Z) (o : nat) : outcome Z :=
  a ← at_or_undef (s !! o); b ← at_or_undef (s !! (o + 1)%nat);
  c ← at_or_undef (s !! (o + 2)%nat); d ← at_or_undef (s !! (o + 3)%nat);
  Ok (Z.lor (Z.lor (Z.lor a (Z.shiftl b 8)) (Z.shiftl c 16)) (Z.shiftl d 24)).

(** Bits [a] to [a + n - 1] of an integer. *)
Definition slice (x a n : Z) : Z := x / 2 ^ a mod 2 ^ n.

Lemma le_bytes_slice s o n : bytes s -> (o + n <= length s)%nat ->
  le_bytes (take n (drop o s)) = slice (le_bytes s) (8 * Z.of_nat o) (8 * Z.of_nat n).
Proof.
  intros Hs Hn. unfold slice. rewrite !Z.pow_mul_r by lia. change (2 ^ 8) with 256.
  rewrite <- (take_drop o s) at 2. rewrite le_bytes_app. rewrite <- (take_drop n (drop o s)) at 2. rewrite le_bytes_app.
  unfold zlen. rewrite !length_take, length_drop.
  replace (o `min` length s)%nat with o by lia. replace (n `min` (length s - o))%nat with n by lia.
  assert (bytes (take o s)) by by apply Forall_take. assert (bytes (take n (drop o s))) by by apply Forall_take, Forall_drop.
  pose proof (le_bytes_range (take o s) H) as H1. pose proof (le_bytes_range (take n (drop o s)) H0) as H2.
  unfold zlen in H1, H2. rewrite length_take in H1. rewrite length_take, length_drop in H2.
  replace (o `min` length s)%nat with o in H1 by lia. replace (n `min` (length s - o))%nat with n in H2 by lia.
  rewrite (Z.mul_comm (256 ^ Z.of_nat o)), Z.div_add, Z.div_small by lia.
  rewrite Z.add_0_l, (Z.mul_comm (256 ^ Z.of_nat n)), Z.mod_add, Z.mod_small by lia. done.
Qed.

Lemma le_bytes_lor3 a b c : in_u 8 a -> in_u 8 b -> in_u 8 c ->
  Z.lor (Z.lor a (Z.shiftl b 8)) (Z.shiftl c 16) = a + 256 * (b + 256 * (c + 256 * 0)).
Proof.
  unfold in_u. intros. rewrite (Z.lor_comm a), lor_shiftl_add by lia.
  rewrite Z.lor_comm, lor_shiftl_add by lia. rewrite ?Z.shiftl_mul_pow2 by lia. lia.
Qed.

Lemma load_3_slice s o : bytes s -> (o + 3 <= length s)%nat -> load_3 s o = Ok (slice (le_bytes s) (8 * Z.of_nat o) 24).
Proof.
  intros Hs Hl. change 24 with (8 * Z.of_nat 3). rewrite <- (le_bytes_slice s o 3) by done. unfold load_3.
  destruct (lookup_lt_is_Some_2 s o) as [a Ha]; [lia |]. destruct (lookup_lt_is_Some_2 s (o + 1)) as [b Hb]; [lia |].
  destruct (lookup_lt_is_Some_2 s (o + 2)) as [c Hc]; [lia |]. rewrite Ha, Hb, Hc. simpl_bind.
  rewrite (drop_S s a o Ha). rewrite Nat.add_1_r in Hb. rewrite (drop_S s b (S o) Hb).
  replace (o + 2)%nat with (S (S o)) in Hc by lia. rewrite (drop_S s c (S (S o)) Hc). cbn [take le_bytes]. f_equal.
  apply le_bytes_lor3; eapply (Forall_lookup_1 _ s); eauto.
Qed.

Lemma load_4_slice s o : bytes s -> (o + 4 <= length s)%nat -> load_4 s o = Ok (slice (le_bytes s) (8 * Z.of_nat o) 32).
Proof.
  intros Hs Hl. change 32 with (8 * Z.of_nat 4). rewrite <- (le_bytes_slice s o 4) by done. unfold load_4.
  destruct (lookup_lt_is_Some_2 s o) as [a Ha]; [lia |]. destruct (lookup_lt_is_Some_2 s (o + 1)) as [b Hb]; [lia |].
  destruct (lookup_lt_is_Some_2 s (o + 2)) as [c Hc]; [lia |]. destruct (lookup_lt_is_Some_2 s (o + 3)) as [d Hd]; [lia |].
  rewrite Ha, Hb, Hc, Hd. simpl_bind.
  rewrite (drop_S s a o Ha). rewrite Nat.add_1_r in Hb. rewrite (drop_S s b (S o) Hb).
  replace (o + 2)%nat with (S (S o)) in Hc by lia. rewrite (drop_S s c (S (S o)) Hc).
  replace (o + 3)%nat with (S (S (S o))) in Hd by lia. rewrite (drop_S s d (S (S (S o))) Hd). cbn [take le_bytes]. f_equal.
  assert (in_u 8 a /\ in_u 8 b /\ in_u 8 c /\ in_u 8 d) as (? & ? & ? & ?) by (split_and!; eapply (Forall_lookup_1 _ s); eauto).
  rewrite le_bytes_lor3, Z.lor_comm, lor_shiftl_add by (unfold in_u in *; lia). rewrite take_0; cbn [le_bytes]. lia.
Qed.

(** ** Bits of a vector in normal form *)

(** Every limb but the last one fills the gap to the next weight. *)
Fixpoint normal (ws s : list Z) : Prop :=
  match ws, s with
  | [w], [x] => 0 <= w /\ 0 <= x
  | w :: ((w' :: _) as ws), x :: s => 0 <= w <= w' /\ 0 <= x < 2 ^ (w' - w) /\ normal ws s
  | _, _ => False
  end.

Fixpoint bit_at (ws s : list Z) (n : Z) : bool :=
  match ws, s with
  | w :: ws, x :: s => Z.testbit x (n - w) || bit_at ws s n
  | _, _ => false
  end.

Lemma normal_cons w w' ws x s : normal (w :: w' :: ws) (x :: s) -> 0 <= w <= w' /\ 0 <= x < 2 ^ (w' - w) /\ normal (w' :: ws) s.
Proof. by destruct s. Qed.

Lemma value_multiple ws : forall w s, normal (w :: ws) s -> exists q, 0 <= q /\ value (w :: ws) s = q * 2 ^ w.
Proof.
  induction ws as [| w' ws IH]; intros w [| x s]; try done.
  - destruct s; [| done]. intros [? ?]. exists x. cbn. lia.
  - intros H. apply normal_cons in H as (Hw & Hx & Hs). destruct (IH w' s Hs) as (q & Hq & E).
    change (value (w :: w' :: ws) (x :: s)) with (2 ^ w * x + value (w' :: ws) s). rewrite E.
    exists (x + q * 2 ^ (w' - w)). replace w' with (w + (w' - w)) at 2 by lia. rewrite Z.pow_add_r by lia. split; [nia | ring].
Qed.

Lemma value_testbit ws : forall s n, normal ws s -> 0 <= n -> Z.testbit (value ws s) n = bit_at ws s n.
Proof.
  induction ws as [| w ws IH]; intros [| x s] n Hs Hn; try done; [by destruct ws |].
  destruct ws as [| w' ws].
  { destruct s; [| done]. destruct Hs. cbn. rewrite orb_false_r, Z.add_0_r, Z.mul_comm, <- Z.shiftl_mul_pow2, Z.shiftl_spec by done. done. }
  apply normal_cons in Hs as (Hw & Hx & Hs). destruct (value_multiple ws w' s Hs) as (q & Hq & E).
  change (value (w :: w' :: ws) (x :: s)) with (2 ^ w * x + value (w' :: ws) s).
  change (bit_at (w :: w' :: ws) (x :: s) n) with (Z.testbit x (n - w) || bit_at (w' :: ws) s n).
  assert (0 <= x * 2 ^ w < 2 ^ w').
  { replace w' with (w' - w + w) by lia. rewrite Z.pow_add_r by lia. nia. }
  rewrite <- (IH s n Hs Hn), E, (Z.mul_comm (2 ^ w)), Z.add_comm, <- (lor_shiftl_add q (x * 2 ^ w) w'), Z.lor_spec by lia.
  rewrite orb_comm, <- !Z.shiftl_mul_pow2, (Z.shiftl_spec x) by lia. done.
Qed.

(** ** Writing limbs to bytes

    A left shift keeps the low bits of the product, as gcc documents. *)

(** Limb [i] shifted right, or left by a negative amount. *)
Definition part (i : nat) (sh : Z) : nat * Z := (i, sh).

(** The or of the parts of a byte. *)
Fixpoint or_shifted (w : Z) (s : list Z) (ts : list (nat * Z)) : outcome Z :=
  match ts with
  | [] => Ok 0
  | (i, sh) :: ts =>
      x ← at_or_undef (s !! i); r ← or_shifted w s ts; Ok (Z.lor (to_signed w (Z.shiftr x sh)) r)
  end.

Fixpoint store_bytes (w : Z) (s : list Z) (table : list (list (nat * Z))) : outcome (list Z) :=
  match table with
  | [] => Ok []
  | ts :: table => r ← or_shifted w s ts; bs ← store_bytes w s table; Ok (u8 r :: bs)
  end.

(** A row of the table for the byte at bit [b]: the limbs it takes are aligned,
    and the limbs it leaves out have no bit in the byte. *)
Definition row_ok (ws widths : list Z) (b : Z) (ts : list (nat * Z)) : bool :=
  forallb (fun '(i, sh) => match ws !! i, widths !! i with
                           | Some wi, Some n => sh =? b - wi
                           | _, _ => false
                           end) ts
  && forallb (fun '(i, (wi, n)) =>
       (b + 8 <=? wi) || (wi + n <=? b) || existsb (fun t => fst t =? i)%nat ts)
     (zip (seq 0 (length ws)) (zip ws widths)).

Fixpoint table_ok (ws widths : list Z) (b : Z) (table : list (list (nat * Z))) : bool :=
  match table with
  | [] => true
  | ts :: table => row_ok ws widths b ts && table_ok ws widths (b + 8) table
  end.

Definition in_widths (widths s : list Z) : Prop := Forall2 (fun n x => 0 <= x < 2 ^ n) widths s.

Lemma bit_at_true ws : forall s n, bit_at ws s n = true <->
  exists i wi x, ws !! i = Some wi /\ s !! i = Some x /\ Z.testbit x (n - wi) = true.
Proof.
  induction ws as [| w ws IH]; intros [| y s] n; try (split; [done |]; intros (i & ? & ? & ? & ? & ?); destruct i; done).
  cbn [bit_at]. rewrite orb_true_iff, IH. split.
  - intros [? | (i & wi & x & ? & ? & ?)]; [by exists 0%nat, w, y | by exists (S i), wi, x].
  - intros ([| i] & wi & x & E1 & E2 & ?); cbn in E1, E2; [left; by simplify_eq | right; by exists i, wi, x].
Qed.

Lemma testbit_range x n k : 0 <= x < 2 ^ n -> Z.testbit x k = true -> 0 <= k < n.
Proof.
  intros Hx Hk. split; [destruct (Z.le_gt_cases 0 k); [done | by rewrite Z.testbit_neg_r in Hk] |].
  destruct (Z.lt_ge_cases k n) as [? | Hn]; [done |].
  assert (0 <= n \/ n < 0) as [? | ?] by lia.
  - rewrite Z.bits_above_log2 in Hk; [done | lia |]. destruct (Z.eq_dec x 0) as [-> |]; [by rewrite Z.testbit_0_l in Hk |].
    apply Z.log2_lt_pow2; [lia |]. eapply Z.lt_le_trans; [apply Hx |]. apply Z.pow_le_mono_r; lia.
  - rewrite Z.pow_neg_r in Hx by done. lia.
Qed.

Lemma to_signed_bits w x k : 0 <= k < w -> Z.testbit (to_signed w x) k = Z.testbit x k.
Proof.
  intros Hk. rewrite <- (Z.mod_pow2_bits_low x w k), <- (Z.mod_pow2_bits_low (to_signed w x) w k) by lia. f_equal.
  unfold to_signed, wrap. destruct (_ <? _); [apply Z.mod_mod; lia |].
  replace (x mod 2 ^ w - 2 ^ w) with (x mod 2 ^ w + (-1) * 2 ^ w) by lia. rewrite Z.mod_add by lia. apply Z.mod_mod. lia.
Qed.

Lemma or_shifted_bits w s ts : 8 <= w -> forallb (fun t => match s !! fst t with Some _ => true | None => false end) ts = true ->
  exists r, or_shifted w s ts = Ok r /\ forall k, 0 <= k < 8 ->
    Z.testbit r k = existsb (fun '(i, sh) => Z.testbit (s !!! i) (k + sh)) ts.
Proof.
  intros Hw. induction ts as [| [i sh] ts IH]; cbn [forallb or_shifted existsb fst]; intros H.
  { exists 0. split; [done |]. intros. by rewrite Z.testbit_0_l. }
  apply andb_true_iff in H as [H1 H2]. destruct (IH H2) as (r & -> & Hr).
  destruct (s !! i) as [x |] eqn:Ex; [| done]. simpl_bind.
  eexists. split; [done |]. intros k Hk. rewrite Z.lor_spec, Hr, to_signed_bits, Z.shiftr_spec by lia.
  by rewrite (list_lookup_total_correct s i x Ex).
Qed.

Lemma row_bits w ws widths b s ts : 8 <= w -> in_widths widths s -> length ws = length s -> row_ok ws widths b ts = true ->
  exists r, or_shifted w s ts = Ok r /\ forall k, 0 <= k < 8 -> Z.testbit r k = bit_at ws s (b + k).
Proof.
  intros Hw Hs Hl H. apply andb_true_iff in H as [Ht Hc]. rewrite forallb_forall in Ht, Hc.
  assert (He : forall i sh, In (i, sh) ts -> exists wi n x, ws !! i = Some wi /\ widths !! i = Some n /\ s !! i = Some x /\
    sh = b - wi).
  { intros i sh Hi. specialize (Ht _ Hi). cbn in Ht. destruct (ws !! i) as [wi |]; [| done].
    destruct (widths !! i) as [n |] eqn:En; [| done]. destruct (Forall2_lookup_l _ _ _ _ _ Hs En) as (x & Ex & Hx).
    apply Z.eqb_eq in Ht. by exists wi, n, x. }
  destruct (or_shifted_bits w s ts Hw) as (r & Er & Hr).
  { apply forallb_forall. intros [i sh] Hi. destruct (He i sh Hi) as (wi & n & x & ? & ? & Ex & ?). cbn [fst]. by rewrite Ex. }
  exists r. split; [done |]. intros k Hk. rewrite Hr by lia. apply eq_true_iff_eq. rewrite existsb_exists, bit_at_true. split.
  - intros ([i sh] & Hi & Hb). destruct (He i sh Hi) as (wi & n & x & ? & ? & Ex & ->). exists i, wi, x.
    rewrite (list_lookup_total_correct s i x Ex) in Hb. split_and!; [done | done |]. by replace (b + k - wi) with (k + (b - wi)) by lia.
  - intros (i & wi & x & Ewi & Ex & Hb). destruct (Forall2_lookup_r _ _ _ _ _ Hs Ex) as (n & En & Hx).
    pose proof (testbit_range x n _ Hx Hb).
    assert (Hi : In (i, (wi, n)) (zip (seq 0 (length ws)) (zip ws widths))).
    { apply list_elem_of_In, list_elem_of_lookup. exists i. rewrite !lookup_zip_with.
      rewrite lookup_seq_lt by by eapply lookup_lt_Some. rewrite Ewi, En. done. }
    specialize (Hc _ Hi). cbn in Hc. rewrite !orb_true_iff, !Z.leb_le, existsb_exists in Hc.
    destruct Hc as [[? | ?] | ([i' sh] & Hi' & Heq)]; [lia | lia |]. apply Nat.eqb_eq in Heq. cbn in Heq. subst i'.
    exists (i, sh). split; [done |]. destruct (He i sh Hi') as (wi' & _ & x' & ? & _ & _ & ->). simplify_eq.
    rewrite (list_lookup_total_correct s i x Ex). by replace (k + (b - wi)) with (b + k - wi) by lia.
Qed.

Lemma store_bytes_value w ws widths b s table : 8 <= w -> 0 <= b -> normal ws s -> in_widths widths s -> length ws = length s ->
  table_ok ws widths b table = true ->
  store_bytes w s table = Ok (le_encode (length table) (value ws s / 2 ^ b)).
Proof.
  intros Hw Hb Hn Hs Hl. revert b Hb. induction table as [| ts table IH]; intros b Hb Ht; [done |].
  cbn [table_ok store_bytes length le_encode] in *. apply andb_true_iff in Ht as [H1 H2].
  destruct (row_bits w ws widths b s ts Hw Hs Hl H1) as (r & -> & Hr). simpl_bind. rewrite (IH (b + 8) ltac:(lia) H2). simpl_bind.
  do 2 f_equal.
  - apply Z.bits_inj'. intros k Hk. change 256 with (2 ^ 8). unfold wrap. destruct (Z.lt_ge_cases k 8).
    + rewrite !Z.mod_pow2_bits_low, Z.div_pow2_bits, Hr, value_testbit by lia || done. f_equal. lia.
    + by rewrite !Z.mod_pow2_bits_high by lia.
  - f_equal. rewrite Z.div_div, Z.pow_add_r by lia. done.
Qed.

(** ** Sums of products

    The unrolled multiplications first compute multiples of the limbs that are
    used more than once ([int32_t g1_19 = 19 * g1]), then all products as 64-bit
    integers and the sums of products. A term [(i, a, j, b)] is the product of
    [a * f[i]] and [b * g[j]]. *)

Definition term : Type := nat * Z * nat * Z.
Definition tm (i : nat) (a : Z) (j : nat) (b : Z) : term := (i, a, j, b).

Definition scaled (a x : Z) : outcome Z := if a =? 1 then Ok x else int_of 32 (a * x).

Definition product (f g : list Z) (t : term) : outcome Z :=
  let '(i, a, j, b) := t in
  x ← at_or_undef (f !! i); x ← scaled a x; y ← at_or_undef (g !! j); y ← scaled b y; int_of 64 (x * y).

Fixpoint add_products (f g : list Z) (acc : Z) (ts : list term) : outcome Z :=
  match ts with
  | [] => Ok acc
  | t :: ts => p ← product f g t; acc ← int_of 64 (acc + p); add_products f g acc ts
  end.

Definition sum_products (f g : list Z) (ts : list term) : outcome Z :=
  match ts with
  | [] => Ok 0
  | t :: ts => p ← product f g t; add_products f g p ts
  end.

Fixpoint all_rows (f g : list Z) (rows : list (list term)) : outcome (list Z) :=
  match rows with
  | [] => Ok []
  | ts :: rows => h ← sum_products f g ts; hs ← all_rows f g rows; Ok (h :: hs)
  end.

Definition scaled_abs (a : Z) (x : itv) : option itv := if a =? 1 then Some x else itv_int 32 (itv_mul (itv_const a) x).

Definition product_abs (f g : list itv) (t : term) : option itv :=
  let '(i, a, j, b) := t in
  x ← f !! i; x ← scaled_abs a x; y ← g !! j; y ← scaled_abs b y; itv_int 64 (itv_mul x y).

Fixpoint add_products_abs (f g : list itv) (acc : itv) (ts : list term) : option itv :=
  match ts with
  | [] => Some acc
  | t :: ts => p ← product_abs f g t; acc ← itv_int 64 (itv_add acc p); add_products_abs f g acc ts
  end.

Definition sum_products_abs (f g : list itv) (ts : list term) : option itv :=
  match ts with
  | [] => Some (0, 0)
  | t :: ts => p ← product_abs f g t; add_products_abs f g p ts
  end.

Fixpoint all_rows_abs (f g : list itv) (rows : list (list term)) : option (list itv) :=
  match rows with
  | [] => Some []
  | ts :: rows => h ← sum_products_abs f g ts; hs ← all_rows_abs f g rows; Some (h :: hs)
  end.

Definition product_exact (f g : list Z) (t : term) : Z := let '(i, a, j, b) := t in a * f !!! i * (b * g !!! j).
Definition row_exact (f g : list Z) (ts : list term) : Z := foldr (fun t acc => product_exact f g t + acc) 0 ts.
Definition rows_exact (f g : list Z) (rows : list (list term)) : list Z := map (row_exact f g) rows.

Section Products.
Context (F G : list itv) (f g : list Z) (Hf : within F f) (Hg : within G g).

Lemma scaled_sound a x ax b : scaled_abs a ax = Some b -> inside ax x -> scaled a x = Ok (a * x) /\ inside b (a * x).
Proof.
  unfold scaled_abs, scaled. destruct (Z.eqb_spec a 1) as [-> | _]; [rewrite Z.mul_1_l; by intros [= ->] |].
  intros E Hx. apply (itv_int_sound _ _ _ (a * x)) in E as [Eo <-]; auto with nerva.
Qed.

Lemma product_sound t b : product_abs F G t = Some b ->
  product f g t = Ok (product_exact f g t) /\ inside b (product_exact f g t).
Proof.
  destruct t as [[[i a] j] c]. intros H. cbn [product product_abs product_exact] in *.
  abs_lookup H Hf. rewrite (list_lookup_total_correct _ _ _ Ex).
  destruct (scaled_abs a a0) as [a1 |] eqn:E1; [| done]. cbn [mbind option_bind] in H.
  destruct (scaled_sound _ _ _ _ E1 Hx) as [-> Hx1]. simpl_bind.
  abs_lookup H Hg. rewrite (list_lookup_total_correct _ _ _ Ex0).
  destruct (scaled_abs c a2) as [a3 |] eqn:E2; [| done]. cbn [mbind option_bind] in H.
  destruct (scaled_sound _ _ _ _ E2 Hx0) as [-> Hx2]. simpl_bind.
  destruct (itv_int_sound _ _ _ (a * x * (c * x0)) H ltac:(auto with nerva)) as [Eo Eb].
  rewrite Eo, <- Eb. auto with nerva.
Qed.

Lemma add_products_sound ts acc aacc b : inside aacc acc -> add_products_abs F G aacc ts = Some b ->
  add_products f g acc ts = Ok (acc + row_exact f g ts) /\ inside b (acc + row_exact f g ts).
Proof.
  revert acc aacc. induction ts as [| t ts IH]; intros acc aacc Ha H; cbn [add_products add_products_abs] in *.
  { injection H as <-. cbn. by rewrite Z.add_0_r. }
  destruct (product_abs F G t) as [p |] eqn:Ep; [| done]. destruct (product_sound t p Ep) as [-> Hp].
  simpl_bind. cbn [mbind option_bind] in H. abs_int H (acc + product_exact f g t).
  destruct (IH (acc + product_exact f g t) (itv_add aacc p) ltac:(auto with nerva) H) as [-> Hb].
  change (row_exact f g (t :: ts)) with (product_exact f g t + row_exact f g ts). by rewrite Z.add_assoc.
Qed.

Lemma all_rows_sound rows B : all_rows_abs F G rows = Some B ->
  all_rows f g rows = Ok (rows_exact f g rows) /\ within B (rows_exact f g rows).
Proof.
  revert B. induction rows as [| ts rows IH]; intros B H; cbn [all_rows all_rows_abs] in *; [injection H as <-; split; [done | constructor] |].
  destruct (sum_products_abs F G ts) as [h |] eqn:Eh; [| done]. cbn [mbind option_bind] in H.
  destruct (all_rows_abs F G rows) as [hs |]; [| done]. injection H as <-. destruct (IH hs eq_refl) as [-> Hhs].
  assert (sum_products f g ts = Ok (row_exact f g ts) /\ inside h (row_exact f g ts)) as [-> Hh].
  { destruct ts as [| t ts]; cbn [sum_products sum_products_abs] in *; [injection Eh as <-; split; [done | split; cbn; lia] |].
    destruct (product_abs F G t) as [p |] eqn:Ep; [| done]. destruct (product_sound t p Ep) as [-> Hp].
    simpl_bind. cbn [mbind option_bind] in Eh. by apply (add_products_sound ts _ p). }
  split; [done |]. by constructor.
Qed.
End Products.

(** Writing bytes reads only the limbs of the table. *)
Lemma store_bytes_take w n s table : forallb (forallb (fun t : nat * Z => t.1 <? n)%nat) table = true ->
  store_bytes w s table = store_bytes w (take n s) table.
Proof.
  induction table as [| ts table IH]; cbn [forallb store_bytes]; intros H; [done |]. apply andb_true_iff in H as [H1 H2].
  rewrite (IH H2). assert (or_shifted w s ts = or_shifted w (take n s) ts) as ->; [| done].
  clear IH H2. induction ts as [| [i sh] ts IH]; cbn [forallb or_shifted] in *; [done |].
  apply andb_true_iff in H1 as [Hi H1]. apply Nat.ltb_lt in Hi. rewrite (IH H1), lookup_take_lt by done. done.
Qed.

Lemma value_take ws s r : (length ws <= length s)%nat -> value ws (s ++ r) = value ws s.
Proof.
  revert s. induction ws as [| w ws IH]; intros s Hl; [done |]. destruct s as [| x s]; [cbn in Hl; lia |].
  cbn [app value]. by rewrite IH by (cbn in Hl; lia).
Qed.

Lemma value_zip_with (op : Z -> Z -> Z) ws a b : (forall w x y, w * op x y = op (w * x) (w * y)) ->
  (forall x y z t, op x y + op z t = op (x + z) (y + t)) -> op 0 0 = 0 -> length a = length b ->
  value ws (zip_with op a b) = op (value ws a) (value ws b).
Proof.
  intros H1 H2 H0. revert a b. induction ws as [| w ws IH]; intros [| x a] [| y b] Hl; cbn; try done.
  rewrite IH by (cbn in Hl; lia). by rewrite H1, H2.
Qed.

(** ** The test for zero *)

Lemma lor_zero_all l a : 0 <= a -> Forall (Z.le 0) l -> foldl Z.lor a l = 0 <-> a = 0 /\ Forall (eq 0) l.
Proof.
  intros Ha Hl. revert a Ha. induction Hl as [| b l Hb _ IH]; intros a Ha; cbn [foldl]; [split; [by intros -> | tauto] |].
  rewrite IH by (apply Z.lor_nonneg; lia). rewrite Z.lor_eq_0_iff, Forall_cons. split; [intros [[-> ->] ?] | intros [-> [<- ?]]]; done.
Qed.

Lemma lor_bytes l a : in_u 8 a -> bytes l -> in_u 8 (foldl Z.lor a l).
Proof.
  intros Ha Hl. revert a Ha. induction Hl as [| b l Hb _ IH]; intros a Ha; [done |]. apply IH. unfold in_u in *. split; [apply Z.lor_nonneg; lia |].
  destruct (Z.eq_dec (Z.lor a b) 0) as [-> | Hn]; [lia |].
  apply Z.log2_lt_cancel. rewrite Z.log2_lor, Z.log2_pow2 by lia.
  assert (forall x, 0 <= x < 2 ^ 8 -> Z.log2 x < 8) as Hlog.
  { intros x Hx. destruct (Z.eq_dec x 0) as [-> |]; [done | apply Z.log2_lt_pow2; lia]. }
  apply Z.max_lub_lt; apply Hlog; lia.
Qed.

Lemma le_bytes_zero l : bytes l -> le_bytes l = 0 <-> Forall (eq 0) l.
Proof.
  induction 1 as [| b l Hb Hl IH]; cbn [le_bytes]; [by split |]. rewrite Forall_cons, <- IH. unfold in_u in Hb.
  pose proof (le_bytes_range l Hl). lia.
Qed.

Lemma or_bytes_nonzero s : bytes s -> Z.shiftr (foldl Z.lor 0 s - 1) 8 + 1 = if le_bytes s =? 0 then 0 else 1.
Proof.
  intros Hs. pose proof (lor_bytes s 0 ltac:(by_decide) Hs) as Hr. unfold in_u in Hr.
  assert (Hz : foldl Z.lor 0 s = 0 <-> le_bytes s = 0).
  { rewrite le_bytes_zero, lor_zero_all by (done || (eapply Forall_impl; [exact Hs |]; unfold in_u; lia)). tauto. }
  rewrite shiftr_div by lia. destruct (Z.eqb_spec (le_bytes s) 0) as [E | E].
  - by rewrite (proj2 Hz E).
  - rewrite Z.div_small by (change (2 ^ 8) with 256 in *; lia). done.
Qed.

(** ** Signed words *)

Lemma to_signed_fits w x : 1 <= w -> fits w x = true -> to_signed w x = x.
Proof.
  intros Hw. unfold fits, to_signed, wrap. rewrite andb_true_iff, Z.leb_le, Z.ltb_lt. intros Hx.
  assert (2 ^ w = 2 * 2 ^ (w - 1)) by (rewrite <- Z.pow_succ_r by lia; f_equal; lia).
  destruct (Z.le_gt_cases 0 x).
  - rewrite !Z.mod_small by lia. destruct (Z.ltb_spec x (2 ^ (w - 1))); lia.
  - rewrite <- (Z.mod_unique x (2 ^ w) (-1) (x + 2 ^ w)) by lia. destruct (Z.ltb_spec (x + 2 ^ w) (2 ^ (w - 1))); lia.
Qed.

(** A word fits when all bits from the sign bit on are equal. *)
Lemma fits_bits w x : 1 <= w -> fits w x = true <-> forall k, w - 1 <= k -> Z.testbit x k = (x <? 0).
Proof.
  intros Hw. unfold fits. rewrite andb_true_iff, Z.leb_le, Z.ltb_lt. split.
  - intros Hx k Hk. destruct (Z.ltb_spec x 0).
    + destruct (Z.eq_dec x (-1)) as [-> |]; [apply Z.bits_m1; lia |]. rewrite Z.bits_above_log2_neg; [done | done |].
      apply Z.log2_lt_pow2; [lia |]. assert (2 ^ (w - 1) <= 2 ^ k) by (apply Z.pow_le_mono_r; lia). lia.
    + destruct (Z.eq_dec x 0) as [-> |]; [by rewrite Z.testbit_0_l |]. rewrite Z.bits_above_log2; [done | lia |].
      apply Z.log2_lt_pow2; [lia |]. assert (2 ^ (w - 1) <= 2 ^ k) by (apply Z.pow_le_mono_r; lia). lia.
  - intros Hb. assert (E : x / 2 ^ (w - 1) = if x <? 0 then -1 else 0).
    { apply Z.bits_inj'. intros k Hk. rewrite Z.div_pow2_bits, Hb by lia. destruct (x <? 0); [by rewrite Z.bits_m1 | by rewrite Z.testbit_0_l]. }
    pose proof (Z.div_mod x (2 ^ (w - 1)) ltac:(lia)). pose proof (Z.mod_pos_bound x (2 ^ (w - 1)) ltac:(lia)).
    rewrite E in *. destruct (Z.ltb_spec x 0); lia.
Qed.

Lemma lxor_fits w x y : 1 <= w -> fits w x = true -> fits w y = true -> fits w (Z.lxor x y) = true.
Proof.
  intros Hw. rewrite !fits_bits by done. intros Hx Hy k Hk. rewrite Z.lxor_spec, Hx, Hy by done.
  destruct (Z.ltb_spec x 0), (Z.ltb_spec y 0), (Z.ltb_spec (Z.lxor x y) 0); try done; exfalso.
  all: pose proof (Z.lxor_nonneg x y); lia.
Qed.
