(* ===== verification/ScalarOps.v ===== *)
(** * Scalars modulo the order of the base point

    The [sc_] functions of [src/crypto/crypto-ops.c]: integers modulo the prime
    order of the base point, as 32 bytes in memory and as vectors of 21-bit limbs
    in 64-bit integers while they are computed with. *)
From S2P Require Import Prelude Limbs.

Open Scope Z_scope.

(** The order of the base point. *)
Definition sc_order : Z := 2 ^ 252 + 27742317777372353535851937790883648493.

(** ** Limbs of a scalar *)

Definition word (n o : nat) (sh : Z) : nat * nat * Z := (n, o, sh).

(** Where the limbs of 21 bits are read: [load_3] or [load_4] at an offset,
    shifted right. The last one is not masked.
    Source: src/src/crypto/crypto-ops.c:2435-2446 (sc_reduce32) *)
Definition sc_limbs_32 : list (nat * nat * Z) :=
  [word 3 0 0; word 4 2 5; word 3 5 2; word 4 7 7; word 4 10 4; word 3 13 1; word 4 15 6; word 3 18 3;
   word 3 21 0; word 4 23 5; word 3 26 2; word 4 28 7].

(** Source: src/src/crypto/crypto-ops.c:1780-1803 (sc_reduce) *)
Definition sc_limbs_64 : list (nat * nat * Z) :=
  sc_limbs_32 ++
  [word 4 31 4; word 3 34 1; word 4 36 6; word 3 39 3; word 3 42 0; word 4 44 5; word 3 47 2; word 4 49 7;
   word 4 52 4; word 3 55 1; word 4 57 6; word 4 60 3].

Definition load_word (s : list Z) (n o : nat) : outcome Z := if (n =? 3)%nat then load_3 s o else load_4 s o.

Fixpoint load_limbs (s : list Z) (table : list (nat * nat * Z)) : outcome (list Z) :=
  match table with
  | [] => Ok []
  | [(n, o, sh)] => x ← load_word s n o; Ok [Z.shiftr x sh]
  | (n, o, sh) :: table =>
      x ← load_word s n o; xs ← load_limbs s table; Ok (Z.land 2097151 (Z.shiftr x sh) :: xs)
  end.

(** ** Reduction *)

(** The six lines that replace limb [k] by a combination of six lower ones. *)
Definition sc_fold (k : nat) : list line :=
  [Madd (k - 12) k 666643; Madd (k - 11) k 470296; Madd (k - 10) k 654183;
   Msub (k - 9) k 997805; Madd (k - 8) k 136657; Msub (k - 7) k 683901].

Definition sc_round (limbs : list nat) : list line := map (fun i => Round i 21 (S i) 1) limbs.
Definition sc_floor (limbs : list nat) : list line := map (fun i => Floor i 21 (S i) 1) limbs.

(** Source: src/src/crypto/crypto-ops.c:1822-1918 (sc_reduce) *)
Definition sc_high_lines : list line :=
  sc_fold 23 ++ sc_fold 22 ++ sc_fold 21 ++ sc_fold 20 ++ sc_fold 19 ++ sc_fold 18
  ++ sc_round [6; 8; 10; 12; 14; 16]%nat ++ sc_round [7; 9; 11; 13; 15]%nat
  ++ sc_fold 17 ++ sc_fold 16 ++ sc_fold 15 ++ sc_fold 14 ++ sc_fold 13 ++ sc_fold 12 ++ [Clear 12].

(** Source: src/src/crypto/crypto-ops.c:2461-2513 (sc_reduce32) *)
Definition sc_low_lines : list line :=
  sc_round [0; 2; 4; 6; 8; 10]%nat ++ sc_round [1; 3; 5; 7; 9; 11]%nat ++ sc_fold 12 ++ [Clear 12]
  ++ sc_floor (seq 0 12) ++ sc_fold 12 ++ sc_floor (seq 0 11).

(** The bytes of the result, as limbs shifted right (left when negative).
    Source: src/src/crypto/crypto-ops.c:2515-2546 (sc_reduce32) *)
Definition sc_bytes : list (list (nat * Z)) :=
  [[part 0 0]; [part 0 8]; [part 0 16; part 1 (-5)]; [part 1 3]; [part 1 11]; [part 1 19; part 2 (-2)]; [part 2 6]; [part 2 14; part 3 (-7)];
   [part 3 1]; [part 3 9]; [part 3 17; part 4 (-4)]; [part 4 4]; [part 4 12]; [part 4 20; part 5 (-1)]; [part 5 7]; [part 5 15; part 6 (-6)];
   [part 6 2]; [part 6 10]; [part 6 18; part 7 (-3)]; [part 7 5]; [part 7 13]; [part 8 0]; [part 8 8]; [part 8 16; part 9 (-5)];
   [part 9 3]; [part 9 11]; [part 9 19; part 10 (-2)]; [part 10 6]; [part 10 14; part 11 (-7)]; [part 11 1]; [part 11 9]; [part 11 17]].

(** Source: src/src/crypto/crypto-ops.c:1779-2006 (sc_reduce) *)
Definition sc_reduce (s : list Z) : outcome (list Z) :=
  t ← load_limbs s sc_limbs_64;
  t ← run 64 (sc_high_lines ++ sc_low_lines) t;
  store_bytes 64 t sc_bytes.

(** Source: src/src/crypto/crypto-ops.c:2434-2547 (sc_reduce32) *)
Definition sc_reduce32 (s : list Z) : outcome (list Z) :=
  t ← load_limbs s sc_limbs_32;
  t ← run 64 sc_low_lines (t ++ [0]);
  store_bytes 64 t sc_bytes.

(** [op] on each pair of limbs. *)
Fixpoint limbwise (op : Z -> Z -> Z) (a b : list Z) : outcome (list Z) :=
  match a, b with
  | x :: a, y :: b => z ← int_of 64 (op x y); zs ← limbwise op a b; Ok (z :: zs)
  | _, _ => Ok []
  end.

(** Source: src/src/crypto/crypto-ops.c:2549-2686 (sc_add) *)
Definition sc_add (a b : list Z) : outcome (list Z) :=
  a ← load_limbs a sc_limbs_32; b ← load_limbs b sc_limbs_32;
  t ← limbwise Z.add a b;
  t ← run 64 sc_low_lines (t ++ [0]);
  store_bytes 64 t sc_bytes.

(** Source: src/src/crypto/crypto-ops.c:2688-2825 (sc_sub) *)
Definition sc_sub (a b : list Z) : outcome (list Z) :=
  a ← load_limbs a sc_limbs_32; b ← load_limbs b sc_limbs_32;
  t ← limbwise Z.sub a b;
  t ← run 64 sc_low_lines (t ++ [0]);
  store_bytes 64 t sc_bytes.

(** The sums of products: limb [k] of the product of two numbers of 12 limbs.
    Source: src/src/crypto/crypto-ops.c:3242-3264 (sc_mul) *)
Definition sc_rows : list (list term) :=
  map (fun k => map (fun i => tm i 1 (k - i) 1) (seq (k - 11) (S (k `min` 11) - (k - 11)))%nat) (seq 0 23).

(** The carries after a multiplication.
    Source: src/src/crypto/crypto-ops.c:3267-3290 (sc_mul) *)
Definition sc_mul_lines : list line :=
  sc_round [0; 2; 4; 6; 8; 10; 12; 14; 16; 18; 20; 22]%nat ++ sc_round [1; 3; 5; 7; 9; 11; 13; 15; 17; 19; 21]%nat.

(** The sums with the limbs of [c], which are 12.
    Source: src/src/crypto/crypto-ops.c:3575-3597 (sc_muladd) *)
Fixpoint add_limbs (c s : list Z) : outcome (list Z) :=
  match c, s with
  | x :: c, y :: s => z ← int_of 64 (x + y); zs ← add_limbs c s; Ok (z :: zs)
  | _, _ => Ok s
  end.

(** Source: src/src/crypto/crypto-ops.c:2923-2945 (sc_mulsub) *)
Fixpoint sub_limbs (c s : list Z) : outcome (list Z) :=
  match s with
  | [] => Ok []
  | y :: s =>
      z ← int_of 64 (match c with x :: _ => x - y | [] => - y end);
      zs ← sub_limbs (tail c) s; Ok (z :: zs)
  end.

(** Source: src/src/crypto/crypto-ops.c:3169-3476 (sc_mul) *)
Definition sc_mul (a b : list Z) : outcome (list Z) :=
  a ← load_limbs a sc_limbs_32; b ← load_limbs b sc_limbs_32;
  t ← all_rows a b sc_rows;
  t ← run 64 (sc_mul_lines ++ sc_high_lines ++ sc_low_lines) (t ++ [0]);
  store_bytes 64 t sc_bytes.

(** Source: src/src/crypto/crypto-ops.c:3490-3809 (sc_muladd) *)
Definition sc_muladd (a b c : list Z) : outcome (list Z) :=
  a ← load_limbs a sc_limbs_32; b ← load_limbs b sc_limbs_32; c ← load_limbs c sc_limbs_32;
  t ← all_rows a b sc_rows;
  t ← add_limbs c t;
  t ← run 64 (sc_mul_lines ++ sc_high_lines ++ sc_low_lines) (t ++ [0]);
  store_bytes 64 t sc_bytes.

(** [c - a * b]. Source: src/src/crypto/crypto-ops.c:2838-3157 (sc_mulsub) *)
Definition sc_mulsub (a b c : list Z) : outcome (list Z) :=
  a ← load_limbs a sc_limbs_32; b ← load_limbs b sc_limbs_32; c ← load_limbs c sc_limbs_32;
  t ← all_rows a b sc_rows;
  t ← sub_limbs c t;
  t ← run 64 (sc_mul_lines ++ sc_high_lines ++ sc_low_lines) (t ++ [0]);
  store_bytes 64 t sc_bytes.

(** Source: src/src/crypto/crypto-ops.c:2427-2432 (sc_0) *)
Definition sc_0 : list Z := replicate 32 0.

(** Source: src/src/crypto/crypto-ops.c:3811-3813 (signum) *)
Definition signum (a : Z) : Z := if 0 <? a then 1 else if a <? 0 then -1 else 0.

(** The words of the largest reduced scalar.
    Source: src/src/crypto/crypto-ops.c:3834-3841 (sc_check) *)
Definition sc_check_words : list Z := [1559614444; 1477600026; 2734136534; 350157278; 0; 0; 0; 268435456].

Fixpoint check_sum (s : list Z) (words : list Z) (i : nat) : outcome Z :=
  match words with
  | [] => Ok 0
  | m :: words => x ← load_4 s (4 * i); r ← check_sum s words (S i); Ok (Z.shiftl (signum (m - x)) (Z.of_nat i) + r)
  end.

(** Source: src/src/crypto/crypto-ops.c:3824-3843 (sc_check) *)
Definition sc_check (s : list Z) : outcome Z :=
  d ← check_sum s sc_check_words 0; Ok (if d <? 0 then -1 else 0).

(** Source: src/src/crypto/crypto-ops.c:3845-3850 (sc_isnonzero) *)
Definition sc_isnonzero (s : list Z) : Z := Z.shiftr (foldl Z.lor 0 s - 1) 8 + 1.

(** * Properties *)

(** ** Reading the limbs *)

Definition weights (k m : nat) : list Z := map (fun i => 21 * Z.of_nat i) (seq k m).

Fixpoint slices (x : Z) (k m : nat) : list Z :=
  match m with
  | O => []
  | S O => [x / 2 ^ (21 * Z.of_nat k)]
  | S m => slice x (21 * Z.of_nat k) 21 :: slices x (S k) m
  end.

Definition entry_ok (len : nat) (k : nat) (e : nat * nat * Z) : bool :=
  let '(n, o, sh) := e in
  ((n =? 3) || (n =? 4))%nat && (o + n <=? len)%nat && (8 * Z.of_nat o + sh =? 21 * Z.of_nat k) && (0 <=? sh).

Fixpoint limbs_ok (len k : nat) (table : list (nat * nat * Z)) : bool :=
  match table with
  | [] => false
  | [(n, o, sh)] => entry_ok len k (n, o, sh) && (o + n =? len)%nat
  | (n, o, sh) :: table => entry_ok len k (n, o, sh) && (sh + 21 <=? 8 * Z.of_nat n) && limbs_ok len (S k) table
  end.

Lemma slice_slice x a n b m : 0 <= a -> 0 <= b -> 0 <= m -> b + m <= n -> slice (slice x a n) b m = slice x (a + b) m.
Proof.
  intros Ha Hb Hm Hn. unfold slice. apply Z.bits_inj'. intros k Hk. destruct (Z.lt_ge_cases k m).
  - rewrite !Z.mod_pow2_bits_low, !Z.div_pow2_bits, Z.mod_pow2_bits_low, Z.div_pow2_bits by lia. f_equal. lia.
  - by rewrite !Z.mod_pow2_bits_high by lia.
Qed.

Lemma load_word_slice s n o : bytes s -> (n = 3 \/ n = 4)%nat -> (o + n <= length s)%nat ->
  load_word s n o = Ok (slice (le_bytes s) (8 * Z.of_nat o) (8 * Z.of_nat n)).
Proof. intros Hs [-> | ->] Hl; [by apply load_3_slice | by apply load_4_slice]. Qed.

Lemma entry_ok_spec len k n o sh : entry_ok len k (n, o, sh) = true ->
  (n = 3 \/ n = 4)%nat /\ (o + n <= len)%nat /\ 8 * Z.of_nat o + sh = 21 * Z.of_nat k /\ 0 <= sh.
Proof. cbn. rewrite !andb_true_iff, orb_true_iff, !Nat.eqb_eq, Nat.leb_le, Z.eqb_eq, Z.leb_le. tauto. Qed.

Lemma load_limbs_slices s table k : bytes s -> limbs_ok (length s) k table = true ->
  load_limbs s table = Ok (slices (le_bytes s) k (length table)).
Proof.
  intros Hs. revert k. induction table as [| [[n o] sh] table IH]; intros k H; [done |].
  destruct table as [| e table].
  - cbn [limbs_ok] in H. apply andb_true_iff in H as [H Hl]. apply entry_ok_spec in H as (Hn & Ho & Hk & Hsh).
    apply Nat.eqb_eq in Hl. cbn [load_limbs]. rewrite load_word_slice by done. simpl_bind. cbn [length slices]. do 2 f_equal.
    pose proof (le_bytes_range s Hs) as Hr. unfold zlen in Hr. change 256 with (2 ^ 8) in Hr. rewrite <- Z.pow_mul_r in Hr by lia.
    rewrite <- Hk, Z.pow_add_r, <- Z.div_div, shiftr_div by lia. unfold slice. rewrite Z.mod_small; [done |].
    split; [apply Z.div_pos; lia |]. apply Z.div_lt_upper_bound; [lia |]. rewrite <- Z.pow_add_r by lia.
    replace (8 * Z.of_nat o + 8 * Z.of_nat n) with (8 * Z.of_nat (length s)) by lia. lia.
  - change (entry_ok (length s) k (n, o, sh) && (sh + 21 <=? 8 * Z.of_nat n) && limbs_ok (length s) (S k) (e :: table) = true) in H.
    rewrite !andb_true_iff, Z.leb_le in H. destruct H as [[H Hle] Ht]. apply entry_ok_spec in H as (Hn & Ho & Hk & Hsh).
    change (load_limbs s ((n, o, sh) :: e :: table)) with
      (x ← load_word s n o; xs ← load_limbs s (e :: table); Ok (Z.land 2097151 (Z.shiftr x sh) :: xs)).
    rewrite load_word_slice, (IH (S k) Ht) by done. simpl_bind.
    change (slices (le_bytes s) k (length ((n, o, sh) :: e :: table))) with
      (slice (le_bytes s) (21 * Z.of_nat k) 21 :: slices (le_bytes s) (S k) (length (e :: table))). do 2 f_equal.
    rewrite Z.land_comm. change 2097151 with (2 ^ 21 - 1). rewrite land_mask, shiftr_div by lia.
    rewrite <- Hk. by apply slice_slice; lia.
Qed.

Lemma value_slices x k m : (0 < m)%nat -> value (weights k m) (slices x k m) = x / 2 ^ (21 * Z.of_nat k) * 2 ^ (21 * Z.of_nat k).
Proof.
  revert k. induction m as [| m IH]; intros k Hm; [lia |]. destruct m as [| m]; [cbn; lia |].
  change (value (weights k (S (S m))) (slices x k (S (S m)))) with
    (2 ^ (21 * Z.of_nat k) * slice x (21 * Z.of_nat k) 21 + value (weights (S k) (S m)) (slices x (S k) (S m))).
  rewrite IH by lia. unfold slice. rewrite Nat2Z.inj_succ, Z.mul_succ_r, Z.pow_add_r, <- Z.div_div by lia.
  pose proof (Z.div_mod (x / 2 ^ (21 * Z.of_nat k)) (2 ^ 21) ltac:(lia)). nia.
Qed.

Definition limb21 : itv := (0, 2 ^ 21 - 1).

Lemma slices_within x k m bound : (0 < m)%nat -> 0 <= x < 2 ^ (21 * Z.of_nat (k + m - 1)) * bound ->
  within (replicate (m - 1) limb21 ++ [(0, bound - 1)]) (slices x k m).
Proof.
  revert k. induction m as [| m IH]; intros k Hm Hx; [lia |]. destruct m as [| m].
  - constructor; [| constructor]. replace (k + 1 - 1)%nat with k in Hx by lia. split; cbn [fst snd]; [apply Z.div_pos; lia |].
    assert (x / 2 ^ (21 * Z.of_nat k) < bound); [| lia]. apply Z.div_lt_upper_bound; lia.
  - replace (S (S m) - 1)%nat with (S m) by lia.
    change (slices x k (S (S m))) with (slice x (21 * Z.of_nat k) 21 :: slices x (S k) (S m)).
    change (replicate (S m) limb21 ++ [(0, bound - 1)]) with (limb21 :: replicate m limb21 ++ [(0, bound - 1)]).
    constructor. { unfold slice, limb21, inside. cbn [fst snd]. pose proof (Z.mod_pos_bound (x / 2 ^ (21 * Z.of_nat k)) (2 ^ 21)). lia. }
    replace m with (S m - 1)%nat at 1 by lia. apply IH; [lia |]. by replace (S k + S m - 1)%nat with (k + S (S m) - 1)%nat by lia.
Qed.

Definition scalar_limbs : list itv := replicate 11 limb21 ++ [(0, 2 ^ 25 - 1)].

(** A string of 32 bytes. *)
Definition is_scalar (s : list Z) : Prop := bytes s /\ length s = 32%nat.

Lemma load_scalar s : is_scalar s ->
  exists t, load_limbs s sc_limbs_32 = Ok t /\ within scalar_limbs t /\ value (weights 0 12) t = le_bytes s.
Proof.
  intros [Hs Hl]. exists (slices (le_bytes s) 0 12). split_and!.
  - rewrite (load_limbs_slices s sc_limbs_32 0) by (rewrite ?Hl; done). done.
  - apply (slices_within _ 0 12 (2 ^ 25)); [lia |]. pose proof (le_bytes_range s Hs) as Hr. unfold zlen in Hr. rewrite Hl in Hr. exact Hr.
  - rewrite value_slices by lia. change (2 ^ (21 * Z.of_nat 0)) with 1. rewrite Z.div_1_r. lia.
Qed.

Lemma load_wide s : bytes s -> length s = 64%nat ->
  exists t, load_limbs s sc_limbs_64 = Ok t /\ within (replicate 23 limb21 ++ [(0, 2 ^ 29 - 1)]) t /\
    value (weights 0 24) t = le_bytes s.
Proof.
  intros Hs Hl. exists (slices (le_bytes s) 0 24). split_and!.
  - rewrite (load_limbs_slices s sc_limbs_64 0) by (rewrite ?Hl; done). done.
  - apply (slices_within _ 0 24 (2 ^ 29)); [lia |]. pose proof (le_bytes_range s Hs) as Hr. unfold zlen in Hr. rewrite Hl in Hr. exact Hr.
  - rewrite value_slices by lia. change (2 ^ (21 * Z.of_nat 0)) with 1. rewrite Z.div_1_r. lia.
Qed.

(** ** The value under folds and carries *)

Lemma weight_at k j : (j < k)%nat -> weight (weights 0 k) j = 2 ^ (21 * Z.of_nat j).
Proof. intros Hj. unfold weight, weights. rewrite list_lookup_fmap, lookup_seq_lt by done. done. Qed.

Lemma weight_beyond k j : (k <= j)%nat -> weight (weights 0 k) j = 0.
Proof. intros Hj. unfold weight, weights. rewrite list_lookup_fmap, lookup_seq_ge by done. done. Qed.

Lemma value_app ws ws' s : (length ws <= length s)%nat -> value (ws ++ ws') s = value ws s + value ws' (drop (length ws) s).
Proof.
  revert s. induction ws as [| w ws IH]; intros s Hl; [done |]. destruct s as [| x s]; [cbn in Hl; lia |].
  cbn [app value length drop]. rewrite IH by (cbn in Hl; lia). lia.
Qed.

Lemma value_split k s : (k < length s)%nat -> value (weights 0 (S k)) s = value (weights 0 k) s + 2 ^ (21 * Z.of_nat k) * s !!! k.
Proof.
  intros Hk. unfold weights. rewrite seq_S, map_app, value_app by (rewrite length_map, length_seq; lia).
  rewrite length_map, length_seq. rewrite (drop_S s (s !!! k) k) by by apply list_lookup_lookup_total_lt. cbn. lia.
Qed.

Lemma value_madds ws k l s : (k < length s)%nat -> Forall (fun p : nat * Z => p.1 <> k /\ (p.1 < length s)%nat) l ->
  let t := exact (map (fun p : nat * Z => Madd p.1 k p.2) l) s in
  value ws t = value ws s + s !!! k * foldr (fun p acc => weight ws p.1 * p.2 + acc) 0 l /\ t !!! k = s !!! k.
Proof.
  unfold exact. revert s. induction l as [| [j c] l IH]; intros s Hk Hl; cbn [map foldl foldr]; [split; [lia | done] |].
  apply Forall_cons in Hl as [[Hj Hj'] Hl]. cbn [fst snd] in *.
  assert (Hlen : length (exact_line s (Madd j k c)) = length s) by apply length_exact_line.
  assert (Hkk : exact_line s (Madd j k c) !!! k = s !!! k) by (cbn; by rewrite list_lookup_total_insert_ne).
  destruct (IH (exact_line s (Madd j k c))) as [-> ->]; [by rewrite Hlen | by rewrite Hlen |].
  rewrite Hkk. split; [| done]. cbn [exact_line]. rewrite value_insert by done. lia.
Qed.

Definition fold_terms (k : nat) : list (nat * Z) :=
  [((k - 12)%nat, 666643); ((k - 11)%nat, 470296); ((k - 10)%nat, 654183); ((k - 9)%nat, -997805);
   ((k - 8)%nat, 136657); ((k - 7)%nat, -683901)].

Lemma exact_msub s j i c : exact_line s (Msub j i c) = exact_line s (Madd j i (- c)).
Proof. cbn. f_equal. lia. Qed.

Lemma exact_fold k s : exact (sc_fold k) s = exact (map (fun p : nat * Z => Madd p.1 k p.2) (fold_terms k)) s.
Proof. unfold exact, sc_fold, fold_terms. cbn [map foldl fst snd]. by rewrite !exact_msub. Qed.

Lemma value_fold k s : (12 <= k < length s)%nat ->
  value (weights 0 k) (exact (sc_fold k) s)
  = value (weights 0 (S k)) s - s !!! k * 2 ^ (21 * (Z.of_nat k - 12)) * sc_order
  /\ exact (sc_fold k) s !!! k = s !!! k.
Proof.
  intros Hk. rewrite exact_fold. destruct (value_madds (weights 0 k) k (fold_terms k) s) as [-> ->]; [lia | |].
  { unfold fold_terms. repeat (constructor; [cbn; lia |]). constructor. }
  split; [| done]. rewrite value_split by lia. unfold fold_terms. cbn [foldr fst snd]. rewrite !weight_at by lia.
  unfold sc_order.
  assert (Hp : forall i : nat, (i <= 12)%nat -> 2 ^ (21 * Z.of_nat (k - i)) = 2 ^ (21 * (Z.of_nat k - 12)) * 2 ^ (21 * (12 - Z.of_nat i))).
  { intros i Hi. rewrite <- Z.pow_add_r by lia. f_equal. lia. }
  rewrite (Hp 12%nat), (Hp 11%nat), (Hp 10%nat), (Hp 9%nat), (Hp 8%nat), (Hp 7%nat) by lia.
  replace (21 * Z.of_nat k) with (21 * Z.of_nat (k - 0)) by lia. rewrite (Hp 0%nat) by lia.
  generalize (2 ^ (21 * (Z.of_nat k - 12))), (s !!! k), (value (weights 0 k) s). intros P x v.
  change (21 * (12 - Z.of_nat 12)) with 0. change (21 * (12 - Z.of_nat 11)) with 21. change (21 * (12 - Z.of_nat 10)) with 42.
  change (21 * (12 - Z.of_nat 9)) with 63. change (21 * (12 - Z.of_nat 8)) with 84. change (21 * (12 - Z.of_nat 7)) with 105.
  change (21 * (12 - Z.of_nat 0)) with 252. ring.
Qed.

(** The value of the limbs below a folded one, modulo the order. *)
Lemma value_fold_mod k s : (12 <= k < length s)%nat ->
  value (weights 0 k) (exact (sc_fold k) s) mod sc_order = value (weights 0 (S k)) s mod sc_order.
Proof.
  intros Hk. destruct (value_fold k s Hk) as [-> _].
  replace (value (weights 0 (S k)) s - s !!! k * 2 ^ (21 * (Z.of_nat k - 12)) * sc_order)
    with (value (weights 0 (S k)) s + - (s !!! k * 2 ^ (21 * (Z.of_nat k - 12))) * sc_order) by lia.
  apply Z.mod_add. done.
Qed.

Lemma value_rounds m k limbs s : m <> 0 -> forallb (fun i => (S i <? k)%nat && (S i <? length s)%nat) limbs = true ->
  value (weights 0 k) (exact (sc_round limbs) s) mod m = value (weights 0 k) s mod m /\
  value (weights 0 k) (exact (sc_floor limbs) s) mod m = value (weights 0 k) s mod m.
Proof.
  intros Hm Hl. rewrite forallb_forall in Hl. split; apply value_carries; try done; apply forallb_forall; intros l Hin;
    apply in_map_iff in Hin as (i & <- & Hi); specialize (Hl i Hi); rewrite andb_true_iff, !Nat.ltb_lt in Hl;
    cbn [carry_ok]; rewrite !weight_at, Nat2Z.inj_succ, Z.mul_succ_r, Z.pow_add_r by lia;
    rewrite !andb_true_iff, negb_true_iff, Nat.eqb_neq, !Nat.ltb_lt, Z.eqb_eq, Z.leb_le;
    (split_and!; [| lia..]); rewrite Z.mul_1_r, Z.sub_diag; by apply Z.mod_0_l.
Qed.

(** ** The last two reductions *)

Lemma value_carried k limbs s : forallb (fun i => (S i <? k)%nat && (S i <? length s)%nat) limbs = true ->
  value (weights 0 k) (exact (sc_round limbs) s) = value (weights 0 k) s /\
  value (weights 0 k) (exact (sc_floor limbs) s) = value (weights 0 k) s.
Proof.
  intros Hl. assert (Heq : forall a b, (forall m, m <> 0 -> a mod m = b mod m) -> a = b).
  { intros a b H. specialize (H (2 * (Z.abs a + Z.abs b) + 1) ltac:(lia)).
    pose proof (Z.div_mod a (2 * (Z.abs a + Z.abs b) + 1) ltac:(lia)).
    pose proof (Z.div_mod b (2 * (Z.abs a + Z.abs b) + 1) ltac:(lia)).
    assert (a / (2 * (Z.abs a + Z.abs b) + 1) = b / (2 * (Z.abs a + Z.abs b) + 1)) by nia. lia. }
  split; apply Heq; intros m Hm; by apply value_rounds.
Qed.

Fixpoint value_abs (ws : list Z) (A : list itv) : itv :=
  match ws, A with
  | w :: ws, a :: A => let b := value_abs ws A in (2 ^ w * a.1 + b.1, 2 ^ w * a.2 + b.2)
  | _, _ => (0, 0)
  end.

Lemma value_within ws A s : within A s -> inside (value_abs ws A) (value ws s).
Proof.
  intros H. revert ws. induction H as [| a x A s Hx _ IH]; intros [| w ws]; cbn [value value_abs]; try (split; cbn; lia).
  specialize (IH ws). unfold inside in *. cbn [fst snd]. pose proof (Z.pow_nonneg 2 w). nia.
Qed.

Definition low_1 : list line := sc_round [0; 2; 4; 6; 8; 10]%nat ++ sc_round [1; 3; 5; 7; 9; 11]%nat ++ sc_fold 12 ++ [Clear 12].
Definition low_2 : list line := sc_floor (seq 0 12).
Definition low_3 : list line := sc_fold 12 ++ sc_floor (seq 0 11).

Definition below (a b : itv) : bool := (b.1 <=? a.1) && (a.2 <=? b.2).

(** What the intervals of the three stages have to show. *)
Definition low_ok (A : list itv) : bool :=
  match run_abs 64 low_1 A with
  | Some B =>
      below (value_abs (weights 0 12) B) (- 2 ^ 252, 2 ^ 252 - 1) && (13 <=? length A)%nat &&
      match run_abs 64 low_2 B with
      | Some C =>
          forallb (fun a => below a limb21) (take 12 C) &&
          match run_abs 64 low_3 C with
          | Some D => forallb (fun a => below a limb21) (take 11 D)
          | None => false
          end
      | None => false
      end
  | None => false
  end.

Lemma within_take A s n a : within A s -> forallb (fun b => below b a) (take n A) = true ->
  Forall (inside a) (take n s).
Proof.
  intros H. revert n. induction H as [| b x A s Hx _ IH]; intros [| n] Hf; cbn in *; try constructor.
  - apply andb_true_iff in Hf as [Hb _]. unfold below in Hb. rewrite andb_true_iff, !Z.leb_le in Hb. unfold inside in *. lia.
  - apply IH. by apply andb_true_iff in Hf as [_ ?].
Qed.

Lemma value_low_range k s : (k <= length s)%nat -> Forall (inside limb21) (take k s) -> 0 <= value (weights 0 k) s < 2 ^ (21 * Z.of_nat k).
Proof.
  induction k as [| k IH]; intros Hk Hf; [cbn; lia |].
  assert (Ek : s !! k = Some (s !!! k)) by (apply list_lookup_lookup_total_lt; lia).
  rewrite (take_S_r s k (s !!! k) Ek) in Hf. apply Forall_app in Hf as [Hf Hx]. rewrite Forall_singleton in Hx.
  specialize (IH ltac:(lia) Hf). rewrite value_split by lia. rewrite Nat2Z.inj_succ, Z.mul_succ_r, Z.pow_add_r by lia.
  unfold inside, limb21 in Hx. cbn [fst snd] in Hx. nia.
Qed.

Lemma length_within A s : within A s -> length s = length A.
Proof. intros H. symmetry. by eapply Forall2_length. Qed.

Lemma length_abs w ls A B : run_abs w ls A = Some B -> forall s, within A s -> length B = length A.
Proof.
  intros H s Hs. destruct (run_sound w ls A s B Hs H) as [_ HB]. apply length_within in Hs, HB. rewrite length_exact in HB. congruence.
Qed.

(** The limbs after the first stage have the value they had, modulo the order,
    and it lies between [- 2 ^ 252] and [2 ^ 252]. *)
Lemma low_stage_1 s : (13 <= length s)%nat ->
  let t := exact low_1 s in
  t !!! 12%nat = 0 /\ value (weights 0 12) t mod sc_order = value (weights 0 13) s mod sc_order.
Proof.
  intros Hl. unfold low_1. rewrite !exact_app. set (s1 := exact _ (exact _ s)). cbn zeta.
  assert (Hl1 : length s1 = length s) by by unfold s1; rewrite !length_exact.
  assert (Ev : value (weights 0 13) s1 = value (weights 0 13) s).
  { unfold s1. destruct (value_carried 13 [1; 3; 5; 7; 9; 11]%nat (exact (sc_round [0; 2; 4; 6; 8; 10]%nat) s)) as [-> _].
    - apply forallb_forall. intros i Hi. rewrite length_exact, andb_true_iff, !Nat.ltb_lt. cbn in Hi. lia.
    - destruct (value_carried 13 [0; 2; 4; 6; 8; 10]%nat s) as [-> _]; [| done].
      apply forallb_forall. intros i Hi. rewrite andb_true_iff, !Nat.ltb_lt. cbn in Hi. lia. }
  set (t := exact (sc_fold 12) s1). assert (Hlt : length t = length s) by by unfold t; rewrite length_exact.
  change (exact [Clear 12] t) with (<[12%nat := 0]> t). split.
  - apply list_lookup_total_insert_eq. lia.
  - rewrite value_insert by lia. rewrite weight_beyond by lia. rewrite Z.mul_0_l, Z.add_0_r.
    unfold t. rewrite value_fold_mod by lia. by rewrite Ev.
Qed.

Definition final_widths : list Z := replicate 11 21 ++ [22].

Lemma final_normal s : length s = 12%nat -> in_widths final_widths s -> normal (weights 0 12) s.
Proof.
  unfold in_widths, final_widths. intros Hl H. do 12 (destruct s as [| ? s]; [done |]). destruct s; [| done].
  repeat match goal with H : Forall2 _ _ _ |- _ => apply Forall2_cons in H as [? H] end. cbn. lia.
Qed.

Lemma final_in_widths s : (12 <= length s)%nat -> Forall (inside limb21) (take 11 s) -> 0 <= value (weights 0 12) s < sc_order ->
  in_widths final_widths (take 12 s).
Proof.
  intros Hl H Hq. assert (E11 : s !! 11%nat = Some (s !!! 11%nat)) by (apply list_lookup_lookup_total_lt; lia).
  rewrite (take_S_r s 11 _ E11). unfold in_widths, final_widths.
  pose proof (value_low_range 11 s ltac:(lia) H) as Hr. rewrite value_split in Hq by lia. unfold sc_order in Hq.
  apply Forall2_app; [| constructor; [| constructor]; change (21 * Z.of_nat 11) with 231 in *; nia].
  apply Forall2_same_length_lookup_2; [by rewrite length_replicate, length_take; lia |].
  intros i n x Hn Hx. apply lookup_replicate in Hn as [-> _]. apply (Forall_lookup_1 _ _ _ _ H) in Hx.
  unfold inside, limb21 in Hx. cbn in Hx. lia.
Qed.

Lemma store_reduced s : (12 <= length s)%nat -> Forall (inside limb21) (take 11 s) -> 0 <= value (weights 0 12) s < sc_order ->
  store_bytes 64 s sc_bytes = Ok (le_encode 32 (value (weights 0 12) s)).
Proof.
  intros Hl H Hq. pose proof (final_in_widths s Hl H Hq) as HW.
  assert (Hl12 : length (take 12 s) = 12%nat) by (rewrite length_take; lia).
  rewrite (store_bytes_take 64 12) by done.
  rewrite (store_bytes_value 64 (weights 0 12) final_widths 0);
    [| lia | lia | by apply final_normal | done | by rewrite Hl12 | by vm_compute].
  rewrite Z.div_1_r. do 2 f_equal. rewrite <- (take_drop 12 s) at 2. symmetry. apply value_take. by rewrite Hl12.
Qed.

(** Limbs that pass the check are reduced to the bytes of their value modulo the
    order. *)
Lemma sc_low_correct A s : low_ok A = true -> within A s -> s !!! 12%nat = 0 ->
  exists t, run 64 sc_low_lines s = Ok t /\
    store_bytes 64 t sc_bytes = Ok (le_encode 32 (value (weights 0 12) s mod sc_order)).
Proof.
  unfold low_ok. intros H Hs Hz.
  destruct (run_abs 64 low_1 A) as [B |] eqn:EB; [| done].
  rewrite !andb_true_iff, Nat.leb_le in H. destruct H as [[HV Hlen] H].
  destruct (run_abs 64 low_2 B) as [C |] eqn:EC; [| done]. apply andb_true_iff in H as [HC H].
  destruct (run_abs 64 low_3 C) as [D |] eqn:ED; [| done].
  pose proof (length_within _ _ Hs) as Hl.
  destruct (run_sound _ _ _ _ _ Hs EB) as [R1 W1]. destruct (low_stage_1 s ltac:(lia)) as [Z1 V1].
  set (s1 := exact low_1 s) in *.
  destruct (run_sound _ _ _ _ _ W1 EC) as [R2 W2]. set (s2 := exact low_2 s1) in *.
  destruct (run_sound _ _ _ _ _ W2 ED) as [R3 W3]. set (s3 := exact low_3 s2) in *.
  assert (L1 : length s1 = length s) by apply length_exact.
  assert (L2 : length s2 = length s) by by unfold s2; rewrite length_exact.
  assert (L3 : length s3 = length s) by by unfold s3; rewrite length_exact.
  exists s3. split.
  { change sc_low_lines with (low_1 ++ low_2 ++ low_3). by rewrite run_app, R1; simpl_bind; rewrite run_app, R2. }
  pose proof (value_within (weights 0 12) B s1 W1) as HB.
  unfold below in HV. rewrite andb_true_iff, !Z.leb_le in HV. unfold inside in HB. cbn [fst snd] in HV.
  assert (E2 : value (weights 0 13) s2 = value (weights 0 12) s1).
  { unfold s2, low_2. destruct (value_carried 13 (seq 0 12) s1) as [_ ->].
    - apply forallb_forall. intros i Hi. apply in_seq in Hi. rewrite andb_true_iff, !Nat.ltb_lt. lia.
    - rewrite value_split, Z1 by lia. lia. }
  rewrite value_split in E2 by lia.
  pose proof (value_low_range 12 s2 ltac:(lia) (within_take _ _ _ _ W2 HC)) as Hr2.
  assert (E3 : value (weights 0 12) s3 = value (weights 0 12) s1 - s2 !!! 12%nat * sc_order).
  { unfold s3, low_3. rewrite exact_app. destruct (value_carried 12 (seq 0 11) (exact (sc_fold 12) s2)) as [_ ->].
    - apply forallb_forall. intros i Hi. apply in_seq in Hi. rewrite length_exact, andb_true_iff, !Nat.ltb_lt. lia.
    - destruct (value_fold 12 s2 ltac:(lia)) as [-> _]. rewrite value_split by lia. change (2 ^ (21 * (Z.of_nat 12 - 12))) with 1. lia. }
  assert (Hq : 0 <= value (weights 0 12) s3 < sc_order).
  { rewrite E3. unfold sc_order. change (21 * Z.of_nat 12) with 252 in *. assert (s2 !!! 12%nat = 0 \/ s2 !!! 12%nat = -1) as [E | E] by nia; rewrite E in *; lia. }
  assert (Hmod : value (weights 0 12) s3 = value (weights 0 12) s mod sc_order).
  { rewrite <- (Z.mod_small _ _ Hq), E3. rewrite (value_split 12 s), Hz, Z.mul_0_r, Z.add_0_r in V1 by lia. rewrite <- V1.
    replace (value (weights 0 12) s1 - s2 !!! 12%nat * sc_order) with (value (weights 0 12) s1 + - s2 !!! 12%nat * sc_order) by lia.
    by apply Z.mod_add. }
  rewrite store_reduced; [by rewrite Hmod | lia | by apply (within_take D) | done].
Qed.

(** ** The reductions of the upper half *)

Lemma value_fold_chain ks s k : (12 <= k)%nat -> (k + length ks <= length s)%nat -> ks = rev (seq k (length ks)) ->
  value (weights 0 k) (exact (flat_map sc_fold ks) s) mod sc_order = value (weights 0 (k + length ks)) s mod sc_order.
Proof.
  revert s k. induction ks as [| i ks IH] using rev_ind; intros s k Hk Hl E.
  { cbn. by rewrite Nat.add_0_r. }
  rewrite length_app in *. cbn [length] in *. rewrite Nat.add_1_r in E. cbn [seq rev] in E. apply app_inj_tail in E as [E ->].
  rewrite flat_map_app. cbn [flat_map]. rewrite app_nil_r, exact_app.
  rewrite value_fold_mod by (rewrite length_exact; lia). rewrite (IH s (S k)) by (done || lia). do 3 f_equal. lia.
Qed.

Lemma sc_high_lines_eq : sc_high_lines =
  flat_map sc_fold [23; 22; 21; 20; 19; 18]%nat ++ (sc_round [6; 8; 10; 12; 14; 16]%nat ++ sc_round [7; 9; 11; 13; 15]%nat)
  ++ flat_map sc_fold [17; 16; 15; 14; 13; 12]%nat ++ [Clear 12].
Proof. reflexivity. Qed.

Lemma value_high s : length s = 24%nat ->
  let t := exact sc_high_lines s in
  t !!! 12%nat = 0 /\ value (weights 0 12) t mod sc_order = value (weights 0 24) s mod sc_order.
Proof.
  intros Hl. rewrite sc_high_lines_eq, !exact_app. cbn zeta.
  set (s1 := exact (flat_map sc_fold [23; 22; 21; 20; 19; 18]%nat) s). set (s2 := exact _ (exact _ s1)).
  set (s3 := exact (flat_map sc_fold [17; 16; 15; 14; 13; 12]%nat) s2).
  assert (L1 : length s1 = 24%nat) by by unfold s1; rewrite length_exact.
  assert (L2 : length s2 = 24%nat) by by unfold s2; rewrite !length_exact.
  assert (L3 : length s3 = 24%nat) by by unfold s3; rewrite length_exact.
  change (exact [Clear 12] s3) with (<[12%nat := 0]> s3). split; [apply list_lookup_total_insert_eq; lia |].
  rewrite value_insert by lia. rewrite weight_beyond by lia. rewrite Z.mul_0_l, Z.add_0_r.
  unfold s3. rewrite (value_fold_chain _ s2 12) by (reflexivity || (cbn [length]; lia)). cbn [length Nat.add].
  assert (E2 : value (weights 0 18) s2 = value (weights 0 18) s1).
  { unfold s2. destruct (value_carried 18 [7; 9; 11; 13; 15]%nat (exact (sc_round [6; 8; 10; 12; 14; 16]%nat) s1)) as [-> _].
    - rewrite length_exact, L1. reflexivity.
    - destruct (value_carried 18 [6; 8; 10; 12; 14; 16]%nat s1) as [-> _]; [rewrite L1; reflexivity | done]. }
  rewrite E2. unfold s1. rewrite (value_fold_chain _ s 18) by (reflexivity || (cbn [length]; lia)). done.
Qed.

Lemma sc_high_correct A B s : within A s -> length A = 24%nat -> run_abs 64 sc_high_lines A = Some B -> low_ok B = true ->
  exists t, run 64 (sc_high_lines ++ sc_low_lines) s = Ok t /\
    store_bytes 64 t sc_bytes = Ok (le_encode 32 (value (weights 0 24) s mod sc_order)).
Proof.
  intros Hs HA EB Hlow. destruct (run_sound _ _ _ _ _ Hs EB) as [R W]. rewrite run_app, R. simpl_bind.
  destruct (value_high s) as [Hz Hv]; [by rewrite (length_within _ _ Hs) |]. rewrite <- Hv.
  by apply (sc_low_correct B).
Qed.

(** The checks that the intervals of the functions pass. *)
Definition high_ok (ls : list line) (A : list itv) : bool :=
  match run_abs 64 ls A with
  | Some A1 => match run_abs 64 sc_high_lines A1 with Some B => low_ok B | None => false end
  | None => false
  end.

Lemma sc_mul_lines_value s : length s = 24%nat -> value (weights 0 24) (exact sc_mul_lines s) = value (weights 0 24) s.
Proof.
  intros Hl. unfold sc_mul_lines. rewrite exact_app.
  destruct (value_carried 24 [1; 3; 5; 7; 9; 11; 13; 15; 17; 19; 21]%nat
    (exact (sc_round [0; 2; 4; 6; 8; 10; 12; 14; 16; 18; 20; 22]%nat) s)) as [-> _].
  - rewrite length_exact, Hl. reflexivity.
  - destruct (value_carried 24 [0; 2; 4; 6; 8; 10; 12; 14; 16; 18; 20; 22]%nat s) as [-> _]; [rewrite Hl; reflexivity | done].
Qed.

Lemma sc_finish ls A s : (ls = [] \/ ls = sc_mul_lines) -> within A s -> length A = 24%nat -> high_ok ls A = true ->
  (t ← run 64 (ls ++ sc_high_lines ++ sc_low_lines) s; store_bytes 64 t sc_bytes)
  = Ok (le_encode 32 (value (weights 0 24) s mod sc_order)).
Proof.
  unfold high_ok. intros Hls Hs HA H. destruct (run_abs 64 ls A) as [A1 |] eqn:E1; [| done].
  destruct (run_abs 64 sc_high_lines A1) as [B |] eqn:EB; [| done].
  destruct (run_sound _ _ _ _ _ Hs E1) as [R W]. rewrite run_app, R. simpl_bind.
  assert (Hv : value (weights 0 24) (exact ls s) = value (weights 0 24) s).
  { destruct Hls as [-> | ->]; [done |]. apply sc_mul_lines_value. by rewrite (length_within _ _ Hs). }
  rewrite <- Hv. destruct (sc_high_correct A1 B (exact ls s) W) as (t & -> & Et); [| done | done | exact Et].
  rewrite <- (length_within _ _ W), length_exact. by rewrite (length_within _ _ Hs).
Qed.

Lemma sc_low_finish A s : within A s -> low_ok (A ++ [(0, 0)]) = true -> length A = 12%nat ->
  (t ← run 64 sc_low_lines (s ++ [0]); store_bytes 64 t sc_bytes)
  = Ok (le_encode 32 (value (weights 0 12) s mod sc_order)).
Proof.
  intros Hs H HA. pose proof (length_within _ _ Hs) as Hl.
  destruct (sc_low_correct (A ++ [(0, 0)]) (s ++ [0])) as (t & -> & Et); [done | | |].
  - apply Forall2_app; [done |]. constructor; [| constructor]. split; cbn; lia.
  - apply list_lookup_total_correct. rewrite lookup_app_r by lia. by rewrite Hl, HA.
  - simpl_bind. rewrite Et. rewrite value_take; [done |]. rewrite Hl, HA. done.
Qed.

(** A 64-byte number is reduced to the 32 bytes of its remainder modulo the
    order of the base point, without overflow. *)
Theorem sc_reduce_correct s : bytes s -> length s = 64%nat -> sc_reduce s = Ok (le_encode 32 (le_bytes s mod sc_order)).
Proof.
  intros Hs Hl. unfold sc_reduce. destruct (load_wide s Hs Hl) as (t & -> & Ht & <-). simpl_bind.
  apply (sc_finish [] _ t (or_introl eq_refl) Ht eq_refl). by vm_compute.
Qed.

Lemma sc_reduce32_correct s : is_scalar s -> sc_reduce32 s = Ok (le_encode 32 (le_bytes s mod sc_order)).
Proof.
  intros Hs. unfold sc_reduce32. destruct (load_scalar s Hs) as (t & -> & Ht & <-). simpl_bind.
  apply (sc_low_finish scalar_limbs); [done | by vm_compute | done].
Qed.

Lemma limbwise_sound A B a b (op : Z -> Z -> Z) (op_abs : itv -> itv -> itv) : within A a -> within B b ->
  (forall p q x y, inside p x -> inside q y -> inside (op_abs p q) (op x y)) ->
  forallb (fun p => fits 64 p.1 && fits 64 p.2) (zip_with op_abs A B) = true ->
  limbwise op a b = Ok (zip_with op a b) /\ within (zip_with op_abs A B) (zip_with op a b).
Proof.
  intros Ha Hb Hop. revert B b Hb. induction Ha as [| p x A' a' Hx _ IH]; intros B' b' Hb' Hf; [split; [done | constructor] |].
  destruct Hb' as [| q y B' b' Hy Hb']; [split; [done | constructor] |]. cbn [zip_with forallb] in Hf.
  apply andb_true_iff in Hf as [Hxy Hf]. destruct (IH B' b' Hb' Hf) as [E W]. cbn [limbwise zip_with].
  apply andb_true_iff in Hxy as [H1 H2]. specialize (Hop p q x y Hx Hy).
  unfold int_of. rewrite (fits_between 64 _ _ (op x y) H1 H2 Hop). simpl_bind. rewrite E. simpl_bind.
  split; [done |]. by constructor.
Qed.

Lemma sc_add_correct a b : is_scalar a -> is_scalar b ->
  sc_add a b = Ok (le_encode 32 ((le_bytes a + le_bytes b) mod sc_order)).
Proof.
  intros Ha Hb. unfold sc_add. destruct (load_scalar a Ha) as (ta & -> & Wa & <-). destruct (load_scalar b Hb) as (tb & -> & Wb & <-).
  simpl_bind. destruct (limbwise_sound _ _ _ _ Z.add itv_add Wa Wb itv_add_sound) as [-> W]; [by vm_compute |]. simpl_bind.
  rewrite (sc_low_finish _ _ W) by (done || by vm_compute). rewrite value_zip_with; try done; try (intros; lia).
  by rewrite (length_within _ _ Wa), (length_within _ _ Wb).
Qed.

Lemma sc_sub_correct a b : is_scalar a -> is_scalar b ->
  sc_sub a b = Ok (le_encode 32 ((le_bytes a - le_bytes b) mod sc_order)).
Proof.
  intros Ha Hb. unfold sc_sub. destruct (load_scalar a Ha) as (ta & -> & Wa & <-). destruct (load_scalar b Hb) as (tb & -> & Wb & <-).
  simpl_bind. destruct (limbwise_sound _ _ _ _ Z.sub itv_sub Wa Wb itv_sub_sound) as [-> W]; [by vm_compute |]. simpl_bind.
  rewrite (sc_low_finish _ _ W) by (done || by vm_compute). rewrite value_zip_with; try done; try (intros; lia).
  by rewrite (length_within _ _ Wa), (length_within _ _ Wb).
Qed.

(** ** Products *)

Lemma value_rows a b : length a = 12%nat -> length b = 12%nat ->
  value (weights 0 23) (rows_exact a b sc_rows) = value (weights 0 12) a * value (weights 0 12) b.
Proof.
  intros Ha Hb. do 12 (destruct a as [| ? a]; [done |]). destruct a; [| done].
  do 12 (destruct b as [| ? b]; [done |]). destruct b; [| done]. clear.
  let w := eval vm_compute in (weights 0 12) in change (weights 0 12) with w.
  let w := eval vm_compute in (weights 0 23) in change (weights 0 23) with w.
  cbv - [Z.mul Z.add Z.pow]. ring.
Qed.

(** Intervals of the rows of a product. *)
Definition row_limbs : list itv :=
  Eval vm_compute in match all_rows_abs scalar_limbs scalar_limbs sc_rows with Some R => R | None => [] end.

Lemma rows_sound a b : within scalar_limbs a -> within scalar_limbs b ->
  all_rows a b sc_rows = Ok (rows_exact a b sc_rows) /\ within row_limbs (rows_exact a b sc_rows) /\
  value (weights 0 23) (rows_exact a b sc_rows) = value (weights 0 12) a * value (weights 0 12) b.
Proof.
  intros Ha Hb. destruct (all_rows_sound _ _ _ _ Ha Hb sc_rows row_limbs) as [E W]; [by vm_compute |].
  split_and!; [done | done |]. by apply value_rows; [rewrite (length_within _ _ Ha) | rewrite (length_within _ _ Hb)].
Qed.

Lemma within_snoc A s : within A s -> within (A ++ [(0, 0)]) (s ++ [0]).
Proof. intros H. apply Forall2_app; [done |]. constructor; [| constructor]. split; cbn; lia. Qed.

Lemma value_snoc s : length s = 23%nat -> value (weights 0 24) (s ++ [0]) = value (weights 0 23) s.
Proof.
  intros Hl. rewrite (value_split 23) by (rewrite length_app, Hl; cbn; lia).
  rewrite (list_lookup_total_correct _ 23 0) by (rewrite lookup_app_r by lia; by rewrite Hl).
  rewrite value_take by by rewrite Hl. lia.
Qed.

Lemma sc_mul_correct a b : is_scalar a -> is_scalar b ->
  sc_mul a b = Ok (le_encode 32 ((le_bytes a * le_bytes b) mod sc_order)).
Proof.
  intros Ha Hb. unfold sc_mul. destruct (load_scalar a Ha) as (ta & -> & Wa & <-). destruct (load_scalar b Hb) as (tb & -> & Wb & <-).
  simpl_bind. destruct (rows_sound ta tb Wa Wb) as (-> & W & <-). simpl_bind.
  rewrite (sc_finish sc_mul_lines _ _ (or_intror eq_refl) (within_snoc _ _ W)) by by vm_compute.
  by rewrite value_snoc.
Qed.

(** The sums [c + a * b] and [c - a * b] of limbs. *)
Fixpoint add_first {T} (op : T -> T -> T) (c s : list T) : list T :=
  match c, s with x :: c, y :: s => op x y :: add_first op c s | _, _ => s end.

Fixpoint sub_first {T} (op : T -> T -> T) (z : T) (c s : list T) : list T :=
  match s with
  | [] => []
  | y :: s => op (match c with x :: _ => x | [] => z end) y :: sub_first op z (tail c) s
  end.

Definition all_fit (A : list itv) : bool := forallb (fun p => fits 64 p.1 && fits 64 p.2) A.

Lemma add_limbs_sound C S c s : within C c -> within S s -> all_fit (add_first itv_add C S) = true ->
  add_limbs c s = Ok (add_first Z.add c s) /\ within (add_first itv_add C S) (add_first Z.add c s).
Proof.
  intros Hc. revert S s. induction Hc as [| p x C c Hx _ IH]; intros S s Hs Hf; [by destruct s |].
  destruct Hs as [| q y S s Hy Hs]; [split; [done | constructor] |]. cbn [add_first add_limbs all_fit forallb] in *.
  apply andb_true_iff in Hf as [Hxy Hf]. destruct (IH S s Hs Hf) as [E W]. apply andb_true_iff in Hxy as [H1 H2].
  assert (Hop := itv_add_sound _ _ _ _ Hx Hy). unfold int_of. rewrite (fits_between 64 _ _ (x + y) H1 H2 Hop).
  simpl_bind. rewrite E. simpl_bind. split; [done |]. by constructor.
Qed.

Lemma sub_limbs_sound C S c s : within C c -> within S s -> all_fit (sub_first itv_sub (0, 0) C S) = true ->
  sub_limbs c s = Ok (sub_first Z.sub 0 c s) /\ within (sub_first itv_sub (0, 0) C S) (sub_first Z.sub 0 c s).
Proof.
  intros Hc Hs. revert C c Hc. induction Hs as [| q y S s Hy _ IH]; intros C c Hc Hf; [split; [done | constructor] |].
  cbn [sub_first sub_limbs all_fit forallb] in *. apply andb_true_iff in Hf as [Hxy Hf].
  assert (Hc' : within (tail C) (tail c)) by (destruct Hc; [constructor | done]). destruct (IH _ _ Hc' Hf) as [E W].
  apply andb_true_iff in Hxy as [H1 H2].
  assert (Hop : inside (itv_sub (match C with x :: _ => x | [] => (0, 0) end) q) (match c with x :: _ => x | [] => 0 end - y)).
  { apply itv_sub_sound; [| done]. destruct Hc; [split; cbn; lia | done]. }
  assert (Ez : match c with x :: _ => x - y | [] => - y end = match c with x :: _ => x | [] => 0 end - y) by by destruct c.
  rewrite Ez. unfold int_of. rewrite (fits_between 64 _ _ _ H1 H2 Hop). simpl_bind. rewrite E. simpl_bind.
  split; [done |]. by constructor.
Qed.

Lemma value_add_first ws c s : (length c <= length s)%nat -> value ws (add_first Z.add c s) = value ws c + value ws s.
Proof.
  revert c s. induction ws as [| w ws IH]; intros [| x c] [| y s] Hl; cbn in *; try lia. rewrite IH by lia. lia.
Qed.

Lemma value_sub_first ws c s : (length c <= length s)%nat -> value ws (sub_first Z.sub 0 c s) = value ws c - value ws s.
Proof.
  revert c s. induction ws as [| w ws IH]; intros c [| y s] Hl; [done | done | destruct c; [done | cbn in Hl; lia] |].
  cbn [sub_first value]. rewrite IH by (destruct c; cbn in *; lia). destruct c; cbn; [| lia]. destruct ws; cbn; lia.
Qed.

(** A scalar has no limbs beyond the twelfth. *)
Lemma value_short c k : length c = 12%nat -> (12 <= k)%nat -> value (weights 0 k) c = value (weights 0 12) c.
Proof.
  intros Hl Hk. replace k with (12 + (k - 12))%nat by lia. unfold weights. rewrite seq_app, map_app, value_app by (cbn; lia).
  rewrite drop_ge by (rewrite length_map, length_seq; lia).
  assert (En : forall ws, value ws [] = 0) by by intros []. rewrite En. lia.
Qed.

Lemma sc_muladd_value a b c : is_scalar a -> is_scalar b -> is_scalar c ->
  sc_muladd a b c = Ok (le_encode 32 ((le_bytes a * le_bytes b + le_bytes c) mod sc_order)).
Proof.
  intros Ha Hb Hc. unfold sc_muladd. destruct (load_scalar a Ha) as (ta & -> & Wa & <-).
  destruct (load_scalar b Hb) as (tb & -> & Wb & <-). destruct (load_scalar c Hc) as (tc & -> & Wc & <-).
  simpl_bind. destruct (rows_sound ta tb Wa Wb) as (-> & W & <-). simpl_bind.
  destruct (add_limbs_sound _ _ _ _ Wc W) as [-> W']; [by vm_compute |]. simpl_bind.
  rewrite (sc_finish sc_mul_lines _ _ (or_intror eq_refl) (within_snoc _ _ W')) by by vm_compute.
  pose proof (length_within _ _ Wc) as Lc. pose proof (length_within _ _ W) as Lr. pose proof (length_within _ _ W') as Ls.
  rewrite value_snoc by by rewrite Ls. rewrite value_add_first by (rewrite Lc, Lr; cbn; lia).
  rewrite (value_short tc) by (done || lia). by rewrite Z.add_comm.
Qed.

Lemma sc_mulsub_value a b c : is_scalar a -> is_scalar b -> is_scalar c ->
  sc_mulsub a b c = Ok (le_encode 32 ((le_bytes c - le_bytes a * le_bytes b) mod sc_order)).
Proof.
  intros Ha Hb Hc. unfold sc_mulsub. destruct (load_scalar a Ha) as (ta & -> & Wa & <-).
  destruct (load_scalar b Hb) as (tb & -> & Wb & <-). destruct (load_scalar c Hc) as (tc & -> & Wc & <-).
  simpl_bind. destruct (rows_sound ta tb Wa Wb) as (-> & W & <-). simpl_bind.
  destruct (sub_limbs_sound _ _ _ _ Wc W) as [-> W']; [by vm_compute |]. simpl_bind.
  rewrite (sc_finish sc_mul_lines _ _ (or_intror eq_refl) (within_snoc _ _ W')) by by vm_compute.
  pose proof (length_within _ _ Wc) as Lc. pose proof (length_within _ _ W) as Lr. pose proof (length_within _ _ W') as Ls.
  rewrite value_snoc by by rewrite Ls. rewrite value_sub_first by (rewrite Lc, Lr; cbn; lia).
  by rewrite (value_short tc) by (done || lia).
Qed.

(** ** Checks *)

Fixpoint words_value (ws : list Z) : Z := match ws with [] => 0 | m :: ws => m + 2 ^ 32 * words_value ws end.

(** The sum has the sign of the difference of the two numbers. *)
Lemma check_sum_sign s words i : bytes s -> (4 * (i + length words) = length s)%nat ->
  Forall (in_u 32) words ->
  exists t, check_sum s words i = Ok (t * 2 ^ Z.of_nat i) /\ Z.abs t < 2 ^ Z.of_nat (length words) /\
    (t < 0 <-> words_value words < le_bytes s / 2 ^ (32 * Z.of_nat i)) /\
    (t = 0 <-> words_value words = le_bytes s / 2 ^ (32 * Z.of_nat i)).
Proof.
  intros Hs. revert i. induction words as [| m words IH]; intros i Hl Hw; cbn [check_sum words_value length] in *.
  - exists 0. split_and!; [done | cbn; lia |..]; rewrite Z.div_small; try lia.
    all: pose proof (le_bytes_range s Hs) as Hr; unfold zlen in Hr; change 256 with (2 ^ 8) in Hr;
      rewrite <- Z.pow_mul_r in Hr by lia; replace (32 * Z.of_nat i) with (8 * Z.of_nat (length s)) by lia; lia.
  - apply Forall_cons in Hw as [Hm Hw]. destruct (IH (S i) ltac:(lia) Hw) as (t & -> & Ht & Hlt & Heq).
    rewrite load_4_slice by (done || lia). simpl_bind. replace (8 * Z.of_nat (4 * i)) with (32 * Z.of_nat i) by lia.
    unfold slice. set (N := le_bytes s / 2 ^ (32 * Z.of_nat i)) in *.
    assert (EN : le_bytes s / 2 ^ (32 * Z.of_nat (S i)) = N / 2 ^ 32).
    { unfold N. rewrite Z.div_div by lia. rewrite <- Z.pow_add_r by lia. do 2 f_equal. lia. }
    rewrite EN in Hlt, Heq. pose proof (Z.div_mod N (2 ^ 32) ltac:(lia)) as HN. pose proof (Z.mod_pos_bound N (2 ^ 32) ltac:(lia)).
    exists (signum (m - N mod 2 ^ 32) + 2 * t). rewrite Z.shiftl_mul_pow2, !Nat2Z.inj_succ, !Z.pow_succ_r by lia.
    assert (signum (m - N mod 2 ^ 32) = 1 /\ N mod 2 ^ 32 < m \/ signum (m - N mod 2 ^ 32) = -1 /\ m < N mod 2 ^ 32
            \/ signum (m - N mod 2 ^ 32) = 0 /\ m = N mod 2 ^ 32) as Hsg by (unfold signum; split_cmp; lia).
    unfold in_u in Hm. generalize dependent (signum (m - N mod 2 ^ 32)). intros sg Hsg.
    split_and!; [f_equal; lia | lia |..]; destruct (Z.lt_trichotomy t 0) as [Ht0 | [Ht0 | Ht0]]; lia.
Qed.

Lemma sc_check_exact s : is_scalar s -> sc_check s = Ok (if le_bytes s <? sc_order then 0 else -1).
Proof.
  intros [Hs Hl]. destruct (check_sum_sign s sc_check_words 0 Hs) as (t & E & _ & Ht & _); [by rewrite Hl | by_decide |].
  unfold sc_check. rewrite E. simpl_bind. rewrite Z.mul_1_r. change (2 ^ (32 * Z.of_nat 0)) with 1 in Ht. rewrite Z.div_1_r in Ht.
  change (words_value sc_check_words) with (sc_order - 1) in Ht.
  destruct (Z.ltb_spec t 0), (Z.ltb_spec (le_bytes s) sc_order); try done; lia.
Qed.

(** C22: the arithmetic on scalars of 32 bytes is exact modulo the order of the
    base point, for any bytes: no overflow, and the result is the encoding of the
    remainder. [sc_check] accepts exactly the scalars below the order, and so
    every result. *)
Theorem scalar_arithmetic_exact a b c : is_scalar a -> is_scalar b -> is_scalar c ->
  let result x := le_encode 32 (x mod sc_order) in
  let A := le_bytes a in let B := le_bytes b in let C := le_bytes c in
  sc_reduce32 a = Ok (result A) /\ sc_add a b = Ok (result (A + B)) /\ sc_sub a b = Ok (result (A - B)) /\
  sc_mul a b = Ok (result (A * B)) /\ sc_muladd a b c = Ok (result (A * B + C)) /\
  sc_mulsub a b c = Ok (result (C - A * B)) /\ sc_check a = Ok (if A <? sc_order then 0 else -1) /\
  forall x, sc_check (result x) = Ok 0.
Proof.
  intros Ha Hb Hc. cbn zeta. split_and!;
    [by apply sc_reduce32_correct | by apply sc_add_correct | by apply sc_sub_correct | by apply sc_mul_correct
    | by apply sc_muladd_value | by apply sc_mulsub_value | by apply sc_check_exact |].
  intros x. pose proof (Z.mod_pos_bound x sc_order ltac:(done)).
  rewrite sc_check_exact by (split; [apply le_encode_bytes | apply le_encode_length]).
  rewrite le_bytes_encode by (unfold sc_order in *; cbn; lia). destruct (Z.ltb_spec (x mod sc_order) sc_order); [done | lia].
Qed.

Lemma sc_isnonzero_exact s : bytes s -> sc_isnonzero s = if le_bytes s =? 0 then 0 else 1.
Proof. apply or_bytes_nonzero. Qed.

(** ** Witnesses *)

Lemma sc_reduce_correct_witness : sc_reduce (replicate 64 255) = Ok (le_encode 32 ((2 ^ 512 - 1) mod sc_order)).
Proof. apply (sc_reduce_correct (replicate 64 255)); [by_decide | reflexivity]. Defined.

Lemma scalar_arithmetic_exact_witness :
  sc_mulsub (replicate 32 255) (replicate 32 255) sc_0 = Ok (le_encode 32 ((0 - (2 ^ 256 - 1) * (2 ^ 256 - 1)) mod sc_order)).
Proof.
  apply (scalar_arithmetic_exact (replicate 32 255) (replicate 32 255) sc_0); (split; [by_decide | reflexivity]).
Defined.
