(* ===== verification/FieldOps.v ===== *)
(** * Field elements

    The [fe_] functions of [src/crypto/crypto-ops.c]: integers modulo
    [2 ^ 255 - 19] as vectors of ten signed 32-bit limbs of alternately 26 and 25
    bits. Each function is shown to compute in the field, without overflow, on
    vectors within the bounds that its comments state. *)
From S2P Require Import Prelude Limbs.

Open Scope Z_scope.

(** Ten signed 32-bit limbs. *)
Abbreviation fe := (list Z).

Definition fe_prime : Z := 2 ^ 255 - 19.

Definition fe_weights : list Z := [0; 26; 51; 77; 102; 128; 153; 179; 204; 230].

Definition fe_value (f : fe) : Z := value fe_weights f.

(** Source: src/src/crypto/crypto-ops.c:76-87 (fe_0) *)
Definition fe_0 : fe := [0; 0; 0; 0; 0; 0; 0; 0; 0; 0].

(** Source: src/src/crypto/crypto-ops.c:95-106 (fe_1) *)
Definition fe_1 : fe := [1; 0; 0; 0; 0; 0; 0; 0; 0; 0].

(** A 32-bit operation on each pair of limbs. *)
Fixpoint fe_map2 (op : Z -> Z -> Z) (f g : list Z) : outcome (list Z) :=
  match f, g with
  | x :: f, y :: g => z ← int_of 32 (op x y); zs ← fe_map2 op f g; Ok (z :: zs)
  | [], [] => Ok []
  | _, _ => Undef
  end.

(** Source: src/src/crypto/crypto-ops.c:122-163 (fe_add) *)
Definition fe_add (f g : fe) : outcome fe := fe_map2 Z.add f g.

(** Source: src/src/crypto/crypto-ops.c:963-1004 (fe_sub) *)
Definition fe_sub (f g : fe) : outcome fe := fe_map2 Z.sub f g.

(** Source: src/src/crypto/crypto-ops.c:609-640 (fe_neg) *)
Definition fe_neg (f : fe) : outcome fe := fe_map2 Z.sub (replicate (length f) 0) f.

(** [b] is 0 or 1: the mask [-b] is an unsigned int.
    Source: src/src/crypto/crypto-ops.c:174-227 (fe_cmov) *)
Definition fe_cmov (f g : fe) (b : Z) : fe :=
  zip_with (fun x y => Z.lxor x (to_signed 32 (Z.land (u32 (Z.lxor x y)) (u32 (- b))))) f g.

(** Source: src/src/crypto/crypto-ops.c:235-256 (fe_copy) *)
Definition fe_copy (f : fe) : fe := f.

(** The sums of products [h0] to [h9].
    Source: src/src/crypto/crypto-ops.c:514-523 (fe_mul) *)
Definition fe_mul_rows : list (list term) :=
  [
   [tm 0 1 0 1; tm 1 2 9 19; tm 2 1 8 19; tm 3 2 7 19; tm 4 1 6 19;
    tm 5 2 5 19; tm 6 1 4 19; tm 7 2 3 19; tm 8 1 2 19; tm 9 2 1 19];
   [tm 0 1 1 1; tm 1 1 0 1; tm 2 1 9 19; tm 3 1 8 19; tm 4 1 7 19;
    tm 5 1 6 19; tm 6 1 5 19; tm 7 1 4 19; tm 8 1 3 19; tm 9 1 2 19];
   [tm 0 1 2 1; tm 1 2 1 1; tm 2 1 0 1; tm 3 2 9 19; tm 4 1 8 19;
    tm 5 2 7 19; tm 6 1 6 19; tm 7 2 5 19; tm 8 1 4 19; tm 9 2 3 19];
   [tm 0 1 3 1; tm 1 1 2 1; tm 2 1 1 1; tm 3 1 0 1; tm 4 1 9 19;
    tm 5 1 8 19; tm 6 1 7 19; tm 7 1 6 19; tm 8 1 5 19; tm 9 1 4 19];
   [tm 0 1 4 1; tm 1 2 3 1; tm 2 1 2 1; tm 3 2 1 1; tm 4 1 0 1;
    tm 5 2 9 19; tm 6 1 8 19; tm 7 2 7 19; tm 8 1 6 19; tm 9 2 5 19];
   [tm 0 1 5 1; tm 1 1 4 1; tm 2 1 3 1; tm 3 1 2 1; tm 4 1 1 1;
    tm 5 1 0 1; tm 6 1 9 19; tm 7 1 8 19; tm 8 1 7 19; tm 9 1 6 19];
   [tm 0 1 6 1; tm 1 2 5 1; tm 2 1 4 1; tm 3 2 3 1; tm 4 1 2 1;
    tm 5 2 1 1; tm 6 1 0 1; tm 7 2 9 19; tm 8 1 8 19; tm 9 2 7 19];
   [tm 0 1 7 1; tm 1 1 6 1; tm 2 1 5 1; tm 3 1 4 1; tm 4 1 3 1;
    tm 5 1 2 1; tm 6 1 1 1; tm 7 1 0 1; tm 8 1 9 19; tm 9 1 8 19];
   [tm 0 1 8 1; tm 1 2 7 1; tm 2 1 6 1; tm 3 2 5 1; tm 4 1 4 1;
    tm 5 2 3 1; tm 6 1 2 1; tm 7 2 1 1; tm 8 1 0 1; tm 9 2 9 19];
   [tm 0 1 9 1; tm 1 1 8 1; tm 2 1 7 1; tm 3 1 6 1; tm 4 1 5 1;
    tm 5 1 4 1; tm 6 1 3 1; tm 7 1 2 1; tm 8 1 1 1; tm 9 1 0 1]].

(** The carries of [fe_mul], [fe_sq] and [fe_sq2].
    Source: src/src/crypto/crypto-ops.c:542-581 (fe_mul) *)
Definition fe_carries : list line :=
  [Round 0 26 1 1; Round 4 26 5 1; Round 1 25 2 1; Round 5 25 6 1; Round 2 26 3 1; Round 6 26 7 1;
   Round 3 25 4 1; Round 7 25 8 1; Round 4 26 5 1; Round 8 26 9 1; Round 9 25 0 19; Round 0 26 1 1].

(** The assignments of the 64-bit sums to 32-bit limbs. *)
Definition fe_narrow (h : list Z) : fe := map (to_signed 32) h.

(** Source: src/src/crypto/crypto-ops.c:379-595 (fe_mul) *)
Definition fe_mul (f g : fe) : outcome fe :=
  h ← all_rows f g fe_mul_rows; h ← run 64 fe_carries h; Ok (fe_narrow h).

(** Source: src/src/crypto/crypto-ops.c:738-747 (fe_sq) *)
Definition fe_sq_rows : list (list term) :=
  [
   [tm 0 1 0 1; tm 1 2 9 38; tm 2 2 8 19; tm 3 2 7 38; tm 4 2 6 19;
    tm 5 1 5 38];
   [tm 0 2 1 1; tm 2 1 9 38; tm 3 2 8 19; tm 4 1 7 38; tm 5 2 6 19];
   [tm 0 2 2 1; tm 1 2 1 1; tm 3 2 9 38; tm 4 2 8 19; tm 5 2 7 38;
    tm 6 1 6 19];
   [tm 0 2 3 1; tm 1 2 2 1; tm 4 1 9 38; tm 5 2 8 19; tm 6 1 7 38];
   [tm 0 2 4 1; tm 1 2 3 2; tm 2 1 2 1; tm 5 2 9 38; tm 6 2 8 19;
    tm 7 1 7 38];
   [tm 0 2 5 1; tm 1 2 4 1; tm 2 2 3 1; tm 6 1 9 38; tm 7 2 8 19];
   [tm 0 2 6 1; tm 1 2 5 2; tm 2 2 4 1; tm 3 2 3 1; tm 7 2 9 38;
    tm 8 1 8 19];
   [tm 0 2 7 1; tm 1 2 6 1; tm 2 2 5 1; tm 3 2 4 1; tm 8 1 9 38];
   [tm 0 2 8 1; tm 1 2 7 2; tm 2 2 6 1; tm 3 2 5 2; tm 4 1 4 1;
    tm 9 1 9 38];
   [tm 0 2 9 1; tm 1 2 8 1; tm 2 2 7 1; tm 3 2 6 1; tm 4 2 5 1]].

(** Source: src/src/crypto/crypto-ops.c:659-788 (fe_sq) *)
Definition fe_sq (f : fe) : outcome fe :=
  h ← all_rows f f fe_sq_rows; h ← run 64 fe_carries h; Ok (fe_narrow h).

(** [h0 += h0] to [h9 += h9].
    Source: src/src/crypto/crypto-ops.c:907-916 (fe_sq2) *)
Definition fe_doubling : list line := map (fun i => Madd i i 1) (seq 0 10).

(** Source: src/src/crypto/crypto-ops.c:807-947 (fe_sq2) *)
Definition fe_sq2 (f : fe) : outcome fe :=
  h ← all_rows f f fe_sq_rows;
  h ← run 64 (fe_doubling) h;
  h ← run 64 fe_carries h; Ok (fe_narrow h).

(** [for (i = 0; i < n; ++i) fe_sq(t, t)] *)
Fixpoint fe_sq_times (n : nat) (t : fe) : outcome fe :=
  match n with O => Ok t | S n => t ← fe_sq t; fe_sq_times n t end.

(** Source: src/src/crypto/crypto-ops.c:260-316 (fe_invert) *)
Definition fe_invert (z : fe) : outcome fe :=
  t0 ← fe_sq z; t1 ← fe_sq t0; t1 ← fe_sq t1;
  t1 ← fe_mul z t1; t0 ← fe_mul t0 t1;
  t2 ← fe_sq t0; t1 ← fe_mul t1 t2;
  t2 ← fe_sq t1; t2 ← fe_sq_times 4 t2; t1 ← fe_mul t2 t1;
  t2 ← fe_sq t1; t2 ← fe_sq_times 9 t2; t2 ← fe_mul t2 t1;
  t3 ← fe_sq t2; t3 ← fe_sq_times 19 t3; t2 ← fe_mul t3 t2;
  t2 ← fe_sq t2; t2 ← fe_sq_times 9 t2; t1 ← fe_mul t2 t1;
  t2 ← fe_sq t1; t2 ← fe_sq_times 49 t2; t2 ← fe_mul t2 t1;
  t3 ← fe_sq t2; t3 ← fe_sq_times 99 t3; t2 ← fe_mul t3 t2;
  t2 ← fe_sq t2; t2 ← fe_sq_times 49 t2; t1 ← fe_mul t2 t1;
  t1 ← fe_sq t1; t1 ← fe_sq_times 4 t1;
  fe_mul t1 t0.

(** Source: src/src/crypto/crypto-ops.c:2010-2072 (fe_divpowm1) *)
Definition fe_divpowm1 (u v : fe) : outcome fe :=
  v3 ← fe_sq v; v3 ← fe_mul v3 v;
  uv7 ← fe_sq v3; uv7 ← fe_mul uv7 v; uv7 ← fe_mul uv7 u;
  t0 ← fe_sq uv7; t1 ← fe_sq t0; t1 ← fe_sq t1;
  t1 ← fe_mul uv7 t1; t0 ← fe_mul t0 t1; t0 ← fe_sq t0; t0 ← fe_mul t1 t0;
  t1 ← fe_sq t0; t1 ← fe_sq_times 4 t1; t0 ← fe_mul t1 t0;
  t1 ← fe_sq t0; t1 ← fe_sq_times 9 t1; t1 ← fe_mul t1 t0;
  t2 ← fe_sq t1; t2 ← fe_sq_times 19 t2; t1 ← fe_mul t2 t1;
  t1 ← fe_sq_times 10 t1; t0 ← fe_mul t1 t0;
  t1 ← fe_sq t0; t1 ← fe_sq_times 49 t1; t1 ← fe_mul t1 t0;
  t2 ← fe_sq t1; t2 ← fe_sq_times 99 t2; t1 ← fe_mul t2 t1;
  t1 ← fe_sq_times 50 t1; t0 ← fe_mul t1 t0;
  t0 ← fe_sq t0; t0 ← fe_sq t0; t0 ← fe_mul t0 uv7;
  t0 ← fe_mul t0 v3; fe_mul t0 u.

(** [q = (h[i] + q) >> n] for the limbs in turn.
    Source: src/src/crypto/crypto-ops.c:1057-1066 (fe_tobytes) *)
Fixpoint tobytes_quotient (h : list Z) (widths : list Z) (q : Z) : outcome Z :=
  match h, widths with
  | x :: h, n :: widths => t ← int_of 32 (x + q); tobytes_quotient h widths (Z.shiftr t n)
  | _, _ => Ok q
  end.

Definition fe_widths : list Z := [26; 25; 26; 25; 26; 25; 26; 25; 26; 25].

(** Source: src/src/crypto/crypto-ops.c:1072-1081 (fe_tobytes) *)
Definition tobytes_lines : list line :=
  [Floor 0 26 1 1; Floor 1 25 2 1; Floor 2 26 3 1; Floor 3 25 4 1; Floor 4 26 5 1;
   Floor 5 25 6 1; Floor 6 26 7 1; Floor 7 25 8 1; Floor 8 26 9 1; Drop 9 25].

(** Source: src/src/crypto/crypto-ops.c:1091-1122 (fe_tobytes) *)
Definition fe_bytes : list (list (nat * Z)) :=
  [[part 0 0]; [part 0 8]; [part 0 16]; [part 0 24; part 1 (-2)]; [part 1 6]; [part 1 14]; [part 1 22; part 2 (-3)];
   [part 2 5]; [part 2 13]; [part 2 21; part 3 (-5)]; [part 3 3]; [part 3 11]; [part 3 19; part 4 (-6)];
   [part 4 2]; [part 4 10]; [part 4 18]; [part 5 0]; [part 5 8]; [part 5 16]; [part 5 24; part 6 (-1)];
   [part 6 7]; [part 6 15]; [part 6 23; part 7 (-3)]; [part 7 5]; [part 7 13]; [part 7 21; part 8 (-4)];
   [part 8 4]; [part 8 12]; [part 8 20; part 9 (-6)]; [part 9 2]; [part 9 10]; [part 9 18]].

(** Source: src/src/crypto/crypto-ops.c:1033-1123 (fe_tobytes) *)
Definition fe_tobytes (h : fe) : outcome (list Z) :=
  h0 ← at_or_undef (h !! 0%nat); h9 ← at_or_undef (h !! 9%nat);
  t ← int_of 32 (19 * h9); t ← int_of 32 (t + 2 ^ 24);
  q ← tobytes_quotient h fe_widths (Z.shiftr t 25);
  d ← int_of 32 (19 * q); h0 ← int_of 32 (h0 + d);
  h ← run 32 tobytes_lines (<[0%nat := h0]> h);
  store_bytes 32 h fe_bytes.

(** Source: src/src/crypto/crypto-ops.c:328-332 (fe_isnegative) *)
Definition fe_isnegative (f : fe) : outcome Z :=
  s ← fe_tobytes f; b ← at_or_undef (s !! 0%nat); Ok (Z.land b 1).

(** Source: src/src/crypto/crypto-ops.c:336-343 (fe_isnonzero) *)
Definition fe_isnonzero (f : fe) : outcome Z :=
  s ← fe_tobytes f; Ok (Z.shiftr (foldl Z.lor 0 s - 1) 8 + 1).

(** ** Bounds *)

(** Limbs of even and of odd index are bounded by [k] hundredths of [2 ^ 25] and
    of [2 ^ 24], rounded up to even numbers of units: the bounds of the comments
    of the source are 101 for products, 330 for factors, 110 (here 220) for
    [fe_tobytes]. *)
Definition bnd (k : Z) : list itv :=
  let e := (- (335546 * k), 335546 * k) in
  let o := (- (167773 * k), 167773 * k) in [e; o; e; o; e; o; e; o; e; o].
Definition tight : list itv := bnd 101.
Definition loose : list itv := bnd 330.

(** ** Products *)

(** Equality in the field. *)
Definition fe_eq (x y : Z) : Prop := x mod fe_prime = y mod fe_prime.
Declare Scope fe_scope.
Infix "=ₚ" := fe_eq (at level 70, no associativity) : fe_scope.
Open Scope fe_scope.

#[export] Instance fe_eq_equiv : Equivalence fe_eq.
Proof. unfold fe_eq. split; congruence. Qed.
#[export] Instance fe_eq_add : Proper (fe_eq ==> fe_eq ==> fe_eq) Z.add.
Proof. intros a b H c d H'. unfold fe_eq in *. rewrite Z.add_mod, H, H', <- Z.add_mod by done. done. Qed.
#[export] Instance fe_eq_mul : Proper (fe_eq ==> fe_eq ==> fe_eq) Z.mul.
Proof. intros a b H c d H'. unfold fe_eq in *. rewrite Z.mul_mod, H, H', <- Z.mul_mod by done. done. Qed.
#[export] Instance fe_eq_sub : Proper (fe_eq ==> fe_eq ==> fe_eq) Z.sub.
Proof. intros a b H c d H'. unfold fe_eq in *. rewrite Zminus_mod, H, H', <- Zminus_mod by done. done. Qed.
#[export] Instance fe_eq_opp : Proper (fe_eq ==> fe_eq) Z.opp.
Proof. intros a b H. rewrite <- (Z.sub_0_l a), <- (Z.sub_0_l b). by rewrite H. Qed.

Lemma fe_eq_multiple x y q : x = y + q * fe_prime -> x =ₚ y.
Proof. intros ->. unfold fe_eq. by apply Z.mod_add. Qed.

(** The products whose weight is at least [2 ^ 255]. *)
Definition high_table : list (nat * nat * Z) := Eval vm_compute in
  map (fun p => (p, fe_weights !!! fst p + fe_weights !!! snd p - 255))
    (filter (fun p : nat * nat => (10 <= p.1 + p.2)%nat) (list_prod (seq 0 10) (seq 0 10))).

Definition high_products (f g : list Z) : Z :=
  foldr (fun '(i, j, e) acc => f !!! i * g !!! j * 2 ^ e + acc) 0 high_table.

Ltac ten_limbs f := do 10 (destruct f as [| ? f]; [done |]); destruct f; [| done].

Lemma mul_rows_value f g : length f = 10%nat -> length g = 10%nat ->
  fe_value (rows_exact f g fe_mul_rows) = fe_value f * fe_value g + - high_products f g * fe_prime.
Proof. intros Hf Hg. ten_limbs f. ten_limbs g. clear. unfold fe_prime. cbv - [Z.mul Z.add Z.pow Z.opp Z.sub]. ring. Qed.

Lemma sq_rows_value f : length f = 10%nat ->
  fe_value (rows_exact f f fe_sq_rows) = fe_value f * fe_value f + - high_products f f * fe_prime.
Proof. intros Hf. ten_limbs f. clear. unfold fe_prime. cbv - [Z.mul Z.add Z.pow Z.opp Z.sub]. ring. Qed.

Lemma carries_value h : length h = 10%nat -> fe_value (exact fe_carries h) =ₚ fe_value h.
Proof. intros Hl. apply value_carries; [done |]. rewrite Hl. by vm_compute. Qed.

Lemma narrow_within A h : within A h -> forallb (fun a => fits 32 a.1 && fits 32 a.2) A = true -> fe_narrow h = h.
Proof.
  unfold fe_narrow. induction 1 as [| a x A h Hx _ IH]; cbn [forallb map]; intros Hf; [done |].
  rewrite !andb_true_iff in Hf. destruct Hf as [[H1 H2] Hf]. rewrite (IH Hf).
  rewrite to_signed_fits; [done | done |]. by apply (fits_between 32 a.1 a.2).
Qed.

Fixpoint all_below (A B : list itv) : bool :=
  match A, B with
  | a :: A, b :: B => (b.1 <=? a.1) && (a.2 <=? b.2) && all_below A B
  | [], [] => true
  | _, _ => false
  end.

Lemma within_below A B s : within A s -> all_below A B = true -> within B s.
Proof.
  intros H. revert B. induction H as [| a x A s Hx _ IH]; intros [| b B] Hb; try done; [constructor |].
  cbn in Hb. rewrite !andb_true_iff, !Z.leb_le in Hb. unfold inside in Hx. constructor; [unfold inside; lia |]. apply IH. tauto.
Qed.

Lemma within_length {A : list itv} {s} : within A s -> length s = length A.
Proof. intros H. symmetry. by eapply Forall2_length. Qed.

(** Sums of products that stay in bounds, carried and narrowed. *)
Lemma carried A h : within A h -> length A = 10%nat ->
  match run_abs 64 fe_carries A with Some B => all_below B tight | None => false end = true ->
  exists h', run 64 fe_carries h = Ok h' /\ fe_narrow h' = h' /\ within tight h' /\ fe_value h' =ₚ fe_value h.
Proof.
  intros Hh HA H. destruct (run_abs 64 fe_carries A) as [B |] eqn:EB; [| done].
  destruct (run_sound _ _ _ _ _ Hh EB) as [E W]. exists (exact fe_carries h).
  pose proof (within_below _ _ _ W H) as Ht. split_and!; [done | | done | apply carries_value; by rewrite (within_length Hh)].
  by apply (narrow_within tight).
Qed.

Definition mul_intervals : list itv :=
  Eval vm_compute in match all_rows_abs loose loose fe_mul_rows with Some A => A | None => [] end.

Lemma fe_mul_ok f g : within loose f -> within loose g ->
  exists h, fe_mul f g = Ok h /\ within tight h /\ fe_value h =ₚ fe_value f * fe_value g.
Proof.
  intros Hf Hg. unfold fe_mul.
  destruct (all_rows_sound _ _ _ _ Hf Hg fe_mul_rows mul_intervals) as [E1 W]; [by vm_compute |]. bind_with E1.
  destruct (carried _ _ W eq_refl) as (h & E2 & Hn & Ht & Hv); [by vm_compute |]. bind_with E2.
  exists h. split_and!; [by rewrite Hn | done |]. rewrite Hv.
  rewrite mul_rows_value by by rewrite ?(within_length Hf), ?(within_length Hg). by eapply fe_eq_multiple.
Qed.

Definition sq_intervals : list itv :=
  Eval vm_compute in match all_rows_abs loose loose fe_sq_rows with Some A => A | None => [] end.

Lemma fe_sq_ok f : within loose f -> exists h, fe_sq f = Ok h /\ within tight h /\ fe_value h =ₚ fe_value f * fe_value f.
Proof.
  intros Hf. unfold fe_sq.
  destruct (all_rows_sound _ _ _ _ Hf Hf fe_sq_rows sq_intervals) as [E1 W]; [by vm_compute |]. bind_with E1.
  destruct (carried _ _ W eq_refl) as (h & E2 & Hn & Ht & Hv); [by vm_compute |]. bind_with E2.
  exists h. split_and!; [by rewrite Hn | done |]. rewrite Hv.
  rewrite sq_rows_value by by rewrite (within_length Hf). by eapply fe_eq_multiple.
Qed.

Definition sq2_intervals : list itv :=
  Eval vm_compute in
    match run_abs 64 (fe_doubling) sq_intervals with Some A => A | None => [] end.

Lemma doubled_value h : length h = 10%nat -> fe_value (exact (fe_doubling) h) = 2 * fe_value h.
Proof. intros Hl. ten_limbs h. cbv - [Z.mul Z.add Z.pow]. ring. Qed.

Lemma fe_sq2_ok f : within loose f -> exists h, fe_sq2 f = Ok h /\ within tight h /\ fe_value h =ₚ 2 * (fe_value f * fe_value f).
Proof.
  intros Hf. unfold fe_sq2.
  destruct (all_rows_sound _ _ _ _ Hf Hf fe_sq_rows sq_intervals) as [E1 W]; [by vm_compute |]. bind_with E1.
  assert (EA : run_abs 64 fe_doubling sq_intervals = Some sq2_intervals) by by vm_compute.
  destruct (run_sound _ _ _ _ _ W EA) as [E2 W2]. bind_with E2.
  destruct (carried _ _ W2 eq_refl) as (h & E3 & Hn & Ht & Hv); [by vm_compute |]. bind_with E3.
  exists h. split_and!; [by rewrite Hn | done |]. rewrite Hv, doubled_value by by rewrite (within_length W).
  rewrite sq_rows_value by by rewrite (within_length Hf). apply (fe_eq_multiple _ _ (2 * - high_products f f)). ring.
Qed.

(** ** Field elements with their bounds *)

(** [f] stands for [x] and has the bound [k]. *)
Definition F (k : Z) (f : fe) (x : Z) : Prop := within (bnd k) f /\ fe_value f =ₚ x.

#[export] Instance F_proper k f : Proper (fe_eq ==> iff) (F k f).
Proof. intros x y H. unfold F. by rewrite H. Qed.

(** Comparisons of symbolic bounds. *)
Ltac by_bounds :=
  cbn [bnd all_below zip_with replicate forallb itv_add itv_sub fst snd];
  unfold fits; change (2 ^ (32 - 1)) with 2147483648;
  repeat match goal with |- ?a && _ = true =>
    let H := fresh in assert (H : a = true) by (rewrite ?andb_true_iff, ?Z.leb_le, ?Z.ltb_lt; lia); rewrite !H; clear H; cbn [andb]
  end; reflexivity.

Lemma F_weaken k k' f x : F k f x -> 0 <= k <= k' -> F k' f x.
Proof. intros [Hf Hx] H. split; [| done]. eapply within_below; [exact Hf |]. by_bounds. Qed.

Lemma F_loose k f x : F k f x -> 0 <= k <= 330 -> within loose f.
Proof. intros H Hk. by apply (F_weaken k 330 f x H). Qed.

Lemma fe_map2_sound A B f g (op : Z -> Z -> Z) (op_abs : itv -> itv -> itv) : within A f -> within B g -> length A = length B ->
  (forall p q x y, inside p x -> inside q y -> inside (op_abs p q) (op x y)) ->
  forallb (fun p => fits 32 p.1 && fits 32 p.2) (zip_with op_abs A B) = true ->
  fe_map2 op f g = Ok (zip_with op f g) /\ within (zip_with op_abs A B) (zip_with op f g).
Proof.
  intros Hf Hg Hl Hop. revert B g Hg Hl. induction Hf as [| p x A f Hx _ IH]; intros B g Hg Hl Hfit.
  { destruct Hg; [split; [done | constructor] | done]. }
  destruct Hg as [| q y B g Hy Hg]; [done |]. cbn [zip_with forallb] in Hfit.
  apply andb_true_iff in Hfit as [Hxy Hfit]. destruct (IH B g Hg ltac:(cbn in Hl; lia) Hfit) as [E W]. cbn [fe_map2 zip_with].
  apply andb_true_iff in Hxy as [H1 H2]. specialize (Hop p q x y Hx Hy).
  unfold int_of. rewrite (fits_between 32 _ _ (op x y) H1 H2 Hop). simpl_bind. rewrite E. simpl_bind.
  split; [done |]. by constructor.
Qed.

Section Operations.
Context {k1 k2 : Z} {f g : fe} {x y : Z} (Hf : F k1 f x) (Hg : F k2 g y).

Lemma fe_mul_F : 0 <= k1 <= 330 -> 0 <= k2 <= 330 -> exists h, fe_mul f g = Ok h /\ F 101 h (x * y).
Proof using Hf Hg.
  intros H1 H2. destruct (fe_mul_ok f g) as (h & E & Ht & Hv); [by eapply F_loose.. |].
  exists h. split; [done |]. split; [done |]. rewrite Hv. destruct Hf as [_ ->], Hg as [_ ->]. done.
Qed.

Lemma fe_sq_F : 0 <= k1 <= 330 -> exists h, fe_sq f = Ok h /\ F 101 h (x * x).
Proof using Hf.
  intros H1. destruct (fe_sq_ok f) as (h & E & Ht & Hv); [by eapply F_loose |].
  exists h. split; [done |]. split; [done |]. rewrite Hv. destruct Hf as [_ ->]. done.
Qed.

Lemma fe_sq2_F : 0 <= k1 <= 330 -> exists h, fe_sq2 f = Ok h /\ F 101 h (2 * (x * x)).
Proof using Hf.
  intros H1. destruct (fe_sq2_ok f) as (h & E & Ht & Hv); [by eapply F_loose |].
  exists h. split; [done |]. split; [done |]. rewrite Hv. destruct Hf as [_ ->]. done.
Qed.

Lemma fe_add_F : 0 <= k1 -> 0 <= k2 -> k1 + k2 <= 330 -> exists h, fe_add f g = Ok h /\ F (k1 + k2) h (x + y).
Proof using Hf Hg.
  intros H1 H2 H3. destruct Hf as [Wf Hx], Hg as [Wg Hy].
  destruct (fe_map2_sound _ _ _ _ Z.add itv_add Wf Wg eq_refl itv_add_sound) as [E W]; [by_bounds |].
  exists (zip_with Z.add f g). split; [done |]. split; [eapply within_below; [exact W |]; by_bounds |].
  rewrite <- Hx, <- Hy. unfold fe_value. rewrite value_zip_with; try done; try (intros; lia).
  by rewrite (within_length Wf), (within_length Wg).
Qed.

Lemma fe_sub_F : 0 <= k1 -> 0 <= k2 -> k1 + k2 <= 330 -> exists h, fe_sub f g = Ok h /\ F (k1 + k2) h (x - y).
Proof using Hf Hg.
  intros H1 H2 H3. destruct Hf as [Wf Hx], Hg as [Wg Hy].
  destruct (fe_map2_sound _ _ _ _ Z.sub itv_sub Wf Wg eq_refl itv_sub_sound) as [E W]; [by_bounds |].
  exists (zip_with Z.sub f g). split; [done |]. split; [eapply within_below; [exact W |]; by_bounds |].
  rewrite <- Hx, <- Hy. unfold fe_value. rewrite value_zip_with; try done; try (intros; lia).
  by rewrite (within_length Wf), (within_length Wg).
Qed.

Lemma fe_neg_F : 0 <= k1 <= 330 -> exists h, fe_neg f = Ok h /\ F k1 h (- x).
Proof using Hf.
  intros H1. destruct Hf as [Wf Hx]. assert (W0 : within (replicate 10 (0, 0)) (replicate 10 0)).
  { repeat (constructor; [split; cbn; lia |]). constructor. }
  unfold fe_neg. rewrite (within_length Wf).
  destruct (fe_map2_sound _ _ _ _ Z.sub itv_sub W0 Wf eq_refl itv_sub_sound) as [E W]; [by_bounds |].
  exists (zip_with Z.sub (replicate 10 0) f). split; [exact E |]. split; [eapply within_below; [exact W |]; by_bounds |].
  rewrite <- Hx. unfold fe_value. rewrite value_zip_with; try done; try (intros; lia). by rewrite (within_length Wf).
Qed.
End Operations.

(** ** Canonical bytes *)

Fixpoint nested (h widths : list Z) : Z :=
  match h, widths with x :: h, n :: widths => x + 2 ^ n * nested h widths | _, _ => 0 end.

Fixpoint total (h widths : list Z) : Z :=
  match h, widths with _ :: h, n :: widths => n + total h widths | _, _ => 0 end.

Lemma total_nonneg h widths : Forall (Z.le 25) widths -> 0 <= total h widths.
Proof. intros H. revert h. induction H; intros [| ? h]; cbn; try lia. specialize (IHForall h). lia. Qed.

Lemma tobytes_quotient_value h widths q : Forall (fun x => Z.abs x <= 2 ^ 28) h -> Forall (Z.le 25) widths -> Z.abs q <= 2 ^ 28 ->
  tobytes_quotient h widths q = Ok ((nested h widths + q) / 2 ^ total h widths).
Proof.
  intros Hh. revert widths q. induction Hh as [| x h Hx _ IH]; intros widths q Hw Hq; [cbn; by rewrite Z.div_1_r |].
  destruct Hw as [| n widths Hn Hw]; [cbn; by rewrite Z.div_1_r |]. cbn [tobytes_quotient nested total].
  assert (fits 32 (x + q) = true) as Hfit by (unfold fits; rewrite andb_true_iff, Z.leb_le, Z.ltb_lt; cbn; lia).
  unfold int_of. rewrite Hfit. simpl_bind. rewrite shiftr_div by lia.
  assert (Hp : 2 ^ 25 <= 2 ^ n) by (apply Z.pow_le_mono_r; lia).
  rewrite IH; [| done |].
  - pose proof (total_nonneg h widths Hw). rewrite Z.pow_add_r, <- Z.div_div by lia. do 2 f_equal.
    replace (x + 2 ^ n * nested h widths + q) with (x + q + nested h widths * 2 ^ n) by ring.
    rewrite Z.div_add by lia. lia.
  - assert (- 2 ^ 28 <= (x + q) / 2 ^ n <= 2 ^ 28); [| lia].
    split; [apply Z.div_le_lower_bound | apply Z.div_le_upper_bound]; cbn in *; nia.
Qed.

(** The quotient by the prime, from the top limb. *)
Lemma quotient_estimate h9 L : - 36910060 <= h9 <= 36910060 -> - 2 ^ 232 <= L <= 2 ^ 232 ->
  (2 ^ 230 * h9 + L + (19 * h9 + 2 ^ 24) / 2 ^ 25) / 2 ^ 255 = (2 ^ 230 * h9 + L) / fe_prime.
Proof.
  intros H9 HL. unfold fe_prime. set (V := 2 ^ 230 * h9 + L).
  pose proof (Z.div_mod (19 * h9 + 2 ^ 24) (2 ^ 25) ltac:(lia)). pose proof (Z.mod_pos_bound (19 * h9 + 2 ^ 24) (2 ^ 25) ltac:(lia)).
  pose proof (Z.div_mod V (2 ^ 255 - 19) ltac:(lia)). pose proof (Z.mod_pos_bound V (2 ^ 255 - 19) ltac:(lia)).
  symmetry. apply (Z.div_unique _ _ _ (V + (19 * h9 + 2 ^ 24) / 2 ^ 25 - 2 ^ 255 * (V / (2 ^ 255 - 19)))); [| lia]. left.
  assert (-3 <= V / (2 ^ 255 - 19) <= 2) by (unfold V in *; lia). unfold V in *. lia.
Qed.

Definition tobytes_start : list itv := <[0%nat := (- 73820120 - 76, 73820120 + 76)]> (bnd 220).

Lemma tobytes_normal t : length t = 10%nat -> in_widths fe_widths t -> normal fe_weights t.
Proof.
  unfold in_widths, fe_widths. intros Hl H. ten_limbs t.
  repeat match goal with H : Forall2 _ _ _ |- _ => apply Forall2_cons in H as [? H] end. cbn. lia.
Qed.

Lemma widths_range t : length t = 10%nat -> in_widths fe_widths t -> 0 <= fe_value t < 2 ^ 255.
Proof.
  unfold in_widths, fe_widths, fe_value, fe_weights. intros Hl H. ten_limbs t.
  repeat match goal with H : Forall2 _ _ _ |- _ => apply Forall2_cons in H as [? H] end. cbn [value]. lia.
Qed.

(** Floor carries, the last one dropped: the value modulo [2 ^ 255]. *)
Lemma tobytes_carried h : within tobytes_start h ->
  exists t, run 32 tobytes_lines h = Ok t /\ in_widths fe_widths t /\ length t = 10%nat /\ fe_value t = fe_value h mod 2 ^ 255.
Proof.
  intros Hh. pose proof (within_length Hh) as Hl.
  assert (EA : exists B, run_abs 32 tobytes_lines tobytes_start = Some B /\
    all_below B (map (fun n => (0, 2 ^ n - 1)) fe_widths) = true) by (eexists; split; [vm_compute; reflexivity | by vm_compute]).
  destruct EA as (B & EA & HB). destruct (run_sound _ _ _ _ _ Hh EA) as [E W].
  exists (exact tobytes_lines h). apply (within_below _ _ _ W) in HB.
  assert (HW : in_widths fe_widths (exact tobytes_lines h)).
  { unfold within in HB. rewrite Forall2_fmap_l in HB. eapply Forall2_impl; [exact HB |]. unfold inside. cbn. lia. }
  assert (Hlt : length (exact tobytes_lines h) = 10%nat) by by rewrite length_exact.
  split_and!; [done | done | done |].
  assert (Hm : fe_value (exact tobytes_lines h) mod 2 ^ 255 = fe_value h mod 2 ^ 255).
  { apply value_carries; [done |]. rewrite Hl. by vm_compute. }
  rewrite <- Hm. symmetry. apply Z.mod_small. by apply widths_range.
Qed.

Lemma int_of_fits w x : fits w x = true -> int_of w x = Ok x.
Proof. unfold int_of. by intros ->. Qed.

Ltac by_fits := apply int_of_fits; unfold fits; rewrite andb_true_iff, Z.leb_le, Z.ltb_lt; cbn; lia.

Lemma nested_value h : length h = 10%nat -> nested h fe_widths = fe_value h /\ total h fe_widths = 255.
Proof. intros Hl. ten_limbs h. split; [| reflexivity]. cbv - [Z.mul Z.add Z.pow]. ring. Qed.

(** The quotient that [fe_tobytes] computes. *)
Lemma tobytes_q h h9 : within (bnd 220) h -> h !! 9%nat = Some h9 ->
  tobytes_quotient h fe_widths (Z.shiftr (19 * h9 + 2 ^ 24) 25) = Ok (fe_value h / fe_prime) /\
  -3 <= fe_value h / fe_prime <= 2 /\ Z.abs h9 <= 36910060.
Proof.
  intros Hh H9. pose proof (within_length Hh) as Hl. destruct (nested_value h Hl) as [En Et].
  assert (Hb : Forall (fun x => Z.abs x <= 2 ^ 28) h).
  { apply Forall_lookup_2. intros i x Hx. destruct (Forall2_lookup_r _ _ _ _ _ Hh Hx) as (a & Ha & Hin).
    unfold bnd in Ha. unfold inside in Hin. do 10 (destruct i as [| i]; [vm_compute in Ha; injection Ha as <-; cbn [fst snd] in Hin; lia |]). done. }
  ten_limbs h. cbn in H9. injection H9 as ->.
  let b := eval vm_compute in (bnd 220) in change (bnd 220) with b in Hh. unfold within in Hh.
  repeat match goal with H : Forall2 _ _ _ |- _ => apply Forall2_cons in H as [? H] end.
  unfold inside in *. cbn [fst snd] in *.
  rewrite tobytes_quotient_value, En, Et; [| done | by_decide | rewrite shiftr_div by lia; div_lia].
  rewrite shiftr_div by lia. unfold fe_value, fe_weights in *. cbn [value] in *.
  match goal with |- Ok ((?V + _) / _) = _ /\ _ => set (L := V - 2 ^ 230 * h9); replace V with (2 ^ 230 * h9 + L) by (unfold L; ring) end.
  assert (- 2 ^ 232 <= L <= 2 ^ 232) by (unfold L; lia). clearbody L.
  rewrite quotient_estimate by (div_lia || lia). split_and!; [done | | |]; unfold fe_prime; div_lia.
Qed.

Lemma fe_tobytes_value h : within (bnd 220) h -> fe_tobytes h = Ok (le_encode 32 (fe_value h mod fe_prime)).
Proof.
  intros Hh. pose proof (within_length Hh) as Hl. unfold fe_tobytes.
  destruct (lookup_lt_is_Some_2 h 0) as [h0 H0]; [rewrite Hl; cbn; lia |].
  destruct (lookup_lt_is_Some_2 h 9) as [h9 H9]; [rewrite Hl; cbn; lia |]. rewrite H0, H9. simpl_bind.
  destruct (tobytes_q h h9 Hh H9) as (Eq & Hq & Hb9).
  assert (E1 : int_of 32 (19 * h9) = Ok (19 * h9)) by by_fits. bind_with E1.
  assert (E2 : int_of 32 (19 * h9 + 2 ^ 24) = Ok (19 * h9 + 2 ^ 24)) by by_fits. bind_with E2. bind_with Eq.
  set (q := fe_value h / fe_prime) in *.
  assert (E3 : int_of 32 (19 * q) = Ok (19 * q)) by by_fits. bind_with E3.
  destruct (Forall2_lookup_r _ _ _ _ _ Hh H0) as (a & Ha & Hin). injection Ha as <-. unfold inside in Hin. cbn in Hin.
  assert (E4 : int_of 32 (h0 + 19 * q) = Ok (h0 + 19 * q)) by by_fits. bind_with E4.
  destruct (tobytes_carried (<[0%nat := h0 + 19 * q]> h)) as (t & E5 & HW & Hlt & Ev).
  { apply within_insert; [done |]. unfold inside. cbn. lia. }
  bind_with E5. rewrite (store_bytes_value 32 fe_weights fe_widths 0);
    [| lia | lia | by apply tobytes_normal | done | by rewrite Hlt | by vm_compute].
  rewrite Z.div_1_r. fold (fe_value t). rewrite Ev. do 2 f_equal. unfold fe_value.
  rewrite (value_insert_at _ _ _ _ h0) by done. fold (fe_value h). change (weight fe_weights 0) with 1.
  pose proof (Z.div_mod (fe_value h) fe_prime ltac:(done)) as Hdm. pose proof (Z.mod_pos_bound (fe_value h) fe_prime ltac:(done)) as Hr.
  fold q in Hdm. symmetry. apply (Z.mod_unique _ _ q); unfold fe_prime in *; lia.
Qed.

Lemma fe_tobytes_F k f x : F k f x -> 0 <= k <= 220 -> fe_tobytes f = Ok (le_encode 32 (x mod fe_prime)).
Proof.
  intros Hf Hk. rewrite fe_tobytes_value by by apply (F_weaken k 220 f x Hf); lia. destruct Hf as [_ Hx]. by rewrite Hx.
Qed.

Lemma fe_isnegative_F k f x : F k f x -> 0 <= k <= 220 -> fe_isnegative f = Ok ((x mod fe_prime) mod 2).
Proof.
  intros Hf Hk. unfold fe_isnegative. bind_with (fe_tobytes_F k f x Hf Hk). cbn [le_encode lookup list_lookup at_or_undef].
  simpl_bind. f_equal. change 1 with (2 ^ 1 - 1). rewrite land_mask by lia. change (2 ^ 1) with 2.
  pose proof (Z.mod_pos_bound x fe_prime ltac:(done)). generalize dependent (x mod fe_prime). intros. div_lia.
Qed.

Lemma fe_isnonzero_F k f x : F k f x -> 0 <= k <= 220 -> fe_isnonzero f = Ok (if x mod fe_prime =? 0 then 0 else 1).
Proof.
  intros Hf Hk. unfold fe_isnonzero. bind_with (fe_tobytes_F k f x Hf Hk). f_equal.
  pose proof (Z.mod_pos_bound x fe_prime ltac:(done)) as Hr.
  rewrite or_bytes_nonzero by apply le_encode_bytes. rewrite le_bytes_encode; [done |]. unfold fe_prime in *. cbn. lia.
Qed.

Lemma zip_with_id {A} (h : A -> A -> A) f g : Forall2 (fun x y => h x y = y) f g -> zip_with h f g = g.
Proof. induction 1 as [| x y f g E _ IH]; cbn; [done |]. by rewrite E, IH. Qed.

(** A conditional move selects one of the two. *)
Lemma fe_cmov_select f g b : Forall2 (fun x y => fits 32 x = true /\ fits 32 y = true) f g -> b = 0 \/ b = 1 ->
  fe_cmov f g b = if b =? 0 then f else g.
Proof.
  intros H [-> | ->]; unfold fe_cmov; cbn [Z.eqb].
  - induction H as [| x y f g [Hx Hy] _ IH]; cbn [zip_with]; [done |]. rewrite IH. f_equal.
    change (u32 (Z.opp 0)) with 0. rewrite Z.land_0_r. apply Z.lxor_0_r.
  - apply zip_with_id. eapply Forall2_impl; [exact H |]. intros x y [Hx Hy]. cbv beta.
    change (u32 (Z.opp 1)) with (2 ^ 32 - 1). rewrite land_mask by lia. unfold wrap. rewrite Z.mod_mod by lia.
    assert (E : to_signed 32 ((Z.lxor x y) mod 2 ^ 32) = Z.lxor x y).
    { transitivity (to_signed 32 (Z.lxor x y)); [unfold to_signed, wrap; by rewrite Z.mod_mod by lia |].
      apply to_signed_fits; [lia |]. by apply lxor_fits; [lia | |]. }
    rewrite E, <- Z.lxor_assoc, Z.lxor_nilpotent. apply Z.lxor_0_l.
Qed.

(** ** Powers *)

Section Powers.
Context {x : Z}.

Lemma pow_mul_F {k1 k2 f g a b} : F k1 f (x ^ a) -> F k2 g (x ^ b) -> 0 <= k1 <= 330 -> 0 <= k2 <= 330 -> 0 <= a -> 0 <= b ->
  exists h, fe_mul f g = Ok h /\ F 101 h (x ^ (a + b)).
Proof. intros Hf Hg H1 H2 Ha Hb. rewrite Z.pow_add_r by done. by apply (fe_mul_F Hf Hg). Qed.

Lemma pow_sq_F {k f a} : F k f (x ^ a) -> 0 <= k <= 330 -> 0 <= a -> exists h, fe_sq f = Ok h /\ F 101 h (x ^ (2 * a)).
Proof.
  intros Hf Hk Ha. replace (2 * a) with (a + a) by lia. rewrite Z.pow_add_r by done. by apply (fe_sq_F Hf).
Qed.

Lemma pow_sq_times_F n {f a} : F 101 f (x ^ a) -> 0 <= a -> exists h, fe_sq_times n f = Ok h /\ F 101 h (x ^ (2 ^ Z.of_nat n * a)).
Proof.
  revert f a. induction n as [| n IH]; intros f a Hf Ha; cbn [fe_sq_times]; [exists f; split; [done |]; by rewrite Z.mul_1_l |].
  destruct (pow_sq_F Hf ltac:(lia) Ha) as (g & E & Hg). bind_with E.
  destruct (IH g (2 * a) Hg ltac:(lia)) as (h & E' & Hh). exists h. split; [done |].
  replace (2 ^ Z.of_nat (S n) * a) with (2 ^ Z.of_nat n * (2 * a)); [done |].
  rewrite Nat2Z.inj_succ, Z.pow_succ_r by lia. ring.
Qed.
End Powers.

(** Runs one call of a chain of products, keeping the exponents evaluated. *)
Ltac norm_power H :=
  match type of H with F _ _ (_ ^ ?e) =>
    let v := eval vm_compute in e in
    let Ev := fresh in assert (Ev : e = v) by (vm_compute; reflexivity); rewrite Ev in H; clear Ev end.
Lemma exists_bind {A B} {m : outcome A} {k : A -> outcome B} {Q : B -> Prop} {a} : m = Ok a ->
  (exists r, k a = Ok r /\ Q r) -> exists r, mbind k m = Ok r /\ Q r.
Proof. by intros ->. Qed.

(** Comparisons of literals, without a look at the context ([lia] evaluates the powers there). *)
Ltac literals := first [assumption | split; apply Z.leb_le; reflexivity | apply Z.leb_le; reflexivity].

Ltac run_power lem :=
  let h := fresh "t" in let E := fresh "E" in let H := fresh "P" in
  destruct lem as (h & E & H); [literals.. |]; refine (exists_bind E _); clear E; cbv beta; norm_power H.
Ltac power_step :=
  lazymatch goal with
  | |- exists _, mbind _ (fe_sq ?f) = _ /\ _ => match goal with H : F _ f (_ ^ _) |- _ => run_power (pow_sq_F H) end
  | |- exists _, mbind _ (fe_sq_times ?n ?f) = _ /\ _ =>
    match goal with H : F _ f (_ ^ _) |- _ => run_power (pow_sq_times_F n H) end
  | |- exists _, mbind _ (fe_mul ?f ?g) = _ /\ _ =>
    match goal with H : F _ f (_ ^ _), H' : F _ g (_ ^ _) |- _ => run_power (pow_mul_F H H') end
  end.

Ltac last_power :=
  match goal with |- exists _, fe_mul ?f ?g = _ /\ _ =>
    match goal with H : F _ f (_ ^ _), H' : F _ g (_ ^ _) |- _ =>
      let r := fresh "r" in let E := fresh "E" in let P := fresh "P" in
      destruct (pow_mul_F H H') as (r & E & P); [literals.. |]; exists r; split; [exact E |]; norm_power P; exact P
    end end.

(** The inverse of [fe_invert] is the power p - 2. *)
Lemma fe_invert_F k z x : F k z x -> 0 <= k <= 330 -> exists r, fe_invert z = Ok r /\ F 101 r (x ^ (fe_prime - 2)).
Proof.
  intros Hz Hk. rewrite <- (Z.pow_1_r x) in Hz. unfold fe_invert. repeat power_step.
  last_power.
Qed.

(** [fe_divpowm1] computes u v^3 (u v^7)^((p - 5) / 8), the candidate for the square root of u / v. *)
Lemma fe_divpowm1_F k1 k2 u v x y : F k1 u x -> F k2 v y -> 0 <= k1 <= 330 -> 0 <= k2 <= 330 ->
  exists r, fe_divpowm1 u v = Ok r /\ F 101 r ((x * y ^ 7) ^ (2 ^ 252 - 3) * y ^ 3 * x).
Proof.
  intros Hu Hv Hk1 Hk2. unfold fe_divpowm1.
  destruct (fe_sq_F Hv) as (v2 & E & H2); [lia |]. refine (exists_bind E _). clear E. cbv beta.
  destruct (fe_mul_F H2 Hv) as (v3 & E & H3); [lia.. |]. refine (exists_bind E _). clear E. cbv beta.
  destruct (fe_sq_F H3) as (v6 & E & H6); [lia |]. refine (exists_bind E _). clear E. cbv beta.
  destruct (fe_mul_F H6 Hv) as (v7 & E & H7); [lia.. |]. refine (exists_bind E _). clear E. cbv beta.
  destruct (fe_mul_F H7 Hu) as (uv7 & E & Hw); [lia.. |]. refine (exists_bind E _). clear E. cbv beta.
  replace (y * y * y * (y * y * y) * y * x) with (x * y ^ 7) in Hw by ring.
  replace (y * y * y) with (y ^ 3 * 1) in H3 by ring.
  rewrite <- (Z.pow_1_r (x * y ^ 7)) in Hw. generalize dependent (x * y ^ 7). intros w Hw. clear H2 H6 H7.
  repeat power_step.
  match goal with H : F 101 ?t (w ^ 7237005577332262213973186563042994240829374041602535252466099000494570602493) |- _ =>
    destruct (fe_mul_F H H3) as (t' & E & Ht); [literals.. |] end.
  refine (exists_bind E _). clear E. cbv beta.
  destruct (fe_mul_F Ht Hu) as (r & E & Hr); [literals.. |]. exists r. split; [exact E |].
  rewrite Z.mul_1_r in Hr. exact Hr.
Qed.

(** ** The field, as its callers use it *)

(** C21: on limbs up to 3.3 times the width of a product no signed operation of [fe_mul], [fe_sq],
    [fe_sq2], [fe_neg], [fe_add], [fe_sub] or [fe_invert] overflows, the limbs of the results stay in
    the stated multiples of that width, and their values are the product, the square, its double, the
    opposite, the sum, the difference and the power p - 2 modulo p = 2^255 - 19. *)
Theorem field_arithmetic_exact k1 k2 f g x y : F k1 f x -> F k2 g y -> 0 <= k1 <= 330 -> 0 <= k2 <= 330 ->
  (exists h, fe_mul f g = Ok h /\ F 101 h (x * y)) /\
  (exists h, fe_sq f = Ok h /\ F 101 h (x * x)) /\
  (exists h, fe_sq2 f = Ok h /\ F 101 h (2 * (x * x))) /\
  (exists h, fe_neg f = Ok h /\ F k1 h (- x)) /\
  (k1 + k2 <= 330 -> (exists h, fe_add f g = Ok h /\ F (k1 + k2) h (x + y)) /\ (exists h, fe_sub f g = Ok h /\ F (k1 + k2) h (x - y))) /\
  (exists h, fe_invert f = Ok h /\ F 101 h (x ^ (fe_prime - 2))).
Proof.
  intros Hf Hg H1 H2. split_and!.
  - by apply (fe_mul_F Hf Hg).
  - by apply (fe_sq_F Hf).
  - by apply (fe_sq2_F Hf).
  - by apply (fe_neg_F Hf).
  - intros H. split; [apply (fe_add_F Hf Hg) | apply (fe_sub_F Hf Hg)]; lia.
  - by apply (fe_invert_F k1).
Qed.

Definition wide_limbs : fe := [110729625; -55364812; 110729625; -55364812; 110729625; 55364812; 110729625; 55364812; -110729625; 55364812].

Lemma field_arithmetic_exact_witness :
  F 330 wide_limbs (fe_value wide_limbs) /\ exists h, fe_mul wide_limbs wide_limbs = Ok h /\ F 101 h (fe_value wide_limbs * fe_value wide_limbs).
Proof.
  assert (H : F 330 wide_limbs (fe_value wide_limbs)).
  { split; [| done]. repeat (constructor; [split; vm_compute; discriminate |]). constructor. }
  split; [exact H |]. exact (proj1 (field_arithmetic_exact 330 330 _ _ _ _ H H ltac:(literals) ltac:(literals))).
Defined.

(** [fe_tobytes] writes the canonical representative of the value, whatever limbs carry it, so
    [fe_isnegative] is its parity and [fe_isnonzero] tells zero from the rest. *)
Theorem fe_tobytes_canonical k f x : F k f x -> 0 <= k <= 220 ->
  fe_tobytes f = Ok (le_encode 32 (x mod fe_prime)) /\
  fe_isnegative f = Ok ((x mod fe_prime) mod 2) /\
  fe_isnonzero f = Ok (if x mod fe_prime =? 0 then 0 else 1).
Proof. intros Hf Hk. split_and!; [by eapply fe_tobytes_F | by eapply fe_isnegative_F | by eapply fe_isnonzero_F]. Qed.

(** The limbs of p itself: a second representation of zero. *)
Definition prime_limbs : fe := [67108845; 33554431; 67108863; 33554431; 67108863; 33554431; 67108863; 33554431; 67108863; 33554431].

Lemma fe_tobytes_canonical_witness : F 220 prime_limbs 0 /\ fe_tobytes prime_limbs = Ok (replicate 32 0).
Proof.
  assert (H : F 220 prime_limbs 0).
  { split; [| by vm_compute]. repeat (constructor; [split; vm_compute; discriminate |]). constructor. }
  split; [exact H |]. exact (proj1 (fe_tobytes_canonical 220 prime_limbs 0 H ltac:(literals))).
Defined.
