(* ===== verification/Primality.v ===== *)
(** The prime field of the curve.

    The modulus p = 2^255 - 19 of crypto-ops.c is prime, by a chain of
    Pocklington certificates, so [Zmod fe_prime] is a field; [of_Z] carries the
    values of the limbs of [FieldOps] into it. The file also proves the facts
    about squares on which point decompression and the completeness of the
    addition law rest. *)
From Stdlib Require Import Znumtheory Zmod.
From Bignums Require Import BigN.
From stdpp Require Import base list numbers.
From S2P Require Import Prelude Limbs FieldOps.
Open Scope Z_scope.

(** ** Modular powers

    Evaluated on big numbers of machine words. *)

Fixpoint pow_mod_pos (n a : bigN) (e : positive) : bigN :=
  match e with
  | xH => BigN.modulo a n
  | xO e => let r := pow_mod_pos n a e in BigN.modulo (BigN.mul r r) n
  | xI e => let r := pow_mod_pos n a e in BigN.modulo (BigN.mul (BigN.modulo (BigN.mul r r) n) a) n
  end.

Lemma pow_mod_pos_spec n a e : BigN.to_Z n <> 0 -> BigN.to_Z (pow_mod_pos n a e) = BigN.to_Z a ^ Zpos e mod BigN.to_Z n.
Proof.
  intros Hn. induction e as [e IH | e IH |]; cbn [pow_mod_pos]; rewrite ?BigN.spec_modulo, ?BigN.spec_mul, ?BigN.spec_modulo, ?BigN.spec_mul, ?IH.
  - rewrite <- Z.mul_mod, Z.mul_mod_idemp_l by done. f_equal.
    replace (Zpos (xI e)) with (Zpos e + Zpos e + 1) by lia. by rewrite !Z.pow_add_r, Z.pow_1_r by lia.
  - rewrite <- Z.mul_mod by done. f_equal.
    replace (Zpos (xO e)) with (Zpos e + Zpos e) by lia. by rewrite Z.pow_add_r by lia.
  - by rewrite Z.pow_1_r.
Qed.

(** ** Certificates *)

Lemma prime_divisor d : 1 < d -> exists r, Z.prime r /\ (r | d).
Proof.
  intros Hd. revert Hd. induction (Z.lt_wf 0 d) as [d _ IH]. intros Hd.
  destruct (prime_dec d) as [Hp | Hp].
  { exists d. split; [| done]. destruct Hp as [H1 H2]. split; [done |]. intros n Hn Hnd.
    destruct (H2 n ltac:(lia)) as [_ _ Hg]. specialize (Hg n ltac:(done) Hnd). apply Z.divide_1_r_nonneg in Hg; lia. }
  destruct (not_prime_divide d Hd Hp) as (n & Hn & Hnd).
  destruct (IH n ltac:(lia) ltac:(lia)) as (r & Hr & Hrn). exists r. split; [done |]. by transitivity n.
Qed.

(** A divisor below the square root. *)
Lemma small_divisor n k : 1 < k < n -> (k | n) -> exists r, Z.prime r /\ (r | n) /\ r * r <= n.
Proof.
  intros Hk [c Hc]. assert (Hd : exists d, 1 < d /\ d * d <= n /\ (d | n)).
  { destruct (Z.le_ge_cases (k * k) n); [exists k; split_and!; [lia | done | by exists c] |].
    exists c. split_and!; [nia | nia | exists k; lia]. }
  destruct Hd as (d & H1 & H2 & H3). destruct (prime_divisor d H1) as (r & Hr & Hrd). exists r.
  split_and!; [done | by transitivity d |]. pose proof (Z.prime_ge_2 r Hr). apply Z.divide_pos_le in Hrd; [nia | lia].
Qed.

Lemma prime_by_divisors n : 1 < n -> (forall r, Z.prime r -> (r | n) -> n < r * r) -> Z.prime n.
Proof.
  intros Hn H. split; [done |]. intros k Hk Hd. destruct (small_divisor n k Hk Hd) as (r & Hr & Hrn & Hle).
  specialize (H r Hr Hrn). lia.
Qed.

(** Trial division. *)
Definition no_divisor (m : N) (n : Z) : bool :=
  (N.iter m (fun '(i, ok) => (i + 1, ok && negb (n mod i =? 0))) (2, true)).2.

Lemma no_divisor_iter m n :
  let st := N.iter m (fun '(i, ok) => (i + 1, ok && negb (n mod i =? 0))) (2, true) in
  st.1 = Z.of_N m + 2 /\ (st.2 = true -> forall i, 2 <= i < Z.of_N m + 2 -> n mod i <> 0).
Proof.
  induction m as [| m [IH1 IH2]] using N.peano_ind; [split; [done | lia] |]. cbv zeta in *.
  rewrite N.iter_succ. destruct (N.iter m _ _) as [j ok]. cbn [fst snd] in *. split; [lia |].
  rewrite andb_true_iff, negb_true_iff, Z.eqb_neq. intros [Hok Hj] i Hi.
  destruct (Z.eq_dec i j) as [-> | Hne]; [done |]. apply IH2; [done | lia].
Qed.

Lemma trial_division m n : 1 < n -> n < (Z.of_N m + 2) * (Z.of_N m + 2) -> no_divisor m n = true -> Z.prime n.
Proof.
  intros Hn Hm H. apply prime_by_divisors; [done |]. intros r Hr Hd. apply Z.nle_gt. intros Hle.
  destruct (no_divisor_iter m n) as [_ Hall]. pose proof (Z.prime_ge_2 r Hr).
  apply (Hall H r); [nia |]. by apply Z.mod_divide; [lia |].
Qed.

(** If a prime [q] divides [n - 1] and [a ^ ((n - 1) / q) - 1] is prime to [n] while [a ^ (n - 1)]
    is 1 modulo [n], then [q] divides [r - 1] for every prime divisor [r] of [n]. *)
Lemma power_one a r x y : 0 <= x -> 0 <= y -> r <> 0 -> a ^ x mod r = 1 mod r -> a ^ (x * y) mod r = 1 mod r.
Proof. intros Hx Hy Hr H. rewrite Z.pow_mul_r, <- Z.mod_pow_l, H, Z.mod_pow_l, Z.pow_1_l by done. done. Qed.

Lemma order_divides n a q m r : 1 < n -> n - 1 = q * m -> Z.prime q -> Z.prime r -> (r | n) ->
  a ^ (n - 1) mod n = 1 -> Z.gcd (a ^ m mod n - 1) n = 1 -> (q | r - 1).
Proof.
  intros Hn Hm Hq Hr Hrn Ha Hg. pose proof (Z.prime_ge_2 r Hr). pose proof (Z.prime_ge_2 q Hq).
  destruct (Z.eq_dec ((r - 1) mod q) 0) as [Hd | Hd]; [by apply Z.mod_divide; [lia |] | exfalso].
  rewrite Z.mod_divide in Hd by lia.
  assert (Ha1 : a ^ (n - 1) mod r = 1 mod r) by by rewrite <- (Z.mod_mod_divide _ n r Hrn), Ha.
  assert (Har : a ^ (r - 1) mod r = 1 mod r).
  { rewrite (Z.fermat_nz r a Hr); [by rewrite Z.mod_1_l by lia |]. intros E.
    rewrite <- Z.mod_pow_l, E, Z.pow_0_l, Z.mod_0_l, Z.mod_1_l in Ha1 by lia. done. }
  pose proof (Z.coprime_prime_l q (r - 1) Hq Hd) as Hc. apply Z.invmod_coprime' in Hc.
  set (u := Z.invmod q (r - 1) mod (r - 1) + (r - 1)) in *.
  assert (Hu : exists v, u * q = 1 + v * (r - 1) /\ 0 <= v).
  { assert (E : (u * q) mod (r - 1) = 1 mod (r - 1)).
    { rewrite <- Hc. unfold u. rewrite Z.mul_add_distr_r, (Z.mul_comm (r - 1)), Z.mod_add by lia. by rewrite Z.mul_mod_idemp_l by lia. }
    assert (0 <= Z.invmod q (r - 1) mod (r - 1)) by (apply Z.mod_pos_bound; lia).
    pose proof (Z.mod_divide (u * q - 1) (r - 1) ltac:(lia)) as [Hdiv _]. destruct Hdiv as [v Hv]; [| exists v; nia].
    rewrite Zminus_mod, E, <- Zminus_mod. apply Z.mod_0_l. lia. }
  destruct Hu as (v & Huv & Hv0). assert (0 <= u) by nia. assert (0 <= m) by nia.
  assert (E : a ^ m mod r = 1 mod r).
  { rewrite <- (power_one a r (n - 1) u ltac:(lia) ltac:(lia) ltac:(lia) Ha1), Hm.
    replace (q * m * u) with (m + (r - 1) * (v * m)) by nia. rewrite Z.pow_add_r by nia.
    rewrite <- Z.mul_mod_idemp_r, (power_one a r (r - 1) (v * m)), Z.mul_mod_idemp_r, Z.mul_1_r by nia. done. }
  assert (Hone : (r | 1)); [| apply Z.divide_1_r_nonneg in Hone; lia].
  rewrite <- Hg. apply Z.gcd_greatest; [| done]. apply Z.mod_divide; [lia |].
  rewrite Zminus_mod, (Z.mod_mod_divide _ n r Hrn), E, <- Zminus_mod. apply Z.mod_0_l. lia.
Qed.

(** One prime of a certificate, with its base. *)
Definition certified (n a q : Z) : bool :=
  let N := BigN.of_N (Z.to_N n) in
  let A := BigN.of_N (Z.to_N a) in
  match n - 1, (n - 1) / q with
  | Zpos e, Zpos m =>
    (q * Zpos m =? Zpos e) && BigN.eqb (pow_mod_pos N A e) BigN.one &&
    BigN.eqb (BigN.gcd (BigN.sub (BigN.add (pow_mod_pos N A m) N) BigN.one) N) BigN.one
  | _, _ => false
  end.

Lemma of_N_to_Z x : 0 <= x -> BigN.to_Z (BigN.of_N (Z.to_N x)) = x.
Proof. intros H. rewrite BigN.spec_of_N. lia. Qed.

Lemma certified_divides n a q r : 1 < n -> 0 <= a -> Z.prime q -> certified n a q = true -> Z.prime r -> (r | n) -> (q | r - 1).
Proof.
  intros Hn Ha Hq H Hr Hd. unfold certified in H. destruct (n - 1) as [| e |] eqn:Ee; [done | | done].
  destruct (Zpos e / q) as [| m |]; [done | | done].
  rewrite !andb_true_iff, !BigN.spec_eqb, !Z.eqb_eq in H. destruct H as [[H1 H2] H3].
  rewrite BigN.spec_gcd, BigN.spec_sub, BigN.spec_add, BigN.spec_1 in *.
  rewrite !pow_mod_pos_spec, !of_N_to_Z in * by (rewrite ?of_N_to_Z; lia).
  apply (order_divides n a q (Zpos m)); try done; [lia | by rewrite Ee |].
  etransitivity; [| exact H3]. rewrite Z.max_r by (pose proof (Z.mod_pos_bound (a ^ Zpos m) n); lia).
  replace (a ^ Zpos m mod n + n - 1) with (a ^ Zpos m mod n - 1 + 1 * n) by ring.
  by rewrite (Z.gcd_comm (_ + _)), Z.gcd_add_mult_diag_r, (Z.gcd_comm n).
Qed.

Lemma pocklington_1 n a q : 1 < n -> Z.prime q -> 0 <= a -> certified n a q = true -> n < (q + 1) * (q + 1) -> Z.prime n.
Proof.
  intros Hn Hq Ha Hc Hb. apply prime_by_divisors; [done |]. intros r Hr Hd. pose proof (Z.prime_ge_2 r Hr).
  pose proof (certified_divides _ _ _ _ Hn Ha Hq Hc Hr Hd) as Hle. pose proof (Z.prime_ge_2 q Hq). apply Z.divide_pos_le in Hle; [nia | lia].
Qed.

Lemma pocklington_2 n a q1 q2 : 1 < n -> Z.prime q1 -> Z.prime q2 -> q1 <> q2 -> 0 <= a ->
  certified n a q1 = true -> certified n a q2 = true -> n < (q1 * q2 + 1) * (q1 * q2 + 1) -> Z.prime n.
Proof.
  intros Hn Hq1 Hq2 Hne Ha H1 H2 Hb. apply prime_by_divisors; [done |]. intros r Hr Hd. pose proof (Z.prime_ge_2 r Hr).
  pose proof (certified_divides _ _ _ _ Hn Ha Hq1 H1 Hr Hd) as D1. pose proof (certified_divides _ _ _ _ Hn Ha Hq2 H2 Hr Hd) as D2.
  assert (Hco : Z.gcd q1 q2 = 1).
  { apply Z.coprime_prime_l; [done |]. intros D. apply Z.divide_prime_prime in D; [done | done | done]. }
  assert (D : (q1 * q2 | r - 1)).
  { destruct D1 as [c Hc]. rewrite Hc in D2. rewrite Z.mul_comm in D2. apply Z.gauss in D2; [| by rewrite Z.gcd_comm].
    destruct D2 as [e ->]. rewrite Hc. exists e. lia. }
  pose proof (Z.prime_ge_2 q1 Hq1). pose proof (Z.prime_ge_2 q2 Hq2). apply Z.divide_pos_le in D; [nia | lia].
Qed.

(** ** 2^255 - 19 *)

Lemma prime_127 : Z.prime 127.
Proof. by apply (trial_division 10). Qed.
Lemma prime_75707 : Z.prime 75707.
Proof. by apply (trial_division 275). Qed.
Lemma prime_1923133 : Z.prime 1923133.
Proof. by apply (trial_division 1386). Qed.
Lemma prime_8574133 : Z.prime 8574133.
Proof. by apply (trial_division 2928). Qed.

Lemma prime_1919519569386763 : Z.prime 1919519569386763.
Proof. by apply (pocklington_2 _ 2 8574133 127); [| apply prime_8574133 | apply prime_127 | | | vm_compute .. ]. Qed.

Lemma prime_75445702479781427272750846543864801 : Z.prime 75445702479781427272750846543864801.
Proof. by apply (pocklington_2 _ 2 1919519569386763 75707); [| apply prime_1919519569386763 | apply prime_75707 | | | vm_compute ..]. Qed.

Lemma prime_74058212732561358302231226437062788676166966415465897661863160754340907 :
  Z.prime 74058212732561358302231226437062788676166966415465897661863160754340907.
Proof.
  by apply (pocklington_2 _ 2 75445702479781427272750846543864801 1923133);
    [| apply prime_75445702479781427272750846543864801 | apply prime_1923133 | | | vm_compute ..].
Qed.

Lemma fe_prime_prime : Z.prime fe_prime.
Proof.
  by apply (pocklington_1 _ 2 74058212732561358302231226437062788676166966415465897661863160754340907);
    [| apply prime_74058212732561358302231226437062788676166966415465897661863160754340907 | | vm_compute ..].
Qed.
