(* ===== verification/Groups.v ===== *)
(** Abelian groups and the multiples of their elements.

    The interface against which scalar multiplication and the signatures are
    proved; [Curve25519] provides the instance. *)
From stdpp Require Import base list numbers.
Open Scope Z_scope.

Class Group (G : Type) := {
  gzero : G;
  gadd : G -> G -> G;
  gneg : G -> G;
  gadd_assoc : forall p q r, gadd p (gadd q r) = gadd (gadd p q) r;
  gadd_comm : forall p q, gadd p q = gadd q p;
  gadd_zero_l : forall p, gadd gzero p = p;
  gadd_neg_l : forall p, gadd (gneg p) p = gzero
}.

Declare Scope group_scope.
Delimit Scope group_scope with grp.
Infix "⊕" := gadd (at level 50, left associativity) : group_scope.
Notation "⊖ p" := (gneg p) (at level 35, right associativity) : group_scope.
Open Scope group_scope.

(** Double and add. *)
Definition gmul `{Group G} (n : Z) (p : G) : G :=
  match n with
  | Z0 => gzero
  | Zpos k => Pos.iter_op gadd k p
  | Zneg k => ⊖ Pos.iter_op gadd k p
  end.
Infix "⊙" := gmul (at level 40, left associativity) : group_scope.

Section Theory.
Context `{Group G}.
Implicit Types p q r : G.

Lemma gadd_zero_r p : p ⊕ gzero = p.
Proof. by rewrite gadd_comm, gadd_zero_l. Qed.

Lemma gadd_neg_r p : p ⊕ ⊖ p = gzero.
Proof. by rewrite gadd_comm, gadd_neg_l. Qed.

Lemma gadd_cancel_l p q r : p ⊕ q = p ⊕ r -> q = r.
Proof. intros E. rewrite <- (gadd_zero_l q), <- (gadd_zero_l r), <- (gadd_neg_l p), <- !gadd_assoc. by rewrite E. Qed.

Lemma gneg_unique p q : p ⊕ q = gzero -> q = ⊖ p.
Proof. intros E. apply (gadd_cancel_l p). by rewrite E, gadd_neg_r. Qed.

Lemma gneg_zero : ⊖ gzero = (gzero : G).
Proof. symmetry. apply gneg_unique, gadd_zero_l. Qed.

Lemma gneg_neg p : ⊖ ⊖ p = p.
Proof. symmetry. apply gneg_unique, gadd_neg_l. Qed.

Lemma gadd_swap p q r : p ⊕ (q ⊕ r) = q ⊕ (p ⊕ r).
Proof. by rewrite !gadd_assoc, (gadd_comm p q). Qed.

Lemma gneg_add p q : ⊖ (p ⊕ q) = ⊖ p ⊕ ⊖ q.
Proof.
  symmetry. apply gneg_unique. rewrite <- gadd_assoc, (gadd_swap q), gadd_neg_r, gadd_zero_r. apply gadd_neg_r.
Qed.

Lemma iter_op_succ k p : Pos.iter_op gadd (Pos.succ k) p = p ⊕ Pos.iter_op gadd k p.
Proof. apply Pos.iter_op_succ. intros. apply gadd_assoc. Qed.

Lemma gmul_0 p : 0 ⊙ p = gzero.
Proof. done. Qed.

Lemma gmul_1 p : 1 ⊙ p = p.
Proof. done. Qed.

Lemma gmul_opp n p : (- n) ⊙ p = ⊖ (n ⊙ p).
Proof. destruct n; cbn; [by rewrite gneg_zero | done | by rewrite gneg_neg]. Qed.

Lemma gmul_succ n p : Z.succ n ⊙ p = p ⊕ n ⊙ p.
Proof.
  destruct n as [| k | k]; [cbn; by rewrite gadd_zero_r | |].
  - rewrite <- Pos2Z.inj_succ. cbn [gmul]. apply iter_op_succ.
  - destruct (Pos.succ_pred_or k) as [-> | Ek]; [cbn; by rewrite gadd_neg_r |].
    rewrite <- Ek. rewrite <- Pos2Z.opp_pos. replace (Z.succ (- Z.pos (Pos.succ (Pos.pred k)))) with (- Z.pos (Pos.pred k)) by lia.
    rewrite !gmul_opp. cbn [gmul]. rewrite iter_op_succ, gneg_add, gadd_assoc, gadd_neg_r, gadd_zero_l. done.
Qed.

Lemma gmul_pred n p : Z.pred n ⊙ p = ⊖ p ⊕ n ⊙ p.
Proof.
  rewrite <- (Z.succ_pred n) at 2. rewrite gmul_succ, gadd_assoc, gadd_neg_l, gadd_zero_l. done.
Qed.

Lemma gmul_add m n p : (m + n) ⊙ p = m ⊙ p ⊕ n ⊙ p.
Proof.
  induction m as [| m IH | m IH] using Z.peano_ind.
  - by rewrite Z.add_0_l, gmul_0, gadd_zero_l.
  - by rewrite Z.add_succ_l, !gmul_succ, IH, gadd_assoc.
  - by rewrite Z.add_pred_l, !gmul_pred, IH, gadd_assoc.
Qed.

Lemma gmul_sub m n p : (m - n) ⊙ p = m ⊙ p ⊕ ⊖ (n ⊙ p).
Proof. rewrite <- Z.add_opp_r, gmul_add. by rewrite gmul_opp. Qed.

Lemma gmul_zero_r n : n ⊙ gzero = (gzero : G).
Proof.
  induction n as [| n IH | n IH] using Z.peano_ind; [done | by rewrite gmul_succ, IH, gadd_zero_l |].
  by rewrite gmul_pred, IH, gneg_zero, gadd_zero_l.
Qed.

Lemma gmul_gadd n p q : n ⊙ (p ⊕ q) = n ⊙ p ⊕ n ⊙ q.
Proof.
  induction n as [| n IH | n IH] using Z.peano_ind; [by rewrite !gmul_0, gadd_zero_l | |].
  - rewrite !gmul_succ, IH, <- !gadd_assoc. f_equal. apply gadd_swap.
  - rewrite !gmul_pred, IH, gneg_add, <- !gadd_assoc. f_equal. apply gadd_swap.
Qed.

Lemma gmul_gneg n p : n ⊙ (⊖ p) = ⊖ (n ⊙ p).
Proof. apply gneg_unique. by rewrite <- gmul_gadd, gadd_neg_r, gmul_zero_r. Qed.

Lemma gmul_mul m n p : (m * n) ⊙ p = m ⊙ (n ⊙ p).
Proof.
  induction m as [| m IH | m IH] using Z.peano_ind; [done | |].
  - by rewrite Z.mul_succ_l, Z.add_comm, gmul_add, gmul_succ, IH.
  - by rewrite Z.mul_pred_l, <- Z.add_opp_r, Z.add_comm, gmul_add, gmul_opp, gmul_pred, IH.
Qed.

(** Multiples of an element whose order divides [l]. *)
Lemma gmul_mod l n p : l ⊙ p = gzero -> l <> 0 -> (n mod l) ⊙ p = n ⊙ p.
Proof.
  intros Hl H0. rewrite (Z.div_mod n l H0) at 2. rewrite gmul_add, Z.mul_comm, gmul_mul, Hl, gmul_zero_r. by rewrite gadd_zero_l.
Qed.

Lemma gmul_multiple l n p : l ⊙ p = gzero -> l ⊙ (n ⊙ p) = gzero.
Proof. intros Hl. by rewrite <- gmul_mul, Z.mul_comm, gmul_mul, Hl, gmul_zero_r. Qed.
End Theory.
