(* ===== verification/Edwards.v ===== *)
(** Twisted Edwards curves.

    The curve -x^2 + y^2 = 1 + d x^2 y^2 over any field in which -1 is a square
    and d is not: the addition law is complete and makes the points an abelian
    group. crypto-ops.c works on such a curve; its formulas are compared with
    [eadd] in [GroupOps]. *)
From Stdlib Require Import Field.
From stdpp Require Import base list numbers.

Section Edwards.
Context {K : Type} {zero one : K} {add mul sub : K -> K -> K} {opp : K -> K} {div : K -> K -> K} {inv : K -> K}.
Context (K_field : field_theory zero one add mul sub opp div inv (@eq K)).
Context `{K_dec : EqDecision K}.
Add Field K_field : K_field.

Local Infix "+" := add.
Local Infix "*" := mul.
Local Infix "-" := sub.
Local Infix "/" := div.
Local Notation "- x" := (opp x).
Local Notation "0" := zero.
Local Notation "1" := one.

Lemma K_integral x y : x * y = 0 -> x = 0 \/ y = 0.
Proof.
  intros H. destruct (decide (x = 0)) as [| Hx]; [by left | right].
  replace y with (inv x * (x * y)) by (field; done). rewrite H. ring.
Qed.

Lemma K_mul_nonzero x y : x <> 0 -> y <> 0 -> x * y <> 0.
Proof. intros Hx Hy H. by destruct (K_integral x y H). Qed.

Lemma K_sub_eq x y : x - y = 0 -> x = y.
Proof. intros H. replace x with (x - y + y) by ring. rewrite H. ring. Qed.

Context (d i : K) (Hi : i * i = - (1)) (Hd : forall x, x * x <> d) (H2 : 1 + 1 <> 0).

Definition on_curve (p : K * K) : Prop := p.2 * p.2 - p.1 * p.1 = 1 + d * p.1 * p.1 * p.2 * p.2.

Definition ezero : K * K := (0, 1).
Definition eneg (p : K * K) : K * K := (- p.1, p.2).
Definition eadd (p q : K * K) : K * K :=
  let e := d * p.1 * q.1 * p.2 * q.2 in
  ((p.1 * q.2 + q.1 * p.2) / (1 + e), (p.2 * q.2 + p.1 * q.1) / (1 - e)).

(** The curve equation as a rule that rewrites a monomial. *)
Lemma curve_rule x y : on_curve (x, y) -> d * x * x * y * y = y * y - x * x - 1.
Proof. unfold on_curve. cbn. intros H. replace (d * x * x * y * y) with (1 + d * x * x * y * y - 1) by ring. by rewrite <- H. Qed.

(** ** Completeness *)

Lemma no_root a b : a <> 0 -> d * (a * a) <> b * b.
Proof.
  intros Ha H. apply (Hd (b / a)). replace d with (d * (a * a) / (a * a)) by (field; done). rewrite H. field. done.
Qed.

(** d (x1 y1 (i x2 + y2))^2 = (i x1 + e y1)^2 when e^2 = 1. *)
Lemma square_relation x1 y1 x2 y2 e : on_curve (x1, y1) -> on_curve (x2, y2) -> e = d * x1 * x2 * y1 * y2 -> e * e = 1 ->
  d * ((x1 * y1 * (i * x2 + y2)) * (x1 * y1 * (i * x2 + y2))) = (i * x1 + e * y1) * (i * x1 + e * y1).
Proof.
  intros C1%curve_rule C2 He E. unfold on_curve in C2. cbn in C2.
  transitivity (d * x1 * x1 * y1 * y1 * (y2 * y2 - x2 * x2) + (1 + 1) * i * x1 * y1 * (d * x1 * x2 * y1 * y2)); [ring [Hi] |].
  transitivity (d * x1 * x1 * y1 * y1 + e * e + (1 + 1) * i * x1 * y1 * e); [rewrite C2, He; ring |].
  rewrite C1. ring [Hi E].
Qed.

Lemma on_curve_neg x y : on_curve (x, y) -> on_curve (x, - y).
Proof. unfold on_curve. cbn. intros H. replace (- y * - y - x * x) with (y * y - x * x) by ring. rewrite H. ring. Qed.

Lemma sum_not_unit x1 y1 x2 y2 e : on_curve (x1, y1) -> on_curve (x2, y2) -> e = d * x1 * x2 * y1 * y2 -> e * e <> 1.
Proof.
  intros C1 C2 He E. assert (Hne : forall f, e = f * 0 -> False).
  { intros f Hf. apply (K_field.(F_1_neq_0)). rewrite <- E, Hf. ring. }
  assert (Hxy : x1 * y1 <> 0) by (intros H; apply (Hne (d * x2 * y2)); rewrite <- H, He; ring).
  destruct (decide (i * x2 + y2 = 0)) as [Hs |].
  - destruct (decide (i * x2 + - y2 = 0)) as [Ht |].
    + destruct (K_integral (1 + 1) y2) as [| Hy]; [| done |].
      * transitivity ((i * x2 + y2) - (i * x2 + - y2)); [ring |]. rewrite Hs, Ht. ring.
      * apply (Hne (d * x1 * x2 * y1)). by rewrite <- Hy.
    + eapply no_root; [| apply (square_relation x1 y1 x2 (- y2) (- e)); auto using on_curve_neg].
      * by apply K_mul_nonzero.
      * rewrite He. ring.
      * rewrite <- E. ring.
  - eapply no_root; [| by apply (square_relation x1 y1 x2 y2 e)]. by apply K_mul_nonzero.
Qed.

Lemma denominators p q : on_curve p -> on_curve q ->
  1 + d * p.1 * q.1 * p.2 * q.2 <> 0 /\ 1 - d * p.1 * q.1 * p.2 * q.2 <> 0.
Proof.
  destruct p as [x1 y1], q as [x2 y2]. cbn. intros C1 C2. pose proof (sum_not_unit _ _ _ _ _ C1 C2 eq_refl) as H.
  split; intros E; apply H; apply K_sub_eq.
  - transitivity ((1 + d * x1 * x2 * y1 * y2) * (d * x1 * x2 * y1 * y2 - 1)); [ring |]. rewrite E. ring.
  - transitivity ((1 - d * x1 * x2 * y1 * y2) * (- (d * x1 * x2 * y1 * y2) - 1)); [ring |]. rewrite E. ring.
Qed.

(** ** The group *)

Lemma ezero_on_curve : on_curve ezero.
Proof. unfold on_curve. cbn. ring. Qed.

Lemma eneg_on_curve p : on_curve p -> on_curve (eneg p).
Proof. unfold on_curve. cbn. intros H. replace (p.2 * p.2 - - p.1 * - p.1) with (p.2 * p.2 - p.1 * p.1) by ring. rewrite H. ring. Qed.

Lemma eadd_comm p q : eadd p q = eadd q p.
Proof. unfold eadd. f_equal; f_equal; ring. Qed.

Lemma eadd_zero_l p : eadd ezero p = p.
Proof. destruct p as [x y]. unfold eadd. cbn. f_equal; field; split_and?; try done; intros H; apply (K_field.(F_1_neq_0)); rewrite <- H; ring. Qed.

Lemma eadd_neg_l p : on_curve p -> eadd (eneg p) p = ezero.
Proof.
  intros H. destruct (denominators (eneg p) p (eneg_on_curve p H) H) as [H1 H2']. unfold eadd, ezero. destruct p as [x y].
  apply curve_rule in H. cbn in *. f_equal.
  - replace (- x * y + x * y) with 0 by ring. field. done.
  - replace (1 - d * - x * x * y * y) with (y * y + - x * x); [| ring [H]]. field.
    replace (y * y + - x * x) with (1 - d * - x * x * y * y) by (ring [H]). done.
Qed.

Lemma eadd_on_curve p q : on_curve p -> on_curve q -> on_curve (eadd p q).
Proof.
  intros C1 C2. destruct (denominators p q C1 C2) as [D1 D2]. destruct p as [x1 y1], q as [x2 y2].
  apply curve_rule in C1, C2. unfold on_curve, eadd. cbn in *. apply K_sub_eq. field_simplify_eq; [| done].
  ring [C1 C2].
Qed.
Lemma div_eq a b c e : b <> 0 -> e <> 0 -> a * e = c * b -> a / b = c / e.
Proof. intros Hb He H. field_simplify_eq; [| done]. rewrite H. ring. Qed.

(** A sum with a sum on the left, its denominators cleared. *)
Lemma eadd_eadd x1 y1 x2 y2 x3 y3 : on_curve (x1, y1) -> on_curve (x2, y2) -> on_curve (x3, y3) ->
  let e := d * x1 * x2 * y1 * y2 in
  let nx := x1 * y2 + x2 * y1 in let ny := y1 * y2 + x1 * x2 in
  let f := (1 + e) * (1 - e) in let g := d * nx * ny * x3 * y3 in
  f + g <> 0 /\ f - g <> 0 /\
  eadd (eadd (x1, y1) (x2, y2)) (x3, y3) =
    ((nx * (1 - e) * y3 + x3 * ny * (1 + e)) / (f + g), (ny * (1 + e) * y3 + nx * (1 - e) * x3) / (f - g)).
Proof.
  intros C1 C2 C3 e nx ny f g. destruct (denominators _ _ C1 C2) as [D1 D2].
  destruct (denominators _ _ (eadd_on_curve _ _ C1 C2) C3) as [D3 D4]. cbn in D1, D2. unfold eadd in *. cbn [fst snd] in *.
  fold e nx ny in D1, D2, D3, D4 |- *.
  assert (E1 : f + g = (1 + e) * (1 - e) * (1 + d * (nx / (1 + e)) * x3 * (ny / (1 - e)) * y3)) by (unfold f, g; field; done).
  assert (E2 : f - g = (1 + e) * (1 - e) * (1 - d * (nx / (1 + e)) * x3 * (ny / (1 - e)) * y3)) by (unfold f, g; field; done).
  assert (H1 : f + g <> 0) by (rewrite E1; auto using K_mul_nonzero).
  assert (H2' : f - g <> 0) by (rewrite E2; auto using K_mul_nonzero).
  split_and!; [done | done |]. rewrite E1, E2.
  f_equal; apply div_eq; try done; rewrite <- ?E1, <- ?E2; try done; rewrite ?E1, ?E2; field; done.
Qed.

Lemma eadd_assoc p q r : on_curve p -> on_curve q -> on_curve r -> eadd p (eadd q r) = eadd (eadd p q) r.
Proof.
  destruct p as [x1 y1], q as [x2 y2], r as [x3 y3]. intros C1 C2 C3. rewrite (eadd_comm (x1, y1) (eadd _ _)).
  destruct (eadd_eadd _ _ _ _ _ _ C1 C2 C3) as (H1 & H1' & ->). destruct (eadd_eadd _ _ _ _ _ _ C2 C3 C1) as (H3 & H3' & ->).
  apply curve_rule in C1, C2, C3. f_equal; (apply div_eq; [done | done |]); ring [C1 C2 C3].
Qed.
End Edwards.
