(* ===== verification/Curve25519.v ===== *)
(** The group of the curve.

    [Edwards] over the field of [Primality] with the coefficient of
    crypto-ops-data.c: its points, as a [Group], the base point and its order,
    and the check that the tables of crypto-ops-data.c hold the multiples of the
    base point that they should. *)
From Stdlib Require Import Zmod Field.
From Bignums Require Import BigN.
From stdpp Require Import base list numbers.
From S2P Require Import Prelude Limbs ScalarOps FieldOps CurveData Primality Groups Edwards.
Open Scope Z_scope.

(** ** The field *)

Abbreviation Fp := (Zmod fe_prime).
Definition fp (x : Z) : Fp := Zmod.of_Z fe_prime x.
Definition fp_field := Zmod.field_theory fe_prime fe_prime_prime.
Add Field fp_field : fp_field.

Declare Scope fp_scope.
Delimit Scope fp_scope with fp.
Bind Scope fp_scope with Zmod.
Infix "+" := Zmod.add : fp_scope.
Infix "*" := Zmod.mul : fp_scope.
Infix "-" := Zmod.sub : fp_scope.
Infix "/" := Zmod.mdiv : fp_scope.
Notation "- x" := (Zmod.opp x) : fp_scope.
Notation "0" := Zmod.zero : fp_scope.
Notation "1" := Zmod.one : fp_scope.

#[export] Instance fp_dec : EqDecision Fp.
Proof. intros x y. destruct (Z.eq_dec (Zmod.to_Z x) (Zmod.to_Z y)) as [E | E]; [left; by apply Zmod.to_Z_inj | right; congruence]. Defined.

Lemma fp_eq x y : fp x = fp y <-> fe_eq x y.
Proof. apply Zmod.of_Z_inj. Qed.

Lemma fp_small x : 0 <= x < fe_prime -> Zmod.to_Z (fp x) = x.
Proof. intros H. by apply Zmod.to_Z_of_Z_small. Qed.

Lemma fp_to_Z (x : Fp) : fp (Zmod.to_Z x) = x.
Proof. apply Zmod.of_Z_to_Z. Qed.

Lemma fp_range (x : Fp) : 0 <= Zmod.to_Z x < fe_prime.
Proof. by apply Zmod.to_Z_pos_bound. Qed.

Lemma fp_mul_nonzero (x y : Fp) : x <> 0%fp -> y <> 0%fp -> (x * y)%fp <> 0%fp.
Proof. apply (K_mul_nonzero fp_field). Qed.

Lemma fp_integral (x y : Fp) : (x * y)%fp = 0%fp -> x = 0%fp \/ y = 0%fp.
Proof. apply (K_integral fp_field). Qed.

(** ** The curve *)

Definition d : Fp := Eval vm_compute in fp (fe_value fe_d).
Definition sqrtm1 : Fp := Eval vm_compute in fp (fe_value fe_sqrtm1).

Lemma sqrtm1_square : (sqrtm1 * sqrtm1 = - (1))%fp.
Proof. by vm_compute. Qed.

(** d = -121665 / 121666. *)
Lemma d_fraction : (fp 121666 * d = - fp 121665)%fp.
Proof. by vm_compute. Qed.

(** Big numbers for evaluation. *)
Definition big (x : Fp) : bigN := BigN.of_N (Z.to_N (Zmod.to_Z x)).
Definition big_p : bigN := Eval vm_compute in BigN.of_N (Z.to_N fe_prime).

Lemma to_Z_big x : BigN.to_Z (big x) = Zmod.to_Z x.
Proof. apply of_N_to_Z, fp_range. Qed.

Lemma to_Z_big_p : BigN.to_Z big_p = fe_prime.
Proof. by vm_compute. Qed.

Lemma fp_pow_big x e : Zmod.pow x (Zpos e) = fp (BigN.to_Z (pow_mod_pos big_p (big x) e)).
Proof.
  rewrite pow_mod_pos_spec by by rewrite to_Z_big_p. rewrite to_Z_big_p, to_Z_big. unfold fp.
  by rewrite Zmod.of_Z_mod, Zmod.of_Z_pow, Zmod.of_Z_to_Z by lia.
Qed.

(** Euler's criterion, in the direction that needs no generator. *)
Definition half_p : positive := 28948022309329048855892746252171976963317496166410141009864396001978282409974.

Lemma euler_not_square (c : Fp) : c <> 0%fp -> Zmod.eqb (fp (BigN.to_Z (pow_mod_pos big_p (big c) half_p))) 1%fp = false ->
  forall x : Fp, (x * x <> c)%fp.
Proof.
  intros Hc He x E. assert (Hx : x <> 0%fp) by (intros ->; apply Hc; rewrite <- E; ring).
  rewrite <- fp_pow_big, <- E, Zmod.pow_mul_l_nonneg, <- Zmod.pow_add_r_nonneg in He by done.
  change (Zpos half_p + Zpos half_p) with (Z.pred fe_prime) in He.
  rewrite (Zmod.fermat_nz x Hx fe_prime_prime), Zmod.eqb_refl in He. discriminate He.
Qed.

Lemma d_not_square (x : Fp) : (x * x <> d)%fp.
Proof. apply euler_not_square; [by vm_compute | vm_compute; reflexivity]. Qed.

Lemma two_not_square (x : Fp) : (x * x <> 1 + 1)%fp.
Proof. apply euler_not_square; [by vm_compute | vm_compute; reflexivity]. Qed.

Lemma fp_two : (1 + 1 <> 0 :> Fp)%fp.
Proof. by vm_compute. Qed.

(** A point of the curve. *)
Definition valid (p : Fp * Fp) : Prop := on_curve (one := Zmod.one) (add := Zmod.add) (mul := Zmod.mul) (sub := Zmod.sub) d p.
Record point := Point { coords : Fp * Fp; coords_valid : valid coords }.

Lemma point_eq p q : coords p = coords q -> p = q.
Proof. destruct p as [p Hp], q as [q Hq]. cbn. intros ->. f_equal. apply eq_pi. solve_decision. Qed.

(** The curve equation of a point, as a rewrite rule for [ring]. *)
Lemma curve_eq p : (d * (coords p).1 * (coords p).1 * (coords p).2 * (coords p).2 =
  (coords p).2 * (coords p).2 - (coords p).1 * (coords p).1 - 1)%fp.
Proof. destruct p as [[x y] H]. exact (curve_rule fp_field d x y H). Qed.

#[export] Instance point_dec : EqDecision point.
Proof. intros p q. destruct (decide (coords p = coords q)) as [E | E]; [left; by apply point_eq | right; congruence]. Defined.

Abbreviation fadd := (eadd (one := Zmod.one) (add := Zmod.add) (mul := Zmod.mul) (sub := Zmod.sub) (div := Zmod.mdiv) d).

Lemma padd_valid p q : valid (fadd (coords p) (coords q)).
Proof. apply (eadd_on_curve fp_field d sqrtm1 sqrtm1_square d_not_square fp_two); apply coords_valid. Qed.

Lemma pneg_valid p : valid (eneg (opp := Zmod.opp) (coords p)).
Proof. apply (eneg_on_curve fp_field), coords_valid. Qed.

Lemma pzero_valid : valid (ezero (zero := Zmod.zero) (one := Zmod.one)).
Proof. apply (ezero_on_curve fp_field). Qed.

#[export] Instance point_group : Group point.
Proof.
  refine {| gzero := Point _ pzero_valid; gadd p q := Point _ (padd_valid p q); gneg p := Point _ (pneg_valid p) |}.
  - intros p q r. apply point_eq. cbn [coords]. apply (eadd_assoc fp_field d sqrtm1 sqrtm1_square d_not_square fp_two); apply coords_valid.
  - intros p q. apply point_eq. cbn [coords]. apply (eadd_comm fp_field).
  - intros p. apply point_eq. cbn [coords]. apply (eadd_zero_l fp_field).
  - intros p. apply point_eq. cbn [coords]. apply (eadd_neg_l fp_field d sqrtm1 sqrtm1_square d_not_square fp_two), coords_valid.
Defined.

(** ** The base point *)

Lemma coords_iter k p : coords (Pos.iter_op gadd k p) = Pos.iter_op (fun a b => fadd a b) k (coords p).
Proof.
  revert p. induction k as [k IH | k IH |]; intros p; cbn [Pos.iter_op]; [| | done].
  - cbn [gadd point_group coords]. by rewrite IH.
  - by rewrite IH.
Qed.

(** (x, 4/5) with x even. *)
Definition base_coords : Fp * Fp := Eval vm_compute in
  (fp 15112221349535400772501151409588531511454012693041857206046113283949847762202, (fp 4 / fp 5)%fp).

Lemma base_valid : valid base_coords.
Proof. by vm_compute. Qed.

Definition base : point := Point base_coords base_valid.

(** Sums on big numbers, for evaluation. *)
Definition fpb (a : bigN) : Fp := fp (BigN.to_Z a).
Definition bmul (a b : bigN) : bigN := BigN.modulo (BigN.mul a b) big_p.
Definition badd (a b : bigN) : bigN := BigN.modulo (BigN.add a b) big_p.
Definition bsub (a b : bigN) : bigN := badd a (bmul (BigN.pred big_p) b).
Definition big_d : bigN := Eval vm_compute in big d.

(** Projective coordinates: a sum without division. *)
Record triple := Triple { tX : bigN; tY : bigN; tZ : bigN }.

Definition tadd (p q : triple) : triple :=
  let a := bmul (tZ p) (tZ q) in
  let b := bmul a a in
  let c := bmul (tX p) (tX q) in
  let f := bmul (tY p) (tY q) in
  let e := bmul big_d (bmul c f) in
  let g := bsub b e in
  let h := badd b e in
  Triple (bmul (bmul a g) (badd (bmul (tX p) (tY q)) (bmul (tX q) (tY p)))) (bmul (bmul a h) (badd f c)) (bmul g h).

Definition tripled (t : triple) (p : point) : Prop :=
  fpb (tZ t) <> 0%fp /\ fpb (tX t) = ((coords p).1 * fpb (tZ t))%fp /\ fpb (tY t) = ((coords p).2 * fpb (tZ t))%fp.

Lemma fpb_mul a b : fpb (bmul a b) = (fpb a * fpb b)%fp.
Proof. unfold fpb, bmul, fp. by rewrite BigN.spec_modulo, BigN.spec_mul, to_Z_big_p, Zmod.of_Z_mod, Zmod.of_Z_mul. Qed.

Lemma fpb_add a b : fpb (badd a b) = (fpb a + fpb b)%fp.
Proof. unfold fpb, badd, fp. by rewrite BigN.spec_modulo, BigN.spec_add, to_Z_big_p, Zmod.of_Z_mod, Zmod.of_Z_add. Qed.

Lemma fpb_sub a b : fpb (bsub a b) = (fpb a - fpb b)%fp.
Proof.
  unfold bsub. rewrite fpb_add, fpb_mul. assert (E : fpb (BigN.pred big_p) = (- (1))%fp) by by vm_compute. rewrite E. ring.
Qed.

Lemma fpb_1 : fpb BigN.one = 1%fp.
Proof. by vm_compute. Qed.

Lemma fpb_d : fpb big_d = d.
Proof. by vm_compute. Qed.

Lemma tadd_points a b p q : tripled a p -> tripled b q -> tripled (tadd a b) (p ⊕ q).
Proof.
  intros (Za & Xa & Ya) (Zb & Xb & Yb). unfold tripled, tadd. cbn [tX tY tZ gadd point_group coords eadd fst snd].
  destruct (denominators fp_field d sqrtm1 sqrtm1_square d_not_square fp_two _ _ (coords_valid p) (coords_valid q)) as [H1 H2].
  rewrite !fpb_mul, !fpb_add, !fpb_sub, !fpb_mul, fpb_d, Xa, Ya, Xb, Yb.
  set (x1 := (coords p).1) in *. set (y1 := (coords p).2) in *. set (x2 := (coords q).1) in *. set (y2 := (coords q).2) in *.
  set (z := (fpb (tZ a) * fpb (tZ b))%fp) in *. assert (Hz : z <> 0%fp) by by apply fp_mul_nonzero.
  replace (d * (x1 * fpb (tZ a) * (x2 * fpb (tZ b)) * (y1 * fpb (tZ a) * (y2 * fpb (tZ b)))))%fp
    with (z * z * (d * x1 * x2 * y1 * y2))%fp by (unfold z; ring).
  set (e := (d * x1 * x2 * y1 * y2)%fp) in *.
  split_and!.
  - replace ((z * z - z * z * e) * (z * z + z * z * e))%fp with (z * z * (z * z) * ((1 + e) * (1 - e)))%fp by ring.
    auto using fp_mul_nonzero.
  - unfold z. field. done.
  - unfold z. field. done.
Qed.

Definition tmul (n : positive) (p : triple) : triple := Pos.iter_op tadd n p.

Lemma tmul_points n a p : tripled a p -> tripled (tmul n a) (Zpos n ⊙ p).
Proof.
  unfold tmul. cbn [gmul]. revert a p. induction n as [n IH | n IH |]; intros a p Ha; cbn [Pos.iter_op]; [| | done].
  - apply tadd_points; [done |]. by apply IH, tadd_points.
  - by apply IH, tadd_points.
Qed.

Definition base_triple : triple := Eval vm_compute in Triple (big base_coords.1) (big base_coords.2) BigN.one.

Lemma base_tripled : tripled base_triple base.
Proof. by vm_compute. Qed.

Lemma triple_zero t p : tripled t p -> Zmod.eqb (fpb (tX t)) 0%fp && Zmod.eqb (fpb (tY t)) (fpb (tZ t)) = true -> p = gzero.
Proof.
  intros (HZ & HX & HY). rewrite andb_true_iff, !Zmod.eqb_eq. intros [EX EY]. rewrite EX in HX. rewrite EY in HY.
  apply point_eq, injective_projections; cbn [coords gzero point_group ezero fst snd].
  - symmetry in HX. by destruct (K_integral fp_field _ _ HX).
  - transitivity (((coords p).2 * fpb (tZ t)) / fpb (tZ t))%fp; [field; done |]. rewrite <- HY. field. done.
Qed.

(** The order of the base point divides the order of the scalars. *)
Lemma base_order : sc_order ⊙ base = gzero.
Proof.
  change sc_order with 7237005577332262213973186563042994240857116359379907606001950938285454250989.
  eapply triple_zero; [apply tmul_points, base_tripled |]. vm_compute. reflexivity.
Qed.

(** ** Limbs over the field *)

(** [f] has the bound [k] and stands for [x]. *)
Definition FF (k : Z) (f : fe) (x : Fp) : Prop := F k f (Zmod.to_Z x).

Lemma FF_alt k f x : FF k f x <-> within (bnd k) f /\ fp (fe_value f) = x.
Proof. unfold FF, F. rewrite <- fp_eq, fp_to_Z. done. Qed.

(** What an entry of a table stands for. *)
Definition precomp_is (t : ge_precomp) (p : point) : Prop :=
  FF 101 (yplusx t) ((coords p).2 + (coords p).1)%fp /\
  FF 101 (yminusx t) ((coords p).2 - (coords p).1)%fp /\
  FF 101 (xy2d t) ((coords p).1 * (coords p).2 * (d + d))%fp.

(** ** The tables *)

(** The value of limbs, as a big number. *)
Definition limbs_big (f : fe) : bigN := BigN.modulo (BigN.of_N (Z.to_N (fe_value f + 16 * fe_prime))) big_p.

Definition all_in (k : Z) (f : fe) : bool := all_below (map (fun x => (x, x)) f) (bnd k).

Definition tight_limbs (f : fe) : bool := all_in 101 f.

(** An entry against projective coordinates, all divisions multiplied out. *)
Definition precomp_ok (t : ge_precomp) (p : triple) : bool :=
  tight_limbs (yplusx t) && tight_limbs (yminusx t) && tight_limbs (xy2d t) &&
  BigN.eqb (bmul (limbs_big (yplusx t)) (tZ p)) (badd (tY p) (tX p)) &&
  BigN.eqb (bmul (limbs_big (yminusx t)) (tZ p)) (bsub (tY p) (tX p)) &&
  BigN.eqb (bmul (limbs_big (xy2d t)) (bmul (tZ p) (tZ p))) (bmul (bmul (tX p) (tY p)) (badd big_d big_d)).

(** The multiples [from], [from + step], ... *)
Fixpoint precomp_row_ok (row : list ge_precomp) (p step : triple) : bool :=
  match row with
  | [] => true
  | t :: row => precomp_ok t p && precomp_row_ok row (tadd p step) step
  end.

Fixpoint precomp_table_ok (rows : list (list ge_precomp)) (p : triple) : bool :=
  match rows with
  | [] => true
  | row :: rows => precomp_row_ok row p p && precomp_table_ok rows (tmul 256 p)
  end.

Lemma all_in_within k f : all_in k f = true -> within (bnd k) f.
Proof.
  unfold all_in. intros H. eapply within_below; [| exact H]. clear. induction f as [| x f IH]; [constructor |].
  constructor; [unfold inside; cbn; lia | done].
Qed.

Lemma limbs_big_value f : within (bnd 101) f -> fpb (limbs_big f) = fp (fe_value f).
Proof.
  intros H. assert (Hb : 0 <= fe_value f + 16 * fe_prime).
  { unfold within, bnd in H. unfold fe_value, fe_weights, fe_prime. 
    repeat match goal with H : Forall2 _ _ _ |- _ => apply Forall2_cons_inv_l in H as (? & ? & ? & H & ->) end.
    apply Forall2_nil_inv_l in H as ->. unfold inside in *. cbn [fst snd] in *. cbn [value]. lia. }
  unfold fpb, limbs_big, fp. rewrite BigN.spec_modulo, of_N_to_Z, to_Z_big_p, Zmod.of_Z_mod by done.
  apply Zmod.of_Z_inj. by apply Z.mod_add.
Qed.

Lemma fpb_eqb a b : BigN.eqb a b = true -> fpb a = fpb b.
Proof. rewrite BigN.spec_eqb, Z.eqb_eq. unfold fpb. by intros ->. Qed.

Lemma precomp_ok_is t u p : tripled u p -> precomp_ok t u = true -> precomp_is t p.
Proof.
  intros (HZ & HX & HY). unfold precomp_ok. rewrite !andb_true_iff. intros [[[[[W1 W2] W3] E1] E2] E3].
  apply all_in_within in W1, W2, W3. apply fpb_eqb in E1, E2, E3.
  rewrite !fpb_mul, ?fpb_add, ?fpb_sub, ?fpb_mul, ?fpb_add, ?fpb_d, limbs_big_value in * by done.
  rewrite HX, HY in *. unfold precomp_is. rewrite !FF_alt. set (z := fpb (tZ u)) in *.
  assert (Hc : forall a b c : Fp, c <> 0%fp -> (a * c)%fp = (b * c)%fp -> a = b).
  { intros a b c Hc E. transitivity (a * c / c)%fp; [field; done |]. rewrite E. field. done. }
  split_and!; try done.
  - apply (Hc _ _ z HZ). rewrite E1. ring.
  - apply (Hc _ _ z HZ). rewrite E2. ring.
  - apply (Hc _ _ (z * z)%fp); [by apply fp_mul_nonzero |]. rewrite E3. ring.
Qed.

Lemma precomp_row_is row u v p q j t : tripled u p -> tripled v q -> precomp_row_ok row u v = true -> row !! j = Some t ->
  precomp_is t (p ⊕ Z.of_nat j ⊙ q).
Proof.
  revert u p j. induction row as [| t' row IH]; intros u p j Hu Hv Hok Hj; [done |]. cbn in Hok. apply andb_true_iff in Hok as [H1 H2].
  destruct j as [| j]; cbn in Hj.
  - injection Hj as ->. rewrite gmul_0, gadd_zero_r. by eapply precomp_ok_is.
  - specialize (IH _ (p ⊕ q) j (tadd_points _ _ _ _ Hu Hv) Hv H2 Hj).
    by rewrite Nat2Z.inj_succ, gmul_succ, gadd_assoc.
Qed.

Lemma precomp_table_is rows u p i j row t : tripled u p -> precomp_table_ok rows u = true -> rows !! i = Some row -> row !! j = Some t ->
  precomp_is t (((Z.of_nat j + 1) * 256 ^ Z.of_nat i) ⊙ p).
Proof.
  revert u p i. induction rows as [| row' rows IH]; intros u p i Hu Hok Hi Hj; [done |]. cbn in Hok. apply andb_true_iff in Hok as [H1 H2].
  destruct i as [| i]; cbn in Hi.
  - injection Hi as ->. rewrite Z.mul_1_r, Z.add_1_r, gmul_succ. by eapply precomp_row_is.
  - specialize (IH _ _ i (tmul_points 256 _ _ Hu) H2 Hi Hj). rewrite <- gmul_mul in IH.
    replace ((Z.of_nat j + 1) * 256 ^ Z.of_nat (S i)) with ((Z.of_nat j + 1) * 256 ^ Z.of_nat i * 256); [done |].
    rewrite Nat2Z.inj_succ, Z.pow_succ_r by lia. ring.
Qed.

(** base[i][j] = (j+1)*256^i*B, as its comment says. *)
Lemma ge_base_is i j row t : ge_base !! i = Some row -> row !! j = Some t ->
  precomp_is t (((Z.of_nat j + 1) * 256 ^ Z.of_nat i) ⊙ base).
Proof. intros Hi Hj. eapply precomp_table_is; [apply base_tripled | | exact Hi | exact Hj]. vm_compute. reflexivity. Qed.

(** The odd multiples. *)
Lemma ge_Bi_is j t : ge_Bi !! j = Some t -> precomp_is t ((2 * Z.of_nat j + 1) ⊙ base).
Proof.
  intros Hj. rewrite Z.mul_comm, Z.add_1_r, gmul_succ, gmul_mul.
  apply (precomp_row_is ge_Bi base_triple (tadd base_triple base_triple) base (2 ⊙ base) j t);
    [apply base_tripled | apply (tmul_points 2), base_tripled | vm_compute; reflexivity | done].
Qed.
