(* ===== verification/GroupOps.v ===== *)
(** Points of the curve: sums, doubles and changes of representation.

    The straight-line functions [ge_*] of crypto-ops.c on the representations of
    [CurveData], every step a checked operation of [FieldOps]. Each is proved to
    compute the group operation of [Curve25519] on the points that its arguments
    stand for, without overflow and within the bounds that its callers need. *)
From Stdlib Require Import Zmod Field.
From stdpp Require Import base list numbers.
From S2P Require Import Prelude Limbs FieldOps CurveData Primality Groups Edwards Curve25519.
Open Scope Z_scope.

(** ** The operations *)

(** Source: src/src/crypto/crypto-ops.c:1127-1140 (ge_add) *)
Definition ge_add (p : ge_p3) (q : ge_cached) : outcome ge_p1p1 :=
  X ← fe_add (p3_Y p) (p3_X p);
  Y ← fe_sub (p3_Y p) (p3_X p);
  Z ← fe_mul X (YplusX q);
  Y ← fe_mul Y (YminusX q);
  T ← fe_mul (T2d q) (p3_T p);
  X ← fe_mul (p3_Z p) (cached_Z q);
  t0 ← fe_add X X;
  X ← fe_sub Z Y;
  Y ← fe_add Z Y;
  Z ← fe_add t0 T;
  T ← fe_sub t0 T;
  Ok (Ge_p1p1 X Y Z T).

(** Source: src/src/crypto/crypto-ops.c:1738-1751 (ge_sub) *)
Definition ge_sub (p : ge_p3) (q : ge_cached) : outcome ge_p1p1 :=
  X ← fe_add (p3_Y p) (p3_X p);
  Y ← fe_sub (p3_Y p) (p3_X p);
  Z ← fe_mul X (YminusX q);
  Y ← fe_mul Y (YplusX q);
  T ← fe_mul (T2d q) (p3_T p);
  X ← fe_mul (p3_Z p) (cached_Z q);
  t0 ← fe_add X X;
  X ← fe_sub Z Y;
  Y ← fe_add Z Y;
  Z ← fe_sub t0 T;
  T ← fe_add t0 T;
  Ok (Ge_p1p1 X Y Z T).

(** Source: src/src/crypto/crypto-ops.c:1483-1495 (ge_madd) *)
Definition ge_madd (p : ge_p3) (q : ge_precomp) : outcome ge_p1p1 :=
  X ← fe_add (p3_Y p) (p3_X p);
  Y ← fe_sub (p3_Y p) (p3_X p);
  Z ← fe_mul X (yplusx q);
  Y ← fe_mul Y (yminusx q);
  T ← fe_mul (xy2d q) (p3_T p);
  t0 ← fe_add (p3_Z p) (p3_Z p);
  X ← fe_sub Z Y;
  Y ← fe_add Z Y;
  Z ← fe_add t0 T;
  T ← fe_sub t0 T;
  Ok (Ge_p1p1 X Y Z T).

(** Source: src/src/crypto/crypto-ops.c:1503-1515 (ge_msub) *)
Definition ge_msub (p : ge_p3) (q : ge_precomp) : outcome ge_p1p1 :=
  X ← fe_add (p3_Y p) (p3_X p);
  Y ← fe_sub (p3_Y p) (p3_X p);
  Z ← fe_mul X (yminusx q);
  Y ← fe_mul Y (yplusx q);
  T ← fe_mul (xy2d q) (p3_T p);
  t0 ← fe_add (p3_Z p) (p3_Z p);
  X ← fe_sub Z Y;
  Y ← fe_add Z Y;
  Z ← fe_sub t0 T;
  T ← fe_add t0 T;
  Ok (Ge_p1p1 X Y Z T).

(** Source: src/src/crypto/crypto-ops.c:1523-1527 (ge_p1p1_to_p2) *)
Definition ge_p1p1_to_p2 (p : ge_p1p1) : outcome ge_p2 :=
  X ← fe_mul (p1p1_X p) (p1p1_T p);
  Y ← fe_mul (p1p1_Y p) (p1p1_Z p);
  Z ← fe_mul (p1p1_Z p) (p1p1_T p);
  Ok (Ge_p2 X Y Z).

(** Source: src/src/crypto/crypto-ops.c:1535-1540 (ge_p1p1_to_p3) *)
Definition ge_p1p1_to_p3 (p : ge_p1p1) : outcome ge_p3 :=
  X ← fe_mul (p1p1_X p) (p1p1_T p);
  Y ← fe_mul (p1p1_Y p) (p1p1_Z p);
  Z ← fe_mul (p1p1_Z p) (p1p1_T p);
  T ← fe_mul (p1p1_X p) (p1p1_Y p);
  Ok (Ge_p3 X Y Z T).

(** Source: src/src/crypto/crypto-ops.c:1544-1548 (ge_p2_0) *)
Definition ge_p2_0 : ge_p2 := Ge_p2 fe_0 fe_1 fe_1.

(** Source: src/src/crypto/crypto-ops.c:1556-1567 (ge_p2_dbl) *)
Definition ge_p2_dbl (p : ge_p2) : outcome ge_p1p1 :=
  X ← fe_sq (p2_X p);
  Z ← fe_sq (p2_Y p);
  T ← fe_sq2 (p2_Z p);
  Y ← fe_add (p2_X p) (p2_Y p);
  t0 ← fe_sq Y;
  Y ← fe_add Z X;
  Z ← fe_sub Z X;
  X ← fe_sub t0 Y;
  T ← fe_sub T Z;
  Ok (Ge_p1p1 X Y Z T).

(** Source: src/src/crypto/crypto-ops.c:1571-1576 (ge_p3_0) *)
Definition ge_p3_0 : ge_p3 := Ge_p3 fe_0 fe_1 fe_1 fe_0.

(** Source: src/src/crypto/crypto-ops.c:1609-1613 (ge_p3_to_p2) *)
Definition ge_p3_to_p2 (p : ge_p3) : ge_p2 := Ge_p2 (fe_copy (p3_X p)) (fe_copy (p3_Y p)) (fe_copy (p3_Z p)).

(** Source: src/src/crypto/crypto-ops.c:1584-1588 (ge_p3_dbl) *)
Definition ge_p3_dbl (p : ge_p3) : outcome ge_p1p1 := ge_p2_dbl (ge_p3_to_p2 p).

(** Source: src/src/crypto/crypto-ops.c:1596-1601 (ge_p3_to_cached) *)
Definition ge_p3_to_cached (p : ge_p3) : outcome ge_cached :=
  s ← fe_add (p3_Y p) (p3_X p);
  m ← fe_sub (p3_Y p) (p3_X p);
  t ← fe_mul (p3_T p) fe_d2;
  Ok (Ge_cached s m (fe_copy (p3_Z p)) t).

(** Source: src/src/crypto/crypto-ops.c:1631-1635 (ge_precomp_0) *)
Definition ge_precomp_0 : ge_precomp := Ge_precomp fe_1 fe_1 fe_0.

(** Source: src/src/crypto/crypto-ops.c:2074-2079 (ge_cached_0) *)
Definition ge_cached_0 : ge_cached := Ge_cached fe_1 fe_1 fe_1 fe_0.

(** Source: src/src/crypto/crypto-ops.c:1655-1659 (ge_precomp_cmov) *)
Definition ge_precomp_cmov (t u : ge_precomp) (b : Z) : ge_precomp :=
  Ge_precomp (fe_cmov (yplusx t) (yplusx u) b) (fe_cmov (yminusx t) (yminusx u) b) (fe_cmov (xy2d t) (xy2d u) b).

(** Source: src/src/crypto/crypto-ops.c:2081-2086 (ge_cached_cmov) *)
Definition ge_cached_cmov (t u : ge_cached) (b : Z) : ge_cached :=
  Ge_cached (fe_cmov (YplusX t) (YplusX u) b) (fe_cmov (YminusX t) (YminusX u) b)
    (fe_cmov (cached_Z t) (cached_Z u) b) (fe_cmov (T2d t) (T2d u) b).

(** Source: src/src/crypto/crypto-ops.c:2302-2309 (ge_mul8) *)
Definition ge_mul8 (t : ge_p2) : outcome ge_p1p1 :=
  r ← ge_p2_dbl t;
  u ← ge_p1p1_to_p2 r;
  r ← ge_p2_dbl u;
  u ← ge_p1p1_to_p2 r;
  ge_p2_dbl u.

(** Source: src/src/crypto/crypto-ops.c:1176-1188 (ge_dsm_precomp) *)
Fixpoint dsm_multiples (n : nat) (s2 : ge_p3) (r : ge_cached) : outcome (list ge_cached) :=
  match n with
  | O => Ok []
  | S n =>
    t ← ge_add s2 r;
    u ← ge_p1p1_to_p3 t;
    r' ← ge_p3_to_cached u;
    rest ← dsm_multiples n s2 r';
    Ok (r' :: rest)
  end.

(** [s], [3 s], ..., [15 s].
    Source: src/src/crypto/crypto-ops.c:1176-1188 (ge_dsm_precomp) *)
Definition ge_dsm_precomp (s : ge_p3) : outcome (list ge_cached) :=
  r0 ← ge_p3_to_cached s;
  t ← ge_p3_dbl s;
  s2 ← ge_p1p1_to_p3 t;
  rest ← dsm_multiples 7 s2 r0;
  Ok (r0 :: rest).

(** Compares limbs, not values.
    Source: src/src/crypto/crypto-ops.c:3852-3863 (ge_p3_is_point_at_infinity) *)
Fixpoint limbs_at_infinity (X Y Z T : list Z) : bool :=
  match X, Y, Z, T with
  | x :: X, y :: Y, z :: Z, t :: T =>
    if negb (Z.lor x t =? 0) then false else if negb (y =? z) then false else limbs_at_infinity X Y Z T
  | _, _, _, _ => true
  end.

(** Source: src/src/crypto/crypto-ops.c:3852-3863 (ge_p3_is_point_at_infinity) *)
Definition ge_p3_is_point_at_infinity (p : ge_p3) : bool := limbs_at_infinity (p3_X p) (p3_Y p) (p3_Z p) (p3_T p).

(** ** Field operations over the field of the curve *)

Lemma FF_F k f x y : F k f x -> fp x = y -> FF k f y.
Proof. intros H <-. unfold FF. unfold fp. rewrite Zmod.to_Z_of_Z. eapply F_proper; [| exact H]. unfold fe_eq. by apply Z.mod_mod. Qed.

Lemma FF_weaken {k k' f x y} : FF k f x -> 0 <= k <= k' -> x = y -> FF k' f y.
Proof. intros H Hk <-. by apply (F_weaken k). Qed.

Section Steps.
Context {k1 k2 : Z} {f g : fe} {x y : Fp} (Hf : FF k1 f x) (Hg : FF k2 g y).

Lemma fe_mul_FF : 0 <= k1 <= 330 -> 0 <= k2 <= 330 -> exists h, fe_mul f g = Ok h /\ FF 101 h (x * y)%fp.
Proof using Hf Hg.
  intros H1 H2. destruct (fe_mul_F Hf Hg H1 H2) as (h & E & Hh). exists h. split; [done |]. eapply FF_F; [exact Hh |].
  unfold fp. by rewrite Zmod.of_Z_mul, !Zmod.of_Z_to_Z.
Qed.

Lemma fe_sq_FF : 0 <= k1 <= 330 -> exists h, fe_sq f = Ok h /\ FF 101 h (x * x)%fp.
Proof using Hf.
  intros H1. destruct (fe_sq_F Hf H1) as (h & E & Hh). exists h. split; [done |]. eapply FF_F; [exact Hh |].
  unfold fp. by rewrite Zmod.of_Z_mul, !Zmod.of_Z_to_Z.
Qed.

Lemma fe_sq2_FF : 0 <= k1 <= 330 -> exists h, fe_sq2 f = Ok h /\ FF 101 h (x * x + x * x)%fp.
Proof using Hf.
  intros H1. destruct (fe_sq2_F Hf H1) as (h & E & Hh). exists h. split; [done |]. eapply FF_F; [exact Hh |].
  unfold fp. replace (2 * (Zmod.to_Z x * Zmod.to_Z x))%Z with (Zmod.to_Z x * Zmod.to_Z x + Zmod.to_Z x * Zmod.to_Z x)%Z by lia.
  by rewrite Zmod.of_Z_add, Zmod.of_Z_mul, !Zmod.of_Z_to_Z.
Qed.

Lemma fe_add_FF : 0 <= k1 -> 0 <= k2 -> k1 + k2 <= 330 -> exists h, fe_add f g = Ok h /\ FF (k1 + k2) h (x + y)%fp.
Proof using Hf Hg.
  intros H1 H2 H3. destruct (fe_add_F Hf Hg H1 H2 H3) as (h & E & Hh). exists h. split; [done |]. eapply FF_F; [exact Hh |].
  unfold fp. by rewrite Zmod.of_Z_add, !Zmod.of_Z_to_Z.
Qed.

Lemma fe_sub_FF : 0 <= k1 -> 0 <= k2 -> k1 + k2 <= 330 -> exists h, fe_sub f g = Ok h /\ FF (k1 + k2) h (x - y)%fp.
Proof using Hf Hg.
  intros H1 H2 H3. destruct (fe_sub_F Hf Hg H1 H2 H3) as (h & E & Hh). exists h. split; [done |]. eapply FF_F; [exact Hh |].
  unfold fp. by rewrite Zmod.of_Z_sub, !Zmod.of_Z_to_Z.
Qed.

Lemma fe_neg_FF : 0 <= k1 <= 330 -> exists h, fe_neg f = Ok h /\ FF k1 h (- x)%fp.
Proof using Hf.
  intros H1. destruct (fe_neg_F Hf H1) as (h & E & Hh). exists h. split; [done |]. eapply FF_F; [exact Hh |].
  unfold fp. by rewrite Zmod.of_Z_opp, !Zmod.of_Z_to_Z.
Qed.
End Steps.

(** One step of a straight line of field operations. *)
Ltac fe_run lem :=
  let h := fresh "h" in let E := fresh "E" in let H := fresh "H" in
  destruct lem as (h & E & H); [literals.. |]; refine (exists_bind E _); clear E; cbv beta.

Ltac fe_step :=
  lazymatch goal with
  | |- exists _, mbind _ (fe_mul ?f ?g) = _ /\ _ =>
    match goal with H : FF _ f _, H' : FF _ g _ |- _ => fe_run (fe_mul_FF H H') | H : FF _ f _ |- _ => fe_run (fe_mul_FF H H) end
  | |- exists _, mbind _ (fe_add ?f ?g) = _ /\ _ =>
    match goal with H : FF _ f _, H' : FF _ g _ |- _ => fe_run (fe_add_FF H H') | H : FF _ f _ |- _ => fe_run (fe_add_FF H H) end
  | |- exists _, mbind _ (fe_sub ?f ?g) = _ /\ _ =>
    match goal with H : FF _ f _, H' : FF _ g _ |- _ => fe_run (fe_sub_FF H H') | H : FF _ f _ |- _ => fe_run (fe_sub_FF H H) end
  | |- exists _, mbind _ (fe_sq ?f) = _ /\ _ => match goal with H : FF _ f _ |- _ => fe_run (fe_sq_FF H) end
  | |- exists _, mbind _ (fe_sq2 ?f) = _ /\ _ => match goal with H : FF _ f _ |- _ => fe_run (fe_sq2_FF H) end
  | |- exists _, mbind _ (fe_neg ?f) = _ /\ _ => match goal with H : FF _ f _ |- _ => fe_run (fe_neg_FF H) end
  end.

(** A bound and a value from those of a step. *)
Ltac fe_done := match goal with H : FF _ ?f _ |- FF _ ?f _ => apply (FF_weaken H); [literals |] end.

(** ** What the representations stand for *)

Definition p2_is (a : ge_p2) (p : point) : Prop :=
  exists z, z <> 0%fp /\ FF 101 (p2_X a) ((coords p).1 * z)%fp /\ FF 203 (p2_Y a) ((coords p).2 * z)%fp /\ FF 203 (p2_Z a) z.

Definition p3_is (a : ge_p3) (p : point) : Prop :=
  exists z, z <> 0%fp /\ FF 101 (p3_X a) ((coords p).1 * z)%fp /\ FF 101 (p3_Y a) ((coords p).2 * z)%fp /\
    FF 101 (p3_Z a) z /\ FF 101 (p3_T a) ((coords p).1 * (coords p).2 * z)%fp.

Definition p1p1_is (a : ge_p1p1) (p : point) : Prop :=
  exists z t, z <> 0%fp /\ t <> 0%fp /\ FF 303 (p1p1_X a) ((coords p).1 * z)%fp /\ FF 303 (p1p1_Y a) ((coords p).2 * t)%fp /\
    FF 303 (p1p1_Z a) z /\ FF 303 (p1p1_T a) t.

Definition cached_is (a : ge_cached) (p : point) : Prop :=
  exists z, z <> 0%fp /\ FF 202 (YplusX a) (((coords p).2 + (coords p).1) * z)%fp /\
    FF 202 (YminusX a) (((coords p).2 - (coords p).1) * z)%fp /\ FF 101 (cached_Z a) z /\
    FF 101 (T2d a) ((coords p).1 * (coords p).2 * (d + d) * z)%fp.

(** The denominators of a sum, with a factor. *)
Lemma sum_denominators (p q : point) (z : Fp) : z <> 0%fp ->
  let e := (d * (coords p).1 * (coords q).1 * (coords p).2 * (coords q).2)%fp in
  (1 + e <> 0)%fp /\ (1 - e <> 0)%fp /\ ((1 + e) * z <> 0)%fp /\ ((1 - e) * z <> 0)%fp.
Proof.
  intros Hz e. destruct (denominators fp_field d sqrtm1 sqrtm1_square d_not_square fp_two _ _ (coords_valid p) (coords_valid q)) as [H1 H2].
  split_and!; auto using fp_mul_nonzero.
Qed.

Lemma fp_double_nonzero (z : Fp) : z <> 0%fp -> (z + z <> 0)%fp.
Proof. intros Hz. replace (z + z)%fp with ((1 + 1) * z)%fp by ring. apply fp_mul_nonzero; [apply fp_two | done]. Qed.

(** r = p + q *)
Lemma ge_add_is a b p q : p3_is a p -> cached_is b q -> exists r, ge_add a b = Ok r /\ p1p1_is r (p ⊕ q).
Proof.
  intros (z1 & Hz1 & X1 & Y1 & Z1 & T1) (z2 & Hz2 & YP & YM & Z2 & T2). unfold ge_add. repeat fe_step.
  eexists. split; [reflexivity |]. set (z := (z1 * z2 + z1 * z2)%fp).
  assert (Hz : z <> 0%fp) by by apply fp_double_nonzero, fp_mul_nonzero.
  destruct (sum_denominators p q z Hz) as (D1 & D2 & D3 & D4).
  eexists _, _. split; [exact D3 |]. split; [exact D4 |]. cbn [p1p1_X p1p1_Y p1p1_Z p1p1_T gadd point_group coords eadd fst snd].
  split_and!; fe_done; unfold z; field; done.
Qed.

(** r = p - q *)
Lemma ge_sub_is a b p q : p3_is a p -> cached_is b q -> exists r, ge_sub a b = Ok r /\ p1p1_is r (p ⊕ ⊖ q).
Proof.
  intros (z1 & Hz1 & X1 & Y1 & Z1 & T1) (z2 & Hz2 & YP & YM & Z2 & T2). unfold ge_sub. repeat fe_step.
  eexists. split; [reflexivity |]. set (z := (z1 * z2 + z1 * z2)%fp).
  assert (Hz : z <> 0%fp) by by apply fp_double_nonzero, fp_mul_nonzero.
  destruct (sum_denominators p (⊖ q) z Hz) as (D1 & D2 & D3 & D4).
  eexists _, _. split; [exact D3 |]. split; [exact D4 |].
  cbn [p1p1_X p1p1_Y p1p1_Z p1p1_T gadd gneg point_group coords eadd eneg fst snd] in *.
  split_and!; fe_done; unfold z; field; done.
Qed.

Lemma ge_madd_is a b p q : p3_is a p -> precomp_is b q -> exists r, ge_madd a b = Ok r /\ p1p1_is r (p ⊕ q).
Proof.
  intros (z1 & Hz1 & X1 & Y1 & Z1 & T1) (YP & YM & T2). unfold ge_madd. repeat fe_step.
  eexists. split; [reflexivity |]. set (z := (z1 + z1)%fp).
  assert (Hz : z <> 0%fp) by by apply fp_double_nonzero.
  destruct (sum_denominators p q z Hz) as (D1 & D2 & D3 & D4).
  eexists _, _. split; [exact D3 |]. split; [exact D4 |]. cbn [p1p1_X p1p1_Y p1p1_Z p1p1_T gadd point_group coords eadd fst snd].
  split_and!; fe_done; unfold z; field; done.
Qed.

Lemma ge_msub_is a b p q : p3_is a p -> precomp_is b q -> exists r, ge_msub a b = Ok r /\ p1p1_is r (p ⊕ ⊖ q).
Proof.
  intros (z1 & Hz1 & X1 & Y1 & Z1 & T1) (YP & YM & T2). unfold ge_msub. repeat fe_step.
  eexists. split; [reflexivity |]. set (z := (z1 + z1)%fp).
  assert (Hz : z <> 0%fp) by by apply fp_double_nonzero.
  destruct (sum_denominators p (⊖ q) z Hz) as (D1 & D2 & D3 & D4).
  eexists _, _. split; [exact D3 |]. split; [exact D4 |].
  cbn [p1p1_X p1p1_Y p1p1_Z p1p1_T gadd gneg point_group coords eadd eneg fst snd] in *.
  split_and!; fe_done; unfold z; field; done.
Qed.

(** r = p *)
Lemma ge_p1p1_to_p2_is a p : p1p1_is a p -> exists r, ge_p1p1_to_p2 a = Ok r /\ p2_is r p.
Proof.
  intros (z & t & Hz & Ht & X & Y & Z & T). unfold ge_p1p1_to_p2. repeat fe_step.
  eexists. split; [reflexivity |]. exists (z * t)%fp. cbn. split_and!; [by apply fp_mul_nonzero | fe_done; ring ..].
Qed.

Lemma ge_p1p1_to_p3_is a p : p1p1_is a p -> exists r, ge_p1p1_to_p3 a = Ok r /\ p3_is r p.
Proof.
  intros (z & t & Hz & Ht & X & Y & Z & T). unfold ge_p1p1_to_p3. repeat fe_step.
  eexists. split; [reflexivity |]. exists (z * t)%fp. cbn. split_and!; [by apply fp_mul_nonzero | fe_done; ring ..].
Qed.

Lemma ge_p3_to_p2_is a p : p3_is a p -> p2_is (ge_p3_to_p2 a) p.
Proof. intros (z & Hz & X & Y & Z & T). exists z. cbn. unfold fe_copy. split_and!; [done | fe_done; done ..]. Qed.

(** r = 2 * p *)
Lemma ge_p2_dbl_is a p : p2_is a p -> exists r, ge_p2_dbl a = Ok r /\ p1p1_is r (p ⊕ p).
Proof.
  intros (z & Hz & X & Y & Z). unfold ge_p2_dbl. repeat fe_step.
  eexists. split; [reflexivity |].
  destruct (sum_denominators p p (z * z)%fp ltac:(by apply fp_mul_nonzero)) as (D1 & D2 & D3 & D4).
  pose proof (curve_eq p) as C.
  eexists _, _. split; [exact D3 |]. split; [exact D4 |]. cbn [p1p1_X p1p1_Y p1p1_Z p1p1_T gadd point_group coords eadd fst snd].
  split_and!; fe_done; [field; done | field; done | ring [C] ..].
Qed.

Lemma ge_p3_dbl_is a p : p3_is a p -> exists r, ge_p3_dbl a = Ok r /\ p1p1_is r (p ⊕ p).
Proof. intros H. by apply ge_p2_dbl_is, ge_p3_to_p2_is. Qed.

Lemma fe_d2_FF : FF 101 fe_d2 (d + d)%fp.
Proof. apply FF_alt. split; [by apply all_in_within | by vm_compute]. Qed.

Lemma fe_0_FF k : 0 <= k -> FF k fe_0 0%fp.
Proof. intros Hk. apply FF_alt. split; [| by vm_compute]. unfold bnd, fe_0. repeat (constructor; [unfold inside; cbn; lia |]). constructor. Qed.

Lemma fe_1_FF k : 1 <= k -> FF k fe_1 1%fp.
Proof. intros Hk. apply FF_alt. split; [| by vm_compute]. unfold bnd, fe_1. repeat (constructor; [unfold inside; cbn; lia |]). constructor. Qed.

Lemma ge_p3_to_cached_is a p : p3_is a p -> exists r, ge_p3_to_cached a = Ok r /\ cached_is r p.
Proof.
  intros (z & Hz & X & Y & Z & T). pose proof fe_d2_FF. unfold ge_p3_to_cached. repeat fe_step.
  eexists. split; [reflexivity |]. exists z. cbn. unfold fe_copy. split_and!; [done | fe_done; ring ..].
Qed.

Lemma ge_p2_0_is : p2_is ge_p2_0 gzero.
Proof.
  exists 1%fp. cbn. split_and!; [by vm_compute | eapply FF_weaken; [by apply (fe_0_FF 1) | lia | ring] |
    eapply FF_weaken; [by apply (fe_1_FF 1) | lia | ring] ..].
Qed.

Lemma ge_p3_0_is : p3_is ge_p3_0 gzero.
Proof.
  exists 1%fp. cbn. split_and!; [by vm_compute | ..]; (eapply FF_weaken; [apply (fe_0_FF 1) || apply (fe_1_FF 1); done | lia | ring]).
Qed.

Lemma ge_precomp_0_is : precomp_is ge_precomp_0 gzero.
Proof. unfold precomp_is. cbn. split_and!; (eapply FF_weaken; [apply (fe_0_FF 1) || apply (fe_1_FF 1); done | lia | ring]). Qed.

Lemma ge_cached_0_is : cached_is ge_cached_0 gzero.
Proof.
  exists 1%fp. cbn. split_and!; [by vm_compute | ..]; (eapply FF_weaken; [apply (fe_0_FF 1) || apply (fe_1_FF 1); done | lia | ring]).
Qed.

(** A step through an operation on points. *)
Ltac ge_run lem :=
  let h := fresh "h" in let E := fresh "E" in let H := fresh "H" in
  destruct lem as (h & E & H); refine (exists_bind E _); clear E; cbv beta.

Lemma gmul_2 (p : point) : 2 ⊙ p = p ⊕ p.
Proof. done. Qed.

Lemma gmul_8 (p : point) : 8 ⊙ p = (p ⊕ p ⊕ (p ⊕ p)) ⊕ (p ⊕ p ⊕ (p ⊕ p)).
Proof. done. Qed.

Lemma ge_mul8_is a p : p2_is a p -> exists r, ge_mul8 a = Ok r /\ p1p1_is r (8 ⊙ p).
Proof.
  intros H. unfold ge_mul8. ge_run (ge_p2_dbl_is a p H). ge_run (ge_p1p1_to_p2_is _ _ H0). ge_run (ge_p2_dbl_is _ _ H1).
  ge_run (ge_p1p1_to_p2_is _ _ H2). rewrite gmul_8. by apply ge_p2_dbl_is.
Qed.

(** [tbl] holds [p], [3 p], [5 p], ... *)
Definition odd_multiples (tbl : list ge_cached) (p : point) : Prop :=
  length tbl = 8%nat /\ forall j c, tbl !! j = Some c -> cached_is c ((2 * Z.of_nat j + 1) ⊙ p).

Lemma dsm_multiples_is n s2 c p q : p3_is s2 q -> cached_is c p -> exists l, dsm_multiples n s2 c = Ok l /\
  length l = n /\ forall j c', l !! j = Some c' -> cached_is c' (p ⊕ (Z.of_nat j + 1) ⊙ q).
Proof.
  intros Hs. revert c p. induction n as [| n IH]; intros c p Hc; cbn [dsm_multiples]; [by exists [] |].
  ge_run (ge_add_is _ _ _ _ Hs Hc). ge_run (ge_p1p1_to_p3_is _ _ H). ge_run (ge_p3_to_cached_is _ _ H0).
  ge_run (IH _ _ H1). destruct H2 as [Hl H2]. eexists. split; [reflexivity |]. split; [cbn; by rewrite Hl |].
  intros [| j] c' Hj; cbn in Hj; [injection Hj as <-; rewrite gmul_1; by rewrite gadd_comm |].
  specialize (H2 j c' Hj). rewrite Nat2Z.inj_succ, Z.add_succ_l, gmul_succ, gadd_assoc, (gadd_comm p q). done.
Qed.

Lemma ge_dsm_precomp_is a p : p3_is a p -> exists l, ge_dsm_precomp a = Ok l /\ odd_multiples l p.
Proof.
  intros H. unfold ge_dsm_precomp. ge_run (ge_p3_to_cached_is _ _ H). ge_run (ge_p3_dbl_is _ _ H).
  ge_run (ge_p1p1_to_p3_is _ _ H1). ge_run (dsm_multiples_is 7 _ _ _ _ H2 H0). destruct H3 as [Hl H3].
  eexists. split; [reflexivity |]. split; [cbn; by rewrite Hl |]. intros [| j] c Hj; cbn in Hj; [by injection Hj as <- |].
  specialize (H3 j c Hj). rewrite <- gmul_2, <- gmul_mul in H3. rewrite <- (gmul_1 p) in H3 at 1. rewrite <- gmul_add in H3.
  replace (2 * Z.of_nat (S j) + 1)%Z with (1 + (Z.of_nat j + 1) * 2)%Z by lia. done.
Qed.
