(* ===== verification/PointCodec.v ===== *)
(** Points as bytes.

    [ge_tobytes], [ge_p3_tobytes] and [ge_frombytes_vartime] of crypto-ops.c. A
    point is encoded by its y coordinate and the parity of x; decoding accepts
    exactly the encodings of points, the canonical ones, and is the inverse. *)
From Stdlib Require Import Zmod Field.
From stdpp Require Import base list numbers.
From S2P Require Import Prelude Limbs ScalarOps FieldOps CurveData Primality Groups Edwards Curve25519 GroupOps.
Open Scope Z_scope.

(** ** The operations *)

(** Source: src/src/crypto/crypto-ops.c:1626-1626 (ge_p3_tobytes) *)
Definition set_sign (s : list Z) (neg : Z) : outcome (list Z) :=
  b ← at_or_undef (s !! 31%nat); Ok (<[31%nat := u8 (Z.lxor b (Z.shiftl neg 7))]> s).

(** Source: src/src/crypto/crypto-ops.c:1755-1765 (ge_tobytes) *)
Definition ge_tobytes (h : ge_p2) : outcome (list Z) :=
  recip ← fe_invert (p2_Z h);
  x ← fe_mul (p2_X h) recip;
  y ← fe_mul (p2_Y h) recip;
  s ← fe_tobytes y;
  neg ← fe_isnegative x;
  set_sign s neg.

(** Source: src/src/crypto/crypto-ops.c:1617-1627 (ge_p3_tobytes) *)
Definition ge_p3_tobytes (h : ge_p3) : outcome (list Z) :=
  recip ← fe_invert (p3_Z h);
  x ← fe_mul (p3_X h) recip;
  y ← fe_mul (p3_Y h) recip;
  s ← fe_tobytes y;
  neg ← fe_isnegative x;
  set_sign s neg.

(** Where the limbs are read: the number of bytes, the offset and the shift.
    Source: src/src/crypto/crypto-ops.c:1393-1402 (ge_frombytes_vartime) *)
Definition fe_loads : list (nat * nat * Z) :=
  [word 4 0 0; word 3 4 6; word 3 7 5; word 3 10 3; word 3 13 2; word 4 16 0; word 3 20 7; word 3 23 5; word 3 26 4].

(** Source: src/src/crypto/crypto-ops.c:1393-1402 (ge_frombytes_vartime) *)
Fixpoint load_shifted (s : list Z) (l : list (nat * nat * Z)) : outcome (list Z) :=
  match l with
  | [] => Ok []
  | (n, o, sh) :: l => x ← load_word s n o; r ← load_shifted s l; Ok (Z.shiftl x sh :: r)
  end.

(** The last limb loses the sign bit.
    Source: src/src/crypto/crypto-ops.c:1393-1402 (ge_frombytes_vartime) *)
Definition frombytes_limbs (s : list Z) : outcome (list Z) :=
  l ← load_shifted s fe_loads;
  x ← load_3 s 29;
  Ok (l ++ [Z.shiftl (Z.land x 8388607) 2]).

(** Limbs of a number that is not below the prime.
    Source: src/src/crypto/crypto-ops.c:1414-1419 (ge_frombytes_vartime) *)
Definition not_canonical (h : list Z) : bool :=
  match h with
  | [h0; h1; h2; h3; h4; h5; h6; h7; h8; h9] =>
    (h9 =? 33554428) && (h8 =? 268435440) && (h7 =? 536870880) && (h6 =? 2147483520) && (h5 =? 4294967295) &&
    (h4 =? 67108860) && (h3 =? 134217720) && (h2 =? 536870880) && (h1 =? 1073741760) && (4294967277 <=? h0)
  | _ => false
  end.

(** Source: src/src/crypto/crypto-ops.c:1421-1431 (ge_frombytes_vartime) *)
Definition frombytes_carries : list line :=
  [Round 9 25 0 19; Round 1 25 2 1; Round 3 25 4 1; Round 5 25 6 1; Round 7 25 8 1;
   Round 0 26 1 1; Round 2 26 3 1; Round 4 26 5 1; Round 6 26 7 1; Round 8 26 9 1].

(** The root of u / v, when it has one.
    Source: src/src/crypto/crypto-ops.c:1452-1463 (ge_frombytes_vartime) *)
Definition root_of_ratio (u v : fe) : outcome (option fe) :=
  X ← fe_divpowm1 u v;
  vxx ← fe_sq X;
  vxx ← fe_mul vxx v;
  check ← fe_sub vxx u;
  nz ← fe_isnonzero check;
  if nz =? 0 then Ok (Some X) else
  check ← fe_add vxx u;
  nz ← fe_isnonzero check;
  if negb (nz =? 0) then Ok None else
  X ← fe_mul X fe_sqrtm1;
  Ok (Some X).

(** The root with the parity that the encoding asks for.
    Source: src/src/crypto/crypto-ops.c:1465-1471 (ge_frombytes_vartime) *)
Definition root_with_sign (X : fe) (sign : Z) : outcome (option fe) :=
  neg ← fe_isnegative X;
  if negb (neg =? sign) then
    nz ← fe_isnonzero X;
    if nz =? 0 then Ok None else X ← fe_neg X; Ok (Some X)
  else Ok (Some X).

(** [None] is the result -1.
    Source: src/src/crypto/crypto-ops.c:1385-1475 (ge_frombytes_vartime) *)
Definition ge_frombytes_vartime (s : list Z) : outcome (option ge_p3) :=
  h ← frombytes_limbs s;
  if not_canonical h then Ok None else
  h ← run 64 frombytes_carries h;
  let Y := fe_narrow h in
  let Z := fe_1 in
  u ← fe_sq Y;
  v ← fe_mul u fe_d;
  u ← fe_sub u Z;
  v ← fe_add v Z;
  root ← root_of_ratio u v;
  match root with
  | None => Ok None
  | Some X =>
    b ← at_or_undef (s !! 31%nat);
    root ← root_with_sign X (Z.shiftr b 7);
    match root with
    | None => Ok None
    | Some X => T ← fe_mul X Y; Ok (Some (Ge_p3 X Y Z T))
    end
  end.

(** ** Values *)

Lemma fe_tobytes_FF {k f x} : FF k f x -> 0 <= k <= 220 -> fe_tobytes f = Ok (le_encode 32 (Zmod.to_Z x)).
Proof. intros H Hk. rewrite (fe_tobytes_F k f _ H Hk). by rewrite Zmod.mod_to_Z. Qed.

Lemma fe_isnegative_FF {k f x} : FF k f x -> 0 <= k <= 220 -> fe_isnegative f = Ok (Zmod.to_Z x mod 2).
Proof. intros H Hk. rewrite (fe_isnegative_F k f _ H Hk). by rewrite Zmod.mod_to_Z. Qed.

Lemma fe_isnonzero_FF {k f x} : FF k f x -> 0 <= k <= 220 -> fe_isnonzero f = Ok (if decide (x = 0%fp) then 0 else 1).
Proof.
  intros H Hk. rewrite (fe_isnonzero_F k f _ H Hk), Zmod.mod_to_Z. f_equal. destruct (decide (x = 0%fp)) as [-> | Hx]; [done |].
  apply Zmod.to_Z_nz, Z.eqb_neq in Hx. by rewrite Hx.
Qed.

Lemma fe_invert_FF {k f x} : FF k f x -> 0 <= k <= 330 -> x <> 0%fp -> exists h, fe_invert f = Ok h /\ FF 101 h (Zmod.inv x).
Proof.
  intros H Hk Hx. destruct (fe_invert_F k f _ H Hk) as (h & E & Hh). exists h. split; [done |]. eapply FF_F; [exact Hh |].
  rewrite <- (Zmod.fermat_inv x Hx fe_prime_prime). unfold fp. by rewrite Zmod.of_Z_pow, Zmod.of_Z_to_Z by done.
Qed.

Lemma fe_divpowm1_FF {k1 k2 u v x y} : FF k1 u x -> FF k2 v y -> 0 <= k1 <= 330 -> 0 <= k2 <= 330 ->
  exists r, fe_divpowm1 u v = Ok r /\ FF 101 r (Zmod.pow (x * Zmod.pow y 7) (2 ^ 252 - 3) * Zmod.pow y 3 * x)%fp.
Proof.
  intros Hu Hv H1 H2. destruct (fe_divpowm1_F k1 k2 u v _ _ Hu Hv H1 H2) as (r & E & Hr). exists r. split; [done |].
  eapply FF_F; [exact Hr |]. unfold fp. by rewrite !Zmod.of_Z_mul, Zmod.of_Z_pow, Zmod.of_Z_mul, !Zmod.of_Z_pow, !Zmod.of_Z_to_Z by done.
Qed.

(** ** Encoding *)

Definition encode (p : point) : list Z :=
  le_encode 32 (Zmod.to_Z (coords p).2 + 2 ^ 255 * (Zmod.to_Z (coords p).1 mod 2)).

Lemma le_bytes_insert s i b b' : s !! i = Some b -> le_bytes (<[i := b']> s) = le_bytes s + 256 ^ Z.of_nat i * (b' - b).
Proof.
  revert i. induction s as [| x s IH]; intros i Hi; [done |]. destruct i as [| i].
  - injection Hi as ->. cbn. lia.
  - rewrite Nat2Z.inj_succ, Z.pow_succ_r by lia. 
    change (le_bytes (<[S i := b']> (x :: s))) with (x + 256 * le_bytes (<[i := b']> s)). rewrite (IH i Hi). cbn [le_bytes]. lia.
Qed.

Lemma flip_sign_bit b n : 0 <= b < 128 -> 0 <= n < 2 -> u8 (Z.lxor b (Z.shiftl n 7)) = b + 128 * n.
Proof.
  intros Hb Hn. assert (n = 0 \/ n = 1) as [-> | ->] by lia; [rewrite Z.lxor_0_r; unfold wrap; rewrite Z.mod_small by (cbn; lia); lia |].
  change (Z.shiftl 1 7) with 128. revert b Hb.
  assert (H : forallb (fun b => u8 (Z.lxor (Z.of_nat b) 128) =? Z.of_nat b + 128) (seq 0 128) = true) by by vm_compute.
  intros b Hb. rewrite forallb_forall in H. specialize (H (Z.to_nat b)). rewrite Z2Nat.id, Z.eqb_eq in H by lia.
  rewrite H by (apply in_seq; lia). lia.
Qed.

Lemma set_sign_encode y n : 0 <= y < 2 ^ 255 -> 0 <= n < 2 -> set_sign (le_encode 32 y) n = Ok (le_encode 32 (y + 2 ^ 255 * n)).
Proof.
  intros Hy Hn. pose proof (le_encode_length 32 y) as Hl. pose proof (le_encode_bytes 32 y) as Hb. pose proof (le_bytes_encode 32 y ltac:(cbn; lia)) as Hv.
  destruct (lookup_lt_is_Some_2 (le_encode 32 y) 31) as [b Eb]; [lia |]. unfold set_sign. rewrite Eb. simpl_bind. f_equal.
  assert (Hb31 : 0 <= b < 128).
  { assert (b = y / 2 ^ 248) as ->; [| div_lia]. assert (Hdec : y = y mod 2 ^ 248 + 2 ^ 248 * (y / 2 ^ 248)) by div_lia.
    assert (E31 : le_encode 32 y !! 31%nat = Some ((y / 2 ^ 248) mod 256)).
    { clear. cbn [le_encode lookup list_lookup]. rewrite !Z.div_div by lia. done. }
    rewrite Eb in E31. injection E31 as ->. apply Z.mod_small. div_lia. }
  assert (Hins : bytes (<[31%nat := u8 (Z.lxor b (Z.shiftl n 7))]> (le_encode 32 y))).
  { apply Forall_insert; [done |]. rewrite flip_sign_bit by done. unfold in_u. cbn. lia. }
  rewrite <- (le_encode_value _ Hins) at 1. rewrite length_insert, Hl. f_equal.
  rewrite (le_bytes_insert _ _ _ _ Eb), Hv, flip_sign_bit by done. change (256 ^ Z.of_nat 31) with (2 ^ 248). lia.
Qed.

Lemma fp_parity (x : Fp) : 0 <= Zmod.to_Z x mod 2 < 2.
Proof. apply Z.mod_pos_bound. lia. Qed.

Lemma affine_FF (x z : Fp) : z <> 0%fp -> (x * z * Zmod.inv z)%fp = x.
Proof. intros Hz. field. done. Qed.

Lemma ge_tobytes_is a p : p2_is a p -> ge_tobytes a = Ok (encode p).
Proof.
  intros (z & Hz & X & Y & Z). unfold ge_tobytes. destruct (fe_invert_FF Z ltac:(literals) Hz) as (r & E & R). bind_with E. clear E.
  destruct (fe_mul_FF X R) as (x & E & Hx); [literals.. |]. bind_with E. clear E.
  destruct (fe_mul_FF Y R) as (y & E & Hy); [literals.. |]. bind_with E. clear E.
  rewrite affine_FF in Hx, Hy by done. bind_with (fe_tobytes_FF Hy ltac:(literals)). bind_with (fe_isnegative_FF Hx ltac:(literals)).
  apply set_sign_encode; [| apply fp_parity]. pose proof (fp_range (coords p).2). unfold fe_prime in *. lia.
Qed.

Lemma ge_p3_tobytes_is a p : p3_is a p -> ge_p3_tobytes a = Ok (encode p).
Proof. intros H. exact (ge_tobytes_is _ _ (ge_p3_to_p2_is _ _ H)). Qed.

(** ** Decoding: the y coordinate *)

Lemma slice_peel x a n b : b = a + n -> 0 <= a -> 0 <= n -> x / 2 ^ a = slice x a n + 2 ^ n * (x / 2 ^ b).
Proof. intros -> Ha Hn. unfold slice. rewrite Z.pow_add_r, <- Z.div_div by lia. pose proof (Z.div_mod (x / 2 ^ a) (2 ^ n) ltac:(lia)). lia. Qed.

Lemma slice_range x a n : 0 <= n -> 0 <= slice x a n < 2 ^ n.
Proof. intros Hn. apply Z.mod_pos_bound. lia. Qed.

(** The pieces that the limbs are read from, the last one of [m] bits. *)
Definition chunks (m x : Z) : list Z :=
  [slice x 0 32; slice x 32 24; slice x 56 24; slice x 80 24; slice x 104 24; slice x 128 32; slice x 160 24; slice x 184 24; slice x 208 24; slice x 232 m].

Definition chunk_limbs (c : list Z) : list Z := zip_with Z.mul c [1; 64; 32; 8; 4; 1; 128; 32; 16; 4].

Lemma frombytes_limbs_chunks s : bytes s -> length s = 32%nat -> frombytes_limbs s = Ok (chunk_limbs (chunks 23 (le_bytes s))).
Proof.
  intros Hb Hl. unfold frombytes_limbs, fe_loads, word. cbn [load_shifted].
  rewrite !load_word_slice by (try done; try (by left); try (by right); rewrite Hl; lia). simpl_bind.
  rewrite load_3_slice by (try done; rewrite Hl; lia). simpl_bind. f_equal.
  change 8388607 with (2 ^ 23 - 1). rewrite land_mask by lia. rewrite !Z.shiftl_mul_pow2 by lia.
  unfold chunk_limbs, chunks. cbn [zip_with app Z.of_nat Pos.of_succ_nat Pos.succ Z.mul Pos.mul Pos.add].
  assert (E : slice (le_bytes s) 232 24 mod 2 ^ 23 = slice (le_bytes s) 232 23).
  { unfold slice. change (2 ^ 24) with (2 ^ 23 * 2). rewrite Z.rem_mul_r by lia. rewrite Z.mul_comm, Z.mod_add, Z.mod_mod by lia. done. }
  unfold wrap. change (8 * Z.of_nat 29) with 232. rewrite E. repeat (f_equal; try reflexivity).
Qed.

(** The bits of the encoding below the sign. *)
Lemma chunks_value m x : 0 <= x -> 0 <= m <= 24 -> fe_value (chunk_limbs (chunks m x)) = x mod 2 ^ (232 + m).
Proof.
  intros Hx Hm. unfold fe_value, fe_weights, chunk_limbs, chunks. cbn [zip_with value].
  pose proof (slice_peel x 0 32 32 eq_refl ltac:(lia) ltac:(lia)) as P0. pose proof (slice_peel x 32 24 56 eq_refl ltac:(lia) ltac:(lia)) as P1.
  pose proof (slice_peel x 56 24 80 eq_refl ltac:(lia) ltac:(lia)) as P2. pose proof (slice_peel x 80 24 104 eq_refl ltac:(lia) ltac:(lia)) as P3.
  pose proof (slice_peel x 104 24 128 eq_refl ltac:(lia) ltac:(lia)) as P4. pose proof (slice_peel x 128 32 160 eq_refl ltac:(lia) ltac:(lia)) as P5.
  pose proof (slice_peel x 160 24 184 eq_refl ltac:(lia) ltac:(lia)) as P6. pose proof (slice_peel x 184 24 208 eq_refl ltac:(lia) ltac:(lia)) as P7.
  pose proof (slice_peel x 208 24 232 eq_refl ltac:(lia) ltac:(lia)) as P8. pose proof (slice_peel x 232 m (232 + m) eq_refl ltac:(lia) ltac:(lia)) as P9.
  pose proof (slice_range x 0 32 ltac:(lia)). pose proof (slice_range x 32 24 ltac:(lia)). pose proof (slice_range x 56 24 ltac:(lia)).
  pose proof (slice_range x 80 24 ltac:(lia)). pose proof (slice_range x 104 24 ltac:(lia)). pose proof (slice_range x 128 32 ltac:(lia)).
  pose proof (slice_range x 160 24 ltac:(lia)). pose proof (slice_range x 184 24 ltac:(lia)). pose proof (slice_range x 208 24 ltac:(lia)).
  pose proof (slice_range x 232 m ltac:(lia)). change (2 ^ 0) with 1 in P0. rewrite Z.div_1_r in P0. rewrite Z.pow_add_r in * by lia.
  apply (Z.mod_unique_pos _ _ (x / (2 ^ 232 * 2 ^ m))); nia.
Qed.

(** Limbs as they are read. *)
Definition load_intervals : list itv :=
  [(0, 2 ^ 32 - 1); (0, 64 * (2 ^ 24 - 1)); (0, 32 * (2 ^ 24 - 1)); (0, 8 * (2 ^ 24 - 1)); (0, 4 * (2 ^ 24 - 1));
   (0, 2 ^ 32 - 1); (0, 128 * (2 ^ 24 - 1)); (0, 32 * (2 ^ 24 - 1)); (0, 16 * (2 ^ 24 - 1)); (0, 4 * (2 ^ 24 - 1))].

Lemma chunks_within m x : 0 <= m <= 24 -> within load_intervals (chunk_limbs (chunks m x)).
Proof.
  intros Hm. assert (2 ^ m <= 2 ^ 24) by (apply Z.pow_le_mono_r; lia). unfold chunks, chunk_limbs, load_intervals. cbn [zip_with].
  repeat (constructor; [match goal with |- inside _ (slice x ?a ?n * _) => pose proof (slice_range x a n ltac:(lia)) end;
    unfold inside; cbn [fst snd]; lia |]). constructor.
Qed.

Lemma not_canonical_value x : 0 <= x -> not_canonical (chunk_limbs (chunks 23 x)) = (fe_prime <=? x mod 2 ^ 255).
Proof.
  intros Hx. change 255 with (232 + 23). rewrite <- (chunks_value 23 x Hx) by lia. unfold fe_value, fe_weights, chunk_limbs, chunks, not_canonical, fe_prime. cbn [zip_with value].
  pose proof (slice_range x 0 32 ltac:(lia)). pose proof (slice_range x 32 24 ltac:(lia)). pose proof (slice_range x 56 24 ltac:(lia)).
  pose proof (slice_range x 80 24 ltac:(lia)). pose proof (slice_range x 104 24 ltac:(lia)). pose proof (slice_range x 128 32 ltac:(lia)).
  pose proof (slice_range x 160 24 ltac:(lia)). pose proof (slice_range x 184 24 ltac:(lia)). pose proof (slice_range x 208 24 ltac:(lia)).
  pose proof (slice_range x 232 23 ltac:(lia)). apply eq_true_iff_eq. rewrite !andb_true_iff, !Z.eqb_eq, !Z.leb_le. lia.
Qed.

(** Carried limbs have the value of the encoding. *)
Lemma frombytes_carried m x : 0 <= x -> 0 <= m <= 24 -> exists h, run 64 frombytes_carries (chunk_limbs (chunks m x)) = Ok h /\
  FF 101 (fe_narrow h) (fp (x mod 2 ^ (232 + m))).
Proof.
  intros Hx Hm. assert (EA : exists B, run_abs 64 frombytes_carries load_intervals = Some B /\ all_below B (bnd 101) = true)
    by (eexists; split; [vm_compute; reflexivity | by vm_compute]).
  destruct EA as (B & EA & HB). destruct (run_sound _ _ _ _ _ (chunks_within m x Hm) EA) as [E W].
  exists (exact frombytes_carries (chunk_limbs (chunks m x))). split; [done |]. pose proof (within_below _ _ _ W HB) as Ht.
  rewrite (narrow_within (bnd 101)) by done. apply FF_alt. split; [done |]. apply fp_eq. rewrite <- chunks_value by done.
  apply value_carries; [done | by vm_compute].
Qed.

(** ** Decoding: square roots *)

Lemma fp_pow_add (x : Fp) a b : 0 <= a -> 0 <= b -> Zmod.pow x (a + b) = (Zmod.pow x a * Zmod.pow x b)%fp.
Proof. apply Zmod.pow_add_r_nonneg. Qed.

Lemma pow_3 (y : Fp) : Zmod.pow y 3 = (y * y * y)%fp.
Proof. change 3 with (1 + 1 + 1). by rewrite !fp_pow_add, !Zmod.pow_1_r by lia. Qed.

Lemma pow_7 (y : Fp) : Zmod.pow y 7 = (y * y * y * y * y * y * y)%fp.
Proof. change 7 with (1 + 1 + 1 + 1 + 1 + 1 + 1). by rewrite !fp_pow_add, !Zmod.pow_1_r by lia. Qed.

(** The exponent (p - 1) / 4. *)
Definition quarter : Z := 2 ^ 253 - 5.

(** The candidate for the root of u / v. *)
Definition candidate (u v : Fp) : Fp := (Zmod.pow (u * Zmod.pow v 7) (2 ^ 252 - 3) * Zmod.pow v 3 * u)%fp.

Lemma candidate_square (u v : Fp) :
  (candidate u v * candidate u v * v = u * Zmod.pow (u * Zmod.pow v 7) quarter)%fp.
Proof.
  assert (E : Zmod.pow (u * Zmod.pow v 7) quarter =
    (u * Zmod.pow v 7 * (Zmod.pow (u * Zmod.pow v 7) (2 ^ 252 - 3) * Zmod.pow (u * Zmod.pow v 7) (2 ^ 252 - 3)))%fp).
  { replace quarter with (1 + ((2 ^ 252 - 3) + (2 ^ 252 - 3))) by done. by rewrite !fp_pow_add, Zmod.pow_1_r by done. }
  rewrite E. unfold candidate. rewrite pow_3, pow_7. ring.
Qed.

Lemma pow_quarter_root (w : Fp) : w <> 0%fp -> let q := Zmod.pow (w * w)%fp quarter in q = 1%fp \/ q = (- (1))%fp.
Proof.
  intros Hw q. assert (E : (q * q)%fp = 1%fp).
  { unfold q. rewrite Zmod.pow_mul_l_nonneg by done. rewrite <- (Zmod.fermat_nz w Hw fe_prime_prime).
    change (Z.pred fe_prime) with (quarter + quarter + (quarter + quarter)). rewrite !fp_pow_add by done. ring. }
  destruct (K_integral fp_field (q - 1)%fp (q + 1)%fp) as [H | H].
  - transitivity (q * q - 1)%fp; [ring | rewrite E; ring].
  - left. by apply (K_sub_eq fp_field).
  - right. apply (K_sub_eq fp_field). rewrite <- H. ring.
Qed.

(** When u / v is a square, the candidate or its product with a root of -1 is its root. *)
Lemma candidate_root (u v s : Fp) : v <> 0%fp -> (s * s * v)%fp = u ->
  (candidate u v * candidate u v * v)%fp = u \/ (candidate u v * candidate u v * v)%fp = (- u)%fp.
Proof.
  intros Hv Hs. rewrite candidate_square. destruct (decide (s = 0%fp)) as [-> | Hs0].
  { left. rewrite <- Hs. ring. }
  assert (E : (u * Zmod.pow v 7)%fp = ((s * (v * v * v * v)) * (s * (v * v * v * v)))%fp) by (rewrite pow_7, <- Hs; ring).
  rewrite E. destruct (pow_quarter_root (s * (v * v * v * v))%fp) as [-> | ->].
  - auto 8 using fp_mul_nonzero.
  - left. ring.
  - right. ring.
Qed.

Lemma fe_sqrtm1_FF : FF 101 fe_sqrtm1 sqrtm1.
Proof. apply FF_alt. split; [by apply all_in_within | by vm_compute]. Qed.

Lemma fe_d_FF : FF 101 fe_d d.
Proof. apply FF_alt. split; [by apply all_in_within | by vm_compute]. Qed.

Lemma fp_sub_zero (x y : Fp) : (x - y = 0)%fp <-> x = y.
Proof. apply Zmod.sub_eq_0_iff. Qed.

Lemma fp_add_zero (x y : Fp) : (x + y = 0)%fp <-> x = (- y)%fp.
Proof. split; [intros H; apply (K_sub_eq fp_field); rewrite <- H; ring | intros ->; ring]. Qed.

Lemma root_of_ratio_is k1 k2 u v x y : FF k1 u x -> FF k2 v y -> 0 <= k1 <= 119 -> 0 <= k2 <= 330 -> y <> 0%fp ->
  exists o, root_of_ratio u v = Ok o /\
    match o with Some r => exists X, FF 101 r X /\ (X * X * y)%fp = x | None => forall s, (s * s * y)%fp <> x end.
Proof.
  intros Hu Hv H1 H2 Hy. unfold root_of_ratio. pose proof fe_sqrtm1_FF as Hi.
  destruct (fe_divpowm1_FF Hu Hv ltac:(lia) H2) as (X & E & HX). refine (exists_bind E _); clear E; cbv beta.
  fold (candidate x y) in HX. set (c := candidate x y) in *.
  destruct (fe_sq_FF HX) as (t & E & Ht); [literals |]. refine (exists_bind E _); clear E; cbv beta.
  destruct (fe_mul_FF Ht Hv) as (vxx & E & Hx); [literals.. |]. refine (exists_bind E _); clear E; cbv beta.
  destruct (fe_sub_FF Hx Hu) as (m & E & Hm); [lia.. |]. refine (exists_bind E _); clear E; cbv beta.
  refine (exists_bind (fe_isnonzero_FF Hm ltac:(lia)) _); cbv beta.
  destruct (decide (c * c * y - x = 0)%fp) as [H0 | H0]; cbn [Z.eqb].
  { eexists. split; [reflexivity |]. exists c. split; [done |]. by apply fp_sub_zero. }
  destruct (fe_add_FF Hx Hu) as (a & E & Ha); [lia.. |]. refine (exists_bind E _); clear E; cbv beta.
  refine (exists_bind (fe_isnonzero_FF Ha ltac:(lia)) _); cbv beta.
  destruct (decide (c * c * y + x = 0)%fp) as [H3 | H3]; cbn [Z.eqb negb].
  - destruct (fe_mul_FF HX Hi) as (r & E & Hr); [literals.. |]. refine (exists_bind E _); clear E; cbv beta.
    eexists. split; [reflexivity |]. eexists. split; [exact Hr |]. apply fp_add_zero in H3.
    transitivity ((sqrtm1 * sqrtm1) * (c * c * y))%fp; [ring |]. rewrite H3, sqrtm1_square. ring.
  - eexists. split; [reflexivity |]. intros s Hs. rewrite fp_sub_zero, fp_add_zero in *.
    destruct (candidate_root x y s Hy Hs); contradiction.
Qed.

Lemma fp_opp_parity (x : Fp) : x <> 0%fp -> Zmod.to_Z (- x)%fp mod 2 = 1 - Zmod.to_Z x mod 2.
Proof.
  intros Hx. apply Zmod.to_Z_nz in Hx. pose proof (fp_range x) as Hr. rewrite Zmod.to_Z_opp.
  replace (- Zmod.to_Z x) with (fe_prime - Zmod.to_Z x + (-1) * fe_prime) by ring. rewrite Z.mod_add by done.
  rewrite (Z.mod_small (fe_prime - Zmod.to_Z x)) by lia. unfold fe_prime. div_lia.
Qed.

Lemma root_with_sign_is X x sign : FF 101 X x -> 0 <= sign < 2 -> exists o, root_with_sign X sign = Ok o /\
  match o with
  | Some r => exists x', FF 101 r x' /\ (x' = x \/ x' = (- x)%fp) /\ Zmod.to_Z x' mod 2 = sign
  | None => x = 0%fp /\ sign = 1
  end.
Proof.
  intros HX Hs. unfold root_with_sign. refine (exists_bind (fe_isnegative_FF HX ltac:(literals)) _); cbv beta.
  destruct (Z.eqb_spec (Zmod.to_Z x mod 2) sign) as [E | E]; cbn [negb].
  { eexists. split; [reflexivity |]. exists x. auto. }
  refine (exists_bind (fe_isnonzero_FF HX ltac:(literals)) _); cbv beta.
  destruct (decide (x = 0%fp)) as [-> | Hx]; cbn [Z.eqb].
  { eexists. split; [reflexivity |]. split; [done |]. change (Zmod.to_Z (0%fp : Fp) mod 2) with 0 in E. lia. }
  destruct (fe_neg_FF HX) as (r & Er & Hr); [literals |]. refine (exists_bind Er _); cbv beta.
  eexists. split; [reflexivity |]. exists (- x)%fp. split; [done |]. split; [by right |].
  rewrite fp_opp_parity by done. pose proof (fp_parity x). lia.
Qed.

(** ** Decoding *)

(** The denominator of x^2 = (y^2 - 1) / (d y^2 + 1) never vanishes. *)
Lemma ratio_denominator (y : Fp) : (y * y * d + 1 <> 0)%fp.
Proof.
  intros H. destruct (decide (y = 0%fp)) as [-> | Hy].
  - apply (F_1_neq_0 fp_field). rewrite <- H. ring.
  - apply (no_root fp_field d d_not_square y sqrtm1 Hy). rewrite sqrtm1_square. apply (K_sub_eq fp_field). rewrite <- H. ring.
Qed.

Lemma valid_ratio (x y : Fp) : valid (x, y) <-> (x * x * (y * y * d + 1) = y * y - 1)%fp.
Proof.
  unfold valid, on_curve. cbn [fst snd]. split; intros H.
  - transitivity (1 + d * x * x * y * y - 1 + x * x)%fp; [ring |]. rewrite <- H. ring.
  - transitivity ((y * y - 1) + 1 - x * x)%fp; [ring |]. rewrite <- H. ring.
Qed.

Lemma encode_value p : 0 <= Zmod.to_Z (coords p).2 < fe_prime /\
  le_bytes (encode p) = Zmod.to_Z (coords p).2 + 2 ^ 255 * (Zmod.to_Z (coords p).1 mod 2).
Proof.
  pose proof (fp_range (coords p).2) as Hy. pose proof (fp_parity (coords p).1) as Hx. split; [done |]. unfold encode.
  apply le_bytes_encode. change (256 ^ Z.of_nat 32) with (2 ^ 256). unfold fe_prime in *. lia.
Qed.

(** The two fields of an encoding. *)
Lemma encode_fields p : le_bytes (encode p) mod 2 ^ 255 = Zmod.to_Z (coords p).2 /\ le_bytes (encode p) / 2 ^ 255 = Zmod.to_Z (coords p).1 mod 2.
Proof.
  destruct (encode_value p) as [Hy ->]. assert (fe_prime < 2 ^ 255) by done. pose proof (fp_parity (coords p).1).
  set (n := Zmod.to_Z (coords p).1 mod 2) in *. set (y := Zmod.to_Z (coords p).2) in *. clearbody n y.
  split; symmetry; [apply (Z.mod_unique_pos _ _ n) | apply (Z.div_unique_pos _ _ _ y)]; lia.
Qed.

Lemma encode_from s p : bytes s -> length s = 32%nat -> le_bytes s mod 2 ^ 255 = Zmod.to_Z (coords p).2 ->
  le_bytes s / 2 ^ 255 = Zmod.to_Z (coords p).1 mod 2 -> encode p = s.
Proof.
  intros Hb Hl Hy Hx. rewrite <- (le_encode_value s Hb), Hl. unfold encode. f_equal. rewrite <- Hy, <- Hx.
  pose proof (Z.div_mod (le_bytes s) (2 ^ 255) ltac:(lia)). lia.
Qed.

(** An encoding determines the point. *)
Lemma encode_inj p q : encode p = encode q -> p = q.
Proof.
  intros E. destruct (encode_fields p) as [Yp Xp], (encode_fields q) as [Yq Xq]. rewrite E in Yp, Xp. rewrite Yp in Yq. rewrite Xp in Xq.
  apply Zmod.to_Z_inj in Yq. destruct p as [[x y] Hp], q as [[x' y'] Hq]. cbn [coords fst snd] in *. subst y'. apply point_eq. cbn. f_equal.
  pose proof (proj1 (valid_ratio x y) Hp) as Rp. pose proof (proj1 (valid_ratio x' y) Hq) as Rq. rewrite <- Rq in Rp. pose proof (ratio_denominator y) as Hd.
  destruct (K_integral fp_field (x - x')%fp (x + x')%fp) as [H | H].
  - transitivity ((x * x * (y * y * d + 1) - x' * x' * (y * y * d + 1)) / (y * y * d + 1))%fp; [field; done |]. rewrite Rp. field. done.
  - by apply (K_sub_eq fp_field).
  - apply fp_add_zero in H. destruct (decide (x' = 0%fp)) as [-> | Hx']; [rewrite H; ring |].
    rewrite H, fp_opp_parity in Xq by done. pose proof (fp_parity x'). lia.
Qed.

Lemma sign_byte s b : bytes s -> length s = 32%nat -> s !! 31%nat = Some b -> Z.shiftr b 7 = le_bytes s / 2 ^ 255 /\ 0 <= le_bytes s / 2 ^ 255 < 2.
Proof.
  intros Hb Hl H31. pose proof (le_bytes_range s Hb) as Hr. unfold zlen in Hr. rewrite Hl in Hr.
  assert (E : le_bytes s = le_bytes (take 31 s) + 256 ^ 31 * b).
  { rewrite <- (take_drop 31 s) at 1. rewrite (drop_S s b 31 H31), drop_ge, le_bytes_app by lia. unfold zlen.
    rewrite length_take_le by lia. cbn [le_bytes]. lia. }
  pose proof (le_bytes_range (take 31 s) (Forall_take _ _ _ Hb)) as Ht. unfold zlen in Ht. rewrite length_take_le in Ht by lia.
  rewrite shiftr_div, E by lia. change (256 ^ Z.of_nat 31) with (256 ^ 31) in Ht.
  assert (Hbb : 0 <= b < 256) by exact (Forall_lookup_1 _ _ _ _ Hb H31). split; [| rewrite E in Hr; change (256 ^ Z.of_nat 32) with (2 ^ 256) in Hr; div_lia].
  apply (Z.div_unique_pos _ _ _ (le_bytes (take 31 s) + 256 ^ 31 * (b mod 2 ^ 7))); div_lia.
Qed.

(** What [ge_frombytes_vartime] returns on 32 bytes: the point that they encode, or nothing when they encode none. *)
Lemma ge_frombytes_vartime_is s : bytes s -> length s = 32%nat -> exists o, ge_frombytes_vartime s = Ok o /\
  match o with Some h => exists p, p3_is h p /\ encode p = s | None => forall p, encode p <> s end.
Proof.
  intros Hb Hl. pose proof (le_bytes_range s Hb) as Hr. unfold ge_frombytes_vartime.
  refine (exists_bind (frombytes_limbs_chunks s Hb Hl) _); cbv beta. rewrite not_canonical_value by lia.
  destruct (Z.leb_spec fe_prime (le_bytes s mod 2 ^ 255)) as [Hc | Hc].
  { eexists. split; [reflexivity |]. intros p <-. destruct (encode_fields p) as [E _]. pose proof (fp_range (coords p).2). lia. }
  destruct (frombytes_carried 23 (le_bytes s) ltac:(lia) ltac:(lia)) as (h & E & HY). change (232 + 23) with 255 in HY. refine (exists_bind E _); clear E; cbv beta zeta.
  set (Y := fe_narrow h) in *. set (y := fp (le_bytes s mod 2 ^ 255)) in *.
  assert (Ey : Zmod.to_Z y = le_bytes s mod 2 ^ 255) by (apply fp_small; pose proof (Z.mod_pos_bound (le_bytes s) (2 ^ 255)); lia).
  pose proof fe_d_FF as Hd. pose proof (fe_1_FF 1 ltac:(lia)) as H1. do 4 fe_step.
  match goal with Hu : FF _ ?u (_ - _)%fp, Hv : FF _ ?v (_ + _)%fp |- exists _, mbind _ (root_of_ratio ?u ?v) = _ /\ _ =>
    destruct (root_of_ratio_is _ _ _ _ _ _ Hu Hv) as (o & E & Ho); [literals | literals | apply ratio_denominator |] end.
  refine (exists_bind E _); clear E; cbv beta. destruct o as [X |].
  2: { eexists. split; [reflexivity |]. intros p Ep. destruct (encode_fields p) as [Yp _]. rewrite Ep, <- Ey in Yp. apply Zmod.to_Z_inj in Yp.
       apply (Ho (coords p).1). rewrite Yp. destruct p as [[x' y'] Hp]. exact (proj1 (valid_ratio x' y') Hp). }
  destruct Ho as (x & HX & Hxx). destruct (lookup_lt_is_Some_2 s 31) as [b Eb]; [lia |]. rewrite Eb. simpl_bind.
  destruct (sign_byte s b Hb Hl Eb) as [-> Hs].
  destruct (root_with_sign_is X x _ HX Hs) as (o & E & Ho). refine (exists_bind E _); clear E; cbv beta. destruct o as [X' |].
  - destruct Ho as (x' & HX' & Hx' & Hpar). fe_step. eexists. split; [reflexivity |].
    assert (Hv : valid (x', y)) by (apply valid_ratio; rewrite <- Hxx; destruct Hx' as [-> | ->]; ring).
    exists (Point (x', y) Hv). split; [| by apply encode_from]. exists 1%fp. cbn [coords fst snd p3_X p3_Y p3_Z p3_T].
    split_and!; [by vm_compute | fe_done; ring ..].
  - destruct Ho as [-> Hsign]. eexists. split; [reflexivity |]. intros p Ep. destruct (encode_fields p) as [Yp Xp].
    rewrite Ep in Yp, Xp. rewrite Hsign in Xp. rewrite <- Ey in Yp. apply Zmod.to_Z_inj in Yp.
    assert (Hx0 : (coords p).1 = 0%fp); [| rewrite Hx0 in Xp; done].
    destruct p as [[x' y'] Hp]. cbn [coords fst snd] in *. subst y'. pose proof (proj1 (valid_ratio x' y) Hp) as Rp. rewrite <- Hxx in Rp.
    pose proof (ratio_denominator y) as Hdn. destruct (K_integral fp_field x' x') as [|]; [| done | done].
    transitivity (x' * x' * (y * y * d + 1) / (y * y * d + 1))%fp; [field; done |]. rewrite Rp. field. done.
Qed.

(** C18: [ge_frombytes_vartime] accepts exactly the encodings of the points of the curve: on 32 bytes it
    returns the point that they encode, whose encoding by [ge_p3_tobytes] is these bytes again, and
    refuses all other bytes (a y that is not below p, a y without an x, an odd zero). *)
Theorem point_encoding_exact s : bytes s -> length s = 32%nat ->
  exists o, ge_frombytes_vartime s = Ok o /\
    match o with
    | Some h => (exists p, p3_is h p /\ encode p = s) /\ ge_p3_tobytes h = Ok s
    | None => forall p, encode p <> s
    end.
Proof.
  intros Hb Hl. destruct (ge_frombytes_vartime_is s Hb Hl) as (o & E & Ho). exists o. split; [done |].
  destruct o as [h |]; [| done]. destruct Ho as (p & Hp & Es). split; [by exists p |].
  rewrite (ge_p3_tobytes_is h p Hp). by rewrite Es.
Qed.

(** The bytes of the base point. *)
Definition base_bytes : list Z := Eval vm_compute in encode base.

Lemma point_encoding_exact_witness : bytes base_bytes /\ length base_bytes = 32%nat /\
  exists o, ge_frombytes_vartime base_bytes = Ok o /\
    match o with
    | Some h => (exists p, p3_is h p /\ encode p = base_bytes) /\ ge_p3_tobytes h = Ok base_bytes
    | None => forall p, encode p <> base_bytes
    end.
Proof.
  assert (H : bytes base_bytes) by by_decide. split; [exact H |]. split; [reflexivity |].
  exact (point_encoding_exact base_bytes H eq_refl).
Defined.
