(* ===== verification/HashPoint.v ===== *)
(** From 32 bytes to a point.

    [ge_fromfe_frombytes_vartime] of crypto-ops.c, on which [hash_to_ec] rests:
    it sends every number of 256 bits to a point of the curve. The assertions of
    the function never fail; the block that is compiled in debug builds only,
    which asserts the curve equation again, is not part of the model. *)
From Stdlib Require Import Zmod Field.
From stdpp Require Import base list numbers.
From S2P Require Import Prelude Limbs ScalarOps FieldOps CurveData Primality Groups Edwards Curve25519 GroupOps PointCodec.
Open Scope Z_scope.

(** ** The function *)

(** All 256 bits are read.
    Source: src/src/crypto/crypto-ops.c:2317-2326 (ge_fromfe_frombytes_vartime) *)
Definition fromfe_limbs (s : list Z) : outcome (list Z) :=
  l ← load_shifted s fe_loads;
  x ← load_3 s 29;
  Ok (l ++ [Z.shiftl x 2]).

(** [assert(c)]: a build with assertions aborts when it fails. *)
Definition assert (c : bool) : outcome unit := if c then Ok tt else Undef.

(** The square root: the x coordinate up to its sign, the z of the formulas and the sign.
    Source: src/src/crypto/crypto-ops.c:2369-2399 (ge_fromfe_frombytes_vartime) *)
Definition fromfe_root (u v w x : fe) : outcome (fe * fe * Z) :=
  X ← fe_divpowm1 w x;
  y ← fe_sq X;
  x ← fe_mul y x;
  y ← fe_sub w x;
  let z := fe_copy fe_ma in
  let positive X := X ← fe_mul X u; z ← fe_mul z v; Ok (X, z, 0) in
  nz ← fe_isnonzero y;
  if negb (nz =? 0) then
    y ← fe_add w x;
    nz ← fe_isnonzero y;
    if negb (nz =? 0) then
      x ← fe_mul x fe_sqrtm1;
      y ← fe_sub w x;
      nz ← fe_isnonzero y;
      if negb (nz =? 0) then
        y ← fe_add w x;
        nz ← fe_isnonzero y;
        _ ← assert (nz =? 0);
        X ← fe_mul X fe_fffb3;
        Ok (X, z, 1)
      else
        X ← fe_mul X fe_fffb4;
        Ok (X, z, 1)
    else
      X ← fe_mul X fe_fffb1;
      positive X
  else
    X ← fe_mul X fe_fffb2;
    positive X.

(** Source: src/src/crypto/crypto-ops.c:2400-2404 (ge_fromfe_frombytes_vartime) *)
Definition fromfe_setsign (X : fe) (sign : Z) : outcome fe :=
  neg ← fe_isnegative X;
  if negb (neg =? sign) then
    nz ← fe_isnonzero X;
    _ ← assert (negb (nz =? 0));
    fe_neg X
  else Ok X.

(** Source: src/src/crypto/crypto-ops.c:2311-2425 (ge_fromfe_frombytes_vartime) *)
Definition ge_fromfe_frombytes_vartime (s : list Z) : outcome ge_p2 :=
  h ← fromfe_limbs s;
  h ← run 64 frombytes_carries h;
  let u := fe_narrow h in
  v ← fe_sq2 u;
  w ← fe_add v fe_1;
  x ← fe_sq w;
  y ← fe_mul fe_ma2 v;
  x ← fe_add x y;
  '(X, z, sign) ← fromfe_root u v w x;
  X ← fromfe_setsign X sign;
  Z ← fe_add z w;
  Y ← fe_sub z w;
  X ← fe_mul X Z;
  Ok (Ge_p2 X Y Z).

(** ** Its values *)

Definition A : Fp := Eval vm_compute in fp 486662.
Definition two : Fp := (1 + 1)%fp.

Lemma fe_ma_FF : FF 101 fe_ma (- A)%fp.
Proof. apply FF_alt. split; [by apply all_in_within | by vm_compute]. Qed.

Lemma fe_ma2_FF : FF 101 fe_ma2 (- (A * A))%fp.
Proof. apply FF_alt. split; [by apply all_in_within | by vm_compute]. Qed.

Lemma fffb_square f c : tight_limbs f = true -> (fp (fe_value f) * fp (fe_value f))%fp = c -> exists r : Fp, FF 101 f r /\ (r * r)%fp = c.
Proof. intros Hf Hc. exists (fp (fe_value f)). split; [| done]. apply FF_alt. split; [by apply all_in_within | done]. Qed.

Definition AA2 : Fp := (A * (A + two))%fp.

Lemma fe_fffb1_FF : exists r : Fp, FF 101 fe_fffb1 r /\ (r * r = - (two * AA2))%fp.
Proof. by apply fffb_square; vm_compute. Qed.
Lemma fe_fffb2_FF : exists r : Fp, FF 101 fe_fffb2 r /\ (r * r = two * AA2)%fp.
Proof. by apply fffb_square; vm_compute. Qed.
Lemma fe_fffb3_FF : exists r : Fp, FF 101 fe_fffb3 r /\ (r * r = - (sqrtm1 * AA2))%fp.
Proof. by apply fffb_square; vm_compute. Qed.
Lemma fe_fffb4_FF : exists r : Fp, FF 101 fe_fffb4 r /\ (r * r = sqrtm1 * AA2)%fp.
Proof. by apply fffb_square; vm_compute. Qed.

(** d = -(A - 2) / (A + 2) *)
Lemma A_d : ((A + two) * d = - (A - two))%fp.
Proof. by vm_compute. Qed.

Lemma A_nonzero : A <> 0%fp.
Proof. by vm_compute. Qed.

Lemma A2_nonzero : (A + two)%fp <> 0%fp.
Proof. by vm_compute. Qed.

Section Elligator.
Context (u : Fp).
Let v : Fp := (u * u + u * u)%fp.
Let w : Fp := (v + 1)%fp.
Let x0 : Fp := (w * w + - (A * A) * v)%fp.

Lemma w_nonzero : w <> 0%fp.
Proof.
  intros H. unfold w, v in H. destruct (decide (u = 0%fp)) as [-> | Hu].
  - apply (F_1_neq_0 fp_field). rewrite <- H. ring.
  - apply (no_root fp_field two two_not_square u sqrtm1 Hu). rewrite sqrtm1_square. apply (K_sub_eq fp_field). rewrite <- H. unfold two. ring.
Qed.

Lemma x0_nonzero : x0 <> 0%fp.
Proof.
  intros H. destruct (decide (u = 0%fp)) as [E | Hu].
  - destruct (K_integral fp_field w w) as [Hw | Hw]; [| by apply w_nonzero..].
    rewrite <- H. unfold x0, v. rewrite E. ring.
  - apply (no_root fp_field two two_not_square (A * u)%fp w); [by apply fp_mul_nonzero; [apply A_nonzero |] |].
    apply (K_sub_eq fp_field). transitivity (- x0)%fp; [unfold x0, v, two; ring | rewrite H; ring].
Qed.

(** The candidate root, up to a fourth root of unity. *)
Lemma candidate_quartic : let c := candidate w x0 in
  exists q : Fp, (c * c * x0 = q * w)%fp /\ (q = 1 \/ q = - (1) \/ q = sqrtm1 \/ q = - sqrtm1)%fp.
Proof.
  cbv zeta. rewrite candidate_square. set (q := Zmod.pow (w * Zmod.pow x0 7)%fp quarter). exists q. split; [ring |].
  assert (Hn : (w * Zmod.pow x0 7)%fp <> 0%fp) by (rewrite pow_7; auto 10 using fp_mul_nonzero, w_nonzero, x0_nonzero).
  assert (E : (q * q * (q * q) = 1)%fp).
  { unfold q. rewrite <- !fp_pow_add by done. exact (Zmod.fermat_nz _ Hn fe_prime_prime). }
  destruct (K_integral fp_field ((q - 1) * (q + 1))%fp ((q - sqrtm1) * (q + sqrtm1))%fp) as [H | H].
  - transitivity (q * q * (q * q) - q * q + (q * q - 1) * - (sqrtm1 * sqrtm1))%fp; [ring |]. rewrite E, sqrtm1_square. ring.
  - apply fp_integral in H as [H | H]; [left; exact (proj1 (fp_sub_zero _ _) H) | right; left; exact (proj1 (fp_add_zero _ _) H)].
  - apply fp_integral in H as [H | H]; do 2 right; [left; exact (proj1 (fp_sub_zero _ _) H) | right; exact (proj1 (fp_add_zero _ _) H)].
Qed.

(** Bounds of the arguments of [fromfe_root]. *)
Context (fu fv fw fx : fe) (Hu : FF 101 fu u) (Hv : FF 101 fv v) (Hw : FF 102 fw w) (Hx : FF 202 fx x0).

Lemma fromfe_root_is : exists r, fromfe_root fu fv fw fx = Ok r /\
  let '(X, z, sign) := r in exists ξ ζ, FF 101 X ξ /\ FF 101 z ζ /\
    (ξ * ξ * x0 = - ζ * (A + two) * w /\ ζ * (ζ + A * w) = - (A * A) * v)%fp /\ (sign = 0 \/ sign = 1 /\ ξ <> 0%fp).
Proof using Hu Hv Hw Hx.
  unfold fromfe_root, fe_copy. pose proof fe_ma_FF as Hz. pose proof fe_sqrtm1_FF as Hi.
  destruct fe_fffb1_FF as (b1 & B1 & Q1), fe_fffb2_FF as (b2 & B2 & Q2), fe_fffb3_FF as (b3 & B3 & Q3), fe_fffb4_FF as (b4 & B4 & Q4).
  destruct (fe_divpowm1_FF Hw Hx ltac:(literals) ltac:(literals)) as (X & E & HX). refine (exists_bind E _); clear E; cbv beta.
  fold (candidate w x0) in HX. destruct candidate_quartic as (q & Eq & Hq). set (c := candidate w x0) in *.
  do 3 fe_step. cbv zeta. rewrite Eq in *.
  refine (exists_bind (fe_isnonzero_FF H1 ltac:(literals)) _); cbv beta.
  destruct (decide (w - q * w = 0)%fp) as [D1 | D1]; cbn [Z.eqb negb].
  { rewrite fp_sub_zero in D1. do 3 fe_step. eexists. split; [reflexivity |]. eexists _, _. do 2 (split; [eassumption |]). split; [| by left].
    split; [| unfold w; ring]. transitivity (c * c * x0 * (b2 * b2) * (u * u))%fp; [ring |]. rewrite Eq, Q2, <- D1. unfold AA2, two, v. ring. }
  fe_step. refine (exists_bind (fe_isnonzero_FF H2 ltac:(literals)) _); cbv beta.
  destruct (decide (w + q * w = 0)%fp) as [D2 | D2]; cbn [Z.eqb negb].
  { rewrite fp_add_zero in D2. do 3 fe_step. eexists. split; [reflexivity |]. eexists _, _. do 2 (split; [eassumption |]). split; [| by left].
    split; [| unfold w; ring]. transitivity (c * c * x0 * (b1 * b1) * (u * u))%fp; [ring |].
    rewrite Eq, Q1. replace (q * w)%fp with (- w)%fp by (rewrite D2 at 1; ring). unfold AA2, two, v. ring. }
  do 2 fe_step. refine (exists_bind (fe_isnonzero_FF H4 ltac:(literals)) _); cbv beta.
  assert (Hn : forall ξ : Fp, (ξ * ξ * x0)%fp = (AA2 * w)%fp -> ξ <> 0%fp).
  { intros ξ Hξ ->. apply (fp_mul_nonzero AA2 w); [by vm_compute | apply w_nonzero | rewrite <- Hξ; ring]. }
  destruct (decide (w - q * w * sqrtm1 = 0)%fp) as [D3 | D3]; cbn [Z.eqb negb].
  - rewrite fp_sub_zero in D3. fe_step. eexists. split; [reflexivity |]. eexists _, _. do 2 (split; [eassumption |]).
    assert (Ex : (c * b4 * (c * b4) * x0 = AA2 * w)%fp).
    { transitivity (c * c * x0 * (b4 * b4))%fp; [ring |]. rewrite Eq, Q4. rewrite D3 at 2. ring. }
    split; [| right; split; [done | by apply Hn]]. split; [rewrite Ex; unfold AA2; ring | unfold w; ring].
  - assert (D4 : (w + q * w * sqrtm1 = 0)%fp).
    { destruct Hq as [-> | [-> | [-> | ->]]].
      - destruct D1. ring.
      - destruct D2. ring.
      - transitivity (w + w * (sqrtm1 * sqrtm1))%fp; [ring |]. rewrite sqrtm1_square. ring.
      - destruct D3. transitivity (w + w * (sqrtm1 * sqrtm1))%fp; [ring |]. rewrite sqrtm1_square. ring. }
    fe_step. refine (exists_bind (fe_isnonzero_FF H5 ltac:(literals)) _); cbv beta. rewrite decide_True by done.
    unfold assert. cbn [Z.eqb]. simpl_bind. fe_step. rewrite fp_add_zero in D4.
    eexists. split; [reflexivity |]. eexists _, _. do 2 (split; [eassumption |]).
    assert (Ex : (c * b3 * (c * b3) * x0 = AA2 * w)%fp).
    { transitivity (c * c * x0 * (b3 * b3))%fp; [ring |]. rewrite Eq, Q3. rewrite D4 at 2. ring. }
    split; [| right; split; [done | by apply Hn]]. split; [rewrite Ex; unfold AA2; ring | unfold w; ring].
Qed.
End Elligator.

Lemma fromfe_setsign_is X ξ sign : FF 101 X ξ -> sign = 0 \/ sign = 1 /\ ξ <> 0%fp -> exists r ξ', fromfe_setsign X sign = Ok r /\
  FF 101 r ξ' /\ (ξ' * ξ' = ξ * ξ)%fp.
Proof.
  intros HX Hs. unfold fromfe_setsign. rewrite (fe_isnegative_FF HX ltac:(literals)). simpl_bind.
  destruct (Z.eqb_spec (Zmod.to_Z ξ mod 2) sign) as [E | E]; cbn [negb]; [by exists X, ξ |].
  rewrite (fe_isnonzero_FF HX ltac:(literals)). simpl_bind.
  assert (Hξ : ξ <> 0%fp) by (destruct Hs as [-> | [_ H]]; [intros ->; by apply E | done]).
  rewrite decide_False by done. unfold assert. cbn [Z.eqb negb]. simpl_bind.
  destruct (fe_neg_FF HX) as (r & Er & Hr); [literals |]. exists r, (- ξ)%fp. split; [done |]. split; [done |]. ring.
Qed.

(** The point with the abscissa [ξ] and the ordinate [(ζ - w) / (ζ + w)]. *)
Lemma elligator_valid (u ξ ζ : Fp) : let v := (u * u + u * u)%fp in let w := (v + 1)%fp in let x0 := (w * w + - (A * A) * v)%fp in
  (ξ * ξ * x0 = - ζ * (A + two) * w)%fp -> (ζ * (ζ + A * w) = - (A * A) * v)%fp ->
  (ζ + w)%fp <> 0%fp /\ valid (ξ, ((ζ - w) / (ζ + w)))%fp.
Proof.
  intros v w x0 E1 E2. pose proof (x0_nonzero u) as Hx. pose proof (w_nonzero u) as Hw. fold v w x0 in Hx, Hw.
  assert (E : (ξ * ξ * ((ζ + w) * (ζ + w) + d * ((ζ - w) * (ζ - w))) = - (two * two) * ζ * w)%fp).
  { assert (Hk : ((A + two) * x0)%fp <> 0%fp) by (apply fp_mul_nonzero; [apply A2_nonzero | done]).
    apply (K_sub_eq fp_field). destruct (fp_integral ((A + two) * x0)%fp
      (ξ * ξ * ((ζ + w) * (ζ + w) + d * ((ζ - w) * (ζ - w))) - - (two * two) * ζ * w)%fp) as [H | H]; [| destruct (Hk H) | exact H].
    transitivity (ξ * ξ * x0 * ((A + two) * (ζ + w) * (ζ + w) + ((A + two) * d) * ((ζ - w) * (ζ - w))) + two * two * ζ * w * (A + two) * x0)%fp; [ring |].
    rewrite E1, A_d. transitivity (- ζ * (A + two) * w * (two * two) * (ζ * (ζ + A * w) + w * w) + two * two * ζ * w * (A + two) * x0)%fp; [unfold two; ring |].
    rewrite E2. unfold x0. ring. }
  assert (Hz : (ζ + w)%fp <> 0%fp).
  { intros H. assert (Eζ : ζ = (- w)%fp) by (apply (K_sub_eq fp_field); rewrite <- H; ring). rewrite Eζ in E.
    destruct (decide (ξ = 0%fp)) as [H0 | Hξ].
    - apply (fp_mul_nonzero w w Hw Hw). destruct (fp_integral (two * two)%fp (w * w)%fp) as [Ht | Ht]; [| by vm_compute in Ht | done].
      rewrite H0 in E. transitivity (- (two * two) * - w * w)%fp; [ring |]. rewrite <- E. ring.
    - apply (no_root fp_field d d_not_square ξ 1%fp Hξ). apply (K_sub_eq fp_field).
      destruct (fp_integral (two * two * (w * w))%fp (d * (ξ * ξ) - 1 * 1)%fp) as [Ht | Ht]; [| by destruct (fp_mul_nonzero (two * two)%fp (w * w)%fp); [by vm_compute | by apply fp_mul_nonzero | done] | done].
      transitivity (ξ * ξ * ((- w + w) * (- w + w) + d * ((- w - w) * (- w - w))) - - (two * two) * - w * w)%fp; [unfold two; ring |].
      rewrite E. ring. }
  split; [done |]. apply valid_ratio. transitivity (ξ * ξ * ((ζ + w) * (ζ + w) + d * ((ζ - w) * (ζ - w))) / ((ζ + w) * (ζ + w)))%fp; [field; done |].
  rewrite E. unfold two. field. done.
Qed.

Lemma fromfe_limbs_chunks s : bytes s -> length s = 32%nat -> fromfe_limbs s = Ok (chunk_limbs (chunks 24 (le_bytes s))).
Proof.
  intros Hb Hl. unfold fromfe_limbs, fe_loads, word. cbn [load_shifted].
  rewrite !load_word_slice by (try done; try (by left); try (by right); rewrite Hl; lia). simpl_bind.
  rewrite load_3_slice by (try done; rewrite Hl; lia). simpl_bind. f_equal. rewrite !Z.shiftl_mul_pow2 by lia.
  unfold chunk_limbs, chunks. cbn [zip_with app]. repeat (f_equal; try reflexivity).
Qed.

(** Any 32 bytes give a point. *)
Lemma ge_fromfe_frombytes_vartime_is s : bytes s -> length s = 32%nat -> exists h p, ge_fromfe_frombytes_vartime s = Ok h /\ p2_is h p.
Proof.
  intros Hb Hl. pose proof (le_bytes_range s Hb) as Hr. unfold ge_fromfe_frombytes_vartime.
  bind_with (fromfe_limbs_chunks s Hb Hl).
  destruct (frombytes_carried 24 (le_bytes s) ltac:(lia) ltac:(lia)) as (h & E & HU). bind_with E. clear E. cbv zeta.
  set (U := fe_narrow h) in *. set (u := fp (le_bytes s mod 2 ^ (232 + 24))) in *.
  pose proof fe_ma2_FF as Hm. pose proof (fe_1_FF 1 ltac:(lia)) as H1.
  destruct (fe_sq2_FF HU) as (fv & E & Hv); [literals |]. bind_with E. clear E.
  destruct (fe_add_FF Hv H1) as (fw & E & Hw); [literals.. |]. bind_with E. clear E.
  destruct (fe_sq_FF Hw) as (ws & E & Hws); [literals |]. bind_with E. clear E.
  destruct (fe_mul_FF Hm Hv) as (fy & E & Hy); [literals.. |]. bind_with E. clear E.
  destruct (fe_add_FF Hws Hy) as (fx & E & Hx); [literals.. |]. bind_with E. clear E.
  destruct (fromfe_root_is u U fv fw fx HU Hv Hw Hx) as ([[X z] sign] & E & ξ & ζ & HX & Hz & [E1 E2] & Hs). bind_with E. clear E.
  destruct (fromfe_setsign_is X ξ sign HX Hs) as (X' & ξ' & E & HX' & Eξ). bind_with E. clear E. rewrite <- Eξ in E1.
  destruct (elligator_valid u ξ' ζ E1 E2) as [HZ Hval].
  destruct (fe_add_FF Hz Hw) as (fZ & E & HfZ); [literals.. |]. bind_with E. clear E.
  destruct (fe_sub_FF Hz Hw) as (fY & E & HfY); [literals.. |]. bind_with E. clear E.
  destruct (fe_mul_FF HX' HfZ) as (fX & E & HfX); [literals.. |]. bind_with E. clear E.
  eexists _, (Point _ Hval). split; [reflexivity |]. eexists. split; [exact HZ |]. cbn [coords fst snd p2_X p2_Y p2_Z].
  split_and!; fe_done; [ring | field; done | ring].
Qed.
