(* ===== verification/ScalarMult.v ===== *)
(** Multiples of points.

    The recodings of scalars ([slide] and the digits of [ge_scalarmult] and
    [ge_scalarmult_base]), the selection of table entries in constant time and
    all scalar multiplications of crypto-ops.c, over the operations of
    [GroupOps]. They are proved to compute multiples in the group of
    [Curve25519]. *)
From Stdlib Require Import Zmod Field.
From stdpp Require Import base list numbers.
From S2P Require Import Prelude Limbs FieldOps CurveData Primality Groups Edwards Curve25519 GroupOps.
Open Scope Z_scope.

(** ** Signed digits of [slide] *)

(** Source: src/src/crypto/crypto-ops.c:1149-1151 (slide) *)
Definition byte_bits (b : Z) : list Z := map (fun j => Z.land 1 (Z.shiftr b (Z.of_nat j))) (seq 0 8).

(** Adds 1 to the bits from here on.
    Source: src/src/crypto/crypto-ops.c:1161-1167 (slide) *)
Fixpoint slide_carry (r : list Z) : list Z :=
  match r with
  | [] => []
  | x :: r => if x =? 0 then 1 :: r else 0 :: slide_carry r
  end.

(** The loop over [b], [n] rounds left: [x] is [r[i]] and [r] the array after it.
    Source: src/src/crypto/crypto-ops.c:1155-1171 (slide) *)
Fixpoint slide_window (n : nat) (b : nat) (x : Z) (r : list Z) : Z * list Z :=
  match n with
  | O => (x, r)
  | S n =>
    match r !! (b - 1)%nat with
    | None => (x, r)
    | Some y =>
      if negb (y =? 0) then
        let v := Z.shiftl y (Z.of_nat b) in
        if x + v <=? 15 then slide_window n (S b) (to_signed 8 (x + v)) (<[(b - 1)%nat := 0]> r)
        else if -15 <=? x - v then
          slide_window n (S b) (to_signed 8 (x - v)) (take (b - 1) r ++ slide_carry (drop (b - 1) r))
        else (x, r)
      else slide_window n (S b) x r
    end
  end.

(** The loop over [i], [n] cells left.
    Source: src/src/crypto/crypto-ops.c:1153-1173 (slide) *)
Fixpoint slide_loop (n : nat) (r : list Z) : list Z :=
  match n, r with
  | S n, x :: r =>
    if negb (x =? 0) then let '(x, r) := slide_window 6 1 x r in x :: slide_loop n r else x :: slide_loop n r
  | _, _ => r
  end.

(** Source: src/src/crypto/crypto-ops.c:1144-1174 (slide) *)
Definition slide (a : list Z) : list Z := slide_loop 256 (concat (map byte_bits a)).

(** ** Sums of multiples *)

(** [t] plus an odd multiple from a table of [ge_dsm_precomp].
    Source: src/src/crypto/crypto-ops.c:1218-1224 (ge_double_scalarmult_base_vartime) *)
Definition cached_digit (tbl : list ge_cached) (dg : Z) (t : ge_p1p1) : outcome ge_p1p1 :=
  if 0 <? dg then
    u ← ge_p1p1_to_p3 t; c ← at_or_undef (tbl !! Z.to_nat (Z.quot dg 2)); ge_add u c
  else if dg <? 0 then
    u ← ge_p1p1_to_p3 t; c ← at_or_undef (tbl !! Z.to_nat (Z.quot (- dg) 2)); ge_sub u c
  else Ok t.

(** [t] plus an odd multiple of the base point.
    Source: src/src/crypto/crypto-ops.c:1226-1232 (ge_double_scalarmult_base_vartime) *)
Definition base_digit (dg : Z) (t : ge_p1p1) : outcome ge_p1p1 :=
  if 0 <? dg then
    u ← ge_p1p1_to_p3 t; c ← at_or_undef (ge_Bi !! Z.to_nat (Z.quot dg 2)); ge_madd u c
  else if dg <? 0 then
    u ← ge_p1p1_to_p3 t; c ← at_or_undef (ge_Bi !! Z.to_nat (Z.quot (- dg) 2)); ge_msub u c
  else Ok t.

(** The digits from the first one that is not zero down.
    Source: src/src/crypto/crypto-ops.c:1211-1213 (ge_double_scalarmult_base_vartime) *)
Fixpoint skip_zeros {D} (zero : D -> bool) (ds : list D) : list D :=
  match ds with
  | dg :: ds' => if zero dg then skip_zeros zero ds' else ds
  | [] => []
  end.

(** Source: src/src/crypto/crypto-ops.c:1215-1236 (ge_double_scalarmult_base_vartime) *)
Fixpoint dsm_loop {D} (body : D -> ge_p1p1 -> outcome ge_p1p1) (ds : list D) (r : ge_p2) : outcome ge_p2 :=
  match ds with
  | [] => Ok r
  | dg :: ds => t ← ge_p2_dbl r; t ← body dg t; r ← ge_p1p1_to_p2 t; dsm_loop body ds r
  end.

(** The last round writes [r3]; without a round it keeps what it held.
    Source: src/src/crypto/crypto-ops.c:1257-1280 (ge_double_scalarmult_base_vartime_p3) *)
Fixpoint dsm_loop_p3 {D} (body : D -> ge_p1p1 -> outcome ge_p1p1) (ds : list D) (r : ge_p2) (r3 : ge_p3) : outcome ge_p3 :=
  match ds with
  | [] => Ok r3
  | dg :: ds =>
    t ← ge_p2_dbl r;
    t ← body dg t;
    match ds with
    | [] => ge_p1p1_to_p3 t
    | _ => r ← ge_p1p1_to_p2 t; dsm_loop_p3 body ds r r3
    end
  end.

Definition zero_2 (dg : Z * Z) : bool := (dg.1 =? 0) && (dg.2 =? 0).
Definition zero_3 (dg : Z * Z * Z) : bool := (dg.1.1 =? 0) && (dg.1.2 =? 0) && (dg.2 =? 0).

Definition digits_2 (a b : list Z) : list (Z * Z) := skip_zeros zero_2 (reverse (zip (slide a) (slide b))).
Definition digits_3 (a b c : list Z) : list (Z * Z * Z) :=
  skip_zeros zero_3 (reverse (zip (zip (slide a) (slide b)) (slide c))).

(** Conversion compares lists of digits before it computes them. *)
#[global] Strategy expand [digits_2 digits_3].

(** Source: src/src/crypto/crypto-ops.c:1197-1236 (ge_double_scalarmult_base_vartime) *)
Definition ge_double_scalarmult_base_vartime (a : list Z) (A : ge_p3) (b : list Z) : outcome ge_p2 :=
  Ai ← ge_dsm_precomp A;
  dsm_loop (fun '(da, db) t => t ← cached_digit Ai da t; base_digit db t) (digits_2 a b) ge_p2_0.

(** Source: src/src/crypto/crypto-ops.c:1238-1281 (ge_double_scalarmult_base_vartime_p3) *)
Definition ge_double_scalarmult_base_vartime_p3 (r3 : ge_p3) (a : list Z) (A : ge_p3) (b : list Z) : outcome ge_p3 :=
  Ai ← ge_dsm_precomp A;
  dsm_loop_p3 (fun '(da, db) t => t ← cached_digit Ai da t; base_digit db t) (digits_2 a b) ge_p2_0 r3.

(** Source: src/src/crypto/crypto-ops.c:1285-1332 (ge_triple_scalarmult_base_vartime) *)
Definition ge_triple_scalarmult_base_vartime (a b : list Z) (Bi : list ge_cached) (c : list Z) (Ci : list ge_cached) : outcome ge_p2 :=
  dsm_loop (fun '(da, db, dc) t => t ← base_digit da t; t ← cached_digit Bi db t; cached_digit Ci dc t) (digits_3 a b c) ge_p2_0.

(** Source: src/src/crypto/crypto-ops.c:1334-1381 (ge_triple_scalarmult_precomp_vartime) *)
Definition ge_triple_scalarmult_precomp_vartime (a : list Z) (Ai : list ge_cached) (b : list Z) (Bi : list ge_cached)
    (c : list Z) (Ci : list ge_cached) : outcome ge_p2 :=
  dsm_loop (fun '(da, db, dc) t => t ← cached_digit Ai da t; t ← cached_digit Bi db t; cached_digit Ci dc t) (digits_3 a b c) ge_p2_0.

(** Source: src/src/crypto/crypto-ops.c:2213-2250 (ge_double_scalarmult_precomp_vartime2) *)
Definition ge_double_scalarmult_precomp_vartime2 (a : list Z) (Ai : list ge_cached) (b : list Z) (Bi : list ge_cached) : outcome ge_p2 :=
  dsm_loop (fun '(da, db) t => t ← cached_digit Ai da t; cached_digit Bi db t) (digits_2 a b) ge_p2_0.

(** Source: src/src/crypto/crypto-ops.c:2252-2293 (ge_double_scalarmult_precomp_vartime2_p3) *)
Definition ge_double_scalarmult_precomp_vartime2_p3 (r3 : ge_p3) (a : list Z) (Ai : list ge_cached) (b : list Z) (Bi : list ge_cached) : outcome ge_p3 :=
  dsm_loop_p3 (fun '(da, db) t => t ← cached_digit Ai da t; cached_digit Bi db t) (digits_2 a b) ge_p2_0 r3.

(** Source: src/src/crypto/crypto-ops.c:2295-2300 (ge_double_scalarmult_precomp_vartime) *)
Definition ge_double_scalarmult_precomp_vartime (a : list Z) (A : ge_p3) (b : list Z) (Bi : list ge_cached) : outcome ge_p2 :=
  Ai ← ge_dsm_precomp A;
  ge_double_scalarmult_precomp_vartime2 a Ai b Bi.

(** ** Selection in constant time *)

(** Source: src/src/crypto/crypto-ops.c:1639-1647 (equal) *)
Definition equal (b c : Z) : Z :=
  let x := Z.lxor (u8 b) (u8 c) in
  u8 (Z.shiftr (u32 (x - 1)) 31).

(** Source: src/src/crypto/crypto-ops.c:1649-1653 (negative) *)
Definition negative (b : Z) : Z := u8 (Z.shiftr (u64 b) 63).

(** Source: src/src/crypto/crypto-ops.c:1664-1664 (select) *)
Definition babs (b : Z) : Z := u8 (b - Z.shiftl (Z.land (- negative b) b) 1).

(** The moves from the entries of a table.
    Source: src/src/crypto/crypto-ops.c:1667-1674 (select) *)
Fixpoint cmov_from {T} (cmov : T -> T -> Z -> T) (tbl : list T) (j : Z) (ab : Z) (t : T) : T :=
  match tbl with
  | [] => t
  | u :: tbl => cmov_from cmov tbl (j + 1) ab (cmov t u (equal ab j))
  end.

(** Source: src/src/crypto/crypto-ops.c:1661-1679 (select) *)
Definition select (pos : nat) (b : Z) : outcome ge_precomp :=
  row ← at_or_undef (ge_base !! pos);
  let t := cmov_from ge_precomp_cmov row 1 (babs b) ge_precomp_0 in
  m ← fe_neg (xy2d t);
  let minust := Ge_precomp (fe_copy (yminusx t)) (fe_copy (yplusx t)) m in
  Ok (ge_precomp_cmov t minust (negative b)).

(** Source: src/src/crypto/crypto-ops.c:2129-2143 (ge_scalarmult) *)
Definition select_cached (Ai : list ge_cached) (b : Z) : outcome ge_cached :=
  let cur := cmov_from ge_cached_cmov Ai 1 (babs b) ge_cached_0 in
  m ← fe_neg (T2d cur);
  let minuscur := Ge_cached (fe_copy (YminusX cur)) (fe_copy (YplusX cur)) (fe_copy (cached_Z cur)) m in
  Ok (ge_cached_cmov cur minuscur (negative b)).

(** ** Multiples by digits of four bits *)

(** Two digits for each byte but the last one, the carry in [carry].
    Source: src/src/crypto/crypto-ops.c:2096-2107 (ge_scalarmult) *)
Fixpoint scalarmult_digits (a : list Z) (carry : Z) : list Z :=
  match a with
  | [] => []
  | [x] =>
    let carry := carry + x in
    let carry2 := Z.shiftr (carry + 8) 4 in
    [to_signed 8 (carry - Z.shiftl carry2 4); to_signed 8 carry2]
  | x :: a =>
    let carry := carry + x in
    let carry2 := Z.shiftr (carry + 8) 4 in
    let carry' := Z.shiftr (carry2 + 8) 4 in
    to_signed 8 (carry - Z.shiftl carry2 4) :: to_signed 8 (carry2 - Z.shiftl carry' 4) :: scalarmult_digits a carry'
  end.

(** 1 * A, 2 * A, ...
    Source: src/src/crypto/crypto-ops.c:2109-2114 (ge_scalarmult) *)
Fixpoint scalarmult_table (n : nat) (A : ge_p3) (c : ge_cached) : outcome (list ge_cached) :=
  match n with
  | O => Ok []
  | S n =>
    t ← ge_add A c;
    u ← ge_p1p1_to_p3 t;
    c' ← ge_p3_to_cached u;
    rest ← scalarmult_table n A c';
    Ok (c' :: rest)
  end.

(** Four doublings and a sum.
    Source: src/src/crypto/crypto-ops.c:2118-2144 (ge_scalarmult) *)
Definition scalarmult_step (Ai : list ge_cached) (r : ge_p2) (b : Z) : outcome ge_p1p1 :=
  t ← ge_p2_dbl r; r ← ge_p1p1_to_p2 t;
  t ← ge_p2_dbl r; r ← ge_p1p1_to_p2 t;
  t ← ge_p2_dbl r; r ← ge_p1p1_to_p2 t;
  t ← ge_p2_dbl r; u ← ge_p1p1_to_p3 t;
  cur ← select_cached Ai b;
  ge_add u cur.

(** Source: src/src/crypto/crypto-ops.c:2117-2146 (ge_scalarmult) *)
Fixpoint scalarmult_loop (Ai : list ge_cached) (ds : list Z) (r : ge_p2) : outcome ge_p2 :=
  match ds with
  | [] => Ok r
  | b :: ds => t ← scalarmult_step Ai r b; r ← ge_p1p1_to_p2 t; scalarmult_loop Ai ds r
  end.

(** Source: src/src/crypto/crypto-ops.c:2178-2210 (ge_scalarmult_p3) *)
Fixpoint scalarmult_loop_p3 (Ai : list ge_cached) (ds : list Z) (r : ge_p2) (r3 : ge_p3) : outcome ge_p3 :=
  match ds with
  | [] => Ok r3
  | b :: ds =>
    t ← scalarmult_step Ai r b;
    match ds with
    | [] => ge_p1p1_to_p3 t
    | _ => r ← ge_p1p1_to_p2 t; scalarmult_loop_p3 Ai ds r r3
    end
  end.

(** Source: src/src/crypto/crypto-ops.c:2089-2147 (ge_scalarmult) *)
Definition ge_scalarmult (a : list Z) (A : ge_p3) : outcome ge_p2 :=
  c0 ← ge_p3_to_cached A;
  rest ← scalarmult_table 7 A c0;
  scalarmult_loop (c0 :: rest) (reverse (scalarmult_digits a 0)) ge_p2_0.

(** Source: src/src/crypto/crypto-ops.c:2149-2211 (ge_scalarmult_p3) *)
Definition ge_scalarmult_p3 (r3 : ge_p3) (a : list Z) (A : ge_p3) : outcome ge_p3 :=
  c0 ← ge_p3_to_cached A;
  rest ← scalarmult_table 7 A c0;
  scalarmult_loop_p3 (c0 :: rest) (reverse (scalarmult_digits a 0)) ge_p2_0 r3.

(** Source: src/src/crypto/crypto-ops.c:1698-1701 (ge_scalarmult_base) *)
Definition nibbles (a : list Z) : list Z := concat (map (fun x => [Z.land x 15; Z.land (Z.shiftr x 4) 15]) a).

(** Source: src/src/crypto/crypto-ops.c:1705-1712 (ge_scalarmult_base) *)
Fixpoint recode_nibbles (e : list Z) (carry : Z) : list Z :=
  match e with
  | [] => []
  | [x] => [to_signed 8 (x + carry)]
  | x :: e =>
    let x := to_signed 8 (x + carry) in
    let carry := Z.shiftr (to_signed 8 (x + 8)) 4 in
    to_signed 8 (x - Z.shiftl carry 4) :: recode_nibbles e carry
  end.

(** The rounds for the digits of one parity.
    Source: src/src/crypto/crypto-ops.c:1716-1719 (ge_scalarmult_base) *)
Fixpoint base_loop (pos : nat) (ds : list Z) (h : ge_p3) : outcome ge_p3 :=
  match ds with
  | [] => Ok h
  | b :: ds => t ← select pos b; r ← ge_madd h t; h ← ge_p1p1_to_p3 r; base_loop (S pos) ds h
  end.

(** The digits of even and of odd index. *)
Fixpoint evens (l : list Z) : list Z := match l with x :: _ :: l => x :: evens l | _ => l end.
Fixpoint odds (l : list Z) : list Z := match l with _ :: y :: l => y :: odds l | _ => [] end.

(** Source: src/src/crypto/crypto-ops.c:1690-1730 (ge_scalarmult_base) *)
Definition ge_scalarmult_base (a : list Z) : outcome ge_p3 :=
  let e := recode_nibbles (nibbles a) 0 in
  h ← base_loop 0 (odds e) ge_p3_0;
  r ← ge_p3_dbl h; s ← ge_p1p1_to_p2 r;
  r ← ge_p2_dbl s; s ← ge_p1p1_to_p2 r;
  r ← ge_p2_dbl s; s ← ge_p1p1_to_p2 r;
  r ← ge_p2_dbl s; h ← ge_p1p1_to_p3 r;
  base_loop 0 (evens e) h.

(** * Properties *)

(** ** Values of digits *)

(** Digits in base [2 ^ w], the lowest first. *)
Fixpoint digits_value (w : Z) (l : list Z) : Z :=
  match l with [] => 0 | x :: l => x + 2 ^ w * digits_value w l end.

Abbreviation bits_value := (digits_value 1).

Definition bits (l : list Z) : Prop := Forall (fun x => x = 0 \/ x = 1) l.

Lemma bits_value_range l : bits l -> 0 <= bits_value l < 2 ^ Z.of_nat (length l).
Proof.
  induction 1 as [| x l Hx _ IH]; cbn [digits_value length]; [cbn; lia |].
  rewrite Nat2Z.inj_succ, Z.pow_succ_r by lia. change (2 ^ 1) with 2. lia.
Qed.

Lemma digits_value_app w l k : 0 <= w -> digits_value w (l ++ k) = digits_value w l + 2 ^ (w * Z.of_nat (length l)) * digits_value w k.
Proof.
  intros Hw. induction l as [| x l IH]; cbn [digits_value app length]; [rewrite Z.mul_0_r; lia |].
  rewrite IH, Nat2Z.inj_succ, Z.mul_succ_r, Z.add_comm, Z.pow_add_r by lia. lia.
Qed.

(** *** [slide] *)

Lemma slide_carry_bits l : bits l -> bits (slide_carry l).
Proof. induction 1 as [| x l Hx Hl IH]; cbn; [constructor |]. destruct (x =? 0); constructor; auto. Qed.

Lemma slide_carry_length l : length (slide_carry l) = length l.
Proof. induction l as [| x l IH]; cbn; [done |]. destruct (x =? 0); cbn; auto. Qed.

Lemma slide_carry_value l : bits l -> bits_value l + 1 < 2 ^ Z.of_nat (length l) -> bits_value (slide_carry l) = bits_value l + 1.
Proof.
  induction 1 as [| x l Hx Hl IH]; cbn [digits_value length slide_carry]; [cbn; lia |].
  rewrite Nat2Z.inj_succ, Z.pow_succ_r by lia. change (2 ^ 1) with 2. intros H.
  destruct Hx as [-> | ->]; cbn [Z.eqb digits_value]; change (2 ^ 1) with 2; [lia |]. rewrite IH by lia. lia.
Qed.

(** Beyond the fourth bit nothing can be taken any more. *)
Lemma slide_window_stop n b x r : bits r -> (5 <= b)%nat -> -15 <= x <= 15 -> slide_window n b x r = (x, r).
Proof.
  intros Hr. revert b. induction n as [| n IH]; intros b Hb Hx; cbn [slide_window]; [done |].
  destruct (r !! (b - 1)%nat) as [y |] eqn:Ey; [| done].
  assert (Hy : y = 0 \/ y = 1) by exact (Forall_lookup_1 _ _ _ _ Hr Ey). destruct Hy as [-> | ->]; cbn [Z.eqb negb]; [by apply IH; [lia |] |].
  assert (Hp : 2 ^ 5 <= Z.shiftl 1 (Z.of_nat b)) by (rewrite Z.shiftl_mul_pow2, Z.mul_1_l by lia; apply Z.pow_le_mono_r; lia).
  change (2 ^ 5) with 32 in Hp. destruct (Z.leb_spec (x + Z.shiftl 1 (Z.of_nat b)) 15); [lia |].
  destruct (Z.leb_spec (-15) (x - Z.shiftl 1 (Z.of_nat b))); [lia | done].
Qed.

Ltac all_bits := repeat match goal with H : _ = 0 \/ _ = 1 |- _ => destruct H as [-> | ->] end.

(** A whole window. *)
Lemma slide_window_step n b1 b2 b3 b4 u : bits [b1; b2; b3; b4] ->
  slide_window (S (S (S (S n)))) 1 1 (b1 :: b2 :: b3 :: b4 :: u) =
    if b4 =? 0 then slide_window n 5 (1 + 2 * b1 + 4 * b2 + 8 * b3) (0 :: 0 :: 0 :: 0 :: u)
    else slide_window n 5 (1 + 2 * b1 + 4 * b2 + 8 * b3 - 16) (0 :: 0 :: 0 :: 0 :: slide_carry u).
Proof.
  unfold bits. intros H. repeat match goal with H : Forall _ (_ :: _) |- _ => apply Forall_cons in H as [? H] end. all_bits; reflexivity.
Qed.

Lemma slide_window_full b1 b2 b3 b4 u : bits (b1 :: b2 :: b3 :: b4 :: u) ->
  slide_window 6 1 1 (b1 :: b2 :: b3 :: b4 :: u) =
    if b4 =? 0 then (1 + 2 * b1 + 4 * b2 + 8 * b3, 0 :: 0 :: 0 :: 0 :: u)
    else (1 + 2 * b1 + 4 * b2 + 8 * b3 - 16, 0 :: 0 :: 0 :: 0 :: slide_carry u).
Proof.
  unfold bits. intros H. repeat match goal with H : Forall _ (_ :: _) |- _ => apply Forall_cons in H as [? H] end.
  rewrite slide_window_step by (repeat (constructor; [done |]); constructor).
  assert (Hz : forall v, bits v -> bits (0 :: 0 :: 0 :: 0 :: v)) by (intros v Hv; repeat (constructor; [by left |]); done).
  assert (-15 <= 1 + 2 * b1 + 4 * b2 + 8 * b3 - 16 <= 15 /\ -15 <= 1 + 2 * b1 + 4 * b2 + 8 * b3 <= 15) as [] by lia.
  rewrite !slide_window_stop by (try lia; auto using slide_carry_bits). done.
Qed.

(** A window at the end of the array. *)
Lemma slide_window_short u : bits u -> (length u <= 3)%nat -> slide_window 6 1 1 u = (1 + 2 * bits_value u, replicate (length u) 0).
Proof.
  unfold bits. intros H Hl. do 4 (destruct u as [| ? u]; [repeat match goal with H : Forall _ (_ :: _) |- _ => apply Forall_cons in H as [? H] end; all_bits; reflexivity |]).
  cbn in Hl. lia.
Qed.

Definition slide_digit (dg : Z) : Prop := dg = 0 \/ Z.odd dg = true /\ -15 <= dg <= 15.

Lemma slide_loop_zeros n k r : (k <= n)%nat -> slide_loop n (replicate k 0 ++ r) = replicate k 0 ++ slide_loop (n - k) r.
Proof.
  revert n. induction k as [| k IH]; intros n Hn; [by rewrite Nat.sub_0_r |]. destruct n as [| n]; [lia |].
  cbn [slide_loop replicate app Z.eqb negb]. by rewrite IH by lia.
Qed.

(** The digits have the value of the bits, when the top three bits leave room for the carries. *)
Lemma slide_loop_value n r : (length r <= n)%nat -> bits r -> 8 * bits_value r <= 2 ^ Z.of_nat (length r) ->
  bits_value (slide_loop n r) = bits_value r /\ length (slide_loop n r) = length r /\ Forall slide_digit (slide_loop n r).
Proof.
  revert r. induction n as [n IH] using lt_wf_ind. intros r Hn Hr Hv.
  destruct r as [| x r]; [destruct n; by split_and! |]. destruct n as [| n]; [cbn in Hn; lia |]. apply Forall_cons in Hr as [Hx Hr].
  cbn [length digits_value] in *. rewrite Nat2Z.inj_succ, Z.pow_succ_r in Hv by lia. change (2 ^ 1) with 2 in *.
  pose proof (bits_value_range r Hr) as Hrange.
  destruct Hx as [-> | ->]; cbn [slide_loop Z.eqb negb].
  { destruct (IH n ltac:(lia) r ltac:(lia) Hr ltac:(lia)) as (E & El & Ed). cbn [digits_value length]. change (2 ^ 1) with 2.
    split_and!; [lia | lia | constructor; [by left | done]]. }
  destruct (decide (length r <= 3)%nat) as [Hs | Hs].
  - rewrite slide_window_short by done. assert (2 ^ Z.of_nat (length r) <= 2 ^ 3) by (apply Z.pow_le_mono_r; lia).
    assert (Ev : bits_value r = 0) by (cbn in *; lia). rewrite Ev.
    rewrite <- (app_nil_r (replicate _ 0)), slide_loop_zeros by lia.
    assert (slide_loop (n - length r) [] = []) as -> by by destruct (n - length r)%nat. rewrite app_nil_r.
    cbn [digits_value length]. rewrite length_replicate. change (2 ^ 1) with 2.
    assert (bits_value (replicate (length r) 0) = 0) as -> by (clear; induction (length r); cbn [replicate digits_value]; lia).
    split_and!; [lia | done |]. constructor; [by right |]. apply Forall_replicate. by left.
  - do 4 (destruct r as [| ? r]; [cbn in Hs; lia |]). rewrite slide_window_full by done.
    apply Forall_cons in Hr as [B1 Hr]. apply Forall_cons in Hr as [B2 Hr]. apply Forall_cons in Hr as [B3 Hr]. apply Forall_cons in Hr as [B4 Hr].
    cbn [length digits_value] in *. rewrite !Nat2Z.inj_succ, !Z.pow_succ_r in Hv by lia. change (2 ^ 1) with 2 in *.
    pose proof (bits_value_range r Hr) as Hru.
    destruct B4 as [-> | ->]; cbn [Z.eqb].
    + pose proof (slide_loop_zeros n 4 r ltac:(lia)) as Ez. cbn [replicate app] in Ez. rewrite Ez.
      destruct (IH (n - 4)%nat ltac:(lia) r ltac:(lia) Hr ltac:(lia)) as (E & El & Ed). cbn [digits_value length]. change (2 ^ 1) with 2.
      split_and!; [lia | lia |]. constructor; [right; all_bits; cbn; split; (done || lia) |]. do 4 (constructor; [by left |]). done.
    + pose proof (slide_loop_zeros n 4 (slide_carry r) ltac:(lia)) as Ez. cbn [replicate app] in Ez. rewrite Ez.
      assert (Hlr : (3 <= length r)%nat).
      { destruct (decide (3 <= length r)%nat); [done |]. assert (2 ^ Z.of_nat (length r) <= 2 ^ 2) by (apply Z.pow_le_mono_r; lia). cbn in *. lia. }
      assert (Hp : exists k, 2 ^ Z.of_nat (length r) = 8 * k).
      { exists (2 ^ (Z.of_nat (length r) - 3)). change 8 with (2 ^ 3). rewrite <- Z.pow_add_r by lia. f_equal. lia. }
      destruct Hp as [k Hk]. assert (Hc : bits_value (slide_carry r) = bits_value r + 1) by (apply slide_carry_value; [done | lia]).
      destruct (IH (n - 4)%nat ltac:(lia) (slide_carry r)) as (E & El & Ed);
        [rewrite slide_carry_length; lia | by apply slide_carry_bits | rewrite slide_carry_length; lia |].
      rewrite slide_carry_length in El. cbn [digits_value length]. change (2 ^ 1) with 2. rewrite E, Hc.
      split_and!; [lia | lia |]. constructor; [right; all_bits; cbn; split; (done || lia) |]. do 4 (constructor; [by left |]). done.
Qed.

Lemma byte_bits_value b : in_u 8 b -> bits (byte_bits b) /\ bits_value (byte_bits b) = b.
Proof.
  intros Hb. assert (H : forallb (fun b => forallb (fun x => (x =? 0) || (x =? 1)) (byte_bits b) && (bits_value (byte_bits b) =? b))
    (map Z.of_nat (seq 0 256)) = true) by by vm_compute.
  pose proof (all_bytes _ H b Hb) as Hc. cbv beta in Hc. rewrite andb_true_iff, Z.eqb_eq in Hc. destruct Hc as [Hc ?]. split; [| done].
  apply Forall_forall. intros x Hx. rewrite forallb_forall in Hc. apply list_elem_of_In in Hx. specialize (Hc x Hx).
  rewrite orb_true_iff, !Z.eqb_eq in Hc. done.
Qed.

Lemma bytes_bits a : bytes a -> let r := concat (map byte_bits a) in
  bits r /\ bits_value r = le_bytes a /\ length r = (8 * length a)%nat.
Proof.
  induction 1 as [| b a Hb _ (IH1 & IH2 & IH3)]; [by split_and!; [constructor | |] |]. cbv zeta in *. cbn [map concat].
  destruct (byte_bits_value b Hb) as [H1 H2]. split_and!.
  - by apply Forall_app.
  - rewrite digits_value_app, H2, IH2 by lia. change (2 ^ (1 * Z.of_nat (length (byte_bits b)))) with 256. done.
  - rewrite length_app, IH3. cbn. lia.
Qed.

Lemma slide_value a : bytes a -> length a = 32%nat -> le_bytes a <= 2 ^ 253 ->
  bits_value (slide a) = le_bytes a /\ length (slide a) = 256%nat /\ Forall slide_digit (slide a).
Proof.
  intros Hb Hl Ha. destruct (bytes_bits a Hb) as (H1 & H2 & H3). rewrite Hl in H3. unfold slide.
  destruct (slide_loop_value 256 (concat (map byte_bits a))) as (E1 & E2 & E3); [lia | done | |].
  - rewrite H2, H3. change (2 ^ Z.of_nat (8 * 32)) with (8 * 2 ^ 253). lia.
  - rewrite E1, E2, H2, H3. done.
Qed.

(** ** Loops over digits *)

Section Loop.
Context {D : Type} (body : D -> ge_p1p1 -> outcome ge_p1p1) (V : D -> point).

(** Horner's rule. *)
Definition horner (ds : list D) (p : point) : point := foldl (fun p dg => p ⊕ p ⊕ V dg) p ds.

Definition body_ok (dg : D) : Prop := forall t p, p1p1_is t p -> exists t', body dg t = Ok t' /\ p1p1_is t' (p ⊕ V dg).

Lemma dsm_loop_is ds r p : Forall body_ok ds -> p2_is r p -> exists r', dsm_loop body ds r = Ok r' /\ p2_is r' (horner ds p).
Proof.
  intros H. revert r p. induction H as [| dg ds Hd _ IH]; intros r p Hr; cbn [dsm_loop horner foldl]; [by exists r |].
  ge_run (ge_p2_dbl_is _ _ Hr). ge_run (Hd _ _ H). ge_run (ge_p1p1_to_p2_is _ _ H0). by apply IH.
Qed.

Lemma dsm_loop_p3_is ds r r3 p : Forall body_ok ds -> p2_is r p -> ds <> [] ->
  exists r', dsm_loop_p3 body ds r r3 = Ok r' /\ p3_is r' (horner ds p).
Proof.
  intros H. revert r p. induction H as [| dg ds Hd _ IH]; intros r p Hr Hne; [done |]. cbn [dsm_loop_p3 horner foldl].
  ge_run (ge_p2_dbl_is _ _ Hr). ge_run (Hd _ _ H). destruct ds as [| dg' ds]; [by apply ge_p1p1_to_p3_is |].
  ge_run (ge_p1p1_to_p2_is _ _ H0). by apply IH.
Qed.

Lemma horner_skip zero ds : (forall dg, zero dg = true -> V dg = gzero) -> horner (skip_zeros zero ds) gzero = horner ds gzero.
Proof.
  intros Hz. induction ds as [| dg ds IH]; [done |]. cbn [skip_zeros]. destruct (zero dg) eqn:E; [| done].
  rewrite IH. unfold horner. cbn [foldl]. by rewrite (Hz dg E), !gadd_zero_l.
Qed.

(** The digits from the lowest one. *)
Fixpoint weighted (ds : list D) : point := match ds with [] => gzero | dg :: ds => V dg ⊕ (weighted ds ⊕ weighted ds) end.

Lemma horner_reverse ds : horner (reverse ds) gzero = weighted ds.
Proof.
  unfold horner. induction ds as [| dg ds IH]; [done |]. rewrite reverse_cons, foldl_app, IH. cbn [foldl weighted]. by rewrite gadd_comm.
Qed.

Lemma skip_zeros_Forall (P : D -> Prop) zero ds : Forall P ds -> Forall P (skip_zeros zero ds).
Proof. induction 1 as [| dg ds H Hds IH]; cbn; [constructor |]. destruct (zero dg); [done | by constructor]. Qed.
End Loop.

(** ** One digit *)

Lemma odd_index dg : Z.odd dg = true -> 0 < dg <= 15 -> (Z.to_nat (Z.quot dg 2) < 8)%nat /\ 2 * Z.of_nat (Z.to_nat (Z.quot dg 2)) + 1 = dg.
Proof.
  intros Ho Hd. rewrite Z.quot_div_nonneg by lia. rewrite Z2Nat.id by (apply Z.div_pos; lia).
  assert (Hm : dg mod 2 = 1) by by rewrite Zmod_odd, Ho. split; [| div_lia]. apply Nat2Z.inj_lt. rewrite Z2Nat.id by (apply Z.div_pos; lia). div_lia.
Qed.

Lemma cached_digit_is tbl A dg : odd_multiples tbl A -> slide_digit dg -> body_ok (cached_digit tbl) (fun dg => dg ⊙ A) dg.
Proof.
  intros [Hl Ht] Hd t p Hp. unfold cached_digit. destruct Hd as [-> | [Ho Hd]].
  { change (0 <? 0) with false. exists t. by rewrite gmul_0, gadd_zero_r. }
  destruct (Z.ltb_spec 0 dg).
  - destruct (odd_index dg Ho ltac:(lia)) as [Hi Ei]. ge_run (ge_p1p1_to_p3_is _ _ Hp).
    destruct (lookup_lt_is_Some_2 tbl (Z.to_nat (Z.quot dg 2))) as [c Hc]; [lia |]. rewrite Hc. simpl_bind.
    specialize (Ht _ _ Hc). rewrite Ei in Ht. by apply ge_add_is.
  - destruct (Z.ltb_spec dg 0); [| destruct dg; (lia || done)]. destruct (odd_index (- dg)) as [Hi Ei]; [by rewrite Z.odd_opp | lia |].
    ge_run (ge_p1p1_to_p3_is _ _ Hp).
    destruct (lookup_lt_is_Some_2 tbl (Z.to_nat (Z.quot (- dg) 2))) as [c Hc]; [lia |]. rewrite Hc. simpl_bind.
    specialize (Ht _ _ Hc). rewrite Ei in Ht. replace (dg ⊙ A) with (⊖ ((- dg) ⊙ A)) by by rewrite gmul_opp, gneg_neg. by apply ge_sub_is.
Qed.

Lemma base_digit_is dg : slide_digit dg -> body_ok base_digit (fun dg => dg ⊙ base) dg.
Proof.
  intros Hd t p Hp. unfold base_digit. destruct Hd as [-> | [Ho Hd]].
  { change (0 <? 0) with false. exists t. by rewrite gmul_0, gadd_zero_r. }
  destruct (Z.ltb_spec 0 dg).
  - destruct (odd_index dg Ho ltac:(lia)) as [Hi Ei]. ge_run (ge_p1p1_to_p3_is _ _ Hp).
    destruct (lookup_lt_is_Some_2 ge_Bi (Z.to_nat (Z.quot dg 2))) as [c Hc]; [exact Hi |]. rewrite Hc. simpl_bind.
    pose proof (ge_Bi_is _ _ Hc) as Ht. rewrite Ei in Ht. by apply ge_madd_is.
  - destruct (Z.ltb_spec dg 0); [| destruct dg; (lia || done)]. destruct (odd_index (- dg)) as [Hi Ei]; [by rewrite Z.odd_opp | lia |].
    ge_run (ge_p1p1_to_p3_is _ _ Hp).
    destruct (lookup_lt_is_Some_2 ge_Bi (Z.to_nat (Z.quot (- dg) 2))) as [c Hc]; [exact Hi |]. rewrite Hc. simpl_bind.
    pose proof (ge_Bi_is _ _ Hc) as Ht. rewrite Ei in Ht. replace (dg ⊙ base) with (⊖ ((- dg) ⊙ base)) by by rewrite gmul_opp, gneg_neg. by apply ge_msub_is.
Qed.

(** ** Sums of multiples *)

Lemma twice_value (x v : Z) (A : point) : (x + 2 ^ 1 * v) ⊙ A = x ⊙ A ⊕ (v ⊙ A ⊕ v ⊙ A).
Proof. rewrite gmul_add. change (2 ^ 1) with 2. by rewrite gmul_mul, gmul_2. Qed.

Lemma gadd_four (p q r s : point) : p ⊕ q ⊕ (r ⊕ s) = p ⊕ r ⊕ (q ⊕ s).
Proof. rewrite <- !gadd_assoc. f_equal. apply gadd_swap. Qed.

Lemma weighted_2 la lb (A B : point) : length la = length lb ->
  weighted (fun dg : Z * Z => dg.1 ⊙ A ⊕ dg.2 ⊙ B) (zip la lb) = bits_value la ⊙ A ⊕ bits_value lb ⊙ B.
Proof.
  revert lb. induction la as [| x la IH]; intros [| y lb] Hl; try done; cbn [zip zip_with weighted digits_value fst snd]; [by rewrite !gmul_0, gadd_zero_l |].
  rewrite (IH lb) by (cbn in Hl; lia). rewrite !twice_value. rewrite (gadd_four (bits_value la ⊙ A)). apply gadd_four.
Qed.

Lemma weighted_3 la lb lc (A B C : point) : length la = length lb -> length la = length lc ->
  weighted (fun dg : Z * Z * Z => dg.1.1 ⊙ A ⊕ dg.1.2 ⊙ B ⊕ dg.2 ⊙ C) (zip (zip la lb) lc) =
    bits_value la ⊙ A ⊕ bits_value lb ⊙ B ⊕ bits_value lc ⊙ C.
Proof.
  revert lb lc. induction la as [| x la IH]; intros [| y lb] [| z lc] Hl Hk; try done; cbn [zip zip_with weighted digits_value fst snd];
    [by rewrite !gmul_0, !gadd_zero_l |].
  rewrite (IH lb lc) by (cbn in *; lia). rewrite !twice_value.
  rewrite (gadd_four (bits_value la ⊙ A ⊕ bits_value lb ⊙ B)), (gadd_four (bits_value la ⊙ A)), gadd_four. f_equal. apply gadd_four.
Qed.

(** A scalar that [slide] recodes exactly. *)
Definition slide_scalar (a : list Z) : Prop := bytes a /\ length a = 32%nat /\ le_bytes a <= 2 ^ 253.

Lemma slide_length a : slide_scalar a -> length (slide a) = 256%nat.
Proof. intros (H1 & H2 & H3). by apply slide_value. Qed.

Lemma slide_bits_value a : slide_scalar a -> bits_value (slide a) = le_bytes a.
Proof. intros (H1 & H2 & H3). by apply slide_value. Qed.

Lemma slide_sum a b (A B : point) : slide_scalar a -> slide_scalar b ->
  horner (fun dg : Z * Z => dg.1 ⊙ A ⊕ dg.2 ⊙ B) (digits_2 a b) gzero = le_bytes a ⊙ A ⊕ le_bytes b ⊙ B.
Proof.
  intros Ha Hb. pose proof (slide_length a Ha) as La. pose proof (slide_length b Hb) as Lb. unfold digits_2.
  rewrite horner_skip; [rewrite horner_reverse, weighted_2 by lia |].
  - destruct Ha as (H1 & H2 & H3), Hb as (H4 & H5 & H6).
    destruct (slide_value a H1 H2 H3) as [-> _], (slide_value b H4 H5 H6) as [-> _]. done.
  - intros [x y]. unfold zero_2. cbn [fst snd]. rewrite andb_true_iff, !Z.eqb_eq. intros [-> ->]. by rewrite !gmul_0, gadd_zero_l.
Qed.

Lemma slide_sum_3 a b c (A B C : point) : slide_scalar a -> slide_scalar b -> slide_scalar c ->
  horner (fun dg : Z * Z * Z => dg.1.1 ⊙ A ⊕ dg.1.2 ⊙ B ⊕ dg.2 ⊙ C) (digits_3 a b c) gzero = le_bytes a ⊙ A ⊕ le_bytes b ⊙ B ⊕ le_bytes c ⊙ C.
Proof.
  intros Ha Hb Hc. pose proof (slide_length a Ha) as La. pose proof (slide_length b Hb) as Lb. pose proof (slide_length c Hc) as Lc. unfold digits_3.
  rewrite horner_skip; [rewrite horner_reverse, weighted_3 by lia |].
  - destruct Ha as (H1 & H2 & H3), Hb as (H4 & H5 & H6), Hc as (H7 & H8 & H9).
    destruct (slide_value a H1 H2 H3) as [-> _], (slide_value b H4 H5 H6) as [-> _], (slide_value c H7 H8 H9) as [-> _]. done.
  - intros [[x y] z]. unfold zero_3. cbn [fst snd]. rewrite !andb_true_iff, !Z.eqb_eq. intros [[-> ->] ->]. by rewrite !gmul_0, !gadd_zero_l.
Qed.

Lemma slide_digits a : slide_scalar a -> Forall slide_digit (slide a).
Proof. intros (H1 & H2 & H3). by apply slide_value. Qed.

Lemma Forall_zip {A B} (P : A -> Prop) (Q : B -> Prop) l k : Forall P l -> Forall Q k -> Forall (fun p => P p.1 /\ Q p.2) (zip l k).
Proof. intros Hl. revert k. induction Hl; intros k Hk; [constructor |]. destruct Hk; [constructor |]. by constructor; [| apply IHHl]. Qed.

Lemma digits_2_ok a b : slide_scalar a -> slide_scalar b -> Forall (fun dg => slide_digit dg.1 /\ slide_digit dg.2) (digits_2 a b).
Proof. intros Ha Hb. apply skip_zeros_Forall, Forall_reverse, Forall_zip; by apply slide_digits. Qed.

Lemma digits_3_ok a b c : slide_scalar a -> slide_scalar b -> slide_scalar c ->
  Forall (fun dg => (slide_digit dg.1.1 /\ slide_digit dg.1.2) /\ slide_digit dg.2) (digits_3 a b c).
Proof.
  intros Ha Hb Hc. apply skip_zeros_Forall, Forall_reverse.
  apply (Forall_zip (fun dg : Z * Z => slide_digit dg.1 /\ slide_digit dg.2)); [| by apply slide_digits].
  apply Forall_zip; by apply slide_digits.
Qed.

Lemma double_base_ok Ai A dg : odd_multiples Ai A -> slide_digit dg.1 /\ slide_digit dg.2 ->
  body_ok (fun '(da, db) t => t ← cached_digit Ai da t; base_digit db t) (fun dg : Z * Z => dg.1 ⊙ A ⊕ dg.2 ⊙ base) dg.
Proof.
  intros HA [H1 H2] t p Hp. destruct dg as [da db]. cbn [fst snd] in *. ge_run (cached_digit_is Ai A da HA H1 _ _ Hp).
  rewrite gadd_assoc. exact (base_digit_is db H2 _ _ H).
Qed.

Lemma double_cached_ok Ai A Bi B dg : odd_multiples Ai A -> odd_multiples Bi B -> slide_digit dg.1 /\ slide_digit dg.2 ->
  body_ok (fun '(da, db) t => t ← cached_digit Ai da t; cached_digit Bi db t) (fun dg : Z * Z => dg.1 ⊙ A ⊕ dg.2 ⊙ B) dg.
Proof.
  intros HA HB [H1 H2] t p Hp. destruct dg as [da db]. cbn [fst snd] in *. ge_run (cached_digit_is Ai A da HA H1 _ _ Hp).
  rewrite gadd_assoc. exact (cached_digit_is Bi B db HB H2 _ _ H).
Qed.

Lemma zip_zero la lb : length la = length lb -> Forall (fun dg : Z * Z => dg = (0, 0)) (zip la lb) -> bits_value la = 0 /\ bits_value lb = 0.
Proof.
  revert lb. induction la as [| x la IH]; intros [| y lb] Hl H; try done. cbn [zip zip_with] in H. apply Forall_cons in H as [E H].
  injection E as -> ->. cbn [digits_value]. destruct (IH lb ltac:(cbn in Hl; lia) H) as [-> ->]. done.
Qed.

Lemma skip_zeros_nil ds : skip_zeros zero_2 ds = [] -> Forall (fun dg => dg = (0, 0)) ds.
Proof.
  induction ds as [| [x y] ds IH]; cbn [skip_zeros]; [constructor |]. unfold zero_2 at 1. cbn [fst snd].
  destruct (Z.eqb_spec x 0) as [-> |], (Z.eqb_spec y 0) as [-> |]; cbn [andb]; try done. intros H. constructor; auto.
Qed.

Section Sums.
Context (a b : list Z) (Ha : slide_scalar a) (Hb : slide_scalar b).

(** r = a * A + b * B *)
Lemma ge_double_scalarmult_base_vartime_is A p : p3_is A p ->
  exists r, ge_double_scalarmult_base_vartime a A b = Ok r /\ p2_is r (le_bytes a ⊙ p ⊕ le_bytes b ⊙ base).
Proof using Ha Hb.
  intros HA. unfold ge_double_scalarmult_base_vartime. ge_run (ge_dsm_precomp_is _ _ HA). rewrite <- (slide_sum a b p base Ha Hb).
  apply dsm_loop_is; [| apply ge_p2_0_is]. eapply Forall_impl; [apply (digits_2_ok a b Ha Hb) |]. intros dg Hd. by apply double_base_ok.
Qed.

Lemma ge_double_scalarmult_precomp_vartime2_is Ai Bi (A B : point) : odd_multiples Ai A -> odd_multiples Bi B ->
  exists r, ge_double_scalarmult_precomp_vartime2 a Ai b Bi = Ok r /\ p2_is r (le_bytes a ⊙ A ⊕ le_bytes b ⊙ B).
Proof using Ha Hb.
  intros HA HB. unfold ge_double_scalarmult_precomp_vartime2. rewrite <- (slide_sum a b A B Ha Hb).
  apply dsm_loop_is; [| apply ge_p2_0_is]. eapply Forall_impl; [apply (digits_2_ok a b Ha Hb) |]. intros dg Hd. by apply double_cached_ok.
Qed.

Lemma ge_double_scalarmult_precomp_vartime_is A Bi p (B : point) : p3_is A p -> odd_multiples Bi B ->
  exists r, ge_double_scalarmult_precomp_vartime a A b Bi = Ok r /\ p2_is r (le_bytes a ⊙ p ⊕ le_bytes b ⊙ B).
Proof using Ha Hb.
  intros HA HB. unfold ge_double_scalarmult_precomp_vartime. ge_run (ge_dsm_precomp_is _ _ HA). by apply ge_double_scalarmult_precomp_vartime2_is.
Qed.

(** The variants that write a [ge_p3] do so when a scalar is not zero. *)
Lemma digits_2_nonempty : le_bytes a <> 0 \/ le_bytes b <> 0 -> digits_2 a b <> [].
Proof using Ha Hb.
  intros Hn E. assert (Hz : Forall (fun dg => dg = (0, 0)) (zip (slide a) (slide b))).
  { rewrite <- Forall_reverse. apply skip_zeros_nil. unfold digits_2 in E. exact E. }
  assert (Hl : length (slide a) = length (slide b)). { rewrite (slide_length a Ha). symmetry. apply (slide_length b Hb). }
  destruct (zip_zero (slide a) (slide b) Hl Hz) as [Ea Eb].
  pose proof (slide_bits_value a Ha) as E1. pose proof (slide_bits_value b Hb) as E2.
  destruct Hn as [Hn | Hn]; apply Hn; [rewrite <- E1; exact Ea | rewrite <- E2; exact Eb].
Qed.

Lemma ge_double_scalarmult_base_vartime_p3_is r3 A p : p3_is A p -> le_bytes a <> 0 \/ le_bytes b <> 0 ->
  exists r, ge_double_scalarmult_base_vartime_p3 r3 a A b = Ok r /\ p3_is r (le_bytes a ⊙ p ⊕ le_bytes b ⊙ base).
Proof using Ha Hb.
  intros HA Hn. unfold ge_double_scalarmult_base_vartime_p3. ge_run (ge_dsm_precomp_is _ _ HA). rewrite <- (slide_sum a b p base Ha Hb).
  apply dsm_loop_p3_is; [| apply ge_p2_0_is | by apply digits_2_nonempty].
  eapply Forall_impl; [apply (digits_2_ok a b Ha Hb) |]. intros dg Hd. by apply double_base_ok.
Qed.

Lemma ge_double_scalarmult_precomp_vartime2_p3_is r3 Ai Bi (A B : point) : odd_multiples Ai A -> odd_multiples Bi B ->
  le_bytes a <> 0 \/ le_bytes b <> 0 ->
  exists r, ge_double_scalarmult_precomp_vartime2_p3 r3 a Ai b Bi = Ok r /\ p3_is r (le_bytes a ⊙ A ⊕ le_bytes b ⊙ B).
Proof using Ha Hb.
  intros HA HB Hn. unfold ge_double_scalarmult_precomp_vartime2_p3. rewrite <- (slide_sum a b A B Ha Hb).
  apply dsm_loop_p3_is; [| apply ge_p2_0_is | by apply digits_2_nonempty].
  eapply Forall_impl; [apply (digits_2_ok a b Ha Hb) |]. intros dg Hd. by apply double_cached_ok.
Qed.

Context (c : list Z) (Hc : slide_scalar c).

(** r = a * G + b * B + c * C *)
Lemma ge_triple_scalarmult_base_vartime_is Bi Ci (B C : point) : odd_multiples Bi B -> odd_multiples Ci C ->
  exists r, ge_triple_scalarmult_base_vartime a b Bi c Ci = Ok r /\ p2_is r (le_bytes a ⊙ base ⊕ le_bytes b ⊙ B ⊕ le_bytes c ⊙ C).
Proof using Ha Hb Hc.
  intros HB HC. unfold ge_triple_scalarmult_base_vartime. rewrite <- (slide_sum_3 a b c base B C Ha Hb Hc).
  apply dsm_loop_is; [| apply ge_p2_0_is]. eapply Forall_impl; [apply (digits_3_ok a b c Ha Hb Hc) |]. intros [[da db] dc] [[H1 H2] H3] t p Hp.
  cbn [fst snd] in *. ge_run (base_digit_is da H1 _ _ Hp). ge_run (cached_digit_is Bi B db HB H2 _ _ H).
  rewrite !gadd_assoc. exact (cached_digit_is Ci C dc HC H3 _ _ H0).
Qed.

Lemma ge_triple_scalarmult_precomp_vartime_is Ai Bi Ci (A B C : point) : odd_multiples Ai A -> odd_multiples Bi B -> odd_multiples Ci C ->
  exists r, ge_triple_scalarmult_precomp_vartime a Ai b Bi c Ci = Ok r /\ p2_is r (le_bytes a ⊙ A ⊕ le_bytes b ⊙ B ⊕ le_bytes c ⊙ C).
Proof using Ha Hb Hc.
  intros HA HB HC. unfold ge_triple_scalarmult_precomp_vartime. rewrite <- (slide_sum_3 a b c A B C Ha Hb Hc).
  apply dsm_loop_is; [| apply ge_p2_0_is]. eapply Forall_impl; [apply (digits_3_ok a b c Ha Hb Hc) |]. intros [[da db] dc] [[H1 H2] H3] t p Hp.
  cbn [fst snd] in *. ge_run (cached_digit_is Ai A da HA H1 _ _ Hp). ge_run (cached_digit_is Bi B db HB H2 _ _ H).
  rewrite !gadd_assoc. exact (cached_digit_is Ci C dc HC H3 _ _ H0).
Qed.
End Sums.

(** ** Selection *)

Lemma within_fits k f : within (bnd k) f -> 0 <= k <= 330 -> Forall (fun x => fits 32 x = true) f.
Proof.
  intros H Hk. unfold within, bnd in H.
  repeat match goal with H : Forall2 _ _ _ |- _ => apply Forall2_cons_inv_l in H as (? & ? & ? & H & ->) end.
  apply Forall2_nil_inv_l in H as ->. unfold inside in *. cbn [fst snd] in *.
  repeat (constructor; [unfold fits; rewrite andb_true_iff, Z.leb_le, Z.ltb_lt; cbn; lia |]). constructor.
Qed.

Lemma fe_cmov_FF {k1 k2 f g x y} b : FF k1 f x -> FF k2 g y -> 0 <= k1 <= 330 -> 0 <= k2 <= 330 -> b = 0 \/ b = 1 ->
  fe_cmov f g b = if b =? 0 then f else g.
Proof.
  intros Hf Hg H1 H2 Hb. apply fe_cmov_select; [| done]. destruct Hf as [Hf _], Hg as [Hg _].
  pose proof (within_length Hf) as Lf. pose proof (within_length Hg) as Lg.
  apply within_fits in Hf, Hg; [| done..]. apply Forall2_same_length_lookup. split; [by rewrite Lf, Lg |].
  intros i u v Hu Hv. split; [exact (Forall_lookup_1 _ _ _ _ Hf Hu) | exact (Forall_lookup_1 _ _ _ _ Hg Hv)].
Qed.

Lemma precomp_cmov_is t u p q b : precomp_is t p -> precomp_is u q -> b = 0 \/ b = 1 -> ge_precomp_cmov t u b = if b =? 0 then t else u.
Proof.
  intros (T1 & T2 & T3) (U1 & U2 & U3) Hb. unfold ge_precomp_cmov.
  rewrite (fe_cmov_FF b T1 U1), (fe_cmov_FF b T2 U2), (fe_cmov_FF b T3 U3) by (done || lia). destruct Hb as [-> | ->]; [by destruct t | by destruct u].
Qed.

Lemma cached_cmov_is t u p q b : cached_is t p -> cached_is u q -> b = 0 \/ b = 1 -> ge_cached_cmov t u b = if b =? 0 then t else u.
Proof.
  intros (z & _ & T1 & T2 & T3 & T4) (z' & _ & U1 & U2 & U3 & U4) Hb. unfold ge_cached_cmov.
  rewrite (fe_cmov_FF b T1 U1), (fe_cmov_FF b T2 U2), (fe_cmov_FF b T3 U3), (fe_cmov_FF b T4 U4) by (done || lia).
  destruct Hb as [-> | ->]; [by destruct t | by destruct u].
Qed.

Lemma equal_is x j : 0 <= x < 256 -> 0 <= j < 256 -> equal x j = if x =? j then 1 else 0.
Proof.
  intros Hx Hj. unfold equal, wrap. rewrite (Z.mod_small x (2 ^ 8)), (Z.mod_small j (2 ^ 8)) by (cbn; lia). destruct (Z.eqb_spec x j) as [-> | Hne]; [by rewrite Z.lxor_nilpotent |].
  assert (H0 : Z.lxor x j <> 0) by by rewrite Z.lxor_eq_0_iff.
  assert (Hr : 0 <= Z.lxor x j < 2 ^ 8).
  { split; [apply Z.lxor_nonneg; lia |]. destruct (Z.eq_dec (Z.lxor x j) 0) as [-> |]; [lia |]. apply Z.log2_lt_pow2; [pose proof (proj2 (Z.lxor_nonneg x j)); lia |].
    eapply Z.le_lt_trans; [apply Z.log2_lxor; lia |]. apply Z.max_lub_lt.
    - destruct (Z.eq_dec x 0) as [-> |]; [cbn; lia |]. apply Z.log2_lt_pow2; cbn; lia.
    - destruct (Z.eq_dec j 0) as [-> |]; [cbn; lia |]. apply Z.log2_lt_pow2; cbn; lia. }
  rewrite (Z.mod_small (Z.lxor x j - 1)) by (cbn in *; lia). rewrite shiftr_div, Z.div_small by (cbn in *; lia). done.
Qed.

Lemma signed_digit_bits b : -8 <= b <= 8 -> negative b = (if b <? 0 then 1 else 0) /\ babs b = Z.abs b.
Proof.
  intros Hb. assert (H : forallb (fun b => (negative b =? (if b <? 0 then 1 else 0)) && (babs b =? Z.abs b)) (map (fun i => Z.of_nat i - 8) (seq 0 17)) = true) by by vm_compute.
  rewrite forallb_forall in H. specialize (H b). rewrite andb_true_iff, !Z.eqb_eq in H. apply H.
  apply in_map_iff. exists (Z.to_nat (b + 8)). split; [lia |]. apply in_seq. lia.
Qed.

(** The moves leave the entry of the given index, or the start. *)
Lemma cmov_from_is {T} (cmov : T -> T -> Z -> T) (good : T -> Prop) tbl j ab t :
  (forall t u b, good t -> good u -> b = 0 \/ b = 1 -> cmov t u b = if b =? 0 then t else u) ->
  Forall good tbl -> good t -> 0 <= ab < 256 -> 0 <= j -> j + Z.of_nat (length tbl) <= 256 ->
  cmov_from cmov tbl j ab t = if j <=? ab then default t (tbl !! Z.to_nat (ab - j)) else t.
Proof.
  intros Hc Htbl. revert j t. induction Htbl as [| u tbl Hu Htbl IH]; intros j t Ht Hab Hj Hl; cbn [cmov_from length] in *; [by destruct (j <=? ab) |].
  rewrite Hc by (try done; rewrite equal_is by lia; destruct (ab =? j); auto). rewrite equal_is by lia.
  destruct (Z.eqb_spec ab j) as [-> | Hne]; cbn [Z.eqb]; rewrite IH by (try done; lia).
  - rewrite Z.leb_refl, Z.sub_diag. destruct (Z.leb_spec (j + 1) j); [lia | done].
  - destruct (Z.leb_spec (j + 1) ab), (Z.leb_spec j ab); try lia; [| done].
    replace (Z.to_nat (ab - j)) with (S (Z.to_nat (ab - (j + 1)))) by lia. done.
Qed.

Lemma precomp_minus t p m : precomp_is t p -> FF 101 m (- ((coords p).1 * (coords p).2 * (d + d)))%fp ->
  precomp_is (Ge_precomp (fe_copy (yminusx t)) (fe_copy (yplusx t)) m) (⊖ p).
Proof.
  intros (T1 & T2 & T3) Hm. unfold precomp_is, fe_copy. cbn [yplusx yminusx xy2d gneg point_group coords eneg fst snd].
  split_and!; fe_done; ring.
Qed.

Lemma cached_minus t p m z : z <> 0%fp -> FF 202 (YplusX t) (((coords p).2 + (coords p).1) * z)%fp ->
  FF 202 (YminusX t) (((coords p).2 - (coords p).1) * z)%fp -> FF 101 (cached_Z t) z ->
  FF 101 m (- ((coords p).1 * (coords p).2 * (d + d) * z))%fp ->
  cached_is (Ge_cached (fe_copy (YminusX t)) (fe_copy (YplusX t)) (fe_copy (cached_Z t)) m) (⊖ p).
Proof.
  intros Hz T1 T2 T3 Hm. exists z. unfold fe_copy. cbn [YplusX YminusX cached_Z T2d gneg point_group coords eneg fst snd].
  split_and!; [done | fe_done; ring ..].
Qed.

(** A multiple with a sign. *)
Lemma abs_multiple b (A : point) : (if b <? 0 then ⊖ (Z.abs b ⊙ A) else Z.abs b ⊙ A) = b ⊙ A.
Proof. destruct (Z.ltb_spec b 0); [rewrite Z.abs_neq, <- gmul_opp by lia; f_equal; lia | by rewrite Z.abs_eq]. Qed.

Lemma select_is pos b : (pos < 32)%nat -> -8 <= b <= 8 ->
  exists t, select pos b = Ok t /\ precomp_is t (b ⊙ (256 ^ Z.of_nat pos ⊙ base)).
Proof.
  intros Hpos Hb. destruct (signed_digit_bits b Hb) as [En Ea]. unfold select. rewrite En, Ea.
  destruct (lookup_lt_is_Some_2 ge_base pos) as [row Hrow]; [exact Hpos |]. rewrite Hrow. simpl_bind.
  assert (Hlen : length row = 8%nat).
  { assert (H8 : forallb (fun r => (length r =? 8)%nat) ge_base = true) by (vm_compute; reflexivity).
    rewrite forallb_forall in H8. apply Nat.eqb_eq, H8. apply list_elem_of_In. by eapply list_elem_of_lookup_2. }
  set (t := cmov_from ge_precomp_cmov row 1 (Z.abs b) ge_precomp_0).
  assert (Ht : precomp_is t (Z.abs b ⊙ (256 ^ Z.of_nat pos ⊙ base))).
  { unfold t. rewrite (cmov_from_is _ (fun t => exists p, precomp_is t p)).
    - destruct (Z.leb_spec 1 (Z.abs b)).
      + destruct (lookup_lt_is_Some_2 row (Z.to_nat (Z.abs b - 1))) as [u Hu]; [lia |]. rewrite Hu. cbn [default].
        pose proof (ge_base_is pos _ row u Hrow Hu) as Hi. rewrite <- gmul_mul. by replace (Z.of_nat (Z.to_nat (Z.abs b - 1)) + 1) with (Z.abs b) in Hi by lia.
      + replace (Z.abs b) with 0 by lia. rewrite gmul_0. apply ge_precomp_0_is.
    - intros t1 t2 b' [p1 H1] [p2 H2] Hb'. by apply (precomp_cmov_is t1 t2 p1 p2).
    - apply Forall_lookup_2. intros j u Hu. eexists. by eapply ge_base_is.
    - eexists. apply ge_precomp_0_is.
    - lia.
    - lia.
    - lia. }
  clearbody t. destruct (fe_neg_FF (proj2 (proj2 Ht))) as (m & E & Hm); [literals |]. refine (exists_bind E _); clear E; cbv beta zeta.
  eexists. split; [reflexivity |]. pose proof (precomp_minus _ _ _ Ht Hm) as Hneg. rewrite <- abs_multiple.
  rewrite (precomp_cmov_is _ _ _ _ _ Ht Hneg) by (destruct (b <? 0); auto). by destruct (b <? 0).
Qed.

(** [tbl] holds [A], [2 A], ..., [8 A]. *)
Definition small_multiples (tbl : list ge_cached) (A : point) : Prop :=
  length tbl = 8%nat /\ forall j c, tbl !! j = Some c -> cached_is c ((Z.of_nat j + 1) ⊙ A).

Lemma select_cached_is tbl A b : small_multiples tbl A -> -8 <= b <= 8 -> exists t, select_cached tbl b = Ok t /\ cached_is t (b ⊙ A).
Proof.
  intros [Hlen Htbl] Hb. destruct (signed_digit_bits b Hb) as [En Ea]. unfold select_cached. rewrite En, Ea.
  set (t := cmov_from ge_cached_cmov tbl 1 (Z.abs b) ge_cached_0).
  assert (Ht : cached_is t (Z.abs b ⊙ A)).
  { unfold t. rewrite (cmov_from_is _ (fun t => exists p, cached_is t p)).
    - destruct (Z.leb_spec 1 (Z.abs b)).
      + destruct (lookup_lt_is_Some_2 tbl (Z.to_nat (Z.abs b - 1))) as [u Hu]; [lia |]. rewrite Hu. cbn [default].
        pose proof (Htbl _ u Hu) as Hi. by replace (Z.of_nat (Z.to_nat (Z.abs b - 1)) + 1) with (Z.abs b) in Hi by lia.
      + replace (Z.abs b) with 0 by lia. rewrite gmul_0. apply ge_cached_0_is.
    - intros t1 t2 b' [p1 H1] [p2 H2] Hb'. by apply (cached_cmov_is t1 t2 p1 p2).
    - apply Forall_lookup_2. intros j u Hu. eexists. by eapply Htbl.
    - eexists. apply ge_cached_0_is.
    - lia.
    - lia.
    - lia. }
  clearbody t. pose proof Ht as (z & Hz & T1 & T2 & T3 & T4). destruct (fe_neg_FF T4) as (m & E & Hm); [literals |].
  refine (exists_bind E _); clear E; cbv beta zeta. eexists. split; [reflexivity |].
  pose proof (cached_minus _ _ _ _ Hz T1 T2 T3 Hm) as Hneg. rewrite <- abs_multiple.
  rewrite (cached_cmov_is _ _ _ _ _ Ht Hneg) by (destruct (b <? 0); auto). by destruct (b <? 0).
Qed.

(** ** Digits of four bits *)

Definition small_digit (b : Z) : Prop := -8 <= b <= 8.

Lemma to_signed_small x : -128 <= x < 128 -> to_signed 8 x = x.
Proof. intros H. apply to_signed_fits; [lia |]. unfold fits. rewrite andb_true_iff, Z.leb_le, Z.ltb_lt. cbn. lia. Qed.

Lemma shift_16 x : Z.shiftl x 4 = 16 * x /\ Z.shiftr x 4 = x / 16.
Proof. rewrite Z.shiftl_mul_pow2, Z.shiftr_div_pow2 by lia. change (2 ^ 4) with 16. lia. Qed.

(** A scalar of 255 bits. *)
Definition scalar_255 (a : list Z) : Prop := bytes a /\ length a = 32%nat /\ le_bytes a < 2 ^ 255.

Lemma top_byte a x : bytes (a ++ [x]) -> length a = 31%nat -> le_bytes (a ++ [x]) < 2 ^ 255 -> 0 <= x <= 127.
Proof.
  intros Hb Hl Hv. apply bytes_app in Hb as [Ha Hx]. apply Forall_cons in Hx as [Hx _]. unfold in_u in Hx.
  rewrite le_bytes_app in Hv. unfold zlen in Hv. rewrite Hl in Hv. cbn [le_bytes] in Hv. pose proof (le_bytes_range a Ha).
  change (256 ^ Z.of_nat 31) with (2 ^ 248) in Hv. lia.
Qed.

Lemma scalarmult_digits_cons x a carry : a <> [] -> scalarmult_digits (x :: a) carry =
  let c2 := Z.shiftr (carry + x + 8) 4 in let c3 := Z.shiftr (c2 + 8) 4 in
  to_signed 8 (carry + x - Z.shiftl c2 4) :: to_signed 8 (c2 - Z.shiftl c3 4) :: scalarmult_digits a c3.
Proof. by destruct a. Qed.

Lemma recode_nibbles_cons x e carry : e <> [] -> recode_nibbles (x :: e) carry =
  let x := to_signed 8 (x + carry) in let c := Z.shiftr (to_signed 8 (x + 8)) 4 in
  to_signed 8 (x - Z.shiftl c 4) :: recode_nibbles e c.
Proof. by destruct e. Qed.

Lemma scalarmult_digits_is a carry : bytes a -> a <> [] -> List.last a 0 <= 127 -> 0 <= carry <= 1 ->
  digits_value 4 (scalarmult_digits a carry) = le_bytes a + carry /\ Forall small_digit (scalarmult_digits a carry).
Proof.
  intros Ha. revert carry. induction Ha as [| x a Hx Ha IH]; intros carry Hne Hlast Hc; [done |]. unfold in_u in Hx. change (2 ^ 8) with 256 in Hx.
  destruct a as [| y a].
  - cbn [List.last] in Hlast. cbn [scalarmult_digits le_bytes]. rewrite !(proj2 (shift_16 _)), !(proj1 (shift_16 _)).
    rewrite !to_signed_small by div_lia. cbn [digits_value]. change (2 ^ 4) with 16. split; [lia |]. repeat constructor; div_lia.
  - rewrite scalarmult_digits_cons by done. cbv zeta. change (List.last (x :: y :: a) 0) with (List.last (y :: a) 0) in Hlast.
    rewrite !(proj2 (shift_16 _)), !(proj1 (shift_16 _)). set (c := carry + x). set (c2 := (c + 8) / 16). set (c3 := (c2 + 8) / 16).
    assert (0 <= c2 <= 16) by (unfold c2, c; div_lia). assert (-8 <= c - 16 * c2 <= 7) by (unfold c2; div_lia).
    assert (0 <= c3 <= 1) by (unfold c3; div_lia). assert (-8 <= c2 - 16 * c3 <= 7) by (unfold c3; div_lia).
    destruct (IH c3) as [E1 E2]; [done | done | done |].
    rewrite !to_signed_small by lia. cbn [digits_value]. change (le_bytes (x :: y :: a)) with (x + 256 * le_bytes (y :: a)). change (2 ^ 4) with 16. rewrite E1. split; [unfold c; lia |].
    constructor; [unfold small_digit; lia |]. constructor; [unfold small_digit; lia | done].
Qed.

Lemma recode_nibbles_is e carry : Forall (fun x => 0 <= x <= 15) e -> e <> [] -> List.last e 0 <= 7 -> 0 <= carry <= 1 ->
  digits_value 4 (recode_nibbles e carry) = digits_value 4 e + carry /\ Forall small_digit (recode_nibbles e carry) /\
  length (recode_nibbles e carry) = length e.
Proof.
  intros He. revert carry. induction He as [| x e Hx He IH]; intros carry Hne Hlast Hc; [done |]. destruct e as [| y e].
  - cbn [List.last] in Hlast. cbn [recode_nibbles]. rewrite to_signed_small by lia. cbn [digits_value]. split_and!; [lia | | done].
    constructor; [unfold small_digit; lia | constructor].
  - rewrite recode_nibbles_cons by done. cbv zeta. change (List.last (x :: y :: e) 0) with (List.last (y :: e) 0) in Hlast.
    rewrite (to_signed_small (x + carry)) by lia.
    rewrite (to_signed_small (x + carry + 8)) by lia. rewrite !(proj2 (shift_16 _)), !(proj1 (shift_16 _)).
    set (c := (x + carry + 8) / 16). assert (0 <= c <= 1) by (unfold c; div_lia). assert (-8 <= x + carry - 16 * c <= 7) by (unfold c; div_lia).
    destruct (IH c) as (E1 & E2 & E3); [done | done | done |]. rewrite to_signed_small by lia.
    change (digits_value 4 (x :: y :: e)) with (x + 2 ^ 4 * digits_value 4 (y :: e)). cbn [digits_value length] in *.
    change (2 ^ 4) with 16 in *. rewrite E1, E3. split_and!; [lia | | done]. constructor; [unfold small_digit; lia | done].
Qed.

Lemma nibbles_is a : bytes a -> digits_value 4 (nibbles a) = le_bytes a /\ Forall (fun x => 0 <= x <= 15) (nibbles a) /\ length (nibbles a) = (2 * length a)%nat.
Proof.
  unfold nibbles. induction 1 as [| x a Hx _ (IH1 & IH2 & IH3)]; [done |]. cbn [map concat app digits_value le_bytes length].
  rewrite IH1, IH3. change 15 with (2 ^ 4 - 1). rewrite !land_mask, shiftr_div by lia. unfold wrap. change (2 ^ 4) with 16.
  unfold in_u in Hx. change (2 ^ 8) with 256 in Hx. split_and!; [div_lia | | lia]. repeat constructor; try div_lia. exact IH2.
Qed.

Lemma last_nibble a x : List.last (nibbles (a ++ [x])) 0 = Z.land (Z.shiftr x 4) 15.
Proof.
  unfold nibbles. rewrite map_app, concat_app. cbn [map concat app].
  change [Z.land x 15; ?v] with ([Z.land x 15] ++ [v]). rewrite app_assoc. apply List.last_last.
Qed.

(** ** Multiples *)

Lemma scalarmult_table_is n A c p k : p3_is A p -> cached_is c (k ⊙ p) -> exists l, scalarmult_table n A c = Ok l /\
  length l = n /\ forall j c', l !! j = Some c' -> cached_is c' ((k + 1 + Z.of_nat j) ⊙ p).
Proof.
  intros HA. revert c k. induction n as [| n IH]; intros c k Hc; cbn [scalarmult_table]; [by exists [] |].
  ge_run (ge_add_is _ _ _ _ HA Hc). ge_run (ge_p1p1_to_p3_is _ _ H). ge_run (ge_p3_to_cached_is _ _ H0).
  assert (Hk : p ⊕ k ⊙ p = (k + 1) ⊙ p) by (rewrite Z.add_1_r; symmetry; apply gmul_succ). rewrite Hk in H1.
  ge_run (IH _ _ H1). destruct H2 as [Hl H2]. eexists. split; [reflexivity |]. split; [cbn; by rewrite Hl |].
  intros [| j] c' Hj; cbn in Hj; [injection Hj as <-; by rewrite Z.add_0_r |].
  specialize (H2 j c' Hj). by replace (k + 1 + Z.of_nat (S j)) with (k + 1 + 1 + Z.of_nat j) by lia.
Qed.

Lemma small_multiples_is A p : p3_is A p -> exists c0 l, ge_p3_to_cached A = Ok c0 /\ scalarmult_table 7 A c0 = Ok l /\ small_multiples (c0 :: l) p.
Proof.
  intros HA. destruct (ge_p3_to_cached_is _ _ HA) as (c0 & E0 & H0). destruct (scalarmult_table_is 7 A c0 p 1 HA) as (l & E & Hl & Hc); [done |].
  exists c0, l. split_and!; [done | done |]. split; [cbn; by rewrite Hl |]. intros [| j] c Hj; cbn in Hj; [by injection Hj as <- |].
  specialize (Hc j c Hj). by replace (Z.of_nat (S j) + 1) with (1 + 1 + Z.of_nat j) by lia.
Qed.

Lemma gmul_16 (p : point) : 16 ⊙ p = (p ⊕ p ⊕ (p ⊕ p) ⊕ (p ⊕ p ⊕ (p ⊕ p))) ⊕ (p ⊕ p ⊕ (p ⊕ p) ⊕ (p ⊕ p ⊕ (p ⊕ p))).
Proof. done. Qed.

Lemma scalarmult_step_is Ai A r p b : small_multiples Ai A -> p2_is r p -> small_digit b ->
  exists t, scalarmult_step Ai r b = Ok t /\ p1p1_is t (16 ⊙ p ⊕ b ⊙ A).
Proof.
  intros HA Hr Hb. unfold scalarmult_step. rewrite gmul_16.
  do 3 (match goal with H : p2_is ?r _ |- exists _, mbind _ (ge_p2_dbl ?r) = _ /\ _ => ge_run (ge_p2_dbl_is _ _ H); clear H end;
    match goal with H : p1p1_is ?t _ |- exists _, mbind _ (ge_p1p1_to_p2 ?t) = _ /\ _ => ge_run (ge_p1p1_to_p2_is _ _ H); clear H end).
  match goal with H : p2_is ?r _ |- _ => ge_run (ge_p2_dbl_is _ _ H) end.
  match goal with H : p1p1_is ?t _ |- _ => ge_run (ge_p1p1_to_p3_is _ _ H) end.
  ge_run (select_cached_is _ _ _ HA Hb). by apply ge_add_is.
Qed.

(** Horner's rule in base 16. *)
Definition horner16 (ds : list Z) (A p : point) : point := foldl (fun p b => 16 ⊙ p ⊕ b ⊙ A) p ds.

Lemma horner16_value ds A : horner16 (reverse ds) A gzero = digits_value 4 ds ⊙ A.
Proof.
  unfold horner16. induction ds as [| b ds IH]; [done |]. rewrite reverse_cons, foldl_app, IH. cbn [foldl digits_value].
  change (2 ^ 4) with 16. rewrite gmul_add, gmul_mul. apply gadd_comm.
Qed.

Lemma scalarmult_loop_is Ai A ds r p : small_multiples Ai A -> Forall small_digit ds -> p2_is r p ->
  exists r', scalarmult_loop Ai ds r = Ok r' /\ p2_is r' (horner16 ds A p).
Proof.
  intros HA Hds. revert r p. induction Hds as [| b ds Hb _ IH]; intros r p Hr; cbn [scalarmult_loop horner16 foldl]; [by exists r |].
  ge_run (scalarmult_step_is _ _ _ _ _ HA Hr Hb). ge_run (ge_p1p1_to_p2_is _ _ H). by apply IH.
Qed.

Lemma scalarmult_loop_p3_is Ai A ds r r3 p : small_multiples Ai A -> Forall small_digit ds -> p2_is r p -> ds <> [] ->
  exists r', scalarmult_loop_p3 Ai ds r r3 = Ok r' /\ p3_is r' (horner16 ds A p).
Proof.
  intros HA Hds. revert r p. induction Hds as [| b ds Hb _ IH]; intros r p Hr Hne; [done |]. cbn [scalarmult_loop_p3 horner16 foldl].
  ge_run (scalarmult_step_is _ _ _ _ _ HA Hr Hb). destruct ds as [| b' ds]; [by apply ge_p1p1_to_p3_is |].
  ge_run (ge_p1p1_to_p2_is _ _ H). by apply IH.
Qed.

Lemma scalar_255_last a : scalar_255 a -> exists b x, a = b ++ [x] /\ length b = 31%nat /\ 0 <= x <= 127.
Proof.
  intros (Hb & Hl & Hv). destruct (exists_last (l := a)) as (b & x & ->); [by intros -> |]. rewrite length_app in Hl. cbn in Hl.
  exists b, x. split; [done |]. split; [lia |]. apply (top_byte b x); [done | lia | done].
Qed.

Lemma scalarmult_digits_value a : scalar_255 a ->
  digits_value 4 (scalarmult_digits a 0) = le_bytes a /\ Forall small_digit (scalarmult_digits a 0) /\ scalarmult_digits a 0 <> [].
Proof.
  intros Ha. destruct (scalar_255_last a Ha) as (b & x & -> & Hl & Hx). destruct Ha as (Hb & _ & _).
  destruct (scalarmult_digits_is (b ++ [x]) 0 Hb) as [E1 E2]; [by destruct b | by rewrite List.last_last; lia | lia |].
  rewrite Z.add_0_r in E1. split_and!; [done | done |]. intros E. destruct b as [| y b]; [done |]. cbn [app] in E.
  rewrite scalarmult_digits_cons in E; [done | by destruct b].
Qed.

Lemma ge_scalarmult_is a A p : scalar_255 a -> p3_is A p -> exists r, ge_scalarmult a A = Ok r /\ p2_is r (le_bytes a ⊙ p).
Proof.
  intros Ha HA. destruct (scalarmult_digits_value a Ha) as (E & Hd & _). destruct (small_multiples_is _ _ HA) as (c0 & l & E1 & E2 & Hs).
  unfold ge_scalarmult. bind_with E1. bind_with E2. rewrite <- E, <- horner16_value. apply scalarmult_loop_is; [done | by apply Forall_reverse | apply ge_p2_0_is].
Qed.

Lemma ge_scalarmult_p3_is r3 a A p : scalar_255 a -> p3_is A p -> exists r, ge_scalarmult_p3 r3 a A = Ok r /\ p3_is r (le_bytes a ⊙ p).
Proof.
  intros Ha HA. destruct (scalarmult_digits_value a Ha) as (E & Hd & Hne). destruct (small_multiples_is _ _ HA) as (c0 & l & E1 & E2 & Hs).
  unfold ge_scalarmult_p3. bind_with E1. bind_with E2. rewrite <- E, <- horner16_value.
  apply scalarmult_loop_p3_is; [done | by apply Forall_reverse | apply ge_p2_0_is |]. intros H. apply Hne. rewrite <- (reverse_involutive (scalarmult_digits a 0)). by rewrite H.
Qed.

Lemma base_loop_is pos ds h p : (pos + length ds <= 32)%nat -> Forall small_digit ds -> p3_is h p ->
  exists r, base_loop pos ds h = Ok r /\ p3_is r (p ⊕ (256 ^ Z.of_nat pos * digits_value 8 ds) ⊙ base).
Proof.
  intros Hp Hds. revert pos h p Hp. induction Hds as [| b ds Hb _ IH]; intros pos h p Hp Hh; cbn [base_loop digits_value length] in *.
  { exists h. by rewrite Z.mul_0_r, gmul_0, gadd_zero_r. }
  ge_run (select_is pos b ltac:(lia) Hb). ge_run (ge_madd_is _ _ _ _ Hh H). ge_run (ge_p1p1_to_p3_is _ _ H0).
  destruct (IH (S pos) _ _ ltac:(lia) H1) as (r & E & Hr). exists r. split; [done |].
  rewrite <- gadd_assoc, <- gmul_mul, <- gmul_add in Hr.
  replace (b * 256 ^ Z.of_nat pos + 256 ^ Z.of_nat (S pos) * digits_value 8 ds)
    with (256 ^ Z.of_nat pos * (b + 2 ^ 8 * digits_value 8 ds)) in Hr; [done |].
  rewrite Nat2Z.inj_succ, Z.pow_succ_r by lia. change (2 ^ 8) with 256. ring.
Qed.

Lemma split_parity n e : length e = (2 * n)%nat -> digits_value 4 e = digits_value 8 (evens e) + 16 * digits_value 8 (odds e) /\
  length (evens e) = n /\ length (odds e) = n.
Proof.
  revert e. induction n as [| n IH]; intros e He; [by destruct e |]. destruct e as [| x [| y e]]; [done | cbn in He; lia |].
  cbn [evens odds digits_value length] in *. destruct (IH e ltac:(lia)) as (E & E1 & E2). rewrite E, E1, E2.
  change (2 ^ 4) with 16. change (2 ^ 8) with 256. split_and!; lia.
Qed.

Lemma evens_odds_Forall (P : Z -> Prop) e : Forall P e -> Forall P (evens e) /\ Forall P (odds e).
Proof.
  intros H. assert (Hn : forall n e, (length e <= n)%nat -> Forall P e -> Forall P (evens e) /\ Forall P (odds e)); [| by apply (Hn (length e))].
  clear. induction n as [| n IH]; intros e Hl He; [destruct e; [done | cbn in Hl; lia] |].
  destruct He as [| x e Hx He]; [done |]. destruct He as [| y e Hy He]; [by split; repeat constructor |].
  cbn [evens odds]. destruct (IH e ltac:(cbn in Hl; lia) He). split; by constructor.
Qed.

(** h = a * B *)
Lemma ge_scalarmult_base_is a : scalar_255 a -> exists h, ge_scalarmult_base a = Ok h /\ p3_is h (le_bytes a ⊙ base).
Proof.
  intros Ha. destruct (scalar_255_last a Ha) as (b & x & Ea & Hl & Hx). destruct Ha as (Hb & Hla & _).
  destruct (nibbles_is a Hb) as (N1 & N2 & N3). rewrite Hla in N3.
  destruct (recode_nibbles_is (nibbles a) 0 N2) as (E1 & E2 & E3).
  { intros E. by rewrite E in N3. }
  { rewrite Ea, last_nibble. change 15 with (2 ^ 4 - 1). rewrite land_mask, shiftr_div by lia. unfold wrap. div_lia. }
  { lia. }
  rewrite Z.add_0_r, N1 in E1. rewrite N3 in E3. unfold ge_scalarmult_base. set (e := recode_nibbles (nibbles a) 0) in *. clearbody e. cbv zeta.
  destruct (split_parity 32 e E3) as (Es & Le & Lo). destruct (evens_odds_Forall _ e E2) as [He Ho]. rewrite <- E1, Es.
  ge_run (base_loop_is 0 (odds e) ge_p3_0 gzero ltac:(lia) Ho ge_p3_0_is). rewrite gadd_zero_l in H.
  ge_run (ge_p3_dbl_is _ _ H). ge_run (ge_p1p1_to_p2_is _ _ H0). ge_run (ge_p2_dbl_is _ _ H1). ge_run (ge_p1p1_to_p2_is _ _ H2).
  ge_run (ge_p2_dbl_is _ _ H3). ge_run (ge_p1p1_to_p2_is _ _ H4). ge_run (ge_p2_dbl_is _ _ H5). ge_run (ge_p1p1_to_p3_is _ _ H6).
  rewrite <- gmul_16, <- gmul_mul in H7. destruct (base_loop_is 0 (evens e) _ _ ltac:(lia) He H7) as (r & E & Hr). exists r. split; [done |].
  rewrite <- gmul_add in Hr.
  replace (digits_value 8 (evens e) + 16 * digits_value 8 (odds e)) with
    (16 * (256 ^ Z.of_nat 0 * digits_value 8 (odds e)) + 256 ^ Z.of_nat 0 * digits_value 8 (evens e)) by (cbn [Z.of_nat]; rewrite Z.pow_0_r; ring).
  done.
Qed.

(** ** The multiplications, as their callers use them *)

(** C20: [ge_add], [ge_sub], [ge_madd], [ge_msub] and [ge_p2_dbl] compute the sum, the difference and the
    double in the group of the curve, for every representation of the arguments: no field operation
    overflows and no denominator vanishes, so there is no exceptional pair of points. *)
Theorem point_operations_exact a b t r p q s : p3_is a p -> cached_is b q -> precomp_is t q -> p2_is r s ->
  (exists h, ge_add a b = Ok h /\ p1p1_is h (p ⊕ q)) /\ (exists h, ge_sub a b = Ok h /\ p1p1_is h (p ⊕ ⊖ q)) /\
  (exists h, ge_madd a t = Ok h /\ p1p1_is h (p ⊕ q)) /\ (exists h, ge_msub a t = Ok h /\ p1p1_is h (p ⊕ ⊖ q)) /\
  (exists h, ge_p2_dbl r = Ok h /\ p1p1_is h (2 ⊙ s)).
Proof.
  intros Ha Hb Ht Hr. split_and!; [by apply ge_add_is | by apply ge_sub_is | by apply ge_madd_is | by apply ge_msub_is | by apply ge_p2_dbl_is].
Qed.

(** The base point. *)
Definition base_p3 : ge_p3 :=
  Ge_p3 [-14297830; -7645148; 16144683; -16471763; 27570974; -2696100; -26142465; 8378389; 20764389; 8758491]
    [-26843541; -6710886; 13421773; -13421773; 26843546; 6710886; -13421773; 13421773; -26843546; -6710886] fe_1
    [28827062; -6116119; -27349572; 244363; 8635006; 11264893; 19351346; 13413597; 16611511; -6414980].

Lemma base_p3_is : p3_is base_p3 base.
Proof.
  exists 1%fp. split; [by vm_compute |]. unfold base_p3. cbn [p3_X p3_Y p3_Z p3_T].
  split_and!; apply FF_alt; (split; [by apply all_in_within | by vm_compute]).
Qed.

Lemma point_operations_exact_witness : p3_is ge_p3_0 gzero /\ cached_is ge_cached_0 gzero /\ precomp_is ge_precomp_0 gzero /\ p2_is (ge_p3_to_p2 base_p3) base /\
  exists h, ge_p2_dbl (ge_p3_to_p2 base_p3) = Ok h /\ p1p1_is h (2 ⊙ base).
Proof.
  pose proof (ge_p3_to_p2_is _ _ base_p3_is) as H. split_and!; [apply ge_p3_0_is | apply ge_cached_0_is | apply ge_precomp_0_is | exact H |].
  exact (proj2 (proj2 (proj2 (proj2 (point_operations_exact _ _ _ _ _ _ _ ge_p3_0_is ge_cached_0_is ge_precomp_0_is H))))).
Defined.

(** For a scalar below 2^255, [ge_scalarmult], [ge_scalarmult_p3] and [ge_scalarmult_base] return the
    multiple of the point (of the base point) by the number that the bytes of the scalar encode. *)
Theorem scalar_multiples_exact a A p r3 : scalar_255 a -> p3_is A p ->
  (exists r, ge_scalarmult a A = Ok r /\ p2_is r (le_bytes a ⊙ p)) /\
  (exists r, ge_scalarmult_p3 r3 a A = Ok r /\ p3_is r (le_bytes a ⊙ p)) /\
  (exists r, ge_scalarmult_base a = Ok r /\ p3_is r (le_bytes a ⊙ base)).
Proof. intros Ha HA. split_and!; [by apply ge_scalarmult_is | by apply ge_scalarmult_p3_is | by apply ge_scalarmult_base_is]. Qed.

(** The order of the group minus 1: the multiple is the opposite of the point. *)
Definition minus_one : list Z := le_encode 32 (2 ^ 252 + 27742317777372353535851937790883648492).

Lemma scalar_multiples_exact_witness : scalar_255 minus_one /\ p3_is base_p3 base /\
  exists r, ge_scalarmult minus_one base_p3 = Ok r /\ p2_is r (le_bytes minus_one ⊙ base).
Proof.
  assert (H : scalar_255 minus_one) by (split_and!; [apply le_encode_bytes | reflexivity | by vm_compute]).
  split_and!; [exact H | exact base_p3_is |]. exact (proj1 (scalar_multiples_exact minus_one base_p3 base ge_p3_0 H base_p3_is)).
Defined.

Lemma zero_scalar_bytes a : bytes a -> length a = 32%nat -> le_bytes a = 0 -> a = replicate 32 0.
Proof. intros Hb Hl Hz. rewrite <- (le_encode_value a Hb), Hl, Hz. reflexivity. Qed.

(** Without a digit the loops that write a [ge_p3] leave it as it was. *)
Lemma digits_2_zero a b : slide_scalar a -> slide_scalar b -> le_bytes a = 0 -> le_bytes b = 0 -> digits_2 a b = [].
Proof.
  intros (Ba & La & _) (Bb & Lb & _) Ha Hb. rewrite (zero_scalar_bytes a), (zero_scalar_bytes b) by done. vm_compute. reflexivity.
Qed.

(** C19: for scalars of 32 bytes up to 2^253 the multiplications in variable time return the sums of
    multiples: of a point and the base point, of two points and of three points, each with a table of
    its own, in all their variants. The two variants that write a [ge_p3] do so when one of the scalars
    is not zero, and otherwise leave what it held. *)
Theorem scalar_sums_exact a b c A Ai Bi Ci (p q s : point) r3 :
  slide_scalar a -> slide_scalar b -> slide_scalar c ->
  p3_is A p -> odd_multiples Ai p -> odd_multiples Bi q -> odd_multiples Ci s ->
  (exists r, ge_double_scalarmult_base_vartime a A b = Ok r /\ p2_is r (le_bytes a ⊙ p ⊕ le_bytes b ⊙ base)) /\
  (exists r, ge_double_scalarmult_precomp_vartime a A b Bi = Ok r /\ p2_is r (le_bytes a ⊙ p ⊕ le_bytes b ⊙ q)) /\
  (exists r, ge_triple_scalarmult_base_vartime a b Bi c Ci = Ok r /\ p2_is r (le_bytes a ⊙ base ⊕ le_bytes b ⊙ q ⊕ le_bytes c ⊙ s)) /\
  (exists r, ge_triple_scalarmult_precomp_vartime a Ai b Bi c Ci = Ok r /\ p2_is r (le_bytes a ⊙ p ⊕ le_bytes b ⊙ q ⊕ le_bytes c ⊙ s)) /\
  (le_bytes a <> 0 \/ le_bytes b <> 0 ->
    (exists r, ge_double_scalarmult_base_vartime_p3 r3 a A b = Ok r /\ p3_is r (le_bytes a ⊙ p ⊕ le_bytes b ⊙ base)) /\
    (exists r, ge_double_scalarmult_precomp_vartime2_p3 r3 a Ai b Bi = Ok r /\ p3_is r (le_bytes a ⊙ p ⊕ le_bytes b ⊙ q))) /\
  (le_bytes a = 0 -> le_bytes b = 0 ->
    ge_double_scalarmult_base_vartime_p3 r3 a A b = Ok r3 /\ ge_double_scalarmult_precomp_vartime2_p3 r3 a Ai b Bi = Ok r3).
Proof.
  intros Ha Hb Hc HA HAi HB HC. split_and!.
  - by apply ge_double_scalarmult_base_vartime_is.
  - by apply ge_double_scalarmult_precomp_vartime_is.
  - by apply ge_triple_scalarmult_base_vartime_is.
  - by apply ge_triple_scalarmult_precomp_vartime_is.
  - intros Hn. split; [by apply ge_double_scalarmult_base_vartime_p3_is | by apply ge_double_scalarmult_precomp_vartime2_p3_is].
  - intros Za Zb. unfold ge_double_scalarmult_base_vartime_p3, ge_double_scalarmult_precomp_vartime2_p3.
    rewrite (digits_2_zero a b Ha Hb Za Zb). split; [| done].
    destruct (ge_dsm_precomp_is _ _ HA) as (l & E & _). by rewrite E.
Qed.

(** The table of [ge_dsm_precomp] for the base point. *)
Definition or_nil (o : outcome (list ge_cached)) : list ge_cached := match o with Ok l => l | _ => [] end.
Definition base_table : list ge_cached := Eval vm_compute in or_nil (ge_dsm_precomp base_p3).

Lemma base_table_is : odd_multiples base_table base.
Proof.
  destruct (ge_dsm_precomp_is _ _ base_p3_is) as (l & E & H). assert (E' : ge_dsm_precomp base_p3 = Ok base_table) by (vm_compute; reflexivity).
  rewrite E' in E. injection E as <-. exact H.
Qed.

(** Twice the base point, with its table. *)
Definition or_0 (o : outcome ge_p3) : ge_p3 := match o with Ok r => r | _ => ge_p3_0 end.
Definition two_p3 : ge_p3 := Eval vm_compute in or_0 (ge_scalarmult_base (le_encode 32 2)).
Definition two_table : list ge_cached := Eval vm_compute in or_nil (ge_dsm_precomp two_p3).

Lemma two_p3_is : p3_is two_p3 (2 ⊙ base).
Proof.
  destruct (ge_scalarmult_base_is (le_encode 32 2)) as (r & E & H).
  { split_and!; [apply le_encode_bytes | reflexivity | by vm_compute]. }
  assert (E' : ge_scalarmult_base (le_encode 32 2) = Ok two_p3) by (vm_compute; reflexivity).
  rewrite E' in E. injection E as <-. exact H.
Qed.

Lemma two_table_is : odd_multiples two_table (2 ⊙ base).
Proof.
  destruct (ge_dsm_precomp_is _ _ two_p3_is) as (l & E & H). assert (E' : ge_dsm_precomp two_p3 = Ok two_table) by (vm_compute; reflexivity).
  rewrite E' in E. injection E as <-. exact H.
Qed.

Lemma scalar_sums_exact_witness : slide_scalar minus_one /\ odd_multiples base_table base /\ odd_multiples two_table (2 ⊙ base) /\
  exists r, ge_triple_scalarmult_precomp_vartime minus_one base_table minus_one two_table minus_one base_table = Ok r /\
    p2_is r (le_bytes minus_one ⊙ base ⊕ le_bytes minus_one ⊙ (2 ⊙ base) ⊕ le_bytes minus_one ⊙ base).
Proof.
  assert (H : slide_scalar minus_one) by (split_and!; [apply le_encode_bytes | reflexivity | by vm_compute]).
  split_and!; [exact H | exact base_table_is | exact two_table_is |].
  exact (proj1 (proj2 (proj2 (proj2 (scalar_sums_exact minus_one minus_one minus_one base_p3 base_table two_table base_table
    base (2 ⊙ base) base ge_p3_0 H H H base_p3_is base_table_is two_table_is base_table_is))))).
Defined.
