(* ===== verification/GroupOrder.v ===== *)
(** The order of the group of the curve.

    The order of the scalars is prime, and every point of the curve vanishes
    when it is multiplied by 8 times it: the base point and a point of order 8
    generate so many points that the curve, which has at most two points for
    each ordinate, has no room for another one. So 8 times any point lies in
    the group that the base point generates, which is what the multiplications
    by 8 of crypto.cpp are for. *)
From Stdlib Require Import Zmod Field Znumtheory.
From Bignums Require Import BigN.BigN.
From stdpp Require Import base list numbers.
From S2P Require Import Prelude FieldOps ScalarOps Primality Groups Edwards Curve25519 PointCodec.
Open Scope Z_scope.

(** ** The order of the scalars *)

Lemma prime_531581 : Z.prime 531581.
Proof. by apply (trial_division 730). Qed.
Lemma prime_1224481 : Z.prime 1224481.
Proof. by apply (trial_division 1106). Qed.

Lemma prime_1257559732178653 : Z.prime 1257559732178653.
Proof. by apply (pocklington_2 _ 2 531581 1224481); [| apply prime_531581 | apply prime_1224481 | | | vm_compute .. ]. Qed.

Lemma prime_4434155615661930479 : Z.prime 4434155615661930479.
Proof. by apply (pocklington_1 _ 2 1257559732178653); [| apply prime_1257559732178653 | | vm_compute ..]. Qed.

Lemma prime_172054593956031949258510691 : Z.prime 172054593956031949258510691.
Proof. by apply (pocklington_1 _ 2 4434155615661930479); [| apply prime_4434155615661930479 | | vm_compute ..]. Qed.

Lemma prime_19757330305831588566944191468367130476339 : Z.prime 19757330305831588566944191468367130476339.
Proof. by apply (pocklington_1 _ 2 172054593956031949258510691); [| apply prime_172054593956031949258510691 | | vm_compute ..]. Qed.

Lemma prime_276602624281642239937218680557139826668747 : Z.prime 276602624281642239937218680557139826668747.
Proof.
  by apply (pocklington_1 _ 2 19757330305831588566944191468367130476339);
    [| apply prime_19757330305831588566944191468367130476339 | | vm_compute ..].
Qed.

Lemma sc_order_prime : Z.prime sc_order.
Proof.
  by apply (pocklington_1 _ 2 276602624281642239937218680557139826668747);
    [| apply prime_276602624281642239937218680557139826668747 | | vm_compute ..].
Qed.

(** ** Orders of points *)

Section Orders.
Context `{Group G}.
Implicit Types p : G.

Lemma gmul_gcd m n p : m ⊙ p = gzero -> n ⊙ p = gzero -> Z.gcd m n ⊙ p = gzero.
Proof.
  intros Hm Hn. destruct (Z.gcd_bezout m n _ eq_refl) as (a & b & <-).
  by rewrite gmul_add, !gmul_mul, Hm, Hn, !gmul_zero_r, gadd_zero_l.
Qed.

Lemma gmul_same m n p : m ⊙ p = n ⊙ p -> (m - n) ⊙ p = gzero.
Proof. intros E. by rewrite gmul_sub, E, gadd_neg_r. Qed.

Lemma gadd_cancel_r p q r : p ⊕ r = q ⊕ r -> p = q.
Proof. rewrite !(gadd_comm _ r). apply gadd_cancel_l. Qed.

Lemma order_prime l n p : Z.prime l -> l ⊙ p = gzero -> p <> gzero -> n ⊙ p = gzero -> (l | n).
Proof.
  intros Hl El Hp En. destruct (Z.eq_dec (Z.gcd l n) 1) as [E | E].
  - pose proof (gmul_gcd _ _ _ El En) as E1. by rewrite E, gmul_1 in E1.
  - destruct (decide (n mod l = 0)) as [D | D]; [apply Z.mod_divide; [pose proof (Z.prime_ge_2 l Hl); lia | done] |].
    exfalso. apply E. apply Z.coprime_prime_l; [done |]. intros D'. apply D. apply Z.mod_divide; [pose proof (Z.prime_ge_2 l Hl); lia | done].
Qed.

Lemma order_8 n p : 8 ⊙ p = gzero -> 4 ⊙ p <> gzero -> n ⊙ p = gzero -> (8 | n).
Proof.
  intros E8 E4 En. pose proof (gmul_gcd _ _ _ E8 En) as E. pose proof (Z.gcd_divide_l 8 n) as [c Hc].
  pose proof (Z.gcd_nonneg 8 n). pose proof (Z.gcd_divide_r 8 n) as Hr. set (g := Z.gcd 8 n) in *.
  assert (Hg : g = 1 \/ g = 2 \/ g = 4 \/ g = 8).
  { assert (0 < g) by (destruct (Z.eq_dec g 0) as [E0 |]; [rewrite E0, Z.mul_0_r in Hc; lia | lia]).
    assert (0 < c) by nia. assert (c <= 8) by nia. assert (c = 1 \/ c = 2 \/ c = 3 \/ c = 4 \/ c = 5 \/ c = 6 \/ c = 7 \/ c = 8) as Hcc by lia.
    clear - Hc Hcc. lia. }
  assert (D : forall k, g * k = 4 -> False).
  { intros k Hk. apply E4. by rewrite <- Hk, Z.mul_comm, gmul_mul, E, gmul_zero_r. }
  destruct Hg as [-> | [-> | [-> | ->]]]; [by destruct (D 4) | by destruct (D 2) | by destruct (D 1) | done].
Qed.
End Orders.

(** A point of order 8. *)
Definition torsion_coords : Fp * Fp :=
  (fp 14399317868200118260347934320527232580618823971194345261214217575416788799818,
   fp 55188659117513257062467267217118295137698188065244968500265048394206261417927).

Lemma torsion_valid : valid torsion_coords.
Proof. by vm_compute. Qed.

Definition torsion : point := Point torsion_coords torsion_valid.

Definition torsion_triple : triple := Eval vm_compute in Triple (big torsion_coords.1) (big torsion_coords.2) BigN.one.

Lemma torsion_tripled : tripled torsion_triple torsion.
Proof. by vm_compute. Qed.

Lemma torsion_8 : 8 ⊙ torsion = gzero.
Proof. eapply triple_zero; [apply tmul_points, torsion_tripled |]. vm_compute. reflexivity. Qed.

(** An ordinate other than 1. *)
Lemma triple_nonzero t p : tripled t p -> Zmod.eqb (fpb (tY t)) (fpb (tZ t)) = false -> p <> gzero.
Proof.
  intros (_ & _ & HY) E ->. cbn [coords gzero point_group ezero snd] in HY. rewrite HY in E.
  replace (1 * fpb (tZ t))%fp with (fpb (tZ t)) in E by ring. by rewrite (proj2 (Zmod.eqb_eq _ _) eq_refl) in E.
Qed.

Lemma torsion_4 : 4 ⊙ torsion <> gzero.
Proof. eapply triple_nonzero; [apply tmul_points, torsion_tripled |]. vm_compute. reflexivity. Qed.

Lemma base_nonzero : base <> gzero.
Proof. eapply triple_nonzero; [apply base_tripled |]. vm_compute. reflexivity. Qed.

Lemma base_order_exact n : n ⊙ base = gzero <-> (sc_order | n).
Proof.
  split; [apply order_prime; [apply sc_order_prime | apply base_order | apply base_nonzero] |].
  intros [c ->]. by rewrite gmul_mul, base_order, gmul_zero_r.
Qed.

(** ** Counting points *)

(** The ordinate and the sign of the abscissa, as a number below twice the prime. *)
Definition point_index (p : point) : Z := 2 * Zmod.to_Z (coords p).2 + Zmod.to_Z (coords p).1 mod 2.

Lemma point_index_inj p q : point_index p = point_index q -> p = q.
Proof.
  unfold point_index. intros E. pose proof (Z.mod_pos_bound (Zmod.to_Z (coords p).1) 2 ltac:(lia)).
  pose proof (Z.mod_pos_bound (Zmod.to_Z (coords q).1) 2 ltac:(lia)). apply encode_inj. unfold encode. f_equal. lia.
Qed.

Lemma point_index_range p : 0 <= point_index p < 2 * fe_prime.
Proof.
  unfold point_index. pose proof (Z.mod_pos_bound (Zmod.to_Z (coords p).1) 2 ltac:(lia)).
  destruct (encode_value p) as [H1 _]. lia.
Qed.

Lemma points_bound (f : Z -> point) n : (forall i j, 0 <= i < n -> 0 <= j < n -> f i = f j -> i = j) -> n <= 2 * fe_prime.
Proof.
  intros Hf. destruct (Z.le_gt_cases n 0) as [Hn | Hn]; [transitivity 0; [done | by vm_compute] |].
  assert (Hle : (length ((fun i => point_index (f i)) <$> seqZ 0 n) <= length (seqZ 0 (2 * fe_prime)))%nat).
  { apply submseteq_length, NoDup_submseteq.
    - apply NoDup_fmap_2_strong; [| apply NoDup_seqZ]. intros i j Hi Hj E. apply elem_of_seqZ in Hi, Hj.
      apply point_index_inj in E. apply Hf; [lia | lia | done].
    - intros k Hk. apply list_elem_of_fmap in Hk as (i & -> & _). apply elem_of_seqZ. pose proof (point_index_range (f i)). lia. }
  rewrite length_fmap, !length_seqZ in Hle. apply Z2Nat.inj_le in Hle; [done | lia | by vm_compute].
Qed.

(** 8 times the order of the scalars annihilates the curve. *)
Lemma curve_exponent p : (8 * sc_order) ⊙ p = gzero.
Proof.
  destruct (decide ((8 * sc_order) ⊙ p = gzero)) as [| Hp]; [done | exfalso].
  assert (H0 : 0 < sc_order) by done. assert (Hlt : 2 * fe_prime < 16 * sc_order) by done. revert Hlt. apply Z.le_ngt.
  set (f i := (i mod sc_order) ⊙ base ⊕ (i / sc_order mod 8) ⊙ torsion ⊕ (i / sc_order / 8) ⊙ p).
  apply (points_bound f). intros i j Hi Hj E.
  assert (Hf : forall i, (8 * sc_order) ⊙ f i = (i / sc_order / 8) ⊙ ((8 * sc_order) ⊙ p)).
  { intros k. unfold f. rewrite !gmul_gadd, (gmul_multiple _ _ base), (gmul_multiple _ _ torsion), !gadd_zero_l.
    - by rewrite <- !gmul_mul, (Z.mul_comm _ (8 * sc_order)).
    - by rewrite Z.mul_comm, gmul_mul, torsion_8, gmul_zero_r.
    - by rewrite gmul_mul, base_order, gmul_zero_r. }
  assert (Hc : i / sc_order / 8 = j / sc_order / 8).
  { assert (Hr : forall k, 0 <= k < 16 * sc_order -> 0 <= k / sc_order / 8 < 2) by (intros k Hk; rewrite Z.div_div by lia;
      split; [apply Z.div_pos | apply Z.div_lt_upper_bound]; lia).
    pose proof (Hr i Hi). pose proof (Hr j Hj). pose proof (f_equal (gmul (8 * sc_order)) E) as E1. rewrite !Hf in E1.
    apply gmul_same in E1. destruct (Z.eq_dec (i / sc_order / 8) (j / sc_order / 8)) as [| Hne]; [done | destruct Hp].
    assert (i / sc_order / 8 - j / sc_order / 8 = 1 \/ i / sc_order / 8 - j / sc_order / 8 = -1) as [Hd | Hd] by lia; rewrite Hd in E1.
    - by rewrite gmul_1 in E1.
    - change (-1) with (- (1)) in E1. rewrite gmul_opp, gmul_1 in E1. by rewrite <- (gneg_neg (_ ⊙ p)), E1, gneg_zero. }
  unfold f in E. rewrite Hc in E. apply gadd_cancel_r in E.
  assert (Ha : i mod sc_order = j mod sc_order).
  { pose proof (f_equal (gmul 8) E) as E1. rewrite !gmul_gadd, !(gmul_multiple _ _ torsion torsion_8), !gadd_zero_r, <- !gmul_mul in E1.
    apply gmul_same, base_order_exact in E1. rewrite <- Z.mul_sub_distr_l in E1. apply Z.gauss in E1; [| by vm_compute].
    pose proof (Z.mod_pos_bound i sc_order H0). pose proof (Z.mod_pos_bound j sc_order H0).
    destruct E1 as [c Hd]. assert (c = 0) by nia. nia. }
  rewrite Ha in E. apply gadd_cancel_l, gmul_same, order_8 in E; [| apply torsion_8 | apply torsion_4].
  pose proof (Z.mod_pos_bound (i / sc_order) 8 ltac:(lia)). pose proof (Z.mod_pos_bound (j / sc_order) 8 ltac:(lia)).
  assert (Hb : i / sc_order mod 8 = j / sc_order mod 8) by (destruct E as [c Hd]; lia).
  rewrite (Z.div_mod i sc_order), (Z.div_mod j sc_order), Ha by lia. f_equal. f_equal.
  rewrite (Z.div_mod (i / sc_order) 8), (Z.div_mod (j / sc_order) 8), Hb, Hc by lia. done.
Qed.

(** Eight times a point is in the group of order [sc_order]. *)
Lemma mul8_order p : sc_order ⊙ (8 ⊙ p) = gzero.
Proof. rewrite <- gmul_mul, Z.mul_comm. apply curve_exponent. Qed.
