(* ===== verification/Random.v ===== *)
(** Random bytes and random scalars.

    The generator of random.c, a Keccak sponge seeded by the system, and the
    draw of a scalar in crypto.cpp. The clients of the generator use it through
    the interface [RandomBytes]: it returns as many bytes as it is asked for.
    The checks of [curstate] in builds with assertions and the lock around the
    generator are not modelled. *)
From stdpp Require Import base list numbers.
From S2P Require Import Prelude FastHash Keccak ScalarOps.
Open Scope Z_scope.

(** What the users of a generator with states [G] rely on. *)
Class RandomBytes {G : Type} (generate : nat -> G -> list Z * G) : Prop := {
  random_length : forall n g, length (generate n g).1 = n;
  random_bytes : forall n g, bytes (generate n g).1
}.

Module Generator.

(** The state as the array [b]; [w] is the view of [words 25].
    Source: src/src/crypto/hash-ops.h:65-68 (hash_state) *)
Definition hash_state := list Z.

(** Source: src/src/crypto/hash.c:39-48 (hash_permutation) *)
Definition hash_permutation (state : hash_state) : hash_state :=
  squeeze 25 (keccakf (words 25 state) 24).

(** [seed] are the bytes that the system returns.
    Source: src/src/crypto/random.c:113-120 (init_random) *)
Definition init_random (state : hash_state) (seed : list Z) : hash_state := take 32 seed ++ drop 32 state.

(** Source: src/src/crypto/random.c:105-111 (deinit_random) *)
Definition deinit_random : hash_state := replicate 200 0.

(** The loop; each turn but the last one writes [HASH_DATA_AREA] bytes.
    Source: src/src/crypto/random.c:134-149 (generate_random_bytes_not_thread_safe) *)
Fixpoint generate_loop (fuel n : nat) (state : hash_state) : list Z * hash_state :=
  let state := hash_permutation state in
  if Z.of_nat n <=? HASH_DATA_AREA then (take n state, state) else
  match fuel with
  | O => (take n state, state)
  | S fuel =>
      let '(result, state') := generate_loop fuel (n - Z.to_nat HASH_DATA_AREA) state in
      (take (Z.to_nat HASH_DATA_AREA) state ++ result, state')
  end.

(** Source: src/src/crypto/random.c:122-149 (generate_random_bytes_not_thread_safe) *)
Definition generate_random_bytes_not_thread_safe (n : nat) (state : hash_state) : list Z * hash_state :=
  if (n =? 0)%nat then ([], state) else generate_loop n n state.

(** [state.b[i] ^= ptr[i]] for the bytes of one round.
    Source: src/src/crypto/random.c:159-160 (add_extra_entropy_not_thread_safe) *)
Fixpoint xor_bytes (data state : list Z) : list Z :=
  match data, state with
  | x :: data, b :: state => Z.lxor b x :: xor_bytes data state
  | _, _ => state
  end.

(** Source: src/src/crypto/random.c:155-163 (add_extra_entropy_not_thread_safe) *)
Fixpoint add_extra_entropy_loop (fuel : nat) (data : list Z) (state : hash_state) : hash_state :=
  match fuel, data with
  | S fuel, _ :: _ =>
      let state := hash_permutation state in
      let round_bytes := Nat.min (Z.to_nat HASH_DATA_AREA) (length data) in
      add_extra_entropy_loop fuel (drop round_bytes data) (xor_bytes (take round_bytes data) state)
  | _, _ => state
  end.

(** Source: src/src/crypto/random.c:151-164 (add_extra_entropy_not_thread_safe) *)
Definition add_extra_entropy_not_thread_safe (data : list Z) (state : hash_state) : hash_state :=
  add_extra_entropy_loop (length data) data state.

(** ** Properties *)

Lemma words_length n buf : length (words n buf) = n.
Proof. revert buf. induction n as [| n IH]; intros buf; cbn; [done |]. by rewrite IH. Qed.

Lemma squeeze_length st n : length (squeeze n st) = (8 * Nat.min n (length st))%nat.
Proof.
  unfold squeeze. rewrite <- length_take. generalize (take n st). clear. intros l.
  induction l as [| x l IH]; cbn [map concat length]; [done |]. rewrite length_app, le_encode_length, IH. lia.
Qed.

Lemma squeeze_bytes st n : bytes (squeeze n st).
Proof.
  unfold squeeze. generalize (take n st). clear. intros l.
  induction l as [| x l IH]; cbn [map concat]; [constructor |]. apply bytes_app. split; [apply le_encode_bytes | done].
Qed.

Lemma hash_permutation_length state : length (hash_permutation state) = 200%nat.
Proof. unfold hash_permutation. rewrite squeeze_length, keccakf_length by apply words_length. done. Qed.

Lemma hash_permutation_bytes state : bytes (hash_permutation state).
Proof. unfold hash_permutation. apply squeeze_bytes. Qed.
#[local] Opaque hash_permutation.

Lemma generate_loop_size fuel n state : (n <= fuel)%nat -> length (generate_loop fuel n state).1 = n /\ bytes (generate_loop fuel n state).1.
Proof.
  assert (Hone : forall n st, (n <= 136)%nat -> length (take n (hash_permutation st)) = n /\ bytes (take n (hash_permutation st))).
  { intros m st Hm. rewrite length_take_le by (rewrite hash_permutation_length; lia). split; [done | apply Forall_take, hash_permutation_bytes]. }
  revert n state. induction fuel as [| fuel IH]; intros n state Hn; cbn [generate_loop].
  - destruct (Z.leb_spec (Z.of_nat n) HASH_DATA_AREA) as [H | H]; apply Hone; lia.
  - destruct (Z.leb_spec (Z.of_nat n) HASH_DATA_AREA) as [H | H]; [apply Hone; unfold HASH_DATA_AREA in H; lia |].
    unfold HASH_DATA_AREA in H. change (Z.to_nat HASH_DATA_AREA) with 136%nat.
    destruct (IH (n - 136)%nat (hash_permutation state) ltac:(lia)) as [IH1 IH2].
    destruct (generate_loop fuel _ _) as [r st']. cbn [fst] in *. destruct (Hone 136%nat state (le_n _)) as [H1 H2].
    rewrite length_app, H1, IH1. split; [lia |]. apply bytes_app. split; [exact H2 | exact IH2].
Qed.

(** More turns than the call allows change nothing: the loop ends by itself. *)
Lemma generate_loop_fuel fuel n state : (n <= fuel)%nat -> generate_loop fuel n state = generate_loop n n state.
Proof.
  enough (H : forall f g m st, (m <= f)%nat -> (m <= g)%nat -> generate_loop f m st = generate_loop g m st) by (intros; apply H; lia).
  clear. intros f. induction f as [| f IH]; intros g m st Hf Hg.
  - destruct g; cbn [generate_loop]; destruct (Z.leb_spec (Z.of_nat m) HASH_DATA_AREA) as [| H]; try done; unfold HASH_DATA_AREA in H; lia.
  - destruct g as [| g]; cbn [generate_loop]; destruct (Z.leb_spec (Z.of_nat m) HASH_DATA_AREA) as [| H]; try done; unfold HASH_DATA_AREA in H; [lia |].
    change (Z.to_nat HASH_DATA_AREA) with 136%nat. by rewrite (IH g) by lia.
Qed.

#[export] Instance generator_interface : RandomBytes generate_random_bytes_not_thread_safe.
Proof.
  split; intros n g; unfold generate_random_bytes_not_thread_safe; destruct (Nat.eqb_spec n 0) as [-> | H]; cbn [fst]; try done;
    [apply generate_loop_size; lia | constructor | apply generate_loop_size; lia].
Qed.
End Generator.

(** ** Scalars *)

(** From the last byte down.
    Source: src/src/crypto/crypto.cpp:152-159 (less32) *)
Fixpoint less_down (k0 k1 : list Z) : bool :=
  match k0, k1 with
  | x :: k0, y :: k1 => if x <? y then true else if y <? x then false else less_down k0 k1
  | _, _ => false
  end.

(** Source: src/src/crypto/crypto.cpp:150-160 (less32) *)
Definition less32 (k0 k1 : list Z) : bool := less_down (reverse k0) (reverse k1).

(** Source: src/src/crypto/crypto.cpp:166-166 (random32_unbiased) *)
Definition limit : list Z :=
  [0xe3; 0x6a; 0x67; 0x72; 0x8b; 0xce; 0x13; 0x29; 0x8f; 0x30; 0x82; 0x8c; 0x0b; 0xa4; 0x10; 0x39;
   0x01; 0x00; 0x00; 0x00; 0x00; 0x00; 0x00; 0x00; 0x00; 0x00; 0x00; 0x00; 0x00; 0x00; 0x00; 0xf0].

Section Draw.
Context {G : Type} (generate_random_bytes_thread_safe : nat -> G -> list Z * G).

(** The loop, with a bound on the draws.
    Source: src/src/crypto/crypto.cpp:167-170 (random32_unbiased) *)
Fixpoint draw_loop (fuel : nat) (g : G) : option (list Z * G) :=
  match fuel with
  | O => None
  | S fuel =>
      let '(bytes, g) := generate_random_bytes_thread_safe 32 g in
      if negb (negb (sc_isnonzero bytes =? 0)) && negb (less32 bytes limit) then draw_loop fuel g else Some (bytes, g)
  end.

(** Source: src/src/crypto/crypto.cpp:162-172 (random32_unbiased) *)
Definition random32_unbiased (fuel : nat) (g : G) : outcome (list Z * G) :=
  '(bytes, g) ← at_or_undef (draw_loop fuel g);
  bytes ← sc_reduce32 bytes;
  Ok (bytes, g).

(** One draw is all that the loop ever makes ([random_scalar_one_draw]).
    Source: src/src/crypto/crypto.cpp:174-176 (random_scalar) *)
Definition random_scalar (g : G) : outcome (list Z * G) := random32_unbiased 1 g.
End Draw.

(** ** Properties *)

Lemma less_down_value k0 k1 : length k0 = length k1 -> bytes k0 -> bytes k1 ->
  less_down k0 k1 = (le_bytes (reverse k0) <? le_bytes (reverse k1)).
Proof.
  revert k1. induction k0 as [| x k0 IH]; intros [| y k1] Hl H0 H1; try done. cbn [less_down].
  apply Forall_cons in H0 as [Hx H0], H1 as [Hy H1]. injection Hl as Hl. rewrite !reverse_cons, !le_bytes_app, (IH k1) by done.
  unfold zlen. rewrite !length_reverse, <- Hl. cbn [le_bytes].
  pose proof (le_bytes_range (reverse k0) ltac:(by apply Forall_reverse)) as R0. pose proof (le_bytes_range (reverse k1) ltac:(by apply Forall_reverse)) as R1.
  unfold zlen in R0, R1. rewrite length_reverse in R0, R1. rewrite <- Hl in R1. set (b := 256 ^ Z.of_nat (length k0)) in *.
  unfold in_u in Hx, Hy.
  destruct (Z.ltb_spec x y); [symmetry; apply Z.ltb_lt; nia |]. destruct (Z.ltb_spec y x); [symmetry; apply Z.ltb_ge; nia |].
  assert (x = y) as -> by lia. apply eq_bool_prop_intro. rewrite !Is_true_true, !Z.ltb_lt. lia.
Qed.

Lemma less32_value k0 k1 : is_scalar k0 -> is_scalar k1 -> less32 k0 k1 = (le_bytes k0 <? le_bytes k1).
Proof.
  intros [B0 L0] [B1 L1]. unfold less32. rewrite less_down_value; [by rewrite !reverse_involutive | by rewrite !length_reverse, L0, L1 | by apply Forall_reverse ..].
Qed.

Lemma limit_value : le_bytes limit = 15 * sc_order.
Proof. done. Qed.

Lemma limit_scalar : is_scalar limit.
Proof. split; [by_decide | done]. Qed.

(** A reduced scalar. *)
Definition reduced (s : list Z) : Prop := is_scalar s /\ le_bytes s < sc_order.

Lemma reduced_encode x : reduced (le_encode 32 (x mod sc_order)).
Proof.
  pose proof (Z.mod_pos_bound x sc_order ltac:(done)). assert (sc_order < 256 ^ Z.of_nat 32) by done.
  split; [split; [apply le_encode_bytes | apply le_encode_length] |]. rewrite le_bytes_encode by lia. lia.
Qed.

Lemma le_bytes_reduced x : le_bytes (le_encode 32 (x mod sc_order)) = x mod sc_order.
Proof.
  pose proof (Z.mod_pos_bound x sc_order ltac:(done)). assert (sc_order < 256 ^ Z.of_nat 32) by done.
  apply le_bytes_encode. lia.
Qed.

Section DrawProofs.
Context {G : Type} (gen : nat -> G -> list Z * G) `{!RandomBytes gen}.

Lemma random_is_scalar g : is_scalar (gen 32 g).1.
Proof. split; [apply random_bytes | apply random_length]. Qed.

Lemma draw_loop_first fuel g : (0 < fuel)%nat -> draw_loop gen fuel g = Some (gen 32 g).
Proof.
  intros Hf. destruct fuel as [| fuel]; [lia |]. cbn [draw_loop]. pose proof (random_is_scalar g) as Hs.
  destruct (gen 32 g) as [b g']. cbn [fst] in Hs. rewrite (sc_isnonzero_exact b (proj1 Hs)), less32_value, limit_value by (done || apply limit_scalar).
  destruct (Z.eqb_spec (le_bytes b) 0) as [E | E]; [| done]. rewrite E. done.
Qed.

Lemma random_value fuel g : (0 < fuel)%nat ->
  random32_unbiased gen fuel g = Ok (le_encode 32 (le_bytes (gen 32 g).1 mod sc_order), (gen 32 g).2).
Proof.
  intros Hf. unfold random32_unbiased. rewrite draw_loop_first by done. pose proof (random_is_scalar g) as Hs.
  destruct (gen 32 g) as [b g']. cbn [fst snd] in *. simpl_bind. rewrite sc_reduce32_correct by done. done.
Qed.

Lemma random_scalar_value g : random_scalar gen g = Ok (le_encode 32 (le_bytes (gen 32 g).1 mod sc_order), (gen 32 g).2).
Proof. apply random_value. lia. Qed.

(** C23: [random32_unbiased] always stops after its first draw, whatever the generator returns, since the
    condition that repeats the draw asks for a zero that is not below the limit; the scalar is the first draw
    modulo the order, also for a draw at or beyond the limit, which the loop is there to reject, and for
    a draw of zero. *)
Theorem random_scalar_one_draw fuel g : (0 < fuel)%nat ->
  draw_loop gen fuel g = Some (gen 32 g) /\
  exists s, random32_unbiased gen fuel g = Ok (s, (gen 32 g).2) /\ reduced s /\ le_bytes s = le_bytes (gen 32 g).1 mod sc_order.
Proof.
  intros Hf. split; [by apply draw_loop_first |]. eexists. split; [by apply random_value |]. split; [apply reduced_encode | apply le_bytes_reduced].
Qed.
End DrawProofs.

(** A generator that repeats one byte. *)
Definition constant_bytes (n : nat) (g : Z) : list Z * Z := (replicate n (u8 g), g).

#[export] Instance constant_bytes_interface : RandomBytes constant_bytes.
Proof. split; intros n g; cbn [constant_bytes fst]; [apply length_replicate | apply Forall_replicate, wrap_range; lia]. Qed.

(** The largest draw is beyond the limit and is taken; so is a draw of zero. *)
Lemma random_scalar_one_draw_witness :
  less32 (constant_bytes 32 255).1 limit = false /\ draw_loop constant_bytes 5 255 = Some (constant_bytes 32 255) /\
  exists s, random32_unbiased constant_bytes 5 0 = Ok (s, 0) /\ le_bytes s = 0.
Proof.
  split; [reflexivity |]. split; [exact (proj1 (random_scalar_one_draw constant_bytes 5 255 ltac:(lia))) |].
  destruct (random_scalar_one_draw constant_bytes 5 0 ltac:(lia)) as [_ (s & E & _ & V)]. exists s. split; [exact E | exact V].
Defined.
