(* ===== verification/Keys.v ===== *)
(** Keys, derivations and signatures ([src/crypto/crypto.cpp]).

    Keys, derivations, scalars and hashes are strings of 32 bytes, as in the
    code. The hash and the generator of random bytes are parameters with the
    interfaces [FastHash] and [RandomBytes]; [NDEBUG] selects the build, since
    the code asserts some of its preconditions. A function that returns false
    leaves its result unwritten: it returns [None]. *)
From stdpp Require Import base list numbers.
From S2P Require Import Prelude FastHash Varint Limbs ScalarOps FieldOps CurveData Groups Curve25519 GroupOps PointCodec HashPoint ScalarMult GroupOrder Random.
Open Scope Z_scope.

(** Source: src/src/crypto/crypto.h:98-101 (signature) *)
Record signature := Signature { sig_c : list Z; sig_r : list Z }.

Section Operations.
Context (NDEBUG : bool) (cn_fast_hash : list Z -> list Z).
Context {G : Type} (generate_random_bytes_thread_safe : nat -> G -> list Z * G).
Abbreviation random_scalar := (random_scalar generate_random_bytes_thread_safe).

(** Code for builds with assertions. *)
Definition debug (m : outcome unit) : outcome unit := if NDEBUG then Ok tt else m.

(** [sc_check(s) == 0]. *)
Definition checked (s : list Z) : outcome bool := c ← sc_check s; Ok (c =? 0).

(** Source: src/src/crypto/crypto.cpp:178-181 (hash_to_scalar) *)
Definition hash_to_scalar (data : list Z) : outcome (list Z) := sc_reduce32 (cn_fast_hash data).

(** The public key, the secret key and the value returned.
    Source: src/src/crypto/crypto.cpp:188-208 (generate_keys) *)
Definition generate_keys (recovery_key : list Z) (recover : bool) (g : G) : outcome (list Z * list Z * list Z * G) :=
  '(rng, g) ← (if recover then Ok (recovery_key, g) else random_scalar g);
  sec ← sc_reduce32 rng;
  point ← ge_scalarmult_base sec;
  pub ← ge_p3_tobytes point;
  Ok (pub, sec, rng, g).

(** Source: src/src/crypto/crypto.cpp:210-213 (check_key) *)
Definition check_key (key : list Z) : outcome bool := point ← ge_frombytes_vartime key; Ok (bool_decide (is_Some point)).

(** Source: src/src/crypto/crypto.cpp:215-223 (secret_key_to_public_key) *)
Definition secret_key_to_public_key (sec : list Z) : outcome (option (list Z)) :=
  ok ← checked sec;
  if negb ok then Ok None else
  point ← ge_scalarmult_base sec;
  pub ← ge_p3_tobytes point;
  Ok (Some pub).

(** Source: src/src/crypto/crypto.cpp:225-238 (generate_key_derivation) *)
Definition generate_key_derivation (key1 key2 : list Z) : outcome (option (list Z)) :=
  _ ← debug (ok ← checked key2; assert ok);
  point ← ge_frombytes_vartime key1;
  match point with
  | None => Ok None
  | Some point =>
      point2 ← ge_scalarmult key2 point;
      point3 ← ge_mul8 point2;
      point2 ← ge_p1p1_to_p2 point3;
      derivation ← ge_tobytes point2;
      Ok (Some derivation)
  end.

(** The array of the index has 10 bytes.
    Source: src/src/crypto/crypto.cpp:240-250 (derivation_to_scalar) *)
Definition derivation_to_scalar (derivation : list Z) (output_index : Z) : outcome (list Z) :=
  let enc := get_varint_data output_index in
  _ ← assert (length enc <=? 10)%nat;
  hash_to_scalar (derivation ++ enc).

(** The sum or the difference with the multiple of the base point.
    Source: src/src/crypto/crypto.cpp:252-270 (derive_public_key) *)
Definition derive_public_key (derivation : list Z) (output_index : Z) (base : list Z) : outcome (option (list Z)) :=
  point1 ← ge_frombytes_vartime base;
  match point1 with
  | None => Ok None
  | Some point1 =>
      scalar ← derivation_to_scalar derivation output_index;
      point2 ← ge_scalarmult_base scalar;
      point3 ← ge_p3_to_cached point2;
      point4 ← ge_add point1 point3;
      point5 ← ge_p1p1_to_p2 point4;
      derived_key ← ge_tobytes point5;
      Ok (Some derived_key)
  end.

(** Source: src/src/crypto/crypto.cpp:272-278 (derive_secret_key) *)
Definition derive_secret_key (derivation : list Z) (output_index : Z) (base : list Z) : outcome (list Z) :=
  _ ← debug (ok ← checked base; assert ok);
  scalar ← derivation_to_scalar derivation output_index;
  sc_add base scalar.

(** Source: src/src/crypto/crypto.cpp:280-297 (derive_subaddress_public_key) *)
Definition derive_subaddress_public_key (out_key derivation : list Z) (output_index : Z) : outcome (option (list Z)) :=
  point1 ← ge_frombytes_vartime out_key;
  match point1 with
  | None => Ok None
  | Some point1 =>
      scalar ← derivation_to_scalar derivation output_index;
      point2 ← ge_scalarmult_base scalar;
      point3 ← ge_p3_to_cached point2;
      point4 ← ge_sub point1 point3;
      point5 ← ge_p1p1_to_p2 point4;
      derived_key ← ge_tobytes point5;
      Ok (Some derived_key)
  end.

(** ** Signatures *)

(** Source: src/src/crypto/crypto.cpp:299-303 (s_comm) *)
Definition s_comm (h key comm : list Z) : list Z := h ++ key ++ comm.

(** Source: src/src/crypto/crypto.cpp:305-310 (s_comm_2) *)
Definition s_comm_2 (msg D X Y : list Z) : list Z := msg ++ D ++ X ++ Y.

(** The jumps to [try_again], with a bound.
    Source: src/src/crypto/crypto.cpp:328-337 (generate_signature) *)
Fixpoint try_again (fuel : nat) (prefix_hash pub sec : list Z) (g : G) : outcome (signature * G) :=
  match fuel with
  | O => Undef
  | S fuel =>
      '(k, g) ← random_scalar g;
      tmp3 ← ge_scalarmult_base k;
      comm ← ge_p3_tobytes tmp3;
      c ← hash_to_scalar (s_comm prefix_hash pub comm);
      if sc_isnonzero c =? 0 then try_again fuel prefix_hash pub sec g else
      r ← sc_mulsub c sec k;
      if sc_isnonzero r =? 0 then try_again fuel prefix_hash pub sec g else
      Ok (Signature c r, g)
  end.

(** Source: src/src/crypto/crypto.cpp:312-338 (generate_signature) *)
Definition generate_signature (fuel : nat) (prefix_hash pub sec : list Z) (g : G) : outcome (signature * G) :=
  _ ← debug (ok ← checked sec; _ ← assert ok; t ← ge_scalarmult_base sec; t2 ← ge_p3_tobytes t; assert (bool_decide (pub = t2)));
  try_again fuel prefix_hash pub sec g.

(** Source: src/src/crypto/crypto.cpp:356-356 (check_signature) *)
Definition infinity : list Z := 1 :: replicate 31 0.

(** Source: src/src/crypto/crypto.cpp:340-362 (check_signature) *)
Definition check_signature (prefix_hash pub : list Z) (sig : signature) : outcome bool :=
  _ ← debug (ok ← check_key pub; assert ok);
  tmp3 ← ge_frombytes_vartime pub;
  match tmp3 with
  | None => Ok false
  | Some tmp3 =>
      c_ok ← checked (sig_c sig);
      r_ok ← checked (sig_r sig);
      if negb c_ok || negb r_ok || (sc_isnonzero (sig_c sig) =? 0) then Ok false else
      tmp2 ← ge_double_scalarmult_base_vartime (sig_c sig) tmp3 (sig_r sig);
      comm ← ge_tobytes tmp2;
      if bool_decide (comm = infinity) then Ok false else
      c ← hash_to_scalar (s_comm prefix_hash pub comm);
      c ← sc_sub c (sig_c sig);
      Ok (sc_isnonzero c =? 0)
  end.

(** ** Proofs of transactions *)

(** [r*B], or [r*G] without [B], as bytes.
    Source: src/src/crypto/crypto.cpp:409-422 (generate_tx_proof) *)
Definition mult_or_base (k : list Z) (B : option ge_p3) : outcome (list Z) :=
  match B with
  | Some B_p3 => X_p2 ← ge_scalarmult k B_p3; ge_tobytes X_p2
  | None => X_p3 ← ge_scalarmult_base k; ge_p3_tobytes X_p3
  end.

(** A point that has to be valid.
    Source: src/src/crypto/crypto.cpp:370-373 (generate_tx_proof) *)
Definition decode_or_throw (what : string) (key : list Z) : outcome ge_p3 :=
  p ← ge_frombytes_vartime key;
  match p with Some p => Ok p | None => Throw what end.

(** Source: src/src/crypto/crypto.cpp:372-372 (generate_tx_proof) *)
Definition decode_opt_or_throw (what : string) (key : option (list Z)) : outcome (option ge_p3) :=
  match key with None => Ok None | Some key => p ← decode_or_throw what key; Ok (Some p) end.

(** Source: src/src/crypto/crypto.cpp:364-434 (generate_tx_proof) *)
Definition generate_tx_proof (prefix_hash R A : list Z) (B : option (list Z)) (D r : list Z) (g : G) : outcome (signature * G) :=
  R_p3 ← decode_or_throw "tx pubkey is invalid" R;
  A_p3 ← decode_or_throw "recipient view pubkey is invalid" A;
  B_p3 ← decode_opt_or_throw "recipient spend pubkey is invalid" B;
  D_p3 ← decode_or_throw "key derivation is invalid" D;
  _ ← debug (ok ← checked r; _ ← assert ok;
             dbg_R ← mult_or_base r B_p3; _ ← assert (bool_decide (R = dbg_R));
             dbg_D ← mult_or_base r (Some A_p3); assert (bool_decide (D = dbg_D)));
  '(k, g) ← random_scalar g;
  X ← mult_or_base k B_p3;
  Y ← mult_or_base k (Some A_p3);
  c ← hash_to_scalar (s_comm_2 prefix_hash D X Y);
  sig_r ← sc_mulsub c r k;
  Ok (Signature c sig_r, g).

(** [s*P] through its encoding, as a point to add.
    Source: src/src/crypto/crypto.cpp:450-456 (check_tx_proof) *)
Definition mult_decoded (s : list Z) (P : ge_p3) : outcome (option ge_p3) :=
  cR_p2 ← ge_scalarmult s P;
  cR ← ge_tobytes cR_p2;
  ge_frombytes_vartime cR.

(** The rest of a function that returns false on [None]. *)
Definition or_false {A} (o : option A) (k : A -> outcome bool) : outcome bool :=
  match o with Some a => k a | None => Ok false end.

(** An optional key: nothing when it is not valid.
    Source: src/src/crypto/crypto.cpp:444-444 (check_tx_proof) *)
Definition decode_opt (key : option (list Z)) : outcome (option (option ge_p3)) :=
  match key with
  | None => Ok (Some None)
  | Some key => p ← ge_frombytes_vartime key; Ok (match p with Some p => Some (Some p) | None => None end)
  end.

(** Source: src/src/crypto/crypto.cpp:462-476 (check_tx_proof) *)
Definition mult_or_base_decoded (s : list Z) (B : option ge_p3) : outcome (option ge_p3) :=
  match B with
  | Some B_p3 => mult_decoded s B_p3
  | None => rG_p3 ← ge_scalarmult_base s; Ok (Some rG_p3)
  end.

(** [P + Q], as bytes.
    Source: src/src/crypto/crypto.cpp:477-482 (check_tx_proof) *)
Definition sum_bytes (P Q : ge_p3) : outcome (list Z) :=
  Q_cached ← ge_p3_to_cached Q;
  X_p1p1 ← ge_add P Q_cached;
  X_p2 ← ge_p1p1_to_p2 X_p1p1;
  ge_tobytes X_p2.

(** Source: src/src/crypto/crypto.cpp:436-520 (check_tx_proof) *)
Definition check_tx_proof (prefix_hash R A : list Z) (B : option (list Z)) (D : list Z) (sig : signature) : outcome bool :=
  R_p3 ← ge_frombytes_vartime R; or_false R_p3 (fun R_p3 =>
  A_p3 ← ge_frombytes_vartime A; or_false A_p3 (fun A_p3 =>
  B_p3 ← decode_opt B; or_false B_p3 (fun B_p3 =>
  D_p3 ← ge_frombytes_vartime D; or_false D_p3 (fun D_p3 =>
  c_ok ← checked (sig_c sig);
  r_ok ← checked (sig_r sig);
  if negb c_ok || negb r_ok then Ok false else
  cR_p3 ← mult_decoded (sig_c sig) R_p3; or_false cR_p3 (fun cR_p3 =>
  rB_p3 ← mult_or_base_decoded (sig_r sig) B_p3; or_false rB_p3 (fun rB_p3 =>
  X ← sum_bytes cR_p3 rB_p3;
  cD_p3 ← mult_decoded (sig_c sig) D_p3;
  rA_p3 ← mult_decoded (sig_r sig) A_p3; or_false cD_p3 (fun cD_p3 => or_false rA_p3 (fun rA_p3 =>
  Y ← sum_bytes cD_p3 rA_p3;
  c2 ← hash_to_scalar (s_comm_2 prefix_hash D X Y);
  c2 ← sc_sub c2 (sig_c sig);
  Ok (sc_isnonzero c2 =? 0))))))))).

(** ** Ring signatures *)

(** Source: src/src/crypto/crypto.cpp:522-530 (hash_to_ec) *)
Definition hash_to_ec (key : list Z) : outcome ge_p3 :=
  point ← ge_fromfe_frombytes_vartime (cn_fast_hash key);
  point2 ← ge_mul8 point;
  ge_p1p1_to_p3 point2.

(** Source: src/src/crypto/crypto.cpp:532-539 (generate_key_image) *)
Definition generate_key_image (pub sec : list Z) : outcome (list Z) :=
  _ ← debug (ok ← checked sec; assert ok);
  point ← hash_to_ec pub;
  point2 ← ge_scalarmult sec point;
  ge_tobytes point2.

(** The two commitments of one public key with a signature.
    Source: src/src/crypto/crypto.cpp:606-610 (generate_ring_signature) *)
Definition ring_commitments (image_pre : list ge_cached) (pub : list Z) (tmp3 : ge_p3) (s : signature) : outcome (list Z * list Z) :=
  tmp2 ← ge_double_scalarmult_base_vartime (sig_c s) tmp3 (sig_r s);
  a ← ge_tobytes tmp2;
  tmp3 ← hash_to_ec pub;
  tmp2 ← ge_double_scalarmult_precomp_vartime (sig_r s) tmp3 (sig_c s) image_pre;
  b ← ge_tobytes tmp2;
  Ok (a, b).

(** The loop over the keys: the bytes of [buf->ab], the signatures, [sum] and [k].
    Source: src/src/crypto/crypto.cpp:590-613 (generate_ring_signature) *)
Fixpoint generate_ring_loop (image_pre : list ge_cached) (sec_index i : nat) (pubs : list (list Z)) (sig : list signature)
    (sum : list Z) (k : option (list Z)) (g : G) : outcome (list Z * list signature * list Z * option (list Z) * G) :=
  match pubs with
  | [] => Ok ([], sig, sum, k, g)
  | pub :: pubs =>
      if (i =? sec_index)%nat then
        '(k, g) ← random_scalar g;
        tmp3 ← ge_scalarmult_base k;
        a ← ge_p3_tobytes tmp3;
        tmp3 ← hash_to_ec pub;
        tmp2 ← ge_scalarmult k tmp3;
        b ← ge_tobytes tmp2;
        '(ab, sig, sum, k, g) ← generate_ring_loop image_pre sec_index (S i) pubs sig sum (Some k) g;
        Ok (a ++ b ++ ab, sig, sum, k, g)
      else
        '(c, g) ← random_scalar g;
        '(r, g) ← random_scalar g;
        _ ← at_or_undef (sig !! i);
        let sig := <[i := Signature c r]> sig in
        tmp3 ← ge_frombytes_vartime pub;
        match tmp3 with
        | None => Throw "invalid pubkey"
        | Some tmp3 =>
            '(a, b) ← ring_commitments image_pre pub tmp3 (Signature c r);
            sum ← sc_add sum c;
            '(ab, sig, sum, k, g) ← generate_ring_loop image_pre sec_index (S i) pubs sig sum k g;
            Ok (a ++ b ++ ab, sig, sum, k, g)
        end
  end.

(** Source: src/src/crypto/crypto.cpp:579-581 (generate_ring_signature) *)
Fixpoint assert_keys (pubs : list (list Z)) : outcome unit :=
  match pubs with
  | [] => Ok tt
  | pub :: pubs => ok ← check_key pub; _ ← assert ok; assert_keys pubs
  end.

(** [sig] is the array that receives the signatures; the allocation succeeds.
    Source: src/src/crypto/crypto.cpp:556-617 (generate_ring_signature) *)
Definition generate_ring_signature (prefix_hash image : list Z) (pubs : list (list Z)) (sec : list Z) (sec_index : nat)
    (sig : list signature) (g : G) : outcome (list signature * G) :=
  _ ← debug (assert (sec_index <? length pubs)%nat);
  _ ← debug (ok ← checked sec; _ ← assert ok;
             t ← ge_scalarmult_base sec; t2 ← ge_p3_tobytes t;
             pub ← at_or_undef (pubs !! sec_index); _ ← assert (bool_decide (pub = t2));
             t3 ← generate_key_image pub sec; _ ← assert (bool_decide (image = t3));
             assert_keys pubs);
  image_unp ← ge_frombytes_vartime image;
  match image_unp with
  | None => Throw "invalid key image"
  | Some image_unp =>
      image_pre ← ge_dsm_precomp image_unp;
      '(ab, sig, sum, k, g) ← generate_ring_loop image_pre sec_index 0 pubs sig sc_0 None g;
      h ← hash_to_scalar (prefix_hash ++ ab);
      k ← at_or_undef k;
      c ← sc_sub h sum;
      r ← sc_mulsub c sec k;
      _ ← at_or_undef (sig !! sec_index);
      Ok (<[sec_index := Signature c r]> sig, g)
  end.

(** The bytes of [buf->ab] and the sum, or nothing when the function returns false.
    Source: src/src/crypto/crypto.cpp:640-655 (check_ring_signature) *)
Fixpoint check_ring_loop (image_pre : list ge_cached) (pubs : list (list Z)) (sig : list signature) (sum : list Z)
    : outcome (option (list Z * list Z)) :=
  match pubs with
  | [] => Ok (Some ([], sum))
  | pub :: pubs =>
      s ← at_or_undef (head sig);
      c_ok ← checked (sig_c s);
      r_ok ← checked (sig_r s);
      if negb c_ok || negb r_ok then Ok None else
      tmp3 ← ge_frombytes_vartime pub;
      match tmp3 with
      | None => Ok None
      | Some tmp3 =>
          '(a, b) ← ring_commitments image_pre pub tmp3 s;
          sum ← sc_add sum (sig_c s);
          rest ← check_ring_loop image_pre pubs (tail sig) sum;
          Ok ('(ab, sum) ← rest; Some (a ++ b ++ ab, sum))
      end
  end.

(** Source: src/src/crypto/crypto.cpp:619-659 (check_ring_signature) *)
Definition check_ring_signature (prefix_hash image : list Z) (pubs : list (list Z)) (sig : list signature) : outcome bool :=
  _ ← debug (assert_keys pubs);
  image_unp ← ge_frombytes_vartime image;
  match image_unp with
  | None => Ok false
  | Some image_unp =>
      image_pre ← ge_dsm_precomp image_unp;
      rest ← check_ring_loop image_pre pubs sig sc_0;
      match rest with
      | None => Ok false
      | Some (ab, sum) =>
          h ← hash_to_scalar (prefix_hash ++ ab);
          h ← sc_sub h sum;
          Ok (sc_isnonzero h =? 0)
      end
  end.
End Operations.
