(* ===== verification/KeyProofs.v ===== *)
(** The theorems about the keys and the signatures of [Keys]. *)
From Stdlib Require Import Zmod Field.
From stdpp Require Import base list numbers.
From S2P Require Import Prelude FastHash Varint Limbs ScalarOps FieldOps CurveData Groups Curve25519 GroupOps PointCodec HashPoint ScalarMult GroupOrder Random Keys Edwards.
Open Scope Z_scope.

(** ** Scalars *)

Create HintDb keys.

Lemma reduced_scalar s : reduced s -> is_scalar s.
Proof. by intros [? _]. Qed.

Lemma reduced_range s : reduced s -> 0 <= le_bytes s < sc_order.
Proof. intros [[Hb _] H]. pose proof (le_bytes_range s Hb). lia. Qed.

Lemma reduced_255 s : reduced s -> scalar_255 s.
Proof.
  intros H. pose proof (reduced_range s H) as [_ Hr]. destruct H as [[Hb Hl] _]. split_and!; [exact Hb | exact Hl |].
  apply (Z.lt_trans _ _ _ Hr). reflexivity.
Qed.

Lemma reduced_slide s : reduced s -> slide_scalar s.
Proof.
  intros H. pose proof (reduced_range s H) as [_ Hr]. destruct H as [[Hb Hl] _]. split_and!; [exact Hb | exact Hl |].
  apply Z.lt_le_incl, (Z.lt_trans _ _ _ Hr). reflexivity.
Qed.

Lemma encode_is_scalar p : is_scalar (encode p).
Proof. split; [apply le_encode_bytes | apply le_encode_length]. Qed.

#[export] Hint Resolve reduced_scalar reduced_255 reduced_slide reduced_encode encode_is_scalar : keys.

Lemma checked_value s : is_scalar s -> checked s = Ok (le_bytes s <? sc_order).
Proof. intros H. unfold checked. rewrite sc_check_exact by done. simpl_bind. by destruct (le_bytes s <? sc_order). Qed.

Lemma checked_reduced s : reduced s -> checked s = Ok true.
Proof. intros H. rewrite checked_value by auto with keys. pose proof (reduced_range s H). f_equal. apply Z.ltb_lt. lia. Qed.

Lemma isnonzero_reduced x : (sc_isnonzero (le_encode 32 (x mod sc_order)) =? 0) = (x mod sc_order =? 0).
Proof. rewrite sc_isnonzero_exact, le_bytes_reduced by apply le_encode_bytes. by destruct (x mod sc_order =? 0). Qed.

(** ** Points *)

Lemma decode_encode p : exists h, ge_frombytes_vartime (encode p) = Ok (Some h) /\ p3_is h p.
Proof.
  destruct (encode_is_scalar p) as [Hb Hl]. destruct (ge_frombytes_vartime_is _ Hb Hl) as (o & E & Ho).
  destruct o as [h |]; [| by destruct (Ho p)]. destruct Ho as (q & Hq & Eq). apply encode_inj in Eq as ->. by exists h.
Qed.

(** The bytes are those of a point, or they are not accepted. *)
Lemma decode_cases s : is_scalar s -> (exists p, s = encode p) \/ ge_frombytes_vartime s = Ok None /\ forall p, encode p <> s.
Proof.
  intros [Hb Hl]. destruct (ge_frombytes_vartime_is s Hb Hl) as (o & E & Ho).
  destruct o as [h |]; [destruct Ho as (p & _ & <-); left; by exists p | by right].
Qed.

Lemma encode_opt_inj (p q : option point) : encode <$> p = encode <$> q -> p = q.
Proof.
  destruct p as [p |], q as [q |]; intros E; try discriminate E; [| reflexivity]. f_equal. apply encode_inj.
  exact (f_equal (default []) E).
Qed.

Lemma encode_zero : encode gzero = infinity.
Proof. by vm_compute. Qed.

Ltac ge_bind lem :=
  let h := fresh "h" in let E := fresh "E" in let H := fresh "H" in
  destruct lem as (h & E & H); bind_with E; clear E.

(** Runs the first operation of an equation. *)
Ltac key_step :=
  lazymatch goal with
  | |- mbind _ (Ok ?a) = _ => bind_with (eq_refl (Ok a))
  | |- mbind _ (ge_frombytes_vartime (encode ?p)) = _ => ge_bind (decode_encode p)
  | |- mbind _ (ge_scalarmult_base ?s) = _ => ge_bind (ge_scalarmult_base_is s ltac:(auto with keys))
  | |- mbind _ (ge_scalarmult ?s ?A) = _ => match goal with H : p3_is A ?p |- _ => ge_bind (ge_scalarmult_is s A p ltac:(auto with keys) H) end
  | |- mbind _ (ge_double_scalarmult_base_vartime ?a ?A ?b) = _ => match goal with H : p3_is A ?p |- _ =>
      ge_bind (ge_double_scalarmult_base_vartime_is a b ltac:(auto with keys) ltac:(auto with keys) A p H) end
  | |- mbind _ (ge_double_scalarmult_precomp_vartime ?a ?A ?b ?B) = _ => match goal with H : p3_is A ?p, H' : odd_multiples B ?q |- _ =>
      ge_bind (ge_double_scalarmult_precomp_vartime_is a b ltac:(auto with keys) ltac:(auto with keys) A B p q H H') end
  | |- mbind _ (ge_dsm_precomp ?A) = _ => match goal with H : p3_is A ?p |- _ => ge_bind (ge_dsm_precomp_is A p H) end
  | |- mbind _ (ge_p3_to_cached ?A) = _ => match goal with H : p3_is A ?p |- _ => ge_bind (ge_p3_to_cached_is A p H) end
  | |- mbind _ (ge_add ?A ?B) = _ => match goal with H : p3_is A ?p, H' : cached_is B ?q |- _ => ge_bind (ge_add_is A B p q H H') end
  | |- mbind _ (ge_sub ?A ?B) = _ => match goal with H : p3_is A ?p, H' : cached_is B ?q |- _ => ge_bind (ge_sub_is A B p q H H') end
  | |- mbind _ (ge_p1p1_to_p2 ?A) = _ => match goal with H : p1p1_is A ?p |- _ => ge_bind (ge_p1p1_to_p2_is A p H) end
  | |- mbind _ (ge_p1p1_to_p3 ?A) = _ => match goal with H : p1p1_is A ?p |- _ => ge_bind (ge_p1p1_to_p3_is A p H) end
  | |- mbind _ (ge_mul8 ?A) = _ => match goal with H : p2_is A ?p |- _ => ge_bind (ge_mul8_is A p H) end
  | |- mbind _ (ge_tobytes ?A) = _ => match goal with H : p2_is A ?p |- _ => bind_with (ge_tobytes_is A p H) end
  | |- mbind _ (ge_p3_tobytes ?A) = _ => match goal with H : p3_is A ?p |- _ => bind_with (ge_p3_tobytes_is A p H) end
  | |- ge_tobytes ?A = _ => match goal with H : p2_is A ?p |- _ => rewrite (ge_tobytes_is A p H) end
  | |- ge_p3_tobytes ?A = _ => match goal with H : p3_is A ?p |- _ => rewrite (ge_p3_tobytes_is A p H) end
  | |- mbind _ (checked ?s) = _ => bind_with (checked_reduced s ltac:(auto with keys))
  | |- mbind _ (sc_mulsub ?a ?b ?c) = _ => bind_with (sc_mulsub_value a b c ltac:(auto with keys) ltac:(auto with keys) ltac:(auto with keys))
  | |- mbind _ (sc_add ?a ?b) = _ => bind_with (sc_add_correct a b ltac:(auto with keys) ltac:(auto with keys))
  | |- mbind _ (sc_sub ?a ?b) = _ => bind_with (sc_sub_correct a b ltac:(auto with keys) ltac:(auto with keys))
  | |- mbind _ (sc_reduce32 ?a) = _ => bind_with (sc_reduce32_correct a ltac:(auto with keys))
  end.
Ltac key_run := repeat key_step.

(** A response cancels the challenge times the secret. *)
Lemma response_cancels c x k (p : point) : sc_order ⊙ p = gzero -> c ⊙ (x ⊙ p) ⊕ ((k - c * x) mod sc_order) ⊙ p = k ⊙ p.
Proof.
  intros Hp. rewrite gmul_mod by done. rewrite gmul_sub, gmul_mul, gadd_comm, <- gadd_assoc, gadd_neg_l. apply gadd_zero_r.
Qed.

Lemma gmul_base_order n : sc_order ⊙ (n ⊙ base) = gzero.
Proof. apply gmul_multiple, base_order. Qed.

Lemma bind_bind {A B C} (m : outcome A) (f : A -> outcome B) (h : B -> outcome C) : mbind h (mbind f m) = mbind (fun x => mbind h (f x)) m.
Proof. by destruct m. Qed.

Lemma bind_ext {A B} (f f' : A -> outcome B) (m : outcome A) : (forall a, f a = f' a) -> mbind f m = mbind f' m.
Proof. intros Hf. destruct m as [a | |]; [apply Hf | done | done]. Qed.

#[export] Instance valid_dec p : Decision (valid p).
Proof. unfold valid, on_curve. apply fp_dec. Defined.

(** The point that extended coordinates stand for. *)
Definition point_of (h : ge_p3) : point :=
  let z := fp (fe_value (p3_Z h)) in
  match decide (valid (fp (fe_value (p3_X h)) / z, fp (fe_value (p3_Y h)) / z)%fp) with
  | left H => Point _ H
  | right _ => gzero
  end.

Lemma point_of_is h p : p3_is h p -> point_of h = p.
Proof.
  intros (z & Hz & X & Y & Z & _). apply FF_alt in X as [_ X], Y as [_ Y], Z as [_ Z]. unfold point_of. cbv zeta. rewrite X, Y, Z.
  assert (E : ((coords p).1 * z / z, (coords p).2 * z / z)%fp = coords p) by (destruct (coords p) as [x y]; cbn [fst snd]; f_equal; field; exact Hz).
  destruct (decide _) as [H | H]; [apply point_eq; exact E | destruct H; rewrite E; apply coords_valid].
Qed.

Section Proofs.
Context (NDEBUG : bool) (hash : list Z -> list Z) `{!FastHash hash}.
Context {G : Type} (gen : nat -> G -> list Z * G) `{!RandomBytes gen}.

Lemma hash_is_scalar data : is_scalar (hash data).
Proof. split; [apply fast_hash_bytes | apply fast_hash_size]. Qed.

(** The hash as a number below the order. *)
Definition Hs (data : list Z) : Z := le_bytes (hash data) mod sc_order.

Lemma Hs_range data : 0 <= Hs data < sc_order.
Proof. by apply Z.mod_pos_bound. Qed.

Lemma Hs_mod data : Hs data mod sc_order = Hs data.
Proof. apply Z.mod_small, Hs_range. Qed.

Lemma hash_to_scalar_value data : hash_to_scalar hash data = Ok (le_encode 32 (Hs data)).
Proof. apply sc_reduce32_correct, hash_is_scalar. Qed.

Lemma hash_reduced data : reduced (le_encode 32 (Hs data)).
Proof. apply reduced_encode. Qed.

Lemma le_bytes_hash data : le_bytes (le_encode 32 (Hs data)) = Hs data.
Proof. apply le_bytes_reduced. Qed.

(** The next scalar of the generator. *)
Definition drawn (g : G) : Z := le_bytes (gen 32 g).1 mod sc_order.
Definition next (g : G) : G := (gen 32 g).2.

Lemma random_drawn g : random_scalar gen g = Ok (le_encode 32 (drawn g), next g).
Proof. by apply random_scalar_value. Qed.

Lemma drawn_reduced g : reduced (le_encode 32 (drawn g)).
Proof. apply reduced_encode. Qed.

Lemma le_bytes_drawn g : le_bytes (le_encode 32 (drawn g)) = drawn g.
Proof. apply le_bytes_reduced. Qed.

Hint Resolve hash_reduced drawn_reduced hash_is_scalar : keys.

Lemma debug_ok m : m = Ok tt -> debug NDEBUG m = Ok tt.
Proof. intros ->. by destruct NDEBUG. Qed.

Lemma check_key_encode p : check_key (encode p) = Ok true.
Proof. unfold check_key. key_run. by rewrite bool_decide_true. Qed.

(** ** Keys *)

Lemma secret_key_to_public_key_value s : is_scalar s ->
  secret_key_to_public_key s = Ok (if le_bytes s <? sc_order then Some (encode (le_bytes s ⊙ base)) else None).
Proof.
  intros Hs. unfold secret_key_to_public_key. rewrite checked_value by done. simpl_bind.
  destruct (Z.ltb_spec (le_bytes s) sc_order) as [H | H]; cbn [negb]; [| done]. assert (reduced s) by by split. by key_run.
Qed.

Lemma generate_keys_value key (recover : bool) g : is_scalar key ->
  let rng := if recover then key else le_encode 32 (drawn g) in
  generate_keys gen key recover g =
    Ok (encode ((le_bytes rng mod sc_order) ⊙ base), le_encode 32 (le_bytes rng mod sc_order), rng, if recover then g else next g).
Proof.
  intros Hk. unfold generate_keys. destruct recover; cbn zeta iota.
  - bind_with (eq_refl (Ok (key, g))). key_step. key_step. key_step. rewrite le_bytes_reduced. reflexivity.
  - bind_with (random_drawn g). key_step. key_step. key_step. rewrite le_bytes_reduced. reflexivity.
Qed.

Lemma generate_key_derivation_value p s : reduced s ->
  generate_key_derivation NDEBUG (encode p) s = Ok (Some (encode (8 ⊙ (le_bytes s ⊙ p)))).
Proof.
  intros Hs. unfold generate_key_derivation. bind_with (debug_ok (ok ← checked s; assert ok) ltac:(by key_run)). by key_run.
Qed.

Lemma derivation_to_scalar_value derivation i : in_u 64 i ->
  derivation_to_scalar hash derivation i = Ok (le_encode 32 (Hs (derivation ++ get_varint_data i))).
Proof.
  intros Hi. unfold derivation_to_scalar. pose proof (write_length 9 i) as Hl. unfold get_varint_data, zlen in *.
  rewrite (proj2 (Nat.leb_le _ _)) by lia. cbn [assert]. simpl_bind. apply hash_to_scalar_value.
Qed.

Lemma derive_public_key_value derivation i p : in_u 64 i ->
  derive_public_key hash derivation i (encode p) = Ok (Some (encode (p ⊕ Hs (derivation ++ get_varint_data i) ⊙ base))).
Proof.
  intros Hi. unfold derive_public_key. key_run. bind_with (derivation_to_scalar_value derivation i Hi). key_run. by rewrite le_bytes_hash in *.
Qed.

Lemma derive_subaddress_public_key_value derivation i p : in_u 64 i ->
  derive_subaddress_public_key hash (encode p) derivation i = Ok (Some (encode (p ⊕ ⊖ (Hs (derivation ++ get_varint_data i) ⊙ base)))).
Proof.
  intros Hi. unfold derive_subaddress_public_key. key_run. bind_with (derivation_to_scalar_value derivation i Hi). key_run. by rewrite le_bytes_hash in *.
Qed.

Lemma derive_secret_key_value derivation i s : in_u 64 i -> reduced s ->
  derive_secret_key NDEBUG hash derivation i s = Ok (le_encode 32 ((le_bytes s + Hs (derivation ++ get_varint_data i)) mod sc_order)).
Proof.
  intros Hi Hs'. unfold derive_secret_key. bind_with (debug_ok (ok ← checked s; assert ok) ltac:(by key_run)). bind_with (derivation_to_scalar_value derivation i Hi).
  rewrite sc_add_correct by auto with keys. by rewrite le_bytes_hash.
Qed.

(** ** Signatures *)

Lemma bool_decide_zero x : bool_decide (x = 0) = (x =? 0).
Proof. apply eq_bool_prop_intro. by rewrite bool_decide_spec, Is_true_true, Z.eqb_eq. Qed.

(** What a signature of [prefix] under the point [P] promises. *)
Definition valid_signature (prefix : list Z) (P : point) (sig : signature) : Prop :=
  let c := le_bytes (sig_c sig) in
  let r := le_bytes (sig_r sig) in
  let R := c ⊙ P ⊕ r ⊙ base in
  c < sc_order /\ r < sc_order /\ c <> 0 /\ R <> gzero /\ Hs (prefix ++ encode P ++ encode R) = c.

#[global] Instance valid_signature_dec prefix P sig : Decision (valid_signature prefix P sig).
Proof. unfold valid_signature. apply _. Defined.

(** The test at the end of the checks: the challenge is the hash. *)
Lemma challenge_matches h s : 0 <= h < sc_order -> 0 <= s < sc_order ->
  (sc_isnonzero (le_encode 32 ((h - s) mod sc_order)) =? 0) = bool_decide (h = s).
Proof.
  intros Hh Hs'. rewrite isnonzero_reduced. apply eq_bool_prop_intro. rewrite bool_decide_spec, Is_true_true, Z.eqb_eq.
  split; [| intros ->; by rewrite Z.sub_diag].
  intros E. apply Z.mod_divide in E; [| done]. destruct E as [q Hq]. assert (0 < sc_order) by done. assert (q = 0) by nia. nia.
Qed.

Lemma check_signature_value prefix P sig : is_scalar (sig_c sig) -> is_scalar (sig_r sig) ->
  check_signature NDEBUG hash prefix (encode P) sig = Ok (bool_decide (valid_signature prefix P sig)).
Proof.
  intros Hc Hr. unfold check_signature, valid_signature. cbv zeta.
  bind_with (debug_ok (ok ← check_key (encode P); assert ok) ltac:(by bind_with (check_key_encode P))).
  key_step. bind_with (checked_value _ Hc). bind_with (checked_value _ Hr). rewrite (sc_isnonzero_exact _ (proj1 Hc)).
  destruct (Z.ltb_spec (le_bytes (sig_c sig)) sc_order) as [Hc' | Hc']; [| rewrite bool_decide_false by lia; done].
  destruct (Z.ltb_spec (le_bytes (sig_r sig)) sc_order) as [Hr' | Hr']; [| rewrite bool_decide_false by lia; done].
  cbn [negb orb]. destruct (Z.eqb_spec (le_bytes (sig_c sig)) 0) as [E0 | E0]; cbn [Z.eqb]; [rewrite bool_decide_false by tauto; done |].
  assert (reduced (sig_c sig)) by done. assert (reduced (sig_r sig)) by done. key_step. key_step.
  set (R := le_bytes (sig_c sig) ⊙ P ⊕ le_bytes (sig_r sig) ⊙ base) in *. rewrite <- encode_zero.
  destruct (decide (R = gzero)) as [ER | ER].
  { rewrite (bool_decide_true (encode R = encode gzero)) by (by rewrite ER). cbv iota. by rewrite bool_decide_false by tauto. }
  rewrite (bool_decide_false (encode R = encode gzero)) by (intros E; by apply encode_inj in E).
  bind_with (hash_to_scalar_value (s_comm prefix (encode P) (encode R))). key_step. rewrite le_bytes_hash.
  rewrite challenge_matches by (apply Hs_range || by apply reduced_range). unfold s_comm. f_equal. apply bool_decide_ext. tauto.
Qed.

Lemma try_again_step fuel prefix pub sec g : reduced sec ->
  let k := drawn g in
  let c := Hs (s_comm prefix pub (encode (k ⊙ base))) in
  let r := (k - c * le_bytes sec) mod sc_order in
  try_again hash gen (S fuel) prefix pub sec g =
    if (c =? 0) || (r =? 0) then try_again hash gen fuel prefix pub sec (next g) else Ok (Signature (le_encode 32 c) (le_encode 32 r), next g).
Proof.
  intros Hs'. cbv zeta. cbn [try_again]. bind_with (random_drawn g). key_step. key_step. rewrite le_bytes_drawn.
  set (c := Hs _). bind_with (hash_to_scalar_value (s_comm prefix pub (encode (drawn g ⊙ base)))). fold c.
  assert (Ec : c mod sc_order = c) by apply Hs_mod. assert (reduced (le_encode 32 c)) by apply hash_reduced.
  assert (Lc : le_bytes (le_encode 32 c) = c) by apply le_bytes_hash. rewrite <- Ec at 1. rewrite isnonzero_reduced, Ec.
  destruct (c =? 0); [done |]. cbn [orb]. key_step. rewrite Lc, le_bytes_drawn, isnonzero_reduced. done.
Qed.

(** ** Proofs of transactions *)

(** The point that [B] stands for: the base point without it. *)
Definition spend_point (B : option point) : point := default base B.

Definition opt_is (h : option ge_p3) (B : option point) : Prop :=
  match h, B with Some h, Some B => p3_is h B | None, None => True | _, _ => False end.

Lemma mult_or_base_value k h B : reduced k -> opt_is h B -> mult_or_base k h = Ok (encode (le_bytes k ⊙ spend_point B)).
Proof. intros Hk. unfold mult_or_base. destruct h as [h |], B as [B |]; intros H; cbn in H; try done; by key_run. Qed.

Lemma mult_decoded_value s h p : reduced s -> p3_is h p -> exists h', mult_decoded s h = Ok (Some h') /\ p3_is h' (le_bytes s ⊙ p).
Proof.
  intros Hs' H. unfold mult_decoded. destruct (ge_scalarmult_is s h p ltac:(auto with keys) H) as (h1 & E1 & H1).
  destruct (decode_encode (le_bytes s ⊙ p)) as (h2 & E2 & H2). exists h2. split; [| done].
  bind_with E1. by bind_with (ge_tobytes_is _ _ H1).
Qed.

Lemma mult_or_base_decoded_value s h B : reduced s -> opt_is h B ->
  exists h', mult_or_base_decoded s h = Ok (Some h') /\ p3_is h' (le_bytes s ⊙ spend_point B).
Proof.
  intros Hs'. unfold mult_or_base_decoded. destruct h as [h |], B as [B |]; intros H; cbn in H; try done; [by apply mult_decoded_value |].
  destruct (ge_scalarmult_base_is s ltac:(auto with keys)) as (h1 & E1 & H1). exists h1. split; [by bind_with E1 | done].
Qed.

Lemma sum_bytes_value h h' p q : p3_is h p -> p3_is h' q -> sum_bytes h h' = Ok (encode (p ⊕ q)).
Proof. intros. unfold sum_bytes. by key_run. Qed.

Lemma decode_or_throw_value what p : exists h, decode_or_throw what (encode p) = Ok h /\ p3_is h p.
Proof. unfold decode_or_throw. destruct (decode_encode p) as (h & E & H). exists h. by bind_with E. Qed.

Lemma decode_opt_or_throw_value what B : exists h, decode_opt_or_throw what (encode <$> B) = Ok h /\ opt_is h B.
Proof.
  destruct B as [B |]; cbn [fmap option_fmap option_map decode_opt_or_throw]; [| by exists None].
  destruct (decode_or_throw_value what B) as (h & E & H). exists (Some h). by bind_with E.
Qed.

Lemma decode_opt_value B : exists h, decode_opt (encode <$> B) = Ok (Some h) /\ opt_is h B.
Proof.
  destruct B as [B |]; cbn [fmap option_fmap option_map decode_opt]; [| by exists None].
  destruct (decode_encode B) as (h & E & H). exists (Some h). by bind_with E.
Qed.

Lemma check_tx_proof_value prefix R A B D sig : is_scalar (sig_c sig) -> is_scalar (sig_r sig) ->
  check_tx_proof hash prefix (encode R) (encode A) (encode <$> B) (encode D) sig =
    Ok (bool_decide (le_bytes (sig_c sig) < sc_order /\ le_bytes (sig_r sig) < sc_order /\
      Hs (s_comm_2 prefix (encode D) (encode (le_bytes (sig_c sig) ⊙ R ⊕ le_bytes (sig_r sig) ⊙ spend_point B))
        (encode (le_bytes (sig_c sig) ⊙ D ⊕ le_bytes (sig_r sig) ⊙ A))) = le_bytes (sig_c sig))).
Proof.
  intros Hc Hr. unfold check_tx_proof. key_step. cbn [or_false]. key_step. cbn [or_false].
  ge_bind (decode_opt_value B). cbn [or_false]. key_step. cbn [or_false].
  bind_with (checked_value _ Hc). bind_with (checked_value _ Hr).
  destruct (Z.ltb_spec (le_bytes (sig_c sig)) sc_order) as [Hc' | Hc']; [| rewrite bool_decide_false by lia; done].
  destruct (Z.ltb_spec (le_bytes (sig_r sig)) sc_order) as [Hr' | Hr']; [| rewrite bool_decide_false by lia; done].
  cbn [negb orb]. assert (reduced (sig_c sig)) by done. assert (reduced (sig_r sig)) by done.
  ge_bind (mult_decoded_value (sig_c sig) _ R ltac:(done) ltac:(eassumption)). cbn [or_false].
  ge_bind (mult_or_base_decoded_value (sig_r sig) _ B ltac:(done) ltac:(eassumption)). cbn [or_false].
  bind_with (sum_bytes_value _ _ _ _ H5 H6).
  ge_bind (mult_decoded_value (sig_c sig) _ D ltac:(done) ltac:(eassumption)).
  ge_bind (mult_decoded_value (sig_r sig) _ A ltac:(done) ltac:(eassumption)). cbn [or_false].
  bind_with (sum_bytes_value _ _ _ _ H7 H8).
  match goal with |- mbind _ (hash_to_scalar _ ?d) = _ => bind_with (hash_to_scalar_value d) end. key_step. rewrite le_bytes_hash.
  rewrite challenge_matches by (apply Hs_range || by apply reduced_range). f_equal. apply bool_decide_ext. tauto.
Qed.

Lemma generate_tx_proof_value prefix A B r g : reduced r ->
  let k := drawn g in
  let c := Hs (s_comm_2 prefix (encode (le_bytes r ⊙ A)) (encode (k ⊙ spend_point B)) (encode (k ⊙ A))) in
  generate_tx_proof NDEBUG hash gen prefix (encode (le_bytes r ⊙ spend_point B)) (encode A) (encode <$> B) (encode (le_bytes r ⊙ A)) r g =
    Ok (Signature (le_encode 32 c) (le_encode 32 ((k - c * le_bytes r) mod sc_order)), next g).
Proof.
  intros Hr. cbv zeta. unfold generate_tx_proof. ge_bind (decode_or_throw_value "tx pubkey is invalid" (le_bytes r ⊙ spend_point B)).
  ge_bind (decode_or_throw_value "recipient view pubkey is invalid" A).
  ge_bind (decode_opt_or_throw_value "recipient spend pubkey is invalid" B).
  ge_bind (decode_or_throw_value "key derivation is invalid" (le_bytes r ⊙ A)).
  match goal with |- mbind _ (debug _ ?m) = _ => assert (E : m = Ok tt) end.
  { key_step. cbn [assert]. key_step. bind_with (mult_or_base_value r _ B ltac:(done) ltac:(eassumption)). rewrite bool_decide_true by done. cbn [assert].
    key_step. bind_with (mult_or_base_value r (Some h0) (Some A) ltac:(done) ltac:(done)). by rewrite bool_decide_true. }
  bind_with (debug_ok _ E). clear E. bind_with (random_drawn g).
  bind_with (mult_or_base_value (le_encode 32 (drawn g)) _ B ltac:(auto with keys) ltac:(eassumption)).
  bind_with (mult_or_base_value (le_encode 32 (drawn g)) (Some h0) (Some A) ltac:(auto with keys) ltac:(done)). rewrite le_bytes_drawn.
  match goal with |- mbind _ (hash_to_scalar _ ?d) = _ => bind_with (hash_to_scalar_value d) end. key_step. by rewrite le_bytes_hash, le_bytes_drawn.
Qed.

(** ** Ring signatures *)

(** The point that [hash_to_ec] assigns to a key. *)
Definition Hp (key : list Z) : point := match hash_to_ec hash key with Ok h => point_of h | _ => gzero end.

Lemma hash_to_ec_is key : exists h, hash_to_ec hash key = Ok h /\ p3_is h (Hp key) /\ sc_order ⊙ Hp key = gzero.
Proof.
  unfold Hp. assert (H : exists h q, hash_to_ec hash key = Ok h /\ p3_is h (8 ⊙ q)).
  { unfold hash_to_ec. destruct (hash_is_scalar key) as [Hb Hl]. destruct (ge_fromfe_frombytes_vartime_is _ Hb Hl) as (h0 & q & E0 & H0).
    destruct (ge_mul8_is h0 q H0) as (h1 & E1 & H1). destruct (ge_p1p1_to_p3_is h1 _ H1) as (h2 & E2 & H2). exists h2, q. split; [| exact H2].
    bind_with E0. by bind_with E1. }
  destruct H as (h & q & E & H). exists h. rewrite E, (point_of_is _ _ H). split_and!; [done | exact H | apply mul8_order].
Qed.

Lemma generate_key_image_value pub s : reduced s -> generate_key_image NDEBUG hash pub s = Ok (encode (le_bytes s ⊙ Hp pub)).
Proof.
  intros Hs'. unfold generate_key_image. bind_with (debug_ok (ok ← checked s; assert ok) ltac:(by key_run)).
  destruct (hash_to_ec_is pub) as (h & E & H & _). bind_with E. by key_run.
Qed.

(** The commitments of a public key under a signature. *)
Definition ring_terms (I P : point) (s : signature) : list Z :=
  encode (le_bytes (sig_c s) ⊙ P ⊕ le_bytes (sig_r s) ⊙ base) ++
  encode (le_bytes (sig_r s) ⊙ Hp (encode P) ⊕ le_bytes (sig_c s) ⊙ I).

Definition ring_bytes (I : point) (ps : list point) (sigs : list signature) : list Z := concat (zip_with (ring_terms I) ps sigs).

Definition challenges (sigs : list signature) : Z := foldr (fun s acc => le_bytes (sig_c s) + acc) 0 sigs.

Definition reduced_sig (s : signature) : Prop := reduced (sig_c s) /\ reduced (sig_r s).

Lemma ring_commitments_value pre I P h s : odd_multiples pre I -> p3_is h P -> reduced_sig s ->
  exists a b, ring_commitments hash pre (encode P) h s = Ok (a, b) /\ a ++ b = ring_terms I P s.
Proof.
  intros Hpre HP [Hc Hr]. do 2 eexists. split; [| reflexivity]. unfold ring_commitments. key_step. key_step.
  destruct (hash_to_ec_is (encode P)) as (h1 & E1 & H1 & _). bind_with E1. key_step. key_step. reflexivity.
Qed.

Lemma sum_step x s : reduced s -> sc_add (le_encode 32 (x mod sc_order)) s = Ok (le_encode 32 ((x + le_bytes s) mod sc_order)).
Proof. intros Hs'. rewrite sc_add_correct by auto with keys. by rewrite le_bytes_reduced, Zplus_mod_idemp_l. Qed.

Lemma ring_bytes_cons I P ps s sigs : ring_bytes I (P :: ps) (s :: sigs) = ring_terms I P s ++ ring_bytes I ps sigs.
Proof. done. Qed.

(** The loop of the check. *)
Lemma check_ring_loop_value pre I ps sigs x : odd_multiples pre I -> Forall (fun s => is_scalar (sig_c s) /\ is_scalar (sig_r s)) sigs ->
  length sigs = length ps ->
  check_ring_loop hash pre (encode <$> ps) sigs (le_encode 32 (x mod sc_order)) =
    Ok (if forallb (fun s => (le_bytes (sig_c s) <? sc_order) && (le_bytes (sig_r s) <? sc_order)) sigs
        then Some (ring_bytes I ps sigs, le_encode 32 ((x + challenges sigs) mod sc_order)) else None).
Proof.
  intros Hpre Hs'. revert ps x. induction Hs' as [| s sigs [Hc Hr] _ IH]; intros [| P ps] x Hl; try done.
  { cbn. by rewrite Z.add_0_r. }
  cbn [fmap list_fmap check_ring_loop forallb head tail]. bind_with (eq_refl (at_or_undef (Some s))).
  bind_with (checked_value _ Hc). bind_with (checked_value _ Hr).
  destruct (Z.ltb_spec (le_bytes (sig_c s)) sc_order) as [Hc' |]; [| done].
  destruct (Z.ltb_spec (le_bytes (sig_r s)) sc_order) as [Hr' |]; [| done]. cbn [negb orb andb].
  key_step. destruct (ring_commitments_value pre I P h s Hpre H) as (a & b & E & Eab); [by split |]. bind_with E. clear E.
  bind_with (sum_step x (sig_c s) (conj Hc Hc')). injection Hl as Hl. bind_with (IH ps (x + le_bytes (sig_c s)) Hl).
  destruct (forallb _ sigs); [| done]. cbn [mbind option_bind]. rewrite ring_bytes_cons, <- Eab, <- app_assoc.
  cbn [challenges foldr]. by rewrite Z.add_assoc.
Qed.

Lemma assert_keys_value ps : assert_keys (encode <$> ps) = Ok tt.
Proof.
  induction ps as [| P ps IH]; [done |]. cbn [fmap list_fmap assert_keys]. bind_with (check_key_encode P). cbn [assert].
  by bind_with (eq_refl (Ok tt)).
Qed.

(** What a ring signature promises: reduced scalars whose challenges add up to the hash of all commitments. *)
Definition valid_ring (prefix : list Z) (I : point) (ps : list point) (sigs : list signature) : bool :=
  forallb (fun s => (le_bytes (sig_c s) <? sc_order) && (le_bytes (sig_r s) <? sc_order)) sigs &&
  (Hs (prefix ++ ring_bytes I ps sigs) =? challenges sigs mod sc_order).

Lemma check_ring_signature_value prefix I ps sigs : Forall (fun s => is_scalar (sig_c s) /\ is_scalar (sig_r s)) sigs ->
  length sigs = length ps ->
  check_ring_signature NDEBUG hash prefix (encode I) (encode <$> ps) sigs = Ok (valid_ring prefix I ps sigs).
Proof.
  intros Hs' Hl. unfold check_ring_signature, valid_ring. bind_with (debug_ok _ (assert_keys_value ps)).
  key_step. key_step. change sc_0 with (le_encode 32 (0 mod sc_order)). bind_with (check_ring_loop_value h0 I ps sigs 0 H0 Hs' Hl).
  destruct (forallb _ sigs); [| done]. cbn [andb].
  bind_with (hash_to_scalar_value (prefix ++ ring_bytes I ps sigs)). rewrite Z.add_0_l.
  match goal with |- mbind _ (sc_sub ?a ?b) = _ => bind_with (sc_sub_correct a b (reduced_scalar _ (hash_reduced _)) (reduced_scalar _ (reduced_encode _))) end.
  rewrite le_bytes_hash, le_bytes_reduced. pose proof (Z.mod_pos_bound (challenges sigs) sc_order ltac:(done)).
  rewrite challenge_matches by (apply Hs_range || done). f_equal. apply eq_bool_prop_intro. by rewrite bool_decide_spec, Is_true_true, Z.eqb_eq.
Qed.

Lemma generate_ring_loop_app pre j i ps qs sig sum k g :
  generate_ring_loop hash gen pre j i (ps ++ qs) sig sum k g =
    ('(ab, sig, sum, k, g) ← generate_ring_loop hash gen pre j i ps sig sum k g;
     '(ab', sig, sum, k, g) ← generate_ring_loop hash gen pre j (i + length ps) qs sig sum k g;
     Ok (ab ++ ab', sig, sum, k, g)).
Proof.
  revert i sig sum k g. induction ps as [| p ps IH]; intros i sig sum k g.
  { cbn [app length generate_ring_loop]. bind_with (eq_refl (Ok ([] : list Z, sig, sum, k, g))). rewrite Nat.add_0_r.
    by destruct (generate_ring_loop _ _ _ _ _ _ _ _ _ _) as [[[[[? ?] ?] ?] ?] | |]. }
  cbn [app length generate_ring_loop]. rewrite Nat.add_succ_r. destruct (i =? j)%nat.
  - rewrite bind_bind. apply bind_ext. intros [k' g']. do 5 (rewrite bind_bind; apply bind_ext; intros ?). rewrite IH.
    rewrite !bind_bind. apply bind_ext. intros [[[[ab sig'] sum'] k1] g1]. cbn [mbind outcome_bind]. change (S i + length ps)%nat with (S (i + length ps)).
    destruct (generate_ring_loop _ _ _ _ _ _ _ _ _ _) as [[[[[? ?] ?] ?] ?] | |]; [| done | done]. cbn [mbind outcome_bind]. by rewrite <- !app_assoc.
  - rewrite bind_bind. apply bind_ext. intros [c g1]. rewrite bind_bind. apply bind_ext. intros [r g2].
    do 2 (rewrite bind_bind; apply bind_ext; intros ?). destruct a0 as [h |]; [| done].
    rewrite bind_bind. apply bind_ext. intros [a' b]. rewrite bind_bind. apply bind_ext. intros sum1. rewrite IH.
    rewrite !bind_bind. apply bind_ext. intros [[[[ab sig1] sum2] k1] g3]. cbn [mbind outcome_bind]. change (S i + length ps)%nat with (S (i + length ps)).
    destruct (generate_ring_loop _ _ _ _ _ _ _ _ _ _) as [[[[[? ?] ?] ?] ?] | |]; [| done | done]. cbn [mbind outcome_bind]. by rewrite <- !app_assoc.
Qed.

(** The loop over keys of other people. *)
Lemma generate_ring_loop_others pre I j i ps sig0 sig1 old x k g : odd_multiples pre I -> length old = length ps -> length sig0 = i ->
  (j < i \/ i + length ps <= j)%nat ->
  exists sigs g', generate_ring_loop hash gen pre j i (encode <$> ps) (sig0 ++ old ++ sig1) (le_encode 32 (x mod sc_order)) k g =
    Ok (ring_bytes I ps sigs, sig0 ++ sigs ++ sig1, le_encode 32 ((x + challenges sigs) mod sc_order), k, g') /\
    Forall reduced_sig sigs /\ length sigs = length ps.
Proof.
  intros Hpre. revert i sig0 old x g. induction ps as [| P ps IH]; intros i sig0 old x g Ho Hi Hj.
  { destruct old; [| done]. exists [], g. cbn. by rewrite Z.add_0_r. }
  destruct old as [| o old]; [done |]. injection Ho as Ho. cbn [length] in Hj.
  set (s := Signature (le_encode 32 (drawn g)) (le_encode 32 (drawn (next g)))).
  assert (Hred : reduced_sig s) by (split; apply drawn_reduced).
  destruct (IH (S i) (sig0 ++ [s]) old (x + le_bytes (sig_c s)) (next (next g)) Ho) as (sigs & g' & E & Hf & Hl).
  { rewrite length_app. cbn. lia. } { lia. }
  exists (s :: sigs), g'. split; [| split; [by constructor | cbn; by rewrite Hl]].
  cbn [fmap list_fmap generate_ring_loop]. rewrite (proj2 (Nat.eqb_neq i j)) by lia.
  bind_with (random_drawn g). bind_with (random_drawn (next g)). fold s. cbv zeta. subst i.
  cbn [app]. rewrite list_lookup_middle by done. bind_with (eq_refl (at_or_undef (Some o))).
  rewrite insert_app_r_alt, Nat.sub_diag by done. cbn [insert list_insert]. key_step.
  destruct (ring_commitments_value pre I P h s Hpre H Hred) as (a & b & E1 & Eab). bind_with E1. clear E1.
  change (le_encode 32 (drawn g)) with (sig_c s). bind_with (sum_step x (sig_c s) (proj1 Hred)).
  rewrite <- !app_assoc in E. cbn [app] in E. bind_with E. rewrite ring_bytes_cons, <- Eab, <- !app_assoc.
  cbn [app challenges foldr]. by rewrite Z.add_assoc.
Qed.

Lemma challenges_app l k : challenges (l ++ k) = challenges l + challenges k.
Proof. induction l as [| s l IH]; cbn [app challenges foldr] in *; [done |]. unfold challenges in *. lia. Qed.

Lemma ring_bytes_app I ps qs l k : length l = length ps -> ring_bytes I (ps ++ qs) (l ++ k) = ring_bytes I ps l ++ ring_bytes I qs k.
Proof. intros Hl. unfold ring_bytes. by rewrite zip_with_app, concat_app by done. Qed.

(** The signature of the owner of a key has the commitments of its nonce. *)
Lemma owner_terms x k c P : 0 <= x -> P = x ⊙ base ->
  ring_terms (x ⊙ Hp (encode P)) P (Signature (le_encode 32 (c mod sc_order)) (le_encode 32 ((k - c mod sc_order * x) mod sc_order)))
  = encode (k ⊙ base) ++ encode (k ⊙ Hp (encode P)).
Proof.
  intros Hx EP. unfold ring_terms. cbn [sig_c sig_r]. rewrite !le_bytes_reduced. rewrite EP at 1. rewrite response_cancels by apply base_order.
  rewrite (gadd_comm (_ ⊙ Hp (encode P))). destruct (hash_to_ec_is (encode P)) as (_ & _ & _ & Ho). by rewrite response_cancels.
Qed.

Lemma challenge_split h a b : 0 <= h < sc_order -> (a + ((h - (0 + a + b) mod sc_order) mod sc_order + b)) mod sc_order = h.
Proof.
  intros Hh. rewrite Zminus_mod_idemp_r. replace (a + ((h - (0 + a + b)) mod sc_order + b)) with ((h - (0 + a + b)) mod sc_order + (a + b)) by ring.
  rewrite Zplus_mod_idemp_l. replace (h - (0 + a + b) + (a + b)) with h by ring. by apply Z.mod_small.
Qed.

Lemma generate_ring_debug I ps sec j P : reduced sec -> ps !! j = Some P -> P = le_bytes sec ⊙ base -> I = le_bytes sec ⊙ Hp (encode P) ->
  (ok ← checked sec; _ ← assert ok; t ← ge_scalarmult_base sec; t2 ← ge_p3_tobytes t;
   pub ← at_or_undef ((encode <$> ps) !! j); _ ← assert (bool_decide (pub = t2));
   t3 ← generate_key_image NDEBUG hash pub sec; _ ← assert (bool_decide (encode I = t3)); assert_keys (encode <$> ps)) = Ok tt.
Proof.
  intros Hs' Hj EP EI. key_step. bind_with (eq_refl (assert true)). key_step. key_step. rewrite list_lookup_fmap, Hj.
  bind_with (eq_refl (at_or_undef (Some (encode P)))). rewrite bool_decide_true by by rewrite EP. bind_with (eq_refl (assert true)).
  bind_with (generate_key_image_value (encode P) sec Hs'). rewrite bool_decide_true by by rewrite EI. bind_with (eq_refl (assert true)).
  apply assert_keys_value.
Qed.

Lemma generate_ring_loop_owner pre j P ps sig sum k g :
  generate_ring_loop hash gen pre j j (encode P :: ps) sig sum k g =
    ('(ab, sig, sum, k, g') ← generate_ring_loop hash gen pre j (S j) ps sig sum (Some (le_encode 32 (drawn g))) (next g);
     Ok (encode (drawn g ⊙ base) ++ encode (drawn g ⊙ Hp (encode P)) ++ ab, sig, sum, k, g')).
Proof.
  cbn [generate_ring_loop]. rewrite Nat.eqb_refl. bind_with (random_drawn g). key_step. key_step.
  destruct (hash_to_ec_is (encode P)) as (hp & Ep & Hhp & _). bind_with Ep. key_step. key_step. rewrite le_bytes_drawn. reflexivity.
Qed.

Lemma generate_ring_signature_value prefix ps qs sec P old g : reduced sec -> P = le_bytes sec ⊙ base ->
  length old = length (ps ++ P :: qs) ->
  let I := le_bytes sec ⊙ Hp (encode P) in
  exists sigs g', generate_ring_signature NDEBUG hash gen prefix (encode I) (encode <$> ps ++ P :: qs) sec (length ps) old g = Ok (sigs, g') /\
    Forall reduced_sig sigs /\ length sigs = length (ps ++ P :: qs) /\ valid_ring prefix I (ps ++ P :: qs) sigs = true.
Proof.
  intros Hs' EP Hold I. set (x := le_bytes sec) in *. assert (0 <= x) by by apply reduced_range.
  rewrite length_app in Hold. cbn [length] in Hold.
  destruct (decode_encode I) as (hI & EI & HI). destruct (ge_dsm_precomp_is hI I HI) as (pre & Epre & Hpre).
  pose proof (take_drop (length ps) old) as Eold. set (o1 := take (length ps) old) in *. 
  assert (L1 : length o1 = length ps) by (unfold o1; rewrite length_take; lia).
  assert (L2 : length (drop (length ps) old) = S (length qs)) by (rewrite length_drop; lia).
  destruct (drop (length ps) old) as [| o o2]; [done |]. injection L2 as L2.
  destruct (generate_ring_loop_others pre I (length ps) 0 ps [] (o :: o2) o1 0 None g Hpre L1 eq_refl) as (s1 & g1 & E1 & F1 & N1); [lia |].
  set (k := drawn g1) in *.
  destruct (generate_ring_loop_others pre I (length ps) (S (length ps)) qs (s1 ++ [o]) [] o2 (0 + challenges s1) (Some (le_encode 32 k)) (next g1) Hpre L2)
    as (s2 & g2 & E2 & F2 & N2); [rewrite length_app, N1; cbn; lia | lia |].
  set (ab := ring_bytes I ps s1 ++ (encode (k ⊙ base) ++ encode (k ⊙ Hp (encode P)) ++ ring_bytes I qs s2)).
  set (h := Hs (prefix ++ ab)). set (c := h - (0 + challenges s1 + challenges s2) mod sc_order).
  set (s := Signature (le_encode 32 (c mod sc_order)) (le_encode 32 ((k - c mod sc_order * x) mod sc_order))).
  assert (Hab : ring_bytes I (ps ++ P :: qs) (s1 ++ s :: s2) = ab).
  { rewrite ring_bytes_app, ring_bytes_cons by done. unfold s, I. rewrite owner_terms by done. unfold ab. by rewrite <- app_assoc. }
  assert (Fs : Forall reduced_sig (s1 ++ s :: s2)).
  { apply Forall_app. split; [done |]. constructor; [split; apply reduced_encode | done]. }
  exists (s1 ++ s :: s2), g2. split_and!; [| done | rewrite !length_app; cbn; lia |].
  - unfold generate_ring_signature. bind_with (debug_ok (assert (length ps <? length (encode <$> ps ++ P :: qs))%nat)
      ltac:(rewrite length_fmap, length_app, (proj2 (Nat.ltb_lt _ _)) by (cbn; lia); reflexivity)).
    bind_with (debug_ok _ (generate_ring_debug I (ps ++ P :: qs) sec (length ps) P Hs' ltac:(by rewrite list_lookup_middle) EP eq_refl)).
    bind_with EI. bind_with Epre. rewrite fmap_app, generate_ring_loop_app. change sc_0 with (le_encode 32 (0 mod sc_order)).
    rewrite <- Eold. cbn [app] in E1. bind_with E1. rewrite length_fmap, Nat.add_0_l. cbn [fmap list_fmap].
    rewrite generate_ring_loop_owner. fold k. rewrite <- !app_assoc in E2. cbn [app] in E2. rewrite app_nil_r in E2.
    rewrite !bind_bind. bind_with E2.
    cbn [mbind outcome_bind at_or_undef]. fold ab. bind_with (hash_to_scalar_value (prefix ++ ab)).
    match goal with |- mbind _ (sc_sub ?a ?b) = _ => bind_with (sc_sub_correct a b (reduced_scalar _ (hash_reduced _)) (reduced_scalar _ (reduced_encode _))) end.
    rewrite le_bytes_hash, le_bytes_reduced. fold h. fold c. unfold k at 1. key_step. rewrite le_bytes_reduced, le_bytes_drawn. fold k x.
    rewrite app_nil_r, <- N1, list_lookup_middle by done. cbn [at_or_undef mbind outcome_bind].
    rewrite insert_app_r_alt, Nat.sub_diag by done. reflexivity.
  - unfold valid_ring. rewrite Hab. apply andb_true_iff. split.
    + apply forallb_forall. intros s' Hin. apply list_elem_of_In in Hin. destruct (proj1 (Forall_forall _ _) Fs s' Hin) as [R1 R2].
      apply andb_true_iff. rewrite !Z.ltb_lt. split; by apply reduced_range.
    + apply Z.eqb_eq. rewrite challenges_app. cbn [challenges foldr]. change (foldr _ 0 s2) with (challenges s2). unfold s. cbn [sig_c].
      rewrite le_bytes_reduced. fold h. unfold c. symmetry. apply challenge_split, Hs_range.
Qed.
End Proofs.
