(* ===== verification/Signatures.v ===== *)
(** What the keys and the signatures promise.

    Agreement on a shared secret, one-time keys, and the completeness and the
    meaning of the three kinds of signatures of [Keys], for every hash with the
    interface [FastHash] and every generator with the interface
    [RandomBytes]. *)
From stdpp Require Import base list numbers.
From S2P Require Import Keccak.
From S2P Require Import Prelude FastHash Varint ScalarOps Groups Curve25519 PointCodec HashPoint ScalarMult GroupOrder Random Keys KeyProofs.
Open Scope Z_scope.

Section Theorems.
Context (NDEBUG : bool) (hash : list Z -> list Z) `{!FastHash hash}.
Context {G : Type} (gen : nat -> G -> list Z * G) `{!RandomBytes gen}.

Abbreviation Hs := (Hs hash).
Abbreviation Hp := (Hp hash).
Abbreviation drawn := (drawn gen).
Abbreviation next := (next gen).

(** A secret key with a public key is reduced, and the public key is its multiple of the base point. *)
Lemma public_key_of s P : is_scalar s -> secret_key_to_public_key s = Ok (Some P) -> reduced s /\ P = encode (le_bytes s ⊙ base).
Proof.
  intros Hs' E. rewrite secret_key_to_public_key_value in E by done. destruct (Z.ltb_spec (le_bytes s) sc_order); [| done].
  injection E as <-. by split; [split |].
Qed.

Lemma public_key_reduced s : reduced s -> secret_key_to_public_key s = Ok (Some (encode (le_bytes s ⊙ base))).
Proof.
  intros Hs'. rewrite secret_key_to_public_key_value by apply Hs'. pose proof (reduced_range s Hs'). by rewrite (proj2 (Z.ltb_lt _ _)) by lia.
Qed.

(** [generate_keys] returns a key pair: the secret key is reduced, the public key is the one of
    [secret_key_to_public_key] and passes [check_key]; restoring from the value that it returns gives the
    same pair. *)
Theorem generated_keys_match key recover g : is_scalar key ->
  exists pub sec rng g', generate_keys gen key recover g = Ok (pub, sec, rng, g') /\
    secret_key_to_public_key sec = Ok (Some pub) /\ check_key pub = Ok true /\
    generate_keys gen rng true g' = Ok (pub, sec, rng, g').
Proof.
  intros Hk. pose proof (generate_keys_value gen key recover g Hk) as E. cbv zeta in E.
  set (rng := if recover then key else le_encode 32 (drawn g)) in *. do 4 eexists. split; [exact E |].
  assert (Hr : is_scalar rng) by (unfold rng; destruct recover; [done | apply reduced_scalar, drawn_reduced; done]). split_and!.
  - rewrite public_key_reduced by apply reduced_encode. by rewrite le_bytes_reduced.
  - apply check_key_encode.
  - exact (generate_keys_value gen rng true _ Hr).
Qed.

(** The sender of a transaction and its recipient derive the same shared secret: each from the public
    key of the other and their own secret key. *)
Theorem derivation_agrees a r A R : is_scalar a -> is_scalar r ->
  secret_key_to_public_key a = Ok (Some A) -> secret_key_to_public_key r = Ok (Some R) ->
  exists D, generate_key_derivation NDEBUG A r = Ok (Some D) /\ generate_key_derivation NDEBUG R a = Ok (Some D) /\
    D = encode ((8 * (le_bytes a * le_bytes r)) ⊙ base).
Proof.
  intros Ha Hr EA ER. apply public_key_of in EA as [Ra ->], ER as [Rr ->]; [| done | done]. eexists.
  rewrite !generate_key_derivation_value by done. 
  assert (E : forall x y, 8 ⊙ (x ⊙ (y ⊙ base)) = (8 * (y * x)) ⊙ base) by (intros x y; rewrite <- !gmul_mul; f_equal; ring).
  rewrite !E, (Z.mul_comm (le_bytes r)). split_and!; reflexivity.
Qed.

(** C17: the one-time key that a sender derives from a public key belongs to the secret key that its owner
    derives, for every derivation and index, and [derive_subaddress_public_key] recovers the public key
    that a one-time key was derived from. *)
Theorem one_time_keys_match b B D i : is_scalar b -> secret_key_to_public_key b = Ok (Some B) -> in_u 64 i ->
  exists P p, derive_public_key hash D i B = Ok (Some P) /\ derive_secret_key NDEBUG hash D i b = Ok p /\
    secret_key_to_public_key p = Ok (Some P) /\ derive_subaddress_public_key hash P D i = Ok (Some B).
Proof.
  intros Hb EB Hi. apply public_key_of in EB as [Rb ->]; [| done].
  exists (encode (le_bytes b ⊙ base ⊕ Hs (D ++ get_varint_data i) ⊙ base)), (le_encode 32 ((le_bytes b + Hs (D ++ get_varint_data i)) mod sc_order)).
  split_and!; [by apply derive_public_key_value | by apply derive_secret_key_value | |].
  - rewrite public_key_reduced by apply reduced_encode. rewrite le_bytes_reduced, gmul_mod, gmul_add by (done || apply base_order). done.
  - rewrite derive_subaddress_public_key_value by done. by rewrite <- gadd_assoc, gadd_neg_r, gadd_zero_r.
Qed.

(** ** Signatures *)

(** The signature of a nonce is accepted, unless the nonce is zero. *)
Lemma nonce_signature prefix sec k : reduced sec -> 0 <= k < sc_order ->
  let P := le_bytes sec ⊙ base in
  let c := Hs (s_comm prefix (encode P) (encode (k ⊙ base))) in
  c <> 0 -> check_signature NDEBUG hash prefix (encode P) (Signature (le_encode 32 c) (le_encode 32 ((k - c * le_bytes sec) mod sc_order))) =
    Ok (bool_decide (k <> 0)).
Proof.
  intros Hs' Hk P c Hc0. pose proof (Hs_range hash (s_comm prefix (encode P) (encode (k ⊙ base)))) as Hc. fold c in Hc.
  assert (Ec : le_bytes (le_encode 32 c) = c) by by apply le_bytes_hash.
  rewrite check_signature_value by (try done; cbn [sig_c sig_r]; apply reduced_scalar, reduced_encode || by apply reduced_scalar, hash_reduced).
  f_equal. apply bool_decide_ext. unfold valid_signature. cbn [sig_c sig_r]. cbv zeta. rewrite Ec, le_bytes_reduced.
  assert (ER : c ⊙ P ⊕ ((k - c * le_bytes sec) mod sc_order) ⊙ base = k ⊙ base) by apply response_cancels, base_order. rewrite ER.
  split; [intros (_ & _ & _ & HR & _) E0; apply HR; by rewrite E0 |]. intros Hne.
  split_and!; [lia | by apply Z.mod_pos_bound | done | | reflexivity].
  rewrite base_order_exact. intros [q Hq]. assert (q = 0) by nia. lia.
Qed.

(** The pair that [generate_signature] computes from the nonce of the state [g]. *)
Definition challenge_of (prefix pub : list Z) (g : G) : Z := Hs (s_comm prefix pub (encode (drawn g ⊙ base))).
Definition response_of (prefix pub sec : list Z) (g : G) : Z := (drawn g - challenge_of prefix pub g * le_bytes sec) mod sc_order.

(** It is not thrown away. *)
Definition good_draw (prefix pub sec : list Z) (g : G) : bool :=
  negb ((challenge_of prefix pub g =? 0) || (response_of prefix pub sec g =? 0)).

Lemma try_again_first fuel n prefix pub sec g : reduced sec -> (n < fuel)%nat ->
  (forall m, (m < n)%nat -> good_draw prefix pub sec (Nat.iter m next g) = false) -> good_draw prefix pub sec (Nat.iter n next g) = true ->
  let g' := Nat.iter n next g in
  try_again hash gen fuel prefix pub sec g =
    Ok (Signature (le_encode 32 (challenge_of prefix pub g')) (le_encode 32 (response_of prefix pub sec g')), next g').
Proof.
  intros Hs'. cbv zeta. revert n g. induction fuel as [| fuel IH]; intros n g Hn Hbad Hgood; [lia |].
  rewrite try_again_step by done. cbv zeta. fold (challenge_of prefix pub g). fold (response_of prefix pub sec g).
  destruct n as [| n].
  - change (Nat.iter 0 next g) with g in *. unfold good_draw in Hgood. apply negb_true_iff in Hgood. by rewrite Hgood.
  - pose proof (Hbad 0%nat ltac:(lia)) as H0. change (Nat.iter 0 next g) with g in H0. unfold good_draw in H0. apply negb_false_iff in H0. rewrite H0.
    rewrite Nat.iter_succ_r in *. apply IH; [lia | | done]. intros m Hm. rewrite <- Nat.iter_succ_r. apply Hbad. lia.
Qed.

(** C16: [generate_signature] returns as soon as a nonce gives a challenge and a response that are not
    zero, after as many draws as that takes, and [check_signature] accepts the signature whenever that nonce is
    not zero. A nonce of zero, which [random_scalar] does not exclude, gives a signature that is refused. *)
Theorem signature_generated fuel n prefix pub sec g : is_scalar sec -> secret_key_to_public_key sec = Ok (Some pub) -> (n < fuel)%nat ->
  (forall m, (m < n)%nat -> good_draw prefix pub sec (Nat.iter m next g) = false) -> good_draw prefix pub sec (Nat.iter n next g) = true ->
  exists sig, generate_signature NDEBUG hash gen fuel prefix pub sec g = Ok (sig, Nat.iter (S n) next g) /\
    check_signature NDEBUG hash prefix pub sig = Ok (bool_decide (drawn (Nat.iter n next g) <> 0)).
Proof.
  intros Hsec Epub Hn Hbad Hgood. pose proof Epub as Epub'. apply public_key_of in Epub' as [Rs ->]; [| done].
  eexists. split.
  - unfold generate_signature. rewrite debug_ok; [cbn [mbind outcome_bind]; by apply try_again_first |].
    unfold secret_key_to_public_key in Epub. rewrite checked_reduced in Epub |- * by done. cbn [mbind outcome_bind negb assert] in *.
    destruct (ge_scalarmult_base sec) as [t | |]; try done. cbn [mbind outcome_bind] in *.
    destruct (ge_p3_tobytes t) as [t2 | |]; try done. cbn [mbind outcome_bind] in *. injection Epub as ->. by rewrite bool_decide_true.
  - apply nonce_signature; [done | by apply Z.mod_pos_bound |]. unfold good_draw in Hgood.
    apply negb_true_iff, orb_false_iff in Hgood as [Hc0 _]. by apply Z.eqb_neq in Hc0.
Qed.

(** C15: [check_signature] accepts exactly the valid signatures, in builds with and without assertions. For a
    public key that encodes a point P and every pair of 32-byte scalars it returns, and the result is true if and
    only if both scalars are reduced, c is not zero, R = cP + rG is not the neutral element and c is the
    hash, modulo the order, of the bytes of the prefix, of the key and of R. Any other 32 bytes of a key are
    refused by a release build, and end a debug build at its assertion. *)
Theorem check_signature_exact prefix pub sig : is_scalar pub -> is_scalar (sig_c sig) -> is_scalar (sig_r sig) ->
  (exists P, pub = encode P /\
    check_signature NDEBUG hash prefix pub sig = Ok (bool_decide (valid_signature hash prefix P sig))) \/
  (forall P, pub <> encode P) /\ check_signature NDEBUG hash prefix pub sig = if NDEBUG then Ok false else Undef.
Proof.
  intros Hpub Hc Hr. destruct (decode_cases pub Hpub) as [[P ->] | [E Hno]].
  - left. exists P. by rewrite check_signature_value.
  - right. split; [intros P EP; by destruct (Hno P) |]. unfold check_signature, check_key. rewrite E. by destruct NDEBUG.
Qed.

(** Whoever signs two messages with one nonce gives the secret key away: from two accepted signatures
    with the same commitment and different challenges the secret key follows, as the quotient of the differences
    of responses and challenges, up to the small subgroup that the multiplication by 8 removes. *)
Theorem nonce_reuse_reveals m m' P sig sig' : is_scalar (sig_c sig) -> is_scalar (sig_r sig) -> is_scalar (sig_c sig') -> is_scalar (sig_r sig') ->
  check_signature NDEBUG hash m (encode P) sig = Ok true -> check_signature NDEBUG hash m' (encode P) sig' = Ok true ->
  le_bytes (sig_c sig) ⊙ P ⊕ le_bytes (sig_r sig) ⊙ base = le_bytes (sig_c sig') ⊙ P ⊕ le_bytes (sig_r sig') ⊙ base ->
  sig_c sig <> sig_c sig' ->
  let x := (le_bytes (sig_r sig') - le_bytes (sig_r sig)) * Z.invmod (le_bytes (sig_c sig) - le_bytes (sig_c sig')) sc_order in
  8 ⊙ P = 8 ⊙ (x ⊙ base).
Proof.
  intros Hc Hr Hc' Hr' E E' ER Hne. cbv zeta. rewrite check_signature_value in E, E' by done.
  injection E as E. injection E' as E'. apply bool_decide_eq_true in E as (Bc & _), E' as (Bc' & _).
  pose proof (le_bytes_range _ (proj1 Hc)) as Rc. pose proof (le_bytes_range _ (proj1 Hc')) as Rc'.
  set (c := le_bytes (sig_c sig)) in *. set (c' := le_bytes (sig_c sig')) in *. set (r := le_bytes (sig_r sig)) in *. set (r' := le_bytes (sig_r sig')) in *.
  assert (Hcc : c <> c').
  { intros Ec. apply Hne. rewrite <- (le_encode_value _ (proj1 Hc)), <- (le_encode_value _ (proj1 Hc')), (proj2 Hc), (proj2 Hc'). unfold c, c' in Ec. by rewrite Ec. }
  assert (Ediff : (c - c') ⊙ P = (r' - r) ⊙ base).
  { apply (gadd_cancel_l (c' ⊙ P)). rewrite <- gmul_add. replace (c' + (c - c')) with c by ring.
    apply (gadd_cancel_r _ _ (r ⊙ base)). rewrite ER, <- gadd_assoc. f_equal. rewrite <- gmul_add. f_equal. ring. }
  set (inv := Z.invmod (c - c') sc_order).
  assert (Hinv : (inv * (c - c')) mod sc_order = 1).
  { unfold inv. rewrite Z.invmod_coprime'; [done |]. unfold Z.coprime. rewrite Z.gcd_comm. apply Z.coprime_prime_l; [apply sc_order_prime |].
    intros [q Hq]. assert (q = 0) by nia. apply Hcc. subst q. lia. }
  transitivity (((inv * (c - c')) mod sc_order) ⊙ (8 ⊙ P)); [by rewrite Hinv, gmul_1 |].
  rewrite gmul_mod by (done || apply mul8_order). rewrite <- !gmul_mul.
  replace (inv * (c - c') * 8) with (8 * inv * (c - c')) by ring. rewrite gmul_mul, Ediff, <- gmul_mul. f_equal. ring.
Qed.

(** ** Proofs of transactions *)

(** [check_tx_proof] accepts what [generate_tx_proof] returns for the shared point D = rA and for
    R = rG, or R = rB with the spend key B of a subaddress, when the points that it multiplies have the order of the
    scalars (as all honest keys do). *)
Theorem tx_proof_accepted prefix r A B g : reduced r -> sc_order ⊙ A = gzero -> sc_order ⊙ spend_point B = gzero ->
  exists sig, generate_tx_proof NDEBUG hash gen prefix (encode (le_bytes r ⊙ spend_point B)) (encode A) (encode <$> B) (encode (le_bytes r ⊙ A)) r g
      = Ok (sig, next g) /\
    check_tx_proof hash prefix (encode (le_bytes r ⊙ spend_point B)) (encode A) (encode <$> B) (encode (le_bytes r ⊙ A)) sig = Ok true.
Proof.
  intros Hr HA HB. eexists. split; [by apply generate_tx_proof_value |].
  set (k := drawn g). set (c := Hs _).
  assert (Ec : le_bytes (le_encode 32 c) = c) by by apply le_bytes_hash.
  rewrite check_tx_proof_value by (try done; cbn [sig_c sig_r]; apply reduced_scalar, reduced_encode || by apply reduced_scalar, hash_reduced).
  f_equal. apply bool_decide_eq_true. cbn [sig_c sig_r]. rewrite Ec, le_bytes_reduced, !response_cancels by done.
  split_and!; [by apply Hs_range | by apply Z.mod_pos_bound | done].
Qed.

(** [check_tx_proof] accepts exactly the pairs (c, r) of reduced scalars for which c is the hash of the
    prefix, D, cR + rB (or cR + rG) and cD + rA: two equalities of discrete logarithms with one challenge. *)
Theorem check_tx_proof_exact prefix R A B D sig : is_scalar R -> is_scalar A -> is_scalar D ->
  match B with Some B => is_scalar B | None => True end -> is_scalar (sig_c sig) -> is_scalar (sig_r sig) ->
  let c := le_bytes (sig_c sig) in
  let r := le_bytes (sig_r sig) in
  exists b, check_tx_proof hash prefix R A B D sig = Ok b /\
    (b = true <-> exists pR pA pB pD, encode pR = R /\ encode pA = A /\ encode <$> pB = B /\ encode pD = D /\ c < sc_order /\ r < sc_order /\
      Hs (s_comm_2 prefix D (encode (c ⊙ pR ⊕ r ⊙ spend_point pB)) (encode (c ⊙ pD ⊕ r ⊙ pA))) = c).
Proof.
  intros HR HA HD HB Hc Hr c r.
  assert (Hstop : (forall pR pA pB pD, encode pR = R -> encode pA = A -> encode <$> pB = B -> encode pD = D -> False) ->
    check_tx_proof hash prefix R A B D sig = Ok false -> exists b, check_tx_proof hash prefix R A B D sig = Ok b /\
    (b = true <-> exists pR pA pB pD, encode pR = R /\ encode pA = A /\ encode <$> pB = B /\ encode pD = D /\ c < sc_order /\ r < sc_order /\
      Hs (s_comm_2 prefix D (encode (c ⊙ pR ⊕ r ⊙ spend_point pB)) (encode (c ⊙ pD ⊕ r ⊙ pA))) = c)).
  { intros Hno E. exists false. split; [done |]. split; [done |]. intros (pR & pA & pB & pD & ? & ? & ? & ? & _). by destruct (Hno pR pA pB pD). }
  destruct (decode_cases R HR) as [[pR ->] | [ER NR]].
  2: { apply Hstop; [intros p ? ? ? Ep; by destruct (NR p) |]. unfold check_tx_proof. by rewrite ER. }
  destruct (decode_encode pR) as (hR & EhR & _). destruct (decode_cases A HA) as [[pA ->] | [EA NA]].
  2: { apply Hstop; [intros ? p ? ? ? Ep; by destruct (NA p) |]. unfold check_tx_proof. rewrite EhR. simpl_bind. cbn [or_false]. by rewrite EA. }
  destruct (decode_encode pA) as (hA & EhA & _).
  assert (HpB : (exists pB, encode <$> pB = B) \/ decode_opt B = Ok None /\ forall pB, encode <$> pB <> B).
  { destruct B as [B |]; [| left; by exists None]. destruct (decode_cases B HB) as [[pB ->] | [EB NB]]; [left; by exists (Some pB) |].
    right. cbn [decode_opt]. rewrite EB. split; [done |]. intros [p |] Ep; [| done]. injection Ep as Ep. by destruct (NB p). }
  destruct HpB as [[pB <-] | [EB NB]].
  2: { apply Hstop; [intros ? ? p ? ? ? Ep; by destruct (NB p) |]. unfold check_tx_proof. rewrite EhR. simpl_bind. cbn [or_false].
       rewrite EhA. simpl_bind. cbn [or_false]. by rewrite EB. }
  destruct (decode_opt_value pB) as (hB & EhB & _). destruct (decode_cases D HD) as [[pD ->] | [ED ND]].
  2: { apply Hstop; [intros ? ? ? p ? ? ? Ep; by destruct (ND p) |]. unfold check_tx_proof. rewrite EhR. simpl_bind. cbn [or_false].
       rewrite EhA. simpl_bind. cbn [or_false]. rewrite EhB. simpl_bind. cbn [or_false]. by rewrite ED. }
  rewrite check_tx_proof_value by done. eexists. split; [reflexivity |]. rewrite bool_decide_eq_true. fold c r.
  split; [intros (? & ? & ?); by exists pR, pA, pB, pD |].
  intros (qR & qA & qB & qD & ER & EA & EB & ED & ? & ? & EH). apply encode_inj in ER as ->, EA as ->, ED as ->.
  apply encode_opt_inj in EB as ->. exact (conj H (conj H0 EH)).
Qed.

(** ** Ring signatures *)

(** C14: [check_ring_signature] accepts what [generate_ring_signature] returns, for the owner of any key of
    the ring, with the key image of [generate_key_image], whatever the other keys, the random numbers and the
    previous contents of the array of signatures. *)
Theorem ring_signature_accepted prefix ps j sec pub image old g : is_scalar sec ->
  secret_key_to_public_key sec = Ok (Some pub) -> (encode <$> ps) !! j = Some pub ->
  generate_key_image NDEBUG hash pub sec = Ok image -> length old = length ps ->
  exists sigs g', generate_ring_signature NDEBUG hash gen prefix image (encode <$> ps) sec j old g = Ok (sigs, g') /\
    check_ring_signature NDEBUG hash prefix image (encode <$> ps) sigs = Ok true.
Proof.
  intros Hsec Epub Hj Eimg Hold. apply public_key_of in Epub as [Rs ->]; [| done]. rewrite generate_key_image_value in Eimg by done. injection Eimg as <-.
  rewrite list_lookup_fmap in Hj. destruct (ps !! j) as [P |] eqn:EP; [| done]. apply (f_equal (default [])) in Hj. apply encode_inj in Hj.
  pose proof (take_drop_middle ps j P EP) as Eps. rewrite <- Eps in Hold |- *.
  assert (Hlen : length (take j ps) = j) by (apply length_take_le; apply lookup_lt_Some in EP; lia).
  destruct (generate_ring_signature_value NDEBUG hash gen prefix (take j ps) (drop (S j) ps) sec P old g Rs Hj Hold) as (sigs & g' & E & F & L & V).
  rewrite Hlen in E. exists sigs, g'. rewrite <- Hj. split; [exact E |].
  rewrite check_ring_signature_value; [by rewrite V | done | | done].
  eapply Forall_impl; [exact F |]. intros s [H1 H2]. split; by apply reduced_scalar.
Qed.
End Theorems.

(** ** Witnesses *)

(** The secret key 1, whose public key is the base point. *)
Definition one_key : list Z := le_encode 32 1.

Lemma one_key_reduced : reduced one_key.
Proof. split; [split; [apply le_encode_bytes | reflexivity] | reflexivity]. Qed.

Lemma one_key_scalar : is_scalar one_key.
Proof. exact (proj1 one_key_reduced). Qed.

Lemma generated_keys_match_witness : is_scalar one_key /\
  exists pub sec rng g', generate_keys constant_bytes one_key false 9 = Ok (pub, sec, rng, g') /\
    secret_key_to_public_key sec = Ok (Some pub) /\ check_key pub = Ok true /\
    generate_keys constant_bytes rng true g' = Ok (pub, sec, rng, g').
Proof. split; [exact one_key_scalar |]. exact (generated_keys_match constant_bytes one_key false 9 one_key_scalar). Defined.

Lemma derivation_agrees_witness : exists D,
  generate_key_derivation false (encode (le_bytes one_key ⊙ base)) one_key = Ok (Some D) /\ D = encode ((8 * (le_bytes one_key * le_bytes one_key)) ⊙ base).
Proof.
  destruct (derivation_agrees false one_key one_key _ _ one_key_scalar one_key_scalar
    (public_key_reduced _ one_key_reduced) (public_key_reduced _ one_key_reduced)) as (D & E & _ & H).
  exists D. exact (conj E H).
Defined.

Lemma one_time_keys_match_witness : in_u 64 18446744073709551615 /\
  exists P p, derive_public_key cn_fast_hash (replicate 32 3) 18446744073709551615 (encode (le_bytes one_key ⊙ base)) = Ok (Some P) /\
    derive_secret_key false cn_fast_hash (replicate 32 3) 18446744073709551615 one_key = Ok p /\
    secret_key_to_public_key p = Ok (Some P) /\
    derive_subaddress_public_key cn_fast_hash P (replicate 32 3) 18446744073709551615 = Ok (Some (encode (le_bytes one_key ⊙ base))).
Proof.
  assert (H : in_u 64 18446744073709551615) by (split; [by apply Z.leb_le | by apply Z.ltb_lt]). split; [exact H |].
  exact (one_time_keys_match false cn_fast_hash one_key _ (replicate 32 3) 18446744073709551615 one_key_scalar (public_key_reduced _ one_key_reduced) H).
Defined.

(** A function with the interface of the hash that depends on the first byte. *)
Definition first_byte_hash (data : list Z) : list Z := le_encode 32 (7 + List.hd 0 data).

#[export] Instance first_byte_hash_interface : FastHash first_byte_hash.
Proof. split; intros data; [apply le_encode_length | apply le_encode_bytes]. Qed.

Lemma first_byte_challenge x rest pub comm : 0 <= x < 256 -> Hs first_byte_hash (s_comm (x :: rest) pub comm) = 7 + x.
Proof.
  intros Hx. unfold Hs, first_byte_hash, s_comm. cbn [app List.hd]. assert (512 < sc_order) by done. assert (512 < 256 ^ Z.of_nat 32) by done.
  rewrite le_bytes_encode by lia. apply Z.mod_small. lia.
Qed.

Lemma first_byte_good : good_draw first_byte_hash constant_bytes (1 :: replicate 31 0) (encode (le_bytes one_key ⊙ base)) one_key 2 = true.
Proof.
  assert (E : challenge_of first_byte_hash constant_bytes (1 :: replicate 31 0) (encode (le_bytes one_key ⊙ base)) 2 = 8)
    by (apply first_byte_challenge; lia).
  unfold good_draw, response_of. rewrite E. vm_compute. reflexivity.
Qed.

Lemma signature_generated_witness :
  exists sig, generate_signature false first_byte_hash constant_bytes 3 (1 :: replicate 31 0) (encode (le_bytes one_key ⊙ base)) one_key 2 = Ok (sig, 2) /\
    check_signature false first_byte_hash (1 :: replicate 31 0) (encode (le_bytes one_key ⊙ base)) sig = Ok (bool_decide (drawn constant_bytes 2 <> 0)).
Proof.
  exact (signature_generated false first_byte_hash constant_bytes 3 0 (1 :: replicate 31 0) _ one_key 2 one_key_scalar
    (public_key_reduced _ one_key_reduced) ltac:(lia) (fun m Hm => ltac:(exfalso; lia)) first_byte_good).
Defined.

Lemma check_signature_exact_witness : is_scalar (encode base) /\
  exists b, check_signature false cn_fast_hash (replicate 32 0) (encode base) (Signature one_key one_key) = Ok b.
Proof.
  split; [apply encode_is_scalar |].
  destruct (check_signature_exact false cn_fast_hash (replicate 32 0) (encode base) (Signature one_key one_key)
    (encode_is_scalar base) one_key_scalar one_key_scalar) as [(P & _ & E) | [Hno _]].
  - eexists. exact E.
  - by destruct (Hno base).
Defined.

(** Two messages signed with the secret key 1 and the nonce 5. *)
Definition reused (x : Z) : signature := Signature (le_encode 32 (7 + x)) (le_encode 32 ((5 - (7 + x) * 1) mod sc_order)).

Lemma reused_scalars x : is_scalar (sig_c (reused x)) /\ is_scalar (sig_r (reused x)).
Proof. split; (split; [apply le_encode_bytes | apply le_encode_length]). Qed.

Lemma reused_accepted x : 0 <= x < 256 -> check_signature false first_byte_hash (x :: replicate 31 0) (encode (le_bytes one_key ⊙ base)) (reused x) = Ok true.
Proof.
  intros Hx. assert (H5 : 0 <= 5 < sc_order) by done.
  pose proof (nonce_signature false first_byte_hash (x :: replicate 31 0) one_key 5 one_key_reduced H5) as E. cbv zeta in E.
  rewrite first_byte_challenge in E by done. apply E. lia.
Qed.

Lemma nonce_reuse_reveals_witness : 8 ⊙ (le_bytes one_key ⊙ base) =
  8 ⊙ (((le_bytes (sig_r (reused 1)) - le_bytes (sig_r (reused 0))) * Z.invmod (le_bytes (sig_c (reused 0)) - le_bytes (sig_c (reused 1))) sc_order) ⊙ base).
Proof.
  refine (nonce_reuse_reveals false first_byte_hash (0 :: replicate 31 0) (1 :: replicate 31 0) _ (reused 0) (reused 1)
    (proj1 (reused_scalars 0)) (proj2 (reused_scalars 0)) (proj1 (reused_scalars 1)) (proj2 (reused_scalars 1))
    (reused_accepted 0 ltac:(lia)) (reused_accepted 1 ltac:(lia)) _ _).
  - transitivity (5 ⊙ base).
    + exact (response_cancels 7 1 5 base base_order).
    + symmetry. exact (response_cancels 8 1 5 base base_order).
  - intros E. apply (f_equal (fun l => List.hd 0 l)) in E. vm_compute in E. discriminate E.
Defined.

Lemma tx_proof_accepted_witness : reduced one_key /\ sc_order ⊙ base = gzero /\
  exists sig, generate_tx_proof false cn_fast_hash constant_bytes (replicate 32 0) (encode (le_bytes one_key ⊙ spend_point None)) (encode base) (encode <$> None)
      (encode (le_bytes one_key ⊙ base)) one_key 7 = Ok (sig, 7) /\
    check_tx_proof cn_fast_hash (replicate 32 0) (encode (le_bytes one_key ⊙ spend_point None)) (encode base) (encode <$> None)
      (encode (le_bytes one_key ⊙ base)) sig = Ok true.
Proof.
  split; [exact one_key_reduced |]. split; [exact base_order |].
  exact (tx_proof_accepted false cn_fast_hash constant_bytes (replicate 32 0) one_key base None 7 one_key_reduced base_order base_order).
Defined.

Lemma check_tx_proof_exact_witness : exists b,
  check_tx_proof cn_fast_hash (replicate 32 0) (encode base) (encode base) (Some (encode base)) (encode base) (Signature one_key one_key) = Ok b.
Proof.
  destruct (check_tx_proof_exact cn_fast_hash (replicate 32 0) (encode base) (encode base) (Some (encode base)) (encode base) (Signature one_key one_key)
    (encode_is_scalar base) (encode_is_scalar base) (encode_is_scalar base) (encode_is_scalar base) one_key_scalar one_key_scalar) as (b & E & _).
  exists b. exact E.
Defined.

(** The owner of the second of three keys. *)
Definition witness_ring : list point := [gzero; le_bytes one_key ⊙ base; 2 ⊙ base].

Lemma ring_signature_accepted_witness : exists image sigs g',
  generate_key_image false cn_fast_hash (encode (le_bytes one_key ⊙ base)) one_key = Ok image /\
  generate_ring_signature false cn_fast_hash constant_bytes (replicate 32 0) image (encode <$> witness_ring) one_key 1 (replicate 3 (reused 0)) 4 = Ok (sigs, g') /\
  check_ring_signature false cn_fast_hash (replicate 32 0) image (encode <$> witness_ring) sigs = Ok true.
Proof.
  pose proof (generate_key_image_value false cn_fast_hash (encode (le_bytes one_key ⊙ base)) one_key one_key_reduced) as Eimg.
  destruct (ring_signature_accepted false cn_fast_hash constant_bytes (replicate 32 0) witness_ring 1 one_key _ _ (replicate 3 (reused 0)) 4
    one_key_scalar (public_key_reduced _ one_key_reduced) eq_refl Eimg eq_refl) as (sigs & g' & E1 & E2).
  do 3 eexists. exact (conj Eimg (conj E1 E2)).
Defined.
