(* ===== verification/RctPoints.v ===== *)
(** The second generator of the commitments and the tables of its multiples.

    [H] of rctTypes.h is a point of the order of the scalars, [ge_p3_H] of
    crypto-ops-data.c is that point, [H2] holds its multiples by powers of two
    and the table of rctOps.cpp holds the commitments to its amounts with the
    mask 1. *)
From Stdlib Require Import Zmod Field.
From Bignums Require Import BigN.
From stdpp Require Import base list numbers.
From S2P Require Import Prelude FieldOps ScalarOps CurveData Primality Groups Edwards Curve25519 GroupOps PointCodec GroupOrder RctData.
Open Scope Z_scope.

Definition H_coords : Fp * Fp :=
  (fp 44115840154693352731557989475342686826820046586146704265789981914775973517427,
   fp 9102111593045260626123023279363907201838477468971026384621755002289944880523).

Lemma H_valid : valid H_coords.
Proof. by vm_compute. Qed.

(** The second generator. *)
Definition HH : point := Point H_coords H_valid.

Lemma encode_HH : encode HH = H.
Proof. by vm_compute. Qed.

Lemma ge_p3_H_is : p3_is ge_p3_H HH.
Proof.
  exists 1%fp. split; [by vm_compute |]. unfold ge_p3_H. cbn [p3_X p3_Y p3_Z p3_T].
  split_and!; apply FF_alt; (split; [by apply all_in_within | by vm_compute]).
Qed.

Definition H_triple : triple := Eval vm_compute in Triple (big H_coords.1) (big H_coords.2) BigN.one.

Lemma H_tripled : tripled H_triple HH.
Proof. by vm_compute. Qed.

Lemma HH_order : sc_order ⊙ HH = gzero.
Proof.
  change sc_order with 7237005577332262213973186563042994240857116359379907606001950938285454250989.
  eapply triple_zero; [apply tmul_points, H_tripled |]. vm_compute. reflexivity.
Qed.

(** ** The bytes of a point in projective coordinates *)

(** [b] is the power [e] of [a]. *)
Definition power (a : bigN) (e : Z) (b : bigN) : Prop := 0 <= e /\ fpb b = Zmod.pow (fpb a) e.

Definition bsquares (n : nat) (b : bigN) : bigN := Nat.iter n (fun b => bmul b b) b.

Lemma inverse_power_one a : power a 1 a.
Proof. split; [lia |]. by rewrite Zmod.pow_1_r. Qed.

Lemma power_mul a e b e' b' : power a e b -> power a e' b' -> power a (e + e') (bmul b b').
Proof. intros [H E] [H' E']. split; [lia |]. by rewrite fpb_mul, E, E', Zmod.pow_add_r_nonneg by done. Qed.

Lemma power_squares n a e b : power a e b -> power a (2 ^ Z.of_nat n * e) (bsquares n b).
Proof.
  intros H. induction n as [| n IH]; [by rewrite Z.mul_1_l |]. rewrite Nat2Z.inj_succ, Z.pow_succ_r by lia.
  replace (2 * 2 ^ Z.of_nat n * e) with (2 ^ Z.of_nat n * e + 2 ^ Z.of_nat n * e) by ring. by apply power_mul.
Qed.

(** The power p - 2, by the chain of [fe_invert]. *)
Definition binv (a : bigN) : bigN :=
  let a2 := bsquares 1 a in
  let a9 := bmul (bsquares 2 a2) a in
  let a11 := bmul a9 a2 in
  let b5 := bmul (bsquares 1 a11) a9 in
  let b10 := bmul (bsquares 5 b5) b5 in
  let b20 := bmul (bsquares 10 b10) b10 in
  let b40 := bmul (bsquares 20 b20) b20 in
  let b50 := bmul (bsquares 10 b40) b10 in
  let b100 := bmul (bsquares 50 b50) b50 in
  let b200 := bmul (bsquares 100 b100) b100 in
  let b250 := bmul (bsquares 50 b200) b50 in
  bmul (bsquares 5 b250) a11.

Lemma binv_power a : power a (fe_prime - 2) (binv a).
Proof.
  assert (E : power a (2 ^ 5 * (2 ^ 250 - 1) + 11) (binv a)); [| exact E]. unfold binv.
  pose proof (inverse_power_one a) as P1. pose proof (power_squares 1 _ _ _ P1) as P2.
  pose proof (power_mul _ _ _ _ _ (power_squares 2 _ _ _ P2) P1) as P9. pose proof (power_mul _ _ _ _ _ P9 P2) as P11.
  pose proof (power_mul _ _ _ _ _ (power_squares 1 _ _ _ P11) P9) as Q5.
  pose proof (power_mul _ _ _ _ _ (power_squares 5 _ _ _ Q5) Q5) as Q10.
  pose proof (power_mul _ _ _ _ _ (power_squares 10 _ _ _ Q10) Q10) as Q20.
  pose proof (power_mul _ _ _ _ _ (power_squares 20 _ _ _ Q20) Q20) as Q40.
  pose proof (power_mul _ _ _ _ _ (power_squares 10 _ _ _ Q40) Q10) as Q50.
  pose proof (power_mul _ _ _ _ _ (power_squares 50 _ _ _ Q50) Q50) as Q100.
  pose proof (power_mul _ _ _ _ _ (power_squares 100 _ _ _ Q100) Q100) as Q200.
  pose proof (power_mul _ _ _ _ _ (power_squares 50 _ _ _ Q200) Q50) as Q250.
  exact (power_mul _ _ _ _ _ (power_squares 5 _ _ _ Q250) P11).
Qed.

Lemma binv_spec a : fpb a <> 0%fp -> (fpb (binv a) * fpb a = 1)%fp.
Proof.
  intros Ha. destruct (binv_power a) as [_ ->]. rewrite <- (Zmod.pow_1_r (fpb a)) at 2. rewrite <- Zmod.pow_add_r_nonneg by done.
  exact (Zmod.fermat_nz _ Ha fe_prime_prime).
Qed.

(** The number that the encoding of the point holds. *)
Definition tbytes (t : triple) : bigN :=
  let i := binv (tZ t) in
  let x := bmul (tX t) i in
  BigN.add (bmul (tY t) i) (BigN.mul (BigN.pow (BigN.of_N 2) (BigN.of_N 255)) (BigN.modulo x (BigN.of_N 2))).

Lemma bmul_range a b : 0 <= BigN.to_Z (bmul a b) < fe_prime.
Proof. unfold bmul. rewrite BigN.spec_modulo, to_Z_big_p. by apply Z.mod_pos_bound. Qed.

Lemma tbytes_encode t p : tripled t p -> encode p = le_encode 32 (BigN.to_Z (tbytes t)).
Proof.
  intros (HZ & HX & HY). unfold encode, tbytes. f_equal. rewrite BigN.spec_add, BigN.spec_mul, BigN.spec_pow, BigN.spec_modulo.
  change (BigN.to_Z (BigN.of_N 2) ^ BigN.to_Z (BigN.of_N 255)) with (2 ^ 255). change (BigN.to_Z (BigN.of_N 2)) with 2.
  assert (Hc : forall a (c : Fp), fpb a = (c * fpb (tZ t))%fp -> Zmod.to_Z c = BigN.to_Z (bmul a (binv (tZ t)))).
  { intros a c Ea. rewrite <- (fp_small (BigN.to_Z (bmul _ _))) by apply bmul_range. f_equal. change (fp (BigN.to_Z ?x)) with (fpb x).
    rewrite fpb_mul, Ea. transitivity (c * (fpb (binv (tZ t)) * fpb (tZ t)))%fp; [rewrite binv_spec by done; ring | ring]. }
  by rewrite (Hc _ _ HX), (Hc _ _ HY).
Qed.

(** ** The powers of two *)

Fixpoint powers_ok (t : triple) (l : list (list Z)) : bool :=
  match l with
  | [] => true
  | b :: l => bool_decide (le_encode 32 (BigN.to_Z (tbytes t)) = b) && powers_ok (tadd t t) l
  end.

Lemma powers_ok_spec t p l : tripled t p -> powers_ok t l = true -> forall i b, l !! i = Some b -> b = encode (2 ^ Z.of_nat i ⊙ p).
Proof.
  revert t p. induction l as [| b0 l IH]; intros t p Ht Hl i b Hi; [done |]. cbn [powers_ok] in Hl. apply andb_true_iff in Hl as [E Hl].
  destruct i as [| i].
  - injection Hi as <-. apply bool_decide_eq_true in E. rewrite <- E. symmetry. change (2 ^ Z.of_nat 0) with 1. rewrite gmul_1. by apply tbytes_encode.
  - rewrite (IH (tadd t t) (p ⊕ p) (tadd_points _ _ _ _ Ht Ht) Hl i b Hi). f_equal.
    rewrite Nat2Z.inj_succ, Z.pow_succ_r, Z.mul_comm, gmul_mul, gmul_2 by lia. done.
Qed.

(** H2 contains 2^i H in each index, as its comment says. *)
Lemma H2_is i b : H2 !! i = Some b -> b = encode (2 ^ Z.of_nat i ⊙ HH).
Proof. apply (powers_ok_spec H_triple HH H2 H_tripled). vm_compute. reflexivity. Qed.

(** ** The commitments to common amounts *)

(** The amounts are digits times powers of ten, in order: [cur] is the last multiple, [step] the power of ten. *)
Fixpoint amounts_ok (cur_a : Z) (cur : triple) (step_a : Z) (step : triple) (l : list (Z * list Z)) : bool :=
  match l with
  | [] => true
  | (a, b) :: l =>
      let next := tadd cur step in
      (a =? cur_a + step_a) && bool_decide (le_encode 32 (BigN.to_Z (tbytes (tadd base_triple next))) = b) &&
      if a =? 10 * step_a then amounts_ok a next a next l else amounts_ok a next step_a step l
  end.

Lemma amounts_ok_spec cur_a cur step_a step l : tripled cur (cur_a ⊙ HH) -> tripled step (step_a ⊙ HH) -> amounts_ok cur_a cur step_a step l = true ->
  Forall (fun e => e.2 = encode (base ⊕ e.1 ⊙ HH)) l.
Proof.
  revert cur_a cur step_a step. induction l as [| [a b] l IH]; intros cur_a cur step_a step Hc Hs H; [constructor |]. cbn [amounts_ok] in H.
  rewrite !andb_true_iff, Z.eqb_eq, bool_decide_eq_true in H. destruct H as [[-> Hb] H].
  assert (Hn : tripled (tadd cur step) ((cur_a + step_a) ⊙ HH)) by (rewrite gmul_add; by apply tadd_points).
  constructor.
  - cbn [fst snd]. rewrite <- Hb. symmetry. apply tbytes_encode, tadd_points; [apply base_tripled | exact Hn].
  - destruct (_ =? _); by apply IH in H.
Qed.

Lemma zero_commitments_are : Forall (fun e => e.2 = encode (base ⊕ e.1 ⊙ HH)) zero_commitments.
Proof.
  destruct zero_commitments as [| [a0 b0] l] eqn:E; [constructor |]. constructor.
  - unfold zero_commitments in E. injection E as <- <- _. vm_compute. reflexivity.
  - assert (El : l = tail zero_commitments) by by rewrite E. rewrite El.
    apply (amounts_ok_spec 0 (Triple BigN.zero BigN.one BigN.one) 1 H_triple).
    + by vm_compute.
    + rewrite gmul_1. apply H_tripled.
    + vm_compute. reflexivity.
Qed.
