(* ===== verification/RctOps.v ===== *)
(** The operations on keys of the ring confidential transactions
    ([src/ringct/rctOps.cpp], [rctOps.h], [rctCryptoOps.c] and the conversions of
    [rctTypes.cpp]).

    A [key] is a string of 32 bytes: a scalar, a point or a hash. The hash of the
    namespace [rct] is [keccak] with a digest of 32 bytes, which is
    [cn_fast_hash]; it is the parameter of [Keys]. An overloaded function has one
    definition for each result. *)
From stdpp Require Import base list numbers.
From S2P Require Import Prelude FastHash Limbs ScalarOps FieldOps CurveData Groups Curve25519 GroupOps PointCodec HashPoint ScalarMult Random Keys TxFormat RctData.
Open Scope Z_scope.

Abbreviation key := (list Z).

(** Source: src/src/ringct/rctOps.h:62-62 (Z) *)
Definition zero : key := replicate 32 0.

(** Source: src/src/ringct/rctOps.h:63-63 (I) *)
Definition identity : key := 1 :: replicate 31 0.

(** Source: src/src/ringct/rctOps.h:64-64 (L) *)
Definition curveOrder : key :=
  [0xed; 0xd3; 0xf5; 0x5c; 0x1a; 0x63; 0x12; 0x58; 0xd6; 0x9c; 0xf7; 0xa2; 0xde; 0xf9; 0xde; 0x14] ++ replicate 15 0 ++ [0x10].

(** Source: src/src/ringct/rctOps.h:65-65 (G) *)
Definition G : key := 0x58 :: replicate 31 0x66.

(** Source: src/src/ringct/rctOps.h:66-66 (EIGHT) *)
Definition EIGHT : key := 8 :: replicate 31 0.

(** Source: src/src/ringct/rctOps.h:67-67 (INV_EIGHT) *)
Definition INV_EIGHT : key :=
  [0x79; 0x2f; 0xdc; 0xe2; 0x29; 0xe5; 0x06; 0x61; 0xd0; 0xda; 0x1c; 0x7d; 0xb3; 0x9d; 0xd3; 0x07] ++ replicate 15 0 ++ [0x06].

(** [operator==], on libsodium's comparison of 32 bytes.
    Source: src/src/ringct/rctTypes.h:85-85 (key::operator==) *)
Definition key_eq (a b : key) : bool := bool_decide (a = b).

(** A one-time key with its commitment, or the secrets of both.
    Source: src/src/ringct/rctTypes.h:96-99 (ctkey) *)
Record ctkey := Ctkey { dest : key; ct_mask : key }.

(** [try { ... } catch (...) { return false; }]. *)
Definition catch_false (m : outcome bool) : outcome bool := match m with Throw _ => Ok false | _ => m end.

(** CHECK_AND_ASSERT_MES with the result false. *)
Definition check_or_false (b : bool) (m : outcome bool) : outcome bool := if b then m else Ok false.

(** CHECK_AND_ASSERT_THROW_MES. *)
Definition check_or_throw (b : bool) (what : string) : outcome unit := if b then Ok tt else Throw what.

(** The same sequence of operations as [sc_reduce32], into another array.
    Source: src/src/ringct/rctCryptoOps.c:39-222 (sc_reduce32copy) *)
Definition sc_reduce32copy (s : key) : outcome key :=
  t ← load_limbs s sc_limbs_32;
  t ← run 64 sc_low_lines (t ++ [0]);
  store_bytes 64 t sc_bytes.

(** ** Amounts *)

(** The bytes of an amount from position [i]; 8 rounds are enough for 64 bits.
    Source: src/src/ringct/rctTypes.cpp:136-140 (d2h) *)
Fixpoint d2h_loop (fuel : nat) (val : Z) (i : nat) (amounth : key) : key :=
  match fuel with
  | O => amounth
  | S fuel => if val =? 0 then amounth else d2h_loop fuel (Z.quot val 256) (S i) (<[i := Z.land val 255]> amounth)
  end.

(** Source: src/src/ringct/rctTypes.cpp:131-142 (d2h) *)
Definition d2h (amount : Z) : key := d2h_loop 8 amount 0 zero.

(** Source: src/src/ringct/rctTypes.cpp:147-151 (d2b) *)
Fixpoint d2b_loop (fuel : nat) (val : Z) (i : nat) (amountb : list Z) : nat * list Z :=
  match fuel with
  | O => (i, amountb)
  | S fuel => if val =? 0 then (i, amountb) else d2b_loop fuel (Z.shiftr val 1) (S i) (<[i := Z.land val 1]> amountb)
  end.

(** Source: src/src/ringct/rctTypes.cpp:152-155 (d2b) *)
Fixpoint clear_bits (n i : nat) (amountb : list Z) : list Z :=
  match n with O => amountb | S n => clear_bits n (S i) (<[i := 0]> amountb) end.

(** [amountb] is the array to fill.
    Source: src/src/ringct/rctTypes.cpp:145-156 (d2b) *)
Definition d2b (amountb : list Z) (val : Z) : list Z :=
  let '(i, amountb) := d2b_loop 64 val 0 amountb in clear_bits (64 - i) i amountb.

(** Source: src/src/ringct/rctTypes.cpp:161-168 (h2d) *)
Definition h2d (test : key) : outcome Z :=
  foldl (fun vali j => vali ← vali; b ← at_or_undef (test !! j); Ok (wrap 64 (vali * 256 + b))) (Ok 0) (reverse (seq 0 8)).

(** Source: src/src/ringct/rctTypes.cpp:204-211 (b2d) *)
Definition b2d (amountb : list Z) : outcome Z :=
  foldl (fun vali j => vali ← vali; b ← at_or_undef (amountb !! j); Ok (wrap 64 (vali * 2 + b))) (Ok 0) (reverse (seq 0 64)).

(** Source: src/src/ringct/rctOps.cpp:594-602 (equalKeys) *)
Definition equalKeys (a b : key) : outcome bool :=
  foldl (fun rv i => rv ← rv; x ← at_or_undef (a !! i); y ← at_or_undef (b !! i); Ok (if x =? y then rv else false)) (Ok true) (seq 0 32).

(** ** Multiples and sums of points *)

(** A point that has to be valid.
    Source: src/src/ringct/rctOps.cpp:407-407 (scalarmultKey) *)
Definition load_point (P : key) : outcome ge_p3 := decode_or_throw "ge_frombytes_vartime failed" P.

(** Nothing when the bytes are not a point of the order of the scalars.
    Source: src/src/ringct/rctOps.cpp:239-248 (toPointCheckOrder) *)
Definition toPointCheckOrder (data : key) : outcome (option ge_p3) :=
  P ← ge_frombytes_vartime data;
  match P with
  | None => Ok None
  | Some P =>
      R ← ge_scalarmult curveOrder P;
      tmp ← ge_tobytes R;
      Ok (if key_eq tmp identity then Some P else None)
  end.

(** Source: src/src/ringct/rctOps.cpp:469-472 (isInMainSubgroup) *)
Definition isInMainSubgroup (a : key) : outcome bool := p3 ← toPointCheckOrder a; Ok (bool_decide (is_Some p3)).

(** Source: src/src/ringct/rctOps.cpp:394-401 (scalarmultBase) *)
Definition scalarmultBase (a : key) : outcome key :=
  aG ← sc_reduce32copy a;
  point ← ge_scalarmult_base aG;
  ge_p3_tobytes point.

(** Source: src/src/ringct/rctOps.cpp:413-421 (scalarmultKey) *)
Definition scalarmultKey (P a : key) : outcome key :=
  A ← load_point P;
  R ← ge_scalarmult a A;
  ge_tobytes R.

(** Source: src/src/ringct/rctOps.cpp:424-432 (scalarmultH_v1) *)
Definition scalarmultH_v1 (a : key) : outcome key :=
  A ← load_point H;
  R ← ge_scalarmult a A;
  ge_tobytes R.

(** Source: src/src/ringct/rctOps.cpp:434-440 (scalarmultH_v2) *)
Definition scalarmultH_v2 (a : key) : outcome key :=
  R ← ge_scalarmult a ge_p3_H;
  ge_tobytes R.

(** Source: src/src/ringct/rctOps.cpp:443-454 (scalarmult8) *)
Definition scalarmult8 (P : key) : outcome key :=
  p3 ← load_point P;
  p1 ← ge_mul8 (ge_p3_to_p2 p3);
  p2 ← ge_p1p1_to_p2 p1;
  ge_tobytes p2.

(** Source: src/src/ringct/rctOps.cpp:457-466 (scalarmult8) *)
Definition scalarmult8_p3 (P : key) : outcome ge_p3 :=
  p3 ← load_point P;
  p1 ← ge_mul8 (ge_p3_to_p2 p3);
  ge_p1p1_to_p3 p1.

(** Source: src/src/ringct/rctOps.cpp:478-488 (addKeys) *)
Definition addKeys (A B : key) : outcome key :=
  B2 ← load_point B;
  A2 ← load_point A;
  tmp2 ← ge_p3_to_cached B2;
  tmp3 ← ge_add A2 tmp2;
  A2 ← ge_p1p1_to_p3 tmp3;
  ge_p3_tobytes A2.

(** Source: src/src/ringct/rctOps.cpp:501-509 (addKeys) *)
Fixpoint addKeys_loop (p3 : ge_p3) (A : list key) : outcome ge_p3 :=
  match A with
  | [] => Ok p3
  | a :: A =>
      tmp ← load_point a;
      p2 ← ge_p3_to_cached tmp;
      p1 ← ge_add p3 p2;
      p3 ← ge_p1p1_to_p3 p1;
      addKeys_loop p3 A
  end.

(** Source: src/src/ringct/rctOps.cpp:496-513 (addKeys) *)
Definition addKeysV (A : list key) : outcome key :=
  match A with
  | [] => Ok identity
  | a :: A => p3 ← load_point a; p3 ← addKeys_loop p3 A; ge_p3_tobytes p3
  end.

(** Source: src/src/ringct/rctOps.cpp:517-520 (addKeys1) *)
Definition addKeys1 (a B : key) : outcome key := aG ← scalarmultBase a; addKeys aG B.

(** Source: src/src/ringct/rctOps.cpp:524-530 (addKeys2) *)
Definition addKeys2 (a b B : key) : outcome key :=
  B2 ← load_point B;
  rv ← ge_double_scalarmult_base_vartime b B2 a;
  ge_tobytes rv.

(** Source: src/src/ringct/rctOps.cpp:534-538 (precomp) *)
Definition precomp (B : key) : outcome (list ge_cached) := B2 ← load_point B; ge_dsm_precomp B2.

(** Source: src/src/ringct/rctOps.cpp:543-549 (addKeys3) *)
Definition addKeys3 (a A b : key) (B : list ge_cached) : outcome key :=
  A2 ← load_point A;
  rv ← ge_double_scalarmult_precomp_vartime a A2 b B;
  ge_tobytes rv.

(** Source: src/src/ringct/rctOps.cpp:554-558 (addKeys3) *)
Definition addKeys3_precomp (a : key) (A : list ge_cached) (b : key) (B : list ge_cached) : outcome key :=
  rv ← ge_double_scalarmult_precomp_vartime2 a A b B;
  ge_tobytes rv.

(** Source: src/src/ringct/rctOps.cpp:563-567 (addKeys_aGbBcC) *)
Definition addKeys_aGbBcC (a b : key) (B : list ge_cached) (c : key) (C : list ge_cached) : outcome key :=
  rv ← ge_triple_scalarmult_base_vartime a b B c C;
  ge_tobytes rv.

(** Source: src/src/ringct/rctOps.cpp:572-576 (addKeys_aAbBcC) *)
Definition addKeys_aAbBcC (a : key) (A : list ge_cached) (b : key) (B : list ge_cached) (c : key) (C : list ge_cached) : outcome key :=
  rv ← ge_triple_scalarmult_precomp_vartime a A b B c C;
  ge_tobytes rv.

(** Source: src/src/ringct/rctOps.cpp:580-590 (subKeys) *)
Definition subKeys (A B : key) : outcome key :=
  B2 ← load_point B;
  A2 ← load_point A;
  tmp2 ← ge_p3_to_cached B2;
  tmp3 ← ge_sub A2 tmp2;
  A2 ← ge_p1p1_to_p3 tmp3;
  ge_p3_tobytes A2.

(** Source: src/src/ringct/rctOps.cpp:748-754 (sumKeys) *)
Definition sumKeys (Cis : list key) : outcome key :=
  foldl (fun Csum Ci => Csum ← Csum; addKeys Csum Ci) (Ok identity) Cis.

(** ** Commitments *)

(** Source: src/src/ringct/rctOps.cpp:295-298 (genC_v1) *)
Definition genC_v1 (a : key) (amount : Z) : outcome key := bH ← scalarmultH_v1 (d2h amount); addKeys1 a bH.

(** Source: src/src/ringct/rctOps.cpp:300-302 (genC_v2) *)
Definition genC_v2 (a : key) (amount : Z) : outcome key := addKeys2 a (d2h amount) H.

(** Source: src/src/ringct/rctOps.cpp:333-340 (zeroCommit_v1) *)
Definition zeroCommit_v1 (amount : Z) : outcome key :=
  mask ← scalarmultBase identity;
  bH ← scalarmultH_v1 (d2h amount);
  addKeys mask bH.

(** [std::lower_bound] on the amounts of a table, by halving the range. *)
Fixpoint lower_bound (fuel : nat) (l : list (Z * key)) (first len : nat) (amount : Z) : outcome nat :=
  match fuel with
  | O => Ok first
  | S fuel =>
      if (len =? 0)%nat then Ok first else
      let half := Nat.div len 2 in
      e ← at_or_undef (l !! (first + half)%nat);
      if fst e <? amount then lower_bound fuel l (first + half + 1) (len - half - 1) amount
      else lower_bound fuel l first half amount
  end.

(** Source: src/src/ringct/rctOps.cpp:342-354 (zeroCommit_v2) *)
Definition zeroCommit_v2 (amount : Z) : outcome key :=
  it ← lower_bound (length zero_commitments) zero_commitments 0 (length zero_commitments) amount;
  let computed := bH ← scalarmultH_v2 (d2h amount); addKeys G bH in
  match zero_commitments !! it with
  | Some e => if fst e =? amount then Ok (snd e) else computed
  | None => computed
  end.

(** Source: src/src/ringct/rctOps.cpp:325-331 (zeroCommit) *)
Definition zeroCommit (amount : Z) (v2 : bool) : outcome key := if v2 then zeroCommit_v2 amount else zeroCommit_v1 amount.

(** Source: src/src/ringct/rctOps.cpp:364-370 (commit_v1) *)
Definition commit_v1 (amount : Z) (mask : key) : outcome key :=
  c ← scalarmultBase mask;
  bH ← scalarmultH_v1 (d2h amount);
  addKeys c bH.

(** Source: src/src/ringct/rctOps.cpp:372-376 (commit_v2) *)
Definition commit_v2 (amount : Z) (mask : key) : outcome key := genC_v2 mask amount.

(** Source: src/src/ringct/rctOps.cpp:356-362 (commit) *)
Definition commit (amount : Z) (mask : key) (v2 : bool) : outcome key := if v2 then commit_v2 amount mask else commit_v1 amount mask.

(** ** Amounts for the receiver *)

(** Source: src/src/ringct/rctOps.cpp:768-772 (xor8) *)
Definition xor8 (v k : key) : outcome key :=
  foldl (fun v i => v ← v; x ← at_or_undef (v !! i); y ← at_or_undef (k !! i); Ok (<[i := Z.lxor x y]> v)) (Ok v) (seq 0 8).

(** The characters of a tag. *)
Definition ascii (t : string) : list Z := map (fun c => Z.of_N (Ascii.N_of_ascii c)) (String.list_ascii_of_string t).

Section Hashes.
Context (cn_fast_hash : list Z -> list Z).

(** Source: src/src/ringct/rctOps.cpp:611-614 (hash_to_scalar) *)
Definition rct_hash_to_scalar (data : list Z) : outcome key := sc_reduce32 (cn_fast_hash data).

(** An empty vector hashes the empty string, as its bytes do.
    Source: src/src/ringct/rctOps.cpp:672-678 (cn_fast_hash) *)
Definition hash_keys (keys : list key) : key := if (length keys =? 0)%nat then cn_fast_hash [] else cn_fast_hash (concat keys).

(** Source: src/src/ringct/rctOps.cpp:680-684 (hash_to_scalar) *)
Definition hash_keys_to_scalar (keys : list key) : outcome key := sc_reduce32 (hash_keys keys).

(** The 64 keys of an array.
    Source: src/src/ringct/rctOps.cpp:686-697 (hash_to_scalar) *)
Definition hash_key64_to_scalar (keys : list key) : outcome key := sc_reduce32 (cn_fast_hash (concat keys)).

(** Source: src/src/ringct/rctOps.cpp:738-745 (hash_to_p3) *)
Definition hash_to_p3 (k : key) : outcome ge_p3 :=
  hash_p2 ← ge_fromfe_frombytes_vartime (cn_fast_hash k);
  hash8_p1p1 ← ge_mul8 hash_p2;
  ge_p1p1_to_p3 hash8_p1p1.

(** Source: src/src/ringct/rctOps.cpp:713-724 (hashToPoint) *)
Definition hashToPoint (hh : key) : outcome key :=
  point ← ge_fromfe_frombytes_vartime (cn_fast_hash hh);
  point2 ← ge_mul8 point;
  res ← ge_p1p1_to_p3 point2;
  ge_p3_tobytes res.

(** Source: src/src/ringct/rctOps.cpp:699-711 (hashToPointSimple) *)
Definition hashToPointSimple (hh : key) : outcome key :=
  res ← load_point (cn_fast_hash hh);
  point2 ← ge_mul8 (ge_p3_to_p2 res);
  res ← ge_p1p1_to_p3 point2;
  ge_p3_tobytes res.

(** Source: src/src/ringct/rctOps.cpp:758-766 (ecdhHash) *)
Definition ecdhHash (k : key) : key := cn_fast_hash (ascii "amount" ++ k).

(** Source: src/src/ringct/rctOps.cpp:774-782 (genCommitmentMask) *)
Definition genCommitmentMask (sk : key) : outcome key := rct_hash_to_scalar (ascii "commitment_mask" ++ sk).

(** Source: src/src/ringct/rctOps.cpp:784-798 (ecdhEncode) *)
Definition ecdhEncode (unmasked : Tx.ecdhTuple) (sharedSec : key) (v2 : bool) : outcome Tx.ecdhTuple :=
  if v2 then
    amount ← xor8 (Tx.amount unmasked) (ecdhHash sharedSec);
    Ok (Tx.EcdhTuple zero amount)
  else
    sharedSec1 ← rct_hash_to_scalar sharedSec;
    sharedSec2 ← rct_hash_to_scalar sharedSec1;
    mask ← sc_add (Tx.mask unmasked) sharedSec1;
    amount ← sc_add (Tx.amount unmasked) sharedSec2;
    Ok (Tx.EcdhTuple mask amount).

(** Source: src/src/ringct/rctOps.cpp:800-814 (ecdhDecode) *)
Definition ecdhDecode (masked : Tx.ecdhTuple) (sharedSec : key) (v2 : bool) : outcome Tx.ecdhTuple :=
  if v2 then
    mask ← genCommitmentMask sharedSec;
    amount ← xor8 (Tx.amount masked) (ecdhHash sharedSec);
    Ok (Tx.EcdhTuple mask amount)
  else
    sharedSec1 ← rct_hash_to_scalar sharedSec;
    sharedSec2 ← rct_hash_to_scalar sharedSec1;
    mask ← sc_sub (Tx.mask masked) sharedSec1;
    amount ← sc_sub (Tx.amount masked) sharedSec2;
    Ok (Tx.EcdhTuple mask amount).
End Hashes.

(** ** Random keys *)

Section Random.
Context {St : Type} (generate_random_bytes_thread_safe : nat -> St -> list Z * St).

(** The draws of [random32_unbiased] end after one ([random_scalar_one_draw]).
    Source: src/src/ringct/rctOps.cpp:251-260 (skGen) *)
Definition skGen (g : St) : outcome (key * St) := random32_unbiased generate_random_bytes_thread_safe 1 g.

(** Source: src/src/ringct/rctOps.cpp:268-270 (skvGen) *)
Fixpoint skvGen_loop (rows : nat) (g : St) : outcome (list key * St) :=
  match rows with
  | O => Ok ([], g)
  | S rows => '(sk, g) ← skGen g; '(rv, g) ← skvGen_loop rows g; Ok (sk :: rv, g)
  end.

(** Source: src/src/ringct/rctOps.cpp:264-272 (skvGen) *)
Definition skvGen (rows : nat) (g : St) : outcome (list key * St) :=
  if (rows =? 0)%nat then Throw "0 keys requested" else skvGen_loop rows g.

(** Source: src/src/ringct/rctOps.cpp:282-285 (skpkGen) *)
Definition skpkGen (g : St) : outcome (key * key * St) := '(sk, g) ← skGen g; pk ← scalarmultBase sk; Ok (sk, pk, g).
End Random.
