(* ===== verification/RctProofs.v ===== *)
(** What the operations of [RctOps] compute, on the points of the curve: each
    function on encodings of points returns the encoding of the sum it names,
    and the two generations of commitments agree. *)
From Stdlib Require Import Zmod.
From stdpp Require Import base list numbers.
From S2P Require Import Prelude FastHash Limbs ScalarOps FieldOps CurveData Groups Edwards Curve25519 GroupOps PointCodec HashPoint ScalarMult GroupOrder Random Keys KeyProofs TxFormat RctData RctPoints RctOps Signatures Keccak.
Open Scope Z_scope.

(** ** Scalars and amounts *)

Lemma sc_reduce32copy_value s : is_scalar s -> sc_reduce32copy s = Ok (le_encode 32 (le_bytes s mod sc_order)).
Proof. exact (sc_reduce32_correct s). Qed.

Lemma order_pos : 0 < sc_order.
Proof. reflexivity. Qed.

(** A number below the order. *)
Abbreviation scalar x := (le_encode 32 x).

Lemma scalar_reduced x : 0 <= x < sc_order -> reduced (scalar x).
Proof. intros Hx. rewrite <- (Z.mod_small x sc_order) by done. apply reduced_encode. Qed.

Lemma scalar_value x : 0 <= x < sc_order -> le_bytes (scalar x) = x.
Proof. intros Hx. rewrite <- (Z.mod_small x sc_order) at 1 by done. by rewrite le_bytes_reduced, Z.mod_small. Qed.

Lemma amount_below_order x : in_u 64 x -> 0 <= x < sc_order.
Proof. intros [H1 H2]. split; [done |]. apply (Z.lt_trans _ _ _ H2). reflexivity. Qed.

Lemma le_encode_zero n : le_encode n 0 = replicate n 0.
Proof. induction n as [| n IH]; [done |]. cbn [le_encode replicate]. change (0 / 256) with 0. by rewrite IH. Qed.

Lemma d2h_loop_value fuel val i pre n : 0 <= val < 256 ^ Z.of_nat fuel -> (fuel <= n)%nat -> length pre = i ->
  d2h_loop fuel val i (pre ++ replicate n 0) = pre ++ le_encode n val.
Proof.
  revert val i pre n. induction fuel as [| fuel IH]; intros val i pre n Hv Hn Hi.
  { cbn in *. assert (val = 0) as -> by lia. by rewrite le_encode_zero. }
  cbn [d2h_loop]. destruct (Z.eqb_spec val 0) as [-> | H0]; [by rewrite le_encode_zero |].
  destruct n as [| n]; [lia |]. cbn [replicate le_encode]. subst i. rewrite insert_app_r_alt, Nat.sub_diag by done. cbn [insert list_insert].
  rewrite (cons_middle _ pre), app_assoc. rewrite IH.
  - rewrite <- app_assoc. cbn [app]. rewrite Z.quot_div_nonneg by lia. by change 255 with (Z.ones 8); rewrite Z.land_ones by lia.
  - rewrite Nat2Z.inj_succ, Z.pow_succ_r in Hv by lia. rewrite Z.quot_div_nonneg by lia. split; [apply Z.div_pos; lia | apply Z.div_lt_upper_bound; lia].
  - lia.
  - rewrite length_app. cbn. lia.
Qed.

Lemma d2h_value x : in_u 64 x -> d2h x = scalar x.
Proof. intros Hx. exact (d2h_loop_value 8 x 0 [] 32 Hx ltac:(lia) eq_refl). Qed.

Lemma d2h_reduced x : in_u 64 x -> reduced (d2h x).
Proof. intros Hx. rewrite d2h_value by done. by apply scalar_reduced, amount_below_order. Qed.

Lemma le_bytes_d2h x : in_u 64 x -> le_bytes (d2h x) = x.
Proof. intros Hx. rewrite d2h_value by done. by apply scalar_value, amount_below_order. Qed.

Lemma h2d_loop k n acc : is_scalar k -> (n <= 8)%nat -> 0 <= acc -> (acc + 1) * 256 ^ Z.of_nat n <= 2 ^ 64 ->
  foldl (fun vali j => vali ← vali; b ← at_or_undef (k !! j); Ok (wrap 64 (vali * 256 + b))) (Ok acc) (reverse (seq 0 n))
  = Ok (acc * 256 ^ Z.of_nat n + le_bytes (take n k)).
Proof.
  intros [Hb Hl]. revert acc. induction n as [| n IH]; intros acc Hn Hacc Hr.
  { change (Ok acc = Ok (acc * 1 + 0)). f_equal. ring. }
  rewrite seq_S, reverse_snoc. cbn [foldl Nat.add]. simpl_bind.
  destruct (lookup_lt_is_Some_2 k n) as [x Hx]; [lia |]. rewrite Hx. simpl_bind.
  pose proof (Forall_lookup_1 _ _ _ _ Hb Hx) as Hx8. unfold in_u in Hx8. change (2 ^ 8) with 256 in Hx8.
  rewrite Nat2Z.inj_succ, Z.pow_succ_r in Hr |- * by lia. assert (0 < 256 ^ Z.of_nat n) by (apply Z.pow_pos_nonneg; lia).
  unfold wrap. rewrite Z.mod_small by nia. rewrite (take_S_r k n x Hx), le_bytes_app.
  unfold zlen. rewrite length_take, Nat.min_l by lia. cbn [le_bytes].
  transitivity (Ok ((acc * 256 + x) * 256 ^ Z.of_nat n + le_bytes (take n k))); [| f_equal; ring].
  apply IH; nia.
Qed.

Lemma h2d_value k : is_scalar k -> h2d k = Ok (le_bytes (take 8 k)).
Proof. intros Hk. unfold h2d. by rewrite h2d_loop. Qed.

Lemma h2d_d2h x : in_u 64 x -> h2d (d2h x) = Ok x.
Proof.
  intros Hx. rewrite h2d_value by by apply reduced_scalar, d2h_reduced. rewrite d2h_value by done. f_equal.
  assert (E : take 8 (scalar x) = le_encode 8 x) by done. rewrite E. apply le_bytes_encode. exact Hx.
Qed.

Lemma equal_prefix (a b : key) n : (n <= length a)%nat -> (n <= length b)%nat ->
  foldl (fun rv i => rv ← rv; x ← at_or_undef (a !! i); y ← at_or_undef (b !! i); Ok (if x =? y then rv else false)) (Ok true) (seq 0 n)
  = Ok (bool_decide (take n a = take n b)).
Proof.
  induction n as [| n IH]; intros Ha Hb; [by rewrite bool_decide_true |].
  rewrite seq_S, foldl_app, IH by lia. cbn [foldl Nat.add]. simpl_bind.
  destruct (lookup_lt_is_Some_2 a n) as [x Hx]; [lia |]. destruct (lookup_lt_is_Some_2 b n) as [y Hy]; [lia |].
  rewrite Hx, Hy. simpl_bind. rewrite (take_S_r a n x Hx), (take_S_r b n y Hy). f_equal.
  apply eq_bool_prop_intro. destruct (Z.eqb_spec x y) as [-> | Hn]; rewrite ?bool_decide_spec.
  - split; [by intros -> |]. intros E. by apply app_inj_tail in E as [E _].
  - split; [done |]. intros E. by apply app_inj_tail in E as [_ E].
Qed.

Lemma equalKeys_value a b : is_scalar a -> is_scalar b -> equalKeys a b = Ok (bool_decide (a = b)).
Proof.
  intros [_ Ha] [_ Hb]. unfold equalKeys. rewrite equal_prefix by lia. by rewrite !firstn_all2 by lia.
Qed.

Lemma encode_bool_decide p q : bool_decide (encode p = encode q) = bool_decide (p = q).
Proof. apply bool_decide_ext. split; [apply encode_inj | by intros ->]. Qed.

Lemma equalKeys_points p q : equalKeys (encode p) (encode q) = Ok (bool_decide (p = q)).
Proof. rewrite equalKeys_value by apply encode_is_scalar. by rewrite encode_bool_decide. Qed.

(** ** Points *)

Lemma encode_identity : encode gzero = identity.
Proof. exact encode_zero. Qed.

Lemma encode_base : encode base = G.
Proof. by vm_compute. Qed.

Lemma load_point_value p : exists h, load_point (encode p) = Ok h /\ p3_is h p.
Proof. apply decode_or_throw_value. Qed.

Lemma load_point_cases s : is_scalar s -> (exists p, s = encode p) \/ (exists e, load_point s = Throw e) /\ forall p, encode p <> s.
Proof.
  intros Hs. destruct (decode_cases s Hs) as [H | [E Hn]]; [by left | right]. split; [| done]. eexists.
  unfold load_point, decode_or_throw. by bind_with E.
Qed.

Lemma order_reduced_255 : scalar_255 curveOrder.
Proof. by_decide. Qed.

Lemma le_bytes_order : le_bytes curveOrder = sc_order.
Proof. by vm_compute. Qed.

(** Runs the first operation of an equation, with those of this file. *)
Ltac rct_step :=
  first [ key_step | lazymatch goal with
  | |- mbind _ (load_point (encode ?p)) = _ => ge_bind (load_point_value p)
  | |- mbind _ (ge_mul8 (ge_p3_to_p2 ?A)) = _ => match goal with H : p3_is A ?p |- _ => ge_bind (ge_mul8_is _ p (ge_p3_to_p2_is A p H)) end
  | |- mbind _ (ge_double_scalarmult_precomp_vartime2 ?a ?A ?b ?B) = _ => match goal with H : odd_multiples A ?p, H' : odd_multiples B ?q |- _ =>
      ge_bind (ge_double_scalarmult_precomp_vartime2_is a b ltac:(auto with keys) ltac:(auto with keys) A B p q H H') end
  | |- mbind _ (ge_triple_scalarmult_base_vartime ?a ?b ?B ?c ?C) = _ => match goal with H : odd_multiples B ?p, H' : odd_multiples C ?q |- _ =>
      ge_bind (ge_triple_scalarmult_base_vartime_is a b ltac:(auto with keys) ltac:(auto with keys) c ltac:(auto with keys) B C p q H H') end
  | |- mbind _ (ge_triple_scalarmult_precomp_vartime ?a ?A ?b ?B ?c ?C) = _ =>
      match goal with HA : odd_multiples A ?p, HB : odd_multiples B ?q, HC : odd_multiples C ?r |- _ =>
      ge_bind (ge_triple_scalarmult_precomp_vartime_is a b ltac:(auto with keys) ltac:(auto with keys) c ltac:(auto with keys) A B C p q r HA HB HC) end
  | |- mbind _ (sc_mul ?a ?b) = _ => bind_with (sc_mul_correct a b ltac:(auto with keys) ltac:(auto with keys))
  | |- mbind _ (sc_muladd ?a ?b ?c) = _ => bind_with (sc_muladd_value a b c ltac:(auto with keys) ltac:(auto with keys) ltac:(auto with keys))
  end ].
Ltac rct_run := repeat rct_step.

Lemma scalarmultBase_value a : is_scalar a -> scalarmultBase a = Ok (encode (le_bytes a ⊙ base)).
Proof.
  intros Ha. unfold scalarmultBase. bind_with (sc_reduce32copy_value a Ha). rct_run. rewrite le_bytes_reduced.
  by rewrite gmul_mod by first [apply base_order | done].
Qed.

Lemma scalarmultKey_value p a : reduced a -> scalarmultKey (encode p) a = Ok (encode (le_bytes a ⊙ p)).
Proof. intros Ha. unfold scalarmultKey. by rct_run. Qed.

Lemma scalarmultH_v1_value a : reduced a -> scalarmultH_v1 a = Ok (encode (le_bytes a ⊙ HH)).
Proof. intros Ha. unfold scalarmultH_v1. rewrite <- encode_HH. by rct_run. Qed.

Lemma scalarmultH_v2_value a : reduced a -> scalarmultH_v2 a = Ok (encode (le_bytes a ⊙ HH)).
Proof. intros Ha. unfold scalarmultH_v2. pose proof ge_p3_H_is. by rct_run. Qed.

Lemma scalarmult8_value p : scalarmult8 (encode p) = Ok (encode (8 ⊙ p)).
Proof. unfold scalarmult8. by rct_run. Qed.

Lemma toPointCheckOrder_value p : exists h, p3_is h p /\
  toPointCheckOrder (encode p) = Ok (if bool_decide (sc_order ⊙ p = gzero) then Some h else None).
Proof.
  destruct (decode_encode p) as (h & E & Hh). exists h. split; [done |]. unfold toPointCheckOrder. bind_with E.
  ge_bind (ge_scalarmult_is curveOrder h p order_reduced_255 Hh). rewrite le_bytes_order in *. rct_run.
  unfold key_eq. by rewrite <- encode_identity, encode_bool_decide.
Qed.

Lemma addKeys_value p q : addKeys (encode p) (encode q) = Ok (encode (p ⊕ q)).
Proof. unfold addKeys. rct_step. rct_step. by rct_run. Qed.

Lemma subKeys_value p q : subKeys (encode p) (encode q) = Ok (encode (p ⊕ ⊖ q)).
Proof. unfold subKeys. rct_step. rct_step. by rct_run. Qed.

(** The sum of points. *)
Definition gsum (ps : list point) : point := foldr gadd gzero ps.

Lemma gsum_app ps qs : gsum (ps ++ qs) = gsum ps ⊕ gsum qs.
Proof.
  induction ps as [| p ps IH]; cbn [app gsum foldr]; [by rewrite gadd_zero_l |]. unfold gsum in IH. by rewrite IH, gadd_assoc.
Qed.

Lemma addKeys_loop_value h p ps : p3_is h p -> exists h', addKeys_loop h (encode <$> ps) = Ok h' /\ p3_is h' (p ⊕ gsum ps).
Proof.
  revert h p. induction ps as [| q ps IH]; intros h p Hh.
  { exists h. cbn [fmap list_fmap addKeys_loop gsum foldr]. by rewrite gadd_zero_r. }
  cbn [fmap list_fmap addKeys_loop]. destruct (load_point_value q) as (h1 & E1 & H1).
  destruct (ge_p3_to_cached_is h1 q H1) as (h2 & E2 & H2). destruct (ge_add_is h h2 p q Hh H2) as (h3 & E3 & H3).
  destruct (ge_p1p1_to_p3_is h3 _ H3) as (h4 & E4 & H4). destruct (IH h4 (p ⊕ q) H4) as (h5 & E5 & H5).
  exists h5. cbn [gsum foldr]. rewrite gadd_assoc. split; [| exact H5]. bind_with E1. bind_with E2. bind_with E3. by bind_with E4.
Qed.

Lemma addKeysV_value ps : addKeysV (encode <$> ps) = Ok (encode (gsum ps)).
Proof.
  destruct ps as [| p ps]; [cbn [fmap list_fmap addKeysV gsum foldr]; by rewrite encode_identity |]. cbn [fmap list_fmap addKeysV]. rct_step.
  ge_bind (addKeys_loop_value _ _ ps ltac:(eassumption)). by rct_run.
Qed.

Lemma addKeys1_value a p : is_scalar a -> addKeys1 a (encode p) = Ok (encode (le_bytes a ⊙ base ⊕ p)).
Proof. intros Ha. unfold addKeys1. bind_with (scalarmultBase_value a Ha). apply addKeys_value. Qed.

Lemma addKeys2_value a b p : slide_scalar a -> slide_scalar b -> addKeys2 a b (encode p) = Ok (encode (le_bytes b ⊙ p ⊕ le_bytes a ⊙ base)).
Proof. intros Ha Hb. unfold addKeys2. by rct_run. Qed.

Lemma precomp_value p : exists t, precomp (encode p) = Ok t /\ odd_multiples t p.
Proof.
  destruct (load_point_value p) as (h & E & Hh). destruct (ge_dsm_precomp_is h p Hh) as (t & E' & Ht). exists t. split; [| done].
  unfold precomp. by bind_with E.
Qed.

Lemma addKeys3_value a p b B q : slide_scalar a -> slide_scalar b -> odd_multiples B q ->
  addKeys3 a (encode p) b B = Ok (encode (le_bytes a ⊙ p ⊕ le_bytes b ⊙ q)).
Proof. intros Ha Hb HB. unfold addKeys3. by rct_run. Qed.

Lemma addKeys_aGbBcC_value a b B p c C q : slide_scalar a -> slide_scalar b -> slide_scalar c -> odd_multiples B p -> odd_multiples C q ->
  addKeys_aGbBcC a b B c C = Ok (encode (le_bytes a ⊙ base ⊕ le_bytes b ⊙ p ⊕ le_bytes c ⊙ q)).
Proof. intros. unfold addKeys_aGbBcC. by rct_run. Qed.

Lemma addKeys_aAbBcC_value a A o b B p c C q : slide_scalar a -> slide_scalar b -> slide_scalar c ->
  odd_multiples A o -> odd_multiples B p -> odd_multiples C q ->
  addKeys_aAbBcC a A b B c C = Ok (encode (le_bytes a ⊙ o ⊕ le_bytes b ⊙ p ⊕ le_bytes c ⊙ q)).
Proof.
  intros Ha Hb Hc HA HB HC. unfold addKeys_aAbBcC.
  ge_bind (ge_triple_scalarmult_precomp_vartime_is a b Ha Hb c Hc A B C o p q HA HB HC). by rct_run.
Qed.

(** ** Commitments *)

(** The commitment to [amount] with the mask [a]. *)
Definition commitment (a amount : Z) : point := a ⊙ base ⊕ amount ⊙ HH.

Lemma genC_v1_value a amount : is_scalar a -> in_u 64 amount -> genC_v1 a amount = Ok (encode (commitment (le_bytes a) amount)).
Proof.
  intros Ha Hx. unfold genC_v1. bind_with (scalarmultH_v1_value _ (d2h_reduced _ Hx)). rewrite le_bytes_d2h by done. by apply addKeys1_value.
Qed.

Lemma genC_v2_value a amount : slide_scalar a -> in_u 64 amount -> genC_v2 a amount = Ok (encode (commitment (le_bytes a) amount)).
Proof.
  intros Ha Hx. unfold genC_v2, commitment. rewrite <- encode_HH. rewrite addKeys2_value by first [done | by apply reduced_slide, d2h_reduced].
  by rewrite le_bytes_d2h, gadd_comm.
Qed.

Lemma commit_v1_value amount a : is_scalar a -> in_u 64 amount -> commit_v1 amount a = Ok (encode (commitment (le_bytes a) amount)).
Proof.
  intros Ha Hx. unfold commit_v1. bind_with (scalarmultBase_value a Ha). bind_with (scalarmultH_v1_value _ (d2h_reduced _ Hx)).
  rewrite le_bytes_d2h by done. apply addKeys_value.
Qed.

Lemma zeroCommit_v1_value amount : in_u 64 amount -> zeroCommit_v1 amount = Ok (encode (commitment 1 amount)).
Proof.
  intros Hx. assert (E : le_bytes identity = 1) by reflexivity. rewrite <- E. unfold zeroCommit_v1. bind_with (scalarmultBase_value identity ltac:(by_decide)).
  bind_with (scalarmultH_v1_value _ (d2h_reduced _ Hx)). rewrite le_bytes_d2h by done. apply addKeys_value.
Qed.

Lemma lower_bound_total fuel l first len amount : (first + len <= length l)%nat -> (len <= fuel)%nat ->
  exists i, lower_bound fuel l first len amount = Ok i.
Proof.
  revert first len. induction fuel as [| fuel IH]; intros first len Hl Hf; cbn [lower_bound]; [by exists first |].
  destruct (Nat.eqb_spec len 0) as [-> | H0]; [by exists first |].
  assert (Nat.div len 2 < len)%nat by (apply Nat.div_lt; lia).
  destruct (lookup_lt_is_Some_2 l (first + Nat.div len 2)%nat) as [e He]; [lia |]. rewrite He. simpl_bind.
  destruct (fst e <? amount); apply IH; lia.
Qed.

Lemma zeroCommit_v2_value amount : in_u 64 amount -> zeroCommit_v2 amount = Ok (encode (commitment 1 amount)).
Proof.
  intros Hx. unfold zeroCommit_v2.
  destruct (lower_bound_total (length zero_commitments) zero_commitments 0 (length zero_commitments) amount) as [i Ei]; [lia | lia |].
  bind_with Ei. clear Ei. assert (E : (bH ← scalarmultH_v2 (d2h amount); addKeys G bH) = Ok (encode (commitment 1 amount))).
  { bind_with (scalarmultH_v2_value _ (d2h_reduced _ Hx)). rewrite le_bytes_d2h, <- encode_base by done. unfold commitment. rewrite gmul_1. apply addKeys_value. }
  destruct (zero_commitments !! i) as [e |] eqn:Ee; [| exact E]. destruct (Z.eqb_spec (fst e) amount) as [Ea | _]; [| exact E].
  pose proof (proj1 (Forall_lookup _ _) zero_commitments_are i e Ee) as Ec. cbv beta in Ec. rewrite Ec, Ea. unfold commitment. rewrite gmul_1. reflexivity.
Qed.

(** The sum of numbers. *)
Definition zsum (l : list Z) : Z := foldr Z.add 0 l.

Lemma gsum_commitments (masks xs : list Z) : length xs = length masks -> gsum (zip_with commitment masks xs) = commitment (zsum masks) (zsum xs).
Proof.
  revert xs. induction masks as [| m masks IH]; intros [| x xs] Hl; try done; [unfold commitment; cbn [zsum foldr zip_with gsum]; by rewrite !gmul_0, gadd_zero_r |].
  injection Hl as Hl. cbn [zip_with gsum foldr zsum]. fold (gsum (zip_with commitment masks xs)) (zsum masks) (zsum xs). rewrite (IH xs Hl). unfold commitment.
  rewrite !gmul_add, <- !gadd_assoc. f_equal. rewrite gadd_swap. done.
Qed.

(** ** Hashes and random keys *)

Section Hashes.
Context (hash : list Z -> list Z) `{!FastHash hash}.
Abbreviation Hs := (Hs hash).
Abbreviation Hp := (Hp hash).

Lemma rct_hash_value data : rct_hash_to_scalar hash data = Ok (scalar (Hs data)).
Proof. by apply hash_to_scalar_value. Qed.

Lemma hash_keys_value keys : hash_keys_to_scalar hash keys = Ok (scalar (Hs (concat keys))).
Proof. unfold hash_keys_to_scalar, hash_keys. destruct keys as [| k keys]; [exact (rct_hash_value []) | exact (rct_hash_value (concat (k :: keys)))]. Qed.

Lemma hash_to_p3_is k : exists h, hash_to_p3 hash k = Ok h /\ p3_is h (Hp k).
Proof. destruct (hash_to_ec_is hash k) as (h & E & Hh & _). by exists h. Qed.

Lemma Hp_order k : sc_order ⊙ Hp k = gzero.
Proof. by destruct (hash_to_ec_is hash k) as (_ & _ & _ & Ho). Qed.

Lemma hashToPoint_value k : hashToPoint hash k = Ok (encode (Hp k)).
Proof.
  destruct (hash_to_p3_is k) as (h & E & Hh). unfold hash_to_p3 in E. unfold hashToPoint.
  destruct (ge_fromfe_frombytes_vartime (hash k)) as [q | |]; try discriminate E. bind_with (eq_refl (Ok q)). cbn [mbind outcome_bind] in E.
  destruct (ge_mul8 q) as [r | |]; try discriminate E. bind_with (eq_refl (Ok r)). cbn [mbind outcome_bind] in E. bind_with E. by apply ge_p3_tobytes_is.
Qed.

Lemma Hs_reduced data : reduced (scalar (Hs data)).
Proof. by apply hash_reduced. Qed.

Lemma Hs_bytes data : le_bytes (scalar (Hs data)) = Hs data.
Proof. by apply le_bytes_hash. Qed.

Lemma xor8_twice v k : length v = 32%nat -> length k = 32%nat -> exists w, xor8 v k = Ok w /\ xor8 w k = Ok v.
Proof.
  intros Hv Hk. do 8 (destruct v as [| ? v]; [done |]). do 8 (destruct k as [| ? k]; [done |]).
  eexists. split; [reflexivity |]. unfold xor8. cbn -[Z.lxor]. by rewrite !Z.lxor_assoc, !Z.lxor_nilpotent, !Z.lxor_0_r.
Qed.

Lemma reduced_eq s x : reduced s -> x mod sc_order = le_bytes s -> scalar (x mod sc_order) = s.
Proof. intros [[Hb Hl] _] ->. rewrite <- Hl at 1. by apply le_encode_value. Qed.

Lemma sc_sub_add s h : reduced s -> reduced h -> (x ← sc_add s h; sc_sub x h) = Ok s.
Proof.
  intros Hs' Hh. bind_with (sc_add_correct s h (reduced_scalar _ Hs') (reduced_scalar _ Hh)).
  rewrite sc_sub_correct by auto with keys. f_equal. rewrite le_bytes_reduced, Zminus_mod_idemp_l. apply reduced_eq; [done |].
  replace (le_bytes s + le_bytes h - le_bytes h) with (le_bytes s) by ring. by apply Z.mod_small, reduced_range.
Qed.

Lemma ecdh_complete t sharedSec v2 : reduced (Tx.mask t) -> reduced (Tx.amount t) ->
  (v2 = true -> Tx.mask t = scalar (Hs (ascii "commitment_mask" ++ sharedSec))) ->
  exists e, ecdhEncode hash t sharedSec v2 = Ok e /\ ecdhDecode hash e sharedSec v2 = Ok t.
Proof.
  intros Hm Ha Hv. unfold ecdhEncode, ecdhDecode. destruct t as [m a]. cbn [Tx.mask Tx.amount] in *. destruct v2.
  - destruct (xor8_twice a (ecdhHash hash sharedSec)) as (w & E1 & E2); [apply Ha | exact (fast_hash_size (hash := hash) _) |].
    eexists. split; [by bind_with E1 |]. cbn [Tx.amount]. unfold genCommitmentMask. bind_with (rct_hash_value (ascii "commitment_mask" ++ sharedSec)).
    bind_with E2. by rewrite Hv.
  - pose proof (sc_sub_add m _ Hm (Hs_reduced sharedSec)) as Em. pose proof (sc_sub_add a _ Ha (Hs_reduced (scalar (Hs sharedSec)))) as Ea.
    destruct (sc_add m _) as [m' | |] eqn:Em'; try discriminate Em. destruct (sc_add a _) as [a' | |] eqn:Ea'; try discriminate Ea.
    cbn [mbind outcome_bind] in Em, Ea. exists (Tx.EcdhTuple m' a').
    split; bind_with (rct_hash_value sharedSec); bind_with (rct_hash_value (scalar (Hs sharedSec))).
    + bind_with Em'. by bind_with Ea'.
    + cbn [Tx.mask Tx.amount]. bind_with Em. by bind_with Ea.
Qed.

(** C39: The receiver reads back the amount and the mask that the sender encoded with the same
    shared secret, in both formats; in the short one the mask is the one that the secret determines. *)
Theorem ecdh_roundtrip t sharedSec v2 : reduced (Tx.mask t) -> reduced (Tx.amount t) ->
  (v2 = true -> Tx.mask t = scalar (Hs (ascii "commitment_mask" ++ sharedSec))) ->
  exists e, ecdhEncode hash t sharedSec v2 = Ok e /\ ecdhDecode hash e sharedSec v2 = Ok t.
Proof. apply ecdh_complete. Qed.
End Hashes.

Section Random.
Context {St : Type} (gen : nat -> St -> list Z * St) `{!RandomBytes gen}.

Lemma skGen_value g : skGen gen g = Ok (scalar (drawn gen g), next gen g).
Proof. by apply random_drawn. Qed.

Lemma skpkGen_value g : skpkGen gen g = Ok (scalar (drawn gen g), encode (drawn gen g ⊙ base), next gen g).
Proof.
  unfold skpkGen. bind_with (skGen_value g). pose proof (drawn_reduced gen g) as Hd. bind_with (scalarmultBase_value _ (reduced_scalar _ Hd)).
  by rewrite le_bytes_drawn.
Qed.

Lemma skvGen_loop_value rows g : exists l g', skvGen_loop gen rows g = Ok (l, g') /\ Forall reduced l /\ length l = rows.
Proof.
  revert g. induction rows as [| rows IH]; intros g; [by exists [], g |]. cbn [skvGen_loop].
  destruct (IH (next gen g)) as (l & g' & E & Hf & Hl). exists (scalar (drawn gen g) :: l), g'. split_and!.
  - bind_with (skGen_value g). by bind_with E.
  - constructor; [apply drawn_reduced | done].
  - cbn. by rewrite Hl.
Qed.
End Random.

(** ** Witnesses *)

Lemma ecdh_roundtrip_witness : reduced one_key /\
  exists e, ecdhEncode cn_fast_hash (Tx.EcdhTuple (scalar (Hs cn_fast_hash (ascii "commitment_mask" ++ one_key))) one_key) one_key true = Ok e /\
    ecdhDecode cn_fast_hash e one_key true = Ok (Tx.EcdhTuple (scalar (Hs cn_fast_hash (ascii "commitment_mask" ++ one_key))) one_key).
Proof.
  split; [exact one_key_reduced |].
  exact (ecdh_roundtrip cn_fast_hash (Tx.EcdhTuple (scalar (Hs cn_fast_hash (ascii "commitment_mask" ++ one_key))) one_key) one_key true
    (Hs_reduced cn_fast_hash _) one_key_reduced (fun _ => eq_refl)).
Defined.
