(* ===== verification/RingChain.v ===== *)
(** Challenges around a ring.

    The two signatures of inputs have one loop: it walks the members of a ring
    from the one after the signer, draws a response for each and computes the
    next challenge from it, and keeps the challenge at index 0. What it leaves
    is stated here for any next challenge and any loop that takes such steps. *)
From stdpp Require Import base list numbers.
From S2P Require Import Prelude.
Open Scope Z_scope.

Section Chain.
Context {M R : Type} (next : M -> Z -> R -> Z).

(** The challenges that follow [c] around members with responses. *)
Fixpoint challenges_from (c : Z) (l : list (M * R)) : list Z :=
  match l with
  | [] => []
  | (m, r) :: l => let c' := next m c r in c' :: challenges_from c' l
  end.

(** The last of them. *)
Definition chain (c : Z) (l : list (M * R)) : Z := foldl (fun c mr => next mr.1 c mr.2) c l.

Lemma chain_app c l k : chain c (l ++ k) = chain (chain c l) k.
Proof. apply foldl_app. Qed.

Lemma chain_cons c m r l : chain c ((m, r) :: l) = chain (next m c r) l.
Proof. done. Qed.

Lemma zip_short {A B} (l : list A) (k : list B) n : length k = n -> (n <= length l)%nat -> zip l k = zip (take n l) k.
Proof.
  intros Hk Hn. rewrite <- (take_drop n l) at 1. rewrite <- (app_nil_r k) at 1. rewrite zip_with_app by (rewrite length_take; lia).
  by rewrite zip_with_nil_r, app_nil_r.
Qed.

(** The challenges close when the response of the signer leads back to the first. *)
Lemma chain_closed members l m before after x c0 : members !! l = Some m -> length before = l ->
  let c1 := chain c0 (zip (drop (l + 1) members) after) in
  next m (chain c1 (zip members before)) x = c0 -> chain c1 (zip members (before ++ x :: after)) = c1.
Proof.
  intros Hl Hb c1 Hx. pose proof (lookup_lt_Some _ _ _ Hl) as Hlt.
  rewrite <- (take_drop_middle members l m Hl) at 1. rewrite zip_with_app by (rewrite length_take; lia).
  rewrite chain_app, <- zip_short by (done || lia). cbn [zip zip_with]. rewrite chain_cons, Hx. unfold c1. by rewrite Nat.add_1_r.
Qed.

Section Bounded.
Context (bound : Z) (next_range : forall m c r, 0 <= next m c r < bound).

Lemma chain_range c l : 0 <= c < bound -> 0 <= chain c l < bound.
Proof using next_range. revert c. induction l as [| [m r] l IH]; intros c Hc; [done |]. rewrite chain_cons. apply IH, next_range. Qed.

(** ** The loop of a signer *)

Context {X St T : Type} (enc : R -> X) (draw : St -> R * St) (good : R -> Prop) (draw_good : forall g, good (draw g).1).
Context (ring : list M) (l : nat).
Context (loop : nat -> nat -> Z -> list X -> option Z -> St -> T) (ret : Z -> list X -> option Z -> St -> T).
Context (loop_stop : forall fuel c s c1 g, loop (S fuel) l c s c1 g = ret c s c1 g).
Context (loop_step : forall fuel i m c s c1 g, ring !! i = Some m -> i <> l -> 0 <= c < bound ->
  let c' := next m c (draw g).1 in
  let i' := ((i + 1) mod length ring)%nat in
  loop (S fuel) i c s c1 g = loop fuel i' c' (<[i := enc (draw g).1]> s) (if (i' =? 0)%nat then Some c' else c1) (draw g).2).

Lemma insert_take_drop {A} (s : list A) i x : (i < length s)%nat -> <[i := x]> s = take i s ++ x :: drop (S i) s.
Proof.
  intros Hi. destruct (lookup_lt_is_Some_2 s i Hi) as [y Hy]. rewrite <- (take_drop_middle s i y Hy) at 1.
  by rewrite insert_app_r_alt, length_take, Nat.min_l, Nat.sub_diag by (rewrite ?length_take; lia).
Qed.

(** The members after the signer, to the end of the ring. *)
Lemma loop_after k i fuel c s c1 g : (i + k = length ring)%nat -> (l < i)%nat -> length s = length ring -> 0 <= c < bound ->
  (k = 0%nat -> c1 = Some c) ->
  exists rs g', length rs = k /\ Forall good rs /\
    let c' := chain c (zip (drop i ring) rs) in
    loop (k + fuel) (i mod length ring)%nat c s c1 g = loop fuel 0%nat c' (take i s ++ (enc <$> rs)) (Some c') g'.
Proof using loop_step draw_good next_range.
  revert i c s c1 g. induction k as [| k IH]; intros i c s c1 g Hi Hl Hs Hc Hc1.
  { exists [], g. split_and!; [done | done |]. cbv zeta. rewrite zip_with_nil_r, Hc1, app_nil_r, take_ge by first [done | lia].
    assert (i = length ring) as -> by lia. by rewrite Nat.Div0.mod_same. }
  destruct (lookup_lt_is_Some_2 ring i) as [m Hm]; [lia |]. set (r := (draw g).1). set (c' := next m c r).
  destruct (IH (S i) c' (<[i := enc r]> s) (if ((i + 1) mod length ring =? 0)%nat then Some c' else c1) (draw g).2)
    as (rs & g' & Hk & Hrs & E); [lia | lia | by rewrite length_insert | apply next_range | |].
  { intros ->. replace (i + 1)%nat with (length ring) by lia. by rewrite Nat.Div0.mod_same. }
  exists (r :: rs), g'. split_and!; [cbn; by rewrite Hk | constructor; [apply draw_good | done] |]. cbv zeta in *.
  rewrite (drop_S ring m i Hm). cbn [zip zip_with fmap list_fmap Nat.add]. rewrite chain_cons.
  rewrite Nat.mod_small by lia. rewrite (loop_step (k + fuel) i m c s c1 g Hm) by first [lia | done]. cbv zeta. fold r c'.
  rewrite Nat.add_1_r in *. rewrite E. f_equal. rewrite insert_take_drop, take_app_ge by (rewrite ?length_take; lia).
  rewrite length_take, Nat.min_l by lia. replace (S i - i)%nat with 1%nat by lia. cbn [take]. by rewrite <- app_assoc.
Qed.

(** The members before the signer. *)
Lemma loop_before k i c s c1 g : (i + k = l)%nat -> (l < length ring)%nat -> length s = length ring -> 0 <= c < bound ->
  exists rs g', length rs = k /\ Forall good rs /\
    loop (S k) i c s c1 g = ret (chain c (zip (drop i ring) rs)) (take i s ++ (enc <$> rs) ++ drop l s) c1 g'.
Proof using loop_step loop_stop draw_good next_range.
  revert i c s g. induction k as [| k IH]; intros i c s g Hi Hl Hs Hc.
  { exists [], g. split_and!; [done | done |]. assert (i = l) as -> by lia. rewrite loop_stop, zip_with_nil_r.
    cbn [fmap list_fmap app]. by rewrite take_drop. }
  destruct (lookup_lt_is_Some_2 ring i) as [m Hm]; [lia |]. set (r := (draw g).1). set (c' := next m c r).
  destruct (IH (S i) c' (<[i := enc r]> s) (draw g).2) as (rs & g' & Hk & Hrs & E); [lia | lia | by rewrite length_insert | apply next_range |].
  exists (r :: rs), g'. split_and!; [cbn; by rewrite Hk | constructor; [apply draw_good | done] |].
  rewrite (drop_S ring m i Hm). cbn [zip zip_with]. rewrite chain_cons, (loop_step (S k) i m c s c1 g Hm) by first [lia | done]. cbv zeta. fold r c'.
  rewrite Nat.add_1_r, Nat.mod_small, (proj2 (Nat.eqb_neq (S i) 0)) by lia. rewrite E. f_equal. rewrite insert_take_drop, take_app_ge by (rewrite ?length_take; lia).
  rewrite length_take, Nat.min_l by lia. replace (S i - i)%nat with 1%nat by lia. cbn [take fmap list_fmap app]. rewrite <- app_assoc. cbn [app].
  rewrite drop_app_ge by (rewrite length_take; lia). rewrite length_take, Nat.min_l by lia.
  replace (l - i)%nat with (S k) by lia. cbn [drop]. rewrite drop_drop. replace (S i + k)%nat with l by lia. done.
Qed.

(** All other members, from the one after the signer. *)
Lemma loop_value c x g : (l < length ring)%nat -> 0 <= c < bound ->
  let i := ((l + 1) mod length ring)%nat in
  exists before after g', length before = l /\ (l + 1 + length after = length ring)%nat /\ Forall good before /\ Forall good after /\
    let c1 := chain c (zip (drop (l + 1) ring) after) in
    loop (length ring) i c (replicate (length ring) x) (if (i =? 0)%nat then Some c else None) g =
      ret (chain c1 (zip ring before)) ((enc <$> before) ++ x :: (enc <$> after)) (Some c1) g'.
Proof using loop_step loop_stop draw_good next_range.
  intros Hl Hc. cbv zeta. set (n := length ring) in *. set (c1 := if ((l + 1) mod n =? 0)%nat then Some c else None).
  destruct (loop_after (n - l - 1) (l + 1) (S l) c (replicate n x) c1 g) as (after & g1 & Ha & Fa & Ea); [lia | lia | by rewrite length_replicate | done | |].
  { intros Hk. unfold c1. replace (l + 1)%nat with n by lia. by rewrite Nat.Div0.mod_same. }
  set (c' := chain c (zip (drop (l + 1) ring) after)) in *. cbv zeta in Ea. replace (n - l - 1 + S l)%nat with n in Ea by lia.
  destruct (loop_before l 0 c' (take (l + 1) (replicate n x) ++ (enc <$> after)) (Some c') g1) as (before & g2 & Hb & Fb & Eb); [lia | lia | | by apply chain_range |].
  { rewrite length_app, length_take, length_replicate, length_fmap. fold n. lia. }
  exists before, after, g2. split_and!; [done | lia | done | done |].
  assert (Ed : drop l (take (l + 1) (replicate n x) ++ (enc <$> after)) = x :: (enc <$> after)).
  { rewrite take_replicate, Nat.min_l, replicate_add, <- app_assoc, drop_app_length' by (rewrite ?length_replicate; lia). done. }
  fold n in Ea. rewrite Ea, Eb, Ed. cbn [take app]. by rewrite drop_0.
Qed.
End Bounded.
End Chain.

(** The members of a ring may be changed beforehand or in every step. *)
Section Map.
Context {M N R : Type} (f : M -> N) (next : N -> Z -> R -> Z) (next' : M -> Z -> R -> Z).
Context (Hnext : forall m c r, next (f m) c r = next' m c r).

Lemma challenges_from_map ms : forall rs c, challenges_from next c (zip (f <$> ms) rs) = challenges_from next' c (zip ms rs).
Proof using Hnext.
  induction ms as [| m ms IH]; intros [| r rs] c; [done.. |]. cbn [fmap list_fmap zip zip_with challenges_from].
  cbv zeta. rewrite Hnext. f_equal. apply IH.
Qed.

Lemma chain_map ms : forall rs c, chain next c (zip (f <$> ms) rs) = chain next' c (zip ms rs).
Proof using Hnext.
  induction ms as [| m ms IH]; intros [| r rs] c; [done.. |]. cbn [fmap list_fmap zip zip_with].
  rewrite !chain_cons, Hnext. apply IH.
Qed.
End Map.
