(* ===== verification/Clsag.v ===== *)
(** CLSAG signatures of inputs ([src/ringct/rctSigs.cpp], with the default device).

    The vectors of keys that are hashed are built as lists; a loop that walks
    around the ring has the size of the ring as its bound. *)
From stdpp Require Import base list numbers.
From S2P Require Import Prelude FastHash Limbs ScalarOps FieldOps CurveData Groups Edwards Curve25519 GroupOps PointCodec HashPoint ScalarMult GroupOrder Random Keys KeyProofs TxFormat RctData RctPoints RctOps RctProofs.
Open Scope Z_scope.

(** Source: src/src/ringct/rctTypes.h:168-181 (clsag) *)
Record clsag := Clsag { cl_s : list key; cl_c1 : key; cl_I : key; cl_D : key }.

(** A tag copied over a key of zeros.
    Source: src/src/ringct/rctSigs.cpp:282-283 (CLSAG_Gen) *)
Definition tag_key (t : string) : key := ascii t ++ drop (length (ascii t)) zero.

(** Source: src/src/cryptonote_config.h:233-233 (HASH_KEY_CLSAG_ROUND) *)
Definition HASH_KEY_CLSAG_ROUND : string := "CLSAG_round".

(** Source: src/src/cryptonote_config.h:234-234 (HASH_KEY_CLSAG_AGG_0) *)
Definition HASH_KEY_CLSAG_AGG_0 : string := "CLSAG_agg_0".

(** Source: src/src/cryptonote_config.h:235-235 (HASH_KEY_CLSAG_AGG_1) *)
Definition HASH_KEY_CLSAG_AGG_1 : string := "CLSAG_agg_1".

(** Source: src/src/ringct/rctSigs.cpp:280-299 (CLSAG_Gen) *)
Definition mu_to_hash (tag : string) (P C_nonzero : list key) (sig_I sig_D C_offset : key) : list key :=
  tag_key tag :: P ++ C_nonzero ++ [sig_I; sig_D; C_offset].

(** Source: src/src/ringct/rctSigs.cpp:305-318 (CLSAG_Gen) *)
Definition c_to_hash (P C_nonzero : list key) (C_offset message L R : key) : list key :=
  tag_key HASH_KEY_CLSAG_ROUND :: P ++ C_nonzero ++ [C_offset; message; L; R].

Section Operations.
Context (cn_fast_hash : list Z -> list Z).
Context {St : Type} (generate_random_bytes_thread_safe : nat -> St -> list Z * St).
Abbreviation skGen := (skGen generate_random_bytes_thread_safe).
Abbreviation skpkGen := (skpkGen generate_random_bytes_thread_safe).
Abbreviation hash_to_p3 := (hash_to_p3 cn_fast_hash).
Abbreviation hash_to_scalar := (hash_keys_to_scalar cn_fast_hash).

(** [I], [D], [a], [aG] and [aH].
    Source: src/src/device/device_default.cpp:404-410 (device_default::clsag_prepare) *)
Definition clsag_prepare (p z H : key) (g : St) : outcome (key * key * key * key * key * St) :=
  '(a, aG, g) ← skpkGen g;
  aH ← scalarmultKey H a;
  im ← scalarmultKey H p;
  D ← scalarmultKey H z;
  Ok (im, D, a, aG, aH, g).

(** Source: src/src/device/device_default.cpp:417-425 (device_default::clsag_sign) *)
Definition clsag_sign (c a p z mu_P mu_C : key) : outcome key :=
  s0_p_mu_P ← sc_mul mu_P p;
  s0_add_z_mu_C ← sc_muladd mu_C z s0_p_mu_P;
  sc_mulsub c s0_add_z_mu_C a.

(** The two points of a member of the ring with its response, hashed.
    Source: src/src/ringct/rctSigs.cpp:349-359 (CLSAG_Gen) *)
Definition clsag_LR (to_hash : key -> key -> list key) (I_precomp D_precomp : list ge_cached) (P s c_p c_c : key) (P_precomp C_precomp : list ge_cached)
    : outcome key :=
  L ← addKeys_aGbBcC s c_p P_precomp c_c C_precomp;
  Hi_p3 ← hash_to_p3 P;
  H_precomp ← ge_dsm_precomp Hi_p3;
  R ← addKeys_aAbBcC s H_precomp c_p I_precomp c_c D_precomp;
  hash_to_scalar (to_hash L R).

(** The loop over the other members: the challenge of the signer, the responses and [c1].
    Source: src/src/ringct/rctSigs.cpp:339-365 (CLSAG_Gen) *)
Fixpoint clsag_loop (fuel : nat) (to_hash : key -> key -> list key) (I_precomp D_precomp : list ge_cached) (mu_P mu_C : key)
    (P C : list key) (l i : nat) (c : key) (s : list key) (c1 : option key) (g : St) : outcome (key * list key * option key * St) :=
  match fuel with
  | O => Undef
  | S fuel =>
      if (i =? l)%nat then Ok (c, s, c1, g) else
      '(si, g) ← skGen g;
      Pi ← at_or_undef (P !! i);
      Ci ← at_or_undef (C !! i);
      c_p ← sc_mul mu_P c;
      c_c ← sc_mul mu_C c;
      P_precomp ← precomp Pi;
      C_precomp ← precomp Ci;
      c ← clsag_LR to_hash I_precomp D_precomp Pi si c_p c_c P_precomp C_precomp;
      let i' := ((i + 1) mod length P)%nat in
      clsag_loop fuel to_hash I_precomp D_precomp mu_P mu_C P C l i' c (<[i := si]> s) (if (i' =? 0)%nat then Some c else c1) g
  end.

(** Source: src/src/ringct/rctSigs.cpp:249-372 (CLSAG_Gen) *)
Definition CLSAG_Gen (message : key) (P : list key) (p : key) (C : list key) (z : key) (C_nonzero : list key) (C_offset : key) (l : nat) (g : St)
    : outcome (clsag * St) :=
  let n := length P in
  _ ← check_or_throw (n =? length C)%nat "Signing and commitment key vector sizes must match!";
  _ ← check_or_throw (n =? length C_nonzero)%nat "Signing and commitment key vector sizes must match!";
  _ ← check_or_throw (l <? n)%nat "Signing index out of range!";
  Pl ← at_or_undef (P !! l);
  H_p3 ← hash_to_p3 Pl;
  H ← ge_p3_tobytes H_p3;
  '(im, D, a, aG, aH, g) ← clsag_prepare p z H g;
  I_precomp ← precomp im;
  D_precomp ← precomp D;
  sig_D ← scalarmultKey D INV_EIGHT;
  mu_P ← hash_to_scalar (mu_to_hash HASH_KEY_CLSAG_AGG_0 P C_nonzero im sig_D C_offset);
  mu_C ← hash_to_scalar (mu_to_hash HASH_KEY_CLSAG_AGG_1 P C_nonzero im sig_D C_offset);
  let to_hash := c_to_hash P C_nonzero C_offset message in
  c ← hash_to_scalar (to_hash aG aH);
  let i := ((l + 1) mod n)%nat in
  '(c, s, c1, g) ← clsag_loop n to_hash I_precomp D_precomp mu_P mu_C P C l i c (replicate n zero) (if (i =? 0)%nat then Some c else None) g;
  sl ← clsag_sign c a p z mu_P mu_C;
  c1 ← at_or_undef c1;
  Ok (Clsag (<[l := sl]> s) c1 im sig_D, g).

(** The commitments less the commitment of the pseudo output.
    Source: src/src/ringct/rctSigs.cpp:797-804 (proveRctCLSAGSimple) *)
Fixpoint sub_commitments (pubs : list ctkey) (Cout : key) : outcome (list key) :=
  match pubs with
  | [] => Ok []
  | k :: pubs => tmp ← subKeys (ct_mask k) Cout; C ← sub_commitments pubs Cout; Ok (tmp :: C)
  end.

(** Source: src/src/ringct/rctSigs.cpp:784-811 (proveRctCLSAGSimple) *)
Definition proveRctCLSAGSimple (message : key) (pubs : list ctkey) (inSk : ctkey) (a Cout : key) (index : nat) (g : St) : outcome (clsag * St) :=
  _ ← check_or_throw (1 <=? length pubs)%nat "Empty pubs";
  C ← sub_commitments pubs Cout;
  sk1 ← sc_sub (ct_mask inSk) a;
  CLSAG_Gen message (dest <$> pubs) (dest inSk) C sk1 (ct_mask <$> pubs) Cout index g.

(** All are scalars below the order.
    Source: src/src/ringct/rctSigs.cpp:931-932 (verRctCLSAGSimple) *)
Fixpoint all_checked (s : list key) : outcome bool :=
  match s with
  | [] => Ok true
  | x :: s => ok ← checked x; check_or_false ok (all_checked s)
  end.

(** [temp_p3 - C_offset], precomputed.
    Source: src/src/ringct/rctSigs.cpp:1009-1011 (verRctCLSAGSimple) *)
Definition offset_precomp (C_offset_cached : ge_cached) (temp_p3 : ge_p3) : outcome (list ge_cached) :=
  temp_p1 ← ge_sub temp_p3 C_offset_cached;
  temp_p3 ← ge_p1p1_to_p3 temp_p1;
  ge_dsm_precomp temp_p3.

(** The last challenge, or nothing when the function returns false.
    Source: src/src/ringct/rctSigs.cpp:1000-1028 (verRctCLSAGSimple) *)
Fixpoint ver_clsag_loop (to_hash : key -> key -> list key) (I_precomp D_precomp : list ge_cached) (mu_P mu_C : key)
    (C_offset_cached : ge_cached) (pubs : list ctkey) (s : list key) (c : key) : outcome (option key) :=
  match pubs with
  | [] => Ok (Some c)
  | pub :: pubs =>
      c_p ← sc_mul mu_P c;
      c_c ← sc_mul mu_C c;
      P_precomp ← precomp (dest pub);
      temp_p3 ← ge_frombytes_vartime (ct_mask pub);
      match temp_p3 with
      | None => Ok None
      | Some temp_p3 =>
          C_precomp ← offset_precomp C_offset_cached temp_p3;
          si ← at_or_undef (head s);
          c_new ← clsag_LR to_hash I_precomp D_precomp (dest pub) si c_p c_c P_precomp C_precomp;
          if key_eq c_new zero then Ok None else
          ver_clsag_loop to_hash I_precomp D_precomp mu_P mu_C C_offset_cached pubs (tail s) c_new
      end
  end.

(** Source: src/src/ringct/rctSigs.cpp:922-1033 (verRctCLSAGSimple) *)
Definition verRctCLSAGSimple (message : key) (sig : clsag) (pubs : list ctkey) (C_offset : key) : outcome bool :=
  catch_false (
  let n := length pubs in
  check_or_false (1 <=? n)%nat (
  check_or_false (n =? length (cl_s sig))%nat (
  s_ok ← all_checked (cl_s sig);
  check_or_false s_ok (
  c1_ok ← checked (cl_c1 sig);
  check_or_false c1_ok (
  check_or_false (negb (key_eq (cl_I sig) identity)) (
  C_offset_p3 ← ge_frombytes_vartime C_offset;
  match C_offset_p3 with
  | None => Ok false
  | Some C_offset_p3 =>
      C_offset_cached ← ge_p3_to_cached C_offset_p3;
      D_8 ← scalarmult8 (cl_D sig);
      check_or_false (negb (key_eq D_8 identity)) (
      I_precomp ← precomp (cl_I sig);
      D_precomp ← precomp D_8;
      mu_P ← hash_to_scalar (mu_to_hash HASH_KEY_CLSAG_AGG_0 (dest <$> pubs) (ct_mask <$> pubs) (cl_I sig) (cl_D sig) C_offset);
      mu_C ← hash_to_scalar (mu_to_hash HASH_KEY_CLSAG_AGG_1 (dest <$> pubs) (ct_mask <$> pubs) (cl_I sig) (cl_D sig) C_offset);
      c ← ver_clsag_loop (c_to_hash (dest <$> pubs) (ct_mask <$> pubs) C_offset message) I_precomp D_precomp mu_P mu_C C_offset_cached pubs (cl_s sig) (cl_c1 sig);
      match c with
      | None => Ok false
      | Some c => c_new ← sc_sub c (cl_c1 sig); Ok (sc_isnonzero c_new =? 0)
      end)
  end)))))).
End Operations.
