(* ===== verification/ClsagProofs.v ===== *)
(** The theorems about CLSAG signatures: what the verification accepts, and that
    it accepts what the signer produces. *)
From stdpp Require Import base list numbers.
From S2P Require Import Prelude FastHash Limbs ScalarOps FieldOps CurveData Groups Edwards Curve25519 GroupOps PointCodec HashPoint ScalarMult GroupOrder Random Keys KeyProofs TxFormat RctData RctPoints RctOps RctProofs RingChain Clsag Signatures Keccak.
Open Scope Z_scope.

Lemma reduced_scalar_of s : reduced s -> s = scalar (le_bytes s).
Proof. intros [[Hb Hl] _]. rewrite <- Hl. symmetry. by apply le_encode_value. Qed.

Lemma zero_scalar : zero = scalar 0.
Proof. symmetry. apply le_encode_zero. Qed.

Lemma scalar_inj x y : 0 <= x < sc_order -> 0 <= y < sc_order -> scalar x = scalar y -> x = y.
Proof. intros Hx Hy E. by rewrite <- (scalar_value x Hx), E, scalar_value. Qed.

Lemma key_eq_zero x : 0 <= x < sc_order -> key_eq (scalar x) zero = (x =? 0).
Proof.
  intros Hx. unfold key_eq. rewrite zero_scalar. apply eq_bool_prop_intro. rewrite bool_decide_spec, Is_true_true, Z.eqb_eq.
  split; [| by intros ->]. intros E. by apply scalar_inj in E; [| done | by split].
Qed.

Lemma inv_eight_order (p : point) : sc_order ⊙ p = gzero -> 8 ⊙ (le_bytes INV_EIGHT ⊙ p) = p.
Proof.
  intros Hp. rewrite <- gmul_mul, <- (gmul_mod sc_order) by done.
  assert (E : (8 * le_bytes INV_EIGHT) mod sc_order = 1) by (by vm_compute). rewrite E. apply gmul_1.
Qed.

(** A public key of a point and a commitment. *)
Definition pub_of (pc : point * point) : ctkey := Ctkey (encode pc.1) (encode pc.2).

Lemma pubs_cons k pubs ring : k :: pubs = pub_of <$> ring ->
  exists pc ring', dest k = encode pc.1 /\ ct_mask k = encode pc.2 /\ pubs = pub_of <$> ring'.
Proof.
  destruct ring as [| pc ring]; [discriminate |]. intros E. exists pc, ring. assert (Ek : k = pub_of pc) by exact (f_equal (fun l => default k (head l)) E).
  split_and!; [exact (f_equal dest Ek) | exact (f_equal ct_mask Ek) | exact (f_equal tail E)].
Qed.

Lemma pubs_inj (ring ring' : list (point * point)) : pub_of <$> ring' = pub_of <$> ring -> ring' = ring.
Proof.
  revert ring'. induction ring as [| [P C] ring IH]; intros [| [P' C'] ring'] E; [done | discriminate E | discriminate E |].
  assert (Ek : pub_of (P', C') = pub_of (P, C)) by exact (f_equal (fun l => default (pub_of (P, C)) (head l)) E).
  assert (EP : P' = P) by exact (encode_inj _ _ (f_equal dest Ek)). assert (EC : C' = C) by exact (encode_inj _ _ (f_equal ct_mask Ek)).
  rewrite EP, EC. f_equal. apply IH. exact (f_equal tail E).
Qed.

Definition ct_scalars (k : ctkey) : Prop := is_scalar (dest k) /\ is_scalar (ct_mask k).

Lemma pubs_cases pubs : Forall ct_scalars pubs -> (exists ring, pubs = pub_of <$> ring) \/ forall ring, pubs <> pub_of <$> ring.
Proof.
  induction 1 as [| [d m] pubs [Hd Hm] _ [[ring ->] | IH]]; [left; by exists [] | |].
  - destruct (decode_cases d Hd) as [[P ->] | [_ Hn]]; [| right; intros r (pc & ? & E & _)%pubs_cons; by destruct (Hn pc.1)].
    destruct (decode_cases m Hm) as [[C ->] | [_ Hn]]; [left; by exists ((P, C) :: ring) | right; intros r (pc & ? & _ & E & _)%pubs_cons; by destruct (Hn pc.2)].
  - right. intros r (pc & r' & _ & _ & E)%pubs_cons. by apply (IH r').
Qed.

Section Proofs.
Context (hash : list Z -> list Z) `{!FastHash hash}.
Abbreviation Hs := (Hs hash).
Abbreviation Hp := (Hp hash).

Hint Resolve Hs_reduced scalar_reduced : keys.

(** ** The rounds of a ring *)

Section Rounds.
Context (to_hash : key -> key -> list key) (I D : point) (mu_P mu_C : Z).

(** The challenge after the one of a member with the response [r]. *)
Definition clsag_next (pc : point * point) (c r : Z) : Z :=
  let c_p := (mu_P * c) mod sc_order in
  let c_c := (mu_C * c) mod sc_order in
  Hs (concat (to_hash (encode (r ⊙ base ⊕ c_p ⊙ pc.1 ⊕ c_c ⊙ pc.2)) (encode (r ⊙ Hp (encode pc.1) ⊕ c_p ⊙ I ⊕ c_c ⊙ D)))).

Lemma clsag_next_range pc c r : 0 <= clsag_next pc c r < sc_order.
Proof. apply Hs_range. Qed.

Context (Ip Dp : list ge_cached) (HI : odd_multiples Ip I) (HD : odd_multiples Dp D).
Context (HmP : 0 <= mu_P < sc_order) (HmC : 0 <= mu_C < sc_order).

Lemma clsag_LR_value P C Pp Cp c r : odd_multiples Pp P -> odd_multiples Cp C -> 0 <= c < sc_order -> 0 <= r < sc_order ->
  clsag_LR hash to_hash Ip Dp (encode P) (scalar r) (scalar ((mu_P * c) mod sc_order)) (scalar ((mu_C * c) mod sc_order)) Pp Cp
  = Ok (scalar (clsag_next (P, C) c r)).
Proof using All.
  intros HP HC Hc Hr. unfold clsag_LR. pose proof (scalar_reduced r Hr).
  bind_with (addKeys_aGbBcC_value (scalar r) _ Pp P _ Cp C (reduced_slide _ ltac:(eassumption)) (reduced_slide _ (reduced_encode (mu_P * c))) (reduced_slide _ (reduced_encode (mu_C * c))) HP HC).
  destruct (hash_to_p3_is hash (encode P)) as (h & E & Hh). bind_with E. ge_bind (ge_dsm_precomp_is h _ Hh).
  bind_with (addKeys_aAbBcC_value (scalar r) h0 _ _ Ip I _ Dp D (reduced_slide _ ltac:(eassumption)) (reduced_slide _ (reduced_encode (mu_P * c))) (reduced_slide _ (reduced_encode (mu_C * c))) H0 HI HD).
  rewrite !le_bytes_reduced, scalar_value by done. apply hash_keys_value, _.
Qed.

Lemma mu_c_value c mu : 0 <= c < sc_order -> 0 <= mu < sc_order -> sc_mul (scalar mu) (scalar c) = Ok (scalar ((mu * c) mod sc_order)).
Proof.
  intros Hc Hm. rewrite sc_mul_correct by (by apply reduced_scalar, scalar_reduced). by rewrite !scalar_value.
Qed.

(** ** The verification *)

Context (O : point) (Oc : ge_cached) (HO : cached_is Oc O).

(** The commitment of a member, less the offset. *)
Definition less (pc : point * point) : point * point := (pc.1, pc.2 ⊕ ⊖ O).

Lemma offset_precomp_value h C : p3_is h C -> exists t, offset_precomp Oc h = Ok t /\ odd_multiples t (C ⊕ ⊖ O).
Proof using HO.
  intros Hh. destruct (ge_sub_is h Oc C O Hh HO) as (h1 & E1 & H1). destruct (ge_p1p1_to_p3_is h1 _ H1) as (h2 & E2 & H2).
  destruct (ge_dsm_precomp_is h2 _ H2) as (t & E3 & Ht). exists t. split; [| done]. unfold offset_precomp. bind_with E1. by bind_with E2.
Qed.

Definition nonzero (c : Z) : bool := negb (c =? 0).

(** The loop on encodings of points. *)
Lemma ver_clsag_loop_value ring rs c : Forall (fun r => 0 <= r < sc_order) rs -> length rs = length ring -> 0 <= c < sc_order ->
  ver_clsag_loop hash to_hash Ip Dp (scalar mu_P) (scalar mu_C) Oc (pub_of <$> ring) (le_encode 32 <$> rs) (scalar c) =
    Ok (if forallb nonzero (challenges_from clsag_next c (zip (less <$> ring) rs)) then Some (scalar (chain clsag_next c (zip (less <$> ring) rs))) else None).
Proof using All.
  intros Hrs. revert ring c. induction Hrs as [| r rs Hr _ IH]; intros [| [P C] ring] c Hl Hc; try done.
  injection Hl as Hl. cbn [fmap list_fmap ver_clsag_loop head tail zip zip_with challenges_from forallb]. unfold pub_of at 1 2 3 4. cbn [dest ct_mask fst snd].
  bind_with (mu_c_value c mu_P Hc HmP). bind_with (mu_c_value c mu_C Hc HmC). ge_bind (precomp_value P). ge_bind (decode_encode C).
  ge_bind (offset_precomp_value h0 C H0). bind_with (eq_refl (at_or_undef (Some (scalar r)))).
  bind_with (clsag_LR_value P (C ⊕ ⊖ O) h h1 c r H H1 Hc Hr). change (P, C ⊕ ⊖ O) with (less (P, C)).
  rewrite key_eq_zero by apply clsag_next_range. unfold nonzero at 1. destruct (_ =? 0); [done |]. cbn [negb andb].
  rewrite IH by first [done | apply clsag_next_range]. done.
Qed.

(** The loop on other keys accepts nothing. *)
Lemma ver_clsag_loop_other pubs rs c : Forall ct_scalars pubs -> Forall (fun r => 0 <= r < sc_order) rs -> length rs = length pubs -> 0 <= c < sc_order ->
  (exists ring, pubs = pub_of <$> ring) \/
  let m := ver_clsag_loop hash to_hash Ip Dp (scalar mu_P) (scalar mu_C) Oc pubs (le_encode 32 <$> rs) (scalar c) in
  (forall ring, pubs <> pub_of <$> ring) /\ (m = Ok None \/ exists e, m = Throw e).
Proof using All.
  intros Hp Hrs. revert pubs c Hp. induction Hrs as [| r rs Hr _ IH]; intros [| [d m] pubs] c Hp Hl Hc; try done; [left; by exists [] |].
  injection Hl as Hl. apply Forall_cons in Hp as [[Hd Hm] Hp]. cbn [dest ct_mask] in Hd, Hm.
  cbn [fmap list_fmap ver_clsag_loop head tail dest ct_mask]. cbv zeta.
  bind_with (mu_c_value c mu_P Hc HmP). bind_with (mu_c_value c mu_C Hc HmC).
  destruct (load_point_cases d Hd) as [[P ->] | [[e E] Hn]].
  2: { right. split; [intros ring (pc & ? & Er & _)%pubs_cons; by destruct (Hn pc.1) |]. right. exists e. unfold precomp. by rewrite E. }
  ge_bind (precomp_value P). destruct (decode_cases m Hm) as [[C ->] | [E Hn]].
  2: { right. split; [intros ring (pc & ? & _ & Er & _)%pubs_cons; by destruct (Hn pc.2) |]. left. by bind_with E. }
  ge_bind (decode_encode C). ge_bind (offset_precomp_value h0 C H0). bind_with (eq_refl (at_or_undef (Some (scalar r)))).
  bind_with (clsag_LR_value P (C ⊕ ⊖ O) h h1 c r H H1 Hc Hr).
  destruct (IH pubs _ Hp Hl (clsag_next_range (P, C ⊕ ⊖ O) c r)) as [[ring ->] | [Hn Hm']]; [left; by exists ((P, C) :: ring) |].
  right. split; [intros ring (pc & ring' & _ & _ & Er)%pubs_cons; by apply (Hn ring') |].
  destruct (key_eq _ zero); [by left | exact Hm'].
Qed.
End Rounds.


Lemma all_checked_value s : Forall is_scalar s -> all_checked s = Ok (forallb (fun x => le_bytes x <? sc_order) s).
Proof.
  induction 1 as [| x s Hx _ IH]; [done |]. cbn [all_checked forallb]. bind_with (checked_value x Hx).
  by destruct (le_bytes x <? sc_order).
Qed.

Lemma reduced_responses s : Forall is_scalar s -> forallb (fun x => le_bytes x <? sc_order) s = true ->
  Forall (fun r => 0 <= r < sc_order) (le_bytes <$> s) /\ s = le_encode 32 <$> (le_bytes <$> s).
Proof.
  intros Hs' Ht. assert (Hr : Forall reduced s).
  { apply Forall_forall. intros x Hx. split; [by apply (proj1 (Forall_forall _ _) Hs') |]. apply Z.ltb_lt. by apply (proj1 (forallb_forall _ _) Ht), list_elem_of_In. }
  split; [apply Forall_fmap; eapply Forall_impl; [exact Hr | apply reduced_range] |].
  rewrite <- list_fmap_compose. symmetry. transitivity (id <$> s); [| apply list_fmap_id]. apply list_fmap_ext. intros i x Hx. cbn.
  symmetry. by apply reduced_scalar_of, (Forall_lookup_1 _ _ _ _ Hr Hx).
Qed.

(** ** What the code computes from a ring of points *)

(** The coefficients of the keys and of the commitments of a signature. *)
Definition coded_mu (tag : string) (ring : list (point * point)) (I D O : point) : Z :=
  Hs (concat (mu_to_hash tag (dest <$> (pub_of <$> ring)) (ct_mask <$> (pub_of <$> ring)) (encode I) (encode D) (encode O))).

(** What the round of a signature hashes. *)
Definition coded_to_hash (message : key) (ring : list (point * point)) (O : point) : key -> key -> list key :=
  c_to_hash (dest <$> (pub_of <$> ring)) (ct_mask <$> (pub_of <$> ring)) (encode O) message.

(** The challenges of a signature around its ring, from [cl_c1]. *)
Definition coded_challenges (message : key) (sig : clsag) (ring : list (point * point)) (I D O : point) : list Z :=
  challenges_from (clsag_next (coded_to_hash message ring O) I (8 ⊙ D) (coded_mu HASH_KEY_CLSAG_AGG_0 ring I D O) (coded_mu HASH_KEY_CLSAG_AGG_1 ring I D O))
    (le_bytes (cl_c1 sig)) (zip (less O <$> ring) (le_bytes <$> cl_s sig)).

Definition coded_last (message : key) (sig : clsag) (ring : list (point * point)) (I D O : point) : Z :=
  chain (clsag_next (coded_to_hash message ring O) I (8 ⊙ D) (coded_mu HASH_KEY_CLSAG_AGG_0 ring I D O) (coded_mu HASH_KEY_CLSAG_AGG_1 ring I D O))
    (le_bytes (cl_c1 sig)) (zip (less O <$> ring) (le_bytes <$> cl_s sig)).

Definition coded_clsag (message : key) (sig : clsag) (ring : list (point * point)) (I D O : point) : bool :=
  (1 <=? length ring)%nat && (length ring =? length (cl_s sig))%nat && forallb (fun x => le_bytes x <? sc_order) (cl_s sig) &&
  (le_bytes (cl_c1 sig) <? sc_order) && negb (bool_decide (I = gzero)) && negb (bool_decide (8 ⊙ D = gzero)) &&
  forallb nonzero (coded_challenges message sig ring I D O) && (coded_last message sig ring I D O =? le_bytes (cl_c1 sig)).

Definition clsag_scalars (sig : clsag) : Prop := Forall is_scalar (cl_s sig) /\ is_scalar (cl_c1 sig) /\ is_scalar (cl_I sig) /\ is_scalar (cl_D sig).

Lemma key_eq_identity p : key_eq (encode p) identity = bool_decide (p = gzero).
Proof. unfold key_eq. by rewrite <- encode_identity, encode_bool_decide. Qed.

Lemma ver_clsag_final c c1 : 0 <= c < sc_order -> reduced c1 ->
  (c_new ← sc_sub (scalar c) c1; Ok (sc_isnonzero c_new =? 0)) = Ok (c =? le_bytes c1).
Proof.
  intros Hc H1. bind_with (sc_sub_correct (scalar c) c1 (reduced_scalar _ (scalar_reduced c Hc)) (reduced_scalar _ H1)).
  rewrite scalar_value, challenge_matches by first [done | by apply reduced_range]. f_equal. apply eq_bool_prop_intro.
  by rewrite bool_decide_spec, Is_true_true, Z.eqb_eq.
Qed.

Lemma verRctCLSAGSimple_value message sig ring I D O : clsag_scalars sig -> cl_I sig = encode I -> cl_D sig = encode D ->
  verRctCLSAGSimple hash message sig (pub_of <$> ring) (encode O) = Ok (coded_clsag message sig ring I D O).
Proof.
  intros (Hs' & Hc & _ & _) EI ED. unfold verRctCLSAGSimple, coded_clsag. rewrite length_fmap, EI, ED. cbv zeta.
  destruct (1 <=? length ring)%nat; [| done]. destruct (Nat.eqb_spec (length ring) (length (cl_s sig))) as [El |]; [| done].
  cbn [andb check_or_false]. bind_with (all_checked_value _ Hs'). destruct (forallb _ (cl_s sig)) eqn:Es; [| done]. cbn [andb check_or_false].
  destruct (reduced_responses _ Hs' Es) as [Hr Er]. bind_with (checked_value _ Hc).
  destruct (Z.ltb_spec (le_bytes (cl_c1 sig)) sc_order) as [Hc1 |]; [| done]. cbn [andb check_or_false]. assert (Hred : reduced (cl_c1 sig)) by done.
  rewrite key_eq_identity. destruct (bool_decide (I = gzero)); [done |]. cbn [negb andb check_or_false].
  ge_bind (decode_encode O). ge_bind (ge_p3_to_cached_is h O H). bind_with (scalarmult8_value D). rewrite key_eq_identity.
  destruct (bool_decide (8 ⊙ D = gzero)); [done |]. cbn [negb andb check_or_false].
  ge_bind (precomp_value I). ge_bind (precomp_value (8 ⊙ D)).
  do 2 (match goal with |- catch_false (mbind _ (hash_keys_to_scalar _ ?k)) = _ => rewrite (bind_ok _ _ _ (hash_keys_value hash k)); cbv beta end).
  pose proof (reduced_range _ Hred) as Hcr. rewrite (reduced_scalar_of _ Hred) at 1. rewrite Er at 1.
  match goal with |- catch_false (mbind _ (ver_clsag_loop _ ?f _ _ (scalar ?mp) (scalar ?mc) _ _ _ _)) = _ =>
    rewrite (bind_ok _ _ _ (ver_clsag_loop_value f I (8 ⊙ D) mp mc h1 h2 H1 H2 (Hs_range hash _) (Hs_range hash _) O h0 H0 ring _ _ Hr
      ltac:(by rewrite length_fmap) Hcr)); cbv beta end.
  unfold coded_challenges, coded_last, coded_to_hash, coded_mu. destruct (forallb nonzero _); [| done]. cbn [andb].
  rewrite ver_clsag_final by first [by (apply chain_range; [by apply clsag_next_range |]) | done]. done.
Qed.


(** Runs the checks of the sizes and of the scalars. *)
Ltac clsag_guards Hs Hc :=
  unfold verRctCLSAGSimple; cbv zeta; destruct (1 <=? _)%nat; [| done]; destruct (_ =? _)%nat eqn:El; [apply Nat.eqb_eq in El | done];
  cbn [check_or_false]; bind_with (all_checked_value _ Hs); destruct (forallb _ _) eqn:Es; [| done];
  cbn [check_or_false]; bind_with (checked_value _ Hc); destruct (_ <? sc_order) eqn:Hc1; [apply Z.ltb_lt in Hc1 | done];
  cbn [check_or_false]; destruct (negb _); [| done]; cbn [check_or_false].

(** Nothing but encodings of points is accepted. *)
Lemma verRctCLSAGSimple_other message sig pubs C_offset : clsag_scalars sig -> Forall ct_scalars pubs -> is_scalar C_offset ->
  (exists ring I D O, pubs = pub_of <$> ring /\ cl_I sig = encode I /\ cl_D sig = encode D /\ C_offset = encode O) \/
  verRctCLSAGSimple hash message sig pubs C_offset = Ok false /\
  forall ring I D O, ~ (pubs = pub_of <$> ring /\ cl_I sig = encode I /\ cl_D sig = encode D /\ C_offset = encode O).
Proof.
  intros (Hs' & Hc & HI & HD) Hp HO. destruct (decode_cases _ HO) as [[O EO] | [EO Hn]].
  2: { right. split; [| intros ring I D O (_ & _ & _ & E); by destruct (Hn O)]. clsag_guards Hs' Hc. by bind_with EO. }
  destruct (load_point_cases _ HD) as [[D ED] | [[e ED] Hn]].
  2: { right. split; [| intros ring I D O' (_ & _ & E & _); by destruct (Hn D)]. clsag_guards Hs' Hc.
    rewrite EO. ge_bind (decode_encode O). ge_bind (ge_p3_to_cached_is _ _ H). unfold scalarmult8. by rewrite ED. }
  destruct (load_point_cases _ HI) as [[I EI] | [[e EI] Hn]].
  2: { right. split; [| intros ring I D' O' (_ & E & _); by destruct (Hn I)]. clsag_guards Hs' Hc.
    rewrite EO, ED. ge_bind (decode_encode O). ge_bind (ge_p3_to_cached_is _ _ H).
    bind_with (scalarmult8_value D). destruct (negb _); [| done]. cbn [check_or_false]. unfold precomp. by rewrite EI. }
  destruct (pubs_cases pubs Hp) as [[ring ->] | Hn]; [left; by exists ring, I, D, O |].
  right. split; [| intros ring I' D' O' (E & _); by apply (Hn ring)]. clsag_guards Hs' Hc. destruct (reduced_responses _ Hs' Es) as [Hr Er].
  assert (Hred : reduced (cl_c1 sig)) by done. pose proof (reduced_range _ Hred) as Hcr.
  rewrite EO, ED, EI. ge_bind (decode_encode O). ge_bind (ge_p3_to_cached_is _ _ H). bind_with (scalarmult8_value D). destruct (negb _); [| done].
  cbn [check_or_false]. ge_bind (precomp_value I). ge_bind (precomp_value (8 ⊙ D)).
  do 2 (match goal with |- catch_false (mbind _ (hash_keys_to_scalar _ ?k)) = _ => rewrite (bind_ok _ _ _ (hash_keys_value hash k)); cbv beta end).
  rewrite (reduced_scalar_of _ Hred) at 1. rewrite Er at 1.
  match goal with |- catch_false (mbind _ (ver_clsag_loop _ ?f _ _ (scalar ?mp) (scalar ?mc) _ _ _ _)) = _ =>
    destruct (ver_clsag_loop_other f I (8 ⊙ D) mp mc h1 h2 H1 H2 (Hs_range hash _) (Hs_range hash _) O h0 H0 pubs _ _ Hp Hr
      ltac:(by rewrite length_fmap) Hcr) as [[ring E] | [_ [E | [e E]]]] end; [by apply Hn in E | by rewrite E | by rewrite E].
Qed.


(** ** The specification *)

(** The tags that separate the hashes, over 32 bytes: "CLSAG_agg_0", "CLSAG_agg_1" and "CLSAG_round". *)
Definition agg_0_tag : list Z := [67; 76; 83; 65; 71; 95; 97; 103; 103; 95; 48] ++ replicate 21 0.
Definition agg_1_tag : list Z := [67; 76; 83; 65; 71; 95; 97; 103; 103; 95; 49] ++ replicate 21 0.
Definition round_tag : list Z := [67; 76; 83; 65; 71; 95; 114; 111; 117; 110; 100] ++ replicate 21 0.

(** The ring in a hash: the keys of all members, then their commitments. *)
Definition ring_bytes (ring : list (point * point)) : list Z :=
  concat (encode ∘ fst <$> ring) ++ concat (encode ∘ snd <$> ring).

(** An aggregation coefficient binds the ring, both images and the pseudo output. *)
Definition clsag_mu (tag : list Z) (ring : list (point * point)) (I D O : point) : Z :=
  Hs (tag ++ ring_bytes ring ++ encode I ++ encode D ++ encode O).

(** The challenge after the challenge [c] of a member that responds [r]: it binds the ring, the pseudo output, the
    message and the two points of the member. *)
Definition ring_next (message : key) (ring : list (point * point)) (I D O : point) (pc : point * point) (c r : Z) : Z :=
  let c_p := (clsag_mu agg_0_tag ring I D O * c) mod sc_order in
  let c_c := (clsag_mu agg_1_tag ring I D O * c) mod sc_order in
  let L := r ⊙ base ⊕ c_p ⊙ pc.1 ⊕ c_c ⊙ (pc.2 ⊕ ⊖ O) in
  let R := r ⊙ Hp (encode pc.1) ⊕ c_p ⊙ I ⊕ c_c ⊙ (8 ⊙ D) in
  Hs (round_tag ++ ring_bytes ring ++ encode O ++ message ++ encode L ++ encode R).

(** The challenges around the ring, from [cl_c1], and the one that follows the last. *)
Definition ring_challenges (message : key) (sig : clsag) (ring : list (point * point)) (I D O : point) : list Z :=
  challenges_from (ring_next message ring I D O) (le_bytes (cl_c1 sig)) (zip ring (le_bytes <$> cl_s sig)).

Definition ring_last (message : key) (sig : clsag) (ring : list (point * point)) (I D O : point) : Z :=
  chain (ring_next message ring I D O) (le_bytes (cl_c1 sig)) (zip ring (le_bytes <$> cl_s sig)).

(** What a CLSAG signature promises: the challenges close around the ring. *)
Definition valid_clsag (message : key) (sig : clsag) (ring : list (point * point)) (I D O : point) : bool :=
  (1 <=? length ring)%nat && (length ring =? length (cl_s sig))%nat && forallb (fun x => le_bytes x <? sc_order) (cl_s sig) &&
  (le_bytes (cl_c1 sig) <? sc_order) && negb (bool_decide (I = gzero)) && negb (bool_decide (8 ⊙ D = gzero)) &&
  forallb nonzero (ring_challenges message sig ring I D O) && (ring_last message sig ring I D O =? le_bytes (cl_c1 sig)).

Lemma mu_bytes tag P C (im D O : key) : concat (mu_to_hash tag P C im D O) = tag_key tag ++ (concat P ++ concat C) ++ im ++ D ++ O.
Proof. unfold mu_to_hash. cbn [concat]. rewrite !concat_app. cbn [concat]. by rewrite app_nil_r, <- !app_assoc. Qed.

Lemma round_bytes P C (O message L R : key) :
  concat (c_to_hash P C O message L R) = tag_key HASH_KEY_CLSAG_ROUND ++ (concat P ++ concat C) ++ O ++ message ++ L ++ R.
Proof. unfold c_to_hash. cbn [concat]. rewrite !concat_app. cbn [concat]. by rewrite app_nil_r, <- !app_assoc. Qed.

Lemma ring_dests (ring : list (point * point)) : dest <$> (pub_of <$> ring) = encode ∘ fst <$> ring.
Proof. by rewrite <- list_fmap_compose. Qed.

Lemma ring_masks (ring : list (point * point)) : ct_mask <$> (pub_of <$> ring) = encode ∘ snd <$> ring.
Proof. by rewrite <- list_fmap_compose. Qed.

Lemma tags : tag_key HASH_KEY_CLSAG_AGG_0 = agg_0_tag /\ tag_key HASH_KEY_CLSAG_AGG_1 = agg_1_tag /\
  tag_key HASH_KEY_CLSAG_ROUND = round_tag.
Proof. split_and!; vm_compute; reflexivity. Qed.

Lemma coded_mu_is t tag ring I D O : tag_key t = tag -> coded_mu t ring I D O = clsag_mu tag ring I D O.
Proof. intros <-. unfold coded_mu, clsag_mu, ring_bytes. by rewrite mu_bytes, ring_dests, ring_masks. Qed.

Lemma coded_next_is message ring I D O pc c r :
  clsag_next (coded_to_hash message ring O) I (8 ⊙ D) (coded_mu HASH_KEY_CLSAG_AGG_0 ring I D O) (coded_mu HASH_KEY_CLSAG_AGG_1 ring I D O) (less O pc) c r
  = ring_next message ring I D O pc c r.
Proof.
  destruct tags as (E0 & E1 & Er). rewrite (coded_mu_is _ _ ring I D O E0), (coded_mu_is _ _ ring I D O E1).
  unfold clsag_next, ring_next, coded_to_hash, ring_bytes, less. cbv zeta. cbn [fst snd]. by rewrite round_bytes, Er, ring_dests, ring_masks.
Qed.

Lemma coded_challenges_is message sig ring I D O : coded_challenges message sig ring I D O = ring_challenges message sig ring I D O.
Proof. apply challenges_from_map. intros. apply coded_next_is. Qed.

Lemma coded_last_is message sig ring I D O : coded_last message sig ring I D O = ring_last message sig ring I D O.
Proof. apply chain_map. intros. apply coded_next_is. Qed.

Lemma coded_clsag_is message sig ring I D O : coded_clsag message sig ring I D O = valid_clsag message sig ring I D O.
Proof. unfold coded_clsag, valid_clsag. by rewrite coded_challenges_is, coded_last_is. Qed.

(** C10: The verification of a CLSAG signature always ends with an answer, and accepts exactly this: keys, images and
    commitments that are encodings of points, as many responses as members of the ring, reduced scalars, images that are not
    neutral, and challenges that close around the ring without a zero. Each challenge is the hash of the round's tag, the keys and
    the commitments of the ring, the pseudo output, the message and the two points of the member; the two coefficients in them
    are hashes of their tags, the ring, both images and the pseudo output. *)
Theorem clsag_exact message sig pubs C_offset : clsag_scalars sig -> Forall ct_scalars pubs -> is_scalar C_offset ->
  exists b, verRctCLSAGSimple hash message sig pubs C_offset = Ok b /\
    (b = true <-> exists ring I D O, pubs = pub_of <$> ring /\ cl_I sig = encode I /\ cl_D sig = encode D /\ C_offset = encode O /\
       valid_clsag message sig ring I D O = true).
Proof.
  intros Hs' Hp' HO. destruct (verRctCLSAGSimple_other message sig pubs C_offset Hs' Hp' HO) as [(ring & I & D & O & -> & EI & ED & ->) | [E Hn]].
  - eexists. split; [by apply verRctCLSAGSimple_value |]. rewrite coded_clsag_is. split; [intros Hv; by exists ring, I, D, O |].
    intros (ring' & I' & D' & O' & Er & EI' & ED' & EO & Hv). rewrite EI in EI'. rewrite ED in ED'. apply encode_inj in EI', ED', EO. subst I' D' O'.
    replace ring with ring'; [done |]. apply pubs_inj. done.
  - exists false. split; [done |]. split; [done |]. intros (ring & I & D & O & ? & ? & ? & ? & _). by destruct (Hn ring I D O).
Qed.

(** ** The signer *)

Context {St : Type} (gen : nat -> St -> list Z * St) `{!RandomBytes gen}.

Section Signer.
Context (to_hash : key -> key -> list key) (I D : point) (mu_P mu_C : Z).
Context (Ip Dp : list ge_cached) (HI : odd_multiples Ip I) (HD : odd_multiples Dp D).
Context (HmP : 0 <= mu_P < sc_order) (HmC : 0 <= mu_C < sc_order).
Context (ring : list (point * point)) (l : nat).
Abbreviation next_challenge := (clsag_next to_hash I D mu_P mu_C).
Abbreviation loop fuel := (clsag_loop hash gen fuel to_hash Ip Dp (scalar mu_P) (scalar mu_C) (encode ∘ fst <$> ring) (encode ∘ snd <$> ring) l).

Lemma clsag_loop_step fuel i pc c s c1 g : ring !! i = Some pc -> i <> l -> 0 <= c < sc_order ->
  let c' := next_challenge pc c (drawn gen g) in
  let i' := ((i + 1) mod length ring)%nat in
  loop (S fuel) i (scalar c) s c1 g = loop fuel i' (scalar c') (<[i := scalar (drawn gen g)]> s) (if (i' =? 0)%nat then Some (scalar c') else c1) (next gen g).
Proof using All.
  intros Hi Hl Hc. cbv zeta. destruct pc as [P C]. cbn [clsag_loop]. rewrite (proj2 (Nat.eqb_neq i l)) by done.
  bind_with (skGen_value gen g). rewrite !list_lookup_fmap, Hi, length_fmap. cbn [fmap option_fmap option_map compose fst snd].
  bind_with (eq_refl (at_or_undef (Some (encode P)))). bind_with (eq_refl (at_or_undef (Some (encode C)))).
  bind_with (mu_c_value c mu_P Hc HmP). bind_with (mu_c_value c mu_C Hc HmC). ge_bind (precomp_value P). ge_bind (precomp_value C).
  bind_with (clsag_LR_value to_hash I D mu_P mu_C Ip Dp HI HD HmP HmC P C h h0 c (drawn gen g) H H0 Hc ltac:(by apply Z.mod_pos_bound)). done.
Qed.

Lemma drawn_range g : 0 <= drawn gen g < sc_order.
Proof. by apply Z.mod_pos_bound. Qed.

(** All other members, from the one after the signer. *)
Lemma clsag_loop_value c g : (l < length ring)%nat -> 0 <= c < sc_order ->
  let i := ((l + 1) mod length ring)%nat in
  exists before after g', length before = l /\ (l + 1 + length after = length ring)%nat /\
    Forall (fun r => 0 <= r < sc_order) before /\ Forall (fun r => 0 <= r < sc_order) after /\
    let c1 := chain next_challenge c (zip (drop (l + 1) ring) after) in
    loop (length ring) i (scalar c) (replicate (length ring) zero) (if (i =? 0)%nat then Some (scalar c) else None) g =
      Ok (scalar (chain next_challenge c1 (zip ring before)), (le_encode 32 <$> before) ++ zero :: (le_encode 32 <$> after), Some (scalar c1), g').
Proof using All.
  intros Hl Hc. cbv zeta.
  destruct (loop_value next_challenge sc_order (clsag_next_range to_hash I D mu_P mu_C) (le_encode 32) (fun g => (drawn gen g, next gen g)) (fun r => 0 <= r < sc_order)
    drawn_range ring l (fun fuel i c s c1 g => loop fuel i (scalar c) s (le_encode 32 <$> c1) g) (fun c s c1 g => Ok (scalar c, s, le_encode 32 <$> c1, g))
    ltac:(intros; cbn [clsag_loop]; by rewrite Nat.eqb_refl)) with (c := c) (x := zero) (g := g) as (before & after & g' & H1 & H2 & H3 & H4 & E); [| done | done |].
  { intros fuel i m c' s c1 g' Hi Hn Hc'. cbn [fst snd]. cbv zeta. rewrite (clsag_loop_step fuel i m c' s _ g' Hi Hn Hc'). cbv zeta. by destruct (_ =? 0)%nat. }
  exists before, after, g'. split_and!; [done | done | done | done |]. cbv zeta in E. etransitivity; [| exact E]. by destruct (_ =? 0)%nat.
Qed.
End Signer.


Lemma scalars_values rs : Forall (fun r => 0 <= r < sc_order) rs -> le_bytes <$> (le_encode 32 <$> rs) = rs /\ Forall reduced (le_encode 32 <$> rs).
Proof.
  intros Hr. split.
  - rewrite <- list_fmap_compose. transitivity (id <$> rs); [| apply list_fmap_id]. apply list_fmap_ext. intros i x Hx. cbn.
    by apply scalar_value, (Forall_lookup_1 _ _ _ _ Hr Hx).
  - apply Forall_fmap. eapply Forall_impl; [exact Hr |]. intros x Hx. by apply scalar_reduced.
Qed.

(** The response of the signer cancels the challenges. *)
Lemma clsag_cancel a c mu_P mu_C p z (q : point) : sc_order ⊙ q = gzero ->
  ((a - c * ((mu_C * z + (mu_P * p) mod sc_order) mod sc_order)) mod sc_order) ⊙ q
    ⊕ ((mu_P * c) mod sc_order) ⊙ (p ⊙ q) ⊕ ((mu_C * c) mod sc_order) ⊙ (z ⊙ q) = a ⊙ q.
Proof.
  intros Hq. rewrite (gmul_mod _ _ q) by done. rewrite !(gmul_mod _ _ (_ ⊙ q)) by first [by apply gmul_multiple | done].
  rewrite gmul_sub, (gmul_mul c), (gmul_mod _ _ q), gmul_add, (gmul_mod _ _ q), <- gmul_add, <- !gmul_mul, <- gmul_opp, <- !gmul_add by done.
  f_equal. ring.
Qed.

Lemma clsag_sign_value c a p z mu_P mu_C : reduced c -> reduced a -> reduced p -> reduced z -> reduced mu_P -> reduced mu_C ->
  clsag_sign c a p z mu_P mu_C =
    Ok (scalar ((le_bytes a - le_bytes c * ((le_bytes mu_C * le_bytes z + (le_bytes mu_P * le_bytes p) mod sc_order) mod sc_order)) mod sc_order)).
Proof.
  intros. unfold clsag_sign. rct_step. rct_step. rewrite sc_mulsub_value by auto with keys. by rewrite !le_bytes_reduced.
Qed.

Lemma clsag_prepare_value p z q g : reduced p -> reduced z ->
  clsag_prepare gen p z (encode q) g =
    Ok (encode (le_bytes p ⊙ q), encode (le_bytes z ⊙ q), scalar (drawn gen g), encode (drawn gen g ⊙ base), encode (drawn gen g ⊙ q), next gen g).
Proof.
  intros Hp Hz. unfold clsag_prepare. bind_with (skpkGen_value gen g). pose proof (drawn_reduced gen g) as Ha. bind_with (scalarmultKey_value q _ Ha).
  bind_with (scalarmultKey_value q _ Hp). bind_with (scalarmultKey_value q _ Hz). by rewrite le_bytes_drawn.
Qed.

Lemma less_keys O (ring : list (point * point)) : encode ∘ fst <$> (less O <$> ring) = encode ∘ fst <$> ring.
Proof. rewrite <- list_fmap_compose. by apply list_fmap_ext. Qed.

(** The signature that the signer produces: its responses close the ring. *)
Lemma CLSAG_Gen_value message ring l P C O p z g : ring !! l = Some (P, C) -> reduced p -> reduced z ->
  P = le_bytes p ⊙ base -> C ⊕ ⊖ O = le_bytes z ⊙ base ->
  let I := le_bytes p ⊙ Hp (encode P) in
  let D := le_bytes INV_EIGHT ⊙ (le_bytes z ⊙ Hp (encode P)) in
  exists sig g', CLSAG_Gen hash gen message (dest <$> (pub_of <$> ring)) p (encode ∘ snd <$> (less O <$> ring)) z (ct_mask <$> (pub_of <$> ring)) (encode O) l g = Ok (sig, g') /\
    clsag_scalars sig /\ cl_I sig = encode I /\ cl_D sig = encode D /\ length (cl_s sig) = length ring /\
    Forall reduced (cl_s sig) /\ reduced (cl_c1 sig) /\ coded_last message sig ring I D O = le_bytes (cl_c1 sig).
Proof.
  intros Hl Hp' Hz EP EC I D. set (n := length ring). assert (Hln : (l < n)%nat) by by eapply lookup_lt_Some.
  assert (ED : 8 ⊙ D = le_bytes z ⊙ Hp (encode P)) by apply inv_eight_order, gmul_multiple, Hp_order, _.
  destruct (precomp_value I) as (Ip & EIp & HIp). destruct (precomp_value (8 ⊙ D)) as (Dp & EDp & HDp).
  set (mP := coded_mu HASH_KEY_CLSAG_AGG_0 ring I D O). set (mC := coded_mu HASH_KEY_CLSAG_AGG_1 ring I D O).
  assert (HmP : 0 <= mP < sc_order) by by apply Hs_range. assert (HmC : 0 <= mC < sc_order) by by apply Hs_range.
  set (th := coded_to_hash message ring O). set (a := drawn gen g). set (q := Hp (encode P)) in *.
  set (c0 := Hs (concat (th (encode (a ⊙ base)) (encode (a ⊙ q))))). assert (Hc0 : 0 <= c0 < sc_order) by by apply Hs_range.
  destruct (clsag_loop_value th I (8 ⊙ D) mP mC Ip Dp HIp HDp HmP HmC (less O <$> ring) l c0 (next gen g)) as (before & after & g' & Lb & La & Fb & Fa & E);
    [by rewrite length_fmap | done |]. rewrite less_keys, <- ring_dests, length_fmap in E. rewrite length_fmap in La. cbv zeta in E.
  set (c1 := chain _ c0 _) in E. set (c := chain _ c1 _) in E.
  assert (Hc1 : 0 <= c1 < sc_order) by (apply chain_range; [by apply clsag_next_range | done]).
  assert (Hc : 0 <= c < sc_order) by (apply chain_range; [by apply clsag_next_range | done]).
  set (x := (a - c * ((mC * le_bytes z + (mP * le_bytes p) mod sc_order) mod sc_order)) mod sc_order).
  set (sig := Clsag ((le_encode 32 <$> before) ++ scalar x :: (le_encode 32 <$> after)) (scalar c1) (encode I) (encode D)).
  assert (Hx : 0 <= x < sc_order) by by apply Z.mod_pos_bound. destruct (scalars_values before Fb) as [Vb Rb], (scalars_values after Fa) as [Va Ra].
  assert (Rs : Forall reduced (cl_s sig)) by (apply Forall_app; split; [done | constructor; [by apply scalar_reduced | done]]).
  assert (Rc : reduced (scalar c1)) by by apply scalar_reduced. exists sig, g'. split_and!; [| | done | done | | done | done |].
  - unfold CLSAG_Gen. rewrite !length_fmap, !Nat.eqb_refl, (proj2 (Nat.ltb_lt _ _)) by done. cbv zeta. cbn [check_or_throw].
    do 3 (bind_with (eq_refl (Ok tt))). rewrite !list_lookup_fmap, Hl. bind_with (eq_refl (at_or_undef (Some (encode P)))).
    destruct (hash_to_p3_is hash (encode P)) as (h & Eh & Hh). bind_with Eh. bind_with (ge_p3_tobytes_is _ _ Hh). fold q.
    bind_with (clsag_prepare_value p z q g Hp' Hz). fold a. change (le_bytes p ⊙ q) with I. bind_with EIp. rewrite <- ED. bind_with EDp. rewrite ED at 1.
    bind_with (scalarmultKey_value (le_bytes z ⊙ q) INV_EIGHT ltac:(by_decide)). change (le_bytes INV_EIGHT ⊙ (le_bytes z ⊙ q)) with D.
    do 2 (match goal with |- mbind _ (hash_keys_to_scalar _ ?k) = _ => bind_with (hash_keys_value hash k) end).
    match goal with |- mbind _ (hash_keys_to_scalar _ ?k) = _ => bind_with (hash_keys_value hash k) end.
    bind_with E. bind_with (clsag_sign_value (scalar c) (scalar a) p z (scalar mP) (scalar mC) (scalar_reduced c Hc) (drawn_reduced gen g) Hp' Hz (scalar_reduced _ HmP) (scalar_reduced _ HmC)).
    bind_with (eq_refl (at_or_undef (Some (scalar c1)))). rewrite !scalar_value by first [done | apply drawn_range]. fold x.
    rewrite insert_app_r_alt by (rewrite length_fmap; lia). rewrite length_fmap, Lb, Nat.sub_diag. done.
  - split_and!; [eapply Forall_impl; [exact Rs | by intros ? [? _]] | apply Rc | apply encode_is_scalar | apply encode_is_scalar].
  - unfold sig. cbn [cl_s]. rewrite length_app. cbn [length]. rewrite !length_fmap. lia.
  - unfold coded_last, sig. cbn [cl_c1 cl_s]. rewrite fmap_app. cbn [fmap list_fmap]. rewrite Vb, Va, !scalar_value by done.
    apply chain_closed with (l := l) (m := less O (P, C)) (c0 := c0); [by rewrite list_lookup_fmap, Hl | done |].
    fold mP mC th c1 c. unfold clsag_next. cbv zeta. unfold less. cbn [fst snd]. rewrite EC, ED. rewrite EP at 1. unfold x. fold q. unfold I. fold q.
    rewrite !clsag_cancel by first [apply base_order | by apply Hp_order]. done.
Qed.


Lemma sub_commitments_value O ring : sub_commitments (pub_of <$> ring) (encode O) = Ok (encode ∘ snd <$> (less O <$> ring)).
Proof.
  induction ring as [| pc ring IH]; [done |]. cbn [fmap list_fmap sub_commitments]. bind_with (subKeys_value pc.2 O). by bind_with IH.
Qed.

Lemma forallb_reduced s : Forall reduced s -> forallb (fun x => le_bytes x <? sc_order) s = true.
Proof. intros Hs'. apply forallb_forall. intros x Hx. apply list_elem_of_In in Hx. apply Z.ltb_lt. by apply (proj1 (Forall_forall _ _) Hs' x Hx). Qed.

(** C11: The owner of a key of the ring, whose commitment hides the amount of the pseudo output, always gets a signature; its
    image is the one of the key, whatever the message and the ring; and the verification accepts it unless one of the two
    images is neutral or a challenge of the ring is zero. *)
Theorem clsag_accepted message ring l P C inSk a amount g : ring !! l = Some (P, C) -> reduced (dest inSk) -> is_scalar (ct_mask inSk) -> is_scalar a ->
  P = le_bytes (dest inSk) ⊙ base -> C = commitment (le_bytes (ct_mask inSk)) amount ->
  let O := commitment (le_bytes a) amount in
  let image := le_bytes (dest inSk) ⊙ Hp (encode P) in
  let z := (le_bytes (ct_mask inSk) - le_bytes a) mod sc_order in
  exists sig D g', proveRctCLSAGSimple hash gen message (pub_of <$> ring) inSk a (encode O) l g = Ok (sig, g') /\
    cl_I sig = encode image /\ cl_D sig = encode D /\ 8 ⊙ D = z ⊙ Hp (encode P) /\
    verRctCLSAGSimple hash message sig (pub_of <$> ring) (encode O) =
      Ok (negb (bool_decide (image = gzero)) && negb (bool_decide (z ⊙ Hp (encode P) = gzero)) && forallb nonzero (ring_challenges message sig ring image D O)).
Proof.
  intros Hl Hp' Hm Ha EP EC O image z. assert (Hz : reduced (scalar z)) by apply reduced_encode. assert (Ez : le_bytes (scalar z) = z) by apply le_bytes_reduced.
  assert (EO : C ⊕ ⊖ O = le_bytes (scalar z) ⊙ base).
  { rewrite Ez, EC. unfold z, O, commitment. rewrite gmul_mod, gneg_add, gmul_sub by first [apply base_order | done].
    rewrite <- !gadd_assoc. f_equal. by rewrite gadd_swap, gadd_neg_r, gadd_zero_r. }
  destruct (CLSAG_Gen_value message ring l P C O (dest inSk) (scalar z) g Hl Hp' Hz EP EO) as (sig & g' & E & Hsc & EI & ED & Hlen & Rs & Rc & Hlast).
  rewrite Ez in *. fold image in EI, Hlast. set (D := le_bytes INV_EIGHT ⊙ (z ⊙ Hp (encode P))) in *.
  assert (E8 : 8 ⊙ D = z ⊙ Hp (encode P)) by apply inv_eight_order, gmul_multiple, Hp_order, _.
  exists sig, D, g'. split_and!; [| done | done | done |].
  - unfold proveRctCLSAGSimple. rewrite length_fmap, (proj2 (Nat.leb_le _ _)) by (apply lookup_lt_Some in Hl; lia). bind_with (eq_refl (Ok tt)).
    bind_with (sub_commitments_value O ring). bind_with (sc_sub_correct _ _ Hm Ha). exact E.
  - rewrite (verRctCLSAGSimple_value message sig ring image D O Hsc EI ED). unfold coded_clsag. rewrite coded_challenges_is, Hlast, Z.eqb_refl, Hlen, Nat.eqb_refl, E8.
    rewrite (proj2 (Nat.leb_le _ _)) by (apply lookup_lt_Some in Hl; lia). rewrite (forallb_reduced _ Rs), (proj2 (Z.ltb_lt _ _)) by by apply reduced_range.
    by rewrite andb_true_r.
Qed.
End Proofs.

(** ** Witnesses *)

(** The owner of the key 1 with a commitment to 5, after another member. *)
Definition two_members : list (point * point) :=
  [(2 ⊙ base, base); (le_bytes one_key ⊙ base, commitment (le_bytes one_key) 5)].

Lemma clsag_accepted_witness : exists sig D g',
  let O := commitment (le_bytes (le_encode 32 3)) 5 in
  let P := le_bytes one_key ⊙ base in
  let image := le_bytes one_key ⊙ Hp cn_fast_hash (encode P) in
  let z := (le_bytes one_key - le_bytes (le_encode 32 3)) mod sc_order in
  proveRctCLSAGSimple cn_fast_hash constant_bytes (replicate 32 9) (pub_of <$> two_members) (Ctkey one_key one_key) (le_encode 32 3) (encode O) 1 6 = Ok (sig, g') /\
  verRctCLSAGSimple cn_fast_hash (replicate 32 9) sig (pub_of <$> two_members) (encode O) =
    Ok (negb (bool_decide (image = gzero)) && negb (bool_decide (z ⊙ Hp cn_fast_hash (encode P) = gzero)) &&
        forallb nonzero (ring_challenges cn_fast_hash (replicate 32 9) sig two_members image D O)).
Proof.
  destruct (clsag_accepted cn_fast_hash constant_bytes (replicate 32 9) two_members 1 _ _ (Ctkey one_key one_key) (le_encode 32 3) 5 6
    eq_refl one_key_reduced one_key_scalar ltac:(split; [apply le_encode_bytes | apply le_encode_length]) eq_refl eq_refl) as (sig & D & g' & E & _ & _ & _ & V).
  exists sig, D, g'. exact (conj E V).
Defined.

Lemma clsag_exact_witness : exists b,
  verRctCLSAGSimple cn_fast_hash (replicate 32 9) (Clsag [one_key; one_key] one_key (encode base) (encode base)) (pub_of <$> two_members) (encode base) = Ok b.
Proof.
  destruct (clsag_exact cn_fast_hash (replicate 32 9) (Clsag [one_key; one_key] one_key (encode base) (encode base)) (pub_of <$> two_members) (encode base))
    as (b & E & _).
  - split_and!; [do 2 (apply Forall_cons_2; [exact one_key_scalar |]); apply Forall_nil_2 | exact one_key_scalar | apply encode_is_scalar | apply encode_is_scalar].
  - do 2 (apply Forall_cons_2; [split; apply encode_is_scalar |]). apply Forall_nil_2.
  - apply encode_is_scalar.
  - exists b. exact E.
Defined.
