(* ===== verification/Mlsag.v ===== *)
(** MLSAG signatures of inputs ([src/ringct/rctSigs.cpp], with the default device).

    A matrix of keys is the list of its columns, as in the code. The vector that
    a round hashes is built from its rows: the message, three keys for each row
    with an image and two for each other row. *)
From stdpp Require Import base list numbers.
From S2P Require Import Prelude FastHash Limbs ScalarOps FieldOps CurveData GroupOps PointCodec HashPoint ScalarMult Random Keys TxFormat RctData RctOps Clsag.
Open Scope Z_scope.

(** Source: src/src/ringct/rctTypes.h:154-164 (mgSig) *)
Record mgSig := MgSig { mg_ss : list (list key); mg_cc : key; mg_II : list key }.

(** Source: src/src/ringct/rctTypes.h:104-109 (multisig_kLRki) *)
Record multisig_kLRki := Multisig_kLRki { ms_k : key; ms_L : key; ms_R : key; ms_ki : key }.

(** All columns have [rows] keys.
    Source: src/src/ringct/rctSigs.cpp:394-396 (MLSAG_Gen) *)
Definition rectangular (rows : nat) (m : list (list key)) : bool := forallb (fun col => (length col =? rows)%nat) m.

Section Operations.
Context (cn_fast_hash : list Z -> list Z).
Context {St : Type} (generate_random_bytes_thread_safe : nat -> St -> list Z * St).
Abbreviation skvGen := (skvGen generate_random_bytes_thread_safe).
Abbreviation skpkGen := (skpkGen generate_random_bytes_thread_safe).
Abbreviation hashToPoint := (hashToPoint cn_fast_hash).
Abbreviation hash_to_scalar := (hash_keys_to_scalar cn_fast_hash).

(** [a], [aG], [aHP] and [II].
    Source: src/src/device/device_default.cpp:371-377 (device_default::mlsag_prepare) *)
Definition mlsag_prepare (H xx : key) (g : St) : outcome (key * key * key * key * St) :=
  '(a, aG, g) ← skpkGen g;
  aHP ← scalarmultKey H a;
  im ← scalarmultKey H xx;
  Ok (a, aG, aHP, im, g).

(** The rows of the signer that have an image: [alpha], the keys to hash, the images and their precomputations.
    Source: src/src/ringct/rctSigs.cpp:414-430 (MLSAG_Gen) *)
Fixpoint prepare_ds (kLRki : option multisig_kLRki) (pk xx : list key) (g : St)
    : outcome (list key * list key * list key * list (list ge_cached) * St) :=
  match pk, xx with
  | p :: pk, x :: xx =>
      '(alpha, aG, aHP, im, g) ← (match kLRki with
        | Some k => Ok (ms_k k, ms_L k, ms_R k, ms_ki k, g)
        | None => Hi ← hashToPoint p; mlsag_prepare Hi x g
        end);
      ip ← precomp im;
      '(alphas, toHash, II, Ip, g) ← prepare_ds kLRki pk xx g;
      Ok (alpha :: alphas, p :: aG :: aHP :: toHash, im :: II, ip :: Ip, g)
  | _, _ => Ok ([], [], [], [], g)
  end.

(** The other rows of the signer.
    Source: src/src/ringct/rctSigs.cpp:432-436 (MLSAG_Gen) *)
Fixpoint prepare_nds (pk : list key) (g : St) : outcome (list key * list key * St) :=
  match pk with
  | [] => Ok ([], [], g)
  | p :: pk =>
      '(alpha, aG, g) ← skpkGen g;
      '(alphas, toHash, g) ← prepare_nds pk g;
      Ok (alpha :: alphas, p :: aG :: toHash, g)
  end.

(** The keys to hash of the rows with an image. The verification also checks that no key hashes to the neutral point, and
    returns false otherwise.
    Source: src/src/ringct/rctSigs.cpp:518-526 (MLSAG_Ver) *)
Fixpoint ds_rows (check : bool) (Ip : list (list ge_cached)) (pk ss : list key) (c_old : key) : outcome (option (list key)) :=
  match Ip, pk, ss with
  | [], _, _ => Ok (Some [])
  | ip :: Ip, p :: pk, s :: ss =>
      L ← addKeys2 s c_old p;
      Hi ← hashToPoint p;
      if check && key_eq Hi identity then Ok None else
      R ← addKeys3 s Hi c_old ip;
      rest ← ds_rows check Ip pk ss c_old;
      Ok (rest ← rest; Some (p :: L :: R :: rest))
  | _, _, _ => Undef
  end.

(** The keys to hash of the other rows.
    Source: src/src/ringct/rctSigs.cpp:527-531 (MLSAG_Ver) *)
Fixpoint nds_rows (pk ss : list key) (c_old : key) : outcome (list key) :=
  match pk, ss with
  | [], _ => Ok []
  | p :: pk, s :: ss => L ← addKeys2 s c_old p; rest ← nds_rows pk ss c_old; Ok (p :: L :: rest)
  | _, [] => Undef
  end.

(** The challenge after a column.
    Source: src/src/ringct/rctSigs.cpp:517-533 (MLSAG_Ver) *)
Definition mlsag_round (check : bool) (message : key) (Ip : list (list ge_cached)) (pk ss : list key) (c_old : key) : outcome (option key) :=
  ds ← ds_rows check Ip pk ss c_old;
  match ds with
  | None => Ok None
  | Some ds =>
      nds ← nds_rows (drop (length Ip) pk) (drop (length Ip) ss) c_old;
      c ← hash_to_scalar (message :: ds ++ nds);
      Ok (Some c)
  end.

(** The loop over the other columns: the challenge of the signer, the responses and [cc].
    Source: src/src/ringct/rctSigs.cpp:445-469 (MLSAG_Gen) *)
Fixpoint mlsag_loop (fuel : nat) (message : key) (Ip : list (list ge_cached)) (rows : nat) (pk : list (list key)) (index i : nat)
    (c_old : key) (ss : list (list key)) (cc : option key) (g : St) : outcome (key * list (list key) * option key * St) :=
  match fuel with
  | O => Undef
  | S fuel =>
      if (i =? index)%nat then Ok (c_old, ss, cc, g) else
      '(si, g) ← skvGen rows g;
      pki ← at_or_undef (pk !! i);
      c ← mlsag_round false message Ip pki si c_old;
      c ← at_or_undef c;
      let i' := ((i + 1) mod length pk)%nat in
      mlsag_loop fuel message Ip rows pk index i' c (<[i := si]> ss) (if (i' =? 0)%nat then Some c else cc) g
  end.

(** Source: src/src/device/device_default.cpp:398-400 (device_default::mlsag_sign) *)
Fixpoint sign_rows (c : key) (xx alpha : list key) : outcome (list key) :=
  match xx, alpha with
  | x :: xx, a :: alpha => s ← sc_mulsub c x a; ss ← sign_rows c xx alpha; Ok (s :: ss)
  | _, _ => Ok []
  end.

(** Source: src/src/device/device_default.cpp:393-402 (device_default::mlsag_sign) *)
Definition mlsag_sign (c : key) (xx alpha : list key) (rows dsRows : nat) (ss : list key) : outcome (list key) :=
  _ ← check_or_throw (dsRows <=? rows)%nat "dsRows greater than rows";
  _ ← check_or_throw (length xx =? rows)%nat "xx size does not match rows";
  _ ← check_or_throw (length alpha =? rows)%nat "alpha size does not match rows";
  _ ← check_or_throw (length ss =? rows)%nat "ss size does not match rows";
  sign_rows c xx alpha.

(** [kLRki] comes with [mscout], which receives the challenge of the signer. There are two columns at least, so the loop
    runs and [c] is the last [c_old].
    Source: src/src/ringct/rctSigs.cpp:387-474 (MLSAG_Gen) *)
Definition MLSAG_Gen (message : key) (pk : list (list key)) (xx : list key) (kLRki : option multisig_kLRki) (index dsRows : nat) (g : St)
    : outcome (mgSig * key * St) :=
  let cols := length pk in
  _ ← check_or_throw (2 <=? cols)%nat "Error! What is c if cols = 1!";
  _ ← check_or_throw (index <? cols)%nat "Index out of range";
  pk0 ← at_or_undef (pk !! 0%nat);
  let rows := length pk0 in
  _ ← check_or_throw (1 <=? rows)%nat "Empty pk";
  _ ← check_or_throw (rectangular rows pk) "pk is not rectangular";
  _ ← check_or_throw (length xx =? rows)%nat "Bad xx size";
  _ ← check_or_throw (dsRows <=? rows)%nat "Bad dsRows size";
  _ ← check_or_throw (negb (bool_decide (is_Some kLRki)) || (dsRows =? 1)%nat) "Multisig requires exactly 1 dsRows";
  pkI ← at_or_undef (pk !! index);
  '(alpha_ds, toHash_ds, II, Ip, g) ← prepare_ds kLRki (take dsRows pkI) (take dsRows xx) g;
  '(alpha_nds, toHash_nds, g) ← prepare_nds (drop dsRows pkI) g;
  c_old ← hash_to_scalar (message :: toHash_ds ++ toHash_nds);
  let i := ((index + 1) mod cols)%nat in
  '(c, ss, cc, g) ← mlsag_loop cols message Ip rows pk index i c_old (replicate cols (replicate rows zero)) (if (i =? 0)%nat then Some c_old else None) g;
  ssI ← at_or_undef (ss !! index);
  ssI ← mlsag_sign c xx (alpha_ds ++ alpha_nds) rows dsRows ssI;
  cc ← at_or_undef cc;
  Ok (MgSig (<[index := ssI]> ss) cc II, c, g).

(** Source: src/src/ringct/rctSigs.cpp:509-511 (MLSAG_Ver) *)
Fixpoint precomp_all (II : list key) : outcome (list (list ge_cached)) :=
  match II with [] => Ok [] | i :: II => ip ← precomp i; Ip ← precomp_all II; Ok (ip :: Ip) end.

(** Source: src/src/ringct/rctSigs.cpp:500-502 (MLSAG_Ver) *)
Fixpoint all_columns_checked (ss : list (list key)) : outcome bool :=
  match ss with [] => Ok true | col :: ss => ok ← all_checked col; check_or_false ok (all_columns_checked ss) end.

(** The last challenge, or nothing when the function returns false.
    Source: src/src/ringct/rctSigs.cpp:516-535 (MLSAG_Ver) *)
Fixpoint ver_mlsag_loop (message : key) (Ip : list (list ge_cached)) (pk ss : list (list key)) (c_old : key) : outcome (option key) :=
  match pk, ss with
  | [], _ => Ok (Some c_old)
  | pki :: pk, si :: ss =>
      c ← mlsag_round true message Ip pki si c_old;
      match c with None => Ok None | Some c => ver_mlsag_loop message Ip pk ss c end
  | _, [] => Undef
  end.

(** Source: src/src/ringct/rctSigs.cpp:484-538 (MLSAG_Ver) *)
Definition MLSAG_Ver (message : key) (pk : list (list key)) (rv : mgSig) (dsRows : nat) : outcome bool :=
  let cols := length pk in
  check_or_false (2 <=? cols)%nat (
  pk0 ← at_or_undef (pk !! 0%nat);
  let rows := length pk0 in
  check_or_false (1 <=? rows)%nat (
  check_or_false (rectangular rows pk) (
  check_or_false (length (mg_II rv) =? dsRows)%nat (
  check_or_false (length (mg_ss rv) =? cols)%nat (
  check_or_false (rectangular rows (mg_ss rv)) (
  check_or_false (dsRows <=? rows)%nat (
  ss_ok ← all_columns_checked (mg_ss rv);
  check_or_false ss_ok (
  cc_ok ← checked (mg_cc rv);
  check_or_false cc_ok (
  Ip ← precomp_all (mg_II rv);
  c ← ver_mlsag_loop message Ip pk (mg_ss rv) (mg_cc rv);
  match c with
  | None => Ok false
  | Some c_old => c ← sc_sub c_old (mg_cc rv); Ok (sc_isnonzero c =? 0)
  end))))))))).

(** ** The inputs of a transaction *)

(** The columns of one key and one difference of commitments.
    Source: src/src/ringct/rctSigs.cpp:775-778 (proveRctMGSimple) *)
Definition simple_matrix (pubs : list ctkey) (C : list key) : list (list key) := zip_with (fun pub c => [dest pub; c]) pubs C.

(** Source: src/src/ringct/rctSigs.cpp:762-782 (proveRctMGSimple) *)
Definition proveRctMGSimple (message : key) (pubs : list ctkey) (inSk : ctkey) (a Cout : key) (kLRki : option multisig_kLRki) (index : nat) (g : St)
    : outcome (mgSig * key * St) :=
  _ ← check_or_throw (1 <=? length pubs)%nat "Empty pubs";
  sk1 ← sc_sub (ct_mask inSk) a;
  C ← sub_commitments pubs Cout;
  MLSAG_Gen message (simple_matrix pubs C) [dest inSk; sk1] kLRki index 1 g.

(** Source: src/src/ringct/rctSigs.cpp:869-889 (verRctMGSimple_v1) *)
Definition verRctMGSimple_v1 (message : key) (mg : mgSig) (pubs : list ctkey) (C : key) : outcome bool :=
  catch_false (check_or_false (1 <=? length pubs)%nat (
  M ← sub_commitments pubs C;
  MLSAG_Ver message (simple_matrix pubs M) mg 1)).

(** Nothing when a commitment is not a point.
    Source: src/src/ringct/rctSigs.cpp:908-915 (verRctMGSimple_v2) *)
Fixpoint sub_cached (pubs : list ctkey) (Ccached : ge_cached) : outcome (option (list key)) :=
  match pubs with
  | [] => Ok (Some [])
  | pub :: pubs =>
      p3 ← ge_frombytes_vartime (ct_mask pub);
      match p3 with
      | None => Ok None
      | Some p3 =>
          p1 ← ge_sub p3 Ccached;
          p3 ← ge_p1p1_to_p3 p1;
          m ← ge_p3_tobytes p3;
          rest ← sub_cached pubs Ccached;
          Ok (rest ← rest; Some (m :: rest))
      end
  end.

(** Source: src/src/ringct/rctSigs.cpp:891-920 (verRctMGSimple_v2) *)
Definition verRctMGSimple_v2 (message : key) (mg : mgSig) (pubs : list ctkey) (C : key) : outcome bool :=
  catch_false (check_or_false (1 <=? length pubs)%nat (
  Cp3 ← ge_frombytes_vartime C;
  match Cp3 with
  | None => Ok false
  | Some Cp3 =>
      Ccached ← ge_p3_to_cached Cp3;
      M ← sub_cached pubs Ccached;
      match M with None => Ok false | Some M => MLSAG_Ver message (simple_matrix pubs M) mg 1 end
  end)).

(** Source: src/src/ringct/rctSigs.cpp:861-867 (verRctMGSimple) *)
Definition verRctMGSimple (message : key) (mg : mgSig) (pubs : list ctkey) (C : key) (v2 : bool) : outcome bool :=
  if v2 then verRctMGSimple_v2 message mg pubs C else verRctMGSimple_v1 message mg pubs C.

(** The last row of a column: the commitments of the inputs less those of the outputs and the fee.
    Source: src/src/ringct/rctSigs.cpp:841-853 (verRctMG) *)
Definition last_row (col : list ctkey) (outPk : list ctkey) (txnFeeKey : key) : outcome key :=
  sum ← foldl (fun sum k => sum ← sum; addKeys sum (ct_mask k)) (Ok identity) col;
  sum ← foldl (fun sum k => sum ← sum; subKeys sum (ct_mask k)) (Ok sum) outPk;
  subKeys sum txnFeeKey.

(** Source: src/src/ringct/rctSigs.cpp:841-853 (verRctMG) *)
Fixpoint full_matrix (pubs : list (list ctkey)) (outPk : list ctkey) (txnFeeKey : key) : outcome (list (list key)) :=
  match pubs with
  | [] => Ok []
  | col :: pubs => m ← last_row col outPk txnFeeKey; M ← full_matrix pubs outPk txnFeeKey; Ok (((dest <$> col) ++ [m]) :: M)
  end.

(** Source: src/src/ringct/rctSigs.cpp:822-855 (verRctMG) *)
Definition verRctMG (mg : mgSig) (pubs : list (list ctkey)) (outPk : list ctkey) (txnFeeKey message : key) : outcome bool :=
  let cols := length pubs in
  check_or_false (1 <=? cols)%nat (
  pubs0 ← at_or_undef (pubs !! 0%nat);
  let rows := length pubs0 in
  check_or_false (1 <=? rows)%nat (
  check_or_false (forallb (fun col : list ctkey => (length col =? rows)%nat) pubs) (
  M ← full_matrix pubs outPk txnFeeKey;
  MLSAG_Ver message M mg rows))).

(** The sum of the masks of the inputs less those of the outputs.
    Source: src/src/ringct/rctSigs.cpp:735-749 (proveRctMG) *)
Definition last_secret (inSk outSk : list ctkey) : outcome key :=
  sum ← foldl (fun sum k => sum ← sum; sc_add sum (ct_mask k)) (Ok zero) inSk;
  foldl (fun sum k => sum ← sum; sc_sub sum (ct_mask k)) (Ok sum) outSk.

(** Source: src/src/ringct/rctSigs.cpp:706-753 (proveRctMG) *)
Definition proveRctMG (message : key) (pubs : list (list ctkey)) (inSk outSk outPk : list ctkey) (kLRki : option multisig_kLRki) (index : nat)
    (txnFeeKey : key) (g : St) : outcome (mgSig * key * St) :=
  let cols := length pubs in
  _ ← check_or_throw (1 <=? cols)%nat "Empty pubs";
  pubs0 ← at_or_undef (pubs !! 0%nat);
  let rows := length pubs0 in
  _ ← check_or_throw (1 <=? rows)%nat "Empty pubs";
  _ ← check_or_throw (forallb (fun col : list ctkey => (length col =? rows)%nat) pubs) "pubs is not rectangular";
  _ ← check_or_throw (length inSk =? rows)%nat "Bad inSk size";
  _ ← check_or_throw (length outSk =? length outPk)%nat "Bad outSk/outPk size";
  M ← full_matrix pubs outPk txnFeeKey;
  sk ← last_secret inSk outSk;
  MLSAG_Gen message M ((dest <$> inSk) ++ [sk]) kLRki index rows g.
End Operations.
