(* ===== verification/MlsagProofs.v ===== *)
(** The theorems about MLSAG signatures: what the verification computes on
    points, that it accepts what the signer produces, and that its two
    generations agree. *)
From stdpp Require Import base list numbers.
From S2P Require Import Prelude FastHash Limbs ScalarOps FieldOps CurveData Groups Edwards Curve25519 GroupOps PointCodec HashPoint ScalarMult GroupOrder Random Keys KeyProofs TxFormat RctData RctPoints RctOps RctProofs RingChain Clsag ClsagProofs Mlsag Signatures Keccak.
Open Scope Z_scope.

Abbreviation enc_col := (fmap (M := list) (encode : point -> key)).
Abbreviation enc_rs := (fmap (M := list) (le_encode 32)).
Abbreviation values := (fmap (M := list) le_bytes).
Abbreviation in_range := (fun r => 0 <= r < sc_order).

Section Proofs.
Context (hash : list Z -> list Z) `{!FastHash hash}.
Abbreviation Hs := (Hs hash).
Abbreviation Hp := (Hp hash).

(** ** One column *)

(** The keys that a column hashes under a challenge, with its responses. *)
Fixpoint ds_terms (Is : list point) (col : list point) (rs : list Z) (c : Z) : list key :=
  match Is, col, rs with
  | im :: Is, P :: col, r :: rs =>
      encode P :: encode (c ⊙ P ⊕ r ⊙ base) :: encode (r ⊙ Hp (encode P) ⊕ c ⊙ im) :: ds_terms Is col rs c
  | _, _, _ => []
  end.

Fixpoint nds_terms (col : list point) (rs : list Z) (c : Z) : list key :=
  match col, rs with
  | P :: col, r :: rs => encode P :: encode (c ⊙ P ⊕ r ⊙ base) :: nds_terms col rs c
  | _, _ => []
  end.

(** The challenge after a column. *)
Definition mlsag_next (message : key) (Is : list point) (col : list point) (c : Z) (rs : list Z) : Z :=
  Hs (concat (message :: ds_terms Is col rs c ++ nds_terms (drop (length Is) col) (drop (length Is) rs) c)).

(** A key of the rows with an image hashes to the neutral point. *)
Definition bad_column (n : nat) (col : list point) : bool := existsb (fun P => bool_decide (Hp (encode P) = gzero)) (take n col).

Lemma mlsag_next_range message Is col c rs : 0 <= mlsag_next message Is col c rs < sc_order.
Proof. apply Hs_range. Qed.

Lemma ds_rows_value check Ip Is col rs c : Forall2 odd_multiples Ip Is -> (length Is <= length col)%nat -> length rs = length col ->
  Forall in_range rs -> 0 <= c < sc_order ->
  ds_rows hash check Ip (encode <$> col) (le_encode 32 <$> rs) (scalar c) =
    Ok (if check && bad_column (length Is) col then None else Some (ds_terms Is col rs c)).
Proof.
  intros HI. revert col rs. induction HI as [| ip im Ip Is Hip _ IH]; intros col rs Hl Hr Fr Hc.
  { cbn [ds_rows ds_terms length]. unfold bad_column. rewrite take_0. cbn [existsb]. by rewrite andb_false_r. }
  destruct col as [| P col]; [cbn in Hl; lia |]. destruct rs as [| r rs]; [done |]. apply Forall_cons in Fr as [Fr0 Fr]. cbn [length] in Hl. injection Hr as Hr.
  cbn [fmap list_fmap ds_rows]. pose proof (reduced_slide _ (scalar_reduced r Fr0)) as S1. pose proof (reduced_slide _ (scalar_reduced c Hc)) as S2.
  bind_with (addKeys2_value (scalar r) (scalar c) P S1 S2). bind_with (hashToPoint_value hash (encode P)). rewrite key_eq_identity.
  unfold bad_column. cbn [take length existsb]. fold (bad_column (length Is) col).
  destruct (check && bool_decide (Hp (encode P) = gzero)) eqn:Eb.
  { apply andb_true_iff in Eb as [-> ->]. done. }
  bind_with (addKeys3_value (scalar r) (Hp (encode P)) (scalar c) ip im S1 S2 Hip). bind_with (IH col rs ltac:(lia) Hr Fr Hc).
  rewrite andb_orb_distrib_r, Eb. cbn [orb]. rewrite !scalar_value by done. by destruct (check && bad_column (length Is) col).
Qed.

Lemma nds_rows_value col rs c : length rs = length col -> Forall in_range rs -> 0 <= c < sc_order ->
  nds_rows (encode <$> col) (le_encode 32 <$> rs) (scalar c) = Ok (nds_terms col rs c).
Proof.
  revert rs. induction col as [| P col IH]; intros [| r rs] Hr Fr Hc; try done. apply Forall_cons in Fr as [Fr0 Fr]. injection Hr as Hr.
  cbn [fmap list_fmap nds_rows]. bind_with (addKeys2_value (scalar r) (scalar c) P (reduced_slide _ (scalar_reduced r Fr0)) (reduced_slide _ (scalar_reduced c Hc))).
  bind_with (IH rs Hr Fr Hc). by rewrite !scalar_value.
Qed.

Lemma mlsag_round_value check message Ip Is col rs c : Forall2 odd_multiples Ip Is -> (length Is <= length col)%nat -> length rs = length col ->
  Forall in_range rs -> 0 <= c < sc_order ->
  mlsag_round hash check message Ip (encode <$> col) (le_encode 32 <$> rs) (scalar c) =
    Ok (if check && bad_column (length Is) col then None else Some (scalar (mlsag_next message Is col c rs))).
Proof.
  intros HI Hl Hr Fr Hc. unfold mlsag_round. bind_with (ds_rows_value check Ip Is col rs c HI Hl Hr Fr Hc).
  destruct (check && bad_column (length Is) col); [done |]. rewrite (Forall2_length _ _ _ HI), <- !fmap_drop.
  bind_with (nds_rows_value (drop (length Is) col) (drop (length Is) rs) c ltac:(rewrite !length_drop; lia) (Forall_drop _ _ _ Fr) Hc).
  match goal with |- mbind _ (hash_keys_to_scalar _ ?k) = _ => bind_with (hash_keys_value hash k) end. done.
Qed.

(** ** The verification *)

Lemma precomp_all_value Is : exists Ip, precomp_all (encode <$> Is) = Ok Ip /\ Forall2 odd_multiples Ip Is.
Proof.
  induction Is as [| im Is (Ip & E & HI)]; [by exists [] |]. destruct (precomp_value im) as (ip & Ei & Hi). exists (ip :: Ip).
  split; [| by constructor]. cbn [fmap list_fmap precomp_all]. bind_with Ei. by bind_with E.
Qed.

Lemma all_columns_checked_value ss : Forall (Forall is_scalar) ss ->
  all_columns_checked ss = Ok (forallb (forallb (fun x => le_bytes x <? sc_order)) ss).
Proof.
  induction 1 as [| col ss Hc _ IH]; [done |]. cbn [all_columns_checked forallb]. bind_with (all_checked_value col Hc).
  by destruct (forallb _ col).
Qed.

Definition column_ok (rows : nat) (rs : list Z) : Prop := length rs = rows /\ Forall in_range rs.

Lemma ver_mlsag_loop_value message Ip Is rows cols rss c : Forall2 odd_multiples Ip Is -> (length Is <= rows)%nat ->
  Forall (fun col : list point => length col = rows) cols -> Forall (column_ok rows) rss -> length rss = length cols -> 0 <= c < sc_order ->
  ver_mlsag_loop hash message Ip (enc_col <$> cols) (enc_rs <$> rss) (scalar c) =
    Ok (if existsb (bad_column (length Is)) cols then None else Some (scalar (chain (mlsag_next message Is) c (zip cols rss)))).
Proof.
  intros HI Hrows Hcols. revert rss c. induction Hcols as [| col cols Hcol _ IH]; intros [| rs rss] c Fr Hl Hc; try done.
  apply Forall_cons in Fr as [[Hrs Fr0] Fr]. injection Hl as Hl. cbn [fmap list_fmap ver_mlsag_loop existsb zip zip_with].
  bind_with (mlsag_round_value true message Ip Is col rs c HI ltac:(lia) ltac:(lia) Fr0 Hc). cbn [andb].
  destruct (bad_column (length Is) col); [done |]. cbn [orb]. rewrite chain_cons. apply IH; [done | done | apply mlsag_next_range].
Qed.

(** The responses of a signature are reduced and as many as the keys. *)
Definition responses_ok (rows cols : nat) (ss : list (list key)) : bool :=
  (length ss =? cols)%nat && rectangular rows ss && forallb (forallb (fun x => le_bytes x <? sc_order)) ss.

(** What an MLSAG signature promises: the challenges close around the columns. *)
Definition valid_mlsag (message : key) (sig : mgSig) (cols : list (list point)) (Is : list point) : bool :=
  responses_ok (length (hd [] cols)) (length cols) (mg_ss sig) && (le_bytes (mg_cc sig) <? sc_order) && negb (existsb (bad_column (length Is)) cols) &&
  (chain (mlsag_next message Is) (le_bytes (mg_cc sig)) (zip cols (values <$> mg_ss sig)) =? le_bytes (mg_cc sig)).

Lemma columns_reduced rows ss : Forall (Forall is_scalar) ss -> rectangular rows ss = true -> forallb (forallb (fun x => le_bytes x <? sc_order)) ss = true ->
  Forall (column_ok rows) (values <$> ss) /\ ss = enc_rs <$> (values <$> ss).
Proof.
  induction 1 as [| col ss Hc _ IH]; intros Hr Hb; [done |]. cbn [rectangular forallb] in Hr, Hb. apply andb_true_iff in Hr as [Hr0 Hr], Hb as [Hb0 Hb].
  apply Nat.eqb_eq in Hr0. destruct (IH Hr Hb) as [F E]. destruct (reduced_responses col Hc Hb0) as [F0 E0]. cbn [fmap list_fmap]. split.
  - constructor; [split; [by rewrite length_fmap | done] | done].
  - f_equal; done.
Qed.

Lemma MLSAG_Ver_value message sig cols Is : (2 <= length cols)%nat -> (1 <= length (hd [] cols))%nat ->
  Forall (fun col : list point => length col = length (hd [] cols)) cols -> (length Is <= length (hd [] cols))%nat ->
  Forall (Forall is_scalar) (mg_ss sig) -> is_scalar (mg_cc sig) -> mg_II sig = encode <$> Is ->
  MLSAG_Ver hash message (enc_col <$> cols) sig (length Is) = Ok (valid_mlsag message sig cols Is).
Proof.
  intros H2 H1 Hrect HIs Hss Hcc EI. unfold MLSAG_Ver, valid_mlsag, responses_ok. rewrite length_fmap, EI, length_fmap. cbv zeta.
  rewrite (proj2 (Nat.leb_le _ _) H2). cbn [check_or_false]. destruct cols as [| col cols]; [cbn in H2; lia |]. cbn [hd] in *.
  bind_with (eq_refl (at_or_undef (Some (encode <$> col)))). rewrite length_fmap, (proj2 (Nat.leb_le _ _) H1), Nat.eqb_refl. cbn [check_or_false].
  assert (Er : rectangular (length col) (enc_col <$> col :: cols) = true).
  { apply forallb_forall. intros k Hk. apply list_elem_of_In, list_elem_of_fmap in Hk as (k' & -> & Hk). rewrite length_fmap. apply Nat.eqb_eq. by apply (proj1 (Forall_forall _ _) Hrect). }
  rewrite Er. cbn [check_or_false]. destruct (Nat.eqb_spec (length (mg_ss sig)) (length (col :: cols))) as [El |]; [| done]. cbn [check_or_false andb].
  destruct (rectangular (length col) (mg_ss sig)) eqn:Ers; [| done]. cbn [check_or_false andb]. rewrite (proj2 (Nat.leb_le _ _) HIs). cbn [check_or_false].
  bind_with (all_columns_checked_value _ Hss). destruct (forallb _ (mg_ss sig)) eqn:Eb; [| done]. cbn [check_or_false andb].
  bind_with (checked_value _ Hcc). destruct (Z.ltb_spec (le_bytes (mg_cc sig)) sc_order) as [Hc |]; [| done]. cbn [check_or_false andb].
  assert (Hred : reduced (mg_cc sig)) by done. pose proof (reduced_range _ Hred) as Hcr. destruct (columns_reduced _ _ Hss Ers Eb) as [Fr Es].
  ge_bind (precomp_all_value Is). rewrite (reduced_scalar_of _ Hred) at 1. rewrite Es at 1.
  bind_with (ver_mlsag_loop_value message h Is (length col) (col :: cols) _ _ H HIs Hrect Fr ltac:(by rewrite length_fmap) Hcr).
  destruct (existsb _ _); [done |]. cbn [negb andb]. apply ver_clsag_final; [| done]. apply chain_range; [apply mlsag_next_range | done].
Qed.


(** ** The two generations of the verification of an input *)

Lemma sub_agree O Oc pubs : cached_is Oc O -> Forall ct_scalars pubs ->
  (exists M, sub_commitments pubs (encode O) = Ok M /\ sub_cached pubs Oc = Ok (Some M)) \/
  (exists e, sub_commitments pubs (encode O) = Throw e) /\ sub_cached pubs Oc = Ok None.
Proof.
  intros HO. induction 1 as [| [d m] pubs [_ Hm] _ IH]; [left; by exists [] |]. cbn [sub_commitments sub_cached ct_mask].
  destruct (load_point_cases m Hm) as [[C ->] | [[e E] Hn]].
  - ge_bind (decode_encode C). ge_bind (ge_sub_is h Oc C O H HO). ge_bind (ge_p1p1_to_p3_is h0 _ H0). bind_with (ge_p3_tobytes_is h1 _ H1).
    bind_with (subKeys_value C O). destruct IH as [(M & E1 & E2) | [[e E1] E2]]; [left; exists (encode (C ⊕ ⊖ O) :: M) | right].
    + split; [by bind_with E1 | by bind_with E2].
    + split; [exists e; by rewrite E1 | by bind_with E2].
  - right. destruct (decode_cases m Hm) as [[C ->] | [E' _]]; [by destruct (Hn C) |]. split; [| by bind_with E'].
    exists e. unfold subKeys. ge_bind (load_point_value O). by rewrite E.
Qed.

Lemma mg_same message mg pubs C : Forall ct_scalars pubs -> is_scalar C ->
  verRctMGSimple_v1 hash message mg pubs C = verRctMGSimple_v2 hash message mg pubs C.
Proof.
  intros Hp' HC. unfold verRctMGSimple_v1, verRctMGSimple_v2. destruct pubs as [| pub pubs]; [done |]. cbn [length Nat.leb check_or_false].
  destruct (load_point_cases C HC) as [[O ->] | [[e E] Hn]].
  - ge_bind (decode_encode O). ge_bind (ge_p3_to_cached_is h O H).
    destruct (sub_agree O h0 (pub :: pubs) H0 Hp') as [(M & E1 & E2) | [[e E1] E2]]; [bind_with E1; by bind_with E2 | rewrite E1; by bind_with E2].
  - destruct (decode_cases C HC) as [[O ->] | [E' _]]; [by destruct (Hn O) |]. bind_with E'. cbn [sub_commitments]. unfold subKeys. by rewrite E.
Qed.

(** The two generations of the verification of an input with an MLSAG signature give the same answer on all keys,
    signatures and messages. *)
Theorem mg_generations_agree message mg pubs C : Forall ct_scalars pubs -> is_scalar C ->
  verRctMGSimple_v1 hash message mg pubs C = verRctMGSimple_v2 hash message mg pubs C.
Proof. apply mg_same. Qed.

(** ** The signer *)

(** The images of keys with their secrets. *)
Definition images (col : list point) (xs : list Z) : list point := zip_with (fun P x => x ⊙ Hp (encode P)) col xs.

(** The keys that the signer hashes first, for its nonces. *)
Fixpoint start_ds (col : list point) (alphas : list Z) : list key :=
  match col, alphas with
  | P :: col, a :: alphas => encode P :: encode (a ⊙ base) :: encode (a ⊙ Hp (encode P)) :: start_ds col alphas
  | _, _ => []
  end.

Fixpoint start_nds (col : list point) (alphas : list Z) : list key :=
  match col, alphas with
  | P :: col, a :: alphas => encode P :: encode (a ⊙ base) :: start_nds col alphas
  | _, _ => []
  end.

(** The responses of the signer. *)
Definition responses (c : Z) (alphas xs : list Z) : list Z := zip_with (fun a x => (a - c * x) mod sc_order) alphas xs.

Abbreviation secret_of := (fun (P : point) (x : Z) => P = x ⊙ base).

Lemma ds_terms_closed c colA colB xsA alphas rs : Forall2 secret_of colA xsA -> length alphas = length colA ->
  ds_terms (images colA xsA) (colA ++ colB) (responses c alphas xsA ++ rs) c = start_ds colA alphas.
Proof.
  intros HA. revert alphas. induction HA as [| P x colA xsA EP _ IH]; intros [| a alphas] Hl; try done. injection Hl as Hl.
  unfold images, responses in *. cbn [zip_with app ds_terms start_ds]. rewrite (IH alphas Hl). rewrite (gadd_comm (_ ⊙ Hp _)).
  rewrite response_cancels by by apply Hp_order. do 2 f_equal. f_equal. rewrite EP at 1. apply response_cancels, base_order.
Qed.

Lemma nds_terms_closed c col xs alphas : Forall2 secret_of col xs -> length alphas = length col ->
  nds_terms col (responses c alphas xs) c = start_nds col alphas.
Proof.
  intros HA. revert alphas. induction HA as [| P x col xs EP _ IH]; intros [| a alphas] Hl; try done. injection Hl as Hl.
  unfold responses in *. cbn [zip_with nds_terms start_nds]. rewrite (IH alphas Hl). do 2 f_equal. f_equal. rewrite EP at 1. apply response_cancels, base_order.
Qed.

Lemma mlsag_next_closed message c colA colB xsA xsB alA alB : Forall2 secret_of colA xsA -> Forall2 secret_of colB xsB ->
  length alA = length colA -> length alB = length colB ->
  mlsag_next message (images colA xsA) (colA ++ colB) c (responses c alA xsA ++ responses c alB xsB) =
    Hs (concat (message :: start_ds colA alA ++ start_nds colB alB)).
Proof.
  intros HA HB LA LB. unfold mlsag_next. rewrite ds_terms_closed by done. pose proof (Forall2_length _ _ _ HA) as L.
  assert (E : length (images colA xsA) = length colA) by (unfold images; rewrite length_zip_with; lia). rewrite E, drop_app_length.
  rewrite drop_app_length' by (unfold responses; rewrite length_zip_with; lia). by rewrite nds_terms_closed.
Qed.

Context {St : Type} (gen : nat -> St -> list Z * St) `{!RandomBytes gen}.

Lemma mlsag_prepare_value q x g : reduced x ->
  mlsag_prepare gen (encode q) x g = Ok (scalar (drawn gen g), encode (drawn gen g ⊙ base), encode (drawn gen g ⊙ q), encode (le_bytes x ⊙ q), next gen g).
Proof.
  intros Hx. unfold mlsag_prepare. bind_with (skpkGen_value gen g). pose proof (drawn_reduced gen g) as Ha. bind_with (scalarmultKey_value q _ Ha).
  bind_with (scalarmultKey_value q _ Hx). by rewrite le_bytes_drawn.
Qed.

Lemma prepare_ds_value col xx g : length xx = length col -> Forall reduced xx ->
  exists alphas Ip g', prepare_ds hash gen None (enc_col col) xx g = Ok (enc_rs alphas, start_ds col alphas, enc_col (images col (values xx)), Ip, g') /\
    length alphas = length col /\ Forall in_range alphas /\ Forall2 odd_multiples Ip (images col (values xx)).
Proof.
  revert xx g. induction col as [| P col IH]; intros [| x xx] g Hl Hx; try done; [by exists [], [], g |]. injection Hl as Hl. apply Forall_cons in Hx as [Hx0 Hx].
  destruct (IH xx (next gen g) Hl Hx) as (alphas & Ip & g' & E & La & Fa & FI). set (q := Hp (encode P)).
  destruct (precomp_value (le_bytes x ⊙ q)) as (ip & Ei & Hi). exists (drawn gen g :: alphas), (ip :: Ip), g'. split_and!.
  - cbn [fmap list_fmap prepare_ds]. rewrite bind_bind. bind_with (hashToPoint_value hash (encode P)). fold q. bind_with (mlsag_prepare_value q x g Hx0).
    bind_with Ei. by bind_with E.
  - cbn. by rewrite La.
  - constructor; [by apply Z.mod_pos_bound | done].
  - unfold images. cbn [fmap list_fmap zip_with]. by constructor.
Qed.

Lemma prepare_nds_value col g : exists alphas g', prepare_nds gen (enc_col col) g = Ok (enc_rs alphas, start_nds col alphas, g') /\
  length alphas = length col /\ Forall in_range alphas.
Proof.
  revert g. induction col as [| P col IH]; intros g; [by exists [], g |]. destruct (IH (next gen g)) as (alphas & g' & E & La & Fa).
  exists (drawn gen g :: alphas), g'. split_and!; [| cbn; by rewrite La | constructor; [by apply Z.mod_pos_bound | done]].
  cbn [fmap list_fmap prepare_nds]. bind_with (skpkGen_value gen g). by bind_with E.
Qed.

(** The responses that the signer draws for a column. *)
Fixpoint drawn_column (rows : nat) (g : St) : list Z * St :=
  match rows with
  | O => ([], g)
  | S rows => let p := drawn_column rows (next gen g) in (drawn gen g :: p.1, p.2)
  end.

Lemma drawn_column_ok rows g : column_ok rows (drawn_column rows g).1.
Proof.
  revert g. induction rows as [| rows IH]; intros g; [done |]. cbn [drawn_column fst]. destruct (IH (next gen g)) as [Hl Hf].
  split; [cbn; by rewrite Hl | constructor; [by apply Z.mod_pos_bound | done]].
Qed.

Lemma skvGen_value rows g : (1 <= rows)%nat -> skvGen gen rows g = Ok (enc_rs (drawn_column rows g).1, (drawn_column rows g).2).
Proof.
  intros Hr. unfold skvGen. rewrite (proj2 (Nat.eqb_neq rows 0)) by lia. clear Hr. revert g. induction rows as [| rows IH]; intros g; [done |].
  cbn [skvGen_loop drawn_column fst snd]. bind_with (skGen_value gen g). by bind_with (IH (next gen g)).
Qed.

Lemma sign_rows_value c xx alphas : 0 <= c < sc_order -> Forall reduced xx -> Forall in_range alphas ->
  sign_rows (scalar c) xx (enc_rs alphas) = Ok (enc_rs (responses c alphas (values xx))).
Proof.
  intros Hc Hx. revert alphas. induction Hx as [| x xx Hx0 _ IH]; intros [| a alphas] Ha; try done. apply Forall_cons in Ha as [Ha0 Ha].
  cbn [fmap list_fmap sign_rows]. bind_with (sc_mulsub_value (scalar c) x (scalar a) (reduced_scalar _ (scalar_reduced c Hc)) (reduced_scalar _ Hx0) (reduced_scalar _ (scalar_reduced a Ha0))).
  bind_with (IH alphas Ha). by rewrite !scalar_value.
Qed.


Section Signer.
Context (message : key) (Is : list point) (Ip : list (list ge_cached)) (HI : Forall2 odd_multiples Ip Is).
Context (rows : nat) (cols : list (list point)) (index : nat).
Context (Hrows : (1 <= rows)%nat) (HIs : (length Is <= rows)%nat) (Hcols : Forall (fun col : list point => length col = rows) cols).
Abbreviation next_challenge := (mlsag_next message Is).
Abbreviation loop fuel := (mlsag_loop hash gen fuel message Ip rows (enc_col <$> cols) index).

Lemma mlsag_loop_step fuel i col c ss cc g : cols !! i = Some col -> i <> index -> 0 <= c < sc_order ->
  let rs := (drawn_column rows g).1 in
  let c' := next_challenge col c rs in
  let i' := ((i + 1) mod length cols)%nat in
  loop (S fuel) i (scalar c) ss cc g = loop fuel i' (scalar c') (<[i := enc_rs rs]> ss) (if (i' =? 0)%nat then Some (scalar c') else cc) (drawn_column rows g).2.
Proof using All.
  intros Hi Hn Hc. cbv zeta. cbn [mlsag_loop]. rewrite (proj2 (Nat.eqb_neq i index)) by done. bind_with (skvGen_value rows g Hrows).
  rewrite list_lookup_fmap, Hi, length_fmap. bind_with (eq_refl (at_or_undef (Some (enc_col col)))).
  pose proof (Forall_lookup_1 _ _ _ _ Hcols Hi) as Hl. cbv beta in Hl. destruct (drawn_column_ok rows g) as [Lr Fr].
  bind_with (mlsag_round_value false message Ip Is col (drawn_column rows g).1 c HI ltac:(lia) ltac:(lia) Fr Hc). cbn [andb].
  bind_with (eq_refl (at_or_undef (Some (scalar (next_challenge col c (drawn_column rows g).1))))). done.
Qed.

Lemma mlsag_loop_value c g : (index < length cols)%nat -> 0 <= c < sc_order ->
  let i := ((index + 1) mod length cols)%nat in
  exists before after g', length before = index /\ (index + 1 + length after = length cols)%nat /\
    Forall (column_ok rows) before /\ Forall (column_ok rows) after /\
    let cc := chain next_challenge c (zip (drop (index + 1) cols) after) in
    loop (length cols) i (scalar c) (replicate (length cols) (replicate rows zero)) (if (i =? 0)%nat then Some (scalar c) else None) g =
      Ok (scalar (chain next_challenge cc (zip cols before)), (enc_rs <$> before) ++ replicate rows zero :: (enc_rs <$> after), Some (scalar cc), g').
Proof using All.
  intros Hl Hc. cbv zeta.
  destruct (loop_value next_challenge sc_order (mlsag_next_range message Is) enc_rs (drawn_column rows) (column_ok rows)
    (drawn_column_ok rows) cols index (fun fuel i c s c1 g => loop fuel i (scalar c) s (le_encode 32 <$> c1) g) (fun c s c1 g => Ok (scalar c, s, le_encode 32 <$> c1, g))
    ltac:(intros; cbn [mlsag_loop]; by rewrite Nat.eqb_refl)) with (c := c) (x := replicate rows zero) (g := g) as (before & after & g' & H1 & H2 & H3 & H4 & E); [| done | done |].
  { intros fuel i m c' s c1 g' Hi Hn Hc'. cbn [fst snd]. cbv zeta. rewrite (mlsag_loop_step fuel i m c' s _ g' Hi Hn Hc'). cbv zeta. by destruct (_ =? 0)%nat. }
  exists before, after, g'. split_and!; [done | done | done | done |]. cbv zeta in E. etransitivity; [| exact E]. by destruct (_ =? 0)%nat.
Qed.
End Signer.

Lemma responses_range c alphas xs : Forall in_range (responses c alphas xs).
Proof.
  unfold responses. revert xs. induction alphas as [| a alphas IH]; intros [| x xs]; cbn [zip_with]; constructor; [by apply Z.mod_pos_bound | apply IH].
Qed.

Lemma responses_app c alA xsA alB xsB : length alA = length xsA -> responses c (alA ++ alB) (xsA ++ xsB) = responses c alA xsA ++ responses c alB xsB.
Proof. intros Hl. unfold responses. by apply zip_with_app. Qed.

Lemma values_enc rss rows : Forall (column_ok rows) rss -> values <$> (enc_rs <$> rss) = rss /\ Forall (Forall is_scalar) (enc_rs <$> rss) /\
  responses_ok rows (length rss) (enc_rs <$> rss) = true.
Proof.
  induction 1 as [| rs rss [Hl Hr] _ (E & F & R)]; [done |]. destruct (scalars_values rs Hr) as [V0 R0]. cbn [fmap list_fmap]. split_and!.
  - by f_equal.
  - constructor; [eapply Forall_impl; [exact R0 | by intros ? [? _]] | done].
  - unfold responses_ok in *. apply andb_true_iff in R as [R1 R3]. apply andb_true_iff in R1 as [R1 R2]. apply Nat.eqb_eq in R1.
    cbn [rectangular forallb]. change (fmap (M := list) (le_encode 32) rs) with (enc_rs rs). unfold rectangular in R2. rewrite R2, R3, length_fmap, Hl, Nat.eqb_refl, (forallb_reduced _ R0), !andb_true_r.
    cbn [length]. apply Nat.eqb_eq. by rewrite R1.
Qed.


Lemma rectangular_cols rows (cols : list (list point)) : Forall (fun col : list point => length col = rows) cols -> rectangular rows (enc_col <$> cols) = true.
Proof.
  intros Hc. apply forallb_forall. intros k Hk. apply list_elem_of_In, list_elem_of_fmap in Hk as (k' & -> & Hk). rewrite length_fmap.
  apply Nat.eqb_eq. by apply (proj1 (Forall_forall _ _) Hc).
Qed.

(** The signature that the signer produces. *)
Lemma MLSAG_Gen_value message cols index colA colB xxA xxB g : (2 <= length cols)%nat -> (1 <= length (colA ++ colB))%nat ->
  Forall (fun col : list point => length col = length (colA ++ colB)) cols -> cols !! index = Some (colA ++ colB) ->
  Forall reduced xxA -> Forall reduced xxB -> Forall2 secret_of colA (values xxA) -> Forall2 secret_of colB (values xxB) ->
  let Is := images colA (values xxA) in
  exists rss cc c g', MLSAG_Gen hash gen message (enc_col <$> cols) (xxA ++ xxB) None index (length colA) g = Ok (MgSig (enc_rs <$> rss) (scalar cc) (enc_col Is), c, g') /\
    Forall (column_ok (length (colA ++ colB))) rss /\ length rss = length cols /\ 0 <= cc < sc_order /\ chain (mlsag_next message Is) cc (zip cols rss) = cc.
Proof.
  intros H2 H1 Hrect Hidx RA RB SA SB Is. set (rows := length (colA ++ colB)) in *. pose proof (lookup_lt_Some _ _ _ Hidx) as Hlt.
  pose proof (Forall2_length _ _ _ SA) as LA. pose proof (Forall2_length _ _ _ SB) as LB. rewrite length_fmap in LA, LB.
  destruct (prepare_ds_value colA xxA g ltac:(lia) RA) as (alA & Ip & g1 & E1 & LaA & FaA & FI). fold Is in E1, FI.
  destruct (prepare_nds_value colB g1) as (alB & g2 & E2 & LaB & FaB).
  set (c0 := Hs (concat (message :: start_ds colA alA ++ start_nds colB alB))). assert (Hc0 : 0 <= c0 < sc_order) by by apply Hs_range.
  assert (HIs : (length Is <= rows)%nat) by (unfold Is, images, rows; rewrite length_zip_with, length_app; lia).
  destruct (mlsag_loop_value message Is Ip FI rows cols index H1 HIs Hrect c0 g2 Hlt Hc0) as (before & after & g3 & Lb & La & Fb & Fa & E3). cbv zeta in E3.
  set (cc := chain _ c0 _) in E3. set (c := chain _ cc _) in E3.
  assert (Hcc : 0 <= cc < sc_order) by (apply chain_range; [by apply mlsag_next_range | done]).
  assert (Hc : 0 <= c < sc_order) by (apply chain_range; [by apply mlsag_next_range | done]).
  set (rs := responses c alA (values xxA) ++ responses c alB (values xxB)).
  assert (Hrs : column_ok rows rs).
  { split; [| apply Forall_app; split; apply responses_range]. unfold rs, responses, rows. rewrite !length_app, !length_zip_with, !length_fmap. lia. }
  exists (before ++ rs :: after), cc, (scalar c), g3. split_and!; [| | rewrite length_app; cbn; lia | lia | lia |].
  - unfold MLSAG_Gen. rewrite length_fmap. cbv zeta. rewrite (proj2 (Nat.leb_le _ _) H2), (proj2 (Nat.ltb_lt _ _) Hlt). cbn [check_or_throw].
    do 2 (bind_with (eq_refl (Ok tt))). destruct (lookup_lt_is_Some_2 cols 0%nat) as [col0 Hcol0]; [lia |]. rewrite !list_lookup_fmap, Hcol0, Hidx.
    bind_with (eq_refl (at_or_undef (Some (enc_col col0)))). rewrite length_fmap, (Forall_lookup_1 _ _ _ _ Hrect Hcol0), (proj2 (Nat.leb_le _ _) H1), (rectangular_cols _ _ Hrect).
    rewrite length_app, <- LA, <- LB, <- length_app. fold rows. rewrite Nat.eqb_refl, (proj2 (Nat.leb_le _ _)) by (unfold rows; rewrite length_app; lia). cbn [check_or_throw].
    do 5 (bind_with (eq_refl (Ok tt))). bind_with (eq_refl (at_or_undef (Some (enc_col (colA ++ colB))))).
    rewrite fmap_app, take_app_length', drop_app_length', LA, take_app_length by (rewrite length_fmap; lia).
    bind_with E1. bind_with E2. match goal with |- mbind _ (hash_keys_to_scalar _ ?k) = _ => bind_with (hash_keys_value hash k) end. fold c0.
    bind_with E3. rewrite list_lookup_middle by (rewrite length_fmap; lia). bind_with (eq_refl (at_or_undef (Some (replicate rows zero)))).
    unfold mlsag_sign. rewrite length_replicate, <- fmap_app, length_fmap, !length_app, LaA, LaB, <- LA, <- LB, <- length_app. fold rows. rewrite Nat.eqb_refl.
    rewrite (proj2 (Nat.leb_le _ _)) by (unfold rows; rewrite length_app; lia). cbn [check_or_throw].
    rewrite (sign_rows_value c (xxA ++ xxB) (alA ++ alB) Hc) by (apply Forall_app; done). rewrite fmap_app, responses_app by (rewrite length_fmap; lia). fold rs.
    simpl_bind. rewrite fmap_app, insert_app_r_alt by (rewrite length_fmap; lia). rewrite length_fmap, Lb, Nat.sub_diag. done.
  - apply Forall_app. split; [done | by constructor].
  - apply chain_closed with (l := index) (m := colA ++ colB) (c0 := c0); [done | done |]. fold cc c. unfold rs.
    apply mlsag_next_closed; first [done | lia].
Qed.


Lemma mlsag_complete message cols index dsRows col xx g : (2 <= length cols)%nat -> cols !! index = Some col -> (1 <= length col)%nat ->
  Forall (fun col' : list point => length col' = length col) cols -> (dsRows <= length col)%nat -> Forall reduced xx -> Forall2 secret_of col (values xx) ->
  exists sig c g', MLSAG_Gen hash gen message (enc_col <$> cols) xx None index dsRows g = Ok (sig, c, g') /\
    mg_II sig = enc_col (images (take dsRows col) (values (take dsRows xx))) /\
    MLSAG_Ver hash message (enc_col <$> cols) sig dsRows = Ok (negb (existsb (bad_column dsRows) cols)).
Proof.
  intros H2 Hidx H1 Hrect Hds Rx Sx. pose proof (Forall2_length _ _ _ Sx) as Lx. rewrite length_fmap in Lx.
  set (colA := take dsRows col). set (colB := drop dsRows col). set (xxA := take dsRows xx). set (xxB := drop dsRows xx).
  assert (Ec : colA ++ colB = col) by apply take_drop. assert (Ex : xxA ++ xxB = xx) by apply take_drop.
  assert (LA : length colA = dsRows) by (apply length_take_le; lia).
  assert (SA : Forall2 secret_of colA (values xxA)) by (unfold xxA; rewrite fmap_take; by apply Forall2_take).
  assert (SB : Forall2 secret_of colB (values xxB)) by (unfold xxB; rewrite fmap_drop; by apply Forall2_drop).
  rewrite <- Ec in H1, Hrect, Hidx. destruct (MLSAG_Gen_value message cols index colA colB xxA xxB g H2 H1 Hrect Hidx (Forall_take _ _ _ Rx) (Forall_drop _ _ _ Rx) SA SB)
    as (rss & cc & c & g' & E & Fr & Lr & Hcc & Hch).
  set (Is := images colA (values xxA)) in *. assert (LI : length Is = dsRows) by (unfold Is, images; rewrite length_zip_with, <- (Forall2_length _ _ _ SA); lia).
  rewrite Ex, LA in E. do 3 eexists. split; [exact E |]. split; [done |].
  assert (Ehd : length (hd [] cols) = length (colA ++ colB)).
  { destruct cols as [| col0 cols]; [cbn in H2; lia |]. by apply Forall_cons in Hrect as [E0 _]. }
  destruct (values_enc rss _ Fr) as (Ev & Fs & Rk). rewrite <- LI, MLSAG_Ver_value by
    first [done | rewrite Ehd; first [done | rewrite Ec; lia] | apply reduced_scalar, scalar_reduced; done].
  unfold valid_mlsag. cbn [mg_ss mg_cc]. rewrite Ehd, <- Lr, Rk, Ev, scalar_value, Hch, Z.eqb_refl, (proj2 (Z.ltb_lt _ _)), andb_true_r by lia. done.
Qed.


(** The owner of a column of keys always gets an MLSAG signature; its images are those of the keys, and the verification
    accepts it unless a key of the matrix hashes to the neutral point. *)
Theorem mlsag_accepted message cols index dsRows col xx g : (2 <= length cols)%nat -> cols !! index = Some col -> (1 <= length col)%nat ->
  Forall (fun col' : list point => length col' = length col) cols -> (dsRows <= length col)%nat -> Forall reduced xx -> Forall2 secret_of col (values xx) ->
  exists sig c g', MLSAG_Gen hash gen message (enc_col <$> cols) xx None index dsRows g = Ok (sig, c, g') /\
    mg_II sig = enc_col (images (take dsRows col) (values (take dsRows xx))) /\
    MLSAG_Ver hash message (enc_col <$> cols) sig dsRows = Ok (negb (existsb (bad_column dsRows) cols)).
Proof. apply mlsag_complete. Qed.

(** ** Signatures of transactions *)

Lemma simple_matrix_value O (ring : list (point * point)) :
  simple_matrix (pub_of <$> ring) (encode ∘ snd <$> (less O <$> ring)) = enc_col <$> ((fun pc => [pc.1; pc.2 ⊕ ⊖ O]) <$> ring).
Proof. induction ring as [| pc ring IH]; [done |]. cbn [fmap list_fmap]. unfold simple_matrix in *. cbn [zip_with]. by rewrite IH. Qed.

Lemma mg_simple_complete message ring l P C inSk a amount g : (2 <= length ring)%nat -> ring !! l = Some (P, C) ->
  reduced (dest inSk) -> is_scalar (ct_mask inSk) -> is_scalar a ->
  P = le_bytes (dest inSk) ⊙ base -> C = commitment (le_bytes (ct_mask inSk)) amount ->
  let O := commitment (le_bytes a) amount in
  exists sig c g', proveRctMGSimple hash gen message (pub_of <$> ring) inSk a (encode O) None l g = Ok (sig, c, g') /\
    mg_II sig = [encode (le_bytes (dest inSk) ⊙ Hp (encode P))] /\
    verRctMGSimple_v1 hash message sig (pub_of <$> ring) (encode O) = Ok (negb (existsb (fun pc => bool_decide (Hp (encode pc.1) = gzero)) ring)).
Proof.
  intros H2 Hl Hp' Hm Ha EP EC O. set (z := scalar ((le_bytes (ct_mask inSk) - le_bytes a) mod sc_order)). assert (Hz : reduced z) by apply reduced_encode.
  assert (EO : C ⊕ ⊖ O = le_bytes z ⊙ base).
  { unfold z. rewrite le_bytes_reduced, EC. unfold O, commitment. rewrite gmul_mod, gneg_add, gmul_sub by first [apply base_order | done].
    rewrite <- !gadd_assoc. f_equal. by rewrite gadd_swap, gadd_neg_r, gadd_zero_r. }
  set (cols := (fun pc : point * point => [pc.1; pc.2 ⊕ ⊖ O]) <$> ring).
  destruct (mlsag_complete message cols l 1 [P; C ⊕ ⊖ O] [dest inSk; z] g) as (sig & c & g' & E & EI & V).
  - unfold cols. by rewrite length_fmap.
  - unfold cols. by rewrite list_lookup_fmap, Hl.
  - cbn. lia.
  - unfold cols. apply Forall_fmap, Forall_forall. by intros [? ?] _.
  - cbn. lia.
  - by apply Forall_cons_2, Forall_cons_2, Forall_nil_2.
  - by apply Forall2_cons_2, Forall2_cons_2, Forall2_nil_2.
  - assert (Hlen : (1 <=? length (pub_of <$> ring))%nat = true) by (apply Nat.leb_le; rewrite length_fmap; lia).
    exists sig, c, g'. split_and!; [| done |].
    + unfold proveRctMGSimple. rewrite Hlen. bind_with (eq_refl (Ok tt)). bind_with (sc_sub_correct _ _ Hm Ha). bind_with (sub_commitments_value O ring).
      by rewrite simple_matrix_value.
    + unfold verRctMGSimple_v1. rewrite Hlen. cbn [check_or_false]. bind_with (sub_commitments_value O ring). rewrite simple_matrix_value. fold cols. rewrite V. cbn [catch_false].
      do 2 f_equal. unfold cols. clear. induction ring as [| pc ring IH]; [done |]. cbn [fmap list_fmap existsb]. rewrite IH. f_equal. unfold bad_column. cbn. by rewrite orb_false_r.
Qed.


Lemma add_masks p (cs : list point) l : ct_mask <$> l = encode <$> cs ->
  foldl (fun sum k => sum ← sum; addKeys sum (ct_mask k)) (Ok (encode p)) l = Ok (encode (p ⊕ gsum cs)).
Proof.
  revert p cs. induction l as [| k l IH]; intros p [| c cs] E; try discriminate E; [cbn [foldl gsum foldr]; by rewrite gadd_zero_r |].
  cbn [foldl]. simpl_bind. rewrite (f_equal (fun l => default [] (head l)) E : ct_mask k = encode c), addKeys_value, (IH _ cs) by exact (f_equal tail E).
  cbn [gsum foldr]. by rewrite gadd_assoc.
Qed.

Lemma sub_masks p (cs : list point) l : ct_mask <$> l = encode <$> cs ->
  foldl (fun sum k => sum ← sum; subKeys sum (ct_mask k)) (Ok (encode p)) l = Ok (encode (p ⊕ ⊖ gsum cs)).
Proof.
  revert p cs. induction l as [| k l IH]; intros p [| c cs] E; try discriminate E; [cbn [foldl gsum foldr]; by rewrite gneg_zero, gadd_zero_r |].
  cbn [foldl]. simpl_bind. rewrite (f_equal (fun l => default [] (head l)) E : ct_mask k = encode c), subKeys_value, (IH _ cs) by exact (f_equal tail E).
  cbn [gsum foldr]. by rewrite gneg_add, gadd_assoc.
Qed.

(** The last key of a column. *)
Definition last_point (outs : list point) (fee : point) (col : list (point * point)) : point := gsum (snd <$> col) ⊕ ⊖ gsum outs ⊕ ⊖ fee.

Lemma last_row_value col outs fee outPk : ct_mask <$> outPk = encode <$> outs ->
  last_row (pub_of <$> col) outPk (encode fee) = Ok (encode (last_point outs fee col)).
Proof.
  intros E. unfold last_row. rewrite <- encode_identity, (add_masks gzero (snd <$> col)) by (rewrite <- !list_fmap_compose; done).
  simpl_bind. rewrite gadd_zero_l, (sub_masks _ outs) by done. simpl_bind. apply subKeys_value.
Qed.

Definition full_column (outs : list point) (fee : point) (col : list (point * point)) : list point := (fst <$> col) ++ [last_point outs fee col].

Lemma full_matrix_value ring outs fee outPk : ct_mask <$> outPk = encode <$> outs ->
  full_matrix (fmap (M := list) pub_of <$> ring) outPk (encode fee) = Ok (enc_col <$> (full_column outs fee <$> ring)).
Proof.
  intros E. induction ring as [| col ring IH]; [done |]. cbn [fmap list_fmap full_matrix]. bind_with (last_row_value col outs fee outPk E). bind_with IH.
  unfold full_column at 2. rewrite fmap_app, <- !list_fmap_compose. done.
Qed.

Lemma sum_masks x l : Forall (fun k => is_scalar (ct_mask k)) l ->
  foldl (fun sum k => sum ← sum; sc_add sum (ct_mask k)) (Ok (scalar (x mod sc_order))) l = Ok (scalar ((x + zsum (le_bytes ∘ ct_mask <$> l)) mod sc_order)).
Proof.
  intros Hl. revert x. induction Hl as [| k l Hk _ IH]; intros x; [cbn; by rewrite Z.add_0_r |]. cbn [foldl fmap list_fmap zsum foldr]. simpl_bind.
  rewrite sc_add_correct, le_bytes_reduced, Zplus_mod_idemp_l, IH by first [done | auto with keys]. cbn [compose]. by rewrite Z.add_assoc.
Qed.

Lemma less_masks x l : Forall (fun k => is_scalar (ct_mask k)) l ->
  foldl (fun sum k => sum ← sum; sc_sub sum (ct_mask k)) (Ok (scalar (x mod sc_order))) l = Ok (scalar ((x - zsum (le_bytes ∘ ct_mask <$> l)) mod sc_order)).
Proof.
  intros Hl. revert x. induction Hl as [| k l Hk _ IH]; intros x; [cbn; by rewrite Z.sub_0_r |]. cbn [foldl fmap list_fmap zsum foldr]. simpl_bind.
  rewrite sc_sub_correct, le_bytes_reduced, Zminus_mod_idemp_l, IH by first [done | auto with keys]. cbn [compose]. by rewrite Z.sub_add_distr.
Qed.


(** The key and the commitment of an input with its secrets and its amount. *)
Definition owned (k : ctkey) (x : Z) : point * point := (le_bytes (dest k) ⊙ base, commitment (le_bytes (ct_mask k)) x).

Definition opened (k : ctkey) (y : Z) : point := commitment (le_bytes (ct_mask k)) y.

Lemma owned_fst inSk xs : length xs = length inSk -> fst <$> zip_with owned inSk xs = (fun k => le_bytes (dest k) ⊙ base) <$> inSk.
Proof. revert xs. induction inSk as [| k inSk IH]; intros [| x xs] Hl; try done. injection Hl as Hl. cbn [zip_with fmap list_fmap]. by rewrite IH. Qed.

Lemma owned_snd inSk xs : snd <$> zip_with owned inSk xs = zip_with commitment (le_bytes ∘ ct_mask <$> inSk) xs.
Proof. revert xs. induction inSk as [| k inSk IH]; intros [| x xs]; try done. cbn [zip_with fmap list_fmap]. by rewrite IH. Qed.

Lemma opened_commitments outSk ys : zip_with opened outSk ys = zip_with commitment (le_bytes ∘ ct_mask <$> outSk) ys.
Proof. revert ys. induction outSk as [| k outSk IH]; intros [| y ys]; try done. cbn [zip_with fmap list_fmap]. by rewrite IH. Qed.

(** When the amounts balance, the last key of the column is a multiple of the base point. *)
Lemma last_point_balanced (inSk : list ctkey) xs outSk ys fee : length xs = length inSk -> length ys = length outSk -> zsum xs = zsum ys + fee ->
  last_point (zip_with opened outSk ys) (fee ⊙ HH) (zip_with owned inSk xs) =
    (zsum (le_bytes ∘ ct_mask <$> inSk) - zsum (le_bytes ∘ ct_mask <$> outSk)) ⊙ base.
Proof.
  intros Lx Ly Hb. unfold last_point. rewrite owned_snd, opened_commitments, !gsum_commitments by by rewrite length_fmap.
  unfold commitment. rewrite Hb, gmul_add, gneg_add, gmul_sub, <- !gadd_assoc. f_equal.
  rewrite (gadd_swap (fee ⊙ HH)), (gadd_swap (fee ⊙ HH)), gadd_neg_r, gadd_zero_r. by rewrite gadd_swap, gadd_neg_r, gadd_zero_r.
Qed.

Lemma last_secret_value inSk outSk : Forall (fun k => is_scalar (ct_mask k)) inSk -> Forall (fun k => is_scalar (ct_mask k)) outSk ->
  last_secret inSk outSk = Ok (scalar ((zsum (le_bytes ∘ ct_mask <$> inSk) - zsum (le_bytes ∘ ct_mask <$> outSk)) mod sc_order)).
Proof.
  intros Hi Ho. unfold last_secret. rewrite zero_scalar. change 0 with (0 mod sc_order). rewrite sum_masks by done. simpl_bind.
  rewrite Z.add_0_l. by apply less_masks.
Qed.

Lemma bad_full n outs fee ring : Forall (fun col : list (point * point) => length col = n) ring ->
  existsb (bad_column n) (full_column outs fee <$> ring) = existsb (existsb (fun pc => bool_decide (Hp (encode pc.1) = gzero))) ring.
Proof.
  induction 1 as [| col ring Hc _ IH]; [done |]. cbn [fmap list_fmap existsb]. rewrite IH. f_equal. unfold bad_column, full_column.
  rewrite take_app_length' by by rewrite length_fmap. clear. induction col as [| pc col IH]; [done |]. cbn [fmap list_fmap existsb]. by rewrite IH.
Qed.

(** C12: When the amounts of the inputs are those of the outputs and the fee, whoever knows the secrets of a column of inputs
    and the masks of the outputs gets a signature of the whole transaction, and the verification accepts it unless a key of
    the ring hashes to the neutral point. *)
Theorem full_mg_accepted message ring index inSk xs outSk ys outPk fee g : (2 <= length ring)%nat -> (1 <= length inSk)%nat ->
  Forall (fun col : list (point * point) => length col = length inSk) ring -> ring !! index = Some (zip_with owned inSk xs) ->
  length xs = length inSk -> length ys = length outSk -> Forall (fun k => reduced (dest k) /\ is_scalar (ct_mask k)) inSk -> Forall (fun k => is_scalar (ct_mask k)) outSk ->
  ct_mask <$> outPk = encode <$> zip_with opened outSk ys -> zsum xs = zsum ys + fee ->
  exists sig c g', proveRctMG hash gen message (fmap (M := list) pub_of <$> ring) inSk outSk outPk None index (encode (fee ⊙ HH)) g = Ok (sig, c, g') /\
    verRctMG hash sig (fmap (M := list) pub_of <$> ring) outPk (encode (fee ⊙ HH)) message =
      Ok (negb (existsb (existsb (fun pc => bool_decide (Hp (encode pc.1) = gzero))) ring)).
Proof.
  intros H2 H1 Hrect Hidx Lx Ly Hin Hout Epk Hbal. set (n := length inSk) in *. set (outs := zip_with opened outSk ys) in *. set (F := fee ⊙ HH).
  assert (Hm : Forall (fun k => is_scalar (ct_mask k)) inSk) by (eapply Forall_impl; [exact Hin | by intros k [_ ?]]).
  set (sk := scalar ((zsum (le_bytes ∘ ct_mask <$> inSk) - zsum (le_bytes ∘ ct_mask <$> outSk)) mod sc_order)).
  set (cols := full_column outs F <$> ring). set (col := full_column outs F (zip_with owned inSk xs)).
  assert (Lc : length col = S n) by (unfold col, full_column; rewrite length_app, length_fmap, length_zip_with; cbn; lia).
  assert (Lcols : Forall (fun col' : list point => length col' = length col) cols).
  { apply Forall_fmap. eapply Forall_impl; [exact Hrect |]. intros k Hk. cbn. unfold full_column. rewrite Lc, length_app, length_fmap, Hk. cbn. lia. }
  assert (Ss : Forall2 secret_of col (values ((dest <$> inSk) ++ [sk]))).
  { unfold col, full_column. rewrite owned_fst, fmap_app by done. apply Forall2_app; [clear; induction inSk; cbn [fmap list_fmap]; by constructor |].
    apply Forall2_cons_2; [| apply Forall2_nil_2]. unfold F, outs. rewrite last_point_balanced by done. unfold sk. rewrite le_bytes_reduced.
    by rewrite gmul_mod by first [apply base_order | done]. }
  destruct (mlsag_complete message cols index n col ((dest <$> inSk) ++ [sk]) g) as (sig & c & g' & E & _ & V);
    [unfold cols; by rewrite length_fmap | unfold cols; by rewrite list_lookup_fmap, Hidx | lia | done | lia | | done |].
  { apply Forall_app. split; [apply Forall_fmap; eapply Forall_impl; [exact Hin | by intros k [? _]] | apply Forall_cons_2; [apply reduced_encode | apply Forall_nil_2]]. }
  destruct (lookup_lt_is_Some_2 ring 0%nat) as [col0 Hcol0]; [lia |]. pose proof (Forall_lookup_1 _ _ _ _ Hrect Hcol0) as L0. cbv beta in L0.
  assert (Er : forallb (fun col : list ctkey => (length col =? n)%nat) (fmap (M := list) pub_of <$> ring) = true).
  { apply forallb_forall. intros k Hk. apply list_elem_of_In, list_elem_of_fmap in Hk as (k' & -> & Hk). rewrite length_fmap. apply Nat.eqb_eq. by apply (proj1 (Forall_forall _ _) Hrect). }
  exists sig, c, g'. split.
  - assert (Lo : length outSk = length outPk).
    { apply (f_equal length) in Epk. rewrite !length_fmap in Epk. rewrite Epk. unfold outs. rewrite length_zip_with. lia. }
    unfold proveRctMG. rewrite length_fmap, (proj2 (Nat.leb_le _ _)) by lia. cbv zeta. cbn [check_or_throw]. bind_with (eq_refl (Ok tt)).
    rewrite list_lookup_fmap, Hcol0. bind_with (eq_refl (at_or_undef (Some (pub_of <$> col0)))). rewrite length_fmap, L0, (proj2 (Nat.leb_le _ _) H1), Er.
    fold n. rewrite Nat.eqb_refl, Lo, Nat.eqb_refl. cbn [check_or_throw]. do 4 (bind_with (eq_refl (Ok tt))).
    bind_with (full_matrix_value ring outs F outPk Epk). bind_with (last_secret_value inSk outSk Hm Hout). exact E.
  - unfold verRctMG. rewrite length_fmap, (proj2 (Nat.leb_le _ _)) by lia. cbn [check_or_false]. rewrite list_lookup_fmap, Hcol0. cbv zeta.
    bind_with (eq_refl (at_or_undef (Some (pub_of <$> col0)))). rewrite length_fmap, L0, (proj2 (Nat.leb_le _ _) H1), Er. cbn [check_or_false].
    bind_with (full_matrix_value ring outs F outPk Epk). fold cols. rewrite V. unfold cols. by rewrite bad_full.
Qed.
End Proofs.

(** ** Witnesses *)

Lemma mg_generations_agree_witness : Forall ct_scalars (pub_of <$> two_members) /\
  verRctMGSimple_v1 cn_fast_hash (replicate 32 9) (MgSig [[one_key; one_key]; [one_key; one_key]] one_key [encode base]) (pub_of <$> two_members) (encode base) =
  verRctMGSimple_v2 cn_fast_hash (replicate 32 9) (MgSig [[one_key; one_key]; [one_key; one_key]] one_key [encode base]) (pub_of <$> two_members) (encode base).
Proof.
  assert (H : Forall ct_scalars (pub_of <$> two_members)) by (do 2 (apply Forall_cons_2; [split; apply encode_is_scalar |]); apply Forall_nil_2).
  split; [exact H |]. exact (mg_generations_agree cn_fast_hash (replicate 32 9) _ _ _ H (encode_is_scalar base)).
Defined.

Lemma mlsag_accepted_witness : exists sig c g',
  let cols := [[2 ⊙ base; base]; [le_bytes one_key ⊙ base; le_bytes one_key ⊙ base]] in
  MLSAG_Gen cn_fast_hash constant_bytes (replicate 32 9) (enc_col <$> cols) [one_key; one_key] None 1 1 6 = Ok (sig, c, g') /\
  MLSAG_Ver cn_fast_hash (replicate 32 9) (enc_col <$> cols) sig 1 = Ok (negb (existsb (bad_column cn_fast_hash 1) cols)).
Proof.
  destruct (mlsag_accepted cn_fast_hash constant_bytes (replicate 32 9) [[2 ⊙ base; base]; [le_bytes one_key ⊙ base; le_bytes one_key ⊙ base]] 1 1
    [le_bytes one_key ⊙ base; le_bytes one_key ⊙ base] [one_key; one_key] 6 ltac:(cbn; lia) eq_refl ltac:(cbn; lia)
    ltac:(apply Forall_cons_2, Forall_cons_2, Forall_nil_2; reflexivity) ltac:(cbn; lia)
    (Forall_cons_2 _ _ _ one_key_reduced (Forall_cons_2 _ _ _ one_key_reduced (Forall_nil_2 _)))
    ltac:(apply Forall2_cons_2, Forall2_cons_2, Forall2_nil_2; reflexivity)) as (sig & c & g' & E & _ & V).
  exists sig, c, g'. exact (conj E V).
Defined.

Definition paid_ring : list (list (point * point)) := [[(2 ⊙ base, base)]; zip_with owned [Ctkey one_key one_key] [7]].

Lemma full_mg_accepted_witness : exists sig c g',
  let outPk := [Ctkey (encode base) (encode (opened (Ctkey one_key one_key) 4))] in
  proveRctMG cn_fast_hash constant_bytes (replicate 32 9) (fmap (M := list) pub_of <$> paid_ring) [Ctkey one_key one_key] [Ctkey one_key one_key] outPk None 1 (encode (3 ⊙ HH)) 6 = Ok (sig, c, g') /\
  verRctMG cn_fast_hash sig (fmap (M := list) pub_of <$> paid_ring) outPk (encode (3 ⊙ HH)) (replicate 32 9) =
    Ok (negb (existsb (existsb (fun pc => bool_decide (Hp cn_fast_hash (encode pc.1) = gzero))) paid_ring)).
Proof.
  exact (full_mg_accepted cn_fast_hash constant_bytes (replicate 32 9) paid_ring 1 [Ctkey one_key one_key] [7] [Ctkey one_key one_key] [4]
    [Ctkey (encode base) (encode (opened (Ctkey one_key one_key) 4))] 3 6 ltac:(cbn; lia) ltac:(cbn; lia)
    ltac:(unfold paid_ring; cbn [zip_with]; apply Forall_cons_2, Forall_cons_2, Forall_nil_2; reflexivity) eq_refl eq_refl eq_refl
    (Forall_cons_2 _ (Ctkey one_key one_key) _ (conj one_key_reduced one_key_scalar) (Forall_nil_2 _))
    (Forall_cons_2 _ (Ctkey one_key one_key) _ one_key_scalar (Forall_nil_2 _)) eq_refl eq_refl).
Defined.
