(* ===== verification/RangeProof.v ===== *)
(** Range proofs with Borromean signatures ([src/ringct/rctSigs.cpp]).

    An array of 64 keys is a list; the loops walk the arrays together. The bits of
    an amount choose for each position which of the two rings is closed by the
    secret: the commitment is to 0 or to the power of two of the position. *)
From stdpp Require Import base list numbers.
From S2P Require Import Prelude FastHash Limbs ScalarOps FieldOps CurveData Groups Edwards Curve25519 GroupOps PointCodec HashPoint ScalarMult GroupOrder Random Keys KeyProofs TxFormat RctData RctPoints RctOps RctProofs Clsag ClsagProofs Signatures Keccak.
Open Scope Z_scope.

(** Source: src/src/ringct/rctTypes.h:141-145 (boroSig) *)
Record boroSig := BoroSig { boro_s0 : list key; boro_s1 : list key; boro_ee : key }.

(** Source: src/src/ringct/rctTypes.h:188-196 (rangeSig) *)
Record rangeSig := RangeSig { range_asig : boroSig; range_Ci : list key }.

Section Operations.
Context (cn_fast_hash : list Z -> list Z).
Context {St : Type} (generate_random_bytes_thread_safe : nat -> St -> list Z * St).
Abbreviation skGen := (skGen generate_random_bytes_thread_safe).
Abbreviation hash_to_scalar := (rct_hash_to_scalar cn_fast_hash).

(** [alpha], the responses [s1] drawn so far and [L[1]].
    Source: src/src/ringct/rctSigs.cpp:190-199 (genBorromean) *)
Fixpoint boro_commit (indices : list Z) (P2 : list key) (g : St) : outcome (list key * list (option key) * list key * St) :=
  match indices, P2 with
  | [], _ => Ok ([], [], [], g)
  | naught :: indices, p2 :: P2 =>
      '(alpha, g) ← skGen g;
      Lnaught ← scalarmultBase alpha;
      '(s1, L1, g) ← (if naught =? 0 then
          '(s1, g) ← skGen g; c ← hash_to_scalar Lnaught; L1 ← addKeys2 s1 c p2; Ok (Some s1, L1, g)
        else if naught =? 1 then Ok (None, Lnaught, g) else Undef);
      '(alphas, s1s, L1s, g) ← boro_commit indices P2 g;
      Ok (alpha :: alphas, s1 :: s1s, L1 :: L1s, g)
  | _, [] => Undef
  end.

(** [s0] and [s1].
    Source: src/src/ringct/rctSigs.cpp:202-211 (genBorromean) *)
Fixpoint boro_close (ee : key) (indices : list Z) (x P1 alphas : list key) (s1s : list (option key)) (g : St) : outcome (list key * list key * St) :=
  match indices, x, P1, alphas, s1s with
  | [], _, _, _, _ => Ok ([], [], g)
  | index :: indices, xj :: x, p1 :: P1, alpha :: alphas, s1 :: s1s =>
      '(s0, s1, g) ← (if index =? 0 then
          s0 ← sc_mulsub xj ee alpha; s1 ← at_or_undef s1; Ok (s0, s1, g)
        else
          '(s0, g) ← skGen g; LL ← addKeys2 s0 ee p1; cc ← hash_to_scalar LL; s1 ← sc_mulsub xj cc alpha; Ok (s0, s1, g));
      '(s0s, s1s, g) ← boro_close ee indices x P1 alphas s1s g;
      Ok (s0 :: s0s, s1 :: s1s, g)
  | _, _, _, _, _ => Undef
  end.

(** Source: src/src/ringct/rctSigs.cpp:185-213 (genBorromean) *)
Definition genBorromean (x P1 P2 : list key) (indices : list Z) (g : St) : outcome (boroSig * St) :=
  '(alphas, s1s, L1, g) ← boro_commit indices P2 g;
  ee ← hash_key64_to_scalar cn_fast_hash L1;
  '(s0s, s1s, g) ← boro_close ee indices x P1 alphas s1s g;
  Ok (BoroSig s0s s1s ee, g).

(** [Lv1].
    Source: src/src/ringct/rctSigs.cpp:220-228 (verifyBorromean) *)
Fixpoint boro_open (ee : key) (s0 s1 : list key) (P1 P2 : list ge_p3) : outcome (list key) :=
  match P1, P2, s0, s1 with
  | [], _, _, _ => Ok []
  | p1 :: P1, p2 :: P2, x0 :: s0, x1 :: s1 =>
      r ← ge_double_scalarmult_base_vartime ee p1 x0;
      LL ← ge_tobytes r;
      chash ← hash_to_scalar LL;
      r ← ge_double_scalarmult_base_vartime chash p2 x1;
      Lv1 ← ge_tobytes r;
      rest ← boro_open ee s0 s1 P1 P2;
      Ok (Lv1 :: rest)
  | _, _, _, _ => Undef
  end.

(** Source: src/src/ringct/rctSigs.cpp:216-231 (verifyBorromean) *)
Definition verifyBorromean (bb : boroSig) (P1 P2 : list ge_p3) : outcome bool :=
  Lv1 ← boro_open (boro_ee bb) (boro_s0 bb) (boro_s1 bb) P1 P2;
  eeComputed ← hash_key64_to_scalar cn_fast_hash Lv1;
  equalKeys eeComputed (boro_ee bb).

(** The masks [ai], the commitments [Ci] and [CiH], the mask and the sum.
    Source: src/src/ringct/rctSigs.cpp:558-569 (proveRange) *)
Fixpoint range_loop (b : list Z) (H2s : list key) (mask C : key) (g : St) : outcome (list key * list key * list key * key * key * St) :=
  match b, H2s with
  | [], _ => Ok ([], [], [], mask, C, g)
  | bi :: b, h2 :: H2s =>
      '(ai, g) ← skGen g;
      Ci ← (if bi =? 0 then scalarmultBase ai else if bi =? 1 then addKeys1 ai h2 else Undef);
      CiH ← subKeys Ci h2;
      mask ← sc_add mask ai;
      C ← addKeys C Ci;
      '(ais, Cis, CiHs, mask, C, g) ← range_loop b H2s mask C g;
      Ok (ai :: ais, Ci :: Cis, CiH :: CiHs, mask, C, g)
  | _, [] => Undef
  end.

(** The commitment, the mask and the proof; [bits] is the array for the bits of the amount.
    Source: src/src/ringct/rctSigs.cpp:549-572 (proveRange) *)
Definition proveRange (bits : list Z) (amount : Z) (g : St) : outcome (key * key * rangeSig * St) :=
  let b := d2b bits amount in
  '(ai, Ci, CiH, mask, C, g) ← range_loop b H2 sc_0 identity g;
  '(asig, g) ← genBorromean ai Ci CiH b g;
  Ok (C, mask, RangeSig asig Ci, g).

(** The points of [CiH] and [asCi] and their sum, or nothing when a key is not a point.
    Source: src/src/ringct/rctSigs.cpp:588-603 (verRange) *)
Fixpoint ver_range_loop (H2s Ci : list key) (Ctmp_p3 : ge_p3) : outcome (option (list ge_p3 * list ge_p3 * ge_p3)) :=
  match H2s, Ci with
  | [], _ => Ok (Some ([], [], Ctmp_p3))
  | h2 :: H2s, ci :: Ci =>
      p3 ← ge_frombytes_vartime h2;
      match p3 with
      | None => Ok None
      | Some p3 =>
          cached ← ge_p3_to_cached p3;
          asCi ← ge_frombytes_vartime ci;
          match asCi with
          | None => Ok None
          | Some asCi =>
              p1 ← ge_sub asCi cached;
              cached ← ge_p3_to_cached asCi;
              CiH ← ge_p1p1_to_p3 p1;
              p1 ← ge_add Ctmp_p3 cached;
              Ctmp_p3 ← ge_p1p1_to_p3 p1;
              rest ← ver_range_loop H2s Ci Ctmp_p3;
              Ok ('(CiHs, asCis, Ctmp_p3) ← rest; Some (CiH :: CiHs, asCi :: asCis, Ctmp_p3))
          end
      end
  | _, [] => Undef
  end.

(** Source: src/src/ringct/rctSigs.cpp:581-614 (verRange) *)
Definition verRange (C : key) (sig : rangeSig) : outcome bool :=
  catch_false (
  r ← ver_range_loop H2 (range_Ci sig) ge_p3_identity;
  match r with
  | None => Ok false
  | Some (CiH, asCi, Ctmp_p3) =>
      Ctmp ← ge_p3_tobytes Ctmp_p3;
      eq ← equalKeys C Ctmp;
      check_or_false eq (
      ok ← verifyBorromean (range_asig sig) asCi CiH;
      check_or_false ok (Ok true))
  end).
End Operations.

(** * Properties *)

(** ** The bits of an amount *)

Fixpoint bits_of (n : nat) (val : Z) : list Z := match n with O => [] | S n => Z.land val 1 :: bits_of n (Z.shiftr val 1) end.

Definition is_bit (b : Z) : Prop := b = 0 \/ b = 1.

Lemma land_1 v : Z.land v 1 = v mod 2.
Proof. exact (Z.land_ones v 1 ltac:(lia)). Qed.

Lemma bits_of_bits n val : Forall is_bit (bits_of n val).
Proof. revert val. induction n as [| n IH]; intros val; cbn [bits_of]; constructor; [unfold is_bit; rewrite land_1; pose proof (Z.mod_pos_bound val 2); lia | apply IH]. Qed.

Lemma bits_of_length n val : length (bits_of n val) = n.
Proof. revert val. induction n as [| n IH]; intros val; cbn; [done | by rewrite IH]. Qed.

Lemma bits_of_zero n : bits_of n 0 = replicate n 0.
Proof. induction n as [| n IH]; [done |]. cbn [bits_of replicate]. change (Z.shiftr 0 1) with 0. by rewrite IH. Qed.

Lemma clear_bits_value n i pre rest : length pre = i -> length rest = n -> clear_bits n i (pre ++ rest) = pre ++ replicate n 0.
Proof.
  revert i pre rest. induction n as [| n IH]; intros i pre rest Hi Hr; cbn [clear_bits replicate]; [by destruct rest |].
  destruct rest as [| r rest]; [done |]. injection Hr as Hr. subst i. rewrite insert_app_r_alt, Nat.sub_diag by done. cbn [insert list_insert].
  rewrite (cons_middle 0 pre rest), app_assoc, IH by (rewrite ?length_app; cbn; lia). by rewrite <- app_assoc.
Qed.

Lemma d2b_loop_value fuel val i pre rest : 0 <= val < 2 ^ Z.of_nat fuel -> length pre = i -> length rest = fuel ->
  (let '(j, arr) := d2b_loop fuel val i (pre ++ rest) in clear_bits (i + fuel - j) j arr) = pre ++ bits_of fuel val.
Proof.
  revert val i pre rest. induction fuel as [| fuel IH]; intros val i pre rest Hv Hi Hr.
  { destruct rest; [| done]. cbn [d2b_loop bits_of]. by rewrite Nat.add_0_r, Nat.sub_diag. }
  cbn [d2b_loop]. destruct (Z.eqb_spec val 0) as [-> | H0].
  { replace (i + S fuel - i)%nat with (S fuel) by lia. by rewrite clear_bits_value, bits_of_zero. }
  destruct rest as [| r rest]; [done |]. injection Hr as Hr. subst i. rewrite insert_app_r_alt, Nat.sub_diag by done. cbn [insert list_insert].
  rewrite (cons_middle _ pre rest), app_assoc. replace (length pre + S fuel)%nat with (S (length pre) + fuel)%nat by lia.
  assert (Hv' : 0 <= Z.shiftr val 1 < 2 ^ Z.of_nat fuel).
  { rewrite Nat2Z.inj_succ, Z.pow_succ_r in Hv by lia. rewrite Z.shiftr_div_pow2 by lia. split; [apply Z.div_pos; lia | apply Z.div_lt_upper_bound; lia]. }
  rewrite IH by first [done | rewrite length_app; cbn; lia].
  by rewrite <- app_assoc.
Qed.

Lemma d2b_value arr val : length arr = 64%nat -> in_u 64 val -> d2b arr val = bits_of 64 val.
Proof. intros Ha Hv. exact (d2b_loop_value 64 val 0 [] arr Hv eq_refl Ha). Qed.

(** The points of the powers of two from [i]. *)
Fixpoint powers (i n : nat) : list point := match n with O => [] | S n => 2 ^ Z.of_nat i ⊙ HH :: powers (S i) n end.

Lemma powers_lookup i n j : (j < n)%nat -> powers i n !! j = Some (2 ^ Z.of_nat (i + j) ⊙ HH).
Proof.
  revert i j. induction n as [| n IH]; intros i j Hj; [lia |]. destruct j as [| j]; cbn [powers]; [by rewrite Nat.add_0_r |].
  change (powers (S i) n !! j = Some (2 ^ Z.of_nat (i + S j) ⊙ HH)). rewrite (IH (S i) j) by lia. by rewrite Nat.add_succ_r.
Qed.

Lemma powers_length i n : length (powers i n) = n.
Proof. revert i. induction n as [| n IH]; intros i; cbn [powers length]; [done | by rewrite IH]. Qed.

Lemma H2_powers : H2 = encode <$> powers 0 64.
Proof.
  assert (L : length H2 = 64%nat) by reflexivity. apply list_eq. intros j. rewrite list_lookup_fmap. destruct (decide (j < 64)%nat) as [Hj | Hj].
  - rewrite powers_lookup by done. destruct (lookup_lt_is_Some_2 H2 j) as [b Hb]; [lia |]. rewrite Hb. by rewrite (H2_is j b Hb).
  - rewrite !lookup_ge_None_2 by (rewrite ?powers_length; lia). done.
Qed.

(** The commitments to bits with their masks. *)
Fixpoint bit_commitments (i : nat) (bs ais : list Z) : list point :=
  match bs, ais with
  | b :: bs, a :: ais => commitment a (b * 2 ^ Z.of_nat i) :: bit_commitments (S i) bs ais
  | _, _ => []
  end.

Lemma bit_commitments_length i bs ais : length ais = length bs -> length (bit_commitments i bs ais) = length bs.
Proof. revert i ais. induction bs as [| b bs IH]; intros i [| a ais] Hl; try done. injection Hl as Hl. cbn [bit_commitments length]. by rewrite IH. Qed.

(** They add up to a commitment to the amount. *)
Lemma gsum_bits i n val ais : length ais = n -> 0 <= val ->
  gsum (bit_commitments i (bits_of n val) ais) = commitment (zsum ais) (val mod 2 ^ Z.of_nat n * 2 ^ Z.of_nat i).
Proof.
  intros Hl. revert i val ais Hl. induction n as [| n IH]; intros i val [| a ais] Hl Hv; try done.
  { cbn [bits_of bit_commitments gsum foldr zsum]. unfold commitment. change (2 ^ Z.of_nat 0) with 1. by rewrite Z.mod_1_r, Z.mul_0_l, !gmul_0, gadd_zero_r. }
  injection Hl as Hl. cbn [bits_of bit_commitments gsum foldr zsum]. fold (gsum (bit_commitments (S i) (bits_of n (Z.shiftr val 1)) ais)) (zsum ais).
  rewrite (IH (S i) (Z.shiftr val 1) ais Hl) by (apply Z.shiftr_nonneg; lia). unfold commitment. rewrite land_1, Z.shiftr_div_pow2 by lia. change (2 ^ 1) with 2.
  rewrite !Nat2Z.inj_succ, !Z.pow_succ_r by lia.
  assert (E : val mod (2 * 2 ^ Z.of_nat n) = val mod 2 + 2 * ((val / 2) mod 2 ^ Z.of_nat n)) by (apply Z.rem_mul_r; [lia | apply Z.pow_pos_nonneg; lia]).
  rewrite E. replace ((val mod 2 + 2 * ((val / 2) mod 2 ^ Z.of_nat n)) * 2 ^ Z.of_nat i) with (val mod 2 * 2 ^ Z.of_nat i + (val / 2) mod 2 ^ Z.of_nat n * (2 * 2 ^ Z.of_nat i)) by ring.
  rewrite !gmul_add, <- !gadd_assoc. f_equal. apply gadd_swap.
Qed.

(** ** Borromean signatures *)

(** A position: its bit, its secret and the keys of its two rings. *)
Record position := Position { pos_b : Z; pos_x : Z; pos_1 : point; pos_2 : point }.

(** The secret is the one of the ring that the bit selects. *)
Definition position_ok (r : position) : Prop :=
  (pos_b r = 0 /\ pos_1 r = pos_x r ⊙ base \/ pos_b r = 1 /\ pos_2 r = pos_x r ⊙ base) /\ 0 <= pos_x r < sc_order.

Abbreviation in_range2 := (fun k : Z * Z => 0 <= k.1 < sc_order /\ 0 <= k.2 < sc_order).

Section Proofs.
Context (hash : list Z -> list Z) `{!FastHash hash}.
Abbreviation Hs := (Hs hash).

(** The point that a position contributes to the challenge, for the signer and for the verifier. *)
Definition boro_start (r : position) (k : Z * Z) : point :=
  if pos_b r =? 0 then Hs (encode (k.1 ⊙ base)) ⊙ pos_2 r ⊕ k.2 ⊙ base else k.1 ⊙ base.

Definition boro_point (ee : Z) (r : position) (s : Z * Z) : point :=
  Hs (encode (ee ⊙ pos_1 r ⊕ s.1 ⊙ base)) ⊙ pos_2 r ⊕ s.2 ⊙ base.

Lemma boro_open_value ee rows ss h1 h2 : 0 <= ee < sc_order -> Forall in_range2 ss -> length ss = length rows ->
  Forall2 (fun h r => p3_is h (pos_1 r)) h1 rows -> Forall2 (fun h r => p3_is h (pos_2 r)) h2 rows ->
  boro_open hash (scalar ee) ((fun s => scalar s.1) <$> ss) ((fun s => scalar s.2) <$> ss) h1 h2 = Ok (zip_with (fun r s => encode (boro_point ee r s)) rows ss).
Proof.
  intros He Fs Hl H1. revert ss h2 Fs Hl. induction H1 as [| p1 r h1 rows Hp1 _ IH]; intros [| s ss] h2 Fs Hl H2; try done.
  apply Forall_cons in Fs as [[Fs1 Fs2] Fs]. injection Hl as Hl. inversion H2 as [| p2 ? h2' ? Hp2 H2']; subst. cbn [fmap list_fmap boro_open zip_with].
  pose proof (scalar_reduced _ He) as Re. pose proof (scalar_reduced _ Fs1) as R1. pose proof (scalar_reduced _ Fs2) as R2.
  rct_step. rct_step. bind_with (rct_hash_value hash (encode (le_bytes (scalar ee) ⊙ pos_1 r ⊕ le_bytes (scalar s.1) ⊙ base))).
  pose proof (Hs_reduced hash (encode (le_bytes (scalar ee) ⊙ pos_1 r ⊕ le_bytes (scalar s.1) ⊙ base))) as Rh. rct_step. rct_step.
  bind_with (IH ss h2' Fs Hl H2'). unfold boro_point. by rewrite Hs_bytes, !scalar_value.
Qed.

Context {St : Type} (gen : nat -> St -> list Z * St) `{!RandomBytes gen}.

Lemma drawn_in g : 0 <= drawn gen g < sc_order.
Proof. by apply Z.mod_pos_bound. Qed.

Lemma boro_commit_value rows g : Forall position_ok rows ->
  exists ks g', boro_commit hash gen (pos_b <$> rows) ((fun r => encode (pos_2 r)) <$> rows) g =
      Ok ((fun k => scalar k.1) <$> ks, zip_with (fun r k => if pos_b r =? 0 then Some (scalar k.2) else None) rows ks,
          zip_with (fun r k => encode (boro_start r k)) rows ks, g') /\
    Forall in_range2 ks /\ length ks = length rows.
Proof.
  intros Hr. revert g. induction Hr as [| r rows [Hb _] _ IH]; intros g; [by exists [], g |]. cbn [fmap list_fmap boro_commit].
  pose proof (drawn_in g) as D1. pose proof (drawn_in (next gen g)) as D2. bind_with (skGen_value gen g).
  bind_with (scalarmultBase_value _ (reduced_scalar _ (drawn_reduced gen g))). rewrite le_bytes_drawn. destruct Hb as [[Eb _] | [Eb _]].
  - destruct (IH (next gen (next gen g))) as (ks & g' & E & F & L). exists ((drawn gen g, drawn gen (next gen g)) :: ks), g'.
    split_and!; [| by constructor | cbn; by rewrite L]. rewrite Eb. change (0 =? 0) with true. cbv iota. rewrite !bind_bind. bind_with (skGen_value gen (next gen g)).
    rewrite !bind_bind. bind_with (rct_hash_value hash (encode (drawn gen g ⊙ base))). rewrite bind_bind.
    bind_with (addKeys2_value _ _ (pos_2 r) (reduced_slide _ (drawn_reduced gen (next gen g))) (reduced_slide _ (Hs_reduced hash (encode (drawn gen g ⊙ base))))).
    match goal with |- mbind _ (Ok ?a) = _ => bind_with (eq_refl (Ok a)) end. bind_with E. cbn [fmap list_fmap zip_with fst snd]. unfold boro_start at 2. rewrite Eb. cbn [fst snd].
    by rewrite Hs_bytes, le_bytes_drawn.
  - destruct (IH (next gen g)) as (ks & g' & E & F & L). exists ((drawn gen g, drawn gen (next gen g)) :: ks), g'.
    split_and!; [| by constructor | cbn; by rewrite L]. rewrite Eb. change (1 =? 0) with false. change (1 =? 1) with true. cbv iota.
    match goal with |- mbind _ (Ok ?a) = _ => bind_with (eq_refl (Ok a)) end. bind_with E. cbn [fmap list_fmap zip_with fst snd]. unfold boro_start at 2. by rewrite Eb.
Qed.

Lemma boro_close_value ee rows ks g : 0 <= ee < sc_order -> Forall position_ok rows -> Forall in_range2 ks -> length ks = length rows ->
  exists ss g', boro_close hash gen (scalar ee) (pos_b <$> rows) ((fun r => scalar (pos_x r)) <$> rows) ((fun r => encode (pos_1 r)) <$> rows)
      ((fun k => scalar k.1) <$> ks) (zip_with (fun r k => if pos_b r =? 0 then Some (scalar k.2) else None) rows ks) g =
      Ok ((fun s => scalar s.1) <$> ss, (fun s => scalar s.2) <$> ss, g') /\
    Forall in_range2 ss /\ length ss = length rows /\
    zip_with (fun r s => encode (boro_point ee r s)) rows ss = zip_with (fun r k => encode (boro_start r k)) rows ks.
Proof.
  intros He Hr. revert ks g. induction Hr as [| r rows [Hb Hx] _ IH]; intros [| [a s1] ks] g Fk Lk; try done; [by exists [], g |].
  apply Forall_cons in Fk as [[Fa Fs] Fk]. cbn [fst snd] in Fa, Fs. injection Lk as Lk. cbn [fmap list_fmap boro_close zip_with fst snd].
  pose proof (scalar_reduced _ He) as Re. pose proof (scalar_reduced _ Fa) as Ra. pose proof (scalar_reduced _ Hx) as Rx. destruct Hb as [[Eb EP] | [Eb EP]].
  - rewrite Eb. change (0 =? 0) with true. cbv iota. destruct (IH ks g Fk Lk) as (ss & g' & E & F & L & EL).
    exists (((a - pos_x r * ee) mod sc_order, s1) :: ss), g'. split_and!.
    + rewrite bind_bind. bind_with (sc_mulsub_value (scalar (pos_x r)) (scalar ee) (scalar a) (reduced_scalar _ Rx) (reduced_scalar _ Re) (reduced_scalar _ Ra)).
      rewrite bind_bind. bind_with (eq_refl (at_or_undef (Some (scalar s1)))). match goal with |- mbind _ (Ok ?a) = _ => bind_with (eq_refl (Ok a)) end.
      bind_with E. by rewrite !scalar_value.
    + constructor; [split; [by apply Z.mod_pos_bound | done] | done].
    + cbn. by rewrite L.
    + cbn [zip_with]. rewrite EL. f_equal. unfold boro_point, boro_start. rewrite Eb, EP. cbn [fst snd]. rewrite (Z.mul_comm (pos_x r)). by rewrite response_cancels by apply base_order.
  - rewrite Eb. change (1 =? 0) with false. cbv iota. destruct (IH ks (next gen g) Fk Lk) as (ss & g' & E & F & L & EL).
    set (cc := Hs (encode (ee ⊙ pos_1 r ⊕ drawn gen g ⊙ base))). exists ((drawn gen g, (a - pos_x r * cc) mod sc_order) :: ss), g'. split_and!.
    + rewrite bind_bind. bind_with (skGen_value gen g). rewrite bind_bind. bind_with (addKeys2_value _ _ (pos_1 r) (reduced_slide _ (drawn_reduced gen g)) (reduced_slide _ Re)).
      rewrite le_bytes_drawn, scalar_value by done. rewrite bind_bind. bind_with (rct_hash_value hash (encode (ee ⊙ pos_1 r ⊕ drawn gen g ⊙ base))). fold cc.
      rewrite bind_bind. bind_with (sc_mulsub_value (scalar (pos_x r)) (scalar cc) (scalar a) (reduced_scalar _ Rx) (reduced_scalar _ (Hs_reduced hash _)) (reduced_scalar _ Ra)).
      match goal with |- mbind _ (Ok ?a) = _ => bind_with (eq_refl (Ok a)) end. bind_with E. unfold cc. by rewrite Hs_bytes, !scalar_value.
    + constructor; [split; [apply drawn_in | by apply Z.mod_pos_bound] | done].
    + cbn. by rewrite L.
    + cbn [zip_with]. rewrite EL. f_equal. unfold boro_point, boro_start. rewrite Eb. cbn [fst snd]. fold cc. rewrite EP, (Z.mul_comm (pos_x r)). by rewrite response_cancels by apply base_order.
Qed.


(** ** The proof of a range *)

Definition less_power (C h : point) : point := C ⊕ ⊖ h.

Lemma range_loop_value i bs m C g : Forall is_bit bs ->
  exists ais g', range_loop gen bs (encode <$> powers i (length bs)) (scalar (m mod sc_order)) (encode C) g =
      Ok (le_encode 32 <$> ais, encode <$> bit_commitments i bs ais, encode <$> zip_with less_power (bit_commitments i bs ais) (powers i (length bs)),
          scalar ((m + zsum ais) mod sc_order), encode (C ⊕ gsum (bit_commitments i bs ais)), g') /\
    Forall (fun a => 0 <= a < sc_order) ais /\ length ais = length bs.
Proof.
  intros Hb. revert i m C g. induction Hb as [| b bs Hb _ IH]; intros i m C g.
  { exists [], g. split; [| done]. cbn [length powers fmap list_fmap range_loop bit_commitments zip_with zsum foldr gsum]. by rewrite Z.add_0_r, gadd_zero_r. }
  set (a := drawn gen g). set (h := 2 ^ Z.of_nat i ⊙ HH). set (Ci := commitment a (b * 2 ^ Z.of_nat i)).
  destruct (IH (S i) (m + a) (C ⊕ Ci) (next gen g)) as (ais & g' & E & F & L). exists (a :: ais), g'.
  split_and!; [| constructor; [apply drawn_in | done] | cbn; by rewrite L]. cbn [length powers fmap list_fmap range_loop]. bind_with (skGen_value gen g). fold a h.
  pose proof (drawn_reduced gen g) as Ra. fold a in Ra.
  assert (EC : (if b =? 0 then scalarmultBase (scalar a) else if b =? 1 then addKeys1 (scalar a) (encode h) else Undef) = Ok (encode Ci)).
  { unfold Ci, commitment. destruct Hb as [-> | ->].
    - change (0 =? 0) with true. cbv iota. rewrite scalarmultBase_value by auto with keys. rewrite Z.mul_0_l, gmul_0, gadd_zero_r, scalar_value by apply drawn_in. done.
    - change (1 =? 0) with false. change (1 =? 1) with true. cbv iota. rewrite addKeys1_value by auto with keys. rewrite Z.mul_1_l, scalar_value by apply drawn_in. done. }
  bind_with EC. bind_with (subKeys_value Ci h). bind_with (sum_step m (scalar a) Ra). rewrite scalar_value by apply drawn_in.
  bind_with (addKeys_value C Ci). bind_with E. cbn [fmap list_fmap bit_commitments zip_with zsum foldr gsum]. fold Ci.
  by rewrite Z.add_assoc, gadd_assoc.
Qed.

Lemma ver_range_loop_value hs cs t T : p3_is t T -> length cs = length hs ->
  exists hH hC t', ver_range_loop (encode <$> hs) (encode <$> cs) t = Ok (Some (hH, hC, t')) /\
    Forall2 p3_is hH (zip_with less_power cs hs) /\ Forall2 p3_is hC cs /\ p3_is t' (T ⊕ gsum cs).
Proof.
  revert cs t T. induction hs as [| h hs IH]; intros [| c cs] t T Ht Hl; try done.
  { exists [], [], t. split_and!; [done | done | done |]. cbn [gsum foldr]. by rewrite gadd_zero_r. }
  injection Hl as Hl. destruct (decode_encode h) as (x1 & E1 & H1). destruct (ge_p3_to_cached_is x1 h H1) as (x2 & E2 & H2).
  destruct (decode_encode c) as (x3 & E3 & H3). destruct (ge_sub_is x3 x2 c h H3 H2) as (x4 & E4 & H4). destruct (ge_p3_to_cached_is x3 c H3) as (x5 & E5 & H5).
  destruct (ge_p1p1_to_p3_is x4 _ H4) as (x6 & E6 & H6). destruct (ge_add_is t x5 T c Ht H5) as (x7 & E7 & H7). destruct (ge_p1p1_to_p3_is x7 _ H7) as (x8 & E8 & H8).
  destruct (IH cs x8 (T ⊕ c) H8 Hl) as (hH & hC & t' & E & F1 & F2 & H9). exists (x6 :: hH), (x3 :: hC), t'. split_and!.
  - cbn [fmap list_fmap ver_range_loop]. bind_with E1. bind_with E2. bind_with E3. bind_with E4. bind_with E5. bind_with E6. bind_with E7. bind_with E8. by bind_with E.
  - by constructor.
  - by constructor.
  - cbn [gsum foldr]. by rewrite gadd_assoc.
Qed.

(** The positions of a proof. *)
Fixpoint positions (i : nat) (bs ais : list Z) : list position :=
  match bs, ais with
  | b :: bs, a :: ais =>
      let C := commitment a (b * 2 ^ Z.of_nat i) in Position b a C (less_power C (2 ^ Z.of_nat i ⊙ HH)) :: positions (S i) bs ais
  | _, _ => []
  end.

Lemma positions_fields i bs ais : length ais = length bs ->
  pos_b <$> positions i bs ais = bs /\ pos_x <$> positions i bs ais = ais /\ pos_1 <$> positions i bs ais = bit_commitments i bs ais /\
  pos_2 <$> positions i bs ais = zip_with less_power (bit_commitments i bs ais) (powers i (length bs)) /\ length (positions i bs ais) = length bs.
Proof.
  revert i ais. induction bs as [| b bs IH]; intros i [| a ais] Hl; try done. injection Hl as Hl. destruct (IH (S i) ais Hl) as (E1 & E2 & E3 & E4 & E5).
  cbn [positions bit_commitments powers length fmap list_fmap zip_with pos_b pos_x pos_1 pos_2]. by rewrite E1, E2, E3, E4, E5.
Qed.

Lemma positions_ok i bs ais : Forall is_bit bs -> Forall (fun a => 0 <= a < sc_order) ais -> Forall position_ok (positions i bs ais).
Proof.
  intros Hb. revert i ais. induction Hb as [| b bs Hb _ IH]; intros i [| a ais] Ha; cbn [positions]; constructor.
  - apply Forall_cons in Ha as [Ha _]. split; [| exact Ha]. cbn [pos_b pos_x pos_1 pos_2]. unfold less_power, commitment. destruct Hb as [-> | ->]; [left | right]; (split; [done |]).
    + by rewrite Z.mul_0_l, gmul_0, gadd_zero_r.
    + by rewrite Z.mul_1_l, <- gadd_assoc, gadd_neg_r, gadd_zero_r.
  - apply IH. by apply Forall_cons in Ha as [_ ?].
Qed.

Lemma Forall2_fmap_field {A} (f : position -> A) (R : ge_p3 -> A -> Prop) hs rows : Forall2 R hs (f <$> rows) -> Forall2 (fun h r => R h (f r)) hs rows.
Proof. intros H'. by apply Forall2_fmap_r. Qed.

(** A signature is accepted for its positions. *)
Lemma borromean_complete rows hC hH g : Forall position_ok rows -> Forall2 p3_is hC (pos_1 <$> rows) -> Forall2 p3_is hH (pos_2 <$> rows) ->
  exists bb g', genBorromean hash gen ((fun r => scalar (pos_x r)) <$> rows) ((fun r => encode (pos_1 r)) <$> rows) ((fun r => encode (pos_2 r)) <$> rows) (pos_b <$> rows) g = Ok (bb, g') /\
    verifyBorromean hash bb hC hH = Ok true.
Proof.
  intros Hr HC HH'. destruct (boro_commit_value rows g Hr) as (ks & g1 & E1 & Fk & Lk).
  set (L1 := zip_with (fun r k => encode (boro_start r k)) rows ks) in *. set (ee := Hs (concat L1)). assert (He : 0 <= ee < sc_order) by by apply Hs_range.
  destruct (boro_close_value ee rows ks g1 He Hr Fk Lk) as (ss & g2 & E2 & Fs & Ls & EL). fold L1 in EL.
  exists (BoroSig ((fun s => scalar s.1) <$> ss) ((fun s => scalar s.2) <$> ss) (scalar ee)), g2. split.
  - unfold genBorromean. bind_with E1. bind_with (rct_hash_value hash (concat L1) : hash_key64_to_scalar hash L1 = _). fold ee. by bind_with E2.
  - unfold verifyBorromean. cbn [boro_ee boro_s0 boro_s1].
    bind_with (boro_open_value ee rows ss hC hH He Fs Ls (Forall2_fmap_field _ _ _ _ HC) (Forall2_fmap_field _ _ _ _ HH')). rewrite EL.
    bind_with (rct_hash_value hash (concat L1) : hash_key64_to_scalar hash L1 = _). fold ee.
    rewrite equalKeys_value by (apply reduced_scalar; by apply scalar_reduced). by rewrite bool_decide_true.
Qed.

Lemma range_complete bits amount g : length bits = 64%nat -> in_u 64 amount ->
  exists C mask sig g', proveRange hash gen bits amount g = Ok (C, mask, sig, g') /\ reduced mask /\
    C = encode (commitment (le_bytes mask) amount) /\ verRange hash C sig = Ok true.
Proof.
  intros Hb Ha. unfold proveRange. rewrite d2b_value by done. set (bs := bits_of 64 amount). assert (Lb : length bs = 64%nat) by apply bits_of_length.
  destruct (range_loop_value 0 bs 0 gzero g (bits_of_bits 64 amount)) as (ais & g1 & E1 & Fa & La). rewrite Lb, <- H2_powers, encode_identity, gadd_zero_l in E1.
  destruct (positions_fields 0 bs ais La) as (P1 & P2 & P3 & P4 & P5). set (rows := positions 0 bs ais) in *.
  assert (Hrows : Forall position_ok rows) by (apply positions_ok; [apply bits_of_bits | done]). rewrite Lb in P4.
  destruct (ver_range_loop_value (powers 0 64) (bit_commitments 0 bs ais) ge_p3_identity gzero ge_p3_0_is) as (hH & hC & t & E2 & FH & FC & Ht);
    [by rewrite bit_commitments_length, powers_length by done |]. rewrite gadd_zero_l in Ht. rewrite <- P4 in FH. rewrite <- P3 in FC.
  destruct (borromean_complete rows hC hH g1 Hrows FC FH) as (bb & g2 & E3 & V).
  assert (Eg : gsum (bit_commitments 0 bs ais) = commitment (zsum ais) amount).
  { unfold bs. rewrite gsum_bits by first [lia | apply Ha]. change (2 ^ Z.of_nat 0) with 1. by rewrite Z.mul_1_r, Z.mod_small. }
  exists (encode (commitment (zsum ais) amount)), (scalar ((0 + zsum ais) mod sc_order)), (RangeSig bb (encode <$> bit_commitments 0 bs ais)), g2. split_and!.
  - change sc_0 with (scalar (0 mod sc_order)). bind_with E1. rewrite Eg. change (fun r => scalar (pos_x r)) with (le_encode 32 ∘ pos_x) in E3.
    change (fun r => encode (pos_1 r)) with (encode ∘ pos_1) in E3. change (fun r => encode (pos_2 r)) with (encode ∘ pos_2) in E3.
    rewrite !list_fmap_compose, P1, P2, P3, P4 in E3. by bind_with E3.
  - apply reduced_encode.
  - f_equal. unfold commitment. rewrite le_bytes_reduced. by rewrite gmul_mod by first [apply base_order | done].
  - unfold verRange. cbn [range_Ci range_asig]. rewrite H2_powers. bind_with E2. bind_with (ge_p3_tobytes_is t _ Ht). rewrite Eg, equalKeys_points, bool_decide_true by done.
    simpl_bind. cbn [check_or_false]. by bind_with V.
Qed.

(** C13: For every amount of 64 bits the prover returns a commitment to it with the mask it returns, and a proof that the
    verification of the range accepts. *)
Theorem range_accepted bits amount g : length bits = 64%nat -> in_u 64 amount ->
  exists C mask sig g', proveRange hash gen bits amount g = Ok (C, mask, sig, g') /\ reduced mask /\
    C = encode (commitment (le_bytes mask) amount) /\ verRange hash C sig = Ok true.
Proof. apply range_complete. Qed.
End Proofs.

(** ** Witness *)

Lemma range_accepted_witness : exists C mask sig g',
  proveRange cn_fast_hash constant_bytes (replicate 64 0) (2 ^ 64 - 1) 6 = Ok (C, mask, sig, g') /\ verRange cn_fast_hash C sig = Ok true.
Proof.
  destruct (range_accepted cn_fast_hash constant_bytes (replicate 64 0) (2 ^ 64 - 1) 6 eq_refl
    ltac:(split; [by apply Z.leb_le | by apply Z.ltb_lt])) as (C & mask & sig & g' & E & _ & _ & V).
  exists C, mask, sig, g'. exact (conj E V).
Defined.
