(* ===== verification/RctSigs.v ===== *)
(** Confidential transactions ([src/ringct/rctSigs.cpp], [rctTypes.cpp]).

    The signature of a transaction with its range proofs, the checks that do not
    need the ring ([verRctSemanticsSimple]), those that do
    ([verRctNonSemanticsSimple], [verRct]), and the decoding of an output by its
    owner. The tasks of a thread pool write one result each and the caller
    waits for all, so they run in order here. The verification of Bulletproofs
    ([bulletproofs.cc], [bulletproofs_plus.cc]) is a parameter, for one choice of
    the weights that it draws. *)
From stdpp Require Import base list numbers.
From S2P Require Import Prelude FastHash Archive Limbs ScalarOps FieldOps CurveData GroupOps PointCodec HashPoint ScalarMult Random Keys TxFormat RctData RctOps Clsag Mlsag RangeProof.
Open Scope Z_scope.

(** A proof of the archive with the commitments that are restored from the outputs.
    Source: src/src/ringct/rctTypes.h:198-213 (Bulletproof) *)
Record Bulletproof := mkBulletproof { bp_V : list key; bp : Tx.Bulletproof }.

(** Source: src/src/ringct/rctTypes.h:242-255 (BulletproofPlus) *)
Record BulletproofPlus := mkBulletproofPlus { bpp_V : list key; bpp : Tx.BulletproofPlus }.

(** Source: src/src/ringct/rctTypes.h:396-402 (rctSigPrunable) *)
Record rctSigPrunable := RctSigPrunable {
  rangeSigs : list rangeSig;
  bulletproofs : list Bulletproof;
  MGs : list mgSig;
  CLSAGs : list clsag;
  bulletproofs_plus : list BulletproofPlus;
  p_pseudoOuts : list key
}.

(** Source: src/src/ringct/rctTypes.h:310-324 (rctSigBase) *)
Record rctSig := RctSig {
  type : Z;
  message : key;
  mixRing : list (list ctkey);
  pseudoOuts : list key;
  ecdhInfo : list Tx.ecdhTuple;
  outPk : list ctkey;
  txnFee : Z;
  p : rctSigPrunable
}.

(** Source: src/src/ringct/rctTypes.cpp:213-226 (is_rct_simple) *)
Definition is_rct_simple (type : Z) : bool :=
  (type =? Tx.RCTTypeSimple) || (type =? Tx.RCTTypeBulletproof1Simple) || (type =? Tx.RCTTypeBulletproof2) ||
  (type =? Tx.RCTTypeCLSAG) || (type =? Tx.RCTTypeBulletproofPlus).

(** Source: src/src/ringct/rctTypes.cpp:228-240 (is_rct_bulletproof) *)
Definition is_rct_bulletproof (type : Z) : bool :=
  (type =? Tx.RCTTypeBulletproof1Simple) || (type =? Tx.RCTTypeBulletproof1Full) || (type =? Tx.RCTTypeBulletproof2) || (type =? Tx.RCTTypeCLSAG).

(** Source: src/src/ringct/rctTypes.cpp:242-251 (is_rct_bulletproof_plus) *)
Definition is_rct_bulletproof_plus (type : Z) : bool := type =? Tx.RCTTypeBulletproofPlus.

(** Source: src/src/ringct/rctTypes.cpp:253-263 (is_rct_clsag) *)
Definition is_rct_clsag (type : Z) : bool := (type =? Tx.RCTTypeCLSAG) || (type =? Tx.RCTTypeBulletproofPlus).

(** The outputs that a proof is for, 0 when it is malformed; the two kinds of proofs have the same code.
    Source: src/src/ringct/rctTypes.cpp:277-288 (n_bulletproof_amounts) *)
Definition n_amounts (V L R : list key) : Z :=
  if zlen L <? 6 then 0
  else if negb (zlen L =? zlen R) then 0
  else if 6 + 4 <? zlen L then 0
  else if Z.shiftl 1 (zlen L - 6) <? zlen V then 0
  else if zlen V * 2 <=? Z.shiftl 1 (zlen L - 6) then 0
  else if zlen V =? 0 then 0
  else zlen V.

(** Source: src/src/ringct/rctTypes.cpp:290-302 (n_bulletproof_amounts) *)
Fixpoint sum_amounts (n : Z) (amounts : list Z) : Z :=
  match amounts with
  | [] => n
  | n2 :: amounts =>
      if negb (n2 <? (2 ^ 32 - 1) -! n) then 0
      else if n2 =? 0 then 0
      else sum_amounts (n +! n2) amounts
  end.

(** Source: src/src/ringct/rctTypes.cpp:290-302 (n_bulletproof_amounts) *)
Definition n_bulletproof_amounts (proofs : list Bulletproof) : Z :=
  sum_amounts 0 (map (fun p => n_amounts (bp_V p) (Tx.bp_L (bp p)) (Tx.bp_R (bp p))) proofs).

(** Source: src/src/ringct/rctTypes.cpp:341-353 (n_bulletproof_plus_amounts) *)
Definition n_bulletproof_plus_amounts (proofs : list BulletproofPlus) : Z :=
  sum_amounts 0 (map (fun p => n_amounts (bpp_V p) (Tx.bpp_L (bpp p)) (Tx.bpp_R (bpp p))) proofs).

(** Tasks whose results are all awaited. *)
Fixpoint all_tasks (tasks : list (outcome bool)) : outcome bool :=
  match tasks with
  | [] => Ok true
  | t :: tasks => r ← t; rest ← all_tasks tasks; Ok (r && rest)
  end.

Section Operations.
Context (cn_fast_hash : list Z -> list Z).
Context (bulletproof_VERIFY : Bulletproof -> bool -> outcome bool) (bulletproof_VERIFY_v2 : list Bulletproof -> outcome bool).
Context (bulletproof_plus_VERIFY : list BulletproofPlus -> outcome bool).
Abbreviation verRange := (verRange cn_fast_hash).

(** Source: src/src/ringct/rctSigs.cpp:144-149 (verBulletproof) *)
Definition verBulletproof (proof : Bulletproof) (v2 : bool) : outcome bool := catch_false (bulletproof_VERIFY proof v2).

(** Source: src/src/ringct/rctSigs.cpp:151-156 (verBulletproof) *)
Definition verBulletproofs (proofs : list Bulletproof) : outcome bool := catch_false (bulletproof_VERIFY_v2 proofs).

(** Source: src/src/ringct/rctSigs.cpp:177-182 (verBulletproofPlus) *)
Definition verBulletproofPlus (proofs : list BulletproofPlus) : outcome bool := catch_false (bulletproof_plus_VERIFY proofs).

(** ** Checks without the ring *)

(** Source: src/src/ringct/rctSigs.cpp:1708-1744 (verRctSemanticsSimple) *)
Definition semantics_sizes (rv : rctSig) : bool :=
  let pr := p rv in
  ((type rv =? Tx.RCTTypeSimple) || (type rv =? Tx.RCTTypeBulletproof2) || (type rv =? Tx.RCTTypeCLSAG) || (type rv =? Tx.RCTTypeBulletproofPlus)) &&
  (if is_rct_bulletproof (type rv) || is_rct_bulletproof_plus (type rv) then
     (if is_rct_bulletproof_plus (type rv) then zlen (outPk rv) =? n_bulletproof_plus_amounts (bulletproofs_plus pr)
      else zlen (outPk rv) =? n_bulletproof_amounts (bulletproofs pr)) &&
     (if is_rct_clsag (type rv) then (length (MGs pr) =? 0)%nat && (length (p_pseudoOuts pr) =? length (CLSAGs pr))%nat
      else (length (CLSAGs pr) =? 0)%nat && (length (p_pseudoOuts pr) =? length (MGs pr))%nat) &&
     (length (pseudoOuts rv) =? 0)%nat
   else (length (outPk rv) =? length (rangeSigs pr))%nat && (length (pseudoOuts rv) =? length (MGs pr))%nat && (length (p_pseudoOuts pr) =? 0)%nat) &&
  (length (outPk rv) =? length (ecdhInfo rv))%nat.

(** The commitments of the inputs.
    Source: src/src/ringct/rctSigs.cpp:1753-1753 (verRctSemanticsSimple) *)
Definition pseudo_outs (rv : rctSig) : list key :=
  if is_rct_bulletproof (type rv) || is_rct_bulletproof_plus (type rv) then p_pseudoOuts (p rv) else pseudoOuts rv.

(** Source: src/src/ringct/rctSigs.cpp:1755-1771 (verRctSemanticsSimple) *)
Definition semantics_sum (rv : rctSig) : outcome bool :=
  sumOutpks ← addKeysV (ct_mask <$> outPk rv);
  txnFeeKey ← scalarmultH_v2 (d2h (txnFee rv));
  sumOutpks ← addKeys txnFeeKey sumOutpks;
  sumPseudoOuts ← addKeysV (pseudo_outs rv);
  equalKeys sumPseudoOuts sumOutpks.

(** Source: src/src/ringct/rctSigs.cpp:1747-1771 (verRctSemanticsSimple) *)
Fixpoint semantics_sums (rvv : list rctSig) : outcome bool :=
  match rvv with
  | [] => Ok true
  | rv :: rvv => ok ← semantics_sum rv; check_or_false ok (semantics_sums rvv)
  end.

(** The range proofs of the outputs.
    Source: src/src/ringct/rctSigs.cpp:1785-1786 (verRctSemanticsSimple) *)
Definition range_tasks (rv : rctSig) : list (outcome bool) :=
  zip_with (fun o r => verRange (ct_mask o) r) (outPk rv) (rangeSigs (p rv)).

(** Source: src/src/ringct/rctSigs.cpp:1773-1788 (verRctSemanticsSimple) *)
Definition collect_tasks (rvv : list rctSig) : list (outcome bool) :=
  concat ((fun rv => if is_rct_bulletproof_plus (type rv) || is_rct_bulletproof (type rv) then [] else range_tasks rv) <$> rvv).

Definition collect_proofs (rvv : list rctSig) : list Bulletproof :=
  concat ((fun rv => if is_rct_bulletproof_plus (type rv) then [] else if is_rct_bulletproof (type rv) then bulletproofs (p rv) else []) <$> rvv).

Definition collect_proofs_plus (rvv : list rctSig) : list BulletproofPlus :=
  concat ((fun rv => if is_rct_bulletproof_plus (type rv) then bulletproofs_plus (p rv) else []) <$> rvv).

(** Source: src/src/ringct/rctSigs.cpp:1695-1821 (verRctSemanticsSimple) *)
Definition verRctSemanticsSimple (rvv : list rctSig) : outcome bool :=
  catch_false (
  check_or_false (forallb semantics_sizes rvv) (
  sums ← semantics_sums rvv;
  check_or_false sums (
  let proofs_plus := collect_proofs_plus rvv in
  let proofs := collect_proofs rvv in
  plus_ok ← (if (length proofs_plus =? 0)%nat then Ok true else verBulletproofPlus proofs_plus);
  check_or_false plus_ok (
  proofs_ok ← (if (length proofs =? 0)%nat then Ok true else verBulletproofs proofs);
  check_or_false proofs_ok (
  results ← all_tasks (collect_tasks rvv);
  check_or_false results (Ok true)))))).

(** Source: src/src/ringct/rctSigs.cpp:1619-1632 (verRctSemanticsSimple_v1) *)
Definition semantics_sizes_v1 (rv : rctSig) : bool :=
  let pr := p rv in
  ((type rv =? Tx.RCTTypeSimple) || (type rv =? Tx.RCTTypeBulletproof1Simple)) &&
  (if type rv =? Tx.RCTTypeBulletproof1Simple then
     (length (outPk rv) =? length (bulletproofs pr))%nat && (length (p_pseudoOuts pr) =? length (MGs pr))%nat && (length (pseudoOuts rv) =? 0)%nat
   else (length (outPk rv) =? length (rangeSigs pr))%nat && (length (pseudoOuts rv) =? length (MGs pr))%nat && (length (p_pseudoOuts pr) =? 0)%nat) &&
  (length (outPk rv) =? length (ecdhInfo rv))%nat.

(** Source: src/src/ringct/rctSigs.cpp:1639-1659 (verRctSemanticsSimple_v1) *)
Definition semantics_sum_v1 (rv : rctSig) : outcome bool :=
  let outs := if is_rct_bulletproof (type rv) then p_pseudoOuts (p rv) else pseudoOuts rv in
  sumOutpks ← sumKeys (ct_mask <$> outPk rv);
  txnFeeKey ← scalarmultH_v1 (d2h (txnFee rv));
  sumOutpks ← addKeys txnFeeKey sumOutpks;
  sumPseudoOuts ← sumKeys outs;
  equalKeys sumPseudoOuts sumOutpks.

(** Source: src/src/ringct/rctSigs.cpp:1663-1670 (verRctSemanticsSimple_v1) *)
Definition range_tasks_v1 (rv : rctSig) : list (outcome bool) :=
  if (length (rangeSigs (p rv)) =? 0)%nat
  then (fun i => b ← at_or_undef (bulletproofs (p rv) !! i); verBulletproof b false) <$> seq 0 (length (outPk rv))
  else (fun i => o ← at_or_undef (outPk rv !! i); r ← at_or_undef (rangeSigs (p rv) !! i); verRange (ct_mask o) r) <$> seq 0 (length (outPk rv)).

(** Source: src/src/ringct/rctSigs.cpp:1614-1693 (verRctSemanticsSimple_v1) *)
Definition verRctSemanticsSimple_v1 (rv : rctSig) : outcome bool :=
  catch_false (
  check_or_false (semantics_sizes_v1 rv) (
  sums ← semantics_sum_v1 rv;
  check_or_false sums (
  results ← all_tasks (range_tasks_v1 rv);
  check_or_false results (Ok true)))).

(** ** Checks with the ring *)

(** The fields of the base that the archive carries.
    Source: src/src/ringct/rctSigs.cpp:629-629 (get_pre_mlsag_hash) *)
Definition base_of (rv : rctSig) : Tx.rctSigBase :=
  Tx.RctSigBase (type rv) (txnFee rv) (pseudoOuts rv) (ecdhInfo rv) (ct_mask <$> outPk rv).

(** The keys of the range proofs.
    Source: src/src/ringct/rctSigs.cpp:634-692 (get_pre_mlsag_hash) *)
Definition proof_keys (rv : rctSig) : list key :=
  if (type rv =? Tx.RCTTypeBulletproof1Simple) || (type rv =? Tx.RCTTypeBulletproof1Full) || (type rv =? Tx.RCTTypeBulletproof2) || (type rv =? Tx.RCTTypeCLSAG) then
    concat ((fun b => let p := bp b in [Tx.bp_A p; Tx.bp_S p; Tx.bp_T1 p; Tx.bp_T2 p; Tx.bp_taux p; Tx.bp_mu p] ++ Tx.bp_L p ++ Tx.bp_R p ++
      [Tx.bp_a p; Tx.bp_b p; Tx.bp_t p]) <$> bulletproofs (p rv))
  else if type rv =? Tx.RCTTypeBulletproofPlus then
    concat ((fun b => let p := bpp b in [Tx.bpp_A p; Tx.bpp_A1 p; Tx.bpp_B p; Tx.bpp_r1 p; Tx.bpp_s1 p; Tx.bpp_d1 p] ++ Tx.bpp_L p ++ Tx.bpp_R p)
      <$> bulletproofs_plus (p rv))
  else concat ((fun r => boro_s0 (range_asig r) ++ boro_s1 (range_asig r) ++ [boro_ee (range_asig r)] ++ range_Ci r) <$> rangeSigs (p rv)).

(** With the default device, whose [mlsag_prehash] hashes the three hashes.
    Source: src/src/ringct/rctSigs.cpp:616-696 (get_pre_mlsag_hash) *)
Definition get_pre_mlsag_hash (rv : rctSig) : outcome key :=
  _ ← check_or_throw (negb (length (mixRing rv) =? 0)%nat) "Empty mixRing";
  ring0 ← at_or_undef (mixRing rv !! 0%nat);
  let inputs := if is_rct_simple (type rv) then length (mixRing rv) else length ring0 in
  let '(blob, good) := Tx.w_rctsig_base inputs (length (ecdhInfo rv)) (base_of rv) in
  _ ← check_or_throw good "Failed to serialize rctSigBase";
  Ok (hash_keys cn_fast_hash [message rv; cn_fast_hash blob; hash_keys cn_fast_hash (proof_keys rv)]).

(** Source: src/src/ringct/rctSigs.cpp:1909-1918 (verRctNonSemanticsSimple) *)
Definition input_task (message : key) (rv : rctSig) (i : nat) : outcome bool :=
  ring ← at_or_undef (mixRing rv !! i);
  C ← at_or_undef (pseudo_outs rv !! i);
  if is_rct_clsag (type rv) then
    sig ← at_or_undef (CLSAGs (p rv) !! i); verRctCLSAGSimple cn_fast_hash message sig ring C
  else
    sig ← at_or_undef (MGs (p rv) !! i); verRctMGSimple_v2 cn_fast_hash message sig ring C.

(** Source: src/src/ringct/rctSigs.cpp:1882-1939 (verRctNonSemanticsSimple) *)
Definition verRctNonSemanticsSimple (rv : rctSig) : outcome bool :=
  catch_false (
  check_or_false ((type rv =? Tx.RCTTypeSimple) || (type rv =? Tx.RCTTypeBulletproof2) || (type rv =? Tx.RCTTypeCLSAG) || (type rv =? Tx.RCTTypeBulletproofPlus)) (
  check_or_false (length (pseudo_outs rv) =? length (mixRing rv))%nat (
  message ← get_pre_mlsag_hash rv;
  results ← all_tasks (input_task message rv <$> seq 0 (length (mixRing rv)));
  check_or_false results (Ok true)))).

(** Source: src/src/ringct/rctSigs.cpp:1829-1880 (verRctNonSemanticsSimple_v1) *)
Definition verRctNonSemanticsSimple_v1 (rv : rctSig) : outcome bool :=
  let outs := if is_rct_bulletproof (type rv) then p_pseudoOuts (p rv) else pseudoOuts rv in
  catch_false (
  check_or_false ((type rv =? Tx.RCTTypeSimple) || (type rv =? Tx.RCTTypeBulletproof1Simple)) (
  check_or_false (length (if (type rv =? Tx.RCTTypeBulletproof1Simple)%Z then p_pseudoOuts (p rv) else pseudoOuts rv) =? length (mixRing rv))%nat (
  message ← get_pre_mlsag_hash rv;
  results ← all_tasks ((fun i => ring ← at_or_undef (mixRing rv !! i); C ← at_or_undef (outs !! i); sig ← at_or_undef (MGs (p rv) !! i);
    verRctMGSimple_v1 cn_fast_hash message sig ring C) <$> seq 0 (length (mixRing rv)));
  check_or_false results (Ok true)))).

(** Source: src/src/ringct/rctSigs.cpp:1545-1612 (verRct) *)
Definition verRct (rv : rctSig) (semantics : bool) : outcome bool :=
  check_or_false ((type rv =? Tx.RCTTypeFull) || (type rv =? Tx.RCTTypeBulletproof1Full)) (
  check_or_false (negb semantics ||
    (if type rv =? Tx.RCTTypeBulletproof1Full then (length (outPk rv) =? length (bulletproofs (p rv)))%nat
     else (length (outPk rv) =? length (rangeSigs (p rv)))%nat) &&
    (length (outPk rv) =? length (ecdhInfo rv))%nat && (length (MGs (p rv)) =? 1)%nat) (
  catch_false (
  if semantics then
    results ← all_tasks (range_tasks_v1 rv);
    check_or_false results (Ok true)
  else
    txnFeeKey ← scalarmultH_v1 (d2h (txnFee rv));
    mg ← at_or_undef (MGs (p rv) !! 0%nat);
    message ← get_pre_mlsag_hash rv;
    mgVerd ← verRctMG cn_fast_hash mg (mixRing rv) (outPk rv) txnFeeKey message;
    check_or_false mgVerd (Ok true)))).

(** ** Decoding *)

(** The amount and the mask of an output: the end of [decodeRct] and [decodeRctSimple].
    Source: src/src/ringct/rctSigs.cpp:1987-2003 (decodeRctSimple) *)
Definition decode_output (rv : rctSig) (sk : key) (i : nat) (v2 : bool) : outcome (Z * key) :=
  _ ← check_or_throw (i <? length (ecdhInfo rv))%nat "Bad index";
  _ ← check_or_throw (length (outPk rv) =? length (ecdhInfo rv))%nat "Mismatched sizes of rv.outPk and rv.ecdhInfo";
  info ← at_or_undef (ecdhInfo rv !! i);
  ecdh_info ← ecdhDecode cn_fast_hash info sk v2;
  let mask := Tx.mask ecdh_info in
  let amount := Tx.amount ecdh_info in
  o ← at_or_undef (outPk rv !! i);
  mask_ok ← checked mask;
  _ ← check_or_throw mask_ok "warning, bad ECDH mask";
  amount_ok ← checked amount;
  _ ← check_or_throw amount_ok "warning, bad ECDH amount";
  Ctmp ← addKeys2 mask amount H;
  eq ← equalKeys (ct_mask o) Ctmp;
  _ ← check_or_throw eq "warning, amount decoded incorrectly, will be unable to spend";
  v ← h2d amount;
  Ok (v, mask).

(** A signature of another type returns false, which is the amount 0, and leaves the mask unwritten.
    Source: src/src/ringct/rctSigs.cpp:1981-2004 (decodeRctSimple) *)
Definition decodeRctSimple (rv : rctSig) (sk : key) (i : nat) : outcome (Z * option key) :=
  if is_rct_simple (type rv) then '(v, mask) ← decode_output rv sk i (Tx.short_amounts (type rv)); Ok (v, Some mask) else Ok (0, None).

(** Source: src/src/ringct/rctSigs.cpp:1951-1974 (decodeRct) *)
Definition decodeRct (rv : rctSig) (sk : key) (i : nat) : outcome (Z * option key) :=
  if (type rv =? Tx.RCTTypeFull) || (type rv =? Tx.RCTTypeBulletproof1Full)
  then '(v, mask) ← decode_output rv sk i (type rv =? Tx.RCTTypeBulletproof2); Ok (v, Some mask) else Ok (0, None).
End Operations.
