(* ===== verification/RctGen.v ===== *)
(** The making of confidential transactions ([src/ringct/rctSigs.cpp]).

    The generators of the four kinds of range proofs, with the default device;
    [fake] is its mode TRANSACTION_CREATE_FAKE. The provers of Bulletproofs are
    parameters. The signatures are not part of the hash that they sign, so the
    transaction gets them at the end; the loops over the outputs that do
    independent work are one loop for each work. *)
From stdpp Require Import base list numbers.
From S2P Require Import Prelude FastHash Archive Limbs ScalarOps FieldOps CurveData GroupOps PointCodec HashPoint ScalarMult Random Keys TxFormat RctData RctOps Clsag Mlsag RangeProof RctSigs.
Open Scope Z_scope.

(** Source: src/src/ringct/rctTypes.h:302-302 (RangeProofType) *)
Inductive RangeProofType := RangeProofBorromean | RangeProofBulletproof | RangeProofMultiOutputBulletproof | RangeProofPaddedBulletproof.

#[export] Instance RangeProofType_eq_dec : EqDecision RangeProofType.
Proof. solve_decision. Defined.

(** Source: src/src/ringct/rctTypes.h:303-309 (RCTConfig) *)
Record RCTConfig := { range_proof_type : RangeProofType; bp_version : Z }.

(** The least size of [L] for that many outputs; the sizes of vectors fit the 32 bits of the shift.
    Source: src/src/ringct/rctSigs.cpp:56-59 (make_dummy_bulletproof) *)
Fixpoint dummy_nrl (fuel : nat) (nrl : Z) (n_outs : Z) : Z :=
  match fuel with
  | O => nrl
  | S fuel => if Z.shiftl 1 nrl <? n_outs then dummy_nrl fuel (nrl + 1) n_outs else nrl
  end.

(** Source: src/src/ringct/rctSigs.cpp:67-77 (make_dummy_bulletproof) *)
Definition dummy_commitment (amount : Z) : outcome key :=
  let sv := map (fun i => Z.land (Z.shiftr amount (8 * Z.of_nat i)) 255) (seq 0 8) ++ replicate 24 0 in
  sv8 ← sc_mul sv INV_EIGHT;
  addKeys2 INV_EIGHT sv8 H.

(** Source: src/src/ringct/rctSigs.cpp:64-78 (make_dummy_bulletproof) *)
Fixpoint dummy_commitments (outamounts : list Z) : outcome (list key) :=
  match outamounts with
  | [] => Ok []
  | a :: outamounts => c ← dummy_commitment a; C ← dummy_commitments outamounts; Ok (c :: C)
  end.

(** Source: src/src/ringct/rctSigs.cpp:52-81 (make_dummy_bulletproof) *)
Definition make_dummy_bulletproof (outamounts : list Z) : outcome (Bulletproof * list key * list key) :=
  let n := length outamounts in
  let im := identity in
  let nrl := Z.to_nat (dummy_nrl n 0 (Z.of_nat n) + 6) in
  C ← dummy_commitments outamounts;
  Ok (mkBulletproof (replicate n im) (Tx.mkBulletproof im im im im im im (replicate nrl im) (replicate nrl im) im im im), C, replicate n im).

(** Source: src/src/ringct/rctSigs.cpp:83-112 (make_dummy_bulletproof_plus) *)
Definition make_dummy_bulletproof_plus (outamounts : list Z) : outcome (BulletproofPlus * list key * list key) :=
  let n := length outamounts in
  let im := identity in
  let nrl := Z.to_nat (dummy_nrl n 0 (Z.of_nat n) + 6) in
  C ← dummy_commitments outamounts;
  Ok (mkBulletproofPlus (replicate n im) (Tx.mkBulletproofPlus im im im im im im (replicate nrl im) (replicate nrl im)), C, replicate n im).

(** Source: src/src/ringct/rctSigs.cpp:114-119 (make_dummy_clsag) *)
Definition make_dummy_clsag (ring_size : nat) : clsag := Clsag (replicate ring_size identity) identity identity identity.

Section Operations.
Context (cn_fast_hash : list Z -> list Z).
Context {St : Type} (generate_random_bytes_thread_safe : nat -> St -> list Z * St).
Context (bulletproof_PROVE_v1 : Z -> key -> St -> outcome (Bulletproof * St)) (bulletproof_PROVE_v2 : list Z -> list key -> St -> outcome (Bulletproof * St)).
Context (bulletproof_plus_PROVE : list Z -> list key -> St -> outcome (BulletproofPlus * St)).
(** The array of the bits of an amount, before it is filled. *)
Context (bits : list Z) (fake : bool).
Abbreviation skGen := (skGen generate_random_bytes_thread_safe).
Abbreviation proveRange := (proveRange cn_fast_hash generate_random_bytes_thread_safe bits).
Abbreviation get_pre_mlsag_hash := (get_pre_mlsag_hash cn_fast_hash).

(** ** Range proofs *)

(** Source: src/src/ringct/rctSigs.cpp:123-130 (proveRangeBulletproof) *)
Definition proveRangeBulletproof (amount : Z) (g : St) : outcome (key * key * Bulletproof * St) :=
  '(mask, g) ← skGen g;
  '(proof, g) ← bulletproof_PROVE_v1 amount mask g;
  _ ← check_or_throw (length (bp_V proof) =? 1)%nat "V has not exactly one element";
  C ← at_or_undef (bp_V proof !! 0%nat);
  Ok (C, mask, proof, g).

(** Source: src/src/ringct/rctSigs.cpp:135-137 (proveRangeBulletproof) *)
Fixpoint commitment_masks (sk : list key) : outcome (list key) :=
  match sk with [] => Ok [] | k :: sk => m ← genCommitmentMask cn_fast_hash k; masks ← commitment_masks sk; Ok (m :: masks) end.

(** Source: src/src/ringct/rctSigs.cpp:132-142 (proveRangeBulletproof) *)
Definition proveRangeBulletproofs (amounts : list Z) (sk : list key) (g : St) : outcome (Bulletproof * list key * list key * St) :=
  _ ← check_or_throw (length amounts =? length sk)%nat "Invalid amounts/sk sizes";
  masks ← commitment_masks sk;
  '(proof, g) ← bulletproof_PROVE_v2 amounts masks g;
  _ ← check_or_throw (length (bp_V proof) =? length amounts)%nat "V does not have the expected size";
  Ok (proof, bp_V proof, masks, g).

(** Source: src/src/ringct/rctSigs.cpp:158-168 (proveRangeBulletproofPlus) *)
Definition proveRangeBulletproofPlus (amounts : list Z) (sk : list key) (g : St) : outcome (BulletproofPlus * list key * list key * St) :=
  _ ← check_or_throw (length amounts =? length sk)%nat "Invalid amounts/sk sizes";
  masks ← commitment_masks sk;
  '(proof, g) ← bulletproof_plus_PROVE amounts masks g;
  _ ← check_or_throw (length (bpp_V proof) =? length amounts)%nat "V does not have the expected size";
  Ok (proof, bpp_V proof, masks, g).

(** The commitments, the masks and the proofs of [n] outputs.
    Source: src/src/ringct/rctSigs.cpp:1220-1234 (genRctSimple_v1) *)
Fixpoint prove_each {A} (prove : Z -> St -> outcome (key * key * A * St)) (n : nat) (amounts : list Z) (g : St)
    : outcome (list key * list key * list A * St) :=
  match n, amounts with
  | O, _ => Ok ([], [], [], g)
  | S n, a :: amounts =>
      '(C, mask, proof, g) ← prove a g;
      '(Cs, masks, proofs, g) ← prove_each prove n amounts g;
      Ok (C :: Cs, mask :: masks, proof :: proofs, g)
  | _, _ => Undef
  end.

(** Source: src/src/ringct/rctSigs.cpp:1225-1228 (genRctSimple_v1) *)
Definition prove_v1 (bulletproof : bool) (n : nat) (amounts : list Z) (g : St) : outcome (list key * list key * list Bulletproof * list rangeSig * St) :=
  if bulletproof then '(C, masks, proofs, g) ← prove_each proveRangeBulletproof n amounts g; Ok (C, masks, proofs, [], g)
  else '(C, masks, proofs, g) ← prove_each proveRange n amounts g; Ok (C, masks, [], proofs, g).

(** Source: src/src/ringct/rctSigs.cpp:1336-1340 (genRctSimple_v2) *)
Fixpoint scalarmult8_all (C : list key) : outcome (list key) :=
  match C with [] => Ok [] | c :: C => c8 ← scalarmult8 c; rest ← scalarmult8_all C; Ok (c8 :: rest) end.

(** One proof: the commitments, the masks and the proof.
    Source: src/src/ringct/rctSigs.cpp:1321-1341 (genRctSimple_v2) *)
Definition prove_batch (amounts : list Z) (keys : list key) (g : St) : outcome (list key * list key * Bulletproof * St) :=
  '(proof, C, masks, g) ← (if fake then '(proof, C, masks) ← make_dummy_bulletproof amounts; Ok (proof, C, masks, g) else proveRangeBulletproofs amounts keys g);
  C8 ← scalarmult8_all C;
  Ok (C8, masks, proof, g).

(** Source: src/src/ringct/rctSigs.cpp:1463-1492 (genRctSimple_v3) *)
Definition prove_batch_plus (amounts : list Z) (keys : list key) (g : St) : outcome (list key * list key * BulletproofPlus * St) :=
  '(proof, C, masks, g) ← (if fake then '(proof, C, masks) ← make_dummy_bulletproof_plus amounts; Ok (proof, C, masks, g) else proveRangeBulletproofPlus amounts keys g);
  C8 ← scalarmult8_all C;
  Ok (C8, masks, proof, g).

(** Source: src/src/ringct/rctSigs.cpp:1346-1347 (genRctSimple_v2) *)
Fixpoint grow_batch (fuel : nat) (batch_size amounts_proved n_amounts : nat) : nat :=
  match fuel with
  | O => batch_size
  | S fuel =>
      if (batch_size * 2 + amounts_proved <=? n_amounts)%nat && (batch_size * 2 <=? 16)%nat
      then grow_batch fuel (batch_size * 2) amounts_proved n_amounts else batch_size
  end.

(** A batch grows four times at most, and has one output at least.
    Source: src/src/ringct/rctSigs.cpp:1342-1371 (genRctSimple_v2) *)
Fixpoint prove_batches (fuel : nat) (multi : bool) (amounts : list Z) (keys : list key) (g : St) : outcome (list key * list key * list Bulletproof * St) :=
  match fuel with
  | O => Ok ([], [], [], g)
  | S fuel =>
      if (length amounts =? 0)%nat then Ok ([], [], [], g) else
      let batch_size := if multi then grow_batch 4 1 0 (length amounts) else 1%nat in
      '(C, masks, proof, g) ← prove_batch (take batch_size amounts) (take batch_size keys) g;
      '(Cs, maskss, proofs, g) ← prove_batches fuel multi (drop batch_size amounts) (drop batch_size keys) g;
      Ok (C ++ Cs, masks ++ maskss, proof :: proofs, g)
  end.

(** ** Amounts and pseudo outputs *)

(** Source: src/src/ringct/rctSigs.cpp:1379-1383 (genRctSimple_v2) *)
Fixpoint encode_outputs (masks : list key) (outamounts : list Z) (amount_keys : list key) (v2 : bool) : outcome (list Tx.ecdhTuple) :=
  match masks, outamounts, amount_keys with
  | [], _, _ => Ok []
  | m :: masks, a :: outamounts, k :: amount_keys =>
      e ← ecdhEncode cn_fast_hash (Tx.EcdhTuple m (d2h a)) k v2;
      rest ← encode_outputs masks outamounts amount_keys v2;
      Ok (e :: rest)
  | _, _, _ => Undef
  end.

(** Source: src/src/ringct/rctSigs.cpp:1374-1377 (genRctSimple_v2) *)
Definition sum_masks (masks : list key) : outcome key := foldl (fun sumout m => sumout ← sumout; sc_add m sumout) (Ok zero) masks.

(** The masks [a] and the pseudo outputs; the last mask makes the sums equal.
    Source: src/src/ringct/rctSigs.cpp:1389-1399 (genRctSimple_v2) *)
Fixpoint make_pseudo_outs (genC : key -> Z -> outcome key) (inamounts : list Z) (sumout sumpouts : key) (g : St) : outcome (list key * list key * St) :=
  match inamounts with
  | [] => Undef
  | [x] => a ← sc_sub sumout sumpouts; C ← genC a x; Ok ([a], [C], g)
  | x :: inamounts =>
      '(a, g) ← skGen g;
      sumpouts ← sc_add a sumpouts;
      C ← genC a x;
      '(As, Cs, g) ← make_pseudo_outs genC inamounts sumout sumpouts g;
      Ok (a :: As, C :: Cs, g)
  end.

(** ** Signatures *)

(** The signatures and the challenges for [msout].
    Source: src/src/ringct/rctSigs.cpp:1403-1407 (genRctSimple_v2) *)
Fixpoint sign_mgs (message : key) (mixRing : list (list ctkey)) (inSk : list ctkey) (a pseudoOuts : list key) (kLRki : option (list multisig_kLRki))
    (index : list nat) (g : St) : outcome (list mgSig * list key * St) :=
  match inSk, mixRing, a, pseudoOuts, index with
  | [], _, _, _, _ => Ok ([], [], g)
  | sk :: inSk, ring :: mixRing, ai :: a, po :: pseudoOuts, ix :: index =>
      k ← (match kLRki with None => Ok None | Some l => k ← at_or_undef (head l); Ok (Some k) end);
      '(mg, c, g) ← proveRctMGSimple cn_fast_hash generate_random_bytes_thread_safe message ring sk ai po k ix g;
      '(mgs, cs, g) ← sign_mgs message mixRing inSk a pseudoOuts (tail <$> kLRki) index g;
      Ok (mg :: mgs, c :: cs, g)
  | _, _, _, _, _ => Undef
  end.

(** Source: src/src/ringct/rctSigs.cpp:1528-1541 (genRctSimple_v3) *)
Fixpoint sign_clsags (message : key) (mixRing : list (list ctkey)) (inSk : list ctkey) (a pseudoOuts : list key)
    (index : list nat) (g : St) : outcome (list clsag * St) :=
  match inSk, mixRing, a, pseudoOuts, index with
  | [], _, _, _, _ => Ok ([], g)
  | sk :: inSk, ring :: mixRing, ai :: a, po :: pseudoOuts, ix :: index =>
      '(sig, g) ← (if fake then Ok (make_dummy_clsag (length ring), g)
        else proveRctCLSAGSimple cn_fast_hash generate_random_bytes_thread_safe message ring sk ai po ix g);
      '(sigs, g) ← sign_clsags message mixRing inSk a pseudoOuts index g;
      Ok (sig :: sigs, g)
  | _, _, _, _, _ => Undef
  end.

(** ** Transactions *)

(** The arguments that the three generations check alike.
    Source: src/src/ringct/rctSigs.cpp:1189-1197 (genRctSimple_v1) *)
Definition check_arguments (inSk : list ctkey) (destinations : list key) (inamounts outamounts : list Z) (mixRing : list (list ctkey)) (amount_keys : list key)
    (index : list nat) : outcome unit :=
  _ ← check_or_throw (1 <=? length inamounts)%nat "Empty inamounts";
  _ ← check_or_throw (length inamounts =? length inSk)%nat "Different number of inamounts/inSk";
  _ ← check_or_throw (length outamounts =? length destinations)%nat "Different number of amounts/destinations";
  _ ← check_or_throw (length amount_keys =? length destinations)%nat "Different number of amount_keys/destinations";
  _ ← check_or_throw (length index =? length inSk)%nat "Different number of index/inSk";
  _ ← check_or_throw (length mixRing =? length inSk)%nat "Different number of mixRing/inSk";
  check_or_throw (forallb (fun '(i, ring) => (i <? length (ring : list ctkey))%nat) (zip index mixRing)) "Bad index into mixRing".

(** Source: src/src/ringct/rctSigs.cpp:1198-1201 (genRctSimple_v1) *)
Definition check_multisig (kLRki : option (list multisig_kLRki)) (msout : bool) (inamounts : list Z) : outcome unit :=
  _ ← check_or_throw (eqb (bool_decide (is_Some kLRki)) msout) "Only one of kLRki/msout is present";
  match kLRki with
  | Some l => check_or_throw (length l =? length inamounts)%nat "Mismatched kLRki/inamounts sizes"
  | None => Ok tt
  end.

(** The transaction, the masks of the outputs ([outSk]) and the challenges for [msout].
    Source: src/src/ringct/rctSigs.cpp:1185-1269 (genRctSimple_v1) *)
Definition genRctSimple_v1 (message : key) (inSk : list ctkey) (destinations : list key) (inamounts outamounts : list Z) (txnFee : Z)
    (mixRing : list (list ctkey)) (amount_keys : list key) (kLRki : option (list multisig_kLRki)) (msout : bool) (index : list nat) (rct_config : RCTConfig) (g : St)
    : outcome (rctSig * list key * list key * St) :=
  _ ← check_arguments inSk destinations inamounts outamounts mixRing amount_keys index;
  _ ← check_multisig kLRki msout inamounts;
  let bulletproof := negb (bool_decide (range_proof_type rct_config = RangeProofBorromean)) in
  let type := if bulletproof then Tx.RCTTypeBulletproof1Simple else Tx.RCTTypeSimple in
  '(C, masks, bps, ranges, g) ← prove_v1 bulletproof (length destinations) outamounts g;
  sumout ← sum_masks masks;
  ecdh ← encode_outputs masks outamounts amount_keys (type =? Tx.RCTTypeBulletproof2);
  '(a, outs, g) ← make_pseudo_outs genC_v1 inamounts sumout zero g;
  let outPk := zip_with Ctkey destinations C in
  let rv mgs := RctSig type message mixRing (if bulletproof then [] else outs) ecdh outPk txnFee
    (RctSigPrunable ranges bps mgs [] [] (if bulletproof then outs else [])) in
  full_message ← get_pre_mlsag_hash (rv []);
  '(mgs, cs, g) ← sign_mgs full_message mixRing inSk a outs kLRki index g;
  Ok (rv mgs, masks, cs, g).

(** Source: src/src/ringct/rctSigs.cpp:1271-1409 (genRctSimple_v2) *)
Definition genRctSimple_v2 (message : key) (inSk : list ctkey) (destinations : list key) (inamounts outamounts : list Z) (txnFee : Z)
    (mixRing : list (list ctkey)) (amount_keys : list key) (kLRki : option (list multisig_kLRki)) (msout : bool) (index : list nat) (rct_config : RCTConfig) (g : St)
    : outcome (rctSig * list key * list key * St) :=
  _ ← check_arguments inSk destinations inamounts outamounts mixRing amount_keys index;
  _ ← check_multisig kLRki msout inamounts;
  let bulletproof := negb (bool_decide (range_proof_type rct_config = RangeProofBorromean)) in
  let type := if bulletproof then Tx.RCTTypeBulletproof2 else Tx.RCTTypeSimple in
  '(C, masks, bps, ranges, g) ←
    (match range_proof_type rct_config with
     | RangeProofBorromean => '(C, masks, ranges, g) ← prove_each proveRange (length destinations) outamounts g; Ok (C, masks, [], ranges, g)
     | RangeProofPaddedBulletproof => '(C, masks, proof, g) ← prove_batch outamounts amount_keys g; Ok (C, masks, [proof], [], g)
     | RangeProofMultiOutputBulletproof => '(C, masks, proofs, g) ← prove_batches (length outamounts) true outamounts amount_keys g; Ok (C, masks, proofs, [], g)
     | RangeProofBulletproof => '(C, masks, proofs, g) ← prove_batches (length outamounts) false outamounts amount_keys g; Ok (C, masks, proofs, [], g)
     end);
  sumout ← sum_masks masks;
  ecdh ← encode_outputs masks outamounts amount_keys (type =? Tx.RCTTypeBulletproof2);
  '(a, outs, g) ← make_pseudo_outs genC_v2 inamounts sumout zero g;
  let outPk := zip_with Ctkey destinations C in
  let rv mgs := RctSig type message mixRing (if bulletproof then [] else outs) ecdh outPk txnFee
    (RctSigPrunable ranges bps mgs [] [] (if bulletproof then outs else [])) in
  full_message ← get_pre_mlsag_hash (rv []);
  '(mgs, cs, g) ← sign_mgs full_message mixRing inSk a outs kLRki index g;
  Ok (rv mgs, masks, cs, g).

(** Source: src/src/ringct/rctSigs.cpp:1415-1543 (genRctSimple_v3) *)
Definition genRctSimple_v3 (message : key) (inSk : list ctkey) (destinations : list key) (inamounts outamounts : list Z) (txnFee : Z)
    (mixRing : list (list ctkey)) (amount_keys : list key) (index : list nat) (rct_config : RCTConfig) (g : St)
    : outcome (rctSig * list key * St) :=
  _ ← check_or_throw (negb (bool_decide (range_proof_type rct_config = RangeProofBorromean))) "genRctSimple_v3 called without a bulletproof range proof type";
  _ ← check_arguments inSk destinations inamounts outamounts mixRing amount_keys index;
  _ ← check_or_throw ((bp_version rct_config =? 0) || (bp_version rct_config =? 4) || (bp_version rct_config =? 3)) "Unsupported BP version";
  let plus := negb (bp_version rct_config =? 3) in
  let type := if plus then Tx.RCTTypeBulletproofPlus else Tx.RCTTypeCLSAG in
  _ ← check_or_throw (bool_decide (range_proof_type rct_config = RangeProofPaddedBulletproof)) "Unsupported range proof type";
  '(C, masks, bps, bpps, g) ←
    (if plus then '(C, masks, proof, g) ← prove_batch_plus outamounts amount_keys g; Ok (C, masks, [], [proof], g)
     else '(C, masks, proof, g) ← prove_batch outamounts amount_keys g; Ok (C, masks, [proof], [], g));
  sumout ← sum_masks masks;
  ecdh ← encode_outputs masks outamounts amount_keys (Tx.short_amounts type);
  '(a, outs, g) ← make_pseudo_outs genC_v2 inamounts sumout zero g;
  let outPk := zip_with Ctkey destinations C in
  let rv sigs := RctSig type message mixRing [] ecdh outPk txnFee (RctSigPrunable [] bps [] sigs bpps outs) in
  full_message ← get_pre_mlsag_hash (rv []);
  '(sigs, g) ← sign_clsags full_message mixRing inSk a outs index g;
  Ok (rv sigs, masks, g).

(** Source: src/src/ringct/rctSigs.cpp:1158-1183 (genRctSimple) *)
Definition genRctSimple (message : key) (inSk : list ctkey) (destinations : list key) (inamounts outamounts : list Z) (txnFee : Z)
    (mixRing : list (list ctkey)) (amount_keys : list key) (kLRki : option (list multisig_kLRki)) (msout : bool) (index : list nat) (rct_config : RCTConfig) (g : St)
    : outcome (rctSig * list key * list key * St) :=
  let v := bp_version rct_config in
  if bool_decide (range_proof_type rct_config = RangeProofBorromean)
  then genRctSimple_v1 message inSk destinations inamounts outamounts txnFee mixRing amount_keys kLRki msout index rct_config g
  else if (v =? 0) || (v =? 4) || (v =? 3) then
    _ ← check_or_throw (negb (bool_decide (is_Some kLRki)) && negb msout) "Multisig is not supported with CLSAG signatures";
    '(rv, masks, g) ← genRctSimple_v3 message inSk destinations inamounts outamounts txnFee mixRing amount_keys index rct_config g;
    Ok (rv, masks, [], g)
  else if v =? 2 then genRctSimple_v2 message inSk destinations inamounts outamounts txnFee mixRing amount_keys kLRki msout index rct_config g
  else if v =? 1 then genRctSimple_v1 message inSk destinations inamounts outamounts txnFee mixRing amount_keys kLRki msout index rct_config g
  else Throw "Unsupported BP version".

(** A transaction with one ring; a last amount without a destination is the fee. The challenge is for [msout].
    Source: src/src/ringct/rctSigs.cpp:1087-1147 (genRct) *)
Definition genRct (message : key) (inSk : list ctkey) (destinations : list key) (amounts : list Z) (mixRing : list (list ctkey)) (amount_keys : list key)
    (kLRki : option multisig_kLRki) (msout : bool) (index : nat) (rct_config : RCTConfig) (g : St) : outcome (rctSig * list key * key * St) :=
  let n := length destinations in
  _ ← check_or_throw ((length amounts =? n)%nat || (length amounts =? n + 1)%nat) "Different number of amounts/destinations";
  _ ← check_or_throw (length amount_keys =? n)%nat "Different number of amount_keys/destinations";
  _ ← check_or_throw (index <? length mixRing)%nat "Bad index into mixRing";
  _ ← check_or_throw (forallb (fun ring : list ctkey => (length ring =? length inSk)%nat) mixRing) "Bad mixRing size";
  _ ← check_or_throw (eqb (bool_decide (is_Some kLRki)) msout) "Only one of kLRki/msout is present";
  _ ← check_or_throw (length inSk <? 2)%nat "genRct is not suitable for 2+ rings";
  let bulletproof := negb (bool_decide (range_proof_type rct_config = RangeProofBorromean)) in
  let type := if bulletproof then Tx.RCTTypeBulletproof1Full else Tx.RCTTypeFull in
  '(C, masks, bps, ranges, g) ← prove_v1 bulletproof n amounts g;
  ecdh ← encode_outputs masks amounts amount_keys (type =? Tx.RCTTypeBulletproof2);
  let txnFee := default 0 (amounts !! n) in
  txnFeeKey ← scalarmultH_v1 (d2h txnFee);
  let outPk := zip_with Ctkey destinations C in
  let rv mgs := RctSig type message mixRing [] ecdh outPk txnFee (RctSigPrunable ranges bps mgs [] [] []) in
  full_message ← get_pre_mlsag_hash (rv []);
  '(mg, c, g) ← proveRctMG cn_fast_hash generate_random_bytes_thread_safe full_message mixRing inSk (Ctkey zero <$> masks) outPk kLRki index txnFeeKey g;
  Ok (rv [mg], masks, c, g).
End Operations.
