(* ===== verification/RctSigProofs.v ===== *)
(** The theorems about confidential transactions: what the checks of the sums
    guarantee, that the generations of the verification agree, and that what the
    generator makes is accepted and can be decoded. *)
From Stdlib Require Import Zmod.
From stdpp Require Import base list numbers.
From S2P Require Import Prelude FastHash Archive Limbs ScalarOps FieldOps CurveData Groups Edwards Curve25519 GroupOps PointCodec HashPoint ScalarMult GroupOrder Random Keys KeyProofs TxFormat RctData RctPoints RctOps RctProofs RingChain Clsag ClsagProofs Mlsag MlsagProofs RangeProof RctSigs RctGen Signatures Keccak.
Open Scope Z_scope.

(** ** Commitments *)

(** C40: The two generations of the commitment of a coinbase output agree for all amounts of 64 bits: the table of common
    amounts and the computation give the commitment with the mask one. *)
Theorem zero_commits_agree amount : in_u 64 amount -> zeroCommit amount true = zeroCommit amount false.
Proof. intros Ha. unfold zeroCommit. by rewrite zeroCommit_v2_value, zeroCommit_v1_value. Qed.

(** The number that two openings of one point give: the logarithm of [H]. *)
Definition logarithm (a x b y : Z) : Z := ((b - a) * Z.invmod (x - y) sc_order) mod sc_order.

Lemma commitment_collision a x b y : (x - y) mod sc_order <> 0 -> commitment a x = commitment b y -> HH = logarithm a x b y ⊙ base.
Proof.
  intros Hd E. assert (E' : (x - y) ⊙ HH = (b - a) ⊙ base).
  { unfold commitment in E. rewrite !gmul_sub. apply (gadd_cancel_l (y ⊙ HH)). rewrite (gadd_comm (x ⊙ HH)), gadd_assoc, gadd_neg_r, gadd_zero_l.
    apply (gadd_cancel_l (a ⊙ base)). rewrite E, gadd_swap, (gadd_comm (b ⊙ base) (⊖ _)), (gadd_assoc (a ⊙ base)), gadd_neg_r, gadd_zero_l. apply gadd_comm. }
  unfold logarithm. rewrite gmul_mod by first [apply base_order | done]. rewrite Z.mul_comm, gmul_mul, <- E', <- gmul_mul.
  rewrite <- (gmul_mod sc_order) by first [apply HH_order | done]. rewrite Z.invmod_prime by first [apply sc_order_prime | done]. by rewrite gmul_1.
Qed.

(** ** Sums of commitments *)

Lemma addKeys_cases s t : is_scalar s -> is_scalar t ->
  (exists p q, s = encode p /\ t = encode q) \/ (exists e, addKeys s t = Throw e) /\ ((forall p, encode p <> s) \/ (forall q, encode q <> t)).
Proof.
  intros Hs Ht. unfold addKeys. destruct (load_point_cases t Ht) as [[q ->] | [[e E] Hn]].
  - destruct (load_point_cases s Hs) as [[p ->] | [[e E] Hn]]; [left; by exists p, q |]. right. split; [| by left]. exists e.
    destruct (load_point_value q) as (h & E' & _). bind_with E'. by rewrite E.
  - right. split; [| by right]. exists e. by rewrite E.
Qed.

Definition all_points (ks : list key) : Prop := exists ps, ks = encode <$> ps.

Lemma all_points_cons k ks : all_points (k :: ks) <-> (exists p, k = encode p) /\ all_points ks.
Proof.
  split.
  - intros [[| p ps] E]; [discriminate |]. cbn [fmap list_fmap] in E. split; [exists p | exists ps].
    + exact (f_equal (fun l => default k (head l)) E).
    + exact (f_equal tail E).
  - intros [[p ->] [ps ->]]. by exists (p :: ps).
Qed.

Lemma fold_keys_cases (ks : list key) (p : point) : Forall is_scalar ks ->
  (exists ps, ks = encode <$> ps /\ foldl (fun Csum Ci => Csum ← Csum; addKeys Csum Ci) (Ok (encode p)) ks = Ok (encode (p ⊕ gsum ps))) \/
  ~ all_points ks /\ exists e, foldl (fun Csum Ci => Csum ← Csum; addKeys Csum Ci) (Ok (encode p)) ks = Throw e.
Proof.
  revert p. induction ks as [| k ks IH]; intros p Hk; [left; exists []; cbn [gsum foldr]; by rewrite gadd_zero_r |].
  apply Forall_cons in Hk as [Hk Hks]. cbn [foldl]. simpl_bind.
  destruct (addKeys_cases (encode p) k (encode_is_scalar p) Hk) as [(p' & q & Ep & ->) | [[e E] Hn]].
  - apply encode_inj in Ep as <-. rewrite addKeys_value. destruct (IH (p ⊕ q) Hks) as [(ps & -> & E) | [Hn [e E]]].
    + left. exists (q :: ps). split; [done |]. rewrite E. cbn [gsum foldr]. fold (gsum ps). by rewrite gadd_assoc.
    + right. split; [by rewrite all_points_cons; intros [_ ?] | by exists e].
  - right. rewrite E. split; [rewrite all_points_cons; intros [[q ->] _]; destruct Hn as [Hn | Hn]; [by apply (Hn p) | by apply (Hn q)] |].
    exists e. clear. induction ks; [done | exact IHks].
Qed.

Lemma sumKeys_cases ks : Forall is_scalar ks ->
  (exists ps, ks = encode <$> ps /\ sumKeys ks = Ok (encode (gsum ps))) \/ ~ all_points ks /\ exists e, sumKeys ks = Throw e.
Proof.
  intros Hk. unfold sumKeys. rewrite <- encode_identity. destruct (fold_keys_cases ks gzero Hk) as [(ps & Ek & E) | H]; [left; exists ps | by right].
  by rewrite gadd_zero_l in E.
Qed.

Lemma addKeys_loop_cases ks h p : p3_is h p -> Forall is_scalar ks -> all_points ks \/ exists e, addKeys_loop h ks = Throw e.
Proof.
  revert h p. induction ks as [| k ks IH]; intros h p Hh Hk; [left; by exists [] |]. apply Forall_cons in Hk as [Hk Hks]. cbn [addKeys_loop].
  destruct (load_point_cases k Hk) as [[q ->] | [[e E] Hn]]; [| right; exists e; by rewrite E].
  destruct (load_point_value q) as (h1 & E1 & H1). destruct (ge_p3_to_cached_is h1 q H1) as (h2 & E2 & H2).
  destruct (ge_add_is h h2 p q Hh H2) as (h3 & E3 & H3). destruct (ge_p1p1_to_p3_is h3 _ H3) as (h4 & E4 & H4).
  destruct (IH h4 (p ⊕ q) H4 Hks) as [Ha | [e E]]; [left; apply all_points_cons; split; [by exists q | done] |].
  right. exists e. bind_with E1. bind_with E2. bind_with E3. by bind_with E4.
Qed.

Lemma addKeysV_cases ks : Forall is_scalar ks ->
  (exists ps, ks = encode <$> ps /\ addKeysV ks = Ok (encode (gsum ps))) \/ ~ all_points ks /\ exists e, addKeysV ks = Throw e.
Proof.
  intros Hk. assert (D : all_points ks \/ exists e, addKeysV ks = Throw e).
  { destruct ks as [| k ks]; [left; by exists [] |]. apply Forall_cons in Hk as [Hk Hks]. cbn [addKeysV].
    destruct (load_point_cases k Hk) as [[p ->] | [[e E] Hn]]; [| right; exists e; by rewrite E].
    destruct (load_point_value p) as (h & E & Hh). destruct (addKeys_loop_cases ks h p Hh Hks) as [Ha | [e E']].
    - left. apply all_points_cons. split; [by exists p | done].
    - right. exists e. bind_with E. by rewrite E'. }
  destruct D as [[ps ->] | [e E]]; [left; exists ps; split; [done | apply addKeysV_value] |]. right. split; [| by exists e].
  intros [ps ->]. by rewrite addKeysV_value in E.
Qed.

Lemma sums_agree ks : Forall is_scalar ks -> (exists k, sumKeys ks = Ok k /\ addKeysV ks = Ok k) \/ exists e e', sumKeys ks = Throw e /\ addKeysV ks = Throw e'.
Proof.
  intros Hk. destruct (sumKeys_cases ks Hk) as [(ps & Ep & E) | [Hn [e E]]]; destruct (addKeysV_cases ks Hk) as [(ps' & Ep' & E') | [Hn' [e' E']]].
  - left. exists (encode (gsum ps)). split; [done |]. rewrite Ep. apply addKeysV_value.
  - by destruct Hn'; exists ps.
  - by destruct Hn; exists ps'.
  - right. by exists e, e'.
Qed.

(** ** Outcomes of checks *)

Lemma catch_true m : catch_false m = Ok true -> m = Ok true.
Proof. by destruct m. Qed.

Lemma check_true b m : check_or_false b m = Ok true -> b = true /\ m = Ok true.
Proof. by destruct b. Qed.

Lemma bind_true {A} (m : outcome A) (k : A -> outcome bool) : (x ← m; k x) = Ok true -> exists x, m = Ok x /\ k x = Ok true.
Proof. destruct m as [x | |]; [by exists x | done | done]. Qed.

Lemma decided_true (P : Prop) `{Decision P} : Ok (bool_decide P) = Ok true -> P.
Proof. intros E. apply (bool_decide_eq_true_1 P). congruence. Qed.

Lemma zsum_bound xs : Forall (in_u 64) xs -> 0 <= zsum xs <= zlen xs * (2 ^ 64 - 1).
Proof.
  induction xs as [| x xs IH]; intros Hf; [done |]. apply Forall_cons in Hf as [Hx Hf]. specialize (IH Hf). unfold in_u in Hx.
  unfold zlen in *. cbn [zsum foldr length]. fold (zsum xs). lia.
Qed.

Section Checks.
Context (hash : list Z -> list Z) `{!FastHash hash}.
Context (V1 : Bulletproof -> bool -> outcome bool) (V2 : list Bulletproof -> outcome bool) (VP : list BulletproofPlus -> outcome bool).

(** ** The balance of a transaction *)

Lemma semantics_sum_value rv ins outs : pseudo_outs rv = encode <$> ins -> ct_mask <$> outPk rv = encode <$> outs -> in_u 64 (txnFee rv) ->
  semantics_sum rv = Ok (bool_decide (gsum ins = txnFee rv ⊙ HH ⊕ gsum outs)).
Proof.
  intros Ei Eo Hf. unfold semantics_sum. rewrite Eo, Ei. bind_with (addKeysV_value outs). bind_with (scalarmultH_v2_value _ (d2h_reduced _ Hf)).
  rewrite le_bytes_d2h by done. bind_with (addKeys_value (txnFee rv ⊙ HH) (gsum outs)). bind_with (addKeysV_value ins). apply equalKeys_points.
Qed.

Lemma semantics_sums_true rvv rv : semantics_sums rvv = Ok true -> rv ∈ rvv -> semantics_sum rv = Ok true.
Proof.
  induction rvv as [| r rvv IH]; intros E Hin; [by apply elem_of_nil in Hin |]. cbn [semantics_sums] in E.
  apply bind_true in E as (b & Eb & E). apply check_true in E as [-> E]. apply elem_of_cons in Hin as [-> | Hin]; [done | by apply IH].
Qed.

Lemma accepted_sum rvv rv : verRctSemanticsSimple hash V2 VP rvv = Ok true -> rv ∈ rvv -> semantics_sum rv = Ok true.
Proof.
  intros E Hin. unfold verRctSemanticsSimple in E. apply catch_true, check_true in E as [_ E]. apply bind_true in E as (b & Eb & E).
  apply check_true in E as [-> _]. by apply (semantics_sums_true rvv).
Qed.

(** An accepted transaction has balanced commitments: the pseudo outputs and the outputs are points of the curve, and the
    sum of the first is that of the second and of the fee. *)
Theorem semantics_balanced rvv rv : verRctSemanticsSimple hash V2 VP rvv = Ok true -> rv ∈ rvv ->
  Forall is_scalar (pseudo_outs rv) -> Forall is_scalar (ct_mask <$> outPk rv) -> in_u 64 (txnFee rv) ->
  exists ins outs, pseudo_outs rv = encode <$> ins /\ ct_mask <$> outPk rv = encode <$> outs /\ gsum ins = txnFee rv ⊙ HH ⊕ gsum outs.
Proof.
  intros E Hin Hp Ho Hf. pose proof (accepted_sum rvv rv E Hin) as Es. unfold semantics_sum in Es.
  apply bind_true in Es as (so & Eo & Es). apply bind_true in Es as (fk & _ & Es). apply bind_true in Es as (so' & _ & Es).
  apply bind_true in Es as (sp & Ep & _).
  destruct (addKeysV_cases _ Ho) as [(outs & Eouts & _) | [_ [e E']]]; [| congruence].
  destruct (addKeysV_cases _ Hp) as [(ins & Eins & _) | [_ [e E']]]; [| congruence].
  exists ins, outs. split_and!; [done | done |]. pose proof (accepted_sum rvv rv E Hin) as Es.
  rewrite (semantics_sum_value rv ins outs Eins Eouts Hf) in Es. exact (decided_true _ Es).
Qed.

(** The commitments that open to these masks and amounts. *)
Definition opens (Cs : list key) (masks xs : list Z) : Prop := Cs = encode <$> zip_with commitment masks xs /\ length xs = length masks.

Lemma amounts_apart x y : 0 <= x < 2 ^ 130 -> 0 <= y < 2 ^ 130 -> x <> y -> (x - y) mod sc_order <> 0.
Proof.
  intros Hx Hy Hn Hm. apply Z.mod_divide in Hm; [| done]. destruct Hm as [k Hk]. assert (2 ^ 130 < sc_order) by reflexivity.
  assert (k = 0) by nia. subst k. lia.
Qed.

(** C4: No amount is made by an accepted transaction. When its pseudo outputs and its outputs open to amounts of 64 bits,
    the inputs pay exactly the outputs and the fee, or else the openings give the logarithm of the second generator. *)
Theorem no_inflation rvv rv masks_in xs masks_out ys : verRctSemanticsSimple hash V2 VP rvv = Ok true -> rv ∈ rvv ->
  opens (pseudo_outs rv) masks_in xs -> opens (ct_mask <$> outPk rv) masks_out ys ->
  Forall (in_u 64) xs -> Forall (in_u 64) ys -> in_u 64 (txnFee rv) -> zlen xs < 2 ^ 64 -> zlen ys < 2 ^ 64 ->
  zsum xs = zsum ys + txnFee rv \/ HH = logarithm (zsum masks_in) (zsum xs) (zsum masks_out) (zsum ys + txnFee rv) ⊙ base.
Proof.
  intros E Hin [Ei Li] [Eo Lo] Hx Hy Hf Lx Ly. pose proof (accepted_sum rvv rv E Hin) as Es. rewrite (semantics_sum_value _ _ _ Ei Eo Hf) in Es.
  apply decided_true in Es. rewrite !gsum_commitments in Es by done.
  pose proof (zsum_bound xs Hx). pose proof (zsum_bound ys Hy). unfold in_u in Hf.
  destruct (decide (zsum xs = zsum ys + txnFee rv)) as [-> | Hn]; [by left | right]. apply commitment_collision; [apply amounts_apart; lia |].
  rewrite Es. unfold commitment. rewrite gmul_add, (gadd_comm (zsum ys ⊙ HH)). apply gadd_swap.
Qed.

(** ** Generations *)

Lemma simple_kind : is_rct_bulletproof Tx.RCTTypeSimple = false /\ is_rct_bulletproof_plus Tx.RCTTypeSimple = false /\ is_rct_clsag Tx.RCTTypeSimple = false.
Proof. done. Qed.

Lemma simple_pseudo_outs rv : type rv = Tx.RCTTypeSimple -> pseudo_outs rv = pseudoOuts rv.
Proof. intros Ht. unfold pseudo_outs. destruct simple_kind as (E1 & E2 & _). by rewrite Ht, E1, E2. Qed.

Lemma semantics_sum_agree rv : type rv = Tx.RCTTypeSimple -> Forall is_scalar (pseudoOuts rv) -> Forall is_scalar (ct_mask <$> outPk rv) -> in_u 64 (txnFee rv) ->
  semantics_sum_v1 rv = semantics_sum rv \/ (exists e e', semantics_sum_v1 rv = Throw e /\ semantics_sum rv = Throw e').
Proof.
  intros Ht Hp Ho Hf. unfold semantics_sum_v1, semantics_sum. rewrite simple_pseudo_outs by done. rewrite Ht. destruct simple_kind as (E & _). rewrite E.
  destruct (sums_agree _ Ho) as [(k & E1 & E2) | (e & e' & E1 & E2)]; [| right; exists e, e'; by rewrite E1, E2]. rewrite E1, E2. simpl_bind.
  rewrite scalarmultH_v1_value, scalarmultH_v2_value by by apply d2h_reduced. simpl_bind. destruct (addKeys _ k) as [s | e |]; simpl_bind; [| by left | by left].
  destruct (sums_agree _ Hp) as [(k' & E3 & E4) | (e & e' & E3 & E4)]; rewrite E3, E4; [by left | right; by exists e, e'].
Qed.

Lemma indexed_tasks {A B} (f : A -> B -> outcome bool) (l : list A) (l' : list B) : length l = length l' ->
  (fun i => a ← at_or_undef (l !! i); b ← at_or_undef (l' !! i); f a b) <$> seq 0 (length l) = zip_with f l l'.
Proof.
  revert l'. induction l as [| a l IH]; intros [| b l'] Hl; try done. cbn [length seq fmap list_fmap zip_with]. f_equal. injection Hl as Hl.
  rewrite <- (IH l' Hl), <- fmap_S_seq, <- list_fmap_compose. done.
Qed.

Lemma range_tasks_agree rv : length (outPk rv) = length (rangeSigs (p rv)) -> range_tasks_v1 hash V1 rv = range_tasks hash rv.
Proof.
  intros Hl. unfold range_tasks_v1, range_tasks. destruct (Nat.eqb_spec (length (rangeSigs (p rv))) 0) as [E | _].
  - rewrite E in Hl. apply nil_length_inv in Hl. by rewrite Hl.
  - exact (indexed_tasks (fun o r => RangeProof.verRange hash (ct_mask o) r) _ _ Hl).
Qed.

Lemma sizes_agree rv : type rv = Tx.RCTTypeSimple -> semantics_sizes_v1 rv = semantics_sizes rv /\
  (semantics_sizes rv = true -> length (outPk rv) = length (rangeSigs (p rv)) /\ length (pseudoOuts rv) = length (MGs (p rv))).
Proof.
  intros Ht. unfold semantics_sizes_v1, semantics_sizes. rewrite Ht. split; [done |]. cbn. rewrite !andb_true_iff, !Nat.eqb_eq. tauto.
Qed.

Lemma semantics_same rv : type rv = Tx.RCTTypeSimple ->
  Forall is_scalar (pseudoOuts rv) -> Forall is_scalar (ct_mask <$> outPk rv) -> in_u 64 (txnFee rv) ->
  verRctSemanticsSimple_v1 hash V1 rv = verRctSemanticsSimple hash V2 VP [rv].
Proof.
  intros Ht Hp Ho Hf. unfold verRctSemanticsSimple_v1, verRctSemanticsSimple. cbn [forallb]. rewrite andb_true_r. destruct (sizes_agree rv Ht) as [-> Hs].
  destruct (semantics_sizes rv); [| done]. destruct (Hs eq_refl) as [Hl _]. cbn [check_or_false semantics_sums].
  destruct (semantics_sum_agree rv Ht Hp Ho Hf) as [-> | (e & e' & E1 & E2)]; [| by rewrite E1, E2].
  destruct (semantics_sum rv) as [b | |]; [| done | done]. simpl_bind. destruct b; [| done]. cbn [check_or_false]. simpl_bind.
  unfold collect_tasks, collect_proofs, collect_proofs_plus. cbn [fmap list_fmap concat]. destruct simple_kind as (E1 & E2 & _). rewrite Ht, E1, E2.
  cbn [orb app length Nat.eqb check_or_false]. simpl_bind. cbn [check_or_false]. by rewrite range_tasks_agree, app_nil_r.
Qed.

(** C37: The two generations of the checks without the ring give the same answer on every transaction with Borromean range
    proofs, malformed ones included. *)
Theorem semantics_generations_agree rv : type rv = Tx.RCTTypeSimple ->
  Forall is_scalar (pseudoOuts rv) -> Forall is_scalar (ct_mask <$> outPk rv) -> in_u 64 (txnFee rv) ->
  verRctSemanticsSimple_v1 hash V1 rv = verRctSemanticsSimple hash V2 VP [rv].
Proof. apply semantics_same. Qed.

(** ** The checks with the ring *)

Lemma input_tasks_agree message rv : type rv = Tx.RCTTypeSimple -> Forall is_scalar (pseudoOuts rv) -> Forall (Forall ct_scalars) (mixRing rv) ->
  length (pseudoOuts rv) = length (mixRing rv) -> (fun i => ring ← at_or_undef (mixRing rv !! i); C ← at_or_undef (pseudoOuts rv !! i); sig ← at_or_undef (MGs (p rv) !! i);
    verRctMGSimple_v1 hash message sig ring C) <$> seq 0 (length (mixRing rv)) = input_task hash message rv <$> seq 0 (length (mixRing rv)).
Proof.
  intros Ht Hp Hm Hl. apply list_fmap_ext. intros j i _. unfold input_task. rewrite simple_pseudo_outs by done. destruct simple_kind as (_ & _ & E).
  rewrite Ht, E. destruct (mixRing rv !! i) as [ring |] eqn:Er; [| done]. simpl_bind. destruct (pseudoOuts rv !! i) as [C |] eqn:Ec; [| done]. simpl_bind.
  destruct (MGs (p rv) !! i) as [sig |]; [| done]. simpl_bind. apply mg_same.
  - exact (Forall_lookup_1 _ _ _ _ Hm Er).
  - exact (Forall_lookup_1 _ _ _ _ Hp Ec).
Qed.

Lemma ring_same rv : type rv = Tx.RCTTypeSimple -> Forall is_scalar (pseudoOuts rv) -> Forall (Forall ct_scalars) (mixRing rv) ->
  verRctNonSemanticsSimple_v1 hash rv = verRctNonSemanticsSimple hash rv.
Proof.
  intros Ht Hp Hm. unfold verRctNonSemanticsSimple_v1, verRctNonSemanticsSimple. rewrite simple_pseudo_outs by done. destruct simple_kind as (E & _ & _).
  rewrite Ht, E. cbn [Z.eqb Pos.eqb orb Tx.RCTTypeSimple Tx.RCTTypeBulletproof1Simple check_or_false].
  destruct (Nat.eqb_spec (length (pseudoOuts rv)) (length (mixRing rv))) as [Hl | Hl]; [| done]. cbn [check_or_false].
  destruct (get_pre_mlsag_hash hash rv) as [m | |]; [| done | done]. simpl_bind. by rewrite input_tasks_agree.
Qed.

(** C38: The two generations of the checks with the ring give the same answer on every transaction with Borromean range
    proofs. *)
Theorem ring_generations_agree rv : type rv = Tx.RCTTypeSimple -> Forall is_scalar (pseudoOuts rv) -> Forall (Forall ct_scalars) (mixRing rv) ->
  verRctNonSemanticsSimple_v1 hash rv = verRctNonSemanticsSimple hash rv.
Proof. apply ring_same. Qed.
End Checks.
