(* ===== verification/RctGenProofs.v ===== *)
(** What the generator of confidential transactions with Borromean range proofs
    makes: it always returns, both generations of the verification accept the
    result, and the receiver of each output reads its amount and its mask. *)
From stdpp Require Import base list numbers.
From S2P Require Import Prelude FastHash Archive Limbs ScalarOps FieldOps CurveData Groups Edwards Curve25519 GroupOps PointCodec HashPoint ScalarMult GroupOrder Random Keys KeyProofs TxFormat RctData RctPoints RctOps RctProofs RingChain Clsag ClsagProofs Mlsag MlsagProofs RangeProof RctSigs RctGen RctSigProofs Signatures Keccak.
Open Scope Z_scope.

(** ** The hash that is signed *)

Lemma w_then_good w1 w2 : (w_then w1 w2).2 = w1.2 && w2.2.
Proof. unfold w_then. by destruct w1 as [? []]. Qed.

Lemma w_array_good {A} (elem : A -> writer) l : (forall x, (elem x).2 = true) -> (w_array elem l).2 = true.
Proof. intros He. induction l as [| x l IH]; [done |]. cbn [w_array]. by rewrite w_then_good, He, IH. Qed.

(** A transaction whose lists have the sizes that the archive expects has a hash to sign. *)
Lemma pre_hash_defined hash rv : type rv = Tx.RCTTypeSimple -> (1 <= length (mixRing rv))%nat -> length (pseudoOuts rv) = length (mixRing rv) ->
  length (outPk rv) = length (ecdhInfo rv) -> exists m, get_pre_mlsag_hash hash rv = Ok m.
Proof.
  intros Ht Hm Hp Ho. unfold get_pre_mlsag_hash. destruct (mixRing rv) as [| ring rings] eqn:Er; [cbn in Hm; lia |]. cbn [lookup list_lookup]. simpl_bind.
  rewrite Ht. change (is_rct_simple Tx.RCTTypeSimple) with true. cbv iota.
  assert (Hg : (Tx.w_rctsig_base (length (ring :: rings)) (length (ecdhInfo rv)) (base_of rv)).2 = true).
  { unfold Tx.w_rctsig_base, base_of. cbn [Tx.type Tx.txnFee Tx.pseudoOuts Tx.ecdhInfo Tx.outPk]. rewrite Ht. unfold Tx.w_fixed, Tx.w_ecdh, Tx.w_key.
    cbn -[w_array w_varint w_then length]. rewrite !w_then_good, !w_array_good by done. cbn -[length]. rewrite length_fmap, Hp, Ho, !Nat.eqb_refl. done. }
  destruct (Tx.w_rctsig_base _ _ _) as [blob good]. cbn [snd] in Hg. rewrite Hg. eexists. reflexivity.
Qed.

(** ** Inputs and outputs *)

(** An input with its ring, and what its owner knows. *)
Record input := Input { in_ring : list (point * point); in_sk : ctkey; in_amount : Z; in_index : nat }.

(** An output with the secret that the receiver shares. *)
Record output := Output { out_dest : key; out_amount : Z; out_key : key }.

(** The owner knows the secret of the key and the opening of the commitment at the index of the ring. *)
Definition input_ok (i : input) : Prop :=
  (2 <= length (in_ring i))%nat /\ reduced (dest (in_sk i)) /\ is_scalar (ct_mask (in_sk i)) /\ in_u 64 (in_amount i) /\
  in_ring i !! in_index i = Some (le_bytes (dest (in_sk i)) ⊙ base, commitment (le_bytes (ct_mask (in_sk i))) (in_amount i)).

Abbreviation mix_ring ins := ((fun i => pub_of <$> in_ring i) <$> ins).

(** As [bind_with], for the first operation only. *)
Ltac bind_first E := etransitivity; [exact (bind_ok _ _ _ E) |]; cbv beta.

Section Generation.
Context (hash : list Z -> list Z) `{!FastHash hash}.
Context {St : Type} (gen : nat -> St -> list Z * St) `{!RandomBytes gen}.
Abbreviation Hp := (Hp hash).

(** No key of the ring hashes to the neutral point. *)
Definition ring_good (ring : list (point * point)) : bool := negb (existsb (fun pc => bool_decide (Hp (encode pc.1) = gzero)) ring).

(** ** Range proofs *)

Lemma prove_each_value bits amounts g : length bits = 64%nat -> Forall (in_u 64) amounts ->
  exists masks sigs g', prove_each (proveRange hash gen bits) (length amounts) amounts g =
    Ok (encode <$> zip_with commitment (le_bytes <$> masks) amounts, masks, sigs, g') /\
    Forall reduced masks /\ length masks = length amounts /\
    Forall2 (fun C sig => verRange hash C sig = Ok true) (encode <$> zip_with commitment (le_bytes <$> masks) amounts) sigs.
Proof.
  intros Hb. revert g. induction amounts as [| x amounts IH]; intros g Hx; [by exists [], [], g |]. apply Forall_cons in Hx as [Hx Hxs].
  destruct (range_complete hash gen bits x g Hb Hx) as (C & m & sig & g1 & E1 & Hm & EC & V).
  destruct (IH g1 Hxs) as (masks & sigs & g2 & E2 & Hms & Hl & HV). exists (m :: masks), (sig :: sigs), g2. split_and!.
  - cbn [length prove_each fmap list_fmap zip_with]. rewrite <- EC. bind_with E1. by bind_with E2.
  - by constructor.
  - cbn [length]. by rewrite Hl.
  - cbn [fmap list_fmap zip_with]. rewrite <- EC. by constructor.
Qed.

(** ** Sums of masks *)

Lemma sum_masks_value masks : Forall is_scalar masks -> sum_masks masks = Ok (scalar (zsum (le_bytes <$> masks) mod sc_order)).
Proof.
  intros Hm. unfold sum_masks. assert (G : forall s, 0 <= s < sc_order ->
    foldl (fun sumout m => sumout ← sumout; sc_add m sumout) (Ok (scalar s)) masks = Ok (scalar ((s + zsum (le_bytes <$> masks)) mod sc_order))).
  { induction masks as [| m masks IH]; intros s Hs; [cbn [foldl fmap list_fmap zsum foldr]; by rewrite Z.add_0_r, Z.mod_small |].
    apply Forall_cons in Hm as [Hm Hms]. cbn [foldl fmap list_fmap zsum foldr]. fold (zsum (le_bytes <$> masks)). simpl_bind.
    rewrite sc_add_correct by first [done | by apply reduced_scalar, scalar_reduced]. rewrite scalar_value by done.
    rewrite (IH Hms) by by apply Z.mod_pos_bound. rewrite Zplus_mod_idemp_l. do 3 f_equal. ring. }
  assert (E : zero = scalar 0) by reflexivity. rewrite E. by rewrite (G 0).
Qed.

Lemma make_pseudo_outs_cons genC x x' xs so sp g : make_pseudo_outs gen genC (x :: x' :: xs) so sp g =
  ('(a, g) ← skGen gen g; sumpouts ← sc_add a sp; C ← genC a x; '(As, Cs, g) ← make_pseudo_outs gen genC (x' :: xs) so sumpouts g;
   Ok (a :: As, C :: Cs, g)).
Proof. reflexivity. Qed.

Lemma encode_opened (m : key) masks (x : Z) xs :
  encode <$> zip_with commitment (le_bytes <$> m :: masks) (x :: xs) = encode (commitment (le_bytes m) x) :: (encode <$> zip_with commitment (le_bytes <$> masks) xs).
Proof. reflexivity. Qed.

Lemma genC_reduced a x : reduced a -> in_u 64 x -> genC_v1 a x = Ok (encode (commitment (le_bytes a) x)).
Proof. intros Ha Hx. apply genC_v1_value; [by apply reduced_scalar | done]. Qed.

Lemma sc_sub_scalars x y : 0 <= x < sc_order -> 0 <= y < sc_order -> sc_sub (scalar x) (scalar y) = Ok (scalar ((x - y) mod sc_order)).
Proof. intros Hx Hy. rewrite sc_sub_correct by by apply reduced_scalar, scalar_reduced. by rewrite !scalar_value. Qed.

Lemma sc_add_drawn g y : 0 <= y < sc_order -> sc_add (scalar (drawn gen g)) (scalar y) = Ok (scalar ((drawn gen g + y) mod sc_order)).
Proof.
  intros Hy. pose proof (drawn_reduced gen g) as Hd. rewrite sc_add_correct by first [by apply reduced_scalar | by apply reduced_scalar, scalar_reduced].
  by rewrite le_bytes_drawn, scalar_value.
Qed.

(** The last pseudo output makes the masks of the inputs sum to those of the outputs. *)
Lemma make_pseudo_outs_value xs so sp g : xs <> [] -> Forall (in_u 64) xs -> 0 <= so < sc_order -> 0 <= sp < sc_order ->
  exists a g', make_pseudo_outs gen genC_v1 xs (scalar so) (scalar sp) g = Ok (a, encode <$> zip_with commitment (le_bytes <$> a) xs, g') /\
    Forall reduced a /\ length a = length xs /\ (zsum (le_bytes <$> a)) mod sc_order = (so - sp) mod sc_order.
Proof.
  intros Hne. revert sp g. induction xs as [| x xs IH]; intros sp g Hx Hso Hsp; [done |]. apply Forall_cons in Hx as [Hx Hxs]. destruct xs as [| x' xs].
  - exists [scalar ((so - sp) mod sc_order)], g. assert (Hr : reduced (scalar ((so - sp) mod sc_order))) by apply reduced_encode. split_and!.
    + rewrite encode_opened. cbn [make_pseudo_outs]. bind_with (sc_sub_scalars so sp Hso Hsp). by bind_first (genC_reduced (scalar ((so - sp) mod sc_order)) x Hr Hx).
    + by constructor.
    + done.
    + cbn [fmap list_fmap zsum foldr]. by rewrite Z.add_0_r, le_bytes_reduced, Zmod_mod.
  - pose proof (drawn_reduced gen g) as Hd. pose proof (le_bytes_drawn gen g) as Ed. set (d := drawn gen g) in *.
    destruct (IH ltac:(done) ((d + sp) mod sc_order) (next gen g) Hxs Hso (Z.mod_pos_bound _ _ order_pos)) as (a & g' & E & Ha & Hl & Hs).
    exists (scalar d :: a), g'. split_and!.
    + rewrite make_pseudo_outs_cons, encode_opened. bind_with (skGen_value gen g). fold d.
      bind_with (sc_add_drawn g sp Hsp). fold d. bind_first (genC_reduced (scalar d) x Hd Hx). by bind_with E.
    + by constructor.
    + cbn [length]. by rewrite Hl.
    + cbn [fmap list_fmap zsum foldr]. fold (zsum (le_bytes <$> a)). rewrite Ed.
      rewrite <- Zplus_mod_idemp_r, Hs, Zplus_mod_idemp_r, <- Zplus_mod_idemp_r, Zminus_mod_idemp_r, Zplus_mod_idemp_r. f_equal. ring.
Qed.

(** ** Amounts for the receivers *)

Lemma encode_outputs_value masks outs : Forall reduced masks -> Forall (fun o => in_u 64 (out_amount o)) outs -> length masks = length outs ->
  exists es, encode_outputs hash masks (out_amount <$> outs) (out_key <$> outs) false = Ok es /\ length es = length outs /\
    forall j o, outs !! j = Some o -> exists m e, masks !! j = Some m /\ es !! j = Some e /\ reduced m /\
      ecdhDecode hash e (out_key o) false = Ok (Tx.EcdhTuple m (d2h (out_amount o))).
Proof.
  revert outs. induction masks as [| m masks IH]; intros [| o outs] Hm Ho Hl; try discriminate Hl; [by exists [] |].
  apply Forall_cons in Hm as [Hm Hms]. apply Forall_cons in Ho as [Ho Hos]. injection Hl as Hl. destruct (IH outs Hms Hos Hl) as (es & E & Le & Hd).
  destruct (ecdh_complete hash (Tx.EcdhTuple m (d2h (out_amount o))) (out_key o) false Hm (d2h_reduced _ Ho) ltac:(done)) as (e & Ee & Ed).
  exists (e :: es). split_and!.
  - cbn [fmap list_fmap encode_outputs]. bind_with Ee. by bind_with E.
  - cbn [length]. by rewrite Le.
  - intros [| j] o' Hj; cbn in Hj; [injection Hj as <-; exists m, e; done | exact (Hd j o' Hj)].
Qed.

Lemma passes b what : b = true -> check_or_throw b what = Ok tt.
Proof. by intros ->. Qed.

Lemma found {A} (o : option A) x : o = Some x -> at_or_undef o = Ok x.
Proof. by intros ->. Qed.

Lemma commitment_comm a x : commitment a x = x ⊙ HH ⊕ a ⊙ base.
Proof. apply gadd_comm. Qed.

Lemma decode_output_value rv sk j v2 e m x o : length (outPk rv) = length (ecdhInfo rv) -> ecdhInfo rv !! j = Some e -> outPk rv !! j = Some o ->
  ecdhDecode hash e sk v2 = Ok (Tx.EcdhTuple m (d2h x)) -> reduced m -> in_u 64 x -> ct_mask o = encode (commitment (le_bytes m) x) ->
  decode_output hash rv sk j v2 = Ok (x, m).
Proof.
  intros Hl He Ho Hd Hm Hx HC. unfold decode_output. bind_with (passes _ "Bad index" (proj2 (Nat.ltb_lt _ _) (lookup_lt_Some _ _ _ He))).
  bind_with (passes _ "Mismatched sizes of rv.outPk and rv.ecdhInfo" (proj2 (Nat.eqb_eq _ _) Hl)). bind_with (found _ _ He). bind_with Hd. cbn [Tx.mask Tx.amount].
  bind_with (found _ _ Ho). bind_with (checked_reduced m Hm). bind_with (passes true "warning, bad ECDH mask" eq_refl).
  bind_with (checked_reduced _ (d2h_reduced x Hx)). bind_with (passes true "warning, bad ECDH amount" eq_refl).
  rewrite <- encode_HH. bind_with (addKeys2_value m (d2h x) HH (reduced_slide _ Hm) (reduced_slide _ (d2h_reduced x Hx))). rewrite le_bytes_d2h, HC by done.
  bind_with (equalKeys_points (commitment (le_bytes m) x) (x ⊙ HH ⊕ le_bytes m ⊙ base)).
  bind_with (passes _ "warning, amount decoded incorrectly, will be unable to spend" (bool_decide_eq_true_2 _ (commitment_comm (le_bytes m) x))).
  by bind_with (h2d_d2h x Hx).
Qed.

(** ** Signatures *)

Lemma sign_mgs_value message ins a g : Forall input_ok ins -> Forall reduced a -> length a = length ins ->
  exists mgs cs g', sign_mgs hash gen message (mix_ring ins) (in_sk <$> ins) a (encode <$> zip_with commitment (le_bytes <$> a) (in_amount <$> ins)) None
      (in_index <$> ins) g = Ok (mgs, cs, g') /\ length mgs = length ins /\
    forall j i, ins !! j = Some i -> exists mg C, mgs !! j = Some mg /\ (encode <$> zip_with commitment (le_bytes <$> a) (in_amount <$> ins)) !! j = Some C /\
      verRctMGSimple_v2 hash message mg (pub_of <$> in_ring i) C = Ok (ring_good (in_ring i)).
Proof.
  revert ins g. induction a as [| m a IH]; intros [| i ins] g Hi Ha Hl; try discriminate Hl; [by exists [], [], g |].
  apply Forall_cons in Hi as [Hi His]. apply Forall_cons in Ha as [Ha Has]. injection Hl as Hl.
  destruct Hi as (H2 & Hd & Hm & Hx & Hr).
  destruct (mg_simple_complete hash gen message (in_ring i) (in_index i) _ _ (in_sk i) m (in_amount i) g H2 Hr Hd Hm (reduced_scalar _ Ha) eq_refl eq_refl)
    as (mg & c & g1 & E1 & _ & V). rewrite mg_same in V by first [apply encode_is_scalar | apply Forall_fmap, Forall_true; intros pc; split; apply encode_is_scalar].
  destruct (IH ins g1 His Has Hl) as (mgs & cs & g2 & E2 & Lm & HV). exists (mg :: mgs), (c :: cs), g2. rewrite !fmap_cons. cbn [zip_with]. rewrite fmap_cons. split_and!.
  - cbn [sign_mgs]. simpl_bind. bind_first E1. by bind_first E2.
  - cbn [length]. by rewrite Lm.
  - intros [| j] i' Hj; [| exact (HV j i' Hj)]. cbn in Hj. injection Hj as <-. exists mg, (encode (commitment (le_bytes m) (in_amount i))). done.
Qed.

Lemma all_tasks_ok bs : all_tasks (Ok <$> bs) = Ok (forallb id bs).
Proof. induction bs as [| b bs IH]; [done |]. cbn [fmap list_fmap all_tasks forallb]. simpl_bind. rewrite IH. done. Qed.


(** ** The transaction *)

(** What is known of a transaction after it is made, with the masks of its outputs and of its pseudo outputs. *)
Record made (rv : rctSig) (ins : list input) (outs : list output) (fee : Z) (masks a : list key) : Prop := {
  made_type : type rv = Tx.RCTTypeSimple;
  made_ring : mixRing rv = mix_ring ins;
  made_fee : txnFee rv = fee;
  made_plain : p_pseudoOuts (p rv) = [];
  made_ins : pseudoOuts rv = encode <$> zip_with commitment (le_bytes <$> a) (in_amount <$> ins);
  made_outs : ct_mask <$> outPk rv = encode <$> zip_with commitment (le_bytes <$> masks) (out_amount <$> outs);
  made_masks : Forall reduced masks /\ length masks = length outs;
  made_a : length a = length ins;
  made_balance : zsum (le_bytes <$> a) mod sc_order = zsum (le_bytes <$> masks) mod sc_order;
  made_ranges : Forall2 (fun C sig => verRange hash C sig = Ok true) (ct_mask <$> outPk rv) (rangeSigs (p rv));
  made_ecdh : length (ecdhInfo rv) = length outs /\ forall j o, outs !! j = Some o -> exists m e, masks !! j = Some m /\ ecdhInfo rv !! j = Some e /\
    ecdhDecode hash e (out_key o) false = Ok (Tx.EcdhTuple m (d2h (out_amount o)));
  made_signed : exists message, get_pre_mlsag_hash hash rv = Ok message /\ length (MGs (p rv)) = length ins /\
    forall j i, ins !! j = Some i -> exists mg C, MGs (p rv) !! j = Some mg /\ pseudoOuts rv !! j = Some C /\
      verRctMGSimple_v2 hash message mg (pub_of <$> in_ring i) C = Ok (ring_good (in_ring i))
}.

Lemma made_lengths rv ins outs fee masks a : made rv ins outs fee masks a ->
  length (outPk rv) = length outs /\ length (pseudoOuts rv) = length ins /\ length (rangeSigs (p rv)) = length outs.
Proof.
  intros M. assert (L : length (outPk rv) = length outs).
  { rewrite <- (length_fmap ct_mask), (made_outs _ _ _ _ _ _ M), length_fmap, length_zip_with, !length_fmap. destruct (made_masks _ _ _ _ _ _ M). lia. }
  split_and!; [done | |].
  - rewrite (made_ins _ _ _ _ _ _ M), length_fmap, length_zip_with, !length_fmap, (made_a _ _ _ _ _ _ M). lia.
  - by rewrite <- L, <- (length_fmap ct_mask), (Forall2_length _ _ _ (made_ranges _ _ _ _ _ _ M)).
Qed.

Lemma made_sum rv ins outs fee masks a : made rv ins outs fee masks a -> in_u 64 fee ->
  zsum (in_amount <$> ins) = zsum (out_amount <$> outs) + fee -> semantics_sum rv = Ok true.
Proof.
  intros M Hf Hs. pose proof (made_type _ _ _ _ _ _ M) as Ht. pose proof (made_fee _ _ _ _ _ _ M) as Ef. destruct (made_masks _ _ _ _ _ _ M) as [_ Lm].
  rewrite (semantics_sum_value rv (zip_with commitment (le_bytes <$> a) (in_amount <$> ins)) (zip_with commitment (le_bytes <$> masks) (out_amount <$> outs))).
  - rewrite !gsum_commitments by (rewrite !length_fmap; first [done | by rewrite (made_a _ _ _ _ _ _ M)]). rewrite bool_decide_true; [done |].
    rewrite Ef, Hs. unfold commitment. rewrite gmul_add, <- (gmul_mod sc_order (zsum (le_bytes <$> a))) by first [apply base_order | done].
    rewrite (made_balance _ _ _ _ _ _ M), gmul_mod by first [apply base_order | done]. rewrite (gadd_comm (zsum (out_amount <$> outs) ⊙ HH)). apply gadd_swap.
  - rewrite simple_pseudo_outs by done. apply M.
  - apply M.
  - by rewrite Ef.
Qed.

Lemma range_tasks_ok (os : list ctkey) sigs : Forall2 (fun C sig => verRange hash C sig = Ok true) (ct_mask <$> os) sigs ->
  all_tasks (zip_with (fun o r => verRange hash (ct_mask o) r) os sigs) = Ok true.
Proof.
  revert sigs. induction os as [| o os IH]; intros sigs Hf; [done |]. rewrite fmap_cons in Hf. apply Forall2_cons_inv_l in Hf as (sig & sigs' & Hv & Hf & ->).
  cbn [zip_with all_tasks]. bind_with Hv. by bind_with (IH _ Hf).
Qed.

Lemma made_semantics V2 VP rv ins outs fee masks a : made rv ins outs fee masks a -> in_u 64 fee ->
  zsum (in_amount <$> ins) = zsum (out_amount <$> outs) + fee -> verRctSemanticsSimple hash V2 VP [rv] = Ok true.
Proof.
  intros M Hf Hs. pose proof (made_type _ _ _ _ _ _ M) as Ht. destruct (made_lengths _ _ _ _ _ _ M) as (L1 & L2 & L3). destruct (made_ecdh _ _ _ _ _ _ M) as [L4 _].
  destruct (made_signed _ _ _ _ _ _ M) as (message & _ & L5 & _). unfold verRctSemanticsSimple. cbn [forallb].
  assert (Es : semantics_sizes rv = true).
  { unfold semantics_sizes. rewrite Ht, (made_plain _ _ _ _ _ _ M), L1, L2, L3, L4, L5. cbn. by rewrite !Nat.eqb_refl. }
  rewrite Es. cbn [andb check_or_false semantics_sums]. bind_with (made_sum _ _ _ _ _ _ M Hf Hs). cbn [check_or_false]. simpl_bind. cbn [check_or_false].
  unfold collect_tasks, collect_proofs, collect_proofs_plus. cbn [fmap list_fmap concat]. destruct simple_kind as (E1 & E2 & _). rewrite Ht, E1, E2.
  cbn [orb app length Nat.eqb check_or_false]. simpl_bind. cbn [check_or_false]. rewrite app_nil_r. unfold range_tasks.
  by rewrite (range_tasks_ok _ _ (made_ranges _ _ _ _ _ _ M)).
Qed.

Lemma made_inputs rv ins outs fee masks a message : made rv ins outs fee masks a ->
  (forall j i, ins !! j = Some i -> exists mg C, MGs (p rv) !! j = Some mg /\ pseudoOuts rv !! j = Some C /\
      verRctMGSimple_v2 hash message mg (pub_of <$> in_ring i) C = Ok (ring_good (in_ring i))) ->
  input_task hash message rv <$> seq 0 (length (mixRing rv)) = Ok <$> ((fun i => ring_good (in_ring i)) <$> ins).
Proof.
  intros M HV. pose proof (made_type _ _ _ _ _ _ M) as Ht. rewrite (made_ring _ _ _ _ _ _ M), length_fmap. apply list_eq. intros j.
  rewrite !list_lookup_fmap. destruct (ins !! j) as [i |] eqn:Ei.
  - rewrite lookup_seq_lt by by apply lookup_lt_Some in Ei. cbn [fmap option_fmap option_map]. f_equal. destruct (HV j i Ei) as (mg & C & Em & EC & V).
    change (0 + j)%nat with j. unfold input_task. rewrite (made_ring _ _ _ _ _ _ M), list_lookup_fmap, Ei, simple_pseudo_outs, EC, Em, Ht by done. destruct simple_kind as (_ & _ & ->).
    cbn [fmap option_fmap option_map]. simpl_bind. exact V.
  - rewrite lookup_seq_ge by by apply lookup_ge_None in Ei. done.
Qed.

Lemma made_ring_checked rv ins outs fee masks a : made rv ins outs fee masks a ->
  verRctNonSemanticsSimple hash rv = Ok (forallb (fun i => ring_good (in_ring i)) ins).
Proof.
  intros M. pose proof (made_type _ _ _ _ _ _ M) as Ht. destruct (made_lengths _ _ _ _ _ _ M) as (_ & L2 & _).
  destruct (made_signed _ _ _ _ _ _ M) as (message & Em & _ & HV). unfold verRctNonSemanticsSimple. rewrite simple_pseudo_outs, Ht by done.
  rewrite (proj2 (Nat.eqb_eq (length (pseudoOuts rv)) _)) by (rewrite L2, (made_ring _ _ _ _ _ _ M); by rewrite length_fmap).
  cbn [Z.eqb Pos.eqb orb Tx.RCTTypeSimple check_or_false]. bind_with Em. rewrite (made_inputs _ _ _ _ _ _ message M HV), all_tasks_ok. simpl_bind.
  replace (forallb id _) with (forallb (fun i => ring_good (in_ring i)) ins); [by destruct (forallb _ ins) |].
  clear. induction ins as [| i ins IH]; [done |]. cbn [forallb fmap list_fmap]. by rewrite IH.
Qed.

Lemma made_decoded rv ins outs fee masks a j o : made rv ins outs fee masks a -> outs !! j = Some o -> in_u 64 (out_amount o) ->
  exists m, masks !! j = Some m /\ decodeRctSimple hash rv (out_key o) j = Ok (out_amount o, Some m).
Proof.
  intros M Ho Hx. destruct (made_ecdh _ _ _ _ _ _ M) as [L4 Hd]. destruct (Hd j o Ho) as (m & e & Em & Ee & Ed). exists m. split; [done |].
  destruct (made_lengths _ _ _ _ _ _ M) as (L1 & _). destruct (made_masks _ _ _ _ _ _ M) as [Hm _].
  destruct (lookup_lt_is_Some_2 (outPk rv) j) as [k Ek]; [rewrite L1; by apply lookup_lt_Some in Ho |].
  unfold decodeRctSimple. rewrite (made_type _ _ _ _ _ _ M). change (is_rct_simple Tx.RCTTypeSimple) with true. change (Tx.short_amounts Tx.RCTTypeSimple) with false. cbv iota.
  rewrite (decode_output_value rv (out_key o) j false e m (out_amount o) k); [done | congruence | done | done | done | | done |].
  - exact (Forall_lookup_1 _ _ _ _ Hm Em).
  - assert (E : (ct_mask <$> outPk rv) !! j = Some (encode (commitment (le_bytes m) (out_amount o)))).
    { rewrite (made_outs _ _ _ _ _ _ M), list_lookup_fmap, lookup_zip_with, !list_lookup_fmap, Em, Ho. done. }
    rewrite list_lookup_fmap, Ek in E. cbn [fmap option_fmap option_map] in E. congruence.
Qed.


Lemma encoded_scalars (ps : list point) : Forall is_scalar (encode <$> ps).
Proof. apply Forall_fmap, Forall_true. intros q. apply encode_is_scalar. Qed.

Lemma made_scalars_in rv ins outs fee masks a : made rv ins outs fee masks a -> Forall is_scalar (pseudo_outs rv).
Proof. intros M. rewrite simple_pseudo_outs by apply M. rewrite (made_ins _ _ _ _ _ _ M). apply encoded_scalars. Qed.

Lemma made_scalars_out rv ins outs fee masks a : made rv ins outs fee masks a -> Forall is_scalar (ct_mask <$> outPk rv).
Proof. intros M. rewrite (made_outs _ _ _ _ _ _ M). apply encoded_scalars. Qed.

Lemma made_scalars_ring rv ins outs fee masks a : made rv ins outs fee masks a -> Forall (Forall ct_scalars) (mixRing rv).
Proof.
  intros M. rewrite (made_ring _ _ _ _ _ _ M). apply Forall_fmap, Forall_true. intros i. apply Forall_fmap, Forall_true. intros pc. split; apply encode_is_scalar.
Qed.

Lemma made_opens_in rv ins outs fee masks a : made rv ins outs fee masks a -> opens (pseudo_outs rv) (le_bytes <$> a) (in_amount <$> ins).
Proof. intros M. rewrite simple_pseudo_outs by apply M. split; [apply M |]. by rewrite !length_fmap, (made_a _ _ _ _ _ _ M). Qed.

Lemma made_opens_out rv ins outs fee masks a : made rv ins outs fee masks a -> opens (ct_mask <$> outPk rv) (le_bytes <$> masks) (out_amount <$> outs).
Proof. intros M. split; [apply M |]. destruct (made_masks _ _ _ _ _ _ M) as [_ L]. by rewrite !length_fmap, L. Qed.

(** ** The generator *)

Context (P1 : Z -> key -> St -> outcome (Bulletproof * St)) (P2 : list Z -> list key -> St -> outcome (Bulletproof * St)).
Context (PP : list Z -> list key -> St -> outcome (BulletproofPlus * St)) (bits : list Z) (fake : bool).

Lemma index_checked ins : Forall input_ok ins -> forallb (fun '(i, ring) => (i <? length (ring : list ctkey))%nat) (zip (in_index <$> ins) (mix_ring ins)) = true.
Proof.
  intros Hi. induction Hi as [| i ins (_ & _ & _ & _ & Hr) _ IH]; [done |]. cbn [fmap list_fmap zip zip_with forallb]. rewrite length_fmap.
  rewrite (proj2 (Nat.ltb_lt _ _) (lookup_lt_Some _ _ _ Hr)). exact IH.
Qed.

Lemma arguments_checked ins outs : ins <> [] -> Forall input_ok ins ->
  check_arguments (in_sk <$> ins) (out_dest <$> outs) (in_amount <$> ins) (out_amount <$> outs) (mix_ring ins) (out_key <$> outs) (in_index <$> ins) = Ok tt.
Proof.
  intros Hn Hi. unfold check_arguments. rewrite !length_fmap, !Nat.eqb_refl, (index_checked ins Hi). by destruct ins.
Qed.

Lemma zip_masks (dests Cs : list key) : length dests = length Cs -> ct_mask <$> zip_with Ctkey dests Cs = Cs.
Proof. revert Cs. induction dests as [| d dests IH]; intros [| C Cs] Hl; try done. injection Hl as Hl. cbn [zip_with fmap list_fmap ct_mask]. f_equal. by apply IH. Qed.

(** The generator returns a transaction of this kind. *)
Lemma generated message ins outs fee v g : ins <> [] -> Forall input_ok ins -> Forall (fun o => in_u 64 (out_amount o)) outs -> in_u 64 fee -> length bits = 64%nat ->
  exists rv masks a cs g', genRctSimple hash gen P1 P2 PP bits fake message (in_sk <$> ins) (out_dest <$> outs) (in_amount <$> ins) (out_amount <$> outs) fee
      (mix_ring ins) (out_key <$> outs) None false (in_index <$> ins) {| range_proof_type := RangeProofBorromean; bp_version := v |} g = Ok (rv, masks, cs, g') /\
    made rv ins outs fee masks a.
Proof.
  intros Hn Hi Ho Hf Hb. assert (Hx : Forall (in_u 64) (out_amount <$> outs)) by by apply Forall_fmap.
  destruct (prove_each_value bits (out_amount <$> outs) g Hb Hx) as (masks & sigs & g1 & E1 & Hm & Lm & HR).
  assert (Hxi : Forall (in_u 64) (in_amount <$> ins)) by (apply Forall_fmap; eapply Forall_impl; [exact Hi |]; intros i Hii; apply Hii).
  assert (Hms : Forall is_scalar masks) by (eapply Forall_impl; [exact Hm | apply reduced_scalar]). rewrite length_fmap in Lm.
  destruct (encode_outputs_value masks outs Hm Ho Lm) as (es & E2 & Le & Hd). set (so := zsum (le_bytes <$> masks) mod sc_order).
  destruct (make_pseudo_outs_value (in_amount <$> ins) so 0 g1) as (a & g2 & E3 & Ha & La & Hs); [by destruct ins | done | by apply Z.mod_pos_bound | done |].
  rewrite length_fmap in La. rewrite length_fmap in E1. set (Cs := encode <$> zip_with commitment (le_bytes <$> masks) (out_amount <$> outs)) in *.
  set (po := encode <$> zip_with commitment (le_bytes <$> a) (in_amount <$> ins)) in *.
  set (rv := fun mgs => RctSig Tx.RCTTypeSimple message (mix_ring ins) po es (zip_with Ctkey (out_dest <$> outs) Cs) fee (RctSigPrunable sigs [] mgs [] [] [])).
  assert (LC : length (out_dest <$> outs) = length Cs) by (unfold Cs; rewrite !length_fmap, length_zip_with, !length_fmap; lia).
  destruct (pre_hash_defined hash (rv [])) as [full Eh];
    [done | cbn [rv mixRing]; rewrite length_fmap; destruct ins; [done | cbn; lia]
    | cbn [rv mixRing pseudoOuts]; unfold po; rewrite !length_fmap, length_zip_with, !length_fmap; lia
    | cbn [rv outPk ecdhInfo]; rewrite length_zip_with, LC; unfold Cs; rewrite !length_fmap, length_zip_with, !length_fmap; lia |].
  destruct (sign_mgs_value full ins a g2 Hi Ha La) as (mgs & cs & g3 & E4 & Lg & HV).
  exists (rv mgs), masks, a, cs, g3. split.
  - unfold genRctSimple, genRctSimple_v1. cbn [range_proof_type bp_version]. rewrite bool_decide_true by done. bind_first (arguments_checked ins outs Hn Hi).
    bind_first (eq_refl (Ok tt)). cbn [negb]. unfold prove_v1. rewrite length_fmap.
    refine (eq_trans (bind_ok _ (Cs, masks, [], sigs, g1) _ _) _); [by bind_first E1 |]. cbv beta iota.
    bind_first (sum_masks_value masks Hms). bind_first E2. fold so. bind_first E3. bind_first Eh. bind_first E4. reflexivity.
  - constructor; try done.
    + exact (zip_masks _ _ LC).
    + rewrite Hs. unfold so. by rewrite Z.sub_0_r, Zmod_mod.
    + cbn [rv outPk p rangeSigs]. by rewrite (zip_masks _ _ LC).
    + cbn [rv ecdhInfo]. split; [done |]. intros j o Hj. destruct (Hd j o Hj) as (m & e & ? & ? & _ & ?). by exists m, e.
    + by exists full.
Qed.

(** C5: Whoever knows the secrets of one member of each ring, with amounts that pay the outputs and the fee, always gets a
    transaction from the generator. Both generations of the checks without the ring accept it, the checks with the ring
    accept it unless a key of a ring hashes to the neutral point, and the receiver of each output decodes its amount and the
    mask that opens its commitment. *)
Theorem generated_accepted V1 V2 VP message ins outs fee v g : ins <> [] -> Forall input_ok ins -> Forall (fun o => in_u 64 (out_amount o)) outs ->
  in_u 64 fee -> length bits = 64%nat -> zsum (in_amount <$> ins) = zsum (out_amount <$> outs) + fee ->
  exists rv masks cs g', genRctSimple hash gen P1 P2 PP bits fake message (in_sk <$> ins) (out_dest <$> outs) (in_amount <$> ins) (out_amount <$> outs) fee
      (mix_ring ins) (out_key <$> outs) None false (in_index <$> ins) {| range_proof_type := RangeProofBorromean; bp_version := v |} g = Ok (rv, masks, cs, g') /\
    verRctSemanticsSimple hash V2 VP [rv] = Ok true /\ verRctSemanticsSimple_v1 hash V1 rv = Ok true /\
    verRctNonSemanticsSimple hash rv = Ok (forallb (fun i => ring_good (in_ring i)) ins) /\
    verRctNonSemanticsSimple_v1 hash rv = Ok (forallb (fun i => ring_good (in_ring i)) ins) /\
    forall j o, outs !! j = Some o -> exists m, masks !! j = Some m /\ decodeRctSimple hash rv (out_key o) j = Ok (out_amount o, Some m).
Proof.
  intros Hn Hi Ho Hf Hb Hs. destruct (generated message ins outs fee v g Hn Hi Ho Hf Hb) as (rv & masks & a & cs & g' & E & M).
  pose proof (made_type _ _ _ _ _ _ M) as Ht.
  pose proof (made_scalars_in _ _ _ _ _ _ M) as Sp. rewrite (simple_pseudo_outs rv Ht) in Sp. pose proof (made_scalars_out _ _ _ _ _ _ M) as So.
  pose proof (made_scalars_ring _ _ _ _ _ _ M) as Sr.
  exists rv, masks, cs, g'. split_and!; [done | | | | |].
  - by apply (made_semantics V2 VP rv ins outs fee masks a).
  - rewrite (semantics_same hash V1 V2 VP rv Ht Sp So) by by rewrite (made_fee _ _ _ _ _ _ M). by apply (made_semantics V2 VP rv ins outs fee masks a).
  - by apply (made_ring_checked rv ins outs fee masks a).
  - rewrite (ring_same hash rv Ht Sp Sr). by apply (made_ring_checked rv ins outs fee masks a).
  - intros j o Hj. apply (made_decoded rv ins outs fee masks a j o M Hj). exact (Forall_lookup_1 _ _ _ _ Ho Hj).
Qed.
End Generation.

(** ** Witnesses *)

(** An input of 7 with two members, and an output of 5. *)
Definition sample_input : input :=
  Input [(le_bytes one_key ⊙ base, commitment (le_bytes one_key) 7); (base, base)] (Ctkey one_key one_key) 7 0.
Definition sample_output : output := Output one_key 5 one_key.

Lemma sample_input_ok : Forall input_ok [sample_input].
Proof.
  constructor; [| done]. split_and!; [cbn; lia | exact one_key_reduced | exact (reduced_scalar _ one_key_reduced) | split; [by apply Z.leb_le | by apply Z.ltb_lt] | reflexivity].
Qed.

Lemma sample_output_ok : Forall (fun o => in_u 64 (out_amount o)) [sample_output].
Proof. constructor; [split; [by apply Z.leb_le | by apply Z.ltb_lt] | done]. Qed.

Lemma two_in_u : in_u 64 2.
Proof. split; [by apply Z.leb_le | by apply Z.ltb_lt]. Qed.

Abbreviation no_proof := (fun _ _ _ => Undef).

(** The generator on the samples, with a fee of 2. *)
Lemma sample_made V2 VP : exists rv masks a, made cn_fast_hash rv [sample_input] [sample_output] 2 masks a /\ verRctSemanticsSimple cn_fast_hash V2 VP [rv] = Ok true.
Proof.
  destruct (generated cn_fast_hash constant_bytes no_proof no_proof no_proof (replicate 64 0) false one_key [sample_input] [sample_output] 2 0 6
    ltac:(done) sample_input_ok sample_output_ok two_in_u eq_refl) as (rv & masks & a & cs & g' & _ & M).
  exists rv, masks, a. split; [done |]. exact (made_semantics _ V2 VP rv _ _ _ _ _ M two_in_u eq_refl).
Qed.

Lemma generated_accepted_witness : exists rv masks cs g',
  genRctSimple cn_fast_hash constant_bytes no_proof no_proof no_proof (replicate 64 0) false one_key [Ctkey one_key one_key] [one_key] [7] [5] 2
    (mix_ring [sample_input]) [one_key] None false [0%nat] {| range_proof_type := RangeProofBorromean; bp_version := 0 |} 6 = Ok (rv, masks, cs, g') /\
  exists m, decodeRctSimple cn_fast_hash rv one_key 0 = Ok (5, Some m).
Proof.
  destruct (generated_accepted cn_fast_hash constant_bytes no_proof no_proof no_proof (replicate 64 0) false (fun _ _ => Undef) (fun _ => Undef) (fun _ => Undef)
    one_key [sample_input] [sample_output] 2 0 6 ltac:(done) sample_input_ok sample_output_ok two_in_u eq_refl eq_refl) as (rv & masks & cs & g' & E & _ & _ & _ & _ & D).
  exists rv, masks, cs, g'. split; [exact E |]. destruct (D 0%nat sample_output eq_refl) as (m & _ & Ed). exists m. exact Ed.
Defined.

Lemma zero_commits_agree_witness : in_u 64 2 /\ zeroCommit 2 true = zeroCommit 2 false.
Proof. exact (conj two_in_u (zero_commits_agree 2 two_in_u)). Defined.

Lemma semantics_balanced_witness : exists rv ins outs, verRctSemanticsSimple cn_fast_hash (fun _ => Undef) (fun _ => Undef) [rv] = Ok true /\
  pseudo_outs rv = encode <$> ins /\ gsum ins = 2 ⊙ HH ⊕ gsum outs.
Proof.
  destruct (sample_made (fun _ => Undef) (fun _ => Undef)) as (rv & masks & a & M & E). pose proof (made_fee _ _ _ _ _ _ _ M) as Ef.
  assert (Hf : in_u 64 (txnFee rv)) by (rewrite Ef; exact two_in_u).
  destruct (semantics_balanced cn_fast_hash (fun _ => Undef) (fun _ => Undef) [rv] rv E (list_elem_of_here _ _) (made_scalars_in _ _ _ _ _ _ _ M) (made_scalars_out _ _ _ _ _ _ _ M) Hf)
    as (ins & outs & Ei & _ & Es).
  exists rv, ins, outs. rewrite Ef in Es. exact (conj E (conj Ei Es)).
Defined.

Lemma no_inflation_witness : exists rv masks a, verRctSemanticsSimple cn_fast_hash (fun _ => Undef) (fun _ => Undef) [rv] = Ok true /\
  (zsum [7] = zsum [5] + txnFee rv \/ HH = logarithm (zsum (le_bytes <$> a)) (zsum [7]) (zsum (le_bytes <$> masks)) (zsum [5] + txnFee rv) ⊙ base).
Proof.
  destruct (sample_made (fun _ => Undef) (fun _ => Undef)) as (rv & masks & a & M & E). pose proof (made_fee _ _ _ _ _ _ _ M) as Ef.
  exists rv, masks, a. split; [exact E |].
  exact (no_inflation cn_fast_hash (fun _ => Undef) (fun _ => Undef) [rv] rv (le_bytes <$> a) [7] (le_bytes <$> masks) [5] E (list_elem_of_here _ _)
    (made_opens_in _ _ _ _ _ _ _ M) (made_opens_out _ _ _ _ _ _ _ M)
    ltac:(apply Forall_cons_2, Forall_nil_2; split; [by apply Z.leb_le | by apply Z.ltb_lt]) ltac:(apply Forall_cons_2, Forall_nil_2; split; [by apply Z.leb_le | by apply Z.ltb_lt])
    ltac:(rewrite Ef; exact two_in_u) eq_refl eq_refl).
Defined.

Lemma semantics_generations_agree_witness : exists rv, type rv = Tx.RCTTypeSimple /\
  verRctSemanticsSimple_v1 cn_fast_hash (fun _ _ => Undef) rv = verRctSemanticsSimple cn_fast_hash (fun _ => Undef) (fun _ => Undef) [rv].
Proof.
  destruct (sample_made (fun _ => Undef) (fun _ => Undef)) as (rv & masks & a & M & E). pose proof (made_fee _ _ _ _ _ _ _ M) as Ef. pose proof (made_type _ _ _ _ _ _ _ M) as Ht.
  exists rv. split; [exact Ht |]. pose proof (made_scalars_in _ _ _ _ _ _ _ M) as Hp. rewrite (simple_pseudo_outs rv Ht) in Hp.
  exact (semantics_generations_agree cn_fast_hash (fun _ _ => Undef) (fun _ => Undef) (fun _ => Undef) rv Ht Hp (made_scalars_out _ _ _ _ _ _ _ M) ltac:(rewrite Ef; exact two_in_u)).
Defined.

Lemma ring_generations_agree_witness : exists rv, type rv = Tx.RCTTypeSimple /\ verRctNonSemanticsSimple_v1 cn_fast_hash rv = verRctNonSemanticsSimple cn_fast_hash rv.
Proof.
  destruct (sample_made (fun _ => Undef) (fun _ => Undef)) as (rv & masks & a & M & E). pose proof (made_type _ _ _ _ _ _ _ M) as Ht.
  exists rv. split; [exact Ht |]. pose proof (made_scalars_in _ _ _ _ _ _ _ M) as Hp. rewrite (simple_pseudo_outs rv Ht) in Hp.
  exact (ring_generations_agree cn_fast_hash rv Ht Hp (made_scalars_ring _ _ _ _ _ _ _ M)).
Defined.
